(* ===== verification/_CoqProject ===== *)
-Q . S2P
Prelude.v
DataIO.v
CodecLib.v
BitmapSchema.v
Text.v
TlvCodec.v
TlvAny.v
MessageReception.v
MessageCounter.v
MessageCodec.v
BtpCodec.v
BtpSession.v
BtpLink.v
Base38.v
Verhoeff.v
PairingCode.v
Heap.v
AccessControl.v
TlvSchemas.v
TlvRoundTrip.v
TlvConstraints.v
TxLocks.v
TxSafety.v
TxCommit.v
TxProtocol.v
WalStore.v
WalLog.v
WalRecovery.v
Aes.v
AesSpec.v
AesInverse.v
Ccm.v
CcmSpec.v
CcmCorrect.v
Exchange.v
ExchangeLink.v
ExchangeCalls.v
ExchangeReliable.v
ExchangeCases.v
BigEndian.v
Der.v
DerCorrect.v
JsText.v
Ip.v
IpCorrect.v
Dns.v
DnsCorrect.v
DnsRoundTrip.v
Cmac.v
