(* ===== verification/Prelude.v ===== *)
(** * matter.js verification library

    matter.js is an implementation of the Matter smart-home protocol in
    TypeScript.  This library models the parts of it that carry protocol and
    data-integrity logic as functions of the Rocq logic, and proves what makes
    them correct.  Paths below are relative to src/packages/.

    ** The program and its model

    A node exchanges messages with its peers: the data model is serialized as
    TLV, a message gets a header with a counter, is encrypted, and goes out over
    UDP, TCP or, while a device is commissioned, over BTP on a BLE link.  The
    receiver drops duplicates, decodes, asks the access control list, and runs
    the interaction against the node's state inside a transaction.

    The files follow those layers, bottom up:

    - Prelude.v: the error type and monad ([let*]), JavaScript integer operators
      at 32 bits, generic lemmas.  Every thrown error class is a constructor of
      [MatterError].
    - DataIO.v: general/src/util/Bytes.ts, DataReader.ts, DataWriter.ts.  The
      reader is explicit state passing, the writer keeps the chunk list.
    - CodecLib.v: what the hand-written codecs share in their proofs.
    - BitmapSchema.v: types/src/schema/BitmapSchema.ts, numeric bitmaps and (in
      Module [ByteArray]) bitmaps over byte arrays.
    - Text.v: UTF-8 and IEEE 754 images, the part of the platform the codecs use.
    - TlvCodec.v, TlvAny.v: types/src/tlv/TlvCodec.ts, TlvAny.ts and the readers
      and writers of TlvSchema.ts: elements, tags, streams.
    - TlvSchemas.v, TlvRoundTrip.v, TlvConstraints.v: the typed schemas of
      types/src/tlv (numbers, strings, booleans, nullables, arrays, objects,
      wrappers): model, round trip, ranges and options.
    - MessageReception.v, MessageCounter.v, MessageCodec.v: the duplicate
      window, the outgoing counters and the frame of
      protocol/src/protocol/MessageReceptionState.ts, MessageCounter.ts and
      protocol/src/codec/MessageCodec.ts.
    - BtpCodec.v, BtpSession.v, BtpLink.v: protocol/src/codec/BtpCodec.ts and
      protocol/src/ble/BtpSessionHandler.ts; two sessions joined by a transport.
    - Base38.v, Verhoeff.v, PairingCode.v: onboarding payloads,
      types/src/schema/Base38Schema.ts, general/src/math/Verhoeff.ts,
      types/src/schema/PairingCodeSchema.ts (Modules [Manual] and [Qr]).
    - Heap.v: general/src/util/Heap.ts.
    - AccessControl.v: CASE authenticated tags (Module [Cat]), the access
      control list (Module [Acl]) and its enforcement (Module [Enforcer]) from
      types/src/datatype, protocol/src/interaction and
      protocol/src/action/server/AccessControl.ts.
    - TxLocks.v, TxSafety.v: the locking half of general/src/transaction
      (ResourceSet.ts, Tx.ts) and the transition system of any number of
      transactions.
    - TxCommit.v, TxProtocol.v: the commit cycle of Tx.ts with the participants
      of Participant.ts, and the grammar of its traces.
    - WalStore.v, WalLog.v, WalRecovery.v: the write-ahead log storage of
      general/src/storage/wal: contents and transactions, the log files with
      their segments and snapshots, and recovery after a crash.
    - Aes.v, AesSpec.v, AesInverse.v, Ccm.v, CcmSpec.v, CcmCorrect.v, Cmac.v:
      general/src/crypto/aes (Aes.ts, WordArray.ts, Ccm.ts, Cmac.ts), with the
      ciphers of FIPS 197 (Module [Fips]), NIST SP 800-38C (Module [Nist]) and
      RFC 4493 (Module [Rfc4493]) they are compared with.
    - Exchange.v: protocol/src/protocol/MessageExchange.ts with the dispatch of
      ExchangeManager.ts; ExchangeLink.v and ExchangeCalls.v: invariants of one
      end; ExchangeReliable.v: two ends over an unreliable network, each with a
      secure session whose reception window (MessageReception.v, as set up in
      protocol/src/session/NodeSession.ts) tells the duplicates;
      ExchangeCases.v: runs of special interest.
    - Der.v, DerCorrect.v: general/src/codec/DerCodec.ts and
      general/src/crypto/EcdsaSignature.ts.
    - Dns.v, DnsCorrect.v, DnsRoundTrip.v: general/src/codec/DnsCodec.ts, over
      BigEndian.v (readers and writers in network byte order).
    - Ip.v, IpCorrect.v: general/src/util/Ip.ts, over JsText.v (the string
      methods and number conversions of the language).

    ** How the code is modelled

    A function of the source is a definition of the same name where Rocq allows
    it.  Fallible code returns a [result]; code that mutates an object takes the
    record of its fields and returns the new one.  Numbers are integers, cut to
    their width where the source writes them to a fixed width or uses a bitwise
    operator.  Strings are lists of UTF-16 code units, byte arrays lists of
    integers below 256.

    Asynchronous code is cut at its [await]s: a suspended operation is part of
    the state and the environment decides which one goes on.  BtpSession.v
    does this for one session, its writes and its disconnect callback,
    MessageCounter.v for overlapping calls and the storage writes of reserved
    blocks, TxLocks.v
    for all transactions of a process, Exchange.v for the sends,
    acknowledgements and retransmissions of an exchange.  The log of WalLog.v is
    cut at every file operation, since a crash may come between any two, and a
    snapshot of the driver at the save it awaits.

    Code outside the repository's own sources enters as a parameter: the hooks
    of transaction participants ([behaviour] in TxCommit.v), the extension check
    of an access control list, the comparison of a heap, the text of a commit
    ([CommitFormat] in WalLog.v).  The byte order of the platform and what
    earlier calls left in shared buffers are parameters of Ccm.v.  Clock, back-off
    and session parameters reach an exchange with each event ([Env]).

    ** What is shown

    - Round trips: bytes and numbers, bitmaps, TLV elements, typed TLV values
      (including objects read by an older schema and arrays sent in chunks),
      message frames with their privacy-enhanced form, BTP packets, manual and
      QR pairing codes, Base38, DER values and signatures, DNS messages, IP
      addresses, AES blocks.
    - Refinement of an abstract specification: the duplicate window against the
      set of counters it stands for; the heap against a priority set; two BTP
      sessions against a reliable channel; the access control list against the
      grants it states; a commit against the documented table of hooks; the
      DNS decoder against the wire format of RFC 1035 with compressed names.
    - Equivalence with a published algorithm: AES, AES-CCM and AES-CMAC for all
      keys and messages; the hexadecimal texts of IPv6
      addresses of RFC 4291 and RFC 5952.
    - Durability: whatever is committed, compressed, cleaned or interrupted by
      a crash between file operations, the log replays to the completed commits.
      This is for runs in which no snapshot is noted after the log went on to a
      later segment than the snapshot's; [clean_after_racing_snapshot] loses a
      commit in a run where one is.
    - Reliable messaging: over a network that loses, repeats and reorders, a
      send that returns was received (when the application awaits its calls,
      aborts none and the exchange is open), each message is handed over at most
      once, acknowledgements are truthful, and a silent peer is reported.
    - Invariants and safety under every interleaving: BTP window and sequence
      numbers; no replayed counter accepted; persisted counters never repeat
      after a crash; no grant across fabrics; exclusive transactions share no
      resource and never deadlock.  Calls on one persisted counter and on one
      transaction are awaited one after the other there, and the hooks of a
      commit do not commit or roll back themselves; what goes wrong with
      overlapping calls is in [overlapping_reserve_reissues],
      [disposed_waiter_keeps_lock] and [waiting_commit_writes].
    - Progress and termination: decoding ends on every input; the deadlock
      search ends; commits end; once no new work arrives, all transactions end
      and all locks are released.
    - Error behaviour: typos in pairing codes are detected; malformed packets
      are rejected; and a number of theorems pin down inputs on which the code
      does not do what it is meant to.

    ** Fuel and bounds

    Recursion that is not structural takes fuel, and [OutOfFuel] marks its
    absence.  Decoders get the number of remaining bytes (or elements), which
    each turn reduces; the heap loops get the length of the array; the deadlock
    search gets the number of transactions, since each nested call examines a
    new one; DNS names get one call for each byte of the message, since every
    pointer followed leads to an offset not visited before; the loops over
    transaction participants get the number of
    participants that can ever join.  The theorems about these functions show that this is enough.

    ** Not modelled

    The handshakes (PASE, CASE) and public-key cryptography; session
    management; the interaction messengers; mDNS discovery; certificates; the
    other storage drivers; the generated cluster model; the behaviour framework;
    the platform bindings; tools, tests and examples.  Within the modelled
    files: logging and diagnostics, lock monitoring, the TLV decoding of unknown
    data for logs, caches that do not change results, in DNS records values of another shape
    than their type asks for, and on exchanges group
    sessions, the timed-interaction timer and the back-off arithmetic. *)

From Stdlib Require Export ZArith Lia.
From stdpp Require Export base tactics option numbers list strings.
Open Scope Z_scope.

(** ** Errors and the error monad

    Every [throw new XError(...)] of the modelled code is a value of
    [MatterError]; the message text is dropped, the class is kept.
    [DataReadError] is the subclass of [UnexpectedDataError] raised by
    [DataReader].  [TypeError], [RangeError] and [SyntaxError] are the JavaScript engine's own errors,
    [PlainError] a bare [Error].
    [OutOfFuel] is no error of the code: it marks a model loop that was given
    too little fuel, and the termination theorems show it is never returned. *)

Inductive MatterError :=
| DataReadError
| UnexpectedDataError
| NotImplementedError
| InternalError
| ImplementationError
| ValidationError
| DuplicateMessageError
| BtpProtocolError
| BtpFlowError
| BleError
| TypeError
| MatterFlowError
| ReadError (status : Z)
| WriteError (status : Z)
| InvokeError (status : Z)
| SchemaImplementationError
| PlainError
| ReadOnlyError
| TransactionFlowError
| SynchronousTransactionConflictError
| TransactionDeadlockError
| TransactionDestroyedError
| FinalizationError
| UnsettledStateError
| MatterAggregateError
| StorageError
| CryptoInputError
| CryptoDecryptError
| DerError
| RangeError
| SyntaxError
| SignatureEncodingError
| AbortedError
| ClosedError
| NetworkError
| SessionClosedError
| PeerUnresponsiveError
| UnexpectedMessageError
| OutOfFuel.

#[global] Instance MatterError_eq_dec : EqDecision MatterError.
Proof. solve_decision. Defined.

Inductive result (A : Type) :=
| Ok (a : A)
| Throw (e : MatterError).
Arguments Ok {A} a.
Arguments Throw {A} e.

#[global] Instance result_eq_dec {A} `{EqDecision A} : EqDecision (result A).
Proof. solve_decision. Defined.

Definition rbind {A B} (m : result A) (k : A -> result B) : result B :=
  match m with
  | Ok a => k a
  | Throw e => Throw e
  end.

Declare Scope matter_scope.
Delimit Scope matter_scope with matter.
Open Scope matter_scope.

Notation "'let*' x := m 'in' k" := (rbind m (fun x => k))
  (at level 10, x pattern, m at level 100, k at level 200) : matter_scope.

(** Sequencing of writer calls, in source order. *)
Notation "w '|>' f" := (f w) (at level 50, left associativity, only parsing)
  : matter_scope.

(** [throw_if c e] is [if (c) throw e;]. *)
Definition throw_if (c : bool) (e : MatterError) : result unit :=
  if c then Throw e else Ok tt.

Definition is_ok {A} (r : result A) : bool :=
  match r with Ok _ => true | Throw _ => false end.

Lemma rbind_ok {A B} (m : result A) (k : A -> result B) b :
  rbind m k = Ok b <-> exists a, m = Ok a /\ k a = Ok b.
Proof.
  destruct m; simpl; split; [eauto| |done|].
  - by intros (x & [= <-] & H).
  - by intros (x & ? & _).
Qed.

Lemma rbind_assoc {A B C} (m : result A) (k : A -> result B) (h : B -> result C) :
  rbind (rbind m k) h = rbind m (fun a => rbind (k a) h).
Proof. by destruct m. Qed.

Lemma throw_if_false e : throw_if false e = Ok tt.
Proof. done. Qed.

(** ** JavaScript number semantics on integers

    A JavaScript number used as an integer is a [Z].  The bitwise operators
    convert their operands with [ToInt32] and yield a signed 32-bit value;
    [>>>] yields an unsigned one; shift counts are taken modulo 32. *)

Definition uint32 (z : Z) : Z := z mod 2 ^ 32.
Definition int32 (z : Z) : Z := (z + 2 ^ 31) mod 2 ^ 32 - 2 ^ 31.

Definition js_and (a b : Z) : Z := Z.land (int32 a) (int32 b).
Definition js_or (a b : Z) : Z := Z.lor (int32 a) (int32 b).
Definition js_shl (a n : Z) : Z := int32 (Z.shiftl (int32 a) (n mod 32)).
Definition js_shr (a n : Z) : Z := Z.shiftr (int32 a) (n mod 32).
Definition js_ushr (a n : Z) : Z := Z.shiftr (uint32 a) (n mod 32).

Lemma uint32_range z : 0 <= uint32 z < 2 ^ 32.
Proof. apply Z.mod_pos_bound; lia. Qed.

Lemma int32_range z : - 2 ^ 31 <= int32 z < 2 ^ 31.
Proof. unfold int32. pose proof (Z.mod_pos_bound (z + 2 ^ 31) (2 ^ 32)). lia. Qed.

Lemma int32_id z : - 2 ^ 31 <= z < 2 ^ 31 -> int32 z = z.
Proof. intros H. unfold int32. rewrite Z.mod_small; lia. Qed.

Lemma uint32_id z : 0 <= z < 2 ^ 32 -> uint32 z = z.
Proof. intros H. by apply Z.mod_small. Qed.

Lemma uint32_int32 z : uint32 (int32 z) = uint32 z.
Proof.
  unfold uint32, int32.
  rewrite <- (Z.mod_add (_ - 2 ^ 31) 1 (2 ^ 32)) by lia.
  replace ((z + 2 ^ 31) `mod` 2 ^ 32 - 2 ^ 31 + 1 * 2 ^ 32)
    with ((z + 2 ^ 31) `mod` 2 ^ 32 + 2 ^ 31) by lia.
  rewrite Z.add_mod_idemp_l by lia.
  replace (z + 2 ^ 31 + 2 ^ 31) with (z + 1 * 2 ^ 32) by lia.
  by rewrite Z.mod_add by lia.
Qed.

(** The low 32 bits are unaffected by [ToInt32]. *)
Lemma int32_testbit z i : 0 <= i < 32 -> Z.testbit (int32 z) i = Z.testbit z i.
Proof.
  intros Hi.
  rewrite <- (Z.mod_pow2_bits_low (int32 z) 32 i) by lia.
  change (int32 z mod 2 ^ 32) with (uint32 (int32 z)).
  rewrite uint32_int32. unfold uint32. by rewrite Z.mod_pow2_bits_low by lia.
Qed.

Lemma uint32_testbit z i :
  0 <= i -> Z.testbit (uint32 z) i = (i <? 32) && Z.testbit z i.
Proof.
  intros Hi. unfold uint32. destruct (Z.ltb_spec i 32); simpl.
  - by rewrite Z.mod_pow2_bits_low by lia.
  - by rewrite Z.mod_pow2_bits_high by lia.
Qed.

Lemma js_or_testbit a b i :
  0 <= i < 32 -> Z.testbit (js_or a b) i = Z.testbit a i || Z.testbit b i.
Proof. intros. unfold js_or. by rewrite Z.lor_spec, !int32_testbit by lia. Qed.

Lemma js_and_testbit a b i :
  0 <= i < 32 -> Z.testbit (js_and a b) i = Z.testbit a i && Z.testbit b i.
Proof. intros. unfold js_and. by rewrite Z.land_spec, !int32_testbit by lia. Qed.

Lemma js_shl_testbit a n i :
  0 <= n < 32 -> 0 <= i < 32 ->
  Z.testbit (js_shl a n) i = (n <=? i) && Z.testbit a (i - n).
Proof.
  intros Hn Hi. unfold js_shl. rewrite int32_testbit by lia.
  rewrite Z.mod_small by lia. rewrite Z.shiftl_spec by lia.
  destruct (Z.leb_spec n i); simpl.
  - by rewrite int32_testbit by lia.
  - by rewrite Z.testbit_neg_r by lia.
Qed.

(** On operands already in range the JavaScript operators are the plain
    bitwise operators. *)
Definition is_int32 (z : Z) : Prop := - 2 ^ 31 <= z < 2 ^ 31.

Lemma js_and_plain a b : is_int32 a -> is_int32 b -> js_and a b = Z.land a b.
Proof. intros. unfold js_and. by rewrite !int32_id. Qed.

Lemma js_or_plain a b : is_int32 a -> is_int32 b -> js_or a b = Z.lor a b.
Proof. intros. unfold js_or. by rewrite !int32_id. Qed.

Lemma int32_zero z :
  is_int32 z -> (forall i, 0 <= i < 32 -> Z.testbit z i = false) -> z = 0.
Proof.
  intros Hz Hb. assert (uint32 z = 0) as H0.
  { apply Z.bits_inj'. intros i Hi. rewrite uint32_testbit, Z.testbit_0_l by lia.
    destruct (Z.ltb_spec i 32); simpl; [apply Hb; lia|done]. }
  unfold uint32, is_int32 in *. apply Z.mod_divide in H0 as [k Hk]; lia.
Qed.

Lemma js_and_int32 a b : is_int32 (js_and a b).
Proof.
  pose proof (int32_range a). pose proof (int32_range b). unfold is_int32.
  assert (forall x, - 2 ^ 31 <= x < 2 ^ 31 <-> Z.shiftr x 31 = 0 \/ Z.shiftr x 31 = -1) as E.
  { intros x. rewrite Z.shiftr_div_pow2 by lia. split; intros.
    - destruct (decide (0 <= x)); [left; apply Z.div_small; lia|right].
      symmetry. apply (Z.div_unique _ _ _ (x + 2 ^ 31)); lia.
    - pose proof (Z.div_mod x (2 ^ 31)). pose proof (Z.mod_pos_bound x (2 ^ 31)). lia. }
  rewrite E. unfold js_and. rewrite Z.shiftr_land.
  apply E in H as [-> | ->]; apply E in H0 as [-> | ->]; vm_compute; auto.
Qed.

(** Masking with [0xffff] keeps the low 16 bits of any non-negative number. *)
Lemma js_and_ffff p : 0 <= p -> js_and p 0xffff = p mod 2 ^ 16.
Proof.
  intros Hp. unfold js_and. change (int32 0xffff) with (Z.ones 16).
  apply Z.bits_inj'. intros i Hi. rewrite Z.land_spec. destruct (decide (i < 16)).
  - by rewrite int32_testbit, Z.ones_spec_low, Z.mod_pow2_bits_low, andb_true_r by lia.
  - by rewrite Z.ones_spec_high, Z.mod_pow2_bits_high, andb_false_r by lia.
Qed.

(** ** Machine-width bounds *)

Lemma testbit_above z n i : 0 <= z < 2 ^ n -> 0 <= n <= i -> Z.testbit z i = false.
Proof.
  intros Hz Hi. rewrite <- (Z.mod_small z (2 ^ n)) by lia.
  by apply Z.mod_pow2_bits_high.
Qed.

Lemma land_range a b n : 0 <= n -> 0 <= b < 2 ^ n -> 0 <= Z.land a b < 2 ^ n.
Proof.
  intros Hn Hb. split; [apply Z.land_nonneg; lia|].
  rewrite <- (Z.mod_small b (2 ^ n)) by lia.
  rewrite <- Z.land_ones, Z.land_assoc, Z.land_ones by lia.
  apply Z.mod_pos_bound; lia.
Qed.

Lemma lor_range a b n :
  0 <= n -> 0 <= a < 2 ^ n -> 0 <= b < 2 ^ n -> 0 <= Z.lor a b < 2 ^ n.
Proof.
  intros Hn Ha Hb. split; [apply Z.lor_nonneg; lia|].
  assert (Z.lor a b = (Z.lor a b) mod 2 ^ n) as ->; [|apply Z.mod_pos_bound; lia].
  apply Z.bits_inj'. intros i Hi. destruct (decide (i < n)).
  - by rewrite Z.mod_pow2_bits_low by lia.
  - rewrite Z.mod_pow2_bits_high by lia.
    by rewrite Z.lor_spec, (testbit_above a n), (testbit_above b n) by lia.
Qed.

(** Bits that do not overlap are added by [Z.lor]. *)
Lemma lor_add a b n : 0 <= n -> 0 <= a < 2 ^ n -> Z.lor a (b * 2 ^ n) = a + b * 2 ^ n.
Proof.
  intros Hn Ha. rewrite <- Z.add_lor_land.
  assert (Z.land a (b * 2 ^ n) = 0) as ->; [|lia].
  apply Z.bits_inj'. intros i Hi. rewrite Z.land_spec, Z.testbit_0_l, <- Z.shiftl_mul_pow2 by lia.
  rewrite Z.shiftl_spec by lia. destruct (decide (i < n)).
  - by rewrite (Z.testbit_neg_r b), andb_false_r by lia.
  - by rewrite (testbit_above a n) by lia.
Qed.

(** ** Lists *)

Lemma take_drop_app {A} (pre mid post : list A) n :
  n = length mid -> take n (drop (length pre) (pre ++ mid ++ post)) = mid.
Proof. intros ->. rewrite drop_app_length. by rewrite take_app_length. Qed.

Lemma join_cons {A} (l : list A) ls : mjoin (l :: ls) = l ++ mjoin ls.
Proof. done. Qed.

Lemma app_self_inv {A} (l t : list A) : l = l ++ t -> t = [].
Proof.
  intros H%(f_equal length). rewrite length_app in H.
  destruct t; [done|cbn in H; lia].
Qed.

Lemma Forall_take_drop {A} (P : A -> Prop) (l : list A) n m :
  Forall P l -> Forall P (take n (drop m l)).
Proof. intros H. by apply Forall_take, Forall_drop. Qed.

(** Bounded universal quantification over [0 .. n-1], decided by
    evaluation; the finite case analyses of the codecs go through it. *)
Definition forallb_below (n : nat) (p : Z -> bool) : bool :=
  forallb p (map Z.of_nat (seq 0 n)).

Lemma forallb_below_spec n p :
  forallb_below n p = true -> forall z, 0 <= z < Z.of_nat n -> p z = true.
Proof.
  intros H z Hz. unfold forallb_below in H. rewrite forallb_forall in H.
  apply H. apply in_map_iff. exists (Z.to_nat z). split; [lia|].
  apply in_seq. lia.
Qed.

(** ** Automation *)

Create HintDb matter discriminated.
Create Rewrite HintDb matter.
#[export] Hint Resolve uint32_range int32_range : matter.

(** Solve the side conditions of the width lemmas. *)
Ltac width := unfold is_int32 in *; first [lia | cbn; lia].

(** Split every [if] of the goal on a boolean test and replace the tests by
    the propositions they decide. *)
Ltac split_ifs :=
  repeat match goal with
  | |- context [if ?b then _ else _] =>
      let E := fresh "E" in destruct b eqn:E; simpl
  | H : context [if ?b then _ else _] |- _ =>
      let E := fresh "E" in destruct b eqn:E; simpl in H
  end.

(** Turn boolean comparisons in the context into propositions. *)
Ltac bool_to_prop :=
  rewrite ?andb_true_iff, ?andb_false_iff, ?orb_true_iff, ?orb_false_iff,
    ?negb_true_iff, ?negb_false_iff, ?Z.eqb_eq, ?Z.eqb_neq, ?Z.ltb_lt,
    ?Z.ltb_ge, ?Z.leb_le, ?Z.leb_gt in *.
