(* ===== verification/DataIO.v ===== *)
(** * Byte buffers: DataView, [Bytes], [DataReader] and [DataWriter]

    Models src/packages/general/src/util/Bytes.ts, DataReader.ts and
    DataWriter.ts.  A [Uint8Array] is a [list Z] of values in [0, 256);
    [bytes_ok] states the range.  The reader is explicit state passing: every
    [readXxx] takes the reader and returns the value with the advanced reader
    or throws [DataReadError].  The writer keeps the chunk list and the length
    counter of the source, and [toByteArray] copies the chunks into a
    zero-initialised array exactly as the code does. *)

From S2P Require Import Prelude.

(** ** Byte lists and DataView accesses *)

Definition is_byte (b : Z) : Prop := 0 <= b < 256.
Definition bytes_ok (bs : list Z) : Prop := Forall is_byte bs.
Definition byteLength (bs : list Z) : Z := Z.of_nat (length bs).

(** The [n] low bytes of [v], least significant first. *)
Fixpoint le_bytes (n : nat) (v : Z) : list Z :=
  match n with
  | O => []
  | S n => v mod 256 :: le_bytes n (v / 256)
  end.

(** The unsigned number whose little-endian image is the list. *)
Fixpoint le_value (bs : list Z) : Z :=
  match bs with
  | [] => 0
  | b :: bs => b + 256 * le_value bs
  end.

(** [DataView.prototype.setUintN] / [getUintN] with the endianness flag. *)
Definition view_bytes (little : bool) (n : nat) (v : Z) : list Z :=
  if little then le_bytes n v else rev (le_bytes n v).
Definition view_value (little : bool) (bs : list Z) : Z :=
  if little then le_value bs else le_value (rev bs).

(** Two's complement reading of an unsigned [n]-byte value. *)
Definition to_signed (n : nat) (v : Z) : Z :=
  if v <? 2 ^ (8 * Z.of_nat n - 1) then v else v - 2 ^ (8 * Z.of_nat n).

Lemma le_bytes_length n v : length (le_bytes n v) = n.
Proof. revert v. induction n as [|n IH]; intros v; simpl; [done|by rewrite IH]. Qed.

Lemma le_bytes_ok n v : bytes_ok (le_bytes n v).
Proof.
  revert v. induction n as [|n IH]; intros v; simpl; constructor; [|apply IH].
  apply Z.mod_pos_bound; lia.
Qed.

Lemma le_value_bytes n v : le_value (le_bytes n v) = v mod 2 ^ (8 * Z.of_nat n).
Proof.
  revert v. induction n as [|n IH]; intros v; [by rewrite Z.mod_1_r|].
  cbn [le_bytes le_value]. rewrite IH.
  replace (8 * Z.of_nat (S n)) with (8 + 8 * Z.of_nat n) by lia.
  rewrite Z.pow_add_r by lia. change (2 ^ 8) with 256.
  rewrite (Z.rem_mul_r v 256 (2 ^ (8 * Z.of_nat n))) by lia. lia.
Qed.

Lemma le_value_range bs :
  bytes_ok bs -> 0 <= le_value bs < 2 ^ (8 * Z.of_nat (length bs)).
Proof.
  induction 1 as [|b bs Hb _ IH]; [simpl; lia|]. cbn [le_value length].
  replace (8 * Z.of_nat (S (length bs))) with (8 + 8 * Z.of_nat (length bs)) by lia.
  rewrite Z.pow_add_r by lia. unfold is_byte in Hb. change (2 ^ 8) with 256. lia.
Qed.

Lemma le_bytes_value bs : bytes_ok bs -> le_bytes (length bs) (le_value bs) = bs.
Proof.
  induction 1 as [|b bs Hb _ IH]; [done|]. cbn [le_value length le_bytes].
  unfold is_byte in Hb.
  replace ((b + 256 * le_value bs) mod 256) with b by
    (rewrite Z.mul_comm, Z.mod_add, Z.mod_small by lia; lia).
  replace ((b + 256 * le_value bs) / 256) with (le_value bs) by
    (rewrite Z.mul_comm, Z.div_add, Z.div_small by lia; lia).
  by rewrite IH.
Qed.

Lemma le_value_app a b :
  le_value (a ++ b) = le_value a + 2 ^ (8 * Z.of_nat (length a)) * le_value b.
Proof.
  induction a as [|x a IH]; [cbn; lia|]. cbn [app le_value length]. rewrite IH.
  replace (8 * Z.of_nat (S (length a))) with (8 + 8 * Z.of_nat (length a)) by lia.
  rewrite Z.pow_add_r by lia. change (2 ^ 8) with 256. lia.
Qed.

Lemma view_bytes_length le n v : length (view_bytes le n v) = n.
Proof. unfold view_bytes. destruct le; rewrite ?length_rev; apply le_bytes_length. Qed.

Lemma view_bytes_ok le n v : bytes_ok (view_bytes le n v).
Proof.
  unfold view_bytes, bytes_ok.
  destruct le; [apply le_bytes_ok|apply Forall_rev, le_bytes_ok].
Qed.

Lemma view_value_bytes le n v :
  view_value le (view_bytes le n v) = v mod 2 ^ (8 * Z.of_nat n).
Proof.
  unfold view_value, view_bytes.
  destruct le; rewrite ?rev_involutive; apply le_value_bytes.
Qed.

Lemma view_bytes_value le bs :
  bytes_ok bs -> view_bytes le (length bs) (view_value le bs) = bs.
Proof.
  intros H. unfold view_value, view_bytes. destruct le; [by apply le_bytes_value|].
  rewrite <- length_rev, le_bytes_value, rev_involutive; [done|].
  by apply Forall_rev.
Qed.

Lemma view_value_range le bs :
  bytes_ok bs -> 0 <= view_value le bs < 2 ^ (8 * Z.of_nat (length bs)).
Proof.
  intros H. unfold view_value. destruct le; [by apply le_value_range|].
  rewrite <- length_rev. apply le_value_range. by apply Forall_rev.
Qed.

(** Signed reading inverts the (modular) signed write. *)
Lemma to_signed_mod n v :
  (0 < n)%nat ->
  - 2 ^ (8 * Z.of_nat n - 1) <= v < 2 ^ (8 * Z.of_nat n - 1) ->
  to_signed n (v mod 2 ^ (8 * Z.of_nat n)) = v.
Proof.
  intros Hn Hv. unfold to_signed.
  set (h := 2 ^ (8 * Z.of_nat n - 1)) in *.
  assert (2 ^ (8 * Z.of_nat n) = 2 * h) as ->.
  { unfold h. rewrite <- Z.pow_succ_r by lia. f_equal. lia. }
  assert (0 < h) by (apply Z.pow_pos_nonneg; lia).
  destruct (decide (0 <= v)).
  - rewrite Z.mod_small by lia. destruct (Z.ltb_spec v h); lia.
  - rewrite <- (Z.mod_add v 1), Z.mod_small by lia.
    destruct (Z.ltb_spec (v + 1 * (2 * h)) h); lia.
Qed.

(** Bit [i] of a little-endian number is bit [i mod 8] of byte [i / 8]. *)
Lemma le_value_testbit bs i :
  bytes_ok bs -> 0 <= i ->
  Z.testbit (le_value bs) i =
  match bs !! Z.to_nat (i / 8) with
  | Some b => Z.testbit b (i mod 8)
  | None => false
  end.
Proof.
  intros H. revert i. induction H as [|b bs Hb Hbs IH]; intros i Hi.
  { by rewrite Z.testbit_0_l. }
  cbn [le_value]. unfold is_byte in Hb.
  destruct (decide (i < 8)) as [Hlt|Hge].
  - rewrite Z.div_small, (Z.mod_small i 8) by lia. change (Z.to_nat 0) with 0%nat.
    cbn [lookup list_lookup]. rewrite <- (Z.mod_pow2_bits_low _ 8 i) by lia.
    change (2 ^ 8) with 256.
    by rewrite Z.mul_comm, Z.mod_add, Z.mod_small by lia.
  - replace i with (i - 8 + 8) at 1 by lia.
    rewrite <- Z.shiftr_spec by lia. rewrite Z.shiftr_div_pow2 by lia.
    change (2 ^ 8) with 256. rewrite Z.mul_comm, Z.div_add, Z.div_small by lia.
    rewrite Z.add_0_l, IH by lia.
    replace (i / 8) with (1 + (i - 8) / 8) by
      (replace i with (i - 8 + 1 * 8) at 2 by lia; rewrite Z.div_add by lia; lia).
    replace ((i - 8) mod 8) with (i mod 8) by
      (replace i with (i - 8 + 1 * 8) at 1 by lia; by rewrite Z.mod_add by lia).
    rewrite Z2Nat.inj_add; [done|lia|apply Z.div_pos; lia].
Qed.

#[export] Hint Resolve le_bytes_ok view_bytes_ok : matter.
#[export] Hint Rewrite le_bytes_length view_bytes_length le_value_bytes view_value_bytes : matter.

(** ** Big-endian numbers *)

Definition be_value (bs : list Z) : Z := foldl (fun a b => a * 256 + b) 0 bs.

Lemma foldl_be a bs : foldl (fun a b => a * 256 + b) a bs = a * 256 ^ Z.of_nat (length bs) + be_value bs.
Proof.
  unfold be_value. revert a. induction bs as [|b bs IH]; intros a; [cbn; lia|]. cbn [foldl length].
  rewrite IH, (IH (0 * 256 + b)), Nat2Z.inj_succ, Z.pow_succ_r by lia. ring.
Qed.

Lemma be_value_cons b bs : be_value (b :: bs) = b * 256 ^ Z.of_nat (length bs) + be_value bs.
Proof. unfold be_value at 1. cbn [foldl]. rewrite foldl_be. lia. Qed.

Lemma be_value_app a b : be_value (a ++ b) = be_value a * 256 ^ Z.of_nat (length b) + be_value b.
Proof. unfold be_value at 1. by rewrite foldl_app, foldl_be. Qed.

Lemma be_value_rev bs : be_value bs = le_value (rev bs).
Proof.
  induction bs as [|b bs IH] using rev_ind; [done|]. rewrite rev_app_distr, be_value_app. cbn. rewrite IH.
  unfold be_value. cbn. lia.
Qed.

Lemma pow256 n : 256 ^ Z.of_nat n = 2 ^ (8 * Z.of_nat n).
Proof. change 256 with (2 ^ 8). rewrite <- Z.pow_mul_r by lia. done. Qed.

Lemma be_value_range bs : bytes_ok bs -> 0 <= be_value bs < 256 ^ Z.of_nat (length bs).
Proof.
  intros H. rewrite be_value_rev, pow256. pose proof (le_value_range (rev bs)) as Hr. rewrite length_rev in Hr.
  apply Hr. by apply Forall_rev.
Qed.

Lemma be_value_inj a b : bytes_ok a -> bytes_ok b -> length a = length b -> be_value a = be_value b -> a = b.
Proof.
  intros Ha Hb Hl Hv. rewrite !be_value_rev in Hv. apply Forall_rev in Ha, Hb.
  apply (le_bytes_value _) in Ha, Hb. rewrite !length_rev in *. rewrite Hl, Hv, Hb in Ha.
  rewrite <- (rev_involutive a), <- (rev_involutive b). by f_equal.
Qed.

Lemma be_value_zeros n bs : be_value (repeat 0 n ++ bs) = be_value bs.
Proof. induction n as [|n IH]; [done|]. cbn [repeat app]. rewrite be_value_cons, IH. lia. Qed.

(** ** [Bytes.concat] and [Bytes.areEqual] *)

Module Bytes.

(** [result.set(array, offset)] on a typed array; it throws (RangeError)
    when the source does not fit. *)
Definition set_at (dst src : list Z) (offset : nat) : option (list Z) :=
  if decide (offset + length src <= length dst)%nat
  then Some (take offset dst ++ src ++ drop (offset + length src) dst)
  else None.

Fixpoint set_all (dst : list Z) (chunks : list (list Z)) (offset : nat) : option (list Z) :=
  match chunks with
  | [] => Some dst
  | c :: cs =>
      match set_at dst c offset with
      | Some dst' => set_all dst' cs (offset + length c)
      | None => None
      end
  end.

Definition total_length (chunks : list (list Z)) : nat := sum_list (length <$> chunks).

Definition concat (arrays : list (list Z)) : option (list Z) :=
  set_all (replicate (total_length arrays) 0) arrays 0.

Definition areEqual (a b : list Z) : bool :=
  if negb (byteLength a =? byteLength b) then false
  else forallb (fun i => bool_decide (a !! i = b !! i)) (seq 0 (length a)).

Lemma set_at_prefix done src rest :
  (length src <= length rest)%nat ->
  set_at (done ++ rest) src (length done) = Some (done ++ src ++ drop (length src) rest).
Proof.
  intros H. unfold set_at. rewrite length_app.
  destruct (decide _) as [|Hn]; [|lia]. f_equal.
  rewrite take_app_length, drop_app_ge by lia. by rewrite Nat.add_comm, Nat.add_sub.
Qed.

(** The copy loop fills the destination with the chunks in order whenever the
    destination has exactly the remaining room. *)
Lemma set_all_prefix done chunks rest :
  length rest = total_length chunks ->
  set_all (done ++ rest) chunks (length done) = Some (done ++ mjoin chunks).
Proof.
  revert done rest. induction chunks as [|c cs IH]; intros done rest H; cbn in H.
  - apply nil_length_inv in H as ->. done.
  - cbn [set_all]. rewrite set_at_prefix by (unfold total_length in *; lia).
    rewrite app_assoc, <- length_app, IH.
    + cbn. by rewrite app_assoc.
    + rewrite length_drop. unfold total_length in *. lia.
Qed.

Lemma concat_correct arrays : concat arrays = Some (mjoin arrays).
Proof.
  unfold concat. apply (set_all_prefix [] arrays). by rewrite length_replicate.
Qed.

Lemma areEqual_correct a b : areEqual a b = true <-> a = b.
Proof.
  unfold areEqual, byteLength. split.
  - destruct (Z.eqb_spec (Z.of_nat (length a)) (Z.of_nat (length b))) as [E|]; [|done].
    simpl. rewrite forallb_forall. intros H. apply list_eq. intros i.
    destruct (decide (i < length a)%nat).
    + specialize (H i). rewrite in_seq in H.
      assert (bool_decide (a !! i = b !! i) = true) as D by (apply H; lia).
      by apply bool_decide_eq_true in D.
    + rewrite !lookup_ge_None_2 by lia. done.
  - intros ->. rewrite Z.eqb_refl. simpl. apply forallb_forall. intros i _.
    by apply bool_decide_eq_true_2.
Qed.

End Bytes.

(** ** [DataReader] *)

Module Reader.

Record DataReader := mkReader {
  littleEndian : bool;
  buffer : list Z;
  offset : Z;
}.

Definition new (buffer : list Z) (little : bool) : DataReader := mkReader little buffer 0.

Definition read (A : Type) : Type := DataReader -> result (A * DataReader).

Definition bind {A B} (m : read A) (k : A -> read B) : read B := fun r =>
  let* (a, r') := m r in k a r'.
Definition ret {A} (a : A) : read A := fun r => Ok (a, r).
Definition throw {A} (e : MatterError) : read A := fun _ => Throw e.
(** Lift an error computation that does not touch the reader. *)
Definition lift {A} (m : result A) : read A := fun r => let* a := m in Ok (a, r).

Definition getOffsetAndAdvance (size : Z) : read Z := fun r =>
  if size <? 0 then Throw DataReadError
  else
    let result := offset r in
    let end_ := result + size in
    if byteLength (buffer r) <? end_ then Throw DataReadError
    else Ok (result, mkReader (littleEndian r) (buffer r) end_).

(** [buffer.subarray(offset, offset + size)]. *)
Definition subarray (bs : list Z) (off size : Z) : list Z :=
  take (Z.to_nat size) (drop (Z.to_nat off) bs).

Definition readUnsigned (n : nat) : read Z := fun r =>
  let* (off, r') := getOffsetAndAdvance (Z.of_nat n) r in
  Ok (view_value (littleEndian r) (subarray (buffer r) off (Z.of_nat n)), r').

Definition readSigned (n : nat) : read Z := fun r =>
  let* (v, r') := readUnsigned n r in Ok (to_signed n v, r').

Definition readUInt8 : read Z := readUnsigned 1.
Definition readUInt16 : read Z := readUnsigned 2.
Definition readUInt32 : read Z := readUnsigned 4.
Definition readUInt64 : read Z := readUnsigned 8.
Definition readInt8 : read Z := readSigned 1.
Definition readInt16 : read Z := readSigned 2.
Definition readInt32 : read Z := readSigned 4.
Definition readInt64 : read Z := readSigned 8.

Definition readByteArray (length : Z) : read (list Z) := fun r =>
  let* (off, r') := getOffsetAndAdvance length r in
  Ok (subarray (buffer r) off length, r').

Definition remainingBytesCount (r : DataReader) : Z := byteLength (buffer r) - offset r.
Definition remainingBytes (r : DataReader) : list Z := drop (Z.to_nat (offset r)) (buffer r).
Definition length (r : DataReader) : Z := byteLength (buffer r).

Definition set_offset (o : Z) (r : DataReader) : result DataReader :=
  if (o <? 0) || (byteLength (buffer r) <? o) then Throw DataReadError
  else Ok (mkReader (littleEndian r) (buffer r) o).

(** The offset never leaves the buffer. *)
Definition wf (r : DataReader) : Prop := 0 <= offset r <= byteLength (buffer r).

(** A reader over a little-endian buffer that has consumed [pre] and still
    holds [post]; the lemmas below say how each read moves the boundary. *)
Definition at_ (pre post : list Z) : DataReader := mkReader true (pre ++ post) (byteLength pre).

Lemma new_at bs : new bs true = at_ [] bs.
Proof. done. Qed.

Lemma remainingBytes_at pre post : remainingBytes (at_ pre post) = post.
Proof.
  unfold remainingBytes, at_, byteLength; simpl. by rewrite Nat2Z.id, drop_app_length.
Qed.

Lemma remainingBytesCount_at pre post :
  remainingBytesCount (at_ pre post) = byteLength post.
Proof. unfold remainingBytesCount, at_, byteLength; simpl. rewrite length_app. lia. Qed.

Lemma getOffsetAndAdvance_at pre mid post :
  getOffsetAndAdvance (byteLength mid) (at_ pre (mid ++ post)) =
  Ok (byteLength pre, at_ (pre ++ mid) post).
Proof.
  unfold getOffsetAndAdvance, at_, byteLength; simpl.
  rewrite !length_app, (app_assoc pre mid post).
  destruct (Z.ltb_spec (Z.of_nat (List.length mid)) 0); [lia|].
  destruct (Z.ltb_spec (Z.of_nat (List.length pre + (List.length mid + List.length post)))
              (Z.of_nat (List.length pre) + Z.of_nat (List.length mid))); [lia|].
  do 3 f_equal. lia.
Qed.

Lemma subarray_at pre mid post n m :
  n = byteLength mid -> m = byteLength pre ->
  subarray (pre ++ mid ++ post) m n = mid.
Proof.
  intros -> ->. unfold subarray, byteLength. rewrite !Nat2Z.id. by apply take_drop_app.
Qed.

Lemma readUnsigned_at n pre mid post :
  List.length mid = n ->
  readUnsigned n (at_ pre (mid ++ post)) = Ok (le_value mid, at_ (pre ++ mid) post).
Proof.
  intros <-. unfold readUnsigned. fold (byteLength mid).
  rewrite getOffsetAndAdvance_at. cbn [rbind]. do 2 f_equal.
  unfold at_; cbn [buffer littleEndian view_value]. by rewrite subarray_at.
Qed.

Lemma readUnsigned_bytes n v pre post :
  readUnsigned n (at_ pre (le_bytes n v ++ post)) =
  Ok (v mod 2 ^ (8 * Z.of_nat n), at_ (pre ++ le_bytes n v) post).
Proof. rewrite readUnsigned_at, le_value_bytes by apply le_bytes_length. done. Qed.

Lemma readUnsigned_exact n v pre post :
  0 <= v < 2 ^ (8 * Z.of_nat n) ->
  readUnsigned n (at_ pre (le_bytes n v ++ post)) = Ok (v, at_ (pre ++ le_bytes n v) post).
Proof. intros H. by rewrite readUnsigned_bytes, Z.mod_small. Qed.

Lemma bind_ok {A B} (m : read A) (k : A -> read B) r a r' :
  m r = Ok (a, r') -> bind m k r = k a r'.
Proof. intros E. unfold bind. by rewrite E. Qed.

Lemma bind_throw {A B} (m : read A) (k : A -> read B) r e :
  m r = Throw e -> bind m k r = Throw e.
Proof. intros E. unfold bind. by rewrite E. Qed.

(** Inverse of [bind]. *)
Lemma bind_inv {A B} (m : read A) (k : A -> read B) r b r' :
  bind m k r = Ok (b, r') -> exists a r1, m r = Ok (a, r1) /\ k a r1 = Ok (b, r').
Proof. unfold bind. rewrite rbind_ok. intros ([a r1] & ? & ?). eauto. Qed.

Lemma readSigned_bytes n v pre post :
  (0 < n)%nat ->
  - 2 ^ (8 * Z.of_nat n - 1) <= v < 2 ^ (8 * Z.of_nat n - 1) ->
  readSigned n (at_ pre (le_bytes n v ++ post)) =
  Ok (v, at_ (pre ++ le_bytes n v) post).
Proof.
  intros Hn Hv. unfold readSigned. rewrite readUnsigned_bytes. cbn [rbind].
  by rewrite to_signed_mod.
Qed.

Lemma readByteArray_at pre mid post n :
  n = byteLength mid ->
  readByteArray n (at_ pre (mid ++ post)) = Ok (mid, at_ (pre ++ mid) post).
Proof.
  intros ->. unfold readByteArray. rewrite getOffsetAndAdvance_at. cbn [rbind].
  unfold at_; cbn [buffer]. by rewrite subarray_at.
Qed.

(** Reading past the end throws and a successful read advances by the size. *)
Lemma getOffsetAndAdvance_ok size r off r' :
  getOffsetAndAdvance size r = Ok (off, r') ->
  0 <= size /\ off = offset r /\ offset r' = offset r + size /\
  offset r' <= byteLength (buffer r) /\ buffer r' = buffer r /\
  littleEndian r' = littleEndian r.
Proof.
  unfold getOffsetAndAdvance.
  destruct (Z.ltb_spec size 0); [done|].
  destruct (Z.ltb_spec (byteLength (buffer r)) (offset r + size)); [done|].
  intros [= <- <-]; simpl. repeat split; lia || done.
Qed.

Lemma readUnsigned_ok n r v r' :
  readUnsigned n r = Ok (v, r') ->
  buffer r' = buffer r /\ littleEndian r' = littleEndian r /\
  offset r' = offset r + Z.of_nat n /\ offset r' <= byteLength (buffer r).
Proof.
  unfold readUnsigned. rewrite rbind_ok. intros ([off r1] & H & [= _ <-]).
  apply getOffsetAndAdvance_ok in H as (? & ? & ? & ? & ? & ?). done.
Qed.

(** Sound reads keep the buffer, never move backwards and never report a
    fuel failure; the property is closed under the monad operations. *)
Definition sound {A} (m : read A) : Prop := forall r,
  match m r with
  | Ok (_, r') => buffer r' = buffer r /\ offset r <= offset r'
  | Throw e => e <> OutOfFuel
  end.

Lemma sound_ret {A} (a : A) : sound (ret a).
Proof. intros r. cbn. split; [done|lia]. Qed.

Lemma sound_throw {A} e : e <> OutOfFuel -> sound (@throw A e).
Proof. by intros H r. Qed.

Lemma sound_bind {A B} (m : read A) (k : A -> read B) :
  sound m -> (forall a, sound (k a)) -> sound (bind m k).
Proof.
  intros Hm Hk r. unfold bind. specialize (Hm r). destruct (m r) as [[a r1]|e]; [|done].
  cbn. specialize (Hk a r1). destruct (k a r1) as [[b r2]|e]; [|done].
  destruct Hm as [E1 ?], Hk as [E2 ?]. split; [congruence|lia].
Qed.

Lemma sound_advance size : sound (getOffsetAndAdvance size).
Proof.
  intros r. destruct (getOffsetAndAdvance size r) as [[o r']|e] eqn:E.
  - apply getOffsetAndAdvance_ok in E as (? & ? & ? & ? & ? & ?). split; [done|lia].
  - unfold getOffsetAndAdvance in E. destruct (size <? 0); [by simplify_eq|].
    destruct (_ <? _); by simplify_eq.
Qed.

(** A read that advances first and computes its value from the reader. *)
Lemma sound_advance_map {A} size (f : DataReader -> Z -> A) :
  sound (fun r => let* (o, r') := getOffsetAndAdvance size r in Ok (f r o, r')).
Proof.
  intros r. pose proof (sound_advance size r) as H.
  by destruct (getOffsetAndAdvance size r) as [[o r']|e].
Qed.

Lemma sound_readUnsigned n : sound (readUnsigned n).
Proof. apply sound_advance_map. Qed.
Lemma sound_map {A B} (m : read A) (f : A -> B) :
  sound m -> sound (fun r => let* (a, r') := m r in Ok (f a, r')).
Proof. intros H r. specialize (H r). by destruct (m r) as [[a r']|e]. Qed.
Lemma sound_readSigned n : sound (readSigned n).
Proof. apply sound_map, sound_readUnsigned. Qed.
Lemma sound_readByteArray n : sound (readByteArray n).
Proof. apply sound_advance_map. Qed.

(** Bytes left, as the termination measure of the parsers. *)
Definition size (r : DataReader) : nat := Z.to_nat (remainingBytesCount r).

Lemma sound_size {A} (m : read A) r a r' :
  sound m -> m r = Ok (a, r') -> (size r' <= size r)%nat.
Proof.
  intros H E. specialize (H r). rewrite E in H. destruct H as [Hb Ho].
  unfold size, remainingBytesCount. rewrite Hb. lia.
Qed.

Lemma readUInt8_size r a r' : readUInt8 r = Ok (a, r') -> (size r' < size r)%nat.
Proof.
  intros E. apply readUnsigned_ok in E as (Hb & _ & Ho & Hl).
  unfold size, remainingBytesCount. rewrite Hb in *. lia.
Qed.

(** The rest of the buffer, and its size, without consuming it. *)
Definition rest : read (list Z) := fun r => Ok (remainingBytes r, r).
Definition remaining : read Z := fun r => Ok (remainingBytesCount r, r).

(** [cond ? read() : undefined]. *)
Definition optional {A} (c : bool) (m : read A) : read (option A) :=
  if c then bind m (fun a => ret (Some a)) else ret None.

(** A parser over a fresh little-endian reader. *)
Definition run {A} (m : read A) (bs : list Z) : result A :=
  let* (a, _) := m (new bs true) in Ok a.

(** [reads m img v]: wherever [img] comes next, [m] consumes exactly it and
    returns [v].  [yields m bs v]: with exactly [bs] left, [m] returns [v]. *)
Definition reads {A} (m : read A) (img : list Z) (v : A) : Prop :=
  forall pre post, m (at_ pre (img ++ post)) = Ok (v, at_ (pre ++ img) post).
Definition yields {A} (m : read A) (bs : list Z) (v : A) : Prop :=
  forall pre, exists r, m (at_ pre bs) = Ok (v, r).

Lemma reads_ret {A} (a : A) : reads (ret a) [] a.
Proof. intros pre post. cbn. by rewrite app_nil_r. Qed.

Lemma reads_bind {A B} (m : read A) (k : A -> read B) i j a b :
  reads m i a -> reads (k a) j b -> reads (bind m k) (i ++ j) b.
Proof.
  intros Hm Hk pre post. rewrite <- app_assoc, (bind_ok _ _ _ a (at_ (pre ++ i) (j ++ post)))
    by apply Hm. by rewrite Hk, app_assoc.
Qed.

Lemma reads_unsigned n v :
  0 <= v < 2 ^ (8 * Z.of_nat n) -> reads (readUnsigned n) (le_bytes n v) v.
Proof. intros H pre post. by apply readUnsigned_exact. Qed.

Lemma reads_signed n v :
  (0 < n)%nat -> - 2 ^ (8 * Z.of_nat n - 1) <= v < 2 ^ (8 * Z.of_nat n - 1) ->
  reads (readSigned n) (le_bytes n v) v.
Proof. intros H1 H2 pre post. by apply readSigned_bytes. Qed.

Lemma reads_bytes bs n : n = byteLength bs -> reads (readByteArray n) bs bs.
Proof. intros H pre post. by apply readByteArray_at. Qed.

Lemma reads_optional {A} (m : read A) (img : A -> list Z) (o : option A) :
  (forall a, o = Some a -> reads m (img a) a) ->
  reads (optional (bool_decide (is_Some o)) m) (from_option img [] o) o.
Proof.
  intros H. destruct o as [a|]; cbn; [|apply reads_ret].
  rewrite <- (app_nil_r (img a)). eapply reads_bind; [by apply H|apply reads_ret].
Qed.

Lemma yields_bind {A B} (m : read A) (k : A -> read B) i j a b :
  reads m i a -> yields (k a) j b -> yields (bind m k) (i ++ j) b.
Proof.
  intros Hm Hk pre. rewrite (bind_ok _ _ _ a (at_ (pre ++ i) j)) by apply Hm. apply Hk.
Qed.

Lemma yields_last {A B} (m : read A) (k : A -> read B) i a b :
  reads m i a -> yields (k a) [] b -> yields (bind m k) i b.
Proof. intros Hm Hk. rewrite <- (app_nil_r i). by eapply yields_bind. Qed.

Lemma yields_reads {A} (m : read A) i a : reads m i a -> yields m i a.
Proof.
  intros H pre. exists (at_ (pre ++ i) []). specialize (H pre []). by rewrite app_nil_r in H.
Qed.

Lemma yields_ret {A} (a : A) bs : yields (ret a) bs a.
Proof. intros pre. by eexists. Qed.

Lemma yields_rest {B} (k : list Z -> read B) bs b :
  yields (k bs) bs b -> yields (bind rest k) bs b.
Proof.
  intros Hk pre. rewrite (bind_ok _ _ _ bs (at_ pre bs)); [apply Hk|].
  unfold rest. by rewrite remainingBytes_at.
Qed.

Lemma yields_remaining {B} (k : Z -> read B) bs b :
  yields (k (byteLength bs)) bs b -> yields (bind remaining k) bs b.
Proof.
  intros Hk pre. rewrite (bind_ok _ _ _ (byteLength bs) (at_ pre bs)); [apply Hk|].
  unfold remaining. by rewrite remainingBytesCount_at.
Qed.

Lemma run_yields {A} (m : read A) bs v : yields m bs v -> run m bs = Ok v.
Proof. intros H. unfold run. rewrite new_at. by destruct (H []) as [r ->]. Qed.

End Reader.

(** Sequencing of reader calls, in source order. *)
Notation "'let!' x := m 'in' k" := (Reader.bind m (fun x => k))
  (at level 10, x pattern, m at level 100, k at level 200) : matter_scope.

Create HintDb reader discriminated.
#[export] Hint Resolve Reader.sound_ret Reader.sound_bind Reader.sound_readUnsigned
  Reader.sound_readSigned Reader.sound_readByteArray : reader.
#[export] Hint Extern 1 (Reader.sound (Reader.throw _)) => (apply Reader.sound_throw; done) : reader.

(** ** [DataWriter] *)

Module Writer.

Record DataWriter := mkWriter {
  littleEndian : bool;
  length : Z;
  chunks : list (list Z);
}.

Definition new (little : bool) : DataWriter := mkWriter little 0 [].

Definition push (chunk : list Z) (n : Z) (w : DataWriter) : DataWriter :=
  mkWriter (littleEndian w) (length w + n) (chunks w ++ [chunk]).

Definition writeUInt8 (value : Z) (w : DataWriter) : DataWriter :=
  push [value mod 256] 1 w.
Definition writeUInt16 (value : Z) (w : DataWriter) : DataWriter :=
  push (view_bytes (littleEndian w) 2 value) 2 w.
Definition writeUInt32 (value : Z) (w : DataWriter) : DataWriter :=
  push (view_bytes (littleEndian w) 4 value) 4 w.
Definition writeUInt64 (value : Z) (w : DataWriter) : DataWriter :=
  push (view_bytes (littleEndian w) 8 value) 8 w.
(** [setIntN] stores the same bytes as [setUintN]: both reduce modulo 2^N. *)
Definition writeInt8 (value : Z) (w : DataWriter) : DataWriter :=
  push (view_bytes (littleEndian w) 1 value) 1 w.
Definition writeInt16 (value : Z) (w : DataWriter) : DataWriter :=
  push (view_bytes (littleEndian w) 2 value) 2 w.
Definition writeInt32 (value : Z) (w : DataWriter) : DataWriter :=
  push (view_bytes (littleEndian w) 4 value) 4 w.
Definition writeInt64 (value : Z) (w : DataWriter) : DataWriter :=
  push (view_bytes (littleEndian w) 8 value) 8 w.
Definition writeByteArray (value : list Z) (w : DataWriter) : DataWriter :=
  push value (byteLength value) w.

(** [toByteArray] copies the chunks into a fresh array of [length] zero
    bytes; a chunk that does not fit makes [result.set] throw. *)
Definition toByteArray (w : DataWriter) : result (list Z * DataWriter) :=
  match chunks w with
  | [] => Ok ([], w)
  | [c] => Ok (c, w)
  | cs =>
      match Bytes.set_all (replicate (Z.to_nat (length w)) 0) cs 0 with
      | Some r => Ok (r, mkWriter (littleEndian w) (length w) [r])
      | None => Throw TypeError
      end
  end.

(** The bytes written so far, and the invariant that ties the length
    counter to them. *)
Definition contents (w : DataWriter) : list Z := mjoin (chunks w).
Definition wf (w : DataWriter) : Prop := length w = byteLength (contents w).

Lemma new_wf le : wf (new le).
Proof. done. Qed.

Lemma contents_push c n w : contents (push c n w) = contents w ++ c.
Proof. unfold contents, push; simpl. rewrite join_app; simpl. by rewrite app_nil_r. Qed.

Lemma push_wf c n w : n = byteLength c -> wf w -> wf (push c n w).
Proof.
  unfold wf. intros -> H. rewrite contents_push. unfold byteLength in *.
  simpl. rewrite length_app. lia.
Qed.

Lemma total_length_join cs : Bytes.total_length cs = List.length (mjoin cs).
Proof.
  induction cs as [|c cs IH]; [done|]. cbn. rewrite length_app.
  unfold Bytes.total_length in *. by rewrite IH.
Qed.

Lemma toByteArray_contents w :
  wf w -> exists w', toByteArray w = Ok (contents w, w') /\ wf w' /\ contents w' = contents w.
Proof.
  intros Hw. unfold toByteArray. remember (chunks w) as cs eqn:E.
  assert (contents w = mjoin cs) as Ec by (by unfold contents; rewrite E).
  destruct cs as [|c [|c' cs]].
  - exists w. by rewrite Ec.
  - exists w. rewrite Ec. cbn. by rewrite app_nil_r.
  - assert (Bytes.set_all (replicate (Z.to_nat (length w)) 0) (c :: c' :: cs) 0
            = Some (contents w)) as ->.
    { rewrite Ec. apply (Bytes.set_all_prefix []). rewrite length_replicate.
      rewrite total_length_join, <- Ec. unfold wf, byteLength in Hw. lia. }
    eexists. split; [done|]. unfold wf, contents; simpl. rewrite app_nil_r.
    by fold (contents w).
Qed.

(** Run a writer program on an empty little-endian writer and take the
    resulting array. *)
Definition run (f : DataWriter -> DataWriter) : result (list Z) :=
  let* (bs, _) := toByteArray (f (new true)) in Ok bs.

Lemma run_contents f : wf (f (new true)) -> run f = Ok (contents (f (new true))).
Proof.
  intros H. unfold run. by destruct (toByteArray_contents _ H) as (w' & -> & _).
Qed.

(** A writer state reached on a little-endian writer: well formed, with the
    given bytes.  [written] composes through every write call. *)
Definition written (w : DataWriter) (bs : list Z) : Prop :=
  littleEndian w = true /\ wf w /\ contents w = bs.

Lemma written_new : written (new true) [].
Proof. done. Qed.

Lemma written_push c n w bs :
  written w bs -> n = byteLength c -> written (push c n w) (bs ++ c).
Proof.
  intros (He & Hw & <-) Hn. split; [done|]. split; [by apply push_wf|apply contents_push].
Qed.

Lemma view_bytes_byteLength le n v : Z.of_nat n = byteLength (view_bytes le n v).
Proof. unfold byteLength. by rewrite view_bytes_length. Qed.

Lemma written_UInt8 v w bs : written w bs -> written (writeUInt8 v w) (bs ++ le_bytes 1 v).
Proof. intros H. by apply (written_push [v mod 256]). Qed.

Lemma written_view n v w bs :
  written w bs ->
  written (push (view_bytes (littleEndian w) n v) (Z.of_nat n) w) (bs ++ le_bytes n v).
Proof.
  intros H. pose proof H as (E & _ & _). rewrite E.
  apply (written_push (view_bytes true n v)); [done|apply view_bytes_byteLength].
Qed.

Lemma written_UInt16 v w bs : written w bs -> written (writeUInt16 v w) (bs ++ le_bytes 2 v).
Proof. apply (written_view 2). Qed.
Lemma written_UInt32 v w bs : written w bs -> written (writeUInt32 v w) (bs ++ le_bytes 4 v).
Proof. apply (written_view 4). Qed.
Lemma written_UInt64 v w bs : written w bs -> written (writeUInt64 v w) (bs ++ le_bytes 8 v).
Proof. apply (written_view 8). Qed.
Lemma written_Int8 v w bs : written w bs -> written (writeInt8 v w) (bs ++ le_bytes 1 v).
Proof. apply (written_view 1). Qed.
Lemma written_Int16 v w bs : written w bs -> written (writeInt16 v w) (bs ++ le_bytes 2 v).
Proof. apply (written_view 2). Qed.
Lemma written_Int32 v w bs : written w bs -> written (writeInt32 v w) (bs ++ le_bytes 4 v).
Proof. apply (written_view 4). Qed.
Lemma written_Int64 v w bs : written w bs -> written (writeInt64 v w) (bs ++ le_bytes 8 v).
Proof. apply (written_view 8). Qed.
Lemma written_ByteArray b w bs : written w bs -> written (writeByteArray b w) (bs ++ b).
Proof. intros H. by apply written_push. Qed.

Lemma run_written f bs : written (f (new true)) bs -> run f = Ok bs.
Proof. intros (_ & Hw & <-). by apply run_contents. Qed.

End Writer.

Create HintDb writer discriminated.
#[export] Hint Resolve Writer.written_new Writer.written_UInt8 Writer.written_UInt16
  Writer.written_UInt32 Writer.written_UInt64 Writer.written_Int8 Writer.written_Int16
  Writer.written_Int32 Writer.written_Int64 Writer.written_ByteArray : writer.

(** Flatten nested appends to the right. *)
Ltac flatten_app := rewrite ?app_nil_r, <- ?app_assoc, ?app_nil_l.
