(* ===== verification/CodecLib.v ===== *)
(** * Codec combinators

    What the hand-written binary codecs (message frame, BTP) share: flag
    tests, optional fields, guards inside a parser, and the lemmas that carry
    their round trips. *)

From S2P Require Import Prelude DataIO.

(** ** Combinators *)

(** [(flags & mask) !== 0]. *)
Definition has (flags mask : Z) : bool := negb (js_and flags mask =? 0).

Definition throwing (c : bool) (e : MatterError) : Reader.read unit :=
  Reader.lift (throw_if c e).

Definition is_some {A} (o : option A) : bool := match o with Some _ => true | None => false end.
Definition flag (c : bool) (mask : Z) : Z := if c then mask else 0.

(** [if (x !== undefined) writer.write(x)]. *)
Definition write_opt (f : Z -> Writer.DataWriter -> Writer.DataWriter) (o : option Z)
  (w : Writer.DataWriter) : Writer.DataWriter :=
  match o with Some v => f v w | None => w end.

(** [Bytes.concat] of two arrays. *)
Definition concat2 (a b : list Z) : result (list Z) :=
  match Bytes.concat [a; b] with Some r => Ok r | None => Throw TypeError end.

(** ** Images of optional fields *)

Definition opt_image (n : nat) (o : option Z) : list Z := from_option (le_bytes n) [] o.

Definition opt_in (o : option Z) (n : Z) : Prop := forall v, o = Some v -> 0 <= v < 2 ^ n.

Lemma written_opt n f o w bs :
  (forall v w bs, Writer.written w bs -> Writer.written (f v w) (bs ++ le_bytes n v)) ->
  Writer.written w bs -> Writer.written (write_opt f o w) (bs ++ opt_image n o).
Proof. intros Hf Hw. destruct o; cbn; [by apply Hf|by rewrite app_nil_r]. Qed.

Lemma written_opt16 o w bs : Writer.written w bs ->
  Writer.written (write_opt Writer.writeUInt16 o w) (bs ++ opt_image 2 o).
Proof. apply written_opt. auto with writer. Qed.
Lemma written_opt32 o w bs : Writer.written w bs ->
  Writer.written (write_opt Writer.writeUInt32 o w) (bs ++ opt_image 4 o).
Proof. apply written_opt. auto with writer. Qed.
Lemma written_opt64 o w bs : Writer.written w bs ->
  Writer.written (write_opt Writer.writeUInt64 o w) (bs ++ opt_image 8 o).
Proof. apply written_opt. auto with writer. Qed.
#[export] Hint Resolve written_opt16 written_opt32 written_opt64 : writer.

Lemma run_written_eq f bs bs' : Writer.written (f (Writer.new true)) bs -> bs = bs' ->
  Writer.run f = Ok bs'.
Proof. intros H <-. by apply Writer.run_written. Qed.

Lemma concat2_app a b : concat2 a b = Ok (a ++ b).
Proof. unfold concat2. rewrite Bytes.concat_correct. cbn. by rewrite app_nil_r. Qed.

(** ** Parsers *)

Lemma reads_opt n o : opt_in o (8 * Z.of_nat n) ->
  Reader.reads (Reader.optional (bool_decide (is_Some o)) (Reader.readUnsigned n)) (opt_image n o) o.
Proof. intros H. apply Reader.reads_optional. intros a Ha. by apply Reader.reads_unsigned, H. Qed.

Lemma yields_throwing {B} c e (k : unit -> Reader.read B) bs b :
  c = false -> Reader.yields (k tt) bs b -> Reader.yields (let! x := throwing c e in k x) bs b.
Proof. intros -> H pre. apply H. Qed.

Lemma throwing_inv {B} c e (k : unit -> Reader.read B) r x :
  (let! u := throwing c e in k u) r = Ok x -> c = false /\ k tt r = Ok x.
Proof. by destruct c. Qed.

Lemma optional_inv {A} c (m : Reader.read A) r o r' :
  Reader.optional c m r = Ok (o, r') -> is_some o = c.
Proof.
  destruct c; cbn; [|by intros [= <- <-]].
  intros (a & r1 & _ & E)%Reader.bind_inv. by injection E as <- <-.
Qed.

(** Peel one read or guard off a successful parse. *)
Ltac inv_read H :=
  cbv beta iota zeta in H;
  lazymatch type of H with
  | Reader.bind (throwing _ _) _ _ = _ => apply throwing_inv in H as [? H]
  | _ => apply Reader.bind_inv in H as (? & ? & ? & H)
  end.
