(* ===== verification/BitmapSchema.v ===== *)
(** * Bitmap schemas

    Models src/packages/types/src/schema/BitmapSchema.ts: the numeric bitmap
    codec [BitmapSchemaInternal] and the byte-array codec
    [ByteArrayBitmapSchemaInternal] (used for the QR code payload).  A schema
    is the association list of its fields in declaration order (the order of
    [for ... in]); a bitmap value is the association list of its properties. *)

From S2P Require Import Prelude DataIO.

Inductive BitRangeType := Flag | Number | Enum.

Record BitRange := mkRange {
  type : BitRangeType;
  offset : Z;
  length : Z;
}.

Definition BitFlag (offset : Z) : BitRange := mkRange Flag offset 1.
Definition BitField (offset length : Z) : BitRange := mkRange Number offset length.
Definition BitFieldEnum (offset length : Z) : BitRange := mkRange Enum offset length.

Abbreviation BitSchema := (list (string * BitRange)).

(** A property value of a bitmap object. *)
Inductive BitValue := VBool (b : bool) | VNum (z : Z).

Abbreviation BitValues := (list (string * BitValue)).

(** [value[name]]; [None] is [undefined]. *)
Fixpoint get (value : BitValues) (name : string) : option BitValue :=
  match value with
  | [] => None
  | (n, v) :: rest => if decide (n = name) then Some v else get rest name
  end.

(** JavaScript truthiness and the number an operand of [<<] converts to. *)
Definition truthy (v : option BitValue) : bool :=
  match v with
  | Some (VBool b) => b
  | Some (VNum z) => negb (z =? 0)
  | None => false
  end.
Definition toNum (v : option BitValue) : Z :=
  match v with
  | Some (VBool b) => if b then 1 else 0
  | Some (VNum z) => z
  | None => 0
  end.

(** ** [BitmapSchemaInternal] *)

Definition mask_of (r : BitRange) : Z := js_shl (js_shl 1 (length r) - 1) (offset r).

Definition encode_field (r : BitRange) (v : option BitValue) (result : Z) : Z :=
  match type r with
  | Flag => if truthy v then js_or result (mask_of r) else result
  | Enum | Number => js_or result (js_shl (toNum v) (offset r))
  end.

Fixpoint encode_loop (schema : BitSchema) (value : BitValues) (result : Z) : Z :=
  match schema with
  | [] => result
  | (name, r) :: rest => encode_loop rest value (encode_field r (get value name) result)
  end.

Definition encodeInternal (schema : BitSchema) (value : BitValues) : Z :=
  encode_loop schema value 0.

Definition decode_field (bitmap : Z) (r : BitRange) : BitValue :=
  match type r with
  | Flag => VBool (negb (js_and bitmap (mask_of r) =? 0))
  | Enum | Number => VNum (js_shr (js_and bitmap (mask_of r)) (offset r))
  end.

Definition decodeInternal (schema : BitSchema) (bitmap : Z) : BitValues :=
  map (fun '(name, r) => (name, decode_field bitmap r)) schema.

(** ** Coherence

    What the constructor's comment asks for ("validate that bitSchemas is
    coherent") and the code leaves to its callers: named once, inside the
    32-bit word, pairwise disjoint.  A number may not reach bit 31, because
    the code reads it back with the sign-extending [>>]. *)

Definition range_ok (r : BitRange) : Prop :=
  0 <= offset r /\ 1 <= length r /\
  match type r with Flag => length r = 1 /\ offset r <= 31 | _ => offset r + length r <= 31 end.

Definition covers (r : BitRange) (i : Z) : bool :=
  (offset r <=? i) && (i <? offset r + length r).

Definition disjoint_ranges (r s : BitRange) : Prop :=
  offset r + length r <= offset s \/ offset s + length s <= offset r.

Definition all_disjoint (schema : BitSchema) : Prop :=
  forall i j r s, schema.*2 !! i = Some r -> schema.*2 !! j = Some s ->
    i <> j -> disjoint_ranges r s.

Definition coherent (schema : BitSchema) : Prop :=
  NoDup schema.*1 /\ Forall range_ok schema.*2 /\ all_disjoint schema.

(** Executable form of [all_disjoint], for concrete schemas. *)
Definition disjoint_rangesb (r s : BitRange) : bool :=
  (offset r + length r <=? offset s) || (offset s + length s <=? offset r).
Fixpoint all_disjointb (rs : list BitRange) : bool :=
  match rs with
  | [] => true
  | r :: rs => forallb (disjoint_rangesb r) rs && all_disjointb rs
  end.

Lemma all_disjointb_spec schema : all_disjointb schema.*2 = true -> all_disjoint schema.
Proof.
  unfold all_disjoint. generalize (schema.*2) as rs. clear schema.
  assert (forall r s, disjoint_rangesb r s = true <-> disjoint_ranges r s) as D.
  { intros r s. unfold disjoint_rangesb, disjoint_ranges. bool_to_prop. done. }
  assert (forall r s, disjoint_ranges r s -> disjoint_ranges s r) as Sym.
  { unfold disjoint_ranges. lia. }
  induction rs as [|x rs IH]; intros H i j r s Hi Hj Hne; [done|].
  cbn in H. apply andb_true_iff in H as [Hx Hrs]. rewrite forallb_forall in Hx.
  assert (forall k y, rs !! k = Some y -> disjoint_ranges x y) as Hxy.
  { intros k y Hk. apply D, Hx, list_elem_of_In, list_elem_of_lookup. eauto. }
  destruct i as [|i], j as [|j]; cbn in Hi, Hj; simplify_eq.
  - by apply (Hxy j).
  - apply Sym. by apply (Hxy i).
  - apply (IH Hrs i j); try done. congruence.
Qed.

Definition value_ok (r : BitRange) (v : BitValue) : Prop :=
  match type r, v with
  | Flag, VBool _ => True
  | (Number | Enum), VNum z => 0 <= z < 2 ^ length r
  | _, _ => False
  end.

(** A complete in-range value of a schema, with its properties in schema
    order. *)
Definition values_ok (schema : BitSchema) (value : BitValues) : Prop :=
  Forall2 (fun f p => f.1 = p.1 /\ value_ok f.2 p.2) schema value.

(** Bit [i] of the image of one field. *)
Definition field_bit (r : BitRange) (v : BitValue) (i : Z) : bool :=
  match v with
  | VBool b => b && (i =? offset r)
  | VNum z => (offset r <=? i) && Z.testbit z (i - offset r)
  end.

Lemma mask_of_testbit r i :
  range_ok r -> 0 <= i < 32 -> Z.testbit (mask_of r) i = covers r i.
Proof.
  intros (Ho & Hl & Ht) Hi. unfold mask_of, covers.
  assert (offset r <= 31 /\ length r <= 31) as [? ?] by (destruct (type r); lia).
  rewrite js_shl_testbit by lia.
  destruct (Z.leb_spec (offset r) i); simpl; [|done].
  assert (Z.testbit (js_shl 1 (length r) - 1) (i - offset r) = Z.testbit (Z.ones (length r)) (i - offset r)) as ->.
  { rewrite Z.ones_equiv. unfold js_shl. rewrite (int32_id 1), Z.mod_small by lia.
    rewrite Z.shiftl_1_l.
    assert (0 < 2 ^ length r) by (apply Z.pow_pos_nonneg; lia).
    destruct (decide (length r = 31)) as [->|].
    - rewrite <- (int32_testbit (int32 (2 ^ 31) - 1)) by lia.
      change (int32 (int32 (2 ^ 31) - 1)) with (Z.pred (2 ^ 31)). done.
    - rewrite int32_id; [done|].
      assert (2 ^ length r <= 2 ^ 30) by (apply Z.pow_le_mono_r; lia). lia. }
  rewrite Z.testbit_ones by lia.
  destruct (Z.leb_spec 0 (i - offset r)), (Z.ltb_spec (i - offset r) (length r)),
    (Z.ltb_spec i (offset r + length r)); simpl; lia || done.
Qed.

Lemma encode_field_testbit r v acc i :
  range_ok r -> value_ok r v -> 0 <= i < 32 ->
  Z.testbit (encode_field r (Some v) acc) i = Z.testbit acc i || field_bit r v i.
Proof.
  intros Hr Hv Hi. pose proof Hr as (Ho & Hl & Ht).
  unfold encode_field, value_ok, field_bit in *.
  destruct (type r), v as [b|z]; try done; simpl.
  - destruct b; simpl; [|by rewrite orb_false_r].
    rewrite js_or_testbit, mask_of_testbit by done. f_equal. unfold covers.
    destruct Ht as [-> ?].
    destruct (Z.leb_spec (offset r) i), (Z.ltb_spec i (offset r + 1)), (Z.eqb_spec i (offset r));
      simpl; lia || done.
  - by rewrite js_or_testbit, js_shl_testbit by lia.
  - by rewrite js_or_testbit, js_shl_testbit by lia.
Qed.

Lemma encode_loop_testbit schema value all acc i :
  Forall range_ok schema.*2 -> values_ok schema value ->
  (forall n v, (n, v) ∈ value -> get all n = Some v) ->
  0 <= i < 32 ->
  Z.testbit (encode_loop schema all acc) i =
  Z.testbit acc i || existsb (fun p => field_bit p.1.2 p.2.2 i) (zip schema value).
Proof.
  intros Hr Hv. revert acc. unfold values_ok in Hv.
  induction Hv as [|[n r] [n' v] schema value [Hn Hok] Hv IH]; intros acc Hget Hi.
  { by rewrite orb_false_r. }
  cbn in Hr, Hn, Hok. subst n'. apply Forall_cons in Hr as [Hr Hrs].
  cbn [encode_loop zip_with existsb].
  rewrite (Hget n v) by (apply elem_of_cons; by left).
  rewrite IH; [|done|intros m w Hmw; apply Hget, elem_of_cons; by right|done].
  rewrite encode_field_testbit by done. by rewrite orb_assoc.
Qed.

Lemma get_in value n v : NoDup value.*1 -> (n, v) ∈ value -> get value n = Some v.
Proof.
  induction value as [|[m w] value IH]; intros Hnd Hin; [by apply elem_of_nil in Hin|].
  apply NoDup_cons in Hnd as [Hm Hnd]. cbn.
  apply elem_of_cons in Hin as [[= -> ->]|Hin]; [by destruct (decide _)|].
  destruct (decide (m = n)) as [->|]; [|auto].
  exfalso. apply Hm. apply list_elem_of_fmap. by exists (n, v).
Qed.

Lemma field_bit_covers r v i :
  1 <= length r -> value_ok r v -> 0 <= i -> field_bit r v i = true -> covers r i = true.
Proof.
  intros Hl Hv Hi. unfold field_bit, covers, value_ok in *.
  destruct v as [b|z].
  - destruct b; simpl; [|done]. rewrite Z.eqb_eq, andb_true_iff, Z.leb_le, Z.ltb_lt. lia.
  - rewrite !andb_true_iff, Z.leb_le, Z.ltb_lt. intros [? Hb]. split; [done|].
    destruct (decide (i < offset r + length r)); [done|].
    assert (0 <= z < 2 ^ length r) by (destruct (type r); done || lia).
    rewrite (testbit_above z (length r)) in Hb by lia. done.
Qed.

Lemma values_ok_names schema value : values_ok schema value -> value.*1 = schema.*1.
Proof. induction 1 as [|? ? ? ? [E _] _ IH]; [done|]. cbn; cbn in E. by rewrite E, IH. Qed.

(** Inside the range of one field, only that field contributes bits. *)
Lemma own_bits schema value k n r v i :
  Forall (fun r => 1 <= length r) schema.*2 -> all_disjoint schema ->
  values_ok schema value ->
  schema !! k = Some (n, r) -> value !! k = Some (n, v) ->
  0 <= i -> covers r i = true ->
  existsb (fun p => field_bit p.1.2 p.2.2 i) (zip schema value) = field_bit r v i.
Proof.
  intros Hr Hdis Hv Hs Hval Hi Hc.
  apply eq_iff_eq_true. rewrite existsb_exists. split.
  - intros (((m, s), (m', w)) & Hin & Hb). simpl in Hb.
    apply list_elem_of_In, list_elem_of_lookup in Hin as [j Hj].
    apply lookup_zip_Some in Hj as [Hj1 Hj2].
    destruct (decide (j = k)) as [->|Hne]; [by simplify_eq|exfalso].
    assert (1 <= length s) as Hrs.
    { rewrite Forall_lookup in Hr. apply (Hr j). by rewrite list_lookup_fmap, Hj1. }
    pose proof (Forall2_lookup_lr _ _ _ _ _ _ Hv Hj1 Hj2) as [_ Hws].
    pose proof (field_bit_covers s w i Hrs Hws Hi Hb) as Hcs.
    assert (disjoint_ranges r s) as Hd.
    { apply (Hdis k j); rewrite ?list_lookup_fmap, ?Hs, ?Hj1; done || lia. }
    unfold covers, disjoint_ranges in *. bool_to_prop. lia.
  - intros Hb. exists ((n, r), (n, v)). split; [|done].
    apply list_elem_of_In, list_elem_of_lookup. exists k.
    by apply lookup_zip_Some.
Qed.

Lemma encode_own_bits schema value k n r v i :
  coherent schema -> values_ok schema value ->
  schema !! k = Some (n, r) -> value !! k = Some (n, v) ->
  0 <= i < 32 -> covers r i = true ->
  Z.testbit (encodeInternal schema value) i = field_bit r v i.
Proof.
  intros (Hnd & Hr & Hdis) Hv Hs Hval Hi Hc. unfold encodeInternal.
  rewrite (encode_loop_testbit schema value value 0 i); try done.
  2: { intros m w. apply get_in. by rewrite (values_ok_names _ _ Hv). }
  rewrite Z.testbit_0_l. simpl.
  apply (own_bits schema value k n); try done; [|lia].
  eapply Forall_impl; [exact Hr|]. unfold range_ok. cbn. lia.
Qed.

Lemma mask_of_nonneg_high r i :
  range_ok r -> type r <> Flag -> 31 <= i -> Z.testbit (mask_of r) i = false.
Proof.
  intros Hr Ht Hi. pose proof Hr as (Ho & Hl & Htt).
  assert (Hsum : offset r + length r <= 31) by (destruct (type r); done).
  destruct (decide (i < 32)).
  { rewrite mask_of_testbit by (done || lia). unfold covers.
    destruct (Z.ltb_spec i (offset r + length r)); [lia|]. by rewrite andb_false_r. }
  assert (Hm : 0 <= mask_of r < 2 ^ 31).
  { split.
    - destruct (decide (0 <= mask_of r)) as [|Hneg]; [done|exfalso].
      assert (Hb : Z.testbit (mask_of r) 31 = true).
      { unfold mask_of, js_shl in *. set (x := Z.shiftl _ _) in *.
        pose proof (int32_range x). rewrite Z.testbit_true by lia.
        assert (int32 x / 2 ^ 31 = -1) as ->; [|done].
        symmetry. apply (Z.div_unique _ _ _ (int32 x + 2 ^ 31)); lia. }
      rewrite mask_of_testbit in Hb by (done || lia). unfold covers in Hb.
      bool_to_prop. lia.
    - unfold mask_of, js_shl. apply int32_range. }
  apply (testbit_above _ 31); lia.
Qed.

Lemma decode_field_correct bitmap r v :
  range_ok r -> value_ok r v ->
  (forall i, 0 <= i < 32 -> covers r i = true -> Z.testbit bitmap i = field_bit r v i) ->
  decode_field bitmap r = v.
Proof.
  intros Hr Hv Hb. pose proof Hr as (Ho & Hl & Ht).
  assert (forall i, 0 <= i < 32 -> Z.testbit (js_and bitmap (mask_of r)) i
                    = covers r i && field_bit r v i) as Hand.
  { intros i Hi. rewrite js_and_testbit, mask_of_testbit by done.
    destruct (covers r i) eqn:E; rewrite ?andb_true_r, ?andb_false_r; [|done].
    simpl. by apply Hb. }
  unfold decode_field, value_ok in *.
  assert (type r <> Flag -> forall z, v = VNum z -> 0 <= z < 2 ^ length r ->
          VNum (js_shr (js_and bitmap (mask_of r)) (offset r)) = v) as Hnum.
  { intros Hf z -> Hz. f_equal. unfold js_shr.
    rewrite int32_id by apply js_and_int32.
    assert (offset r + length r <= 31) by (destruct (type r); done).
    rewrite Z.mod_small by lia. apply Z.bits_inj'. intros i Hi.
    rewrite Z.shiftr_spec by done.
    destruct (decide (i + offset r < 32)).
    - rewrite Hand by lia. unfold covers, field_bit.
      replace (i + offset r - offset r) with i by lia.
      destruct (Z.leb_spec (offset r) (i + offset r)); [simpl|lia].
      destruct (Z.ltb_spec (i + offset r) (offset r + length r)); simpl; [done|].
      by rewrite (testbit_above z (length r)) by lia.
    - unfold js_and. rewrite Z.land_spec.
      rewrite (int32_id (mask_of r)) by apply int32_range.
      rewrite (mask_of_nonneg_high r) by (done || lia).
      rewrite andb_false_r. by rewrite (testbit_above z (length r)) by lia. }
  destruct (type r) eqn:Et, v as [b|z]; try done; [|by apply (Hnum ltac:(done) z)..].
  f_equal. destruct Ht as [Hl1 Ho31].
  assert (covers r (offset r) = true) as Hco.
  { unfold covers. rewrite andb_true_iff, Z.leb_le, Z.ltb_lt. lia. }
  destruct b.
  - apply negb_true_iff, Z.eqb_neq. intros E0.
    specialize (Hand (offset r) ltac:(lia)). rewrite E0, Hco in Hand.
    rewrite Z.testbit_0_l in Hand. simpl in Hand. by rewrite Z.eqb_refl in Hand.
  - apply negb_false_iff, Z.eqb_eq. apply int32_zero; [apply js_and_int32|].
    intros i Hi. rewrite Hand by done. simpl. by rewrite andb_false_r.
Qed.

Lemma bitmap_decode_encode schema value :
  coherent schema -> values_ok schema value ->
  decodeInternal schema (encodeInternal schema value) = value.
Proof.
  intros Hc Hv. unfold decodeInternal. apply list_eq. intros k.
  rewrite list_lookup_fmap. destruct (schema !! k) as [[n r]|] eqn:Es; simpl.
  - destruct (Forall2_lookup_l _ _ _ _ _ Hv Es) as ([m v] & Ev & Hn & Hok).
    simpl in Hn, Hok. subst m. rewrite Ev. do 2 f_equal.
    assert (range_ok r) as Hr.
    { destruct Hc as (_ & Hr & _). rewrite Forall_lookup in Hr. apply (Hr k).
      by rewrite list_lookup_fmap, Es. }
    apply decode_field_correct; try done.
    intros i Hi Hci. by apply (encode_own_bits schema value k n).
  - symmetry. apply lookup_ge_None. rewrite <- (Forall2_length _ _ _ Hv).
    by apply lookup_ge_None.
Qed.

(** decoding what the numeric bitmap codec encoded gives the value back,
    for every coherent schema (named once, disjoint fields inside the 32-bit
    word, numbers below the sign bit) and every in-range value of it. *)
Theorem bitmap_roundtrip schema value :
  coherent schema -> values_ok schema value ->
  decodeInternal schema (encodeInternal schema value) = value.
Proof. apply bitmap_decode_encode. Qed.

Definition sample_schema : BitSchema :=
  [("ble", BitFlag 1); ("mode", BitField 4 3); ("top", BitFlag 31)].
Definition sample_value : BitValues :=
  [("ble", VBool true); ("mode", VNum 5); ("top", VBool true)].

Lemma bitmap_roundtrip_witness :
  decodeInternal sample_schema (encodeInternal sample_schema sample_value) = sample_value.
Proof.
  apply bitmap_roundtrip.
  - split_and!.
    + apply (bool_decide_unpack (NoDup sample_schema.*1)). vm_compute; exact I.
    + repeat constructor; cbn; lia.
    + apply all_disjointb_spec. vm_compute; reflexivity.
  - repeat constructor; cbn; lia.
Defined.

(** ** [ByteArrayBitmapSchemaInternal] *)

Module ByteArray.

Record MaskOffset := mkMaskOffset { mask : Z; byteOffset : Z; bitOffset : Z }.

Definition maskOffset_of (r : BitRange) : MaskOffset :=
  let bitOffset := offset r mod 8 in
  let byteOffset := (offset r - bitOffset) / 8 in
  let mask := match type r with
              | Flag => js_shl 1 bitOffset
              | _ => js_shl 1 (length r) - 1
              end in
  mkMaskOffset mask byteOffset bitOffset.

Definition maxBitLength (schema : BitSchema) : Z :=
  fold_left (fun acc '(_, r) => Z.max acc (offset r + length r)) schema 0.

(** [Math.ceil(maxBitLength / 8)]. *)
Definition byteArrayLength (schema : BitSchema) : Z := (maxBitLength schema + 7) / 8.

(** [result[i] |= x] on a [Uint8Array]: out of range is ignored. *)
Definition or_at (result : list Z) (i x : Z) : list Z :=
  match result !! Z.to_nat i with
  | Some b => <[Z.to_nat i := (js_or b x) mod 256]> result
  | None => result
  end.

(** The [while (numValue !== 0)] loop. *)
Fixpoint put_bits (fuel : nat) (numValue bitOffset byteOffset : Z) (result : list Z) : list Z :=
  match fuel with
  | O => result
  | S fuel =>
      if numValue =? 0 then result
      else
        let result := or_at result byteOffset (js_and (js_shl numValue bitOffset) 255) in
        let bitWritten := 8 - bitOffset in
        put_bits fuel (js_shr numValue bitWritten) 0 (byteOffset + 1) result
  end.

(** A 31-bit number is exhausted after at most 31 right shifts by one or
    more bits. *)
Definition put_fuel : nat := 32.

Definition encode_field (r : BitRange) (v : option BitValue) (result : list Z) : list Z :=
  let mo := maskOffset_of r in
  match type r with
  | Flag => if truthy v then or_at result (byteOffset mo) (mask mo) else result
  | Enum | Number =>
      put_bits put_fuel (js_and (toNum v) (mask mo)) (bitOffset mo) (byteOffset mo) result
  end.

Fixpoint encode_loop (schema : BitSchema) (value : BitValues) (result : list Z) : list Z :=
  match schema with
  | [] => result
  | (name, r) :: rest => encode_loop rest value (encode_field r (get value name) result)
  end.

Definition encodeInternal (schema : BitSchema) (value : BitValues) : list Z :=
  encode_loop schema value (replicate (Z.to_nat (byteArrayLength schema)) 0).

(** [bitmap[i]]; an out-of-range read is [undefined], which [>>] and [&]
    convert to 0. *)
Definition byte_at (bitmap : list Z) (i : Z) : Z :=
  match bitmap !! Z.to_nat i with Some b => b | None => 0 end.

(** The [while (mask !== 0)] loop. *)
Fixpoint get_bits (fuel : nat) (bitmap : list Z) (mask bitOffset byteOffset valueBitOffset value : Z) : Z :=
  match fuel with
  | O => value
  | S fuel =>
      if mask =? 0 then value
      else
        let value := js_or value
          (js_shl (js_and (js_shr (byte_at bitmap byteOffset) bitOffset) mask) valueBitOffset) in
        let bitRead := 8 - bitOffset in
        get_bits fuel bitmap (js_shr mask bitRead) 0 (byteOffset + 1)
          (valueBitOffset + bitRead) value
  end.

Definition decode_field (bitmap : list Z) (r : BitRange) : BitValue :=
  let mo := maskOffset_of r in
  match type r with
  | Flag => VBool (negb (js_and (byte_at bitmap (byteOffset mo)) (mask mo) =? 0))
  | Enum | Number =>
      VNum (get_bits put_fuel bitmap (mask mo) (bitOffset mo) (byteOffset mo) 0 0)
  end.

Definition decodeInternal (schema : BitSchema) (bitmap : list Z) : result BitValues :=
  if negb (byteLength bitmap =? byteArrayLength schema) then Throw UnexpectedDataError
  else Ok (map (fun '(name, r) => (name, decode_field bitmap r)) schema).

(** *** The abstract specification

    A byte-array bitmap is one big little-endian number; encoding ORs each
    field in at its offset and decoding cuts it out again. *)

Definition range_ok (r : BitRange) : Prop :=
  0 <= offset r /\ 1 <= length r <= 30 /\ match type r with Flag => length r = 1 | _ => True end.

Definition field_number (r : BitRange) (v : BitValue) : Z :=
  match v with
  | VBool b => if b then 2 ^ offset r else 0
  | VNum z => Z.shiftl z (offset r)
  end.

Definition spec_number (schema : BitSchema) (value : BitValues) : Z :=
  foldr (fun p acc => Z.lor (field_number p.1.2 p.2.2) acc) 0 (zip schema value).

Definition spec_field (n : Z) (r : BitRange) : BitValue :=
  match type r with
  | Flag => VBool (Z.testbit n (offset r))
  | _ => VNum (Z.land (Z.shiftr n (offset r)) (Z.ones (length r)))
  end.

Lemma bytes_ok_insert bs i x : bytes_ok bs -> is_byte x -> bytes_ok (<[i := x]> bs).
Proof. intros. by apply Forall_insert. Qed.

Lemma or_at_spec bs i x :
  bytes_ok bs -> is_byte x -> 0 <= i < byteLength bs ->
  bytes_ok (or_at bs i x) /\ byteLength (or_at bs i x) = byteLength bs /\
  le_value (or_at bs i x) = Z.lor (le_value bs) (Z.shiftl x (8 * i)).
Proof.
  intros Hbs Hx Hi. unfold byteLength in *. unfold or_at.
  destruct (lookup_lt_is_Some_2 bs (Z.to_nat i)) as [b Hb]; [lia|]. rewrite Hb.
  assert (is_byte b) as Hbb by (by eapply Forall_lookup_1 in Hbs).
  unfold is_byte in *. rewrite js_or_plain by width.
  pose proof (lor_range b x 8 ltac:(lia) ltac:(lia) ltac:(lia)) as Hor.
  rewrite Z.mod_small by lia.
  assert (bytes_ok (<[Z.to_nat i := Z.lor b x]> bs)) as Hok by
    (apply bytes_ok_insert; unfold is_byte; done || lia).
  split; [done|]. split; [by rewrite length_insert|].
  apply Z.bits_inj'. intros j Hj. rewrite Z.lor_spec, !le_value_testbit by done.
  assert (0 <= j / 8) by (apply Z.div_pos; lia).
  destruct (decide (j / 8 = i)) as [E|E].
  - rewrite E, list_lookup_insert_eq, Hb by lia. rewrite Z.lor_spec. f_equal.
    rewrite Z.shiftl_spec by lia. f_equal. pose proof (Z.div_mod j 8). lia.
  - rewrite list_lookup_insert_ne by lia. destruct (bs !! Z.to_nat (j / 8)).
    all: rewrite Z.shiftl_spec by lia.
    all: assert (Z.testbit x (j - 8 * i) = false) as ->; [|by rewrite ?orb_false_r].
    all: destruct (decide (j - 8 * i < 0)); [by apply Z.testbit_neg_r|].
    all: apply (testbit_above _ 8); [lia|].
    all: pose proof (Z.div_mod j 8); pose proof (Z.mod_pos_bound j 8); lia.
Qed.

(** One round of the write loop splits the number at the byte boundary. *)
Lemma split_at_byte n bo by_ :
  0 <= n -> 0 <= bo < 8 -> 0 <= by_ ->
  Z.lor (Z.shiftl (Z.land (Z.shiftl n bo) 255) (8 * by_))
        (Z.shiftl (Z.shiftr n (8 - bo)) (8 * (by_ + 1)))
  = Z.shiftl n (8 * by_ + bo).
Proof.
  intros Hn Hbo Hby. apply Z.bits_inj'. intros i Hi.
  rewrite Z.lor_spec, !Z.shiftl_spec by lia.
  change 255 with (Z.ones 8). rewrite Z.land_spec.
  destruct (decide (i - 8 * by_ < 0)).
  { rewrite !(Z.testbit_neg_r _ (i - 8 * by_)) by lia.
    by rewrite !Z.testbit_neg_r by lia. }
  rewrite Z.shiftl_spec, Z.testbit_ones_nonneg by lia.
  destruct (Z.ltb_spec (i - 8 * by_) 8).
  - rewrite andb_true_r, (Z.testbit_neg_r (Z.shiftr _ _)) by lia.
    rewrite orb_false_r. f_equal. lia.
  - rewrite andb_false_r. cbn [orb]. rewrite Z.shiftr_spec by lia. f_equal. lia.
Qed.

Lemma put_bits_spec fuel n bo by_ bs :
  bytes_ok bs -> 0 <= n < 2 ^ Z.of_nat fuel -> n < 2 ^ 31 -> 0 <= bo < 8 -> 0 <= by_ ->
  Z.shiftl n (8 * by_ + bo) < 2 ^ (8 * byteLength bs) ->
  bytes_ok (put_bits fuel n bo by_ bs) /\
  byteLength (put_bits fuel n bo by_ bs) = byteLength bs /\
  le_value (put_bits fuel n bo by_ bs) = Z.lor (le_value bs) (Z.shiftl n (8 * by_ + bo)).
Proof.
  revert n bo by_ bs. induction fuel as [|fuel IH]; intros n bo by_ bs Hbs Hn Hn31 Hbo Hby Hfit.
  { assert (n = 0) as -> by (change (2 ^ Z.of_nat 0) with 1 in Hn; lia).
    by rewrite Z.shiftl_0_l, Z.lor_0_r. }
  cbn [put_bits]. destruct (Z.eqb_spec n 0) as [->|Hnz].
  { by rewrite Z.shiftl_0_l, Z.lor_0_r. }
  assert (Hx : js_and (js_shl n bo) 255 = Z.land (Z.shiftl n bo) 255).
  { apply Z.bits_inj'. intros i Hi. unfold js_and. rewrite (int32_id 255) by width.
    rewrite !Z.land_spec. change 255 with (Z.ones 8).
    rewrite Z.testbit_ones_nonneg by lia. destruct (Z.ltb_spec i 8).
    - rewrite !andb_true_r, int32_testbit by lia. rewrite js_shl_testbit by lia.
      rewrite Z.shiftl_spec by lia. destruct (Z.leb_spec bo i); [done|].
      by rewrite Z.testbit_neg_r by lia.
    - by rewrite !andb_false_r. }
  rewrite Hx. set (x := Z.land (Z.shiftl n bo) 255).
  assert (Hxb : is_byte x) by (apply (land_range _ 255 8); lia).
  assert (Hin : by_ < byteLength bs).
  { destruct (decide (by_ < byteLength bs)); [done|exfalso].
    rewrite Z.shiftl_mul_pow2 in Hfit by lia.
    assert (2 ^ (8 * byteLength bs) <= 2 ^ (8 * by_ + bo)) by (apply Z.pow_le_mono_r; lia).
    nia. }
  destruct (or_at_spec bs by_ x Hbs Hxb ltac:(lia)) as (Hok & Hlen & Hval).
  assert (Hshr : js_shr n (8 - bo) = Z.shiftr n (8 - bo)).
  { unfold js_shr. rewrite int32_id, Z.mod_small by lia. done. }
  rewrite Hshr.
  assert (Hpow : 2 ^ (Z.of_nat (S fuel)) = 2 * 2 ^ Z.of_nat fuel).
  { rewrite Nat2Z.inj_succ, Z.pow_succ_r by lia. done. }
  assert (Hn' : 0 <= Z.shiftr n (8 - bo) < 2 ^ Z.of_nat fuel /\ Z.shiftr n (8 - bo) <= n).
  { rewrite Z.shiftr_div_pow2 by lia.
    assert (2 ^ 1 <= 2 ^ (8 - bo)) by (apply Z.pow_le_mono_r; lia).
    split; [split; [apply Z.div_pos; lia|]|].
    - apply Z.div_lt_upper_bound; nia.
    - apply Z.div_le_upper_bound; nia. }
  pose proof (split_at_byte n bo by_ ltac:(lia) Hbo Hby) as Hsplit. fold x in Hsplit.
  destruct (IH (Z.shiftr n (8 - bo)) 0 (by_ + 1) (or_at bs by_ x)) as (H1 & H2 & H3);
    try done; try lia.
  { rewrite Hlen. eapply Z.le_lt_trans; [|exact Hfit].
    rewrite !Z.shiftl_mul_pow2, Z.shiftr_div_pow2 by lia.
    replace (8 * (by_ + 1) + 0) with ((8 - bo) + (8 * by_ + bo)) by lia.
    rewrite Z.pow_add_r by lia. rewrite Z.mul_assoc.
    apply Z.mul_le_mono_nonneg_r; [lia|].
    rewrite Z.mul_comm. apply Z.mul_div_le. lia. }
  split; [done|]. split; [by rewrite H2|].
  rewrite H3, Hval, <- Hsplit, Z.lor_assoc. do 2 f_equal. lia.
Qed.

Lemma byte_at_testbit bs i k :
  bytes_ok bs -> 0 <= i -> 0 <= k ->
  Z.testbit (byte_at bs i) k = (k <? 8) && Z.testbit (le_value bs) (8 * i + k).
Proof.
  intros Hbs Hi Hk. unfold byte_at. rewrite le_value_testbit by (done || lia).
  destruct (Z.ltb_spec k 8); cbn [andb].
  - replace ((8 * i + k) / 8) with i by
      (rewrite Z.mul_comm, Z.add_comm, Z.div_add, Z.div_small by lia; lia).
    replace ((8 * i + k) mod 8) with k by
      (rewrite Z.mul_comm, Z.add_comm, Z.mod_add, Z.mod_small by lia; lia).
    destruct (bs !! Z.to_nat i); [done|by rewrite Z.testbit_0_l].
  - destruct (bs !! Z.to_nat i) as [b|] eqn:E; [|by rewrite Z.testbit_0_l].
    assert (is_byte b) as Hb by (by eapply Forall_lookup_1 in Hbs).
    apply (testbit_above _ 8); [exact Hb|lia].
Qed.

Lemma byte_at_range bs i : bytes_ok bs -> is_byte (byte_at bs i).
Proof.
  intros Hbs. unfold byte_at. destruct (bs !! Z.to_nat i) as [b|] eqn:E.
  - by eapply Forall_lookup_1 in Hbs.
  - unfold is_byte; lia.
Qed.

(** One round of the read loop joins the bits of a byte with the rest. *)
Lemma join_at_byte bs m m' bo by_ vbo :
  bytes_ok bs -> 0 <= bo < 8 -> 0 <= by_ -> 0 <= vbo -> 0 < m ->
  m' = Z.max 0 (m - (8 - bo)) ->
  Z.lor (Z.shiftl (Z.land (Z.shiftr (byte_at bs by_) bo) (Z.ones m)) vbo)
        (Z.shiftl (Z.land (Z.shiftr (le_value bs) (8 * (by_ + 1))) (Z.ones m')) (vbo + (8 - bo)))
  = Z.shiftl (Z.land (Z.shiftr (le_value bs) (8 * by_ + bo)) (Z.ones m)) vbo.
Proof.
  intros Hbs Hbo Hby Hv Hm ->. apply Z.bits_inj'. intros i Hi.
  rewrite Z.lor_spec, !Z.shiftl_spec by lia.
  destruct (decide (i - vbo < 0)).
  { by rewrite !(Z.testbit_neg_r _ (i - vbo)), Z.testbit_neg_r by lia. }
  rewrite (Z.land_spec (Z.shiftr (byte_at bs by_) bo)),
    (Z.land_spec (Z.shiftr (le_value bs) (8 * by_ + bo))),
    (Z.shiftr_spec (byte_at bs by_)), (Z.shiftr_spec (le_value bs) (8 * by_ + bo)),
    (Z.testbit_ones_nonneg m) by lia.
  rewrite byte_at_testbit by (done || lia).
  replace (8 * by_ + (i - vbo + bo)) with (i - vbo + (8 * by_ + bo)) by lia.
  destruct (Z.ltb_spec (i - vbo + bo) 8); cbn [andb].
  - rewrite (Z.testbit_neg_r _ (i - (vbo + (8 - bo)))) by lia. by rewrite orb_false_r.
  - cbn [orb]. rewrite Z.land_spec, Z.shiftr_spec, Z.testbit_ones_nonneg by lia.
    replace (i - (vbo + (8 - bo)) + 8 * (by_ + 1)) with (i - vbo + (8 * by_ + bo)) by lia.
    f_equal. destruct (Z.ltb_spec (i - vbo) m), (Z.ltb_spec (i - (vbo + (8 - bo))) (Z.max 0 (m - (8 - bo)))); lia.
Qed.

Lemma ones_range m : 0 <= m -> 0 <= Z.ones m < 2 ^ m.
Proof. intros. rewrite Z.ones_equiv. pose proof (Z.pow_pos_nonneg 2 m). lia. Qed.

Lemma shiftr_ones m k : 0 <= k -> 0 <= m -> Z.shiftr (Z.ones m) k = Z.ones (Z.max 0 (m - k)).
Proof.
  intros. apply Z.bits_inj'. intros i Hi. rewrite Z.shiftr_spec by lia.
  rewrite !Z.testbit_ones_nonneg by lia.
  destruct (Z.ltb_spec (i + k) m), (Z.ltb_spec i (Z.max 0 (m - k))); lia.
Qed.

Lemma get_bits_spec fuel bs m bo by_ vbo value :
  bytes_ok bs -> 0 <= m < Z.of_nat fuel -> 0 <= bo < 8 -> 0 <= by_ ->
  0 <= vbo -> vbo + m <= 30 \/ m = 0 -> 0 <= value < 2 ^ 30 ->
  get_bits fuel bs (Z.ones m) bo by_ vbo value =
  Z.lor value (Z.shiftl (Z.land (Z.shiftr (le_value bs) (8 * by_ + bo)) (Z.ones m)) vbo).
Proof.
  revert m bo by_ vbo value.
  induction fuel as [|fuel IH]; intros m bo by_ vbo value Hbs Hm Hbo Hby Hvbo Hfit Hval; [lia|].
  cbn [get_bits]. destruct (Z.eqb_spec (Z.ones m) 0) as [E|E].
  { by rewrite E, Z.land_0_r, Z.shiftl_0_l, Z.lor_0_r. }
  assert (Hm0 : 0 < m) by (destruct (decide (m = 0)) as [->|]; [done|lia]).
  pose proof (ones_range m ltac:(lia)) as Hones.
  assert (2 ^ m <= 2 ^ 30) by (apply Z.pow_le_mono_r; lia).
  pose proof (byte_at_range bs by_ Hbs) as Hb. unfold is_byte in Hb.
  assert (Hj : js_and (js_shr (byte_at bs by_) bo) (Z.ones m)
               = Z.land (Z.shiftr (byte_at bs by_) bo) (Z.ones m)).
  { unfold js_shr. rewrite int32_id, Z.mod_small by lia.
    assert (0 <= Z.shiftr (byte_at bs by_) bo <= byte_at bs by_).
    { rewrite Z.shiftr_div_pow2 by lia. pose proof (Z.pow_pos_nonneg 2 bo).
      split; [apply Z.div_pos; lia|apply Z.div_le_upper_bound; nia]. }
    by rewrite js_and_plain by width. }
  rewrite Hj. set (x := Z.land (Z.shiftr _ bo) (Z.ones m)).
  assert (Hx : 0 <= x < 2 ^ m) by (apply land_range; lia).
  assert (Hxs : 0 <= Z.shiftl x vbo < 2 ^ 30).
  { rewrite Z.shiftl_mul_pow2 by lia. pose proof (Z.pow_pos_nonneg 2 vbo).
    assert (2 ^ m * 2 ^ vbo <= 2 ^ 30) by
      (rewrite <- Z.pow_add_r by lia; apply Z.pow_le_mono_r; lia). nia. }
  assert (Hs : js_shl x vbo = Z.shiftl x vbo).
  { unfold js_shl. rewrite (int32_id x), Z.mod_small, int32_id by lia. done. }
  rewrite Hs, js_or_plain by width.
  pose proof (lor_range value (Z.shiftl x vbo) 30 ltac:(lia) Hval Hxs) as Hv'.
  assert (Hmask : js_shr (Z.ones m) (8 - bo) = Z.ones (Z.max 0 (m - (8 - bo)))).
  { unfold js_shr. rewrite int32_id, Z.mod_small by lia. apply shiftr_ones; lia. }
  rewrite Hmask, IH by (done || lia).
  rewrite <- Z.lor_assoc. f_equal.
  rewrite <- (join_at_byte bs m (Z.max 0 (m - (8 - bo))) bo by_ vbo) by (done || lia).
  unfold x. by rewrite Z.add_0_r.
Qed.

Lemma maskOffset_spec r :
  0 <= offset r ->
  8 * byteOffset (maskOffset_of r) + bitOffset (maskOffset_of r) = offset r /\
  0 <= bitOffset (maskOffset_of r) < 8 /\ 0 <= byteOffset (maskOffset_of r).
Proof.
  intros H. unfold maskOffset_of; cbn.
  pose proof (Z.mod_pos_bound (offset r) 8). pose proof (Z.div_mod (offset r) 8).
  replace (offset r - offset r mod 8) with (offset r / 8 * 8) by lia.
  rewrite Z.div_mul by lia. pose proof (Z.div_pos (offset r) 8). lia.
Qed.

Lemma number_mask r :
  range_ok r -> type r <> Flag -> mask (maskOffset_of r) = Z.ones (length r).
Proof.
  intros (Ho & Hl & _) Ht. unfold maskOffset_of; cbn.
  assert (js_shl 1 (length r) - 1 = Z.ones (length r)) as E; [|by destruct (type r)].
  unfold js_shl. rewrite (int32_id 1), Z.mod_small, Z.shiftl_1_l by lia.
  assert (2 ^ length r <= 2 ^ 30) by (apply Z.pow_le_mono_r; lia).
  pose proof (Z.pow_pos_nonneg 2 (length r)).
  rewrite int32_id, Z.ones_equiv by lia. lia.
Qed.

Lemma flag_mask r :
  0 <= offset r -> type r = Flag -> mask (maskOffset_of r) = 2 ^ bitOffset (maskOffset_of r).
Proof.
  intros Ho Ht. unfold maskOffset_of; cbn. rewrite Ht.
  pose proof (Z.mod_pos_bound (offset r) 8 ltac:(lia)). unfold js_shl.
  rewrite (int32_id 1), (Z.mod_small _ 32), Z.shiftl_1_l by lia.
  assert (2 ^ (offset r mod 8) <= 2 ^ 7) by (apply Z.pow_le_mono_r; lia).
  pose proof (Z.pow_pos_nonneg 2 (offset r mod 8)). rewrite int32_id; lia.
Qed.

(** Decoding a field by the byte loop is cutting it out of the big number. *)
Lemma decode_field_spec bs r :
  bytes_ok bs -> range_ok r -> decode_field bs r = spec_field (le_value bs) r.
Proof.
  intros Hbs Hr. pose proof Hr as (Ho & Hl & Ht).
  destruct (maskOffset_spec r Ho) as (Hsum & Hbit & Hbyte).
  unfold decode_field, spec_field. destruct (type r) eqn:Et.
  - f_equal. rewrite (flag_mask r Ho Et).
    set (bo := bitOffset _) in *. set (by_ := byteOffset _) in *.
    pose proof (byte_at_range bs by_ Hbs) as Hb. unfold is_byte in Hb.
    assert (2 ^ bo <= 2 ^ 7) by (apply Z.pow_le_mono_r; lia).
    pose proof (Z.pow_pos_nonneg 2 bo). rewrite js_and_plain by width.
    pose proof (byte_at_testbit bs by_ bo Hbs Hbyte ltac:(lia)) as Hbt.
    rewrite (proj2 (Z.ltb_lt bo 8)), Hsum in Hbt by lia. cbn [andb] in Hbt.
    rewrite <- Hbt. destruct (Z.testbit (byte_at bs by_) bo) eqn:E.
    + apply negb_true_iff, Z.eqb_neq. intros E0.
      assert (Z.testbit (Z.land (byte_at bs by_) (2 ^ bo)) bo = true) as Hc by
        (rewrite Z.land_spec, E, Z.pow2_bits_true by lia; done).
      by rewrite E0, Z.testbit_0_l in Hc.
    + apply negb_false_iff, Z.eqb_eq. apply Z.bits_inj'. intros i Hi.
      rewrite Z.land_spec, Z.testbit_0_l. destruct (decide (i = bo)) as [->|];
        [by rewrite E|]. rewrite Z.pow2_bits_false by lia. by rewrite andb_false_r.
  - f_equal. rewrite number_mask by (done || by rewrite Et).
    rewrite get_bits_spec by (done || (unfold put_fuel; lia)).
    by rewrite Z.lor_0_l, Z.shiftl_0_r, Hsum.
  - f_equal. rewrite number_mask by (done || by rewrite Et).
    rewrite get_bits_spec by (done || (unfold put_fuel; lia)).
    by rewrite Z.lor_0_l, Z.shiftl_0_r, Hsum.
Qed.

(** Writing a field by the byte loop is ORing it into the big number. *)
Lemma encode_field_spec bs r v :
  bytes_ok bs -> range_ok r -> value_ok r v ->
  offset r + length r <= 8 * byteLength bs ->
  bytes_ok (encode_field r (Some v) bs) /\
  byteLength (encode_field r (Some v) bs) = byteLength bs /\
  le_value (encode_field r (Some v) bs) = Z.lor (le_value bs) (field_number r v).
Proof.
  intros Hbs Hr Hv Hfit. pose proof Hr as (Ho & Hl & Ht).
  destruct (maskOffset_spec r Ho) as (Hsum & Hbit & Hbyte).
  assert (Hnum : type r <> Flag -> forall z, 0 <= z < 2 ^ length r ->
    let res := put_bits put_fuel (js_and z (mask (maskOffset_of r)))
                 (bitOffset (maskOffset_of r)) (byteOffset (maskOffset_of r)) bs in
    bytes_ok res /\ byteLength res = byteLength bs /\
    le_value res = Z.lor (le_value bs) (Z.shiftl z (offset r))).
  { intros Hf z Hz. cbn zeta. rewrite number_mask by done.
    pose proof (ones_range (length r) ltac:(lia)).
    assert (2 ^ length r <= 2 ^ 30) by (apply Z.pow_le_mono_r; lia).
    rewrite js_and_plain, Z.land_ones, Z.mod_small by (lia || width).
    rewrite <- Hsum. apply put_bits_spec; try done; try lia.
    - unfold put_fuel. lia.
    - rewrite Hsum, Z.shiftl_mul_pow2 by lia.
      apply Z.lt_le_trans with (2 ^ length r * 2 ^ offset r).
      + pose proof (Z.pow_pos_nonneg 2 (offset r)). nia.
      + rewrite <- Z.pow_add_r by lia. apply Z.pow_le_mono_r; lia. }
  unfold encode_field, value_ok, field_number in *.
  destruct (type r) eqn:Et, v as [b|z]; try done; cbn [truthy toNum].
  - destruct b; [|by rewrite Z.lor_0_r]. rewrite (flag_mask r Ho Et).
    assert (2 ^ bitOffset (maskOffset_of r) <= 2 ^ 7) by (apply Z.pow_le_mono_r; lia).
    pose proof (Z.pow_pos_nonneg 2 (bitOffset (maskOffset_of r))).
    destruct (or_at_spec bs (byteOffset (maskOffset_of r)) (2 ^ bitOffset (maskOffset_of r)))
      as (H1 & H2 & H3); try done; [unfold is_byte; lia|lia|].
    split; [done|]. split; [done|]. rewrite H3. f_equal.
    rewrite Z.shiftl_mul_pow2, <- Z.pow_add_r by lia. f_equal. lia.
  - by apply Hnum.
  - by apply Hnum.
Qed.

Definition coherent (schema : BitSchema) : Prop :=
  NoDup schema.*1 /\ Forall range_ok schema.*2 /\ all_disjoint schema.

Lemma fold_max_bound (l : BitSchema) acc :
  acc <= fold_left (fun acc '(_, r) => Z.max acc (offset r + length r)) l acc /\
  Forall (fun r => offset r + length r <=
    fold_left (fun acc '(_, r) => Z.max acc (offset r + length r)) l acc) l.*2.
Proof.
  revert acc. induction l as [|[n r] l IH]; intros acc; [split; [done|constructor]|].
  cbn. destruct (IH (Z.max acc (offset r + length r))) as [H1 H2].
  split; [lia|]. constructor; [lia|done].
Qed.

(** Every field lies inside the byte array of the schema. *)
Lemma byteArrayLength_fits schema :
  0 <= byteArrayLength schema /\
  Forall (fun r => offset r + length r <= 8 * byteArrayLength schema) schema.*2.
Proof.
  destruct (fold_max_bound schema 0) as [H0 H]. fold (maxBitLength schema) in *.
  unfold byteArrayLength.
  pose proof (Z.div_mod (maxBitLength schema + 7) 8).
  pose proof (Z.mod_pos_bound (maxBitLength schema + 7) 8).
  split; [apply Z.div_pos; lia|].
  eapply Forall_impl; [exact H|]. cbn. intros r Hr. lia.
Qed.

Lemma encode_loop_spec schema value all bs :
  bytes_ok bs -> Forall range_ok schema.*2 -> values_ok schema value ->
  (forall n v, (n, v) ∈ value -> get all n = Some v) ->
  Forall (fun r => offset r + length r <= 8 * byteLength bs) schema.*2 ->
  bytes_ok (encode_loop schema all bs) /\
  byteLength (encode_loop schema all bs) = byteLength bs /\
  le_value (encode_loop schema all bs) = Z.lor (le_value bs) (spec_number schema value).
Proof.
  intros Hbs Hr Hv. revert bs Hbs Hr. unfold values_ok in Hv.
  induction Hv as [|[n r] [n' v] schema value [Hn Hok] Hv IH]; intros bs Hbs Hr Hget Hfit.
  { cbn. by rewrite Z.lor_0_r. }
  cbn in Hr, Hn, Hok, Hfit. subst n'.
  apply Forall_cons in Hr as [Hr Hrs]. apply Forall_cons in Hfit as [Hf Hfs].
  cbn [encode_loop]. rewrite (Hget n v) by (apply elem_of_cons; by left).
  destruct (encode_field_spec bs r v Hbs Hr Hok Hf) as (H1 & H2 & H3).
  destruct (IH (encode_field r (Some v) bs) H1 Hrs) as (I1 & I2 & I3).
  { intros m w Hmw. apply Hget, elem_of_cons. by right. }
  { by rewrite H2. }
  split; [done|]. split; [lia|]. rewrite I3, H3.
  unfold spec_number. cbn [zip_with foldr fst snd]. by rewrite Z.lor_assoc.
Qed.

Lemma replicate_zero n : bytes_ok (replicate n 0) /\ le_value (replicate n 0) = 0.
Proof.
  induction n as [|n [IH1 IH2]]; [split; [constructor|done]|]. cbn.
  split; [constructor; [unfold is_byte; lia|done]|by rewrite IH2].
Qed.

(** The encoder of the source computes the little-endian image of the
    specification number, in exactly [byteArrayLength] bytes. *)
Lemma encodeInternal_spec schema value :
  NoDup schema.*1 -> Forall range_ok schema.*2 -> values_ok schema value ->
  bytes_ok (encodeInternal schema value) /\
  byteLength (encodeInternal schema value) = byteArrayLength schema /\
  le_value (encodeInternal schema value) = spec_number schema value.
Proof.
  intros Hnd Hr Hv. destruct (byteArrayLength_fits schema) as [H0 Hfit].
  set (z := replicate (Z.to_nat (byteArrayLength schema)) 0).
  destruct (replicate_zero (Z.to_nat (byteArrayLength schema))) as [Hz1 Hz2].
  assert (byteLength z = byteArrayLength schema) as Hzl by
    (unfold byteLength, z; rewrite length_replicate; lia).
  destruct (encode_loop_spec schema value value z) as (H1 & H2 & H3); try done.
  - intros n v. apply get_in. by rewrite (values_ok_names _ _ Hv).
  - by rewrite Hzl.
  - unfold encodeInternal. fold z. split; [done|]. split; [lia|].
    rewrite H3. unfold z. by rewrite Hz2, Z.lor_0_l.
Qed.

Lemma field_number_testbit r v i :
  range_ok r -> value_ok r v -> 0 <= i -> Z.testbit (field_number r v) i = field_bit r v i.
Proof.
  intros (Ho & _ & _) Hv Hi. unfold field_number, field_bit. destruct v as [b|z].
  - destruct b; cbn; [|by rewrite Z.testbit_0_l].
    rewrite Z.pow2_bits_eqb by lia. apply Z.eqb_sym.
  - rewrite Z.shiftl_spec by lia. destruct (Z.leb_spec (offset r) i); [done|].
    by rewrite Z.testbit_neg_r by lia.
Qed.

Lemma spec_number_testbit schema value i :
  Forall range_ok schema.*2 -> values_ok schema value -> 0 <= i ->
  Z.testbit (spec_number schema value) i =
  existsb (fun p => field_bit p.1.2 p.2.2 i) (zip schema value).
Proof.
  intros Hr Hv Hi. unfold values_ok in Hv.
  induction Hv as [|[n r] [n' v] schema value [Hn Hok] Hv IH]; [by rewrite Z.testbit_0_l|].
  cbn in Hr, Hok. apply Forall_cons in Hr as [Hr Hrs].
  unfold spec_number. cbn [zip_with foldr existsb fst snd]. rewrite Z.lor_spec.
  rewrite field_number_testbit by done. f_equal. by apply IH.
Qed.

Lemma spec_own_bits schema value k n r v i :
  coherent schema -> values_ok schema value ->
  schema !! k = Some (n, r) -> value !! k = Some (n, v) ->
  0 <= i -> covers r i = true ->
  Z.testbit (spec_number schema value) i = field_bit r v i.
Proof.
  intros (Hnd & Hr & Hdis) Hv Hs Hval Hi Hc. rewrite spec_number_testbit by done.
  apply (own_bits schema value k n); try done.
  eapply Forall_impl; [exact Hr|]. unfold range_ok. cbn. lia.
Qed.

Lemma spec_field_correct number r v :
  range_ok r -> value_ok r v ->
  (forall i, 0 <= i -> covers r i = true -> Z.testbit number i = field_bit r v i) ->
  spec_field number r = v.
Proof.
  intros (Ho & Hl & Ht) Hv Hb. unfold spec_field, value_ok in *.
  assert (forall z, v = VNum z -> 0 <= z < 2 ^ length r ->
    Z.land (Z.shiftr number (offset r)) (Z.ones (length r)) = z) as Hnum.
  { intros z -> Hz. apply Z.bits_inj'. intros i Hi.
    rewrite Z.land_spec, Z.shiftr_spec, Z.testbit_ones_nonneg by lia.
    destruct (Z.ltb_spec i (length r)).
    - rewrite andb_true_r, Hb.
      + unfold field_bit. replace (i + offset r - offset r) with i by lia.
        destruct (Z.leb_spec (offset r) (i + offset r)); [done|lia].
      + lia.
      + unfold covers. bool_to_prop. lia.
    - rewrite andb_false_r. by rewrite (testbit_above z (length r)) by lia. }
  destruct (type r), v as [b|z]; try done; f_equal; [|by apply Hnum..].
  rewrite Hb; [unfold field_bit; by rewrite Z.eqb_refl, andb_true_r|lia|].
  unfold covers. bool_to_prop. lia.
Qed.

Lemma decode_encode_bytes schema value :
  coherent schema -> values_ok schema value ->
  decodeInternal schema (encodeInternal schema value) = Ok value.
Proof.
  intros Hc Hv. pose proof Hc as (Hnd & Hr & Hdis).
  destruct (encodeInternal_spec schema value Hnd Hr Hv) as (Hok & Hlen & Hval).
  unfold decodeInternal. rewrite Hlen, Z.eqb_refl. cbn [negb]. f_equal.
  apply list_eq. intros k. rewrite list_lookup_fmap.
  destruct (schema !! k) as [[n r]|] eqn:Es; simpl.
  - destruct (Forall2_lookup_l _ _ _ _ _ Hv Es) as ([m v] & Ev & Hn & Hvok).
    simpl in Hn, Hvok. subst m. rewrite Ev. do 2 f_equal.
    assert (range_ok r) as Hrr.
    { rewrite Forall_lookup in Hr. apply (Hr k). by rewrite list_lookup_fmap, Es. }
    rewrite decode_field_spec, Hval by done.
    apply spec_field_correct; try done.
    intros i Hi Hci. by apply (spec_own_bits schema value k n).
  - symmetry. apply lookup_ge_None. rewrite <- (Forall2_length _ _ _ Hv).
    by apply lookup_ge_None.
Qed.

(** the byte-array codec implements the big-number specification: what
    it encodes is the little-endian image, in exactly [byteArrayLength] bytes,
    of all fields ORed in at their offsets, however many byte borders a field
    crosses; and every field it decodes, from any bytes, is the slice of that
    number at the field's offset. *)
Theorem bytearray_bitmap_refines schema :
  NoDup schema.*1 -> Forall range_ok schema.*2 ->
  (forall value, values_ok schema value ->
     bytes_ok (encodeInternal schema value) /\
     byteLength (encodeInternal schema value) = byteArrayLength schema /\
     le_value (encodeInternal schema value) = spec_number schema value) /\
  (forall bs, bytes_ok bs -> byteLength bs = byteArrayLength schema ->
     decodeInternal schema bs =
       Ok (map (fun '(name, r) => (name, spec_field (le_value bs) r)) schema)).
Proof.
  intros Hnd Hr. split; [intros value; by apply encodeInternal_spec|].
  intros bs Hb Hl. unfold decodeInternal. rewrite Hl, Z.eqb_refl. cbn [negb]. f_equal.
  apply map_ext_in. intros [n r] Hin. f_equal. apply decode_field_spec; [done|].
  rewrite Forall_forall in Hr. apply Hr. apply list_elem_of_In. by apply (in_map snd _ (n, r)).
Qed.

Lemma bytearray_bitmap_refines_witness :
  decodeInternal [("a", BitField 3 16); ("b", BitFlag 19)] [0xff; 0x01; 0x08] =
    Ok [("a", VNum 63); ("b", VBool true)].
Proof.
  destruct (bytearray_bitmap_refines [("a", BitField 3 16); ("b", BitFlag 19)]) as [_ H].
  - apply (bool_decide_unpack (NoDup ["a"; "b"])). vm_compute; exact I.
  - repeat constructor; cbn; lia.
  - rewrite H; [vm_compute; reflexivity| |vm_compute; reflexivity].
    repeat constructor; unfold is_byte; lia.
Defined.

End ByteArray.
