(* ===== verification/Text.v ===== *)
(** * Text and floating point images

    The parts of the JavaScript platform the byte codecs rely on: the UTF-8
    [TextEncoder] / [TextDecoder] behind [Bytes.fromString],
    [Bytes.toString] and [DataReader.readUtf8String], and the IEEE 754 images
    behind [DataView.get/setFloat32/64].

    A JavaScript string is its list of UTF-16 code units.  A JavaScript number
    that is used as a float is its binary64 bit pattern (one canonical pattern
    for NaN). *)

From S2P Require Import Prelude DataIO.

Module Utf8.

Definition is_high (u : Z) : bool := (0xD800 <=? u) && (u <=? 0xDBFF).
Definition is_low (u : Z) : bool := (0xDC00 <=? u) && (u <=? 0xDFFF).

(** Code units to scalar values; a lone surrogate becomes U+FFFD. *)
Fixpoint to_scalars (s : list Z) : list Z :=
  match s with
  | [] => []
  | u :: rest =>
      if is_high u then
        match rest with
        | l :: rest' =>
            if is_low l
            then 0x10000 + (u - 0xD800) * 0x400 + (l - 0xDC00) :: to_scalars rest'
            else 0xFFFD :: to_scalars rest
        | [] => [0xFFFD]
        end
      else if is_low u then 0xFFFD :: to_scalars rest
      else u :: to_scalars rest
  end.

Definition of_scalar (c : Z) : list Z :=
  if c <? 0x10000 then [c]
  else [0xD800 + (c - 0x10000) / 0x400; 0xDC00 + (c - 0x10000) mod 0x400].
Definition of_scalars (cs : list Z) : list Z := mjoin (of_scalar <$> cs).

Definition encode_scalar (c : Z) : list Z :=
  if c <? 0x80 then [c]
  else if c <? 0x800 then [0xC0 + c / 64; 0x80 + c mod 64]
  else if c <? 0x10000 then [0xE0 + c / 4096; 0x80 + c / 64 mod 64; 0x80 + c mod 64]
  else [0xF0 + c / 262144; 0x80 + c / 4096 mod 64; 0x80 + c / 64 mod 64; 0x80 + c mod 64].

(** [new TextEncoder().encode(s)]. *)
Definition encode (s : list Z) : list Z := mjoin (encode_scalar <$> to_scalars s).

(** The WHATWG UTF-8 decoder: bytes still needed, code point so far, bounds
    for the next byte. *)
Inductive state := Start | Cont (needed : nat) (cp lower upper : Z).

Definition start (b : Z) : list Z * state :=
  if b <? 0x80 then ([b], Start)
  else if (0xC2 <=? b) && (b <=? 0xDF) then ([], Cont 1 (b - 0xC0) 0x80 0xBF)
  else if (0xE0 <=? b) && (b <=? 0xEF) then
    ([], Cont 2 (b - 0xE0) (if b =? 0xE0 then 0xA0 else 0x80) (if b =? 0xED then 0x9F else 0xBF))
  else if (0xF0 <=? b) && (b <=? 0xF4) then
    ([], Cont 3 (b - 0xF0) (if b =? 0xF0 then 0x90 else 0x80) (if b =? 0xF4 then 0x8F else 0xBF))
  else ([0xFFFD], Start).

Definition step (st : state) (b : Z) : list Z * state :=
  match st with
  | Start => start b
  | Cont needed cp lower upper =>
      if (lower <=? b) && (b <=? upper) then
        let cp := cp * 64 + (b - 0x80) in
        match needed with
        | S (S n) => ([], Cont (S n) cp 0x80 0xBF)
        | _ => ([cp], Start)
        end
      else (* replacement character, then the byte is processed again *)
        let '(out, st') := start b in (0xFFFD :: out, st')
  end.

Fixpoint decode_loop (st : state) (bs : list Z) : list Z :=
  match bs with
  | [] => match st with Start => [] | _ => [0xFFFD] end
  | b :: bs => let '(out, st') := step st b in out ++ decode_loop st' bs
  end.

(** A leading byte order mark is dropped ([ignoreBOM] is false). *)
Definition strip_bom (cs : list Z) : list Z :=
  match cs with
  | c :: cs' => if c =? 0xFEFF then cs' else cs
  | [] => []
  end.

(** [new TextDecoder().decode(bytes)]. *)
Definition decode (bs : list Z) : list Z := of_scalars (strip_bom (decode_loop Start bs)).

(** Strings without lone surrogates. *)
Fixpoint well_formed (s : list Z) : bool :=
  match s with
  | [] => true
  | u :: rest =>
      if is_high u then
        match rest with
        | l :: rest' => is_low l && well_formed rest'
        | [] => false
        end
      else negb (is_low u) && (0 <=? u) && (u <? 0x10000) && well_formed rest
  end.

Definition is_scalar (c : Z) : Prop := 0 <= c < 0xD800 \/ 0xE000 <= c < 0x110000.

Ltac decide_ifs :=
  repeat match goal with
  | |- context [?a <? ?b] => destruct (Z.ltb_spec a b); try lia; cbn [andb negb]
  | |- context [?a <=? ?b] => destruct (Z.leb_spec a b); try lia; cbn [andb negb]
  | |- context [?a =? ?b] => destruct (Z.eqb_spec a b); try lia; cbn [andb negb]
  end.

(** The decoder inverts the encoder on one scalar value. *)
Lemma decode_encode_scalar c rest :
  is_scalar c -> decode_loop Start (encode_scalar c ++ rest) = c :: decode_loop Start rest.
Proof.
  intros Hc. unfold is_scalar in Hc. unfold encode_scalar.
  pose proof (Z.div_mod c 64). pose proof (Z.mod_pos_bound c 64).
  pose proof (Z.div_mod (c / 64) 64). pose proof (Z.mod_pos_bound (c / 64) 64).
  pose proof (Z.div_mod (c / 4096) 64). pose proof (Z.mod_pos_bound (c / 4096) 64).
  assert (c / 4096 = c / 64 / 64) by (rewrite Z.div_div by lia; done).
  assert (c / 262144 = c / 4096 / 64) by (rewrite Z.div_div by lia; done).
  destruct (Z.ltb_spec c 0x80).
  { cbn. unfold start. by decide_ifs. }
  destruct (Z.ltb_spec c 0x800).
  { cbn [app decode_loop step]. unfold start. decide_ifs.
    cbn [app decode_loop step]. decide_ifs. cbn [app]. f_equal; lia. }
  destruct (Z.ltb_spec c 0x10000).
  { cbn [app decode_loop step]. unfold start. decide_ifs.
    all: cbn [app decode_loop step]; decide_ifs.
    all: cbn [app decode_loop step]; decide_ifs; cbn [app]; f_equal; lia. }
  cbn [app decode_loop step]. unfold start. decide_ifs.
  all: cbn [app decode_loop step]; decide_ifs.
  all: cbn [app decode_loop step]; decide_ifs.
  all: cbn [app decode_loop step]; decide_ifs; cbn [app]; f_equal; lia.
Qed.

Lemma decode_encode_scalars cs :
  Forall is_scalar cs -> decode_loop Start (mjoin (encode_scalar <$> cs)) = cs.
Proof.
  induction 1 as [|c cs Hc _ IH]; [done|]. cbn [fmap list_fmap mjoin list_join].
  rewrite decode_encode_scalar by done. f_equal. exact IH.
Qed.

Lemma to_scalars_scalar s : well_formed s = true -> Forall is_scalar (to_scalars s).
Proof.
  induction s as [s IH] using (induction_ltof1 _ (@length Z)). unfold ltof in IH.
  destruct s as [|u rest]; [constructor|]. cbn [well_formed to_scalars].
  destruct (is_high u) eqn:Eh.
  - destruct rest as [|l rest']; [done|]. intros [El Hw]%andb_true_iff. rewrite El.
    constructor; [|apply IH; cbn; done || lia].
    unfold is_high, is_low, is_scalar in *. bool_to_prop. lia.
  - intros [[[El H0]%andb_true_iff H1]%andb_true_iff Hw]%andb_true_iff.
    apply negb_true_iff in El. rewrite El.
    constructor; [|apply IH; cbn; done || lia].
    unfold is_high, is_low, is_scalar in *. bool_to_prop. lia.
Qed.

Lemma of_to_scalars s : well_formed s = true -> of_scalars (to_scalars s) = s.
Proof.
  induction s as [s IH] using (induction_ltof1 _ (@length Z)). unfold ltof in IH.
  destruct s as [|u rest]; [done|]. cbn [well_formed to_scalars].
  destruct (is_high u) eqn:Eh.
  - destruct rest as [|l rest']; [done|]. intros [El Hw]%andb_true_iff. rewrite El.
    unfold of_scalars in *. cbn [fmap list_fmap mjoin list_join].
    rewrite IH by (cbn; done || lia). unfold of_scalar.
    unfold is_high, is_low in *. bool_to_prop.
    destruct (Z.ltb_spec (0x10000 + (u - 0xD800) * 0x400 + (l - 0xDC00)) 0x10000); [lia|].
    replace (0x10000 + (u - 0xD800) * 0x400 + (l - 0xDC00) - 0x10000)
      with ((l - 0xDC00) + (u - 0xD800) * 0x400) by lia.
    rewrite Z.div_add, Z.mod_add, Z.div_small, Z.mod_small by lia.
    cbn [app]. f_equal; [lia|f_equal; lia].
  - intros [[[El H0]%andb_true_iff H1]%andb_true_iff Hw]%andb_true_iff.
    apply negb_true_iff in El. rewrite El.
    unfold of_scalars in *. cbn [fmap list_fmap mjoin list_join].
    rewrite IH by (cbn; done || lia). unfold of_scalar. by rewrite H1.
Qed.

(** A string is representable when it has no lone surrogate and does not
    start with U+FEFF (which the decoder takes for a byte order mark). *)
Definition representable (s : list Z) : bool :=
  well_formed s && match s with u :: _ => negb (u =? 0xFEFF) | [] => true end.

Lemma decode_encode s : representable s = true -> decode (encode s) = s.
Proof.
  unfold representable. intros [Hw Hb]%andb_true_iff. unfold decode, encode.
  rewrite decode_encode_scalars by by apply to_scalars_scalar.
  assert (strip_bom (to_scalars s) = to_scalars s) as ->; [|by apply of_to_scalars].
  destruct s as [|u rest]; [done|]. cbn [to_scalars well_formed] in *.
  assert (strip_bom (u :: to_scalars rest) = u :: to_scalars rest) as Hu.
  { cbn. apply negb_true_iff in Hb. by rewrite Hb. }
  destruct (is_high u) eqn:Eh.
  - destruct rest as [|l rest']; [done|]. destruct (is_low l) eqn:El; [|done].
    cbn [strip_bom]. unfold is_high, is_low in *. bool_to_prop.
    destruct (Z.eqb_spec (0x10000 + (u - 0xD800) * 0x400 + (l - 0xDC00)) 0xFEFF); [lia|done].
  - destruct (is_low u); [done|exact Hu].
Qed.

Lemma encode_ok s : well_formed s = true -> bytes_ok (encode s).
Proof.
  intros Hw%to_scalars_scalar. unfold encode.
  induction Hw as [|c cs Hc _ IH]; [constructor|].
  cbn [fmap list_fmap mjoin list_join]. apply Forall_app_2; [|exact IH].
  unfold encode_scalar, is_scalar in *.
  pose proof (Z.mod_pos_bound c 64). pose proof (Z.mod_pos_bound (c / 64) 64).
  pose proof (Z.mod_pos_bound (c / 4096) 64).
  pose proof (Z.div_pos c 64). pose proof (Z.div_pos c 4096). pose proof (Z.div_pos c 262144).
  pose proof (Z.div_lt_upper_bound c 64 32). pose proof (Z.div_lt_upper_bound c 4096 16).
  pose proof (Z.div_lt_upper_bound c 262144 5).
  destruct (Z.ltb_spec c 0x80); [|destruct (Z.ltb_spec c 0x800); [|destruct (Z.ltb_spec c 0x10000)]].
  all: repeat constructor; lia.
Qed.

End Utf8.

(** ** IEEE 754 images *)

Module Float.

Definition NaN64 : Z := 0x7ff8000000000000.
Definition NaN32 : Z := 0x7fc00000.

(** Sign, biased exponent and fraction of a binary64 / binary32 pattern. *)
Definition sign64 (b : Z) : Z := b / 2 ^ 63.
Definition exp64 (b : Z) : Z := b / 2 ^ 52 mod 2 ^ 11.
Definition frac64 (b : Z) : Z := b mod 2 ^ 52.
Definition sign32 (b : Z) : Z := b / 2 ^ 31.
Definition exp32 (b : Z) : Z := b / 2 ^ 23 mod 2 ^ 8.
Definition frac32 (b : Z) : Z := b mod 2 ^ 23.

(** What a read of 8 bytes yields: every NaN pattern is the one JavaScript
    NaN. *)
Definition canonical64 (b : Z) : Z :=
  if (exp64 b =? 2047) && negb (frac64 b =? 0) then NaN64 else b.

(** Round [m / 2^shift] to the nearest integer, ties to even. *)
Definition round_even (m shift : Z) : Z :=
  let q := m / 2 ^ shift in
  let r := m mod 2 ^ shift in
  let half := 2 ^ (shift - 1) in
  if (half <? r) || ((r =? half) && Z.odd q) then q + 1 else q.

(** [setFloat32]: the binary32 pattern nearest to a binary64 one.  A finite
    value is [m * 2^e]; [q] is the exponent of the last place of the result,
    [(q + 149) * 2^23 + mantissa] packs it (a carry out of the mantissa moves
    into the exponent field), and a result past the largest exponent is
    infinity. *)
Definition narrow (b : Z) : Z :=
  let s := sign64 b * 2 ^ 31 in
  if exp64 b =? 2047 then
    if frac64 b =? 0 then s + 0x7f800000 else NaN32
  else
    let m := if exp64 b =? 0 then frac64 b else frac64 b + 2 ^ 52 in
    let e := Z.max (exp64 b) 1 - 1075 in
    let q := Z.max (e + 29) (-149) in
    let mag := (q + 149) * 2 ^ 23 + round_even m (q - e) in
    s + (if 0x7f800000 <=? mag then 0x7f800000 else mag).

(** [getFloat32]: the binary64 pattern of a binary32 one (exact). *)
Definition widen (b : Z) : Z :=
  let s := sign32 b * 2 ^ 63 in
  if exp32 b =? 255 then
    if frac32 b =? 0 then s + 0x7ff0000000000000 else NaN64
  else
    let m := if exp32 b =? 0 then frac32 b else frac32 b + 2 ^ 23 in
    let q := Z.max (exp32 b) 1 - 150 in
    if m =? 0 then s
    else
      let l := Z.log2 m in
      s + (q + l + 1022) * 2 ^ 52 + m * 2 ^ (52 - l).

Definition is_nan32 (b : Z) : bool := (exp32 b =? 255) && negb (frac32 b =? 0).

Example widen_one : widen 0x3f800000 = 0x3ff0000000000000.
Proof. reflexivity. Qed.
Example narrow_third : narrow 0x3fd5555555555555 = 0x3eaaaaab.
Proof. reflexivity. Qed.
Example narrow_overflow : narrow 0x47efffffffffffff = 0x7f800000.
Proof. reflexivity. Qed.
Example widen_min_subnormal : widen 1 = 0x36a0000000000000.
Proof. reflexivity. Qed.

Lemma split32 b :
  0 <= b < 2 ^ 32 ->
  b = sign32 b * 2 ^ 31 + exp32 b * 2 ^ 23 + frac32 b /\
  0 <= sign32 b <= 1 /\ 0 <= exp32 b <= 255 /\ 0 <= frac32 b < 2 ^ 23.
Proof.
  intros Hb. unfold sign32, exp32, frac32.
  pose proof (Z.div_mod b (2 ^ 23)). pose proof (Z.mod_pos_bound b (2 ^ 23)).
  pose proof (Z.div_mod (b / 2 ^ 23) (2 ^ 8)). pose proof (Z.mod_pos_bound (b / 2 ^ 23) (2 ^ 8)).
  assert (b / 2 ^ 31 = b / 2 ^ 23 / 2 ^ 8) as -> by (rewrite Z.div_div by lia; done).
  lia.
Qed.

Lemma fields64 s e f :
  0 <= s <= 1 -> 0 <= e <= 2047 -> 0 <= f < 2 ^ 52 ->
  sign64 (s * 2 ^ 63 + e * 2 ^ 52 + f) = s /\
  exp64 (s * 2 ^ 63 + e * 2 ^ 52 + f) = e /\
  frac64 (s * 2 ^ 63 + e * 2 ^ 52 + f) = f.
Proof.
  intros Hs He Hf. unfold sign64, exp64, frac64.
  split; [|split].
  - replace (s * 2 ^ 63 + e * 2 ^ 52 + f) with ((e * 2 ^ 52 + f) + s * 2 ^ 63) by lia.
    rewrite Z.div_add, Z.div_small by lia. lia.
  - replace (s * 2 ^ 63 + e * 2 ^ 52 + f) with (f + (e + s * 2 ^ 11) * 2 ^ 52) by lia.
    rewrite Z.div_add, Z.div_small by lia.
    rewrite Z.add_0_l, Z.mod_add, Z.mod_small by lia. done.
  - replace (s * 2 ^ 63 + e * 2 ^ 52 + f) with (f + (e + s * 2 ^ 11) * 2 ^ 52) by lia.
    by rewrite Z.mod_add, Z.mod_small by lia.
Qed.

Lemma round_even_exact m k : 0 < k -> round_even (m * 2 ^ k) k = m.
Proof.
  intros Hk. unfold round_even.
  assert (0 < 2 ^ k) by (apply Z.pow_pos_nonneg; lia).
  rewrite Z.div_mul, Z.mod_mul by lia.
  assert (0 < 2 ^ (k - 1)) by (apply Z.pow_pos_nonneg; lia).
  destruct (Z.ltb_spec (2 ^ (k - 1)) 0); [lia|].
  destruct (Z.eqb_spec 0 (2 ^ (k - 1))); [lia|done].
Qed.

(** The mantissa of a finite binary32 value, its exponent and its width. *)
Lemma narrow_finite s m q :
  0 <= s <= 1 -> 0 < m < 2 ^ 24 -> -149 <= q <= 104 ->
  (2 ^ 23 <= m \/ q = -149) ->
  narrow (s * 2 ^ 63 + (q + Z.log2 m + 1022) * 2 ^ 52 + m * 2 ^ (52 - Z.log2 m))
  = s * 2 ^ 31 + ((q + 149) * 2 ^ 23 + m).
Proof.
  intros Hs Hm Hq Hnorm. set (l := Z.log2 m).
  assert (Hl : 2 ^ l <= m < 2 ^ Z.succ l) by (apply Z.log2_spec; lia).
  assert (Hl0 : 0 <= l) by apply Z.log2_nonneg.
  assert (Hl23 : l <= 23).
  { destruct (decide (l <= 23)); [done|].
    assert (2 ^ 24 <= 2 ^ l) by (apply Z.pow_le_mono_r; lia). lia. }
  assert (Hl23' : 2 ^ 23 <= m -> l = 23).
  { intros. destruct (decide (l = 23)); [done|].
    assert (2 ^ Z.succ l <= 2 ^ 23) by (apply Z.pow_le_mono_r; lia). lia. }
  set (k := 52 - l). assert (Hk : 29 <= k <= 52) by lia.
  assert (Hmk : 2 ^ 52 <= m * 2 ^ k < 2 ^ 53).
  { assert (2 ^ l * 2 ^ k = 2 ^ 52) by (rewrite <- Z.pow_add_r by lia; f_equal; lia).
    assert (2 ^ Z.succ l * 2 ^ k = 2 ^ 53) by (rewrite <- Z.pow_add_r by lia; f_equal; lia).
    assert (0 < 2 ^ k) by (apply Z.pow_pos_nonneg; lia). nia. }
  replace (s * 2 ^ 63 + (q + l + 1022) * 2 ^ 52 + m * 2 ^ k)
    with (s * 2 ^ 63 + (q + l + 1023) * 2 ^ 52 + (m * 2 ^ k - 2 ^ 52)) by lia.
  destruct (fields64 s (q + l + 1023) (m * 2 ^ k - 2 ^ 52)) as (Es & Ee & Ef); [lia..|].
  unfold narrow. rewrite Es, Ee, Ef.
  destruct (Z.eqb_spec (q + l + 1023) 2047); [lia|].
  destruct (Z.eqb_spec (q + l + 1023) 0); [lia|].
  replace (m * 2 ^ k - 2 ^ 52 + 2 ^ 52) with (m * 2 ^ k) by lia.
  replace (Z.max (Z.max (q + l + 1023) 1 - 1075 + 29) (-149)) with q by lia.
  replace (q - (Z.max (q + l + 1023) 1 - 1075)) with k by lia.
  rewrite round_even_exact by lia.
  destruct (Z.leb_spec 0x7f800000 ((q + 149) * 2 ^ 23 + m)); [lia|done].
Qed.

(** Every binary32 value other than NaN survives the trip through a
    JavaScript number. *)
Lemma narrow_widen b : 0 <= b < 2 ^ 32 -> is_nan32 b = false -> narrow (widen b) = b.
Proof.
  intros Hb Hnan. destruct (split32 b Hb) as (Eb & Hs & He & Hf).
  unfold is_nan32, widen in *.
  destruct (Z.eqb_spec (exp32 b) 255) as [E|E]; cbn [andb] in Hnan.
  { apply negb_false_iff in Hnan. rewrite Hnan. apply Z.eqb_eq in Hnan.
    replace (sign32 b * 2 ^ 63 + 0x7ff0000000000000)
      with (sign32 b * 2 ^ 63 + 2047 * 2 ^ 52 + 0) by lia.
    destruct (fields64 (sign32 b) 2047 0) as (Es & Ee & Ef); [lia..|].
    unfold narrow. rewrite Es, Ee, Ef, !Z.eqb_refl. lia. }
  set (m := if exp32 b =? 0 then frac32 b else frac32 b + 2 ^ 23).
  destruct (Z.eqb_spec m 0) as [Em|Em].
  { assert (exp32 b = 0 /\ frac32 b = 0) as [E0 F0] by
      (unfold m in Em; destruct (Z.eqb_spec (exp32 b) 0); lia).
    destruct (fields64 (sign32 b) 0 0) as (Es & Ee & Ef); [lia..|].
    rewrite Z.mul_0_l, !Z.add_0_r in *. unfold narrow. rewrite Es, Ee, Ef.
    transitivity (sign32 b * 2 ^ 31 + 0); [reflexivity|lia]. }
  rewrite narrow_finite.
  - unfold m in *. destruct (Z.eqb_spec (exp32 b) 0) as [E0|E0]; lia.
  - lia.
  - unfold m in *. destruct (Z.eqb_spec (exp32 b) 0) as [E0|E0]; lia.
  - lia.
  - unfold m. destruct (Z.eqb_spec (exp32 b) 0) as [E0|E0]; lia.
Qed.

(** A double survives unless it is a non-canonical NaN pattern. *)
Definition is_js_number (b : Z) : Prop := 0 <= b < 2 ^ 64 /\ canonical64 b = b.

End Float.

(** ** The text and float accessors of [DataReader] and [DataWriter] *)

Definition readUtf8String (length : Z) : Reader.read (list Z) := fun r =>
  let* (off, r') := Reader.getOffsetAndAdvance length r in
  Ok (Utf8.decode (Reader.subarray (Reader.buffer r) off length), r').

Definition readFloat : Reader.read Z := fun r =>
  let* (b, r') := Reader.readUInt32 r in Ok (Float.widen b, r').
Definition readDouble : Reader.read Z := fun r =>
  let* (b, r') := Reader.readUInt64 r in Ok (Float.canonical64 b, r').

Definition writeFloat (value : Z) (w : Writer.DataWriter) : Writer.DataWriter :=
  Writer.push (view_bytes (Writer.littleEndian w) 4 (Float.narrow value)) 4 w.
Definition writeDouble (value : Z) (w : Writer.DataWriter) : Writer.DataWriter :=
  Writer.push (view_bytes (Writer.littleEndian w) 8 value) 8 w.

Lemma written_Float v w bs :
  Writer.written w bs -> Writer.written (writeFloat v w) (bs ++ le_bytes 4 (Float.narrow v)).
Proof. apply (Writer.written_view 4). Qed.
Lemma written_Double v w bs :
  Writer.written w bs -> Writer.written (writeDouble v w) (bs ++ le_bytes 8 v).
Proof. apply (Writer.written_view 8). Qed.
#[export] Hint Resolve written_Float written_Double : writer.

Lemma readUtf8String_at pre mid post n :
  n = byteLength mid ->
  readUtf8String n (Reader.at_ pre (mid ++ post)) =
  Ok (Utf8.decode mid, Reader.at_ (pre ++ mid) post).
Proof.
  intros ->. unfold readUtf8String. rewrite Reader.getOffsetAndAdvance_at. cbn [rbind].
  unfold Reader.at_; cbn [Reader.buffer]. by rewrite Reader.subarray_at.
Qed.

(** A number a 4-byte float element can carry exactly: the image of a
    binary32 value other than NaN. *)
Definition is_float32 (v : Z) : Prop :=
  exists b, 0 <= b < 2 ^ 32 /\ Float.is_nan32 b = false /\ v = Float.widen b.

Lemma readFloat_bytes v pre post :
  is_float32 v ->
  readFloat (Reader.at_ pre (le_bytes 4 (Float.narrow v) ++ post)) =
  Ok (v, Reader.at_ (pre ++ le_bytes 4 (Float.narrow v)) post).
Proof.
  intros (b & Hb & Hn & ->). unfold readFloat, Reader.readUInt32.
  rewrite Reader.readUnsigned_bytes. cbn [rbind]. rewrite Float.narrow_widen by done.
  by rewrite Z.mod_small.
Qed.

Lemma readDouble_bytes v pre post :
  Float.is_js_number v ->
  readDouble (Reader.at_ pre (le_bytes 8 v ++ post)) =
  Ok (v, Reader.at_ (pre ++ le_bytes 8 v) post).
Proof.
  intros (Hb & Hc). unfold readDouble, Reader.readUInt64.
  rewrite Reader.readUnsigned_bytes. cbn [rbind]. by rewrite Z.mod_small, Hc.
Qed.
