(* ===== verification/TlvCodec.v ===== *)
(** * The TLV element codec

    Models src/packages/types/src/tlv/TlvCodec.ts, [class TlvCodec]: control
    bytes, tags, primitive values and their byte lengths. *)

From S2P Require Import Prelude DataIO Text BitmapSchema.

(** ** Data *)

(** [enum TlvLength]. *)
Inductive TlvLength := OneByte | TwoBytes | FourBytes | EightBytes.

Definition length_code (l : TlvLength) : Z :=
  match l with OneByte => 0 | TwoBytes => 1 | FourBytes => 2 | EightBytes => 3 end.
Definition length_of_code (c : Z) : TlvLength :=
  if c =? 0 then OneByte else if c =? 1 then TwoBytes
  else if c =? 2 then FourBytes else EightBytes.

(** [type TlvTypeLength]; [TOther] is the [{ type: typeLength }] the parser
    returns for element types outside the enumeration. *)
Inductive TlvTypeLength :=
| TSignedInt (length : TlvLength)
| TUnsignedInt (length : TlvLength)
| TBoolean (value : bool)
| TFloat (length : TlvLength)
| TUtf8String (length : TlvLength)
| TByteString (length : TlvLength)
| TNull
| TStructure
| TArray
| TList
| TEndOfContainer
| TOther (type : Z).

#[global] Instance TlvLength_eq_dec : EqDecision TlvLength.
Proof. solve_decision. Defined.
#[global] Instance TlvTypeLength_eq_dec : EqDecision TlvTypeLength.
Proof. solve_decision. Defined.

(** [type TlvTag]. *)
Record TlvTag := mkTag { profile : option Z; id : option Z }.

#[global] Instance TlvTag_eq_dec : EqDecision TlvTag.
Proof. solve_decision. Defined.

(** Primitive values ([TlvToPrimitive]): integers (number or bigint), floats
    as binary64 patterns, strings as UTF-16 code units. *)
Inductive TlvValue :=
| VInt (z : Z)
| VFloat (bits : Z)
| VString (s : list Z)
| VBytes (bs : list Z)
| VBoolean (b : bool)
| VNull.

#[global] Instance TlvValue_eq_dec : EqDecision TlvValue.
Proof. solve_decision. Defined.

Definition MATTER_COMMON_PROFILE : Z := 0.

(** [enum TlvType]: the numeric type of a type-length. *)
Definition type_of (tl : TlvTypeLength) : Z :=
  match tl with
  | TSignedInt _ => 0x00
  | TUnsignedInt _ => 0x04
  | TBoolean _ => 0x08
  | TFloat _ => 0x0a
  | TUtf8String _ => 0x0c
  | TByteString _ => 0x10
  | TNull => 0x14
  | TStructure => 0x15
  | TArray => 0x16
  | TList => 0x17
  | TEndOfContainer => 0x18
  | TOther t => t
  end.

Definition ControlByteSchema : BitSchema :=
  [("typeLength"%string, BitField 0 5); ("tagControl"%string, BitFieldEnum 5 3)].

Definition encode_control (tagControl typeLength : Z) : Z :=
  encodeInternal ControlByteSchema
    [("tagControl"%string, VNum tagControl); ("typeLength"%string, VNum typeLength)].

(** ** Operations *)

Definition getUIntTlvLength (value : Z) : TlvLength :=
  if value <=? 255 then OneByte
  else if value <=? 65535 then TwoBytes
  else if value <=? 4294967295 then FourBytes
  else EightBytes.

Definition getIntTlvLength (value : Z) : TlvLength :=
  if 0 <? value then
    if value <=? 127 then OneByte
    else if value <=? 32767 then TwoBytes
    else if value <=? 2147483647 then FourBytes
    else EightBytes
  else
    if -128 <=? value then OneByte
    else if -32768 <=? value then TwoBytes
    else if -2147483648 <=? value then FourBytes
    else EightBytes.

Definition readTag (tagControl : Z) : Reader.read (option TlvTag) :=
  if tagControl =? 0 then Reader.ret None
  else if tagControl =? 1 then
    Reader.bind Reader.readUInt8 (fun i => Reader.ret (Some (mkTag None (Some i))))
  else if tagControl =? 2 then
    Reader.bind Reader.readUInt16 (fun i =>
      Reader.ret (Some (mkTag (Some MATTER_COMMON_PROFILE) (Some i))))
  else if tagControl =? 3 then
    Reader.bind Reader.readUInt32 (fun i =>
      Reader.ret (Some (mkTag (Some MATTER_COMMON_PROFILE) (Some i))))
  else if (tagControl =? 4) || (tagControl =? 5) then Reader.throw NotImplementedError
  else if tagControl =? 6 then
    Reader.bind Reader.readUInt32 (fun p =>
    Reader.bind Reader.readUInt16 (fun i => Reader.ret (Some (mkTag (Some p) (Some i)))))
  else Reader.throw NotImplementedError.

Definition parseTypeLength (typeLength : Z) : TlvTypeLength :=
  let length := length_of_code (js_and typeLength 0x03) in
  let type := js_and typeLength 0xfc in
  if type =? 0x0c then TUtf8String length
  else if type =? 0x10 then TByteString length
  else if type =? 0x00 then TSignedInt length
  else if type =? 0x04 then TUnsignedInt length
  else if type =? 0x08 then
    match length with
    | OneByte => TBoolean false
    | TwoBytes => TBoolean true
    | FourBytes => TFloat length
    | EightBytes => TFloat length
    end
  else if typeLength =? 0x14 then TNull
  else if typeLength =? 0x15 then TStructure
  else if typeLength =? 0x16 then TArray
  else if typeLength =? 0x17 then TList
  else if typeLength =? 0x18 then TEndOfContainer
  else TOther typeLength.

Definition readTagType : Reader.read (option TlvTag * TlvTypeLength) :=
  Reader.bind Reader.readUInt8 (fun control =>
  let fields := decodeInternal ControlByteSchema control in
  let tagControl := toNum (get fields "tagControl") in
  let typeLength := toNum (get fields "typeLength") in
  Reader.bind (readTag tagControl) (fun tag =>
  Reader.ret (tag, parseTypeLength typeLength))).

Definition readLength (length : TlvLength) : Reader.read Z :=
  match length with
  | OneByte => Reader.readUInt8
  | TwoBytes => Reader.readUInt16
  | FourBytes => Reader.readUInt32
  | EightBytes => Reader.readUInt64
  end.

Definition readPrimitive (tl : TlvTypeLength) : Reader.read TlvValue :=
  match tl with
  | TSignedInt OneByte => Reader.bind Reader.readInt8 (fun z => Reader.ret (VInt z))
  | TSignedInt TwoBytes => Reader.bind Reader.readInt16 (fun z => Reader.ret (VInt z))
  | TSignedInt FourBytes => Reader.bind Reader.readInt32 (fun z => Reader.ret (VInt z))
  | TSignedInt EightBytes => Reader.bind Reader.readInt64 (fun z => Reader.ret (VInt z))
  | TUnsignedInt length => Reader.bind (readLength length) (fun z => Reader.ret (VInt z))
  | TFloat FourBytes => Reader.bind readFloat (fun f => Reader.ret (VFloat f))
  | TFloat EightBytes => Reader.bind readDouble (fun f => Reader.ret (VFloat f))
  | TFloat _ => Reader.throw UnexpectedDataError
  | TUtf8String length =>
      Reader.bind (readLength length) (fun n =>
      Reader.bind (readUtf8String n) (fun s => Reader.ret (VString s)))
  | TByteString length =>
      Reader.bind (readLength length) (fun n =>
      Reader.bind (Reader.readByteArray n) (fun b => Reader.ret (VBytes b)))
  | TBoolean value => Reader.ret (VBoolean value)
  | TNull => Reader.ret VNull
  | _ => Reader.throw UnexpectedDataError
  end.

(** The [typeLength] computed by the first switch of [writeTag]. *)
Definition control_code (tl : TlvTypeLength) : Z :=
  match tl with
  | TUtf8String l | TByteString l | TSignedInt l | TUnsignedInt l | TFloat l =>
      js_or (type_of tl) (length_code l)
  | TBoolean value => type_of tl + (if value then 1 else 0)
  | _ => type_of tl
  end.

Definition fits16 (i : Z) : bool := js_and i 0xffff0000 =? 0.

Definition writeTag (w : Writer.DataWriter) (tl : TlvTypeLength) (tag : option TlvTag)
  : result Writer.DataWriter :=
  let '(mkTag profile id) := default (mkTag None None) tag in
  let code := control_code tl in
  let control tagControl := Writer.writeUInt8 (encode_control tagControl code) in
  match profile, id with
  | None, None => Ok (w |> control 0)
  | None, Some i => Ok (w |> control 1 |> Writer.writeUInt8 i)
  | Some p, None => Throw UnexpectedDataError
  | Some p, Some i =>
      if p =? MATTER_COMMON_PROFILE then
        if fits16 i then Ok (w |> control 2 |> Writer.writeUInt16 i)
        else Ok (w |> control 3 |> Writer.writeUInt32 i)
      else
        if fits16 i
        then Ok (w |> control 6 |> Writer.writeUInt32 p |> Writer.writeUInt16 i)
        else Ok (w |> control 7 |> Writer.writeUInt32 p |> Writer.writeUInt32 i)
  end.

Definition getTagByteLength (tag : option TlvTag) : result Z :=
  let '(mkTag profile id) := default (mkTag None None) tag in
  match profile, id with
  | None, None => Ok 1
  | None, Some _ => Ok 2
  | Some _, None => Throw UnexpectedDataError
  | Some p, Some i =>
      if p =? MATTER_COMMON_PROFILE then if fits16 i then Ok 3 else Ok 5
      else if fits16 i then Ok 7 else Ok 9
  end.

Definition writeUInt (w : Writer.DataWriter) (length : TlvLength) (value : Z) : Writer.DataWriter :=
  match length with
  | OneByte => Writer.writeInt8 value w
  | TwoBytes => Writer.writeInt16 value w
  | FourBytes => Writer.writeInt32 value w
  | EightBytes => Writer.writeInt64 value w
  end.

(** A value whose kind does not match the type-length is excluded by the
    [TlvToPrimitive] typing of the source; the model throws [TypeError]. *)
Definition writePrimitive (w : Writer.DataWriter) (tl : TlvTypeLength) (value : option TlvValue)
  : result Writer.DataWriter :=
  match tl, value with
  | TSignedInt length, Some (VInt z) => Ok (writeUInt w length z)
  | TUnsignedInt OneByte, Some (VInt z) => Ok (Writer.writeUInt8 z w)
  | TUnsignedInt TwoBytes, Some (VInt z) => Ok (Writer.writeUInt16 z w)
  | TUnsignedInt FourBytes, Some (VInt z) => Ok (Writer.writeUInt32 z w)
  | TUnsignedInt EightBytes, Some (VInt z) => Ok (Writer.writeUInt64 z w)
  | TFloat FourBytes, Some (VFloat f) => Ok (writeFloat f w)
  | TFloat EightBytes, Some (VFloat f) => Ok (writeDouble f w)
  | TFloat (OneByte | TwoBytes), Some (VFloat _) => Throw UnexpectedDataError
  | TUtf8String length, Some (VString s) =>
      let stringData := Utf8.encode s in
      Ok (Writer.writeByteArray stringData (writeUInt w length (byteLength stringData)))
  | TByteString length, Some (VBytes b) =>
      Ok (Writer.writeByteArray b (writeUInt w length (byteLength b)))
  | TBoolean _, _ => Ok w
  | (TNull | TStructure | TArray | TList | TEndOfContainer | TOther _), _ =>
      Throw UnexpectedDataError
  | _, _ => Throw TypeError
  end.

Definition getUIntByteLength (length : TlvLength) : Z :=
  match length with OneByte => 1 | TwoBytes => 2 | FourBytes => 4 | EightBytes => 8 end.

Definition getPrimitiveByteLength (tl : TlvTypeLength) (value : option TlvValue) : result Z :=
  match tl, value with
  | TSignedInt length, _ | TUnsignedInt length, _ | TFloat length, _ =>
      Ok (getUIntByteLength length)
  | TUtf8String length, Some (VString s) =>
      Ok (getUIntByteLength length + byteLength (Utf8.encode s))
  | TByteString length, Some (VBytes b) => Ok (getUIntByteLength length + byteLength b)
  | TBoolean _, _ => Ok 0
  | (TUtf8String _ | TByteString _), _ => Throw TypeError
  | _, _ => Throw UnexpectedDataError
  end.

(** ** Well-formed elements *)

(** Type-lengths of the [TlvTypeLength] union (floats have four or eight
    bytes), or an unknown type that fits the five type bits. *)
Definition tl_ok (tl : TlvTypeLength) : bool :=
  match tl with
  | TFloat (OneByte | TwoBytes) => false
  | TOther t => (0x19 <=? t) && (t <=? 0x1f)
  | _ => true
  end.

(** Tags the reader understands: anonymous, context specific (one byte),
    common profile (16 or 32 bit) and fully qualified with a 16-bit id. *)
Definition tag_ok (tag : option TlvTag) : bool :=
  match default (mkTag None None) tag with
  | mkTag None None => true
  | mkTag None (Some i) => (0 <=? i) && (i <? 256)
  | mkTag (Some p) None => false
  | mkTag (Some p) (Some i) =>
      if p =? MATTER_COMMON_PROFILE then (0 <=? i) && (i <? 2 ^ 32)
      else (0 <=? p) && (p <? 2 ^ 32) && (0 <=? i) && (i <? 2 ^ 16)
  end.

(** What the reader returns for a written tag: a tag object without any
    field is the anonymous tag. *)
Definition normalize_tag (tag : option TlvTag) : option TlvTag :=
  match tag with
  | Some (mkTag None None) => None
  | _ => tag
  end.

Definition signed_fits (l : TlvLength) (z : Z) : Prop :=
  - 2 ^ (8 * getUIntByteLength l - 1) <= z < 2 ^ (8 * getUIntByteLength l - 1).
Definition unsigned_fits (l : TlvLength) (z : Z) : Prop :=
  0 <= z < 2 ^ (8 * getUIntByteLength l).

(** Values that fit the type-length they are written with. *)
Definition primitive_ok (tl : TlvTypeLength) (v : TlvValue) : Prop :=
  match tl, v with
  | TSignedInt l, VInt z => signed_fits l z
  | TUnsignedInt l, VInt z => unsigned_fits l z
  | TFloat FourBytes, VFloat f => is_float32 f
  | TFloat EightBytes, VFloat f => Float.is_js_number f
  | TUtf8String l, VString s =>
      Utf8.representable s = true /\ unsigned_fits l (byteLength (Utf8.encode s))
  | TByteString l, VBytes b => unsigned_fits l (byteLength b)
  | TBoolean b, VBoolean b' => b = b'
  | _, _ => False
  end.

(** ** Control bytes *)

Lemma control_roundtrip tc code :
  0 <= tc < 8 -> 0 <= code < 32 ->
  let fields := decodeInternal ControlByteSchema (encode_control tc code mod 256) in
  toNum (get fields "tagControl") = tc /\ toNum (get fields "typeLength") = code.
Proof.
  intros Htc Hcode.
  assert (forallb_below 8 (fun tc => forallb_below 32 (fun code =>
    let fields := decodeInternal ControlByteSchema (encode_control tc code mod 256) in
    (toNum (get fields "tagControl") =? tc) && (toNum (get fields "typeLength") =? code))) = true)
    as H by (vm_compute; reflexivity).
  pose proof (forallb_below_spec _ _ H tc Htc) as H1.
  pose proof (forallb_below_spec _ _ H1 code Hcode) as H2.
  apply andb_true_iff in H2 as [E1%Z.eqb_eq E2%Z.eqb_eq]. cbv zeta. by split.
Qed.

Lemma control_code_range tl : tl_ok tl = true -> 0 <= control_code tl < 32.
Proof.
  destruct tl as [[]|[]|[]|[]|[]|[]| | | | | |t]; [vm_compute; intuition congruence..|].
  cbn. bool_to_prop. lia.
Qed.

Lemma parse_control_code tl : tl_ok tl = true -> parseTypeLength (control_code tl) = tl.
Proof.
  destruct tl as [[]|[]|[]|[]|[]|[]| | | | | |t]; [vm_compute; congruence..|].
  cbn [tl_ok control_code type_of]. intros H. bool_to_prop.
  assert (t = 0x19 \/ t = 0x1a \/ t = 0x1b \/ t = 0x1c \/ t = 0x1d \/ t = 0x1e \/ t = 0x1f)
    as Ht by lia.
  by destruct Ht as [->|[->|[->|[->|[->|[->| ->]]]]]].
Qed.

Lemma fits16_spec i : 0 <= i < 2 ^ 32 -> fits16 i = (i <? 2 ^ 16).
Proof.
  intros Hi. unfold fits16.
  assert (js_and i 0xffff0000 = 0 <-> i < 2 ^ 16) as E.
  { split.
    - intros E. destruct (decide (i < 2 ^ 16)); [done|exfalso].
      assert (i / 2 ^ 16 <> 0) as Hd.
      { intros H0. apply Z.div_small_iff in H0; lia. }
      apply Hd. apply Z.bits_inj'. intros k Hk.
      rewrite Z.testbit_0_l, <- Z.shiftr_div_pow2, Z.shiftr_spec by lia.
      destruct (decide (k + 16 < 32)).
      + assert (Z.testbit (js_and i 0xffff0000) (k + 16) = false) as Hb by
          (rewrite E; apply Z.testbit_0_l).
        rewrite js_and_testbit in Hb by lia.
        change 0xffff0000 with (Z.shiftl (Z.ones 16) 16) in Hb.
        rewrite Z.shiftl_spec, Z.testbit_ones_nonneg in Hb by lia.
        destruct (Z.ltb_spec (k + 16 - 16) 16); [|lia]. by rewrite andb_true_r in Hb.
      + apply (testbit_above _ 32); lia.
    - intros Hlt. apply int32_zero; [apply js_and_int32|]. intros k Hk.
      rewrite js_and_testbit by lia.
      change 0xffff0000 with (Z.shiftl (Z.ones 16) 16). rewrite Z.shiftl_spec by lia.
      destruct (decide (k < 16)).
      + rewrite (Z.testbit_neg_r (Z.ones 16)) by lia. by rewrite andb_false_r.
      + by rewrite (testbit_above i 16) by lia. }
  destruct (Z.ltb_spec i (2 ^ 16)); [apply Z.eqb_eq, E; lia|].
  apply Z.eqb_neq. rewrite E. lia.
Qed.

(** ** Tags *)

(** The bytes [writeTag] appends. *)
Definition tag_image (tl : TlvTypeLength) (tag : option TlvTag) : list Z :=
  let control tagControl := le_bytes 1 (encode_control tagControl (control_code tl)) in
  match default (mkTag None None) tag with
  | mkTag None None => control 0
  | mkTag None (Some i) => control 1 ++ le_bytes 1 i
  | mkTag (Some p) None => []
  | mkTag (Some p) (Some i) =>
      if p =? MATTER_COMMON_PROFILE then
        if fits16 i then control 2 ++ le_bytes 2 i else control 3 ++ le_bytes 4 i
      else
        if fits16 i then control 6 ++ le_bytes 4 p ++ le_bytes 2 i
        else control 7 ++ le_bytes 4 p ++ le_bytes 4 i
  end.

Lemma writeTag_written w bs tl tag w' :
  Writer.written w bs -> writeTag w tl tag = Ok w' ->
  Writer.written w' (bs ++ tag_image tl tag).
Proof.
  intros Hw. unfold writeTag, tag_image.
  destruct (default (mkTag None None) tag) as [[p|] [i|]]; cbn iota beta; try done.
  - destruct (p =? MATTER_COMMON_PROFILE), (fits16 i); intros [= <-];
      rewrite ?app_assoc; eauto with writer.
  - intros [= <-]. rewrite ?app_assoc. eauto with writer.
  - intros [= <-]. eauto with writer.
Qed.

(** [getTagByteLength] is the length of the written tag, and throws exactly
    when [writeTag] does. *)
Lemma getTagByteLength_correct w tl tag :
  match writeTag w tl tag with
  | Ok _ => getTagByteLength tag = Ok (byteLength (tag_image tl tag))
  | Throw e => getTagByteLength tag = Throw e
  end.
Proof.
  unfold writeTag, getTagByteLength, tag_image, byteLength.
  destruct (default (mkTag None None) tag) as [[p|] [i|]]; cbn iota beta; try done.
  by destruct (p =? MATTER_COMMON_PROFILE), (fits16 i).
Qed.

Lemma read_control tc code pre post :
  0 <= tc < 8 -> 0 <= code < 32 ->
  exists c,
    Reader.readUInt8 (Reader.at_ pre (le_bytes 1 (encode_control tc code) ++ post)) =
      Ok (c, Reader.at_ (pre ++ le_bytes 1 (encode_control tc code)) post) /\
    toNum (get (decodeInternal ControlByteSchema c) "tagControl") = tc /\
    toNum (get (decodeInternal ControlByteSchema c) "typeLength") = code.
Proof.
  intros Htc Hcode. exists (encode_control tc code mod 256).
  split; [apply (Reader.readUnsigned_bytes 1)|by apply control_roundtrip].
Qed.

Lemma readTagType_control tc tl pre post :
  0 <= tc < 8 -> tl_ok tl = true ->
  readTagType (Reader.at_ pre (le_bytes 1 (encode_control tc (control_code tl)) ++ post)) =
  Reader.bind (readTag tc) (fun tag => Reader.ret (tag, tl))
    (Reader.at_ (pre ++ le_bytes 1 (encode_control tc (control_code tl))) post).
Proof.
  intros Htc Htl.
  destruct (read_control tc (control_code tl) pre post Htc (control_code_range _ Htl))
    as (c & E & E1 & E2).
  unfold readTagType, Reader.bind at 1. rewrite E. cbn [rbind].
  by rewrite E1, E2, parse_control_code.
Qed.

(** Reading a written tag yields the tag and the type-length. *)
Lemma readTagType_image tl tag pre post :
  tl_ok tl = true -> tag_ok tag = true ->
  readTagType (Reader.at_ pre (tag_image tl tag ++ post)) =
  Ok ((normalize_tag tag, tl), Reader.at_ (pre ++ tag_image tl tag) post).
Proof.
  intros Htl Htag. unfold tag_ok, tag_image, normalize_tag in *.
  destruct tag as [[[p|] [i|]]|]; cbn [from_option Datatypes.id] in *; try done.
  - destruct (Z.eqb_spec p MATTER_COMMON_PROFILE) as [->|Hp]; bool_to_prop.
    + rewrite fits16_spec by lia. destruct (Z.ltb_spec i (2 ^ 16)).
      all: rewrite <- app_assoc, readTagType_control by (done || lia).
      all: unfold readTag; cbn [Z.eqb Pos.eqb].
      all: unfold Reader.readUInt16, Reader.readUInt32, Reader.bind, Reader.ret.
      all: rewrite Reader.readUnsigned_exact by (cbn; lia); cbn [rbind].
      all: by rewrite <- app_assoc.
    + rewrite fits16_spec by lia. destruct (Z.ltb_spec i (2 ^ 16)); [|lia].
      rewrite <- !app_assoc, readTagType_control by (done || lia).
      unfold readTag; cbn [Z.eqb Pos.eqb orb].
      unfold Reader.readUInt16, Reader.readUInt32, Reader.bind, Reader.ret.
      rewrite Reader.readUnsigned_exact by (cbn; lia). cbn [rbind].
      rewrite Reader.readUnsigned_exact by (cbn; lia). cbn [rbind].
      by rewrite <- !app_assoc.
  - bool_to_prop. rewrite <- app_assoc, readTagType_control by (done || lia).
    unfold readTag; cbn [Z.eqb Pos.eqb]. unfold Reader.readUInt8, Reader.bind, Reader.ret.
    rewrite Reader.readUnsigned_exact by (cbn; lia). cbn [rbind]. by rewrite <- app_assoc.
  - by rewrite readTagType_control by (done || lia).
  - by rewrite readTagType_control by (done || lia).
Qed.

(** ** Primitives *)

Definition primitive_image (tl : TlvTypeLength) (value : TlvValue) : list Z :=
  match tl, value with
  | (TSignedInt l | TUnsignedInt l), VInt z => le_bytes (Z.to_nat (getUIntByteLength l)) z
  | TFloat FourBytes, VFloat f => le_bytes 4 (Float.narrow f)
  | TFloat EightBytes, VFloat f => le_bytes 8 f
  | TUtf8String l, VString s =>
      le_bytes (Z.to_nat (getUIntByteLength l)) (byteLength (Utf8.encode s)) ++ Utf8.encode s
  | TByteString l, VBytes b => le_bytes (Z.to_nat (getUIntByteLength l)) (byteLength b) ++ b
  | _, _ => []
  end.

Lemma writeUInt_written w bs l z :
  Writer.written w bs ->
  Writer.written (writeUInt w l z) (bs ++ le_bytes (Z.to_nat (getUIntByteLength l)) z).
Proof. destruct l; cbn; eauto with writer. Qed.
#[local] Hint Resolve writeUInt_written : writer.

Lemma writePrimitive_written w bs tl v w' :
  Writer.written w bs -> writePrimitive w tl (Some v) = Ok w' ->
  Writer.written w' (bs ++ primitive_image tl v).
Proof.
  intros Hw. unfold writePrimitive, primitive_image.
  destruct tl as [l|l| |l|l|l| | | | | |]; destruct v as [z|f|s|b|bb|]; try done;
    try (destruct l; intros [= <-]; cbn; eauto with writer; fail).
  all: try (intros [= <-]; rewrite ?app_nil_r; rewrite ?app_assoc; eauto with writer; fail).
Qed.

Lemma readLength_exact l z pre post :
  unsigned_fits l z ->
  readLength l (Reader.at_ pre (le_bytes (Z.to_nat (getUIntByteLength l)) z ++ post)) =
  Ok (z, Reader.at_ (pre ++ le_bytes (Z.to_nat (getUIntByteLength l)) z) post).
Proof. destruct l; intros H; by apply Reader.readUnsigned_exact. Qed.

(** Reading a written primitive yields the value. *)
Lemma readPrimitive_image tl v pre post :
  primitive_ok tl v ->
  readPrimitive tl (Reader.at_ pre (primitive_image tl v ++ post)) =
  Ok (v, Reader.at_ (pre ++ primitive_image tl v) post).
Proof.
  unfold primitive_ok, primitive_image, readPrimitive.
  destruct tl as [l|l|b|l|l|l| | | | | |]; destruct v as [z|f|s|bs|bb|]; intros H; try done.
  - destruct l.
    + by erewrite Reader.bind_ok by (apply (Reader.readSigned_bytes 1); [lia|exact H]).
    + by erewrite Reader.bind_ok by (apply (Reader.readSigned_bytes 2); [lia|exact H]).
    + by erewrite Reader.bind_ok by (apply (Reader.readSigned_bytes 4); [lia|exact H]).
    + by erewrite Reader.bind_ok by (apply (Reader.readSigned_bytes 8); [lia|exact H]).
  - erewrite Reader.bind_ok by by apply readLength_exact. done.
  - cbn. rewrite H. by rewrite app_nil_r.
  - by destruct l.
  - destruct l; try done.
    + erewrite Reader.bind_ok by by apply readFloat_bytes. done.
    + erewrite Reader.bind_ok by by apply readDouble_bytes. done.
  - destruct l; done.
  - destruct l; done.
  - destruct l; done.
  - destruct l; done.
  - destruct H as [Hr Hf]. rewrite <- app_assoc.
    erewrite Reader.bind_ok by by apply readLength_exact.
    erewrite Reader.bind_ok by by apply readUtf8String_at.
    rewrite Utf8.decode_encode by done. by rewrite <- app_assoc.
  - rewrite <- app_assoc. erewrite Reader.bind_ok by by apply readLength_exact.
    erewrite Reader.bind_ok by by apply Reader.readByteArray_at.
    by rewrite <- app_assoc.
Qed.
