(* ===== verification/TlvAny.v ===== *)
(** * TLV streams and the [AnySchema] codec

    Models src/packages/types/src/tlv/TlvSchema.ts (the reader and writer
    interfaces with their byte-array and element-array implementations) and
    TlvAny.ts ([class AnySchema]). *)

From S2P Require Import Prelude DataIO Text TlvCodec.

(** [type TlvElement]. *)
Record TlvElement := mkElement {
  tag : option TlvTag;
  typeLength : TlvTypeLength;
  value : option TlvValue;
}.

#[global] Instance TlvElement_eq_dec : EqDecision TlvElement.
Proof. solve_decision. Defined.

Abbreviation TlvStream := (list TlvElement).

(** ** The interfaces [TlvWriter] and [TlvReader] *)

Class TlvWriter (W : Type) := {
  writer_writeTag : W -> TlvTypeLength -> option TlvTag -> result W;
  writer_writePrimitive : W -> TlvTypeLength -> option TlvValue -> result W;
}.

Class TlvReader (R : Type) := {
  reader_readTagType : R -> result ((option TlvTag * TlvTypeLength) * R);
  reader_readPrimitive : TlvTypeLength -> R -> result (option TlvValue * R);
}.

(** What the decoder needs of a reader to terminate: reading an element
    header consumes input, reading a value never restores any. *)
Class TlvReaderProgress (R : Type) `{TlvReader R} := {
  reader_size : R -> nat;
  reader_readTagType_progress r x r' :
    reader_readTagType r = Ok (x, r') -> (reader_size r' < reader_size r)%nat;
  reader_readPrimitive_progress tl r x r' :
    reader_readPrimitive tl r = Ok (x, r') -> (reader_size r' <= reader_size r)%nat;
  reader_readTagType_fuel r : reader_readTagType r <> Throw OutOfFuel;
  reader_readPrimitive_fuel tl r : reader_readPrimitive tl r <> Throw OutOfFuel;
}.

(** [TlvByteArrayWriter]. *)
#[global] Instance TlvByteArrayWriter : TlvWriter Writer.DataWriter := {
  writer_writeTag := writeTag;
  writer_writePrimitive := writePrimitive;
}.

(** [TlvByteArrayReader]. *)
#[global] Instance TlvByteArrayReader : TlvReader Reader.DataReader := {
  reader_readTagType := readTagType;
  reader_readPrimitive tl := fun r => let* (v, r') := readPrimitive tl r in Ok (Some v, r');
}.

(** [TlvArrayWriter]: [writePrimitive] stores into the last pushed element
    (the element must exist). *)
Definition array_set_last (v : option TlvValue) (a : TlvStream) : result TlvStream :=
  match last a with
  | Some e => Ok (take (length a - 1) a ++ [mkElement (tag e) (typeLength e) v])
  | None => Throw TypeError
  end.

Record ArrayWriter := mkArrayWriter { tlvArray : TlvStream }.

#[global] Instance TlvArrayWriter : TlvWriter ArrayWriter := {
  writer_writeTag w tl t := Ok (mkArrayWriter (tlvArray w ++ [mkElement t tl None]));
  writer_writePrimitive w _ v :=
    let* a := array_set_last v (tlvArray w) in Ok (mkArrayWriter a);
}.

(** [TlvArrayReader]: destructuring the [undefined] past the end throws. *)
Record ArrayReader := mkArrayReader { tlvElements : TlvStream; index : Z }.

#[global] Instance TlvArrayReader : TlvReader ArrayReader := {
  reader_readTagType r :=
    let index := index r + 1 in
    match tlvElements r !! Z.to_nat index with
    | Some e => Ok ((tag e, typeLength e), mkArrayReader (tlvElements r) index)
    | None => Throw TypeError
    end;
  reader_readPrimitive _ r :=
    match tlvElements r !! Z.to_nat (index r) with
    | Some e => Ok (value e, r)
    | None => Throw TypeError
    end;
}.

(** ** [AnySchema] *)

(** The element kinds written as a bare tag, and those followed by a value;
    any other type is skipped by the switches of the source. *)
Definition is_bare (tl : TlvTypeLength) : bool :=
  match tl with
  | TNull | TBoolean _ | TArray | TStructure | TList | TEndOfContainer => true
  | _ => false
  end.
Definition is_primitive (tl : TlvTypeLength) : bool :=
  match tl with
  | TUnsignedInt _ | TSignedInt _ | TFloat _ | TUtf8String _ | TByteString _ => true
  | _ => false
  end.
Definition is_container (tl : TlvTypeLength) : bool :=
  match tl with TArray | TStructure | TList => true | _ => false end.

Fixpoint getEncodedByteLength (tlvStream : TlvStream) (byteLength : Z) : result Z :=
  match tlvStream with
  | [] => Ok byteLength
  | e :: rest =>
      let* byteLength :=
        (if is_bare (typeLength e) then
           let* n := getTagByteLength (tag e) in Ok (byteLength + n)
         else if is_primitive (typeLength e) then
           let* n := getTagByteLength (tag e) in
           let* m := getPrimitiveByteLength (typeLength e) (value e) in
           Ok (byteLength + n + m)
         else Ok byteLength) in
      getEncodedByteLength rest byteLength
  end.

Section Any.
Context {W R : Type} `{TlvWriter W} `{TlvReader R}.

Definition encode_element (writer : W) (t : option TlvTag) (e : TlvElement) : result W :=
  if is_bare (typeLength e) then writer_writeTag writer (typeLength e) t
  else if is_primitive (typeLength e) then
    let* writer := writer_writeTag writer (typeLength e) t in
    writer_writePrimitive writer (typeLength e) (value e)
  else Ok writer.

(** The [forEach]: an assigned tag replaces the tag of the first element. *)
Fixpoint encodeTlvInternal (writer : W) (tlvStream : TlvStream) (tagAssigned : option TlvTag)
  : result W :=
  match tlvStream with
  | [] => Ok writer
  | e :: rest =>
      let t := match tagAssigned with Some a => Some a | None => tag e end in
      let* writer := encode_element writer t e in
      encodeTlvInternal writer rest None
  end.

(** [decodeTlvValueRec] and its [while (true)] loop over the members of a
    container. *)
Fixpoint decodeTlvValueRec (fuel : nat) (reader : R) (tl : TlvTypeLength)
    (tlvStream : TlvStream) (t : option TlvTag) : result (TlvStream * R) :=
  match fuel with
  | O => Throw OutOfFuel
  | S fuel =>
      match tl with
      | TNull => Ok (tlvStream ++ [mkElement t tl (Some VNull)], reader)
      | TBoolean _ | TUnsignedInt _ | TSignedInt _ | TFloat _ | TUtf8String _ | TByteString _ =>
          let* (v, reader) := reader_readPrimitive tl reader in
          Ok (tlvStream ++ [mkElement t tl v], reader)
      | TArray | TStructure | TList =>
          decode_members fuel reader (tlvStream ++ [mkElement t tl None])
      | TEndOfContainer => Ok (tlvStream ++ [mkElement t tl None], reader)
      | TOther _ => Ok (tlvStream, reader)
      end
  end
with decode_members (fuel : nat) (reader : R) (tlvStream : TlvStream) : result (TlvStream * R) :=
  match fuel with
  | O => Throw OutOfFuel
  | S fuel =>
      let* ((elementTag, tl), reader) := reader_readTagType reader in
      let* (tlvStream, reader) := decodeTlvValueRec fuel reader tl tlvStream elementTag in
      if decide (tl = TEndOfContainer) then Ok (tlvStream, reader)
      else decode_members fuel reader tlvStream
  end.

Lemma decode_members_S fuel reader tlvStream :
  decode_members (S fuel) reader tlvStream =
  let* ((elementTag, tl), reader) := reader_readTagType reader in
  let* (tlvStream, reader) := decodeTlvValueRec fuel reader tl tlvStream elementTag in
  if decide (tl = TEndOfContainer) then Ok (tlvStream, reader)
  else decode_members fuel reader tlvStream.
Proof. done. Qed.

(** [TlvSchema.decodeTlvInternal]: the outer tag is reported next to the
    value, not inside the stream. *)
Definition decodeTlvInternal (fuel : nat) (reader : R) : result (TlvStream * option TlvTag) :=
  let* ((t, tl), reader) := reader_readTagType reader in
  let* (s, _) := decodeTlvValueRec fuel reader tl [] None in
  Ok (s, t).

(** *** Termination *)

Context `{!TlvReaderProgress R}.

Definition decode_fuel (r : R) : nat := 2 * reader_size r + 2.

(** Outcome of a decoder run that had enough fuel. *)
Definition settled (r : R) (o : result (TlvStream * R)) : Prop :=
  match o with
  | Ok (_, r') => (reader_size r' <= reader_size r)%nat
  | Throw e => e <> OutOfFuel
  end.

Lemma decode_settles fuel :
  (forall r tl s t, (2 * reader_size r + 2 <= fuel)%nat ->
     settled r (decodeTlvValueRec fuel r tl s t)) /\
  (forall r s, (2 * reader_size r + 1 <= fuel)%nat ->
     settled r (decode_members fuel r s)).
Proof.
  induction fuel as [|fuel [IHr IHm]]; [split; intros; lia|]. split.
  - intros r tl s t Hf.
    assert (settled r (let* (v, r') := reader_readPrimitive tl r in
              Ok (s ++ [mkElement t tl v], r'))) as Hprim.
    { destruct (reader_readPrimitive tl r) as [[v r']|e] eqn:E; cbn.
      - by eapply reader_readPrimitive_progress.
      - intros ->. by apply reader_readPrimitive_fuel in E. }
    destruct tl; cbn [decodeTlvValueRec]; try exact Hprim; try (cbn; lia).
    all: apply IHm; lia.
  - intros r s Hf. cbn [decode_members].
    destruct (reader_readTagType r) as [[[et tl] r1]|e] eqn:E; cbn [rbind].
    2: { intros ->. by apply reader_readTagType_fuel in E. }
    apply reader_readTagType_progress in E.
    pose proof (IHr r1 tl s et ltac:(lia)) as H1.
    destruct (decodeTlvValueRec fuel r1 tl s et) as [[s2 r2]|e2]; cbn in *; [|done].
    destruct (decide (tl = TEndOfContainer)); [cbn; lia|].
    pose proof (IHm r2 s2 ltac:(lia)) as H2.
    destruct (decode_members fuel r2 s2) as [[s3 r3]|e3]; cbn in *; [lia|done].
Qed.

Lemma decodeTlvInternal_terminates r :
  decodeTlvInternal (decode_fuel r) r <> Throw OutOfFuel.
Proof.
  unfold decodeTlvInternal, decode_fuel.
  destruct (reader_readTagType r) as [[[t tl] r1]|e] eqn:E; cbn [rbind].
  2: { intros [= ->]. by apply reader_readTagType_fuel in E. }
  apply reader_readTagType_progress in E.
  pose proof (proj1 (decode_settles (2 * reader_size r + 2)) r1 tl [] None ltac:(lia)) as H1.
  destruct (decodeTlvValueRec _ r1 tl [] None) as [[s2 r2]|e2]; cbn in *; congruence.
Qed.

End Any.

(** The byte reader makes progress. *)
Lemma readTag_sound tc : Reader.sound (readTag tc).
Proof.
  unfold readTag, Reader.readUInt8, Reader.readUInt16, Reader.readUInt32.
  repeat match goal with |- context [if ?b then _ else _] => destruct b end;
    eauto 8 with reader.
Qed.

Lemma readPrimitive_sound tl : Reader.sound (readPrimitive tl).
Proof.
  assert (forall l, Reader.sound (readLength l)) as Hl by
    (intros []; apply Reader.sound_readUnsigned).
  assert (Reader.sound readFloat) by apply Reader.sound_map, Reader.sound_readUnsigned.
  assert (Reader.sound readDouble) by apply Reader.sound_map, Reader.sound_readUnsigned.
  assert (forall n, Reader.sound (readUtf8String n)) by
    (intros n; apply Reader.sound_advance_map).
  unfold readPrimitive, Reader.readInt8, Reader.readInt16, Reader.readInt32, Reader.readInt64.
  destruct tl as [[]|l| |[]|l|l| | | | | |]; eauto 8 with reader.
Qed.

Lemma readTagType_progress r x r' :
  readTagType r = Ok (x, r') -> (Reader.size r' < Reader.size r)%nat.
Proof.
  intros H. unfold readTagType in H. apply Reader.bind_inv in H as (c & r1 & E1 & E2).
  apply Reader.readUInt8_size in E1.
  apply Reader.bind_inv in E2 as (t & r2 & E2 & [= _ <-]).
  pose proof (Reader.sound_size _ _ _ _ (readTag_sound _) E2). lia.
Qed.

Lemma readTagType_sound : Reader.sound readTagType.
Proof.
  unfold readTagType. apply Reader.sound_bind; [apply Reader.sound_readUnsigned|].
  intros c. apply Reader.sound_bind; [apply readTag_sound|]. eauto with reader.
Qed.

#[global] Program Instance TlvByteArrayReaderProgress : TlvReaderProgress Reader.DataReader := {
  reader_size := Reader.size;
}.
Next Obligation. intros r x r'. apply readTagType_progress. Qed.
Next Obligation.
  intros tl r x r' H. cbn in H. apply rbind_ok in H as ([v r1] & E & [= _ <-]).
  by eapply Reader.sound_size; [apply readPrimitive_sound|].
Qed.
Next Obligation.
  intros r H. pose proof (readTagType_sound r) as Hs. cbn in H. by rewrite H in Hs.
Qed.
Next Obligation.
  intros tl r H. pose proof (readPrimitive_sound tl r) as Hs. cbn in H.
  destruct (readPrimitive tl r) as [[v r']|e]; cbn in *; congruence.
Qed.

(** [TlvAny.encode] and [TlvAny.decode] on bytes. *)
Definition encodeInternal (tlvStream : TlvStream) : result (list Z) :=
  let* w := encodeTlvInternal (Writer.new true) tlvStream None in
  let* (bs, _) := Writer.toByteArray w in Ok bs.

Definition decodeInternal (encoded : list Z) : result TlvStream :=
  let r := Reader.new encoded true in
  let* (s, _) := decodeTlvInternal (decode_fuel r) r in Ok s.

(** ** Images of streams *)

Definition element_image (t : option TlvTag) (e : TlvElement) : list Z :=
  if is_bare (typeLength e) then tag_image (typeLength e) t
  else if is_primitive (typeLength e) then
    tag_image (typeLength e) t ++
    match value e with Some v => primitive_image (typeLength e) v | None => [] end
  else [].

Fixpoint stream_image (s : TlvStream) : list Z :=
  match s with
  | [] => []
  | e :: s => element_image (tag e) e ++ stream_image s
  end.

Lemma stream_image_app s1 s2 : stream_image (s1 ++ s2) = stream_image s1 ++ stream_image s2.
Proof. induction s1 as [|e s1 IH]; [done|]. cbn. by rewrite IH, app_assoc. Qed.

Lemma encode_element_written (w : Writer.DataWriter) bs t e w' :
  Writer.written w bs -> encode_element w t e = Ok w' ->
  Writer.written w' (bs ++ element_image t e).
Proof.
  intros Hw. unfold encode_element, element_image, writer_writeTag, writer_writePrimitive; cbn.
  destruct (is_bare (typeLength e)); [by apply writeTag_written|].
  destruct (is_primitive (typeLength e)) eqn:Ep.
  - rewrite rbind_ok. intros (w1 & E1 & E2).
    destruct (value e) as [v|]; [|by destruct (typeLength e) as [[]|[]| |[]| | | | | | | |]].
    rewrite app_assoc. eapply writePrimitive_written; [|exact E2].
    by eapply writeTag_written.
  - intros [= <-]. by rewrite app_nil_r.
Qed.

Lemma encode_stream_written (w : Writer.DataWriter) bs s w' :
  Writer.written w bs -> encodeTlvInternal w s None = Ok w' ->
  Writer.written w' (bs ++ stream_image s).
Proof.
  revert w bs. induction s as [|e s IH]; intros w bs Hw.
  { intros [= <-]. cbn. by rewrite app_nil_r. }
  cbn [encodeTlvInternal stream_image]. rewrite rbind_ok. intros (w1 & E1 & E2).
  rewrite app_assoc. eapply IH; [|exact E2]. by eapply encode_element_written.
Qed.

Lemma encodeInternal_image s bs : encodeInternal s = Ok bs -> bs = stream_image s.
Proof.
  unfold encodeInternal. rewrite rbind_ok. intros (w & E & H).
  apply (encode_stream_written _ []) in E as (_ & Hw & Hc); [|apply Writer.written_new].
  destruct (Writer.toByteArray_contents w Hw) as (w' & E & _).
  rewrite E in H. cbn in H. by simplify_eq.
Qed.

(** ** Byte lengths *)

Lemma primitive_length w tl v w' :
  writePrimitive w tl (Some v) = Ok w' ->
  getPrimitiveByteLength tl (Some v) = Ok (byteLength (primitive_image tl v)).
Proof.
  unfold writePrimitive, getPrimitiveByteLength, primitive_image, byteLength.
  destruct tl as [[]|[]| |[]|l|l| | | | | |], v; try done; intros _;
    rewrite ?length_app, ?le_bytes_length; try done; f_equal; destruct l; cbn; lia.
Qed.

Lemma element_length (w : Writer.DataWriter) t e w' acc :
  encode_element w t e = Ok w' ->
  (if is_bare (typeLength e) then
     let* n := getTagByteLength t in Ok (acc + n)
   else if is_primitive (typeLength e) then
     let* n := getTagByteLength t in
     let* m := getPrimitiveByteLength (typeLength e) (value e) in
     Ok (acc + n + m)
   else Ok acc) = Ok (acc + byteLength (element_image t e)).
Proof.
  unfold encode_element, element_image, writer_writeTag, writer_writePrimitive; cbn.
  destruct (is_bare (typeLength e)).
  - intros E. pose proof (getTagByteLength_correct w (typeLength e) t) as H.
    rewrite E in H. by rewrite H.
  - destruct (is_primitive (typeLength e)) eqn:Ep.
    + rewrite rbind_ok. intros (w1 & E1 & E2).
      pose proof (getTagByteLength_correct w (typeLength e) t) as H.
      rewrite E1 in H. rewrite H. cbn [rbind].
      destruct (value e) as [v|]; [|by destruct (typeLength e) as [[]|[]| |[]| | | | | | | |]].
      rewrite (primitive_length _ _ _ _ E2). cbn [rbind]. f_equal.
      unfold byteLength. rewrite length_app. lia.
    + intros _. cbn. f_equal. unfold byteLength. cbn. lia.
Qed.

Lemma stream_length (w : Writer.DataWriter) s w' acc :
  encodeTlvInternal w s None = Ok w' ->
  getEncodedByteLength s acc = Ok (acc + byteLength (stream_image s)).
Proof.
  revert w acc. induction s as [|e s IH]; intros w acc.
  { intros _. cbn. f_equal. unfold byteLength. cbn. lia. }
  cbn [encodeTlvInternal getEncodedByteLength stream_image]. rewrite rbind_ok.
  intros (w1 & E1 & E2). rewrite (element_length _ _ _ _ acc E1). cbn [rbind].
  rewrite (IH _ _ E2). f_equal. unfold byteLength. rewrite length_app. lia.
Qed.

(** ** Well-formed streams *)

Definition element_ok (e : TlvElement) : Prop :=
  tl_ok (typeLength e) = true /\ tag_ok (tag e) = true /\ normalize_tag (tag e) = tag e /\
  match typeLength e with
  | TNull => value e = Some VNull
  | TBoolean b => value e = Some (VBoolean b)
  | TStructure | TArray | TList | TEndOfContainer => value e = None
  | TOther _ => False
  | tl => exists v, value e = Some v /\ primitive_ok tl v
  end.

(** A complete element: a primitive, or a container header followed by
    complete members and the end-of-container marker. *)
Inductive complete : TlvStream -> Prop :=
| complete_primitive e :
    element_ok e -> is_container (typeLength e) = false ->
    typeLength e <> TEndOfContainer -> complete [e]
| complete_container e body end_ :
    element_ok e -> is_container (typeLength e) = true -> complete_members body ->
    element_ok end_ -> typeLength end_ = TEndOfContainer ->
    complete (e :: body ++ [end_])
with complete_members : TlvStream -> Prop :=
| members_nil : complete_members []
| members_cons s body : complete s -> complete_members body -> complete_members (s ++ body).

Scheme complete_ind' := Induction for complete Sort Prop
  with complete_members_ind' := Induction for complete_members Sort Prop.
Combined Scheme complete_mutind from complete_ind', complete_members_ind'.

Definition with_tag (t : option TlvTag) (s : TlvStream) : TlvStream :=
  match s with
  | e :: s => mkElement t (typeLength e) (value e) :: s
  | [] => []
  end.

Lemma element_image_nonempty e : element_ok e -> (1 <= length (element_image (tag e) e))%nat.
Proof.
  intros (Htl & Htag & _ & Hv). unfold element_image.
  assert (1 <= length (tag_image (typeLength e) (tag e)))%nat as Hl.
  { unfold tag_image, tag_ok in *.
    destruct (default (mkTag None None) (tag e)) as [[p|] [i|]]; try done; try (cbn; lia).
    destruct (p =? MATTER_COMMON_PROFILE), (fits16 i); cbn; lia. }
  destruct (is_bare (typeLength e)) eqn:Eb; [done|].
  destruct (is_primitive (typeLength e)) eqn:Ep; [rewrite length_app; lia|].
  by destruct (typeLength e).
Qed.

Lemma complete_size :
  (forall s, complete s -> (length s <= length (stream_image s))%nat /\ (1 <= length s)%nat) /\
  (forall s, complete_members s -> (length s <= length (stream_image s))%nat).
Proof.
  apply complete_mutind; intros; cbn -[stream_image]; try done.
  - split; [|done]. cbn. rewrite length_app. pose proof (element_image_nonempty e e0). lia.
  - cbn [stream_image]. rewrite stream_image_app, !length_app. cbn [stream_image length].
    rewrite app_nil_r. pose proof (element_image_nonempty e e0).
    pose proof (element_image_nonempty end_ e2). lia.
  - rewrite stream_image_app, !length_app. lia.
Qed.

(** ** Round trip *)

Lemma readTagType_element e pre post :
  element_ok e ->
  exists tail,
    element_image (tag e) e = tag_image (typeLength e) (tag e) ++ tail /\
    readTagType (Reader.at_ pre (element_image (tag e) e ++ post)) =
      Ok ((tag e, typeLength e), Reader.at_ (pre ++ tag_image (typeLength e) (tag e)) (tail ++ post)).
Proof.
  intros (Htl & Htag & Hn & Hv). unfold element_image.
  destruct (is_bare (typeLength e)) eqn:Eb.
  - exists []. rewrite app_nil_r. split; [done|].
    rewrite readTagType_image by done. by rewrite Hn.
  - destruct (is_primitive (typeLength e)) eqn:Ep; [|by destruct (typeLength e)].
    eexists. split; [done|]. rewrite <- app_assoc, readTagType_image by done. by rewrite Hn.
Qed.

(** Decoding the value part of a non-container element. *)
Lemma decode_leaf e fuel acc t pre post tail :
  element_ok e -> is_container (typeLength e) = false ->
  element_image (tag e) e = tag_image (typeLength e) (tag e) ++ tail ->
  decodeTlvValueRec (S fuel) (Reader.at_ pre (tail ++ post)) (typeLength e) acc t =
  Ok (acc ++ [mkElement t (typeLength e) (value e)], Reader.at_ (pre ++ tail) post).
Proof.
  intros (Htl & Htag & Hn & Hv) Hc Ht. unfold element_image in Ht.
  assert (is_bare (typeLength e) = true -> tail = []) as Hbare.
  { intros E. rewrite E in Ht. by apply app_self_inv in Ht. }
  assert (is_primitive (typeLength e) = true -> forall v, value e = Some v ->
          primitive_ok (typeLength e) v ->
          decodeTlvValueRec (S fuel) (Reader.at_ pre (tail ++ post)) (typeLength e) acc t =
          Ok (acc ++ [mkElement t (typeLength e) (value e)], Reader.at_ (pre ++ tail) post)) as Hprim.
  { intros Ep v Ev Hok. rewrite Ep, Ev in Ht.
    assert (is_bare (typeLength e) = false) as Eb by (by destruct (typeLength e)).
    rewrite Eb in Ht. apply app_inv_head in Ht as <-.
    pose proof (readPrimitive_image (typeLength e) v pre post Hok) as Hr.
    destruct (typeLength e) as [l|l|b|l|l|l| | | | | |t'] eqn:Etl; try done;
      cbn [decodeTlvValueRec reader_readPrimitive TlvByteArrayReader];
      rewrite Hr; cbn [rbind]; by rewrite Ev. }
  destruct (typeLength e) as [l|l|b|l|l|l| | | | | |t'] eqn:Etl; try done.
  1,2,4,5,6: destruct Hv as (v & Ev & Hok); by apply (Hprim eq_refl v).
  all: rewrite (Hbare eq_refl), app_nil_r; cbn; by rewrite Hv.
Qed.

Lemma decode_complete :
  (forall s, complete s -> forall fuel acc pre post, (2 * length s <= fuel)%nat ->
     exists r1 e rest, s = e :: rest /\
       readTagType (Reader.at_ pre (stream_image s ++ post)) = Ok ((tag e, typeLength e), r1) /\
       typeLength e <> TEndOfContainer /\
       forall t, decodeTlvValueRec fuel r1 (typeLength e) acc t =
         Ok (acc ++ with_tag t s, Reader.at_ (pre ++ stream_image s) post)) /\
  (forall body, complete_members body -> forall fuel acc pre post end_,
     element_ok end_ -> typeLength end_ = TEndOfContainer ->
     (2 * length body + 2 <= fuel)%nat ->
     decode_members fuel (Reader.at_ pre (stream_image (body ++ [end_]) ++ post)) acc =
     Ok (acc ++ body ++ [end_], Reader.at_ (pre ++ stream_image (body ++ [end_])) post)).
Proof.
  apply complete_mutind.
  - intros e Hok Hc Hne fuel acc pre post Hf. destruct fuel as [|fuel]; [cbn in Hf; lia|].
    destruct (readTagType_element e pre post Hok) as (tail & Ht & Hr).
    eexists _, e, []. split; [done|]. cbn [stream_image]. rewrite app_nil_r.
    split; [exact Hr|]. split; [done|]. intros t.
    rewrite decode_leaf by done. rewrite Ht, app_assoc. done.
  - intros e body end_ Hok Hc Hbody IH Hend Hendt fuel acc pre post Hf.
    destruct fuel as [|fuel]; [cbn in Hf; lia|].
    cbn [stream_image]. rewrite <- app_assoc.
    destruct (readTagType_element e pre (stream_image (body ++ [end_]) ++ post) Hok)
      as (tail & Ht & Hr).
    assert (tail = [] /\ value e = None) as [-> Hval].
    { destruct Hok as (_ & _ & _ & Hv). unfold element_image in Ht.
      assert (is_bare (typeLength e) = true) as Eb by (by destruct (typeLength e)).
      rewrite Eb in Ht. apply app_self_inv in Ht. by destruct (typeLength e). }
    eexists _, e, (body ++ [end_]). split; [done|]. split; [exact Hr|].
    split; [by destruct (typeLength e)|]. intros t.
    rewrite app_nil_r in Ht. rewrite app_nil_l.
    assert (decodeTlvValueRec (S fuel)
      (Reader.at_ (pre ++ tag_image (typeLength e) (tag e)) (stream_image (body ++ [end_]) ++ post))
      (typeLength e) acc t =
      decode_members fuel
        (Reader.at_ (pre ++ tag_image (typeLength e) (tag e)) (stream_image (body ++ [end_]) ++ post))
        (acc ++ [mkElement t (typeLength e) None])) as -> by (by destruct (typeLength e)).
    rewrite IH; [|done|done|cbn in Hf; rewrite length_app in Hf; cbn in Hf; lia].
    cbn [with_tag]. rewrite Hval, Ht. f_equal. f_equal.
    + by rewrite <- !app_assoc.
    + by rewrite <- app_assoc.
  - intros fuel acc pre post end_ Hend Hendt Hf.
    destruct fuel as [|[|fuel]]; [cbn in Hf; lia..|].
    cbn [app stream_image]. rewrite app_nil_r.
    destruct (readTagType_element end_ pre post Hend) as (tail & Ht & Hr).
    rewrite decode_members_S. cbn [reader_readTagType TlvByteArrayReader]. rewrite Hr. cbn [rbind].
    rewrite decode_leaf by (done || by rewrite Hendt). cbn [rbind].
    rewrite Hendt. destruct (decide _) as [_|]; [|done].
    rewrite Ht, app_assoc. destruct end_; cbn in *. by subst.
  - intros s body Hs IHs Hbody IHb fuel acc pre post end_ Hend Hendt Hf.
    destruct fuel as [|fuel]; [lia|]. rewrite length_app in Hf.
    assert (1 <= length s)%nat as Hl by apply (proj1 complete_size s Hs).
    rewrite <- app_assoc, (stream_image_app s), <- app_assoc.
    destruct (IHs fuel acc pre (stream_image (body ++ [end_]) ++ post) ltac:(lia))
      as (r1 & e & rest & -> & Hr & Hne & Hdec).
    rewrite decode_members_S. cbn [reader_readTagType TlvByteArrayReader]. rewrite Hr. cbn [rbind].
    rewrite Hdec. cbn [rbind]. destruct (decide _) as [|_]; [done|].
    rewrite IHb by (done || (cbn in Hf; lia)).
    cbn [with_tag]. f_equal. f_equal.
    + destruct e; cbn. by rewrite <- app_assoc.
    + by rewrite <- app_assoc.
Qed.

Lemma writeTag_succeeds w tl t : tag_ok t = true -> exists w', writeTag w tl t = Ok w'.
Proof.
  unfold tag_ok, writeTag. destruct (default (mkTag None None) t) as [[p|] [i|]]; try done; eauto.
  intros _. destruct (p =? MATTER_COMMON_PROFILE), (fits16 i); eauto.
Qed.

Lemma writePrimitive_succeeds w tl v :
  primitive_ok tl v -> exists w', writePrimitive w tl (Some v) = Ok w'.
Proof.
  unfold primitive_ok, writePrimitive.
  destruct tl as [l|l| |l|l|l| | | | | |], v; try done; eauto; destruct l; done || eauto.
Qed.

Lemma encode_element_succeeds (w : Writer.DataWriter) e :
  element_ok e -> exists w', encode_element w (tag e) e = Ok w'.
Proof.
  intros (Htl & Htag & _ & Hv). unfold encode_element, writer_writeTag, writer_writePrimitive; cbn.
  destruct (writeTag_succeeds w (typeLength e) (tag e) Htag) as [w1 E1].
  destruct (is_bare (typeLength e)) eqn:Eb; [eauto|].
  destruct (is_primitive (typeLength e)) eqn:Ep; [|eauto].
  rewrite E1. cbn [rbind].
  assert (exists v, value e = Some v /\ primitive_ok (typeLength e) v) as (v & -> & Hok) by
    (by destruct (typeLength e)).
  by apply writePrimitive_succeeds.
Qed.

Lemma encode_stream_succeeds (w : Writer.DataWriter) s :
  Forall element_ok s -> exists w', encodeTlvInternal w s None = Ok w'.
Proof.
  intros H. revert w. induction H as [|e s He _ IH]; intros w; [by eexists|].
  cbn [encodeTlvInternal]. destruct (encode_element_succeeds w e He) as [w1 ->].
  apply IH.
Qed.

Lemma complete_elements :
  (forall s, complete s -> Forall element_ok s) /\
  (forall s, complete_members s -> Forall element_ok s).
Proof.
  apply complete_mutind.
  - intros e He _ _. by apply Forall_singleton.
  - intros e body end_ He _ _ IH Hend _. constructor; [done|].
    apply Forall_app_2; [done|]. by apply Forall_singleton.
  - constructor.
  - intros s body _ IHs _ IHb. by apply Forall_app_2.
Qed.

Lemma encodeInternal_stream s w :
  encodeTlvInternal (Writer.new true) s None = Ok w -> encodeInternal s = Ok (stream_image s).
Proof.
  intros E. unfold encodeInternal. rewrite E. cbn [rbind].
  apply (encode_stream_written _ []) in E as (_ & Hw & Hc); [|apply Writer.written_new].
  destruct (Writer.toByteArray_contents w Hw) as (w' & -> & _). cbn. by rewrite Hc.
Qed.

(** ** Properties *)

(** C5: encoding a complete element (a primitive, or a container with
    complete members and its end marker) with tags of any form but the
    eight-byte fully qualified one succeeds, and decoding the bytes yields the
    stream back, members and their tags included; the tag of the element
    itself is left out, since [decodeInternal] reads and drops it. *)
Theorem tlv_roundtrip s :
  complete s ->
  exists bs, encodeInternal s = Ok bs /\ decodeInternal bs = Ok (with_tag None s).
Proof.
  intros Hs. exists (stream_image s).
  destruct (encode_stream_succeeds (Writer.new true) s (proj1 complete_elements s Hs)) as [w E].
  split; [by apply (encodeInternal_stream _ w)|]. unfold decodeInternal, decodeTlvInternal.
  rewrite Reader.new_at. set (r := Reader.at_ [] (stream_image s)).
  assert (2 * length s <= decode_fuel r)%nat as Hf.
  { pose proof (proj1 complete_size s Hs) as [Hl _]. unfold decode_fuel, reader_size; cbn.
    unfold Reader.size, r. rewrite Reader.remainingBytesCount_at. unfold byteLength. lia. }
  destruct (proj1 decode_complete s Hs (decode_fuel r) [] [] [] Hf)
    as (r1 & e & rest & -> & Hr & _ & Hdec).
  rewrite app_nil_r in Hr. cbn [reader_readTagType TlvByteArrayReader].
  unfold r. rewrite Hr. cbn [rbind]. fold r. by rewrite Hdec.
Qed.

(** for every stream the encoder accepts, [getEncodedByteLength] is the
    exact number of bytes the encoder produces. *)
Theorem tlv_encoded_length s bs :
  encodeInternal s = Ok bs -> getEncodedByteLength s 0 = Ok (byteLength bs).
Proof.
  intros E. pose proof (encodeInternal_image _ _ E) as ->.
  unfold encodeInternal in E. apply rbind_ok in E as (w & Ew & _).
  by rewrite (stream_length _ _ _ 0 Ew).
Qed.

(** decoding terminates on every byte sequence: with fuel proportional
    to the input length the recursive decoder never runs out, whatever the
    bytes are. *)
Theorem tlv_decode_total bs : decodeInternal bs <> Throw OutOfFuel.
Proof.
  unfold decodeInternal. pose proof (decodeTlvInternal_terminates (Reader.new bs true)) as H.
  destruct (decodeTlvInternal _ _) as [[s t]|e]; cbn; congruence.
Qed.

Definition sample_stream : TlvStream :=
  [mkElement (Some (mkTag None (Some 1))) TStructure None;
   mkElement (Some (mkTag (Some 0) (Some 7))) (TUnsignedInt TwoBytes) (Some (VInt 300));
   mkElement (Some (mkTag None (Some 2))) (TUtf8String OneByte) (Some (VString [104; 105]));
   mkElement None TEndOfContainer None].

Lemma sample_complete : complete sample_stream.
Proof.
  apply (complete_container (mkElement _ TStructure None)
    [mkElement _ (TUnsignedInt TwoBytes) _; mkElement _ (TUtf8String OneByte) _]); try done.
  apply (members_cons [_]); [|apply (members_cons [_] []); [|constructor]]; apply complete_primitive; try done;
    (split; [done|]; split; [done|]; split; [done|]; cbn; eexists; split; [done|]);
    unfold primitive_ok, unsigned_fits; [by split|]. split; [done|by split].
Defined.

Lemma tlv_roundtrip_witness :
  exists bs, encodeInternal sample_stream = Ok bs /\ decodeInternal bs = Ok (with_tag None sample_stream).
Proof. apply tlv_roundtrip, sample_complete. Defined.

Lemma tlv_encoded_length_witness : getEncodedByteLength sample_stream 0 = Ok 13.
Proof.
  apply (tlv_encoded_length _ [0x35; 1; 0x45; 7; 0; 0x2c; 1; 0x2c; 2; 2; 104; 105; 0x18]).
  vm_compute; reflexivity.
Defined.

(** a tag with its own profile and an id of more than 16 bits is written
    (as a fully qualified eight-byte tag, and [getEncodedByteLength] counts
    it), but the decoder does not read this form: it throws
    [NotImplementedError]. *)
Theorem fully_qualified_64_unreadable p i v :
  p <> 0 -> fits16 i = false ->
  exists bs, encodeInternal [mkElement (Some (mkTag (Some p) (Some i))) (TBoolean v) (Some (VBoolean v))] = Ok bs /\
    byteLength bs = 9 /\ decodeInternal bs = Throw NotImplementedError.
Proof.
  intros Hp Hi. set (t := Some (mkTag (Some p) (Some i))).
  set (s := [mkElement t (TBoolean v) (Some (VBoolean v))]). exists (stream_image s).
  assert (Ei : stream_image s =
    le_bytes 1 (encode_control 7 (control_code (TBoolean v))) ++ le_bytes 4 p ++ le_bytes 4 i).
  { unfold s. cbn [stream_image tag]. unfold element_image. cbn [is_bare typeLength is_primitive].
    rewrite app_nil_r. unfold tag_image, t. cbn [default Datatypes.id]. unfold MATTER_COMMON_PROFILE.
    by rewrite (proj2 (Z.eqb_neq p 0) Hp), Hi, ?app_nil_r. }
  split_and!.
  - eapply encodeInternal_stream. unfold s. cbn [encodeTlvInternal encode_element is_bare typeLength tag].
    unfold writer_writeTag; cbn. unfold writeTag, t, MATTER_COMMON_PROFILE. cbn.
    by rewrite (proj2 (Z.eqb_neq p 0) Hp), Hi.
  - rewrite Ei. unfold byteLength. rewrite !length_app, !le_bytes_length. done.
  - unfold decodeInternal, decodeTlvInternal. rewrite Reader.new_at.
    cbn [reader_readTagType TlvByteArrayReader]. rewrite Ei.
    by rewrite readTagType_control by (done || lia).
Qed.

Lemma fully_qualified_64_unreadable_witness :
  exists bs, encodeInternal [mkElement (Some (mkTag (Some 0xfff1) (Some 0x10000))) (TBoolean true)
                               (Some (VBoolean true))] = Ok bs /\
    byteLength bs = 9 /\ decodeInternal bs = Throw NotImplementedError.
Proof. apply (fully_qualified_64_unreadable 0xfff1 0x10000 true); [lia|vm_compute; reflexivity]. Defined.
