(* ===== verification/MessageReception.v ===== *)
(** * Duplicate detection of received messages

    Models src/packages/protocol/src/protocol/MessageReceptionState.ts: the
    32-message window kept as a maximum counter and a 32-bit bitmap, and the
    three subclasses that differ in [calculateDiff] and [initialBitmap]. *)

From stdpp Require Import gmap.
From S2P Require Import Prelude.

Definition MAX_COUNTER_VALUE_32BIT : Z := 0xffffffff.
Definition MAX_COUNTER_INCREASE_2POW31 : Z := 2 ^ 31.
Definition MSG_COUNTER_WINDOW_SIZE : Z := 32.

Record MessageReceptionState := mkState {
  maximumMessageCounter : option Z;
  messageCounterBitmap : Z;
}.

(** The members a subclass overrides. *)
Record Kind := mkKind {
  initialBitmap : Z;
  calculateDiff : MessageReceptionState -> Z -> Z;
}.

(** [MessageReceptionStateEncryptedWithoutRollover]. *)
Definition EncryptedWithoutRollover : Kind := {|
  initialBitmap := 0xffffffff;
  calculateDiff := fun st messageCounter =>
    match maximumMessageCounter st with
    | None => 0
    | Some max => messageCounter - max
    end;
|}.

(** [MessageReceptionStateEncryptedWithRollover]. *)
Definition EncryptedWithRollover : Kind := {|
  initialBitmap := 0xffffffff;
  calculateDiff := fun st messageCounter =>
    match maximumMessageCounter st with
    | None => 0
    | Some max =>
        let diff := messageCounter - max in
        if 0 <? diff then
          if diff <? MAX_COUNTER_INCREASE_2POW31 then diff
          else diff - MAX_COUNTER_VALUE_32BIT - 1
        else if diff <? 0 then
          if - MAX_COUNTER_INCREASE_2POW31 <=? diff then diff
          else diff + MAX_COUNTER_VALUE_32BIT + 1
        else 0
    end;
|}.

(** [MessageReceptionStateUnencryptedWithRollover]. *)
Definition UnencryptedWithRollover : Kind := {|
  initialBitmap := 0;
  calculateDiff := fun st messageCounter =>
    match maximumMessageCounter st with
    | None => 0
    | Some max =>
        let diff := messageCounter - max in
        if 0 <? diff then
          if - diff + MAX_COUNTER_VALUE_32BIT <? MSG_COUNTER_WINDOW_SIZE
          then diff - MAX_COUNTER_VALUE_32BIT - 1
          else diff
        else if diff <? 0 then
          if diff <? - MSG_COUNTER_WINDOW_SIZE then MAX_COUNTER_VALUE_32BIT + 1 + diff
          else diff
        else 0
    end;
|}.

Section Reception.
Variable kind : Kind.

Definition initialize (messageCounter : Z) : MessageReceptionState :=
  mkState (Some messageCounter) (initialBitmap kind).

(** The constructor, with its optional start counter. *)
Definition new (messageCounter : option Z) : MessageReceptionState :=
  match messageCounter with
  | Some c => initialize c
  | None => mkState None (initialBitmap kind)
  end.

Definition calculateMessageCounterBitmap (messageCounterBitmap diff : Z) : Z :=
  let bitmap :=
    if diff <? 0 then
      let bit := js_shl 1 (- diff - 1) in
      js_or messageCounterBitmap bit
    else if 0 <? diff then
      if diff <=? MSG_COUNTER_WINDOW_SIZE then
        let shifted := if diff <? MSG_COUNTER_WINDOW_SIZE
                       then js_ushr (js_shl messageCounterBitmap diff) 0 else 0 in
        js_or shifted (js_shl 1 (diff - 1))
      else 0
    else messageCounterBitmap in
  js_ushr bitmap 0.

Definition updateMessageCounterAndBitmap (st : MessageReceptionState) (messageCounter diff : Z)
  : MessageReceptionState :=
  match maximumMessageCounter st with
  | None => initialize messageCounter
  | Some _ =>
      let bitmap := calculateMessageCounterBitmap (messageCounterBitmap st) diff in
      mkState (if 0 <? diff then Some messageCounter else maximumMessageCounter st) bitmap
  end.

Definition isCounterKnownInBitmap (st : MessageReceptionState) (diff : Z) : bool :=
  let bit := js_shl 1 (- diff - 1) in
  negb (js_and (messageCounterBitmap st) bit =? 0).

Definition updateMessageCounter (st : MessageReceptionState) (messageCounter : Z)
  : result MessageReceptionState :=
  if (messageCounter <? 0) || (MAX_COUNTER_VALUE_32BIT <? messageCounter)
  then Throw InternalError
  else
    match maximumMessageCounter st with
    | None => Ok (updateMessageCounterAndBitmap st messageCounter 0)
    | Some max =>
        if messageCounter =? max then Throw DuplicateMessageError
        else
          let diff := calculateDiff kind st messageCounter in
          if diff <? 0 then
            if diff <? - MSG_COUNTER_WINDOW_SIZE then Throw DuplicateMessageError
            else if isCounterKnownInBitmap st diff then Throw DuplicateMessageError
            else Ok (updateMessageCounterAndBitmap st messageCounter diff)
          else Ok (updateMessageCounterAndBitmap st messageCounter diff)
    end.

(** Receive a sequence of counters; a rejected one leaves the state as it
    is.  The result is the list of accepted counters in order. *)
Fixpoint receive (st : MessageReceptionState) (counters : list Z)
  : list Z * MessageReceptionState :=
  match counters with
  | [] => ([], st)
  | c :: counters =>
      match updateMessageCounter st c with
      | Ok st' => let '(acc, st'') := receive st' counters in (c :: acc, st'')
      | Throw _ => receive st counters
      end
  end.

End Reception.

(** ** Abstract specification

    The window positions of the accepted messages, on an unbounded number
    line: a received counter stands for the position [maximum + diff].  The
    [floor] is the first counter seen when everything below it counts as
    received (encrypted messages), [None] otherwise. *)

Record Window := mkWindow {
  w_max : Z;
  w_seen : gset Z;
  w_floor : option Z;
}.

Definition w_known (w : Window) (p : Z) : bool :=
  bool_decide (p ∈ w_seen w) ||
  match w_floor w with Some f => p <? f | None => false end.

(** A position is new when it is ahead of the maximum, or inside the window
    and not yet known. *)
Definition w_new (w : Window) (p : Z) : bool :=
  (w_max w <? p) ||
  ((w_max w - MSG_COUNTER_WINDOW_SIZE <=? p) && negb (w_known w p)).

Definition w_accept (w : Window) (p : Z) : Window :=
  mkWindow (Z.max (w_max w) p) ({[p]} ∪ w_seen w) (w_floor w).

Definition w_init (kind : Kind) (c : Z) : Window :=
  mkWindow c {[c]} (if initialBitmap kind =? 0 then None else Some c).

(** The simulation relation. *)
Definition represents (st : MessageReceptionState) (w : Window) : Prop :=
  maximumMessageCounter st = Some (w_max w mod 2 ^ 32) /\
  0 <= messageCounterBitmap st < 2 ^ 32 /\
  w_max w ∈ w_seen w /\
  (forall p, p ∈ w_seen w -> p <= w_max w) /\
  (forall f, w_floor w = Some f -> f <= w_max w) /\
  forall d, 1 <= d <= 32 ->
    Z.testbit (messageCounterBitmap st) (d - 1) = w_known w (w_max w - d).

(** What the three subclasses have in common: the difference is the counter
    distance modulo 2^32, zero only for the maximum itself, and the initial
    bitmap is all ones or all zeroes. *)
Definition kind_ok (kind : Kind) : Prop :=
  (initialBitmap kind = 0xffffffff \/ initialBitmap kind = 0) /\
  forall bm max c, 0 <= max < 2 ^ 32 -> 0 <= c < 2 ^ 32 ->
    let d := calculateDiff kind (mkState (Some max) bm) c in
    (max + d) mod 2 ^ 32 = c /\ (d = 0 <-> c = max).

Lemma kinds_ok :
  kind_ok EncryptedWithRollover /\ kind_ok UnencryptedWithRollover.
Proof.
  assert (forall max c k, 0 <= c < 2 ^ 32 ->
            (max + (c - max + k * 2 ^ 32)) mod 2 ^ 32 = c) as E.
  { intros max c k Hc. replace (max + (c - max + k * 2 ^ 32)) with (c + k * 2 ^ 32) by lia.
    by rewrite Z.mod_add, Z.mod_small by lia. }
  unfold kind_ok, MAX_COUNTER_INCREASE_2POW31, MAX_COUNTER_VALUE_32BIT, MSG_COUNTER_WINDOW_SIZE.
  split; (split; [cbn; auto|]); intros bm max c Hm Hc; cbn [calculateDiff maximumMessageCounter
    EncryptedWithRollover UnencryptedWithRollover].
  all: unfold MAX_COUNTER_INCREASE_2POW31, MAX_COUNTER_VALUE_32BIT, MSG_COUNTER_WINDOW_SIZE.
  all: split_ifs; bool_to_prop.
  all: match goal with |- (_ + ?d) mod _ = _ /\ _ =>
    first [replace d with (c - max + 0 * 2 ^ 32) by lia
          | replace d with (c - max + 1 * 2 ^ 32) by lia
          | replace d with (c - max + (-1) * 2 ^ 32) by lia]; rewrite E by lia; lia end.
Qed.

Lemma kind_ok_without : kind_ok EncryptedWithoutRollover.
Proof.
  split; [cbn; auto|]. intros bm max c Hm Hc. cbn.
  replace (max + (c - max)) with c by lia. rewrite Z.mod_small by lia. lia.
Qed.

(** ** The bitmap arithmetic *)

Lemma js_ushr_0 z : js_ushr z 0 = uint32 z.
Proof. unfold js_ushr. by rewrite Z.mod_0_l, Z.shiftr_0_r by lia. Qed.

Lemma bit_testbit n i : 0 <= n < 32 -> 0 <= i < 32 -> Z.testbit (js_shl 1 n) i = (i =? n).
Proof.
  intros Hn Hi. rewrite js_shl_testbit by lia.
  destruct (Z.leb_spec n i), (Z.eqb_spec i n); cbn [andb]; try lia; try done.
  - subst. by rewrite Z.sub_diag.
  - change 1 with (2 ^ 0). rewrite Z.pow2_bits_false by lia. done.
Qed.

Lemma bitmap_range bm diff : 0 <= calculateMessageCounterBitmap bm diff < 2 ^ 32.
Proof. unfold calculateMessageCounterBitmap. rewrite js_ushr_0. apply uint32_range. Qed.

(** The bitmap after accepting a counter at distance [diff], bit by bit. *)
Lemma bitmap_testbit bm diff i :
  - MSG_COUNTER_WINDOW_SIZE <= diff -> diff <> 0 -> 0 <= i < 32 ->
  Z.testbit (calculateMessageCounterBitmap bm diff) i =
  if diff <? 0 then Z.testbit bm i || (i =? - diff - 1)
  else if diff <=? MSG_COUNTER_WINDOW_SIZE
       then ((diff <=? i) && Z.testbit bm (i - diff)) || (i =? diff - 1)
       else false.
Proof.
  unfold MSG_COUNTER_WINDOW_SIZE. intros Hd Hnz Hi.
  unfold calculateMessageCounterBitmap, MSG_COUNTER_WINDOW_SIZE.
  rewrite js_ushr_0, uint32_testbit by lia.
  rewrite (proj2 (Z.ltb_lt i 32)) by lia. cbn [andb].
  destruct (Z.ltb_spec diff 0).
  - by rewrite js_or_testbit, bit_testbit by lia.
  - destruct (Z.ltb_spec 0 diff); [|lia].
    destruct (Z.leb_spec diff 32); [|apply Z.testbit_0_l].
    rewrite js_or_testbit, bit_testbit by lia. f_equal.
    destruct (Z.ltb_spec diff 32).
    + rewrite js_ushr_0, uint32_testbit by lia. rewrite (proj2 (Z.ltb_lt i 32)) by lia.
      cbn [andb]. by rewrite js_shl_testbit by lia.
    + rewrite Z.testbit_0_l. destruct (Z.leb_spec diff i); [lia|done].
Qed.

Lemma known_in_bitmap st diff :
  - MSG_COUNTER_WINDOW_SIZE <= diff < 0 ->
  isCounterKnownInBitmap st diff = Z.testbit (messageCounterBitmap st) (- diff - 1).
Proof.
  unfold MSG_COUNTER_WINDOW_SIZE. intros Hd. unfold isCounterKnownInBitmap.
  set (bm := messageCounterBitmap st). set (n := - diff - 1).
  assert (forall i, 0 <= i < 32 ->
    Z.testbit (js_and bm (js_shl 1 n)) i = Z.testbit bm i && (i =? n)) as Hb.
  { intros i Hi. by rewrite js_and_testbit, bit_testbit by lia. }
  destruct (Z.testbit bm n) eqn:E.
  - apply negb_true_iff, Z.eqb_neq. intros E0.
    specialize (Hb n ltac:(lia)). by rewrite E0, E, Z.eqb_refl, Z.testbit_0_l in Hb.
  - apply negb_false_iff, Z.eqb_eq, int32_zero; [apply js_and_int32|].
    intros i Hi. rewrite Hb by done. destruct (Z.eqb_spec i n) as [->|];
      [by rewrite E|by rewrite andb_false_r].
Qed.

(** ** Simulation *)

Lemma w_known_accept w p q :
  w_known (w_accept w p) q = bool_decide (q = p) || w_known w q.
Proof.
  unfold w_known, w_accept; cbn. rewrite orb_assoc. f_equal.
  rewrite <- bool_decide_or. apply bool_decide_ext. set_solver.
Qed.

Lemma w_known_above w st p :
  represents st w -> w_max w < p -> w_known w p = false.
Proof.
  intros (_ & _ & _ & Hs & Hf & _) Hp. unfold w_known.
  rewrite bool_decide_eq_false_2 by (intros Hin%Hs; lia). cbn.
  destruct (w_floor w) as [f|]; [|done]. specialize (Hf f eq_refl).
  apply Z.ltb_ge. lia.
Qed.

Lemma accept_represents kind st w c diff :
  represents st w -> 0 <= c < 2 ^ 32 ->
  (w_max w + diff) mod 2 ^ 32 = c -> diff <> 0 -> - MSG_COUNTER_WINDOW_SIZE <= diff ->
  represents (updateMessageCounterAndBitmap kind st c diff) (w_accept w (w_max w + diff)).
Proof.
  intros Hrep Hc Hmod Hnz Hwin. pose proof Hrep as (Hmax & Hbm & Hin & Hs & Hf & Hbits).
  unfold updateMessageCounterAndBitmap. rewrite Hmax.
  unfold represents; cbn [maximumMessageCounter messageCounterBitmap w_accept w_max w_seen w_floor].
  repeat split.
  - destruct (Z.ltb_spec 0 diff).
    + rewrite Z.max_r by lia. by rewrite Hmod.
    + by rewrite Z.max_l by lia.
  - apply bitmap_range.
  - apply bitmap_range.
  - apply elem_of_union. destruct (Z.max_spec (w_max w) (w_max w + diff)) as [[_ ->]|[_ ->]];
      [left; by apply elem_of_singleton|by right].
  - intros p [->%elem_of_singleton|Hp%Hs]%elem_of_union; lia.
  - intros f Hff%Hf. lia.
  - intros d Hd. rewrite bitmap_testbit by (done || lia).
    fold (w_accept w (w_max w + diff)). rewrite w_known_accept.
    unfold MSG_COUNTER_WINDOW_SIZE in *.
    destruct (Z.ltb_spec diff 0).
    + rewrite Z.max_l, Hbits, orb_comm by lia. f_equal.
      destruct (Z.eqb_spec (d - 1) (- diff - 1)); symmetry;
        [apply bool_decide_eq_true_2|apply bool_decide_eq_false_2]; lia.
    + rewrite Z.max_r by lia. rewrite bool_decide_eq_false_2 by lia. cbn [orb].
      destruct (Z.leb_spec diff 32).
      * destruct (Z.leb_spec diff (d - 1)); cbn [andb orb].
        -- replace (d - 1 - diff) with (d - diff - 1) by lia. rewrite Hbits by lia.
           destruct (Z.eqb_spec (d - 1) (diff - 1)); [lia|].
           rewrite orb_false_r. f_equal. lia.
        -- destruct (Z.eqb_spec (d - 1) (diff - 1)).
           ++ replace (w_max w + diff - d) with (w_max w) by lia.
              symmetry. unfold w_known. by rewrite bool_decide_eq_true_2.
           ++ symmetry. eapply w_known_above; [done|lia].
      * symmetry. eapply w_known_above; [done|lia].
Qed.

Lemma init_represents kind c :
  (initialBitmap kind = 0xffffffff \/ initialBitmap kind = 0) -> 0 <= c < 2 ^ 32 ->
  represents (initialize kind c) (w_init kind c).
Proof.
  intros Hk Hc. unfold represents, w_init, initialize; cbn.
  rewrite Z.mod_small by lia. repeat split; try (destruct Hk as [-> | ->]; lia).
  - by apply elem_of_singleton.
  - intros p ->%elem_of_singleton. lia.
  - intros f. destruct (_ =? 0); [done|]. intros [= ->]. lia.
  - intros d Hd. unfold w_known; cbn.
    rewrite bool_decide_eq_false_2 by (rewrite elem_of_singleton; lia). cbn.
    destruct Hk as [-> | ->]; cbn.
    + change 0xffffffff with (Z.ones 32). rewrite Z.testbit_ones_nonneg by lia.
      rewrite (proj2 (Z.ltb_lt (d - 1) 32)) by lia. symmetry. apply Z.ltb_lt. lia.
    + apply Z.testbit_0_l.
Qed.

Lemma max_state st w :
  represents st w ->
  st = mkState (Some (w_max w mod 2 ^ 32)) (messageCounterBitmap st).
Proof. intros (H & _). destruct st; cbn in *. by rewrite H. Qed.

Lemma valid_range c :
  (c <? 0) || (MAX_COUNTER_VALUE_32BIT <? c) = false <-> 0 <= c < 2 ^ 32.
Proof. unfold MAX_COUNTER_VALUE_32BIT. bool_to_prop. lia. Qed.

Lemma w_new_fresh st w p : represents st w -> w_new w p = true -> p ∉ w_seen w.
Proof.
  intros (_ & _ & _ & Hs & _) Hn Hin. unfold w_new, w_known in Hn.
  pose proof (Hs p Hin). rewrite bool_decide_eq_true_2 in Hn by done.
  cbn in Hn. rewrite andb_false_r, orb_false_r in Hn. apply Z.ltb_lt in Hn. lia.
Qed.

(** One step of the code against one step of the specification. *)
Lemma update_refines kind st w c :
  kind_ok kind -> represents st w -> 0 <= c < 2 ^ 32 ->
  let p := w_max w + calculateDiff kind st c in
  match updateMessageCounter kind st c with
  | Ok st' => w_new w p = true /\ represents st' (w_accept w p)
  | Throw e => e = DuplicateMessageError /\ w_new w p = false
  end.
Proof.
  intros [_ Hk] Hrep Hc. cbn zeta. pose proof Hrep as (Hmax & Hbm & Hin & Hs & Hf & Hbits).
  pose proof (Z.mod_pos_bound (w_max w) (2 ^ 32) ltac:(lia)) as Hm.
  specialize (Hk (messageCounterBitmap st) _ c Hm Hc) as [Hmod Hzero].
  rewrite <- (max_state st w Hrep) in Hmod, Hzero.
  set (d := calculateDiff kind st c) in *.
  rewrite Zplus_mod_idemp_l in Hmod.
  unfold updateMessageCounter. rewrite (proj2 (valid_range c) Hc), Hmax. fold d.
  assert (Hself : w_new w (w_max w) = false).
  { unfold w_new, w_known. rewrite Z.ltb_irrefl, bool_decide_eq_true_2 by done.
    cbn. by rewrite andb_false_r. }
  destruct (Z.eqb_spec c (w_max w mod 2 ^ 32)) as [E|E].
  { split; [done|]. apply Hzero in E as ->. by rewrite Z.add_0_r. }
  assert (Hd0 : d <> 0) by (intros H0; apply E, Hzero; done).
  unfold MSG_COUNTER_WINDOW_SIZE.
  destruct (Z.ltb_spec d 0).
  - destruct (Z.ltb_spec d (- (32))).
    { split; [done|]. unfold w_new, MSG_COUNTER_WINDOW_SIZE.
      destruct (Z.ltb_spec (w_max w) (w_max w + d)); [lia|].
      destruct (Z.leb_spec (w_max w - 32) (w_max w + d)); [lia|done]. }
    rewrite known_in_bitmap by (unfold MSG_COUNTER_WINDOW_SIZE; lia).
    rewrite Hbits by lia. replace (w_max w - - d) with (w_max w + d) by lia.
    assert (Hnew : w_new w (w_max w + d) = negb (w_known w (w_max w + d))).
    { unfold w_new, MSG_COUNTER_WINDOW_SIZE.
      destruct (Z.ltb_spec (w_max w) (w_max w + d)); [lia|].
      by destruct (Z.leb_spec (w_max w - 32) (w_max w + d)); [|lia]. }
    rewrite Hnew. destruct (w_known w (w_max w + d)); cbn; [done|].
    split; [done|]. apply accept_represents; unfold MSG_COUNTER_WINDOW_SIZE; done || lia.
  - split; [unfold w_new; by rewrite (proj2 (Z.ltb_lt _ _)) by lia|].
    apply accept_represents; unfold MSG_COUNTER_WINDOW_SIZE; done || lia.
Qed.

(** ** Runs without rollover *)

Lemma receive_fresh st w cs :
  represents st w -> 0 <= w_max w < 2 ^ 32 ->
  let acc := (receive EncryptedWithoutRollover st cs).1 in
  NoDup acc /\ forall c, c ∈ acc -> c ∉ w_seen w.
Proof.
  revert st w. induction cs as [|c cs IH]; intros st w Hrep Hm.
  { cbn. split; [constructor|]. by intros c ?%elem_of_nil. }
  cbn [receive].
  destruct (updateMessageCounter EncryptedWithoutRollover st c) as [st'|e] eqn:E; [|by apply IH].
  assert (Hc : 0 <= c < 2 ^ 32).
  { unfold updateMessageCounter in E. apply valid_range.
    destruct ((c <? 0) || (MAX_COUNTER_VALUE_32BIT <? c)); done. }
  pose proof (update_refines _ st w c kind_ok_without Hrep Hc) as H. cbn zeta in H.
  rewrite E in H. destruct H as [Hnew Hrep'].
  assert (calculateDiff EncryptedWithoutRollover st c = c - w_max w) as Hd.
  { cbn. destruct Hrep as (-> & _). by rewrite Z.mod_small by lia. }
  rewrite Hd in *. replace (w_max w + (c - w_max w)) with c in * by lia.
  destruct (IH st' _ Hrep') as [Hnd Hfr]; [cbn; lia|].
  destruct (receive EncryptedWithoutRollover st' cs) as [acc st''] eqn:Er. cbn in *.
  split.
  - constructor; [|done]. intros Hin%Hfr. apply Hin. apply elem_of_union. left.
    by apply elem_of_singleton.
  - intros x [->|Hx%Hfr]%elem_of_cons; [by eapply w_new_fresh|].
    intros Hs. apply Hx, elem_of_union. by right.
Qed.

(** ** Runs with rollover *)

(** The position congruent to [c] that is nearest to the maximum. *)
Definition unwrap (max c : Z) : Z := max + ((c - max + 2 ^ 31) mod 2 ^ 32 - 2 ^ 31).

(** The specification run: accepted positions on the unbounded line. *)
Fixpoint w_receive (w : Window) (counters : list Z) : list Z :=
  match counters with
  | [] => []
  | c :: counters =>
      let p := unwrap (w_max w) c in
      if w_new w p then p :: w_receive (w_accept w p) counters else w_receive w counters
  end.

Lemma rollover_diff st w c :
  represents st w -> 0 <= c < 2 ^ 32 ->
  w_max w + calculateDiff EncryptedWithRollover st c = unwrap (w_max w) c.
Proof.
  intros (Hmax & _) Hc. unfold unwrap. f_equal. cbn. rewrite Hmax.
  pose proof (Z.mod_pos_bound (w_max w) (2 ^ 32) ltac:(lia)) as Hm.
  pose proof (Z.div_mod (w_max w) (2 ^ 32) ltac:(lia)) as Hdm.
  set (m := w_max w mod 2 ^ 32) in *.
  replace (c - w_max w + 2 ^ 31) with (c - m + 2 ^ 31 + (- (w_max w / 2 ^ 32)) * 2 ^ 32) by lia.
  rewrite Z.mod_add by lia.
  unfold MAX_COUNTER_INCREASE_2POW31, MAX_COUNTER_VALUE_32BIT.
  split_ifs; bool_to_prop.
  all: first
    [ rewrite Z.mod_small by lia; lia
    | rewrite <- (Z.mod_add _ 1), Z.mod_small by lia; lia
    | rewrite <- (Z.mod_add _ (-1)), Z.mod_small by lia; lia ].
Qed.

Lemma receive_rollover st w cs :
  represents st w -> Forall (fun c => 0 <= c < 2 ^ 32) cs ->
  (receive EncryptedWithRollover st cs).1 = map (fun p => p mod 2 ^ 32) (w_receive w cs) /\
  NoDup (w_receive w cs) /\ forall p, p ∈ w_receive w cs -> p ∉ w_seen w.
Proof.
  intros Hrep Hcs. revert st w Hrep.
  induction Hcs as [|c cs Hc _ IH]; intros st w Hrep.
  { cbn. split; [done|]. split; [constructor|]. by intros p ?%elem_of_nil. }
  pose proof (update_refines _ st w c (proj1 kinds_ok) Hrep Hc) as H. cbn zeta in H.
  assert (Hpc : unwrap (w_max w) c mod 2 ^ 32 = c).
  { unfold unwrap. rewrite Zplus_mod, Zminus_mod_idemp_l, <- Zplus_mod.
    replace (w_max w + (c - w_max w + 2 ^ 31 - 2 ^ 31)) with c by lia. by apply Z.mod_small. }
  rewrite rollover_diff in H by done. cbn [receive w_receive].
  destruct (updateMessageCounter EncryptedWithRollover st c) as [st'|e].
  - destruct H as [Hnew Hrep']. rewrite Hnew.
    destruct (IH st' _ Hrep') as (E & Hnd & Hfr).
    destruct (receive EncryptedWithRollover st' cs) as [acc st'']. cbn in *.
    split; [by rewrite E, Hpc|]. split.
    + constructor; [|done]. intros Hin%Hfr. apply Hin, elem_of_union. left.
      by apply elem_of_singleton.
    + intros x [->|Hx%Hfr]%elem_of_cons; [by eapply w_new_fresh|].
      intros Hs. apply Hx, elem_of_union. by right.
  - destruct H as [_ ->]. by apply IH.
Qed.

(** ** Properties *)

(** The position of a counter when nothing rolls over: in the same cycle as the
    maximum; and for unencrypted messages: in the window behind the maximum or
    else ahead of it. *)
Definition same_cycle (max c : Z) : Z := max / 2 ^ 32 * 2 ^ 32 + c.
Definition window_or_ahead (max c : Z) : Z :=
  max - MSG_COUNTER_WINDOW_SIZE + (c - max + MSG_COUNTER_WINDOW_SIZE) mod 2 ^ 32.

Lemma without_rollover_diff st w c :
  represents st w -> w_max w + calculateDiff EncryptedWithoutRollover st c = same_cycle (w_max w) c.
Proof.
  intros (Hmax & _). unfold same_cycle. cbn. rewrite Hmax.
  pose proof (Z.div_mod (w_max w) (2 ^ 32) ltac:(lia)). lia.
Qed.

Lemma unencrypted_diff st w c :
  represents st w -> 0 <= c < 2 ^ 32 ->
  w_max w + calculateDiff UnencryptedWithRollover st c = window_or_ahead (w_max w) c.
Proof.
  intros (Hmax & _) Hc. unfold window_or_ahead, MSG_COUNTER_WINDOW_SIZE. cbn. rewrite Hmax.
  pose proof (Z.mod_pos_bound (w_max w) (2 ^ 32) ltac:(lia)) as Hm.
  pose proof (Z.div_mod (w_max w) (2 ^ 32) ltac:(lia)) as Hdm. set (m := w_max w mod 2 ^ 32) in *.
  replace (c - w_max w + 32) with (c - m + 32 + (- (w_max w / 2 ^ 32)) * 2 ^ 32) by lia.
  rewrite Z.mod_add by lia. unfold MSG_COUNTER_WINDOW_SIZE, MAX_COUNTER_VALUE_32BIT.
  split_ifs; bool_to_prop.
  all: first
    [ rewrite Z.mod_small by lia; lia
    | rewrite <- (Z.mod_add _ 1), Z.mod_small by lia; lia
    | rewrite <- (Z.mod_add _ (-1)), Z.mod_small by lia; lia ].
Qed.

(** A call implements one step of the window for the position [p]. *)
Definition window_step (kind : Kind) (st : MessageReceptionState) (w : Window) (c p : Z) : Prop :=
  if w_new w p
  then exists st', updateMessageCounter kind st c = Ok st' /\ represents st' (w_accept w p)
  else updateMessageCounter kind st c = Throw DuplicateMessageError.

Lemma update_window_step kind st w c p :
  kind_ok kind -> represents st w -> 0 <= c < 2 ^ 32 -> w_max w + calculateDiff kind st c = p ->
  window_step kind st w c p.
Proof.
  intros Hk Hrep Hc <-. pose proof (update_refines kind st w c Hk Hrep Hc) as H. cbn zeta in H. unfold window_step.
  destruct (updateMessageCounter kind st c) as [st'|e].
  - destruct H as [-> H]. by exists st'.
  - by destruct H as [-> ->].
Qed.



(** without rollover no counter value is ever accepted twice, whatever
    the order, repetition or range of the received counters: the values that
    [updateMessageCounter] accepts after a session start are pairwise
    distinct, the first accepted one included. *)
Theorem without_rollover_no_replay (cs : list Z) :
  NoDup (receive EncryptedWithoutRollover (new EncryptedWithoutRollover None) cs).1.
Proof.
  induction cs as [|c cs IH]; [constructor|]. cbn [receive].
  destruct (updateMessageCounter _ _ _) as [st'|e] eqn:E; [|done].
  unfold updateMessageCounter in E.
  destruct ((c <? 0) || (MAX_COUNTER_VALUE_32BIT <? c)) eqn:Ev; [done|].
  apply valid_range in Ev. cbn in E. injection E as <-.
  pose proof (receive_fresh _ _ cs
    (init_represents EncryptedWithoutRollover c (or_introl eq_refl) Ev) Ev) as [Hnd Hfr].
  clear IH. unfold initialize in *. cbn in *. destruct (receive _ _ cs) as [acc st'']. cbn in *.
  constructor; [|done]. intros Hin%Hfr. by apply Hin, elem_of_singleton.
Qed.

(** C39: with rollover the accepted counters are the 32-bit images of
    pairwise distinct positions: each received counter is located at the
    position nearest to the current maximum, and no position is accepted
    twice, so a counter value comes back only after the counter has moved on
    by a full 2^32. *)
Theorem rollover_no_replay (c0 : Z) (cs : list Z) :
  0 <= c0 < 2 ^ 32 -> Forall (fun c => 0 <= c < 2 ^ 32) cs ->
  let positions := w_receive (w_init EncryptedWithRollover c0) cs in
  (receive EncryptedWithRollover (new EncryptedWithRollover (Some c0)) cs).1
    = map (fun p => p mod 2 ^ 32) positions /\
  NoDup (c0 :: positions).
Proof.
  intros Hc0 Hcs.
  pose proof (receive_rollover _ _ cs
    (init_represents EncryptedWithRollover c0 (or_introl eq_refl) Hc0) Hcs) as (E & Hnd & Hfr).
  split; [exact E|]. constructor; [|done].
  intros Hin%Hfr. apply Hin. unfold w_init; cbn. by apply elem_of_singleton.
Qed.

Lemma rollover_no_replay_witness :
  (receive EncryptedWithRollover (new EncryptedWithRollover (Some 0xfffffffe))
     [0xffffffff; 1; 0; 1; 0xfffffffe]).1 = [0xffffffff; 1; 0] /\
  w_receive (w_init EncryptedWithRollover 0xfffffffe) [0xffffffff; 1; 0; 1; 0xfffffffe]
    = [0xffffffff; 0x100000001; 0x100000000].
Proof.
  destruct (rollover_no_replay 0xfffffffe [0xffffffff; 1; 0; 1; 0xfffffffe]) as [E _];
    [lia|by repeat constructor|].
  rewrite E. split; vm_compute; reflexivity.
Defined.

(** an unencrypted counter is rejected only when its position was
    accepted before; one that is more than the window behind the maximum is
    taken as ahead of it, so a peer that restarted its counter is heard. *)
Theorem unencrypted_rejects_only_known st w c :
  represents st w -> w_floor w = None -> 0 <= c < 2 ^ 32 ->
  let p := w_max w + calculateDiff UnencryptedWithRollover st c in
  w_max w - MSG_COUNTER_WINDOW_SIZE <= p /\
  (updateMessageCounter UnencryptedWithRollover st c = Throw DuplicateMessageError
     <-> p ∈ w_seen w).
Proof.
  intros Hrep Hfl Hc. cbn zeta. set (d := calculateDiff UnencryptedWithRollover st c).
  assert (Hd : - MSG_COUNTER_WINDOW_SIZE <= d).
  { unfold d. cbn. destruct Hrep as (-> & _).
    pose proof (Z.mod_pos_bound (w_max w) (2 ^ 32) ltac:(lia)).
    unfold MSG_COUNTER_WINDOW_SIZE, MAX_COUNTER_VALUE_32BIT. split_ifs; bool_to_prop; lia. }
  split; [lia|].
  pose proof (update_refines _ st w c (proj2 kinds_ok) Hrep Hc) as H. cbn zeta in H. fold d in H.
  assert (Hk : w_known w (w_max w + d) = bool_decide (w_max w + d ∈ w_seen w)).
  { unfold w_known. rewrite Hfl. by rewrite orb_false_r. }
  split.
  - intros E. rewrite E in H. destruct H as [_ Hn]. unfold w_new in Hn.
    apply orb_false_iff in Hn as [_ Hn]. rewrite (proj2 (Z.leb_le _ _)) in Hn by lia.
    cbn [andb] in Hn. apply negb_false_iff in Hn. rewrite Hk in Hn. by apply bool_decide_eq_true in Hn.
  - intros Hin. destruct (updateMessageCounter _ _ _) as [st'|e].
    + destruct H as [Hn _]. by apply (w_new_fresh st w) in Hn.
    + by destruct H as [-> _].
Qed.

Lemma unencrypted_rejects_only_known_witness :
  let st := initialize UnencryptedWithRollover 1000 in
  updateMessageCounter UnencryptedWithRollover st 1000 = Throw DuplicateMessageError /\
  updateMessageCounter UnencryptedWithRollover st 7 = Ok (mkState (Some 7) 0).
Proof.
  cbn zeta. split; [|vm_compute; reflexivity].
  apply (unencrypted_rejects_only_known _ (w_init UnencryptedWithRollover 1000));
    [apply init_represents; [by right|lia]|reflexivity|lia|cbn; by apply elem_of_singleton].
Defined.
