(* ===== verification/MessageCounter.v ===== *)
(** * Outgoing message counters

    Models src/packages/protocol/src/protocol/MessageCounter.ts: the random
    start, the increment with its rollover rules and its one [await], and the
    persisted counter with the block reservation that survives an unclean
    restart. *)

From Stdlib Require Import Sorted.
From S2P Require Import Prelude.

Definition MAX_COUNTER_VALUE_32BIT : Z := 0xffffffff.
Definition ROLLOVER_INFO_DIFFERENCE : Z := 100000.

(** The [onRollover] callback is code of the caller; the counter only tests
    whether it is present and awaits it. *)
Record MessageCounter := mkCounter {
  messageCounter : Z;
  onRollover : bool;
  rolloverInfoDifference : Z;
}.

Definition set_counter (st : MessageCounter) (c : Z) : MessageCounter :=
  mkCounter c (onRollover st) (rolloverInfoDifference st).

(** The constructor, on the value drawn from [crypto.randomUint32]. *)
Definition construct (randomUint32 : Z) (onRollover : bool) (rolloverInfoDifference : Z)
  : MessageCounter :=
  mkCounter (js_ushr randomUint32 4 + 1) onRollover rolloverInfoDifference.

(** How the synchronous part of [getIncrementedCounter] ends: with a return
    value, with an exception, or at [await this.onRollover()]. *)
Inductive CallOutcome :=
| Returned (counter : Z)
| Failed (e : MatterError)
| Awaiting.

(** The body up to the [await] or the end. *)
Definition startIncrement (st : MessageCounter) : MessageCounter * CallOutcome :=
  let st := set_counter st (messageCounter st + 1) in
  if MAX_COUNTER_VALUE_32BIT <? messageCounter st then
    if onRollover st then
      let st := set_counter st 0 in (st, Returned (messageCounter st))
    else (st, Failed InternalError)
  else if onRollover st &&
          (messageCounter st =? MAX_COUNTER_VALUE_32BIT - rolloverInfoDifference st)
       then (st, Awaiting)
       else (st, Returned (messageCounter st)).

(** The rest of the body, once the callback has settled. *)
Definition resumeIncrement (st : MessageCounter) : Z := messageCounter st.

(** A call during which no other call runs. *)
Definition getIncrementedCounter (st : MessageCounter) : MessageCounter * result Z :=
  let '(st, outcome) := startIncrement st in
  (st, match outcome with
       | Returned c => Ok c
       | Failed e => Throw e
       | Awaiting => Ok (resumeIncrement st)
       end).

(** [n] calls, one after the other. *)
Fixpoint calls (st : MessageCounter) (n : nat) : list (result Z) :=
  match n with
  | O => []
  | S n => let '(st, r) := getIncrementedCounter st in r :: calls st n
  end.

(** ** Overlapping calls

    The JavaScript runtime may run other calls while one is suspended.  The
    state is the shared counter, the number of suspended calls and the values
    returned so far. *)
Record Interleaving := mkInterleaving {
  shared : MessageCounter;
  suspended : nat;
  returned : list Z;
}.

Inductive step : Interleaving -> Interleaving -> Prop :=
| step_return st st' c susp out :
    startIncrement st = (st', Returned c) ->
    step (mkInterleaving st susp out) (mkInterleaving st' susp (out ++ [c]))
| step_fail st st' e susp out :
    startIncrement st = (st', Failed e) ->
    step (mkInterleaving st susp out) (mkInterleaving st' susp out)
| step_suspend st st' susp out :
    startIncrement st = (st', Awaiting) ->
    step (mkInterleaving st susp out) (mkInterleaving st' (S susp) out)
| step_resume st susp out :
    step (mkInterleaving st (S susp) out)
         (mkInterleaving st susp (out ++ [resumeIncrement st])).

Inductive steps : Interleaving -> Interleaving -> Prop :=
| steps_refl s : steps s s
| steps_trans s s' s'' : steps s s' -> step s' s'' -> steps s s''.

(** ** The persisted counter *)

Record Options := mkOptions {
  aboutToRolloverCallback : bool;
  infoDifference : option Z;
  reserve : option Z;
  seed : option Z;
}.

(** [#reserved] is [None] for [Infinity]; [store] is the value under the
    counter's storage key. *)
Record Persisted := mkPersisted {
  base : MessageCounter;
  p_reserve : option Z;
  p_reserved : option Z;
  store : option Z;
}.

(** [#reserveAhead]: [#reserved] is set at once, the storage write is awaited. *)
Definition setReserved (p : Persisted) (reserve : Z) : Persisted :=
  mkPersisted (base p) (p_reserve p)
    (Some (Z.min (messageCounter (base p) + reserve) MAX_COUNTER_VALUE_32BIT)) (store p).

(** [storageContext.set] has completed. *)
Definition stored (p : Persisted) (value : Z) : Persisted :=
  mkPersisted (base p) (p_reserve p) (p_reserved p) (Some value).

Definition reserveAhead (p : Persisted) (reserve : Z) : Persisted :=
  let p := setReserved p reserve in
  match p_reserved p with Some reserved => stored p reserved | None => p end.

(** The constructor with its asynchronous construction; the Boolean says
    whether the rollover callback was awaited. *)
Definition persisted_construct (randomUint32 : Z) (options : Options) (store : option Z)
  : result (Persisted * bool) :=
  let* _ := throw_if (match reserve options with Some r => r <=? 0 | None => false end)
                     InternalError in
  let base := construct randomUint32 (aboutToRolloverCallback options)
                (default ROLLOVER_INFO_DIFFERENCE (infoDifference options)) in
  let* (base, notified) :=
    match store with
    | Some stored =>
        if (stored <? 0) || (MAX_COUNTER_VALUE_32BIT <? stored) then Throw InternalError
        else
          let base := set_counter base stored in
          Ok (base, onRollover base &&
                    (MAX_COUNTER_VALUE_32BIT - rolloverInfoDifference base <=? messageCounter base))
    | None =>
        match seed options with
        | Some seed =>
            if (seed <? 0) || (MAX_COUNTER_VALUE_32BIT <? seed) then Throw InternalError
            else Ok (set_counter base seed, false)
        | None => Ok (base, false)
        end
    end in
  let p := mkPersisted base (reserve options) None store in
  Ok (match reserve options with Some r => reserveAhead p r | None => p end, notified).

(** A call up to its storage write, if it makes one: the counter, and the value
    that is being written. *)
Definition untilStore (p : Persisted) : Persisted * result (Z * option Z) :=
  let '(b, r) := getIncrementedCounter (base p) in
  let p := mkPersisted b (p_reserve p) (p_reserved p) (store p) in
  match r with
  | Throw e => (p, Throw e)
  | Ok counter =>
      match p_reserve p, p_reserved p with
      | None, _ => (p, Ok (counter, Some counter))
      | Some r, Some reserved =>
          if (reserved <=? counter) || (counter <? reserved - r)
          then let p := setReserved p r in (p, Ok (counter, p_reserved p))
          else (p, Ok (counter, None))
      | Some _, None => (p, Ok (counter, None))
      end
  end.

(** The storage write of a call has completed. *)
Definition afterStore (p : Persisted) (written : option Z) : Persisted :=
  match written with Some value => stored p value | None => p end.

(** A call during which no other call runs. *)
Definition persisted_getIncrementedCounter (p : Persisted) : Persisted * result Z :=
  let '(p, r) := untilStore p in
  match r with
  | Throw e => (p, Throw e)
  | Ok (counter, written) => (afterStore p written, Ok counter)
  end.

(** ** A history of a process with unclean restarts

    [Issue] is a completed call; [Crash] a call in which the process dies, before
    or after its storage write; [Restart] a process that dies between two calls.
    The new process finds only the store (it draws a fresh random number).  The
    calls are awaited one after the other. *)
Inductive Event :=
| Issue
| Crash (written : bool) (randomUint32 : Z)
| Restart (randomUint32 : Z).

Section History.
Variable options : Options.

(** The issued values, in order; any exception ends the history. *)
Fixpoint history (p : Persisted) (events : list Event) : result (list Z * Persisted) :=
  match events with
  | [] => Ok ([], p)
  | Issue :: events =>
      let '(p, r) := persisted_getIncrementedCounter p in
      let* c := r in
      let* (out, p) := history p events in
      Ok (c :: out, p)
  | Crash written rnd :: events =>
      let '(p, r) := untilStore p in
      let* (_, value) := r in
      let* (p, _) := persisted_construct rnd options (store (if written then afterStore p value else p)) in
      history p events
  | Restart rnd :: events =>
      let* (p, _) := persisted_construct rnd options (store p) in history p events
  end.

End History.

(** ** Increments *)

Lemma start_counter st :
  0 <= messageCounter st < 2 ^ 32 -> onRollover st = true ->
  (startIncrement st).1 = set_counter st ((messageCounter st + 1) mod 2 ^ 32) /\
  ((startIncrement st).2 = Returned ((messageCounter st + 1) mod 2 ^ 32) \/
   ((startIncrement st).2 = Awaiting /\
    (messageCounter st + 1) mod 2 ^ 32 = MAX_COUNTER_VALUE_32BIT - rolloverInfoDifference st)).
Proof.
  intros Hc Hon. unfold startIncrement, MAX_COUNTER_VALUE_32BIT. cbn. rewrite Hon.
  destruct (Z.ltb_spec 4294967295 (messageCounter st + 1)).
  - replace (messageCounter st + 1) with (2 ^ 32) by lia. rewrite Z.mod_same by lia. auto.
  - rewrite Z.mod_small by lia. destruct (Z.eqb_spec (messageCounter st + 1)
      (4294967295 - rolloverInfoDifference st)); cbn; auto.
Qed.

Lemma get_rollover st :
  0 <= messageCounter st < 2 ^ 32 -> onRollover st = true ->
  getIncrementedCounter st =
    (set_counter st ((messageCounter st + 1) mod 2 ^ 32),
     Ok ((messageCounter st + 1) mod 2 ^ 32)).
Proof.
  intros Hc Hon. destruct (start_counter st Hc Hon) as [E1 E2].
  unfold getIncrementedCounter. destruct (startIncrement st) as [st' o]. cbn in *. subst st'.
  destruct E2 as [-> |[-> _]]; done.
Qed.

Lemma get_no_rollover st :
  onRollover st = false ->
  getIncrementedCounter st =
    (set_counter st (messageCounter st + 1),
     if messageCounter st + 1 <=? MAX_COUNTER_VALUE_32BIT
     then Ok (messageCounter st + 1) else Throw InternalError).
Proof.
  intros Hon. unfold getIncrementedCounter, startIncrement. cbn. rewrite Hon. cbn.
  destruct (Z.ltb_spec MAX_COUNTER_VALUE_32BIT (messageCounter st + 1)),
    (Z.leb_spec (messageCounter st + 1) MAX_COUNTER_VALUE_32BIT); done || lia.
Qed.

Lemma mod_succ a : (a mod 2 ^ 32 + 1) mod 2 ^ 32 = (a + 1) mod 2 ^ 32.
Proof. by rewrite Zplus_mod_idemp_l. Qed.

(** consecutive calls of [getIncrementedCounter] hand out consecutive
    counters.  With a rollover callback they continue modulo 2^32; without
    one they stop at 0xffffffff, and every later call fails with
    [InternalError]. *)
Theorem counter_sequence st n i :
  0 <= messageCounter st < 2 ^ 32 -> (i < n)%nat ->
  let c := messageCounter st + 1 + Z.of_nat i in
  calls st n !! i = Some
    (if onRollover st then Ok (c mod 2 ^ 32)
     else if c <=? MAX_COUNTER_VALUE_32BIT then Ok c else Throw InternalError).
Proof.
  intros Hc Hi. destruct (onRollover st) eqn:Hon; cbn zeta.
  - revert st i Hc Hi Hon. induction n as [|n IH]; intros st i Hc Hi Hon; [lia|].
    cbn [calls]. rewrite get_rollover by done.
    destruct i as [|i]; cbn; [do 3 f_equal; lia|].
    rewrite IH; cbn; [|apply Z.mod_pos_bound; lia|lia|done].
    do 2 f_equal. rewrite <- Z.add_assoc, Zplus_mod_idemp_l. f_equal. lia.
  - assert (H0 : 0 <= messageCounter st) by lia. clear Hc.
    revert st i H0 Hi Hon. induction n as [|n IH]; intros st i Hc Hi Hon; [lia|].
    cbn [calls]. rewrite get_no_rollover by done.
    destruct i as [|i]; cbn [lookup list_lookup]; [by rewrite Z.add_0_r|].
    rewrite IH; cbn; [|lia|lia|done].
    replace (messageCounter st + 1 + 1 + Z.of_nat i) with
      (messageCounter st + 1 + Z.of_nat (S i)) by lia. done.
Qed.

Lemma counter_sequence_witness :
  calls (mkCounter 0xfffffffe true 0) 3 !! 1%nat = Some (Ok 0) /\
  calls (mkCounter 0xfffffffe false 0) 3 !! 1%nat = Some (Throw InternalError).
Proof.
  split.
  - rewrite (counter_sequence (mkCounter 0xfffffffe true 0) 3 1); [reflexivity|cbn; lia|lia].
  - rewrite (counter_sequence (mkCounter 0xfffffffe false 0) 3 1); [reflexivity|cbn; lia|lia].
Defined.

(** A fresh counter starts between 1 and 2^28. *)
Lemma construct_range rnd on diff :
  1 <= messageCounter (construct rnd on diff) <= 2 ^ 28.
Proof.
  cbn. unfold js_ushr. change (4 mod 32) with 4. rewrite Z.shiftr_div_pow2 by lia.
  pose proof (uint32_range rnd). pose proof (Z.div_pos (uint32 rnd) (2 ^ 4)).
  pose proof (Z.div_lt_upper_bound (uint32 rnd) (2 ^ 4) (2 ^ 28)). lia.
Qed.

(** two overlapping calls can obtain the same counter: the first one
    suspends at the rollover mark, the second one increments and returns, and
    the first one then returns the shared counter the second one left. *)
Theorem overlapping_calls_duplicate :
  exists s, steps (mkInterleaving (mkCounter (0xffffffff - 100001) true 100000) 0 []) s /\
    suspended s = 0%nat /\ returned s = [0xffffffff - 99999; 0xffffffff - 99999].
Proof.
  exists (mkInterleaving (mkCounter (0xffffffff - 99999) true 100000) 0
            [0xffffffff - 99999; 0xffffffff - 99999]).
  split; [|done].
  eapply steps_trans; [eapply steps_trans; [eapply steps_trans; [apply steps_refl|]|]|].
  - by eapply step_suspend.
  - by eapply step_return.
  - by apply (step_resume (mkCounter (0xffffffff - 99999) true 100000) 0 [0xffffffff - 99999]).
Qed.

(** ** The reserved block *)

Section Reserved.
Context (options : Options) (R : Z).
Hypothesis Hcallback : aboutToRolloverCallback options = true.
Hypothesis Hreserve : reserve options = Some R.
Hypothesis HR : 0 < R < MAX_COUNTER_VALUE_32BIT.

(** The counter is at position [P] of the unbounded line and the store at
    [S], at most a block ahead and in the same 2^32 epoch. *)
Definition at_position (p : Persisted) (P S : Z) : Prop :=
  messageCounter (base p) = P mod 2 ^ 32 /\ onRollover (base p) = true /\
  p_reserve p = Some R /\ p_reserved p = Some (S mod 2 ^ 32) /\ store p = Some (S mod 2 ^ 32) /\
  P <= S <= P + R /\ S / 2 ^ 32 = P / 2 ^ 32.

Lemma reserve_position p P :
  messageCounter (base p) = P mod 2 ^ 32 -> onRollover (base p) = true ->
  p_reserve p = Some R ->
  at_position (reserveAhead p R) P (P + Z.min R (MAX_COUNTER_VALUE_32BIT - P mod 2 ^ 32)).
Proof using HR.
  intros Hc Hon Hr. unfold MAX_COUNTER_VALUE_32BIT in *.
  pose proof (Z.mod_pos_bound P (2 ^ 32) ltac:(lia)) as Hb.
  pose proof (Z.div_mod P (2 ^ 32) ltac:(lia)) as Hdm.
  set (m := P mod 2 ^ 32) in *. set (k := Z.min R (4294967295 - m)).
  assert (E : (P + k) mod 2 ^ 32 = m + k).
  { symmetry. apply (Z.mod_unique _ _ (P / 2 ^ 32)); lia. }
  unfold at_position, reserveAhead, setReserved, MAX_COUNTER_VALUE_32BIT; cbn. rewrite Hc. fold m.
  replace (Z.min (m + R) 4294967295) with (m + k) by lia.
  split_and!; rewrite ?E; try done; try lia.
  symmetry. apply (Z.div_unique _ _ _ (m + k)); lia.
Qed.

(** One call moves the position by one and keeps the store ahead of it; until its
    storage write the store is the old one. *)
Lemma issue_position p P S :
  at_position p P S ->
  exists p' v S', untilStore p = (p', Ok ((P + 1) mod 2 ^ 32, v)) /\ store p' = store p /\
    at_position (afterStore p' v) (P + 1) S'.
Proof using HR.
  intros (Hc & Hon & Hr & Hrd & Hst & HS & Hep).
  unfold untilStore.
  rewrite get_rollover by (rewrite ?Hc; first [apply Z.mod_pos_bound; lia|done]).
  rewrite Hc, mod_succ. cbn. rewrite Hr, Hrd.
  destruct ((_ <=? _) || _) eqn:E.
  { do 3 eexists. split; [done|]. split; [done|].
    apply (reserve_position (mkPersisted (set_counter (base p) ((P + 1) mod 2 ^ 32)) (Some R) (Some (S mod 2 ^ 32)) (store p))); done. }
  exists (mkPersisted (set_counter (base p) ((P + 1) mod 2 ^ 32)) (Some R)
            (Some (S mod 2 ^ 32)) (store p)), None, S.
  split; [done|]. split; [done|]. unfold at_position; cbn. split_and!; try done.
  all: apply orb_false_iff in E as [E1 E2]; apply Z.leb_gt in E1; apply Z.ltb_ge in E2.
  all: unfold MAX_COUNTER_VALUE_32BIT in *.
  all: pose proof (Z.div_mod S (2 ^ 32) ltac:(lia)); pose proof (Z.div_mod P (2 ^ 32) ltac:(lia)).
  all: pose proof (Z.mod_pos_bound P (2 ^ 32) ltac:(lia)).
  all: pose proof (Z.mod_pos_bound S (2 ^ 32) ltac:(lia)).
  all: destruct (decide (P mod 2 ^ 32 = 2 ^ 32 - 1)) as [Ew|Ew];
    [assert (Em : (P + 1) mod 2 ^ 32 = 0) by
       (symmetry; apply (Z.mod_unique _ _ (P / 2 ^ 32 + 1)); lia); lia
    |assert (Em : (P + 1) mod 2 ^ 32 = P mod 2 ^ 32 + 1) by
       (symmetry; apply (Z.mod_unique _ _ (P / 2 ^ 32)); lia)].
  - lia.
  - lia.
  - rewrite Hep. apply (Z.div_unique _ _ _ (P mod 2 ^ 32 + 1)); lia.
Qed.

(** A restart resumes at the stored position. *)
Lemma restart_position S rnd :
  exists p' nb S', persisted_construct rnd options (Some (S mod 2 ^ 32)) = Ok (p', nb) /\
    at_position p' S S'.
Proof using Hcallback Hreserve HR.
  unfold persisted_construct. rewrite Hreserve.
  rewrite (proj2 (Z.leb_gt R 0)) by lia. cbn.
  pose proof (Z.mod_pos_bound S (2 ^ 32) ltac:(lia)) as Hb.
  rewrite (proj2 (Z.ltb_ge _ 0)) by lia.
  rewrite (proj2 (Z.ltb_ge MAX_COUNTER_VALUE_32BIT _))
    by (unfold MAX_COUNTER_VALUE_32BIT; lia).
  cbn. do 3 eexists. split; [done|]. by apply reserve_position.
Qed.

(** The state after construction is at the position it starts from. *)
Lemma construct_position rnd store0 p nb :
  persisted_construct rnd options store0 = Ok (p, nb) ->
  exists S, at_position p (messageCounter (base p)) S.
Proof using Hcallback Hreserve HR.
  intros Hc. assert (exists b, p = reserveAhead (mkPersisted b (Some R) None store0) R /\
    0 <= messageCounter b < 2 ^ 32 /\ onRollover b = true) as (b & -> & Hb & Hon).
  { unfold persisted_construct in Hc. rewrite Hreserve in Hc.
    rewrite (proj2 (Z.leb_gt R 0)) in Hc by lia. cbn -[reserveAhead] in Hc.
    pose proof (construct_range rnd true 0) as Hcr. cbn in Hcr.
    unfold MAX_COUNTER_VALUE_32BIT in *.
    destruct store0 as [s|]; [destruct ((s <? 0) || _) eqn:Ev; [done|]
      |destruct (seed options) as [s|]; [destruct ((s <? 0) || _) eqn:Ev; [done|]|]];
      cbn -[reserveAhead] in Hc; injection Hc as <- <-; eexists; (split; [reflexivity|]); cbn;
      (split; [try (apply orb_false_iff in Ev as [E1%Z.ltb_ge E2%Z.ltb_ge]); lia|done]). }
  eexists. apply reserve_position; cbn; rewrite ?Z.mod_small; done.
Qed.

Definition cost (e : Event) : Z := match e with Issue => 1 | Crash _ _ => R + 1 | Restart _ => R end.

Lemma cost_nonneg events : 0 <= foldr Z.add 0 (map cost events).
Proof using HR.
  induction events as [|[| |r] events IH]; cbn; lia.
Qed.

(** The positions issued after [P], within the given distance. *)
Definition issues (P bound : Z) (pos : list Z) : Prop :=
  StronglySorted Z.lt (P :: pos) /\ Forall (fun q => q <= P + bound) pos.

Lemma issues_from P P' b b' pos : issues P' b' pos -> P <= P' -> P' + b' <= P + b -> issues P b pos.
Proof using.
  intros [[Hs Hall]%StronglySorted_inv Hle] H1 H2. split; [constructor; [done|]|].
  - eapply Forall_impl; [exact Hall|intros; cbn in *; lia].
  - eapply Forall_impl; [exact Hle|intros; cbn in *; lia].
Qed.

Lemma history_positions p P S events :
  at_position p P S ->
  exists pos p', history options p events = Ok (map (fun q => q mod 2 ^ 32) pos, p') /\
    issues P (foldr Z.add 0 (map cost events)) pos.
Proof using Hcallback Hreserve HR.
  revert p P S. induction events as [|e events IH]; intros p P S Hat.
  { exists [], p. cbn. split; [done|]. split; repeat constructor. }
  pose proof (cost_nonneg events) as Hcost.
  destruct e as [|written rnd|rnd]; cbn [history map foldr cost].
  - destruct (issue_position _ _ _ Hat) as (p1 & v & S1 & E & _ & Hat1).
    destruct (IH _ _ _ Hat1) as (pos & p' & Eh & Hi).
    exists ((P + 1) :: pos), p'. unfold persisted_getIncrementedCounter. rewrite E. cbn. rewrite Eh. cbn.
    split; [done|]. pose proof (issues_from P (P + 1) (1 + foldr Z.add 0 (map cost events)) _ pos Hi ltac:(lia) ltac:(lia)) as [Hs Hle].
    apply StronglySorted_inv in Hs as [_ Hall]. destruct Hi as [Hs _].
    split; [|constructor; [lia|done]]. constructor; [done|]. constructor; [lia|done].
  - destruct (issue_position _ _ _ Hat) as (p1 & v & S1 & E & Est & Hat1). rewrite E. cbn [rbind].
    assert (exists S2, store (if written then afterStore p1 v else p1) = Some (S2 mod 2 ^ 32) /\ P <= S2 <= P + R + 1) as (S2 & -> & HS2).
    { destruct written.
      - destruct Hat1 as (_ & _ & _ & _ & Hst & HS & _). exists S1. split; [done|lia].
      - destruct Hat as (_ & _ & _ & _ & Hst & HS & _). exists S. rewrite Est. split; [done|lia]. }
    destruct (restart_position S2 rnd) as (p2 & nb & S3 & E2 & Hat2). rewrite E2. cbn [rbind].
    destruct (IH _ _ _ Hat2) as (pos & p' & Eh & Hi). exists pos, p'. split; [done|]. eapply issues_from; [done|lia|lia].
  - pose proof Hat as (_ & _ & _ & _ & Hst & HS & _). rewrite Hst.
    destruct (restart_position S rnd) as (p1 & nb & S1 & E & Hat1). rewrite E. cbn [rbind].
    destruct (IH _ _ _ Hat1) as (pos & p' & Eh & Hi). exists pos, p'. split; [done|]. eapply issues_from; [done|lia|lia].
Qed.

End Reserved.

(** C40: a persisted counter with a reserved block, a rollover callback and calls
    that are awaited one after the other never goes back, whatever the mix of
    completed calls, calls in which the process dies before or after the storage
    write, and unclean restarts: the history never fails, the issued values are
    the 32-bit images of strictly increasing positions (0 follows 0xffffffff),
    and at most [reserve] positions are skipped per restart. *)
Theorem reserved_counter_never_rolls_back options R rnd store0 p notified events :
  aboutToRolloverCallback options = true -> reserve options = Some R ->
  0 < R < MAX_COUNTER_VALUE_32BIT ->
  persisted_construct rnd options store0 = Ok (p, notified) ->
  let start := messageCounter (base p) in
  exists positions p', history options p events = Ok (map (fun q => q mod 2 ^ 32) positions, p') /\
    StronglySorted Z.lt (start :: positions) /\
    Forall (fun q => q <= start + foldr Z.add 0 (map (cost R) events)) positions.
Proof.
  intros Hcb Hres HR Hc. cbn zeta.
  destruct (construct_position options R Hcb Hres HR _ _ _ _ Hc) as [S HS].
  by eapply history_positions.
Qed.

Lemma reserved_counter_never_rolls_back_witness :
  let options := mkOptions true None (Some 10) (Some 0xfffffff0) in
  exists p nb positions p',
    persisted_construct 5 options None = Ok (p, nb) /\
    history options p [Issue; Issue; Restart 7; Issue; Crash false 3; Crash true 8; Issue] =
      Ok (map (fun q => q mod 2 ^ 32) positions, p') /\
    StronglySorted Z.lt (messageCounter (base p) :: positions).
Proof.
  cbn zeta.
  destruct (reserved_counter_never_rolls_back (mkOptions true None (Some 10) (Some 0xfffffff0))
    10 5 None _ _ [Issue; Issue; Restart 7; Issue; Crash false 3; Crash true 8; Issue]
    eq_refl eq_refl ltac:(unfold MAX_COUNTER_VALUE_32BIT; lia) eq_refl)
    as (positions & p' & E & Hs & _).
  do 4 eexists. split; [reflexivity|]. split; [exact E|exact Hs].
Defined.

(** Overlapping calls: the first one reaches the mark and starts to store the next
    one; the second one already sees it, returns at once, and when the process
    dies before the write has completed, its value is handed out again. *)
Example overlapping_reserve_reissues :
  let options := mkOptions true None (Some 10) (Some 0) in
  exists p nb p1 p2 p3 nb' p4,
    persisted_construct 5 options (Some 90) = Ok (p, nb) /\
    let at_mark := mkPersisted (set_counter (base p) 99) (p_reserve p) (p_reserved p) (store p) in
    untilStore at_mark = (p1, Ok (100, Some 110)) /\
    untilStore p1 = (p2, Ok (101, None)) /\
    persisted_construct 7 options (store p2) = Ok (p3, nb') /\
    persisted_getIncrementedCounter p3 = (p4, Ok 101).
Proof. cbv zeta. do 7 eexists. split_and!; reflexivity. Qed.
