(* ===== verification/MessageCodec.v ===== *)
(** * The message frame codec

    Models src/packages/protocol/src/codec/MessageCodec.ts: the packet header
    with its privacy-enhanced variant, the payload header, and the encoders. *)

From S2P Require Import Prelude DataIO CodecLib.

(** ** Data *)

Inductive SessionType := Unicast | Group.
Definition session_code (t : SessionType) : Z := match t with Group => 1 | Unicast => 0 end.

#[global] Instance SessionType_eq_dec : EqDecision SessionType.
Proof. solve_decision. Defined.

Record PacketHeader := mkHeader {
  sessionId : Z;
  sessionType : SessionType;
  hasPrivacyEnhancements : bool;
  isControlMessage : bool;
  hasMessageExtensions : bool;
  messageId : Z;
  sourceNodeId : option Z;
  destNodeId : option Z;
  destGroupId : option Z;
}.

Record DecodedPacketHeader := mkDecodedHeader {
  packet_header : PacketHeader;
  securityFlags : Z;
}.

Record PayloadHeader := mkPayloadHeader {
  exchangeId : Z;
  protocolId : Z;
  messageType : Z;
  isInitiatorMessage : bool;
  requiresAck : bool;
  ackedMessageId : option Z;
  hasSecuredExtension : bool;
}.

Record Packet := mkPacket {
  header : PacketHeader;
  messageExtension : option (list Z);
  applicationPayload : list Z;
  headerBytes : option (list Z);
}.

Record DecodedPacket := mkDecodedPacket {
  d_header : DecodedPacketHeader;
  d_messageExtension : option (list Z);
  d_applicationPayload : list Z;
  privacyHeader : option (list Z);
}.

Record Message := mkMessage {
  m_packetHeader : PacketHeader;
  m_payloadHeader : PayloadHeader;
  m_securityExtension : option (list Z);
  m_payload : list Z;
}.

Record DecodedMessage := mkDecodedMessage {
  dm_packetHeader : DecodedPacketHeader;
  dm_payloadHeader : PayloadHeader;
  dm_securityExtension : option (list Z);
  dm_payload : list Z;
}.

(** The anonymous result type of [decodeFixedHeader]. *)
Record FixedHeader := mkFixed {
  f_flags : Z;
  f_sessionType : SessionType;
  f_hasPrivacyEnhancements : bool;
  f_hasMessageExtensions : bool;
  f_sessionId : Z;
  f_securityFlags : Z;
  f_messageId : option Z;
  f_sourceNodeId : option Z;
  f_destNodeId : option Z;
  f_destGroupId : option Z;
  f_obfuscatedRegion : option (list Z);
  f_applicationPayload : list Z;
}.

Definition HEADER_VERSION : Z := 0.
Definition COMMON_VENDOR_ID : Z := 0.
Definition CRYPTO_AEAD_MIC_LENGTH_BYTES : Z := 16.

Module PacketHeaderFlag.
Definition HasDestNodeId : Z := 1.
Definition HasDestGroupId : Z := 2.
Definition HasSourceNodeId : Z := 4.
Definition VersionMask : Z := 0xf0.
End PacketHeaderFlag.

Module PayloadHeaderFlag.
Definition IsInitiatorMessage : Z := 1.
Definition IsAckMessage : Z := 2.
Definition RequiresAck : Z := 4.
Definition HasSecureExtension : Z := 8.
Definition HasVendorId : Z := 16.
End PayloadHeaderFlag.

Module SecurityFlag.
Definition HasPrivacyEnhancements : Z := 0x80.
Definition IsControlMessage : Z := 0x40.
Definition HasMessageExtension : Z := 0x20.
Definition SessionTypeMask : Z := 0x03.
End SecurityFlag.

(** [GroupId(...)]; [NodeId(...)] is the identity on a bigint. *)
Definition GroupId (groupId : Z) : result Z :=
  if (0 <=? groupId) && (groupId <=? 0xffff) then Ok groupId else Throw ValidationError.

(** ** Decoding *)

Definition privacyHeaderLength (hasSourceNodeId hasDestNodeId hasDestGroupId : bool) : Z :=
  4 + (if hasSourceNodeId then 8 else 0)
    + (if hasDestNodeId then 8 else if hasDestGroupId then 2 else 0).

Definition readFixedHeader : Reader.read FixedHeader :=
  let! flags := Reader.readUInt8 in
  let version := js_shr (js_and flags PacketHeaderFlag.VersionMask) 4 in
  let hasDestNodeId := has flags PacketHeaderFlag.HasDestNodeId in
  let hasDestGroupId := has flags PacketHeaderFlag.HasDestGroupId in
  let hasSourceNodeId := has flags PacketHeaderFlag.HasSourceNodeId in
  let! _ := throwing (hasDestNodeId && hasDestGroupId) UnexpectedDataError in
  let! _ := throwing (negb (version =? HEADER_VERSION)) NotImplementedError in
  let! sessionId := Reader.readUInt16 in
  let! securityFlags := Reader.readUInt8 in
  let code := js_and securityFlags SecurityFlag.SessionTypeMask in
  let! _ := throwing (negb (code =? session_code Group) && negb (code =? session_code Unicast))
              UnexpectedDataError in
  let sessionType := if code =? session_code Group then Group else Unicast in
  let! _ := throwing (bool_decide (sessionType = Unicast) && hasDestGroupId)
              UnexpectedDataError in
  let! _ := throwing (bool_decide (sessionType = Group) &&
                      (negb hasDestGroupId && negb hasDestNodeId)) UnexpectedDataError in
  let! _ := throwing (bool_decide (sessionType = Group) && negb hasSourceNodeId)
              UnexpectedDataError in
  let hasPrivacyEnhancements := has securityFlags SecurityFlag.HasPrivacyEnhancements in
  let isControlMessage := has securityFlags SecurityFlag.IsControlMessage in
  let! _ := throwing isControlMessage NotImplementedError in
  let hasMessageExtensions := has securityFlags SecurityFlag.HasMessageExtension in
  if hasPrivacyEnhancements then
    let! _ := throwing hasMessageExtensions NotImplementedError in
    let len := privacyHeaderLength hasSourceNodeId hasDestNodeId hasDestGroupId in
    let! remainingBytesCount := Reader.remaining in
    let! _ := throwing (remainingBytesCount <? len) UnexpectedDataError in
    let! obfuscatedRegion := Reader.readByteArray len in
    let! applicationPayload := Reader.rest in
    Reader.ret (mkFixed flags sessionType true false sessionId securityFlags
      None None None None (Some obfuscatedRegion) applicationPayload)
  else
    let! messageId := Reader.readUInt32 in
    let! sourceNodeId := Reader.optional hasSourceNodeId Reader.readUInt64 in
    let! destNodeId := Reader.optional hasDestNodeId Reader.readUInt64 in
    let! destGroupId := Reader.optional hasDestGroupId Reader.readUInt16 in
    let! applicationPayload := Reader.rest in
    Reader.ret (mkFixed flags sessionType false hasMessageExtensions sessionId securityFlags
      (Some messageId) sourceNodeId destNodeId destGroupId None applicationPayload).

Definition decodeFixedHeader (data : list Z) : result FixedHeader :=
  Reader.run readFixedHeader data.

Definition GroupId_opt (g : option Z) : result (option Z) :=
  match g with None => Ok None | Some g => let* g := GroupId g in Ok (Some g) end.

(** A length-prefixed block (message extension, secured extension). *)
Definition readExtension : Reader.read (list Z) :=
  let! extensionLength := Reader.readUInt16 in
  let! remainingBytesCount := Reader.remaining in
  let! _ := throwing (remainingBytesCount <? extensionLength) UnexpectedDataError in
  Reader.readByteArray extensionLength.

Definition decodePacket (data : list Z) : result DecodedPacket :=
  let* f := decodeFixedHeader data in
  if f_hasPrivacyEnhancements f then
    match f_obfuscatedRegion f with
    | None => Throw UnexpectedDataError
    | Some region =>
        let* _ := throw_if (byteLength (f_applicationPayload f) <? CRYPTO_AEAD_MIC_LENGTH_BYTES)
                    UnexpectedDataError in
        Ok (mkDecodedPacket
              (mkDecodedHeader
                 (mkHeader (f_sessionId f) (f_sessionType f) true false false 0 None None None)
                 (f_securityFlags f))
              None (f_applicationPayload f) (Some region))
    end
  else
    match f_messageId f with
    | None => Throw UnexpectedDataError
    | Some messageId =>
        let* destGroupId := GroupId_opt (f_destGroupId f) in
        let header := mkDecodedHeader
          (mkHeader (f_sessionId f) (f_sessionType f) false false (f_hasMessageExtensions f)
             messageId (f_sourceNodeId f) (f_destNodeId f) destGroupId)
          (f_securityFlags f) in
        let* (messageExtension, payload) :=
          if f_hasMessageExtensions f then
            Reader.run (let! messageExtension := readExtension in
                        let! payload := Reader.rest in
                        Reader.ret (Some messageExtension, payload)) (f_applicationPayload f)
          else Ok (None, f_applicationPayload f) in
        Ok (mkDecodedPacket header messageExtension payload None)
    end.

(** The fields of a deobfuscated privacy header: counter, source node,
    destination node and destination group. *)
Definition decodeObfuscatedHeaderFields (messageFlags : Z) (region : list Z)
  : result (Z * option Z * option Z * option Z) :=
  let hasDestNodeId := has messageFlags PacketHeaderFlag.HasDestNodeId in
  let hasDestGroupId := has messageFlags PacketHeaderFlag.HasDestGroupId in
  let hasSourceNodeId := has messageFlags PacketHeaderFlag.HasSourceNodeId in
  let* _ := throw_if (hasDestNodeId && hasDestGroupId) UnexpectedDataError in
  let expectedLength := privacyHeaderLength hasSourceNodeId hasDestNodeId hasDestGroupId in
  let* _ := throw_if (byteLength region <? expectedLength) UnexpectedDataError in
  Reader.run
    (let! messageId := Reader.readUInt32 in
     let! sourceNodeId := Reader.optional hasSourceNodeId Reader.readUInt64 in
     let! destNodeId := Reader.optional hasDestNodeId Reader.readUInt64 in
     let! destGroupId := Reader.optional hasDestGroupId Reader.readUInt16 in
     let! destGroupId := Reader.lift (GroupId_opt destGroupId) in
     Reader.ret (messageId, sourceNodeId, destNodeId, destGroupId)) region.

Definition decodePayloadHeader : Reader.read PayloadHeader :=
  let! exchangeFlags := Reader.readUInt8 in
  let isInitiatorMessage := has exchangeFlags PayloadHeaderFlag.IsInitiatorMessage in
  let isAckMessage := has exchangeFlags PayloadHeaderFlag.IsAckMessage in
  let requiresAck := has exchangeFlags PayloadHeaderFlag.RequiresAck in
  let hasSecuredExtension := has exchangeFlags PayloadHeaderFlag.HasSecureExtension in
  let hasVendorId := has exchangeFlags PayloadHeaderFlag.HasVendorId in
  let! messageType := Reader.readUInt8 in
  let! exchangeId := Reader.readUInt16 in
  let! vendorId := Reader.optional hasVendorId Reader.readUInt16 in
  let! low := Reader.readUInt16 in
  let protocolId := default COMMON_VENDOR_ID vendorId * 0x10000 + low in
  let! ackedMessageId := Reader.optional isAckMessage Reader.readUInt32 in
  Reader.ret (mkPayloadHeader exchangeId protocolId messageType isInitiatorMessage
    requiresAck ackedMessageId hasSecuredExtension).

(** Truthiness of an optional number. *)
Definition truthy (o : option Z) : bool :=
  match o with Some z => negb (z =? 0) | None => false end.

Definition decodePayload (packet : DecodedPacket) : result DecodedMessage :=
  let hdr := packet_header (d_header packet) in
  Reader.run
    (let! payloadHeader := decodePayloadHeader in
     let! securityExtension :=
       Reader.optional (hasSecuredExtension payloadHeader) readExtension in
     let! _ := throwing (bool_decide (sessionType hdr = Group) && negb (isControlMessage hdr) &&
                         (requiresAck payloadHeader || truthy (ackedMessageId payloadHeader)))
                 UnexpectedDataError in
     let! payload := Reader.rest in
     Reader.ret (mkDecodedMessage (d_header packet) payloadHeader securityExtension payload))
    (d_applicationPayload packet).

(** ** Encoding *)

Definition header_flags (h : PacketHeader) : Z :=
  js_or (js_or (js_or (js_shl HEADER_VERSION 4)
    (flag (is_some (destGroupId h)) PacketHeaderFlag.HasDestGroupId))
    (flag (is_some (destNodeId h)) PacketHeaderFlag.HasDestNodeId))
    (flag (is_some (sourceNodeId h)) PacketHeaderFlag.HasSourceNodeId).

Definition header_securityFlags (h : PacketHeader) : Z :=
  js_or (session_code (sessionType h))
    (flag (hasPrivacyEnhancements h) SecurityFlag.HasPrivacyEnhancements).

Definition encodePacketHeader (h : PacketHeader) : result (list Z) :=
  let* _ := throw_if (bool_decide (sessionType h = Group) &&
    (negb (is_some (destGroupId h)) || negb (is_some (sourceNodeId h)) || is_some (destNodeId h)))
    InternalError in
  Writer.run (fun writer => writer
    |> Writer.writeUInt8 (header_flags h)
    |> Writer.writeUInt16 (sessionId h)
    |> Writer.writeUInt8 (header_securityFlags h)
    |> Writer.writeUInt32 (messageId h)
    |> write_opt Writer.writeUInt64 (sourceNodeId h)
    |> write_opt Writer.writeUInt64 (destNodeId h)
    |> write_opt Writer.writeUInt16 (destGroupId h)).

Definition vendor_of (protocolId : Z) : Z := js_ushr (js_and protocolId 0xffff0000) 16.

Definition encodePayloadHeader (h : PayloadHeader) : result (list Z) :=
  let vendorId := vendor_of (protocolId h) in
  let flags := js_or (js_or (js_or
    (flag (isInitiatorMessage h) PayloadHeaderFlag.IsInitiatorMessage)
    (flag (is_some (ackedMessageId h)) PayloadHeaderFlag.IsAckMessage))
    (flag (requiresAck h) PayloadHeaderFlag.RequiresAck))
    (flag (negb (vendorId =? COMMON_VENDOR_ID)) PayloadHeaderFlag.HasVendorId) in
  Writer.run (fun writer => writer
    |> Writer.writeUInt8 flags
    |> Writer.writeUInt8 (messageType h)
    |> Writer.writeUInt16 (exchangeId h)
    |> write_opt Writer.writeUInt16
         (if negb (vendorId =? COMMON_VENDOR_ID) then Some vendorId else None)
    |> Writer.writeUInt16 (js_and (protocolId h) 0xffff)
    |> write_opt Writer.writeUInt32 (ackedMessageId h)).

Definition encodePayload (m : Message) : result Packet :=
  let* _ := throw_if (is_some (m_securityExtension m) ||
                      hasSecuredExtension (m_payloadHeader m)) NotImplementedError in
  let* hdr := encodePayloadHeader (m_payloadHeader m) in
  let* payload := concat2 hdr (m_payload m) in
  Ok (mkPacket (m_packetHeader m) None payload None).

Definition encodePacket (p : Packet) : result (list Z) :=
  let* _ := throw_if (is_some (messageExtension p) || hasMessageExtensions (header p))
              NotImplementedError in
  let* hdr := match headerBytes p with Some b => Ok b | None => encodePacketHeader (header p) end in
  concat2 hdr (applicationPayload p).

(** ** Byte images *)

Definition ids_image (h : PacketHeader) : list Z :=
  le_bytes 4 (messageId h) ++ opt_image 8 (sourceNodeId h) ++
  opt_image 8 (destNodeId h) ++ opt_image 2 (destGroupId h).

Definition fixed_image (h : PacketHeader) : list Z :=
  le_bytes 1 (header_flags h) ++ le_bytes 2 (sessionId h) ++ le_bytes 1 (header_securityFlags h).

(** The headers the encoder accepts and that carry what the wire format can
    hold: no extensions, no control message, one destination at most, and
    the addressing the session type asks for. *)
Definition header_ok (h : PacketHeader) : Prop :=
  0 <= sessionId h < 2 ^ 16 /\ 0 <= messageId h < 2 ^ 32 /\
  opt_in (sourceNodeId h) 64 /\ opt_in (destNodeId h) 64 /\ opt_in (destGroupId h) 16 /\
  hasMessageExtensions h = false /\ isControlMessage h = false /\
  match sessionType h with
  | Unicast => destGroupId h = None
  | Group => destNodeId h = None /\ is_some (sourceNodeId h) = true /\ is_some (destGroupId h) = true
  end.

Lemma encodePacketHeader_image h :
  header_ok h -> encodePacketHeader h = Ok (fixed_image h ++ ids_image h).
Proof.
  intros (_ & _ & _ & _ & _ & _ & _ & Ht). unfold encodePacketHeader.
  assert (bool_decide (sessionType h = Group) &&
    (negb (is_some (destGroupId h)) || negb (is_some (sourceNodeId h)) || is_some (destNodeId h))
    = false) as ->.
  { destruct (sessionType h); [done|]. destruct Ht as (-> & -> & ->). done. }
  cbn [throw_if rbind]. eapply run_written_eq; [eauto 20 with writer|].
  unfold fixed_image, ids_image. flatten_app. done.
Qed.

Lemma has_header_flags h :
  has (header_flags h) PacketHeaderFlag.HasDestNodeId = bool_decide (is_Some (destNodeId h)) /\
  has (header_flags h) PacketHeaderFlag.HasDestGroupId = bool_decide (is_Some (destGroupId h)) /\
  has (header_flags h) PacketHeaderFlag.HasSourceNodeId = bool_decide (is_Some (sourceNodeId h)) /\
  js_shr (js_and (header_flags h) PacketHeaderFlag.VersionMask) 4 = HEADER_VERSION /\
  0 <= header_flags h < 2 ^ 8.
Proof.
  unfold header_flags.
  destruct (destNodeId h), (destGroupId h), (sourceNodeId h); cbn [is_some flag]; by vm_compute.
Qed.

Lemma has_securityFlags h :
  let s := header_securityFlags h in
  js_and s SecurityFlag.SessionTypeMask = session_code (sessionType h) /\
  has s SecurityFlag.HasPrivacyEnhancements = hasPrivacyEnhancements h /\
  has s SecurityFlag.IsControlMessage = false /\
  has s SecurityFlag.HasMessageExtension = false /\ 0 <= s < 2 ^ 8.
Proof.
  unfold header_securityFlags.
  destruct (sessionType h), (hasPrivacyEnhancements h); cbn [flag session_code]; by vm_compute.
Qed.

(** ** Parsers on the images *)

Lemma ids_length h : header_ok h ->
  byteLength (ids_image h) =
  privacyHeaderLength (bool_decide (is_Some (sourceNodeId h))) (bool_decide (is_Some (destNodeId h)))
    (bool_decide (is_Some (destGroupId h))).
Proof.
  intros (_ & _ & _ & _ & _ & _ & _ & Ht).
  assert (destNodeId h = None \/ destGroupId h = None) as Hd
    by (destruct (sessionType h); [by right|left; by destruct Ht]).
  unfold ids_image, byteLength, privacyHeaderLength. rewrite !length_app, le_bytes_length.
  unfold opt_image. destruct (sourceNodeId h), (destNodeId h), (destGroupId h);
    cbn [from_option length]; rewrite ?le_bytes_length; cbn; done || (destruct Hd; done).
Qed.

(** The part of the header in the clear, followed by a continuation. *)
Lemma fixed_header_guards h :
  header_ok h ->
  bool_decide (is_Some (destNodeId h)) && bool_decide (is_Some (destGroupId h)) = false /\
  bool_decide (sessionType h = Unicast) && bool_decide (is_Some (destGroupId h)) = false /\
  bool_decide (sessionType h = Group) &&
    (negb (bool_decide (is_Some (destGroupId h))) && negb (bool_decide (is_Some (destNodeId h))))
    = false /\
  bool_decide (sessionType h = Group) && negb (bool_decide (is_Some (sourceNodeId h))) = false.
Proof.
  intros (_ & _ & _ & _ & _ & _ & _ & Ht).
  destruct (sessionType h), (destNodeId h), (destGroupId h), (sourceNodeId h); cbn in Ht;
    first [done|by destruct Ht as (? & ? & ?)].
Qed.

Lemma session_of_code t :
  negb (session_code t =? session_code Group) && negb (session_code t =? session_code Unicast) = false /\
  (if session_code t =? session_code Group then Group else Unicast) = t.
Proof. by destruct t. Qed.

Definition fixed_of (h : PacketHeader) (payload : list Z) : FixedHeader :=
  if hasPrivacyEnhancements h
  then mkFixed (header_flags h) (sessionType h) true false (sessionId h) (header_securityFlags h)
         None None None None (Some (ids_image h)) payload
  else mkFixed (header_flags h) (sessionType h) false false (sessionId h) (header_securityFlags h)
         (Some (messageId h)) (sourceNodeId h) (destNodeId h) (destGroupId h) None payload.

Lemma decodeFixedHeader_image h payload :
  header_ok h ->
  decodeFixedHeader ((fixed_image h ++ ids_image h) ++ payload) = Ok (fixed_of h payload).
Proof.
  intros Hok. pose proof Hok as (Hs & Hm & Hsrc & Hdst & Hgrp & He & Hc & _).
  destruct (has_header_flags h) as (E1 & E2 & E3 & E4 & Hf).
  destruct (has_securityFlags h) as (F1 & F2 & F3 & F4 & Hsf).
  destruct (fixed_header_guards h Hok) as (G1 & G2 & G3 & G4).
  destruct (session_of_code (sessionType h)) as [S1 S2].
  unfold decodeFixedHeader, fixed_image. rewrite <- !app_assoc.
  apply Reader.run_yields. unfold readFixedHeader.
  eapply Reader.yields_bind; [by apply (Reader.reads_unsigned 1)|]. rewrite E1, E2, E3, E4.
  do 2 (apply yields_throwing; [done|]).
  eapply Reader.yields_bind; [by apply (Reader.reads_unsigned 2)|].
  eapply Reader.yields_bind; [by apply (Reader.reads_unsigned 1)|].
  rewrite F1, F2, F3, F4, S2.
  do 5 (apply yields_throwing; [done|]).
  unfold fixed_of. destruct (hasPrivacyEnhancements h).
  - apply yields_throwing; [done|]. apply Reader.yields_remaining.
    apply yields_throwing; [|].
    { apply Z.ltb_ge. rewrite <- (ids_length h Hok). unfold byteLength. rewrite length_app. lia. }
    eapply Reader.yields_bind; [by apply Reader.reads_bytes; rewrite ids_length|].
    apply Reader.yields_rest, Reader.yields_ret.
  - unfold ids_image. rewrite <- !app_assoc.
    eapply Reader.yields_bind; [by apply (Reader.reads_unsigned 4)|].
    eapply Reader.yields_bind; [by apply (reads_opt 8)|].
    eapply Reader.yields_bind; [by apply (reads_opt 8)|].
    eapply Reader.yields_bind; [by apply (reads_opt 2)|].
    apply Reader.yields_rest, Reader.yields_ret.
Qed.

(** ** The payload header *)

Definition payload_header_ok (h : PayloadHeader) : Prop :=
  0 <= exchangeId h < 2 ^ 16 /\ 0 <= protocolId h < 2 ^ 32 /\ 0 <= messageType h < 2 ^ 8 /\
  opt_in (ackedMessageId h) 32 /\ hasSecuredExtension h = false.

Lemma vendor_of_div p : 0 <= p < 2 ^ 32 -> vendor_of p = p / 2 ^ 16.
Proof.
  intros Hp. unfold vendor_of, js_ushr. change (16 mod 32) with 16.
  rewrite <- Z.shiftr_div_pow2 by lia.
  apply Z.bits_inj'. intros i Hi. rewrite !Z.shiftr_spec by lia.
  rewrite uint32_testbit by lia. destruct (Z.ltb_spec (i + 16) 32); cbn [andb].
  - rewrite js_and_testbit by lia. change 0xffff0000 with (Z.shiftl (Z.ones 16) 16).
    rewrite Z.shiftl_spec by lia. replace (i + 16 - 16) with i by lia.
    rewrite Z.ones_spec_low by lia. apply andb_true_r.
  - symmetry. apply (testbit_above p 32); lia.
Qed.

Definition vendor_opt (p : Z) : option Z :=
  if negb (vendor_of p =? COMMON_VENDOR_ID) then Some (vendor_of p) else None.

Definition payload_flags (h : PayloadHeader) : Z :=
  js_or (js_or (js_or
    (flag (isInitiatorMessage h) PayloadHeaderFlag.IsInitiatorMessage)
    (flag (is_some (ackedMessageId h)) PayloadHeaderFlag.IsAckMessage))
    (flag (requiresAck h) PayloadHeaderFlag.RequiresAck))
    (flag (is_some (vendor_opt (protocolId h))) PayloadHeaderFlag.HasVendorId).

Definition payload_image (h : PayloadHeader) : list Z :=
  le_bytes 1 (payload_flags h) ++ le_bytes 1 (messageType h) ++ le_bytes 2 (exchangeId h) ++
  opt_image 2 (vendor_opt (protocolId h)) ++ le_bytes 2 (protocolId h mod 2 ^ 16) ++
  opt_image 4 (ackedMessageId h).

Lemma encodePayloadHeader_image h :
  payload_header_ok h -> encodePayloadHeader h = Ok (payload_image h).
Proof.
  intros (_ & Hp & _). unfold encodePayloadHeader.
  eapply run_written_eq; [eauto 20 with writer|].
  rewrite js_and_ffff by lia. fold (vendor_opt (protocolId h)).
  unfold payload_image, payload_flags, vendor_opt.
  destruct (negb _); cbn [is_some]; by flatten_app.
Qed.

Lemma has_payload_flags h :
  let f := payload_flags h in
  has f PayloadHeaderFlag.IsInitiatorMessage = isInitiatorMessage h /\
  has f PayloadHeaderFlag.IsAckMessage = bool_decide (is_Some (ackedMessageId h)) /\
  has f PayloadHeaderFlag.RequiresAck = requiresAck h /\
  has f PayloadHeaderFlag.HasSecureExtension = false /\
  has f PayloadHeaderFlag.HasVendorId = bool_decide (is_Some (vendor_opt (protocolId h))) /\
  0 <= f < 2 ^ 8.
Proof.
  unfold payload_flags. destruct (isInitiatorMessage h), (ackedMessageId h), (requiresAck h),
    (vendor_opt (protocolId h)); cbn [is_some flag]; by vm_compute.
Qed.

Lemma decodePayloadHeader_reads h :
  payload_header_ok h -> Reader.reads decodePayloadHeader (payload_image h) h.
Proof.
  intros (He & Hp & Ht & Ha & Hx).
  destruct (has_payload_flags h) as (E1 & E2 & E3 & E4 & E5 & Hf).
  assert (opt_in (vendor_opt (protocolId h)) 16 /\
    default COMMON_VENDOR_ID (vendor_opt (protocolId h)) * 0x10000 + protocolId h mod 2 ^ 16
      = protocolId h) as [Hv Hpid].
  { unfold vendor_opt, COMMON_VENDOR_ID. rewrite vendor_of_div by done.
    pose proof (Z.div_mod (protocolId h) (2 ^ 16)). pose proof (Z.mod_pos_bound (protocolId h) (2 ^ 16)).
    destruct (Z.eqb_spec (protocolId h / 2 ^ 16) 0); cbn [negb]; split.
    - by intros v.
    - cbn [from_option Datatypes.id]. lia.
    - intros v [= <-]. lia.
    - cbn [from_option Datatypes.id]. lia. }
  unfold decodePayloadHeader, payload_image.
  eapply Reader.reads_bind; [by apply (Reader.reads_unsigned 1)|]. rewrite E1, E2, E3, E4, E5.
  eapply Reader.reads_bind; [by apply (Reader.reads_unsigned 1)|].
  eapply Reader.reads_bind; [by apply (Reader.reads_unsigned 2)|].
  eapply Reader.reads_bind; [by apply (reads_opt 2)|].
  eapply Reader.reads_bind; [apply (Reader.reads_unsigned 2); apply Z.mod_pos_bound; lia|].
  rewrite Hpid. rewrite <- (app_nil_r (opt_image 4 _)).
  eapply Reader.reads_bind; [by apply (reads_opt 4)|].
  destruct h; cbn in *; subst. apply Reader.reads_ret.
Qed.

Lemma GroupId_opt_ok o : opt_in o 16 -> GroupId_opt o = Ok o.
Proof.
  intros H. destruct o as [g|]; [|done]. specialize (H g eq_refl). cbn. unfold GroupId.
  rewrite (proj2 (Z.leb_le 0 g)), (proj2 (Z.leb_le g _)) by lia. done.
Qed.

Lemma encodePacket_image h payload :
  header_ok h ->
  encodePacket (mkPacket h None payload None) = Ok ((fixed_image h ++ ids_image h) ++ payload).
Proof.
  intros Hok. pose proof Hok as (_ & _ & _ & _ & _ & He & _).
  unfold encodePacket; cbn. rewrite He. cbn.
  rewrite encodePacketHeader_image by done. apply concat2_app.
Qed.

Lemma decodePacket_image h payload :
  header_ok h -> hasPrivacyEnhancements h = false ->
  decodePacket ((fixed_image h ++ ids_image h) ++ payload) =
  Ok (mkDecodedPacket (mkDecodedHeader h (header_securityFlags h)) None payload None).
Proof.
  intros Hok Hp. unfold decodePacket. rewrite decodeFixedHeader_image by done.
  pose proof Hok as (_ & _ & _ & _ & Hg & He & Hc & _).
  unfold fixed_of. rewrite Hp. cbn. rewrite GroupId_opt_ok by done. cbn.
  by destruct h; cbn in *; subst.
Qed.

(** ** What a successful decode guarantees *)

(** The addressing the protocol demands of each session type. *)
Definition addressing_ok (t : SessionType) (src dst group : option Z) : Prop :=
  match t with
  | Unicast => group = None
  | Group => is_some src = true /\ is_some dst = negb (is_some group)
  end.

Lemma guards_addressing t src dst group :
  is_some dst && is_some group = false ->
  bool_decide (t = Unicast) && is_some group = false ->
  bool_decide (t = Group) && (negb (is_some group) && negb (is_some dst)) = false ->
  bool_decide (t = Group) && negb (is_some src) = false ->
  addressing_ok t src dst group.
Proof. by destruct t, src, dst, group. Qed.

Lemma readFixedHeader_inv r f r' :
  readFixedHeader r = Ok (f, r') ->
  if f_hasPrivacyEnhancements f
  then f_hasMessageExtensions f = false /\ is_some (f_obfuscatedRegion f) = true
  else is_some (f_messageId f) = true /\
       addressing_ok (f_sessionType f) (f_sourceNodeId f) (f_destNodeId f) (f_destGroupId f).
Proof.
  intros H. unfold readFixedHeader in H. do 10 inv_read H.
  destruct (has _ SecurityFlag.HasPrivacyEnhancements).
  - do 5 inv_read H. by injection H as <- <-.
  - do 5 inv_read H. injection H as <- <-. cbn. split; [done|].
    repeat match goal with H : Reader.optional _ _ _ = Ok _ |- _ => apply optional_inv in H end.
    by apply guards_addressing; rewrite ?H11, ?H12, ?H13.
Qed.

(** ** Properties *)

(** a packet that is encoded and decoded again is the same packet: for
    every header the wire format can carry, [decodePacket] inverts
    [encodePacket], and the security flags it reports are the ones the
    encoder put on the wire. *)
Theorem packet_roundtrip h payload :
  header_ok h -> hasPrivacyEnhancements h = false ->
  (let* bs := encodePacket (mkPacket h None payload None) in decodePacket bs) =
  Ok (mkDecodedPacket (mkDecodedHeader h (header_securityFlags h)) None payload None).
Proof.
  intros Hok Hp. rewrite encodePacket_image by done. cbn [rbind].
  by apply decodePacket_image.
Qed.

Definition sample_group_header (privacy : bool) : PacketHeader :=
  mkHeader 0x1234 Group privacy false false 0xdeadbeef (Some 0x1122334455667788) None (Some 0xfffe).

Lemma sample_group_header_ok privacy : header_ok (sample_group_header privacy).
Proof. unfold header_ok, opt_in; cbn. split_and!; try done; intros v Hv; simplify_eq; lia. Qed.

Lemma packet_roundtrip_witness :
  (let* bs := encodePacket (mkPacket (sample_group_header false) None [1; 2; 3] None) in
   decodePacket bs) =
  Ok (mkDecodedPacket (mkDecodedHeader (sample_group_header false) 1) None [1; 2; 3] None).
Proof. apply packet_roundtrip; [apply sample_group_header_ok|reflexivity]. Defined.

(** a privacy-enhanced packet keeps its addressing in the obfuscated
    region: decoding yields exactly the bytes of counter and node or group
    ids, and [decodeObfuscatedHeaderFields] on the clear flags byte recovers
    every field from them.  A tail shorter than the MIC is refused. *)
Theorem privacy_header_roundtrip h payload :
  header_ok h -> hasPrivacyEnhancements h = true ->
  exists bs region,
    encodePacket (mkPacket h None payload None) = Ok bs /\
    decodeObfuscatedHeaderFields (header_flags h) region =
      Ok (messageId h, sourceNodeId h, destNodeId h, destGroupId h) /\
    decodePacket bs =
      if byteLength payload <? CRYPTO_AEAD_MIC_LENGTH_BYTES then Throw UnexpectedDataError
      else Ok (mkDecodedPacket
        (mkDecodedHeader (mkHeader (sessionId h) (sessionType h) true false false 0 None None None)
           (header_securityFlags h)) None payload (Some region)).
Proof.
  intros Hok Hp. do 2 eexists. split; [by apply encodePacket_image|]. split.
  - instantiate (1 := ids_image h). unfold decodeObfuscatedHeaderFields.
    destruct (has_header_flags h) as (-> & -> & -> & _).
    destruct (fixed_header_guards h Hok) as (-> & _). cbn [throw_if rbind].
    rewrite <- ids_length, Z.ltb_irrefl by done. cbn [throw_if rbind].
    pose proof Hok as (_ & Hm & Hsrc & Hdst & Hgrp & _).
    apply Reader.run_yields. unfold ids_image.
    eapply Reader.yields_bind; [by apply (Reader.reads_unsigned 4)|].
    eapply Reader.yields_bind; [by apply (reads_opt 8)|].
    eapply Reader.yields_bind; [by apply (reads_opt 8)|].
    rewrite <- (app_nil_r (opt_image 2 _)).
    eapply Reader.yields_bind; [by apply (reads_opt 2)|].
    rewrite GroupId_opt_ok by done. intros pre. by eexists.
  - unfold decodePacket. rewrite decodeFixedHeader_image by done. unfold fixed_of.
    rewrite Hp. cbn. by destruct (_ <? _).
Qed.

Lemma privacy_header_roundtrip_witness :
  exists bs region,
    encodePacket (mkPacket (sample_group_header true) None (replicate 16 7) None) = Ok bs /\
    decodeObfuscatedHeaderFields 6 region =
      Ok (0xdeadbeef, Some 0x1122334455667788, None, Some 0xfffe).
Proof.
  destruct (privacy_header_roundtrip (sample_group_header true) (replicate 16 7)
    (sample_group_header_ok true) eq_refl) as (bs & region & H1 & H2 & _).
  exists bs, region. split; [exact H1|exact H2].
Defined.

(** C27: a message without privacy, control message, message extension and
    secured extension survives the whole path: payload header and payload are
    encoded into a packet, the packet into bytes, and decoding the bytes and
    then the payload gives back packet header, payload header and payload.  A
    group message must neither ask for nor carry an acknowledgement, which the
    decoder refuses. *)
Theorem message_roundtrip h ph payload :
  header_ok h -> hasPrivacyEnhancements h = false -> payload_header_ok ph ->
  (sessionType h = Group -> requiresAck ph = false /\ ackedMessageId ph = None) ->
  (let* packet := encodePayload (mkMessage h ph None payload) in
   let* bs := encodePacket packet in
   let* decoded := decodePacket bs in
   decodePayload decoded) =
  Ok (mkDecodedMessage (mkDecodedHeader h (header_securityFlags h)) ph None payload).
Proof.
  intros Hok Hp Hph Hg. pose proof Hph as (_ & _ & _ & _ & Hx).
  unfold encodePayload; cbn. rewrite Hx. cbn.
  rewrite encodePayloadHeader_image by done. cbn. rewrite concat2_app. cbn [rbind].
  rewrite encodePacket_image by done. cbn [rbind]. rewrite decodePacket_image by done. cbn [rbind].
  unfold decodePayload; cbn [d_header d_applicationPayload packet_header].
  apply Reader.run_yields.
  eapply Reader.yields_bind; [by apply decodePayloadHeader_reads|].
  rewrite Hx. rewrite <- (app_nil_l payload) at 1.
  eapply Reader.yields_bind; [apply Reader.reads_ret|].
  apply yields_throwing; [|apply Reader.yields_rest, Reader.yields_ret].
  destruct (sessionType h); [done|]. destruct (Hg eq_refl) as [-> ->].
  by rewrite andb_false_r.
Qed.

Lemma message_roundtrip_witness :
  let h := mkHeader 7 Unicast false false false 42 None (Some 0x10) None in
  let ph := mkPayloadHeader 0xabcd 0xfff10001 0x20 true true (Some 41) false in
  (let* packet := encodePayload (mkMessage h ph None [9; 8; 7]) in
   let* bs := encodePacket packet in
   let* decoded := decodePacket bs in
   decodePayload decoded) =
  Ok (mkDecodedMessage (mkDecodedHeader h 0) ph None [9; 8; 7]).
Proof.
  cbn zeta. apply message_roundtrip; [|reflexivity| |discriminate].
  - unfold header_ok, opt_in; cbn. split_and!; try done; intros v Hv; simplify_eq; lia.
  - unfold payload_header_ok, opt_in; cbn. split_and!; try done; intros v Hv; simplify_eq; lia.
Defined.

(** whatever bytes arrive, a packet that decodes is addressed the way its
    session type demands (a unicast packet has no group, a group packet has a
    source and exactly one destination), is no control message, has an
    extension exactly when its header says so, and is privacy enhanced
    exactly when its obfuscated header region is present. *)
Theorem decoded_packet_wellformed data p :
  decodePacket data = Ok p ->
  let h := packet_header (d_header p) in
  isControlMessage h = false /\
  hasPrivacyEnhancements h = is_some (privacyHeader p) /\
  hasMessageExtensions h = is_some (d_messageExtension p) /\
  (hasPrivacyEnhancements h = false ->
   addressing_ok (sessionType h) (sourceNodeId h) (destNodeId h) (destGroupId h)).
Proof.
  unfold decodePacket. intros (f & Hf & H)%rbind_ok. cbn zeta.
  unfold decodeFixedHeader, Reader.run in Hf. apply rbind_ok in Hf as ([f' r'] & Hf & [= ->]).
  apply readFixedHeader_inv in Hf. destruct (f_hasPrivacyEnhancements f).
  - destruct (f_obfuscatedRegion f); [|done]. apply rbind_ok in H as (_ & _ & [= <-]). done.
  - destruct Hf as [_ Ha]. destruct (f_messageId f); [|done].
    apply rbind_ok in H as (g & Hg & H). apply rbind_ok in H as ([e payload] & He & [= <-]).
    cbn. split; [done|]. split; [done|].
    assert (Eg : g = f_destGroupId f).
    { destruct (f_destGroupId f) as [x|]; cbn in Hg; [|by injection Hg].
      unfold GroupId in Hg. destruct (_ && _); [by injection Hg|done]. }
    subst g. split; [|done]. destruct (f_hasMessageExtensions f); [|by injection He as <- _].
    unfold Reader.run in He. apply rbind_ok in He as ([[e' p'] r''] & He & [= <- <-]).
    do 2 inv_read He. by injection He as <- _ _.
Qed.

Lemma decoded_packet_wellformed_witness :
  exists p, decodePacket ([4; 0x34; 0x12; 0] ++ [1; 0; 0; 0] ++ [1; 2; 3; 4; 5; 6; 7; 8] ++ [99]) = Ok p /\
    addressing_ok Unicast (sourceNodeId (packet_header (d_header p)))
      (destNodeId (packet_header (d_header p))) (destGroupId (packet_header (d_header p))).
Proof.
  destruct (decodePacket ([4; 0x34; 0x12; 0] ++ [1; 0; 0; 0] ++ [1; 2; 3; 4; 5; 6; 7; 8] ++ [99]))
    as [p|e] eqn:E; [|vm_compute in E; discriminate].
  exists p. split; [reflexivity|]. pose proof (decoded_packet_wellformed _ _ E) as (_ & _ & _ & H).
  vm_compute in E. injection E as <-. apply H. reflexivity.
Defined.

(** a decoded group data message never requests an acknowledgement and
    never carries one for a message other than number 0. *)
Theorem group_message_unacknowledged packet m :
  decodePayload packet = Ok m ->
  sessionType (packet_header (d_header packet)) = Group ->
  isControlMessage (packet_header (d_header packet)) = false ->
  requiresAck (dm_payloadHeader m) = false /\
  (ackedMessageId (dm_payloadHeader m) = None \/ ackedMessageId (dm_payloadHeader m) = Some 0).
Proof.
  intros H Ht Hc. unfold decodePayload, Reader.run in H.
  apply rbind_ok in H as ([m' r'] & H & [= ->]). do 4 inv_read H.
  injection H as <- _. cbn. rewrite Ht, Hc in *.
  match goal with H : _ && _ && _ = false |- _ => rename H into Hg end.
  cbn in Hg. apply orb_false_iff in Hg as [-> Hg]. split; [done|].
  destruct (ackedMessageId x) as [z|]; [right|by left].
  cbn in Hg. apply negb_false_iff, Z.eqb_eq in Hg. by subst.
Qed.

(** the acknowledgement check of group messages tests the truth value of
    the acknowledged id, so a group message that acknowledges message 0
    passes it. *)
Theorem group_ack_of_zero_accepted :
  let h := mkDecodedHeader (sample_group_header false) 1 in
  exists m, decodePayload (mkDecodedPacket h None [0x02; 0x10; 1; 0; 0; 0; 0; 0; 0; 0] None) = Ok m /\
    ackedMessageId (dm_payloadHeader m) = Some 0.
Proof. eexists. split; [vm_compute; reflexivity|reflexivity]. Qed.

Lemma group_message_unacknowledged_witness :
  exists m, decodePayload (mkDecodedPacket (mkDecodedHeader (sample_group_header false) 1) None
      [0x01; 0x10; 1; 0; 0; 0; 5] None) = Ok m /\ requiresAck (dm_payloadHeader m) = false.
Proof.
  destruct (decodePayload (mkDecodedPacket (mkDecodedHeader (sample_group_header false) 1) None
      [0x01; 0x10; 1; 0; 0; 0; 5] None)) as [m|e] eqn:E; [|vm_compute in E; discriminate].
  exists m. split; [reflexivity|].
  apply (group_message_unacknowledged _ _ E); reflexivity.
Defined.
