(* ===== verification/BtpCodec.v ===== *)
(** * The BTP codec

    Models src/packages/protocol/src/codec/BtpCodec.ts: handshake request and
    response, data packets, and the BLE advertisement payload. *)

From S2P Require Import Prelude DataIO CodecLib.

(** ** Data *)

Record BtpHandshakeRequest := mkRequest {
  versions : list Z;
  attMtu : Z;
  clientWindowSize : Z;
}.

Record BtpHandshakeResponse := mkResponse {
  version : Z;
  r_attMtu : Z;
  windowSize : Z;
}.

Record BtpPacketPayload := mkPayload {
  ackNumber : option Z;
  sequenceNumber : Z;
  messageLength : option Z;
  segmentPayload : option (list Z);
}.

Record BtpHeader := mkBtpHeader {
  isHandshakeRequest : bool;
  hasManagementOpcode : bool;
  hasAckNumber : bool;
  isEndingSegment : bool;
  isContinuingSegment : bool;
  isBeginningSegment : bool;
}.

Record BtpPacket := mkBtpPacket {
  btp_header : BtpHeader;
  btp_payload : BtpPacketPayload;
}.

Module BtpHeaderBits.
Definition HandshakeBit : Z := 0x40.
Definition ManagementMsg : Z := 0x20.
Definition AckMsg : Z := 0x08.
Definition EndSegment : Z := 0x04.
Definition ContinuingSegment : Z := 0x02.
Definition BeginSegment : Z := 0x01.
End BtpHeaderBits.

Definition HandshakeManagementOpcode : Z := 0x6c.
Definition HANDSHAKE_HEADER : Z := 0x65.

(** ** Handshake *)

(** [versions[i]]; a missing entry is [undefined], which the bit operators
    read as 0. *)
Definition version_at (versions : list Z) (i : nat) : Z := default 0 (versions !! i).

Definition version_byte (versions : list Z) (hi lo : nat) : Z :=
  js_or (js_shl (version_at versions hi) 4) (version_at versions lo).

Definition encodeBtpHandshakeRequest (r : BtpHandshakeRequest) : result (list Z) :=
  Writer.run (fun writer => writer
    |> Writer.writeUInt8 HANDSHAKE_HEADER
    |> Writer.writeUInt8 HandshakeManagementOpcode
    |> Writer.writeUInt8 (version_byte (versions r) 1 0)
    |> Writer.writeUInt8 (version_byte (versions r) 3 2)
    |> Writer.writeUInt8 (version_byte (versions r) 5 4)
    |> Writer.writeUInt8 (version_byte (versions r) 7 6)
    |> Writer.writeUInt16 (attMtu r)
    |> Writer.writeUInt8 (clientWindowSize r)).

Definition encodeBtpHandshakeResponse (r : BtpHandshakeResponse) : result (list Z) :=
  Writer.run (fun writer => writer
    |> Writer.writeUInt8 HANDSHAKE_HEADER
    |> Writer.writeUInt8 HandshakeManagementOpcode
    |> Writer.writeUInt8 (js_and (version r) 0x0f)
    |> Writer.writeUInt16 (r_attMtu r)
    |> Writer.writeUInt8 (windowSize r)).

(** The two versions of one byte, low nibble first. *)
Definition nibbles (b : Z) : list Z := [js_and b 0x0f; js_shr (js_and b 0xf0) 4].

Definition decodeHandshakeRequestPayload : Reader.read BtpHandshakeRequest :=
  let! header := Reader.readUInt8 in
  let! opcode := Reader.readUInt8 in
  let! v0 := Reader.readUInt8 in
  let! _ := throwing (negb (header =? HANDSHAKE_HEADER)) BtpProtocolError in
  let! _ := throwing (negb (opcode =? HandshakeManagementOpcode)) BtpProtocolError in
  let! v1 := Reader.readUInt8 in
  let! v2 := Reader.readUInt8 in
  let! v3 := Reader.readUInt8 in
  let ver := nibbles v0 ++ nibbles v1 ++ nibbles v2 ++ nibbles v3 in
  let versions := List.filter (fun v => negb (v =? 0)) ver in
  let! _ := throwing (match versions with [] => true | _ => false end) BtpProtocolError in
  let! attMtu := Reader.readUInt16 in
  let! clientWindowSize := Reader.readUInt8 in
  Reader.ret (mkRequest versions attMtu clientWindowSize).

Definition decodeBtpHandshakeRequest (data : list Z) : result BtpHandshakeRequest :=
  Reader.run decodeHandshakeRequestPayload data.

Definition decodeBtpHandshakeResponsePayload (data : list Z) : result BtpHandshakeResponse :=
  Reader.run
    (let! header := Reader.readUInt8 in
     let! _ := throwing (negb (header =? HANDSHAKE_HEADER)) BtpProtocolError in
     let! opcode := Reader.readUInt8 in
     let! _ := throwing (negb (opcode =? HandshakeManagementOpcode)) BtpProtocolError in
     let! v := Reader.readUInt8 in
     let! attMtu := Reader.readUInt16 in
     let! windowSize := Reader.readUInt8 in
     Reader.ret (mkResponse (js_and v 0x0f) attMtu windowSize)) data.

(** ** Packets *)

Definition decodeBtpPacketHeader : Reader.read BtpHeader :=
  let! headerBits := Reader.readUInt8 in
  let hasManagementOpcode := has headerBits BtpHeaderBits.ManagementMsg in
  let! _ := throwing hasManagementOpcode BtpProtocolError in
  Reader.ret (mkBtpHeader
    (has headerBits BtpHeaderBits.HandshakeBit) hasManagementOpcode
    (has headerBits BtpHeaderBits.AckMsg) (has headerBits BtpHeaderBits.EndSegment)
    (has headerBits BtpHeaderBits.ContinuingSegment) (has headerBits BtpHeaderBits.BeginSegment)).

Definition decodeBtpPacketPayload (h : BtpHeader) : Reader.read BtpPacketPayload :=
  let! ackNumber := Reader.optional (hasAckNumber h) Reader.readUInt8 in
  let! sequenceNumber := Reader.readUInt8 in
  let! messageLength := Reader.optional (isBeginningSegment h) Reader.readUInt16 in
  let! segmentPayload := Reader.rest in
  Reader.ret (mkPayload ackNumber sequenceNumber messageLength (Some segmentPayload)).

Definition decodeBtpPacket (data : list Z) : result BtpPacket :=
  Reader.run
    (let! header := decodeBtpPacketHeader in
     let! payload := decodeBtpPacketPayload header in
     Reader.ret (mkBtpPacket header payload)) data.

Definition encodeBtpPacketHeader (h : BtpHeader) : result (list Z) :=
  let* _ := throw_if (isHandshakeRequest h || hasManagementOpcode h) BtpProtocolError in
  let bits := js_or (js_or (js_or
    (flag (hasAckNumber h) BtpHeaderBits.AckMsg)
    (flag (isEndingSegment h) BtpHeaderBits.EndSegment))
    (flag (isContinuingSegment h) BtpHeaderBits.ContinuingSegment))
    (flag (isBeginningSegment h) BtpHeaderBits.BeginSegment) in
  Writer.run (Writer.writeUInt8 bits).

Definition payload_empty (p : option (list Z)) : bool :=
  match p with None => true | Some bs => byteLength bs =? 0 end.

Definition encodeBtpPacketPayload (h : BtpHeader) (p : BtpPacketPayload) : result (list Z) :=
  let* _ := throw_if (negb (hasAckNumber h) && is_some (ackNumber p)) BtpProtocolError in
  let* _ := throw_if (hasAckNumber h && negb (is_some (ackNumber p))) BtpProtocolError in
  let* _ := throw_if (isBeginningSegment h && isContinuingSegment h) BtpProtocolError in
  let* _ := throw_if (isEndingSegment h && negb (isContinuingSegment h) &&
                      negb (isBeginningSegment h)) BtpProtocolError in
  let* _ := throw_if ((isBeginningSegment h || isContinuingSegment h) &&
                      payload_empty (segmentPayload p)) BtpProtocolError in
  let* _ := throw_if (isBeginningSegment h && negb (is_some (messageLength p))) BtpProtocolError in
  let* _ := throw_if (negb (isBeginningSegment h) && is_some (messageLength p)) BtpProtocolError in
  Writer.run (fun writer => writer
    |> write_opt Writer.writeUInt8 (ackNumber p)
    |> Writer.writeUInt8 (sequenceNumber p)
    |> write_opt Writer.writeUInt16 (messageLength p)
    |> match segmentPayload p with Some bs => Writer.writeByteArray bs | None => fun w => w end).

Definition encodeBtpPacket (p : BtpPacket) : result (list Z) :=
  let* hdr := encodeBtpPacketHeader (btp_header p) in
  let* payload := encodeBtpPacketPayload (btp_header p) (btp_payload p) in
  concat2 hdr payload.

(** ** BLE advertisement data *)

Record Advertisement := mkAdvertisement {
  discriminator : Z;
  vendorId : Z;
  productId : Z;
  hasAdditionalAdvertisementData : bool;
}.

Definition encodeBleAdvertisementData (a : Advertisement) (isExtendedAnnouncement : bool)
  : result (list Z) :=
  Writer.run (fun writer => writer
    |> Writer.writeUInt8 0x02
    |> Writer.writeUInt8 0x01
    |> Writer.writeUInt8 0x06
    |> Writer.writeUInt8 0x0b
    |> Writer.writeUInt8 0x16
    |> Writer.writeUInt16 0xfff6
    |> Writer.writeUInt8 0x00
    |> Writer.writeUInt16 (discriminator a)
    |> Writer.writeUInt16 (if isExtendedAnnouncement then 0 else vendorId a)
    |> Writer.writeUInt16 (if isExtendedAnnouncement then 0 else productId a)
    |> Writer.writeUInt8 (js_or (flag (hasAdditionalAdvertisementData a) 1)
                                (flag isExtendedAnnouncement 2))).

Definition decodeBleAdvertisementServiceData (data : list Z) : result Advertisement :=
  Reader.run
    (let! version := Reader.readUInt8 in
     let! _ := throwing (negb (version =? 0)) BleError in
     let! discriminator := Reader.readUInt16 in
     let! vendorId := Reader.readUInt16 in
     let! productId := Reader.readUInt16 in
     let! additional := Reader.readUInt8 in
     Reader.ret (mkAdvertisement discriminator vendorId productId (negb (additional =? 0)))) data.

(** One operand of the short-circuit [||] chain. *)
Definition expect_byte (b : Z) : Reader.read unit :=
  let! x := Reader.readUInt8 in throwing (negb (x =? b)) BleError.

Definition decodeBleAdvertisementData (data : list Z) : result Advertisement :=
  let* service := Reader.run
    (let! _ := expect_byte 0x02 in
     let! _ := expect_byte 0x01 in
     let! _ := expect_byte 0x06 in
     let! _ := expect_byte 0x0b in
     let! _ := expect_byte 0x16 in
     let! serviceUuid := Reader.readUInt16 in
     let! _ := throwing (negb (serviceUuid =? 0xfff6)) BleError in
     Reader.rest) data in
  decodeBleAdvertisementServiceData service.

(** ** Packet images *)

Definition header_bits (h : BtpHeader) : Z :=
  js_or (js_or (js_or
    (flag (hasAckNumber h) BtpHeaderBits.AckMsg)
    (flag (isEndingSegment h) BtpHeaderBits.EndSegment))
    (flag (isContinuingSegment h) BtpHeaderBits.ContinuingSegment))
    (flag (isBeginningSegment h) BtpHeaderBits.BeginSegment).

Definition packet_image (p : BtpPacket) : list Z :=
  le_bytes 1 (header_bits (btp_header p)) ++
  opt_image 1 (ackNumber (btp_payload p)) ++ le_bytes 1 (sequenceNumber (btp_payload p)) ++
  opt_image 2 (messageLength (btp_payload p)) ++ default [] (segmentPayload (btp_payload p)).

(** The header flags describe the payload fields. *)
Definition consistent (p : BtpPacket) : bool :=
  let h := btp_header p in let q := btp_payload p in
  negb (isHandshakeRequest h) && negb (hasManagementOpcode h) &&
  eqb (hasAckNumber h) (is_some (ackNumber q)) &&
  eqb (isBeginningSegment h) (is_some (messageLength q)) &&
  negb (isBeginningSegment h && isContinuingSegment h) &&
  implb (isEndingSegment h) (isBeginningSegment h || isContinuingSegment h) &&
  implb (isBeginningSegment h || isContinuingSegment h) (negb (payload_empty (segmentPayload q))).

(** The numbers fit their fields. *)
Definition packet_fits (p : BtpPacket) : Prop :=
  let q := btp_payload p in
  opt_in (ackNumber q) 8 /\ 0 <= sequenceNumber q < 2 ^ 8 /\ opt_in (messageLength q) 16.

(** A decoded packet always has a segment payload, possibly an empty one. *)
Definition with_payload (p : BtpPacket) : BtpPacket :=
  let q := btp_payload p in
  mkBtpPacket (btp_header p) (mkPayload (ackNumber q) (sequenceNumber q) (messageLength q)
    (Some (default [] (segmentPayload q)))).

Lemma written_opt8 o w bs : Writer.written w bs ->
  Writer.written (write_opt Writer.writeUInt8 o w) (bs ++ opt_image 1 o).
Proof. apply written_opt. auto with writer. Qed.

Lemma written_segment o w bs : Writer.written w bs ->
  Writer.written (match o with Some b => Writer.writeByteArray b | None => fun w => w end w)
    (bs ++ default [] o).
Proof. destruct o; cbn; [auto with writer|by rewrite app_nil_r]. Qed.
#[local] Hint Resolve written_opt8 written_segment : writer.

Lemma encodeBtpPacket_cases p :
  encodeBtpPacket p = if consistent p then Ok (packet_image p) else Throw BtpProtocolError.
Proof.
  destruct p as [h q]. unfold encodeBtpPacket; cbn [btp_header btp_payload].
  assert (Hrun : Writer.run (fun writer => writer
    |> write_opt Writer.writeUInt8 (ackNumber q)
    |> Writer.writeUInt8 (sequenceNumber q)
    |> write_opt Writer.writeUInt16 (messageLength q)
    |> match segmentPayload q with Some bs => Writer.writeByteArray bs | None => fun w => w end)
    = Ok (opt_image 1 (ackNumber q) ++ le_bytes 1 (sequenceNumber q) ++
          opt_image 2 (messageLength q) ++ default [] (segmentPayload q))).
  { eapply run_written_eq; [eauto 20 with writer|by flatten_app]. }
  unfold encodeBtpPacketHeader, encodeBtpPacketPayload. rewrite Hrun.
  assert (Hh : Writer.run (Writer.writeUInt8 (header_bits h)) = Ok (le_bytes 1 (header_bits h))).
  { eapply run_written_eq; [eauto with writer|done]. }
  fold (header_bits h). rewrite Hh.
  unfold consistent, packet_image; cbn [btp_header btp_payload].
  destruct h as [hs mg ak en co be]; cbn [isHandshakeRequest hasManagementOpcode hasAckNumber
    isEndingSegment isContinuingSegment isBeginningSegment].
  destruct hs; [done|]. destruct mg; [done|]. cbn [orb throw_if rbind].
  destruct (payload_empty (segmentPayload q)), (is_some (ackNumber q)), (is_some (messageLength q)),
    ak, en, co, be; cbn [orb andb negb eqb implb throw_if rbind];
    first [done|by rewrite concat2_app].
Qed.

Lemma has_header_bits h :
  has (header_bits h) BtpHeaderBits.HandshakeBit = false /\
  has (header_bits h) BtpHeaderBits.ManagementMsg = false /\
  has (header_bits h) BtpHeaderBits.AckMsg = hasAckNumber h /\
  has (header_bits h) BtpHeaderBits.EndSegment = isEndingSegment h /\
  has (header_bits h) BtpHeaderBits.ContinuingSegment = isContinuingSegment h /\
  has (header_bits h) BtpHeaderBits.BeginSegment = isBeginningSegment h /\
  0 <= header_bits h < 2 ^ 8.
Proof.
  unfold header_bits. destruct (hasAckNumber h), (isEndingSegment h), (isContinuingSegment h),
    (isBeginningSegment h); cbn [flag]; by vm_compute.
Qed.

Lemma is_some_decide {A} (o : option A) : is_some o = bool_decide (is_Some o).
Proof. by destruct o. Qed.

Lemma decodeBtpPacket_image p :
  consistent p = true -> packet_fits p -> decodeBtpPacket (packet_image p) = Ok (with_payload p).
Proof.
  intros Hc (Ha & Hs & Hl). destruct p as [h q]; cbn [btp_header btp_payload] in *.
  unfold consistent in Hc; cbn [btp_header btp_payload] in Hc.
  rewrite !andb_true_iff, !negb_true_iff, !eqb_true_iff in Hc.
  destruct Hc as ((((((Hhs & Hmg) & Hak) & Hbe) & _) & _) & _).
  destruct (has_header_bits h) as (B1 & B2 & B3 & B4 & B5 & B6 & Hb).
  unfold decodeBtpPacket, decodeBtpPacketHeader, decodeBtpPacketPayload, packet_image.
  apply Reader.run_yields; cbn [btp_header btp_payload].
  eapply Reader.yields_bind.
  { rewrite <- (app_nil_r (le_bytes 1 _)).
    eapply Reader.reads_bind; [by apply (Reader.reads_unsigned 1)|].
    rewrite B1, B2, B3, B4, B5, B6. intros pre post. cbn. by rewrite app_nil_r. }
  intros pre. cbn [hasAckNumber isBeginningSegment]. rewrite Hak, Hbe, !is_some_decide.
  unfold Reader.bind at 1.
  assert (Hy : Reader.yields
    (let! ackNumber := Reader.optional (bool_decide (is_Some (ackNumber q))) Reader.readUInt8 in
     let! sequenceNumber := Reader.readUInt8 in
     let! messageLength := Reader.optional (bool_decide (is_Some (messageLength q))) Reader.readUInt16 in
     let! segmentPayload := Reader.rest in
     Reader.ret (mkPayload ackNumber sequenceNumber messageLength (Some segmentPayload)))
    (opt_image 1 (ackNumber q) ++ le_bytes 1 (sequenceNumber q) ++
     opt_image 2 (messageLength q) ++ default [] (segmentPayload q))
    (btp_payload (with_payload (mkBtpPacket h q)))).
  { eapply Reader.yields_bind; [by apply (reads_opt 1)|].
    eapply Reader.yields_bind; [by apply (Reader.reads_unsigned 1)|].
    eapply Reader.yields_bind; [by apply (reads_opt 2)|].
    apply Reader.yields_rest, Reader.yields_ret. }
  destruct (Hy pre) as [r ->]. cbn. eexists. unfold with_payload; cbn.
  rewrite <- !is_some_decide, <- Hak, <- Hbe.
  destruct h; cbn in *; subst; done.
Qed.

(** ** Handshake images *)

Definition versions_ok (vs : list Z) : Prop :=
  (1 <= length vs <= 8)%nat /\ Forall (fun v => 1 <= v < 16) vs.

Lemma nibbles_combine a b :
  0 <= a < 16 -> 0 <= b < 16 ->
  nibbles (js_or (js_shl b 4) a) = [a; b] /\ 0 <= js_or (js_shl b 4) a < 2 ^ 8.
Proof.
  intros Ha Hb.
  assert (H : forallb_below 16 (fun a => forallb_below 16 (fun b =>
    bool_decide (nibbles (js_or (js_shl b 4) a) = [a; b]) &&
    (0 <=? js_or (js_shl b 4) a) && (js_or (js_shl b 4) a <? 2 ^ 8))) = true)
    by (vm_compute; reflexivity).
  pose proof (forallb_below_spec _ _ (forallb_below_spec _ _ H a Ha) b Hb) as E.
  rewrite !andb_true_iff, bool_decide_eq_true, Z.leb_le, Z.ltb_lt in E. tauto.
Qed.

Lemma version_at_range vs i : versions_ok vs -> 0 <= version_at vs i < 16.
Proof.
  intros [_ H]. unfold version_at. destruct (vs !! i) as [v|] eqn:E; cbn; [|lia].
  pose proof (Forall_lookup_1 _ _ _ _ H E). cbn in *. lia.
Qed.

Lemma versions_filter vs :
  versions_ok vs ->
  List.filter (fun v => negb (v =? 0)) (map (version_at vs) [0; 1; 2; 3; 4; 5; 6; 7]%nat) = vs.
Proof.
  intros [Hl Hv].
  assert (Hf : forall l, Forall (fun v => 1 <= v < 16) l ->
            List.filter (fun v => negb (v =? 0)) l = l).
  { induction 1 as [|v l Hr _ IH]; [done|]. cbn.
    destruct (Z.eqb_spec v 0); [lia|]. cbn. by rewrite IH. }
  assert (He : exists k, map (version_at vs) [0; 1; 2; 3; 4; 5; 6; 7]%nat = vs ++ replicate k 0).
  { destruct vs as [|a [|b [|c [|d [|e [|f [|g [|h [|i vs]]]]]]]]]; cbn in Hl; try lia;
      unfold version_at; cbn; [by exists 7%nat|by exists 6%nat|by exists 5%nat|by exists 4%nat
        |by exists 3%nat|by exists 2%nat|by exists 1%nat|by exists 0%nat]. }
  destruct He as [k ->]. rewrite List.filter_app, Hf by done.
  assert (List.filter (fun v => negb (v =? 0)) (replicate k 0) = []) as ->
    by (induction k; done). apply app_nil_r.
Qed.

Lemma handshake_response_decodes r :
  0 <= version r < 16 -> 0 <= r_attMtu r < 2 ^ 16 -> 0 <= windowSize r < 2 ^ 8 ->
  (let* bs := encodeBtpHandshakeResponse r in decodeBtpHandshakeResponsePayload bs) = Ok r.
Proof.
  intros Hv Hm Hw.
  assert (E : forallb_below 16 (fun v => bool_decide (js_and v 0x0f = v)) = true)
    by (vm_compute; reflexivity).
  pose proof (forallb_below_spec _ _ E _ Hv) as Ev. apply bool_decide_eq_true in Ev.
  unfold encodeBtpHandshakeResponse. rewrite Ev.
  erewrite run_written_eq; [|eauto 20 with writer|by flatten_app]. cbn [rbind].
  apply Reader.run_yields.
  eapply Reader.yields_bind; [by apply (Reader.reads_unsigned 1)|].
  apply yields_throwing; [done|].
  eapply Reader.yields_bind; [by apply (Reader.reads_unsigned 1)|].
  apply yields_throwing; [done|].
  eapply Reader.yields_bind; [apply (Reader.reads_unsigned 1); cbn; lia|].
  eapply Reader.yields_bind; [by apply (Reader.reads_unsigned 2)|].
  eapply Reader.yields_last; [by apply (Reader.reads_unsigned 1)|].
  rewrite Ev. destruct r; apply Reader.yields_ret.
Qed.

(** ** Properties *)

(** [encodeBtpPacket] accepts exactly the packets whose header flags
    describe their payload, fails with [BtpProtocolError] otherwise, and what
    it produces decodes to the same packet (a missing segment payload comes
    back as an empty one). *)
Theorem btp_packet_roundtrip p :
  packet_fits p ->
  match encodeBtpPacket p with
  | Ok bs => consistent p = true /\ decodeBtpPacket bs = Ok (with_payload p)
  | Throw e => e = BtpProtocolError /\ consistent p = false
  end.
Proof.
  intros Hf. rewrite encodeBtpPacket_cases. destruct (consistent p) eqn:E; [|done].
  split; [done|]. by apply decodeBtpPacket_image.
Qed.

Lemma btp_packet_roundtrip_witness :
  let p := mkBtpPacket (mkBtpHeader false false true true false true)
             (mkPayload (Some 255) 7 (Some 3) (Some [1; 2; 3])) in
  exists bs, encodeBtpPacket p = Ok bs /\ decodeBtpPacket bs = Ok p.
Proof.
  cbn zeta. set (p := mkBtpPacket _ _).
  assert (Hf : packet_fits p) by (split_and!; cbn; try done; intros v Hv; simplify_eq; lia).
  pose proof (btp_packet_roundtrip p Hf) as H.
  destruct (encodeBtpPacket p) as [bs|e]; [|destruct H as [_ H]; vm_compute in H; discriminate].
  exists bs. split; [reflexivity|]. destruct H as [_ H]. exact H.
Defined.

(** the handshake request carries up to eight non-zero 4-bit versions,
    the MTU and the window size; decoding the encoded request returns them in
    the same order. *)
Theorem handshake_request_roundtrip r :
  versions_ok (versions r) -> 0 <= attMtu r < 2 ^ 16 -> 0 <= clientWindowSize r < 2 ^ 8 ->
  (let* bs := encodeBtpHandshakeRequest r in decodeBtpHandshakeRequest bs) = Ok r.
Proof.
  intros Hv Hm Hw. set (vs := versions r) in *.
  assert (Hb : forall i j, nibbles (version_byte vs j i) = [version_at vs i; version_at vs j] /\
                           0 <= version_byte vs j i < 2 ^ 8).
  { intros i j. apply nibbles_combine; by apply version_at_range. }
  unfold encodeBtpHandshakeRequest. fold vs.
  erewrite run_written_eq; [|eauto 20 with writer|by flatten_app]. cbn [rbind].
  unfold decodeBtpHandshakeRequest, decodeHandshakeRequestPayload.
  apply Reader.run_yields.
  eapply Reader.yields_bind; [by apply (Reader.reads_unsigned 1)|].
  eapply Reader.yields_bind; [by apply (Reader.reads_unsigned 1)|].
  eapply Reader.yields_bind; [apply (Reader.reads_unsigned 1), Hb|].
  do 2 (apply yields_throwing; [done|]).
  do 3 (eapply Reader.yields_bind; [apply (Reader.reads_unsigned 1), Hb|]).
  rewrite (proj1 (Hb 0%nat 1%nat)), (proj1 (Hb 2%nat 3%nat)), (proj1 (Hb 4%nat 5%nat)),
    (proj1 (Hb 6%nat 7%nat)).
  pose proof (versions_filter vs Hv) as Hf. cbn [map] in Hf. cbn [app]. rewrite Hf.
  apply yields_throwing; [destruct Hv as [Hl _]; destruct vs; [cbn in Hl; lia|done]|].
  eapply Reader.yields_bind; [by apply (Reader.reads_unsigned 2)|].
  eapply Reader.yields_last; [by apply (Reader.reads_unsigned 1)|].
  destruct r; apply Reader.yields_ret.
Qed.

Lemma handshake_request_roundtrip_witness :
  (let* bs := encodeBtpHandshakeRequest (mkRequest [4; 3; 2] 247 6) in
   decodeBtpHandshakeRequest bs) = Ok (mkRequest [4; 3; 2] 247 6).
Proof.
  apply handshake_request_roundtrip; cbn; [split; [cbn; lia|]|lia|lia].
  repeat constructor; lia.
Defined.

Lemma expect_byte_reads b : 0 <= b < 2 ^ 8 -> Reader.reads (expect_byte b) (le_bytes 1 b) tt.
Proof.
  intros Hb. unfold expect_byte. rewrite <- (app_nil_r (le_bytes 1 b)).
  eapply Reader.reads_bind; [by apply (Reader.reads_unsigned 1)|].
  rewrite Z.eqb_refl. apply (Reader.reads_ret tt).
Qed.

(** the advertisement payload round-trips, except that the flags byte is
    read back as a whole: an extended announcement is always reported as
    having additional advertisement data. *)
Theorem advertisement_roundtrip a extended :
  0 <= discriminator a < 2 ^ 16 -> 0 <= vendorId a < 2 ^ 16 -> 0 <= productId a < 2 ^ 16 ->
  (let* bs := encodeBleAdvertisementData a extended in decodeBleAdvertisementData bs) =
  Ok (mkAdvertisement (discriminator a) (if extended then 0 else vendorId a)
        (if extended then 0 else productId a) (hasAdditionalAdvertisementData a || extended)).
Proof.
  intros Hd Hv Hp. unfold encodeBleAdvertisementData.
  erewrite run_written_eq; [|eauto 20 with writer|by flatten_app]. cbn [rbind].
  unfold decodeBleAdvertisementData.
  erewrite Reader.run_yields; cbn [rbind].
  2: { do 5 (eapply Reader.yields_bind; [by apply expect_byte_reads|]).
       eapply Reader.yields_bind; [by apply (Reader.reads_unsigned 2)|].
       apply yields_throwing; [done|].
       intros pre. eexists. unfold Reader.rest. by rewrite Reader.remainingBytes_at. }
  apply Reader.run_yields.
  eapply Reader.yields_bind; [by apply (Reader.reads_unsigned 1)|].
  apply yields_throwing; [done|].
  eapply Reader.yields_bind; [by apply (Reader.reads_unsigned 2)|].
  eapply Reader.yields_bind; [apply (Reader.reads_unsigned 2); destruct extended; done|].
  eapply Reader.yields_bind; [apply (Reader.reads_unsigned 2); destruct extended; done|].
  eapply Reader.yields_last.
  { apply (Reader.reads_unsigned 1). by destruct (hasAdditionalAdvertisementData a), extended. }
  destruct (hasAdditionalAdvertisementData a), extended; apply Reader.yields_ret.
Qed.

Lemma advertisement_roundtrip_witness :
  (let* bs := encodeBleAdvertisementData (mkAdvertisement 3840 0xfff1 0x8000 false) true in
   decodeBleAdvertisementData bs) = Ok (mkAdvertisement 3840 0 0 true).
Proof. apply (advertisement_roundtrip (mkAdvertisement 3840 0xfff1 0x8000 false) true); cbn; lia. Defined.
