(* ===== verification/BtpSession.v ===== *)
(** * The BTP session handler

    Models src/packages/protocol/src/ble/BtpSessionHandler.ts (and the
    constants of ble/BleConsts.ts).  The JavaScript runtime interleaves the
    asynchronous handlers at their [await]s; the model keeps that: every
    function below is the code between two [await]s, a write to the transport
    suspends its caller ([writes]), a delivery to the upper layer suspends the
    incoming handler ([deliveries]), and [step] resumes whichever the
    environment completes next. *)

From S2P Require Import Prelude DataIO CodecLib BtpCodec.

Module MatterBle.
Definition MINIMUM_ATT_MTU : Z := 20.
Definition MAXIMUM_BTP_MTU : Z := 244.
Definition BTP_MAXIMUM_WINDOW_SIZE : Z := 255.
Definition BTP_WINDOW_NO_ACK_SEND_THRESHOLD : Z := 1.
Definition BTP_IMMEDIATE_ACK_WINDOW_THRESHOLD : Z := 2.
Definition BTP_SUPPORTED_VERSIONS : list Z := [4].

Definition btpSegmentSizeFromAttMtu (attMtu : Z) : Z :=
  let segmentSize := attMtu - 3 in
  if segmentSize <? MINIMUM_ATT_MTU then MINIMUM_ATT_MTU
  else if MAXIMUM_BTP_MTU <? segmentSize then MAXIMUM_BTP_MTU
  else segmentSize.
End MatterBle.

Definition MAXIMUM_SEQUENCE_NUMBER : Z := 255.

(** ** State *)

Inductive Role := Central | Peripheral.

#[global] Instance Role_eq_dec : EqDecision Role.
Proof. solve_decision. Defined.

(** The readonly members. *)
Record Config := mkConfig {
  role : Role;
  fragmentSize : Z;
  windowLimit : Z;
}.

(** What runs after a suspended send: nothing ([sendMatterMessage] and the
    timers), the rest of the incoming handler, or only its [catch]. *)
Inductive After := Detached | ThenAckIfLow | HandlerEnd.

(** A write in flight, with the locals its continuation needs. *)
Inductive Suspended :=
| WritingData (isEnding : bool) (previousAckedSequenceNumber : Z) (after : After)
| WritingAck (previousAckedSequenceNumber : Z) (after : After).

(** The members, then what is suspended: writes, deliveries to the exchange
    manager, and the disconnect callback with the error its caller rethrows. *)
Record Session := mkSession {
  currentIncomingSegmentedMsgLength : option Z;
  currentIncomingSegmentedPayload : option (list Z);
  prevIncomingSequenceNumber : Z;
  prevIncomingAckNumber : Z;
  ackReceiveTimer : bool;
  sequenceNumber : Z;
  prevAckedSequenceNumber : Z;
  queuedOutgoingMatterMessages : list Reader.DataReader;
  sendInProgress : bool;
  sendAckTimer : bool;
  isActive : bool;
  idleTimeout : bool;
  writes : list Suspended;
  deliveries : nat;
  disconnecting : option (option MatterError);
}.

Definition set_incoming (len : option Z) (payload : option (list Z)) (s : Session) : Session :=
  mkSession len payload (prevIncomingSequenceNumber s) (prevIncomingAckNumber s)
    (ackReceiveTimer s) (sequenceNumber s) (prevAckedSequenceNumber s)
    (queuedOutgoingMatterMessages s) (sendInProgress s) (sendAckTimer s) (isActive s)
    (idleTimeout s) (writes s) (deliveries s) (disconnecting s).
Definition set_prevIncomingSequenceNumber (n : Z) (s : Session) : Session :=
  mkSession (currentIncomingSegmentedMsgLength s) (currentIncomingSegmentedPayload s) n
    (prevIncomingAckNumber s) (ackReceiveTimer s) (sequenceNumber s) (prevAckedSequenceNumber s)
    (queuedOutgoingMatterMessages s) (sendInProgress s) (sendAckTimer s) (isActive s)
    (idleTimeout s) (writes s) (deliveries s) (disconnecting s).
Definition set_prevIncomingAckNumber (n : Z) (s : Session) : Session :=
  mkSession (currentIncomingSegmentedMsgLength s) (currentIncomingSegmentedPayload s)
    (prevIncomingSequenceNumber s) n (ackReceiveTimer s) (sequenceNumber s)
    (prevAckedSequenceNumber s) (queuedOutgoingMatterMessages s) (sendInProgress s)
    (sendAckTimer s) (isActive s) (idleTimeout s) (writes s) (deliveries s) (disconnecting s).
Definition set_timers (ackReceive sendAck idle : bool) (s : Session) : Session :=
  mkSession (currentIncomingSegmentedMsgLength s) (currentIncomingSegmentedPayload s)
    (prevIncomingSequenceNumber s) (prevIncomingAckNumber s) ackReceive (sequenceNumber s)
    (prevAckedSequenceNumber s) (queuedOutgoingMatterMessages s) (sendInProgress s)
    sendAck (isActive s) idle (writes s) (deliveries s) (disconnecting s).
Definition set_sequenceNumber (n : Z) (s : Session) : Session :=
  mkSession (currentIncomingSegmentedMsgLength s) (currentIncomingSegmentedPayload s)
    (prevIncomingSequenceNumber s) (prevIncomingAckNumber s) (ackReceiveTimer s) n
    (prevAckedSequenceNumber s) (queuedOutgoingMatterMessages s) (sendInProgress s)
    (sendAckTimer s) (isActive s) (idleTimeout s) (writes s) (deliveries s) (disconnecting s).
Definition set_prevAckedSequenceNumber (n : Z) (s : Session) : Session :=
  mkSession (currentIncomingSegmentedMsgLength s) (currentIncomingSegmentedPayload s)
    (prevIncomingSequenceNumber s) (prevIncomingAckNumber s) (ackReceiveTimer s)
    (sequenceNumber s) n (queuedOutgoingMatterMessages s) (sendInProgress s)
    (sendAckTimer s) (isActive s) (idleTimeout s) (writes s) (deliveries s) (disconnecting s).
Definition set_queue (q : list Reader.DataReader) (s : Session) : Session :=
  mkSession (currentIncomingSegmentedMsgLength s) (currentIncomingSegmentedPayload s)
    (prevIncomingSequenceNumber s) (prevIncomingAckNumber s) (ackReceiveTimer s)
    (sequenceNumber s) (prevAckedSequenceNumber s) q (sendInProgress s)
    (sendAckTimer s) (isActive s) (idleTimeout s) (writes s) (deliveries s) (disconnecting s).
Definition set_sendInProgress (b : bool) (s : Session) : Session :=
  mkSession (currentIncomingSegmentedMsgLength s) (currentIncomingSegmentedPayload s)
    (prevIncomingSequenceNumber s) (prevIncomingAckNumber s) (ackReceiveTimer s)
    (sequenceNumber s) (prevAckedSequenceNumber s) (queuedOutgoingMatterMessages s) b
    (sendAckTimer s) (isActive s) (idleTimeout s) (writes s) (deliveries s) (disconnecting s).
Definition set_isActive (b : bool) (s : Session) : Session :=
  mkSession (currentIncomingSegmentedMsgLength s) (currentIncomingSegmentedPayload s)
    (prevIncomingSequenceNumber s) (prevIncomingAckNumber s) (ackReceiveTimer s)
    (sequenceNumber s) (prevAckedSequenceNumber s) (queuedOutgoingMatterMessages s)
    (sendInProgress s) (sendAckTimer s) b (idleTimeout s) (writes s) (deliveries s) (disconnecting s).
Definition set_suspended (w : list Suspended) (d : nat) (s : Session) : Session :=
  mkSession (currentIncomingSegmentedMsgLength s) (currentIncomingSegmentedPayload s)
    (prevIncomingSequenceNumber s) (prevIncomingAckNumber s) (ackReceiveTimer s)
    (sequenceNumber s) (prevAckedSequenceNumber s) (queuedOutgoingMatterMessages s)
    (sendInProgress s) (sendAckTimer s) (isActive s) (idleTimeout s) w d
    (disconnecting s).
Definition set_disconnecting (d : option (option MatterError)) (s : Session) : Session :=
  mkSession (currentIncomingSegmentedMsgLength s) (currentIncomingSegmentedPayload s)
    (prevIncomingSequenceNumber s) (prevIncomingAckNumber s) (ackReceiveTimer s)
    (sequenceNumber s) (prevAckedSequenceNumber s) (queuedOutgoingMatterMessages s)
    (sendInProgress s) (sendAckTimer s) (isActive s) (idleTimeout s) (writes s) (deliveries s) d.

(** ** The effect monad

    State, effects on the outside and exceptions; as in JavaScript, the state
    changes made before a [throw] stay. *)

Inductive Effect :=
| EWrite (packet : list Z)
| EDeliver (message : list Z)
| EDisconnect
| EClosed.

Definition M (A : Type) : Type := Session -> Session * list Effect * result A.

Definition mret {A} (a : A) : M A := fun s => (s, [], Ok a).
Definition mthrow {A} (e : MatterError) : M A := fun s => (s, [], Throw e).
Definition mlift {A} (r : result A) : M A := fun s => (s, [], r).
Definition mget : M Session := fun s => (s, [], Ok s).
Definition mset (f : Session -> Session) : M unit := fun s => (f s, [], Ok tt).
Definition memit (e : Effect) : M unit := fun s => (s, [e], Ok tt).
Definition mbind {A B} (m : M A) (k : A -> M B) : M B := fun s =>
  match m s with
  | (s1, e1, Ok a) => match k a s1 with (s2, e2, r) => (s2, e1 ++ e2, r) end
  | (s1, e1, Throw e) => (s1, e1, Throw e)
  end.
(** [try { m } catch (error) { h(error) }] and [try { m } finally { f }] on
    the exceptional path. *)
Definition mcatch {A} (m : M A) (h : MatterError -> M A) : M A := fun s =>
  match m s with
  | (s1, e1, Throw e) => match h e s1 with (s2, e2, r) => (s2, e1 ++ e2, r) end
  | r => r
  end.
Definition monthrow {A} (m : M A) (f : Session -> Session) : M A := fun s =>
  match m s with
  | (s1, e1, Throw e) => (f s1, e1, Throw e)
  | r => r
  end.

Notation "'let%' x := m 'in' k" := (mbind m (fun x => k))
  (at level 10, x pattern, m at level 100, k at level 200) : matter_scope.

Definition mthrow_if (c : bool) (e : MatterError) : M unit := mlift (throw_if c e).

(** ** Sequence numbers and windows *)

(** JavaScript's [%] truncates: the sign follows the dividend. *)
Definition modularDistance (from to : Z) : Z := Z.rem (Z.rem (to - from) 256 + 256) 256.

Definition getNextSequenceNumber : M Z :=
  let% s := mget in
  let n := sequenceNumber s + 1 in
  let n := if MAXIMUM_SEQUENCE_NUMBER <? n then 0 else n in
  let% _ := mset (set_sequenceNumber n) in
  mret n.

Section Handler.
Variable cfg : Config.

Definition remoteWindowFreeSlots (s : Session) : Z :=
  windowLimit cfg - modularDistance (prevIncomingAckNumber s) (sequenceNumber s).

Definition localWindowFreeSlots (s : Session) : Z :=
  windowLimit cfg - modularDistance (prevAckedSequenceNumber s) (prevIncomingSequenceNumber s).

Definition canSend (s : Session) (carriesAck : bool) : bool :=
  let free := remoteWindowFreeSlots s in
  if free <=? 0 then false
  else if (free <=? MatterBle.BTP_WINDOW_NO_ACK_SEND_THRESHOLD) && negb carriesAck then false
  else true.

(** ** Closing *)

(** [close], up to the awaited disconnect callback; afterwards the caller
    rethrows [rethrow]. *)
Definition close (rethrow : option MatterError) : M unit :=
  let% _ := mset (set_timers false false false) in
  let% s := mget in
  if isActive s then
    let% _ := mset (set_isActive false) in
    let% _ := memit EDisconnect in
    mset (set_disconnecting (Some rethrow))
  else match rethrow with Some e => mthrow e | None => mret tt end.

(** The callback settles: the [finally] announces the close. *)
Definition disconnected (r : result unit) : M unit :=
  let% s := mget in
  match disconnecting s with
  | None => mret tt
  | Some rethrow =>
      let% _ := mset (set_disconnecting None) in
      let% _ := memit EClosed in
      let% _ := mlift r in
      match rethrow with Some e => mthrow e | None => mret tt end
  end.

(** ** Sending

    The functions below return whether they suspended in a write. *)

Definition suspend (w : Suspended) : M bool :=
  let% _ := mset (fun s => set_suspended (writes s ++ [w]) (deliveries s) s) in mret true.

Definition ackPacket (ack seq : Z) : BtpPacket :=
  mkBtpPacket (mkBtpHeader false false true false false false) (mkPayload (Some ack) seq None None).

(** [sendStandaloneAck], up to its write. *)
Definition sendStandaloneAck (after : After) : M bool :=
  let% s := mget in
  if sendInProgress s then mret false
  else
    let ackNumberToSend := prevIncomingSequenceNumber s in
    if ackNumberToSend =? prevAckedSequenceNumber s then mret false
    else if negb (canSend s true) then mret false
    else
      let% _ := mset (set_sendInProgress true) in
      monthrow
        (let% seq := getNextSequenceNumber in
         let% packet := mlift (encodeBtpPacket (ackPacket ackNumberToSend seq)) in
         let% s := mget in
         let previous := prevAckedSequenceNumber s in
         let% _ := mset (set_prevAckedSequenceNumber ackNumberToSend) in
         let% _ := memit (EWrite packet) in
         suspend (WritingAck previous after))
        (set_sendInProgress false).

(** [queuedOutgoingMatterMessages[0].readByteArray(length)]: the reader in
    the queue advances. *)
Definition readHead (length : Z) : M (list Z) :=
  let% s := mget in
  match queuedOutgoingMatterMessages s with
  | [] => mthrow TypeError
  | cur :: rest =>
      match Reader.readByteArray length cur with
      | Throw e => mthrow e
      | Ok (bs, cur) => let% _ := mset (set_queue (cur :: rest)) in mret bs
      end
  end.

(** The header length of the next fragment, and the fragment itself. *)
Definition btpHeaderLength (isBeginning hasAck : bool) : Z :=
  2 + (if isBeginning then 2 else 0) + (if hasAck then 1 else 0).

Definition dataPacket (ack : option Z) (seq : Z) (isBeginning isEnding : bool) (remaining : Z)
  (segment : list Z) : BtpPacket :=
  mkBtpPacket
    (mkBtpHeader false false (is_some ack) isEnding (negb isBeginning) isBeginning)
    (mkPayload ack seq (if isBeginning then Some remaining else None) (Some segment)).

(** The code after the loop of [processSendQueue]. *)
Definition finishSendQueue (after : After) : M bool :=
  let% _ := mset (set_sendInProgress false) in
  sendStandaloneAck after.

(** One turn of the loop of [processSendQueue], up to its write. *)
Definition sendLoop (after : After) : M bool :=
  let% s := mget in
  match queuedOutgoingMatterMessages s with
  | [] => finishSendQueue after
  | cur :: _ =>
      let hasAck := negb (prevIncomingSequenceNumber s =? prevAckedSequenceNumber s) in
      if negb (canSend s hasAck) then finishSendQueue after
      else
        let% _ := mset (fun s => if hasAck
          then set_timers (ackReceiveTimer s) false (idleTimeout s) s else s) in
        let remaining := Reader.remainingBytesCount cur in
        let isBeginning := remaining =? Reader.length cur in
        let headerLength := btpHeaderLength isBeginning hasAck in
        let isEnding := remaining <=? fragmentSize cfg - headerLength in
        let% segment := readHead (Z.min (fragmentSize cfg - headerLength) remaining) in
        let ackNumberToSend := if hasAck then Some (prevIncomingSequenceNumber s) else None in
        let% seq := getNextSequenceNumber in
        let% packet := mlift (encodeBtpPacket
          (dataPacket ackNumberToSend seq isBeginning isEnding remaining segment)) in
        let previous := prevAckedSequenceNumber s in
        let% _ := mset (fun s => match ackNumberToSend with
          | Some a => set_prevAckedSequenceNumber a s | None => s end) in
        let% _ := memit (EWrite packet) in
        suspend (WritingData isEnding previous after)
  end.

Definition processSendQueue (after : After) : M bool :=
  let% s := mget in
  if sendInProgress s then mret false
  else match queuedOutgoingMatterMessages s with
  | [] => mret false
  | _ => let% _ := mset (set_sendInProgress true) in sendLoop after
  end.

Definition sendImmediateAckIfWindowLow : M bool :=
  let% s := mget in
  if match queuedOutgoingMatterMessages s with [] => false | _ => true end || sendInProgress s
  then mret false
  else if MatterBle.BTP_IMMEDIATE_ACK_WINDOW_THRESHOLD <? localWindowFreeSlots s then mret false
  else sendStandaloneAck HandlerEnd.

(** What follows a completed [await this.processSendQueue()]. *)
Definition continue (after : After) (suspended : bool) : M unit :=
  match after with
  | ThenAckIfLow =>
      if suspended then mret tt
      else let% _ := sendImmediateAckIfWindowLow in mret tt
  | _ => mret tt
  end.

(** The [catch] of [handleIncomingBleData], for code that runs inside it. *)
Definition catching (after : After) (m : M unit) : M unit :=
  match after with
  | Detached => m
  | _ => mcatch m (fun e =>
      close (if decide (e = BtpProtocolError) then None else Some e))
  end.

Definition sendMatterMessage (data : list Z) : M unit :=
  let% s := mget in
  let% _ := mthrow_if (negb (isActive s)) BtpFlowError in
  let% _ := mthrow_if (byteLength data =? 0) BtpFlowError in
  let% _ := mset (fun s => set_queue (queuedOutgoingMatterMessages s ++ [Reader.new data true]) s) in
  let% _ := processSendQueue Detached in
  mret tt.

(** How the transport settles a write. *)
Inductive WriteOutcome := Written | Disconnected | WriteError (e : MatterError).

Definition startAckReceiveTimer (s : Session) : Session :=
  if ackReceiveTimer s then s else set_timers true (sendAckTimer s) (idleTimeout s) s.

(** The code after the write of a data packet. *)
Definition resumeData (isEnding : bool) (previous : Z) (after : After) (o : WriteOutcome) : M bool :=
  match o with
  | Written =>
      let% _ := mset startAckReceiveTimer in
      let% _ := mset (fun s => if decide (role cfg = Central)
        then set_timers (ackReceiveTimer s) (sendAckTimer s) true s else s) in
      let% _ := mset (fun s => if isEnding
        then set_queue (tail (queuedOutgoingMatterMessages s)) s else s) in
      sendLoop after
  | Disconnected | WriteError _ =>
      let% _ := mset (fun s => set_sendInProgress false (set_queue []
        (set_prevAckedSequenceNumber previous s))) in
      match o with WriteError e => mthrow e | _ => mret false end
  end.

(** The code after the write of a stand-alone acknowledgement. *)
Definition resumeAck (previous : Z) (after : After) (o : WriteOutcome) : M bool :=
  match o with
  | Written =>
      let% _ := mset (fun s => startAckReceiveTimer
        (set_timers (ackReceiveTimer s) false (idleTimeout s) s)) in
      let% _ := mset (set_sendInProgress false) in
      processSendQueue after
  | Disconnected | WriteError _ =>
      let% _ := mset (fun s => set_sendInProgress false (set_prevAckedSequenceNumber previous s)) in
      match o with WriteError e => mthrow e | _ => mret false end
  end.

Definition after_of (w : Suspended) : After :=
  match w with WritingData _ _ a | WritingAck _ a => a end.

Definition resume (w : Suspended) (o : WriteOutcome) : M unit :=
  catching (after_of w)
    (let% suspended := match w with
      | WritingData isEnding previous after => resumeData isEnding previous after o
      | WritingAck previous after => resumeAck previous after o
      end in
     continue (after_of w) suspended).

(** ** Receiving *)

(** The rest of the incoming handler, after the delivery (if any). *)
Definition handlerRest : M unit :=
  let% suspended := processSendQueue ThenAckIfLow in
  continue ThenAckIfLow suspended.

(** Validate and apply a received acknowledgement. *)
Definition processAck (ackNumber : Z) : M unit :=
  let% s := mget in
  let outstanding := modularDistance (prevIncomingAckNumber s) (sequenceNumber s) in
  let% _ := mthrow_if (outstanding <? modularDistance (prevIncomingAckNumber s) ackNumber)
              BtpProtocolError in
  let% _ := mset (fun s => set_timers false (sendAckTimer s) (idleTimeout s) s) in
  let% _ := mset (set_prevIncomingAckNumber ackNumber) in
  mset (fun s => if negb (ackNumber =? sequenceNumber s)
    then set_timers true (sendAckTimer s) (idleTimeout s) s else s).

(** Set or extend the message under reassembly. *)
Definition addSegment (h : BtpHeader) (messageLength : option Z) (segmentPayload : list Z) : M unit :=
  let% s := mget in
  if isBeginningSegment h then
    match currentIncomingSegmentedPayload s with
    | Some _ => mthrow BtpProtocolError
    | None => mset (set_incoming messageLength (Some segmentPayload))
    end
  else if isContinuingSegment h || isEndingSegment h then
    match currentIncomingSegmentedPayload s with
    | None => mthrow BtpProtocolError
    | Some current =>
        let% _ := mthrow_if (byteLength segmentPayload =? 0) BtpProtocolError in
        let reassembledLength := byteLength current + byteLength segmentPayload in
        let% _ := mthrow_if match currentIncomingSegmentedMsgLength s with
          | Some len => len <? reassembledLength | None => false end BtpProtocolError in
        let% joined := mlift (concat2 current segmentPayload) in
        mset (set_incoming (currentIncomingSegmentedMsgLength s) (Some joined))
    end
  else mret tt.

(** On the ending segment, the complete message. *)
Definition takeMessage : M (list Z) :=
  let% s := mget in
  match currentIncomingSegmentedMsgLength s, currentIncomingSegmentedPayload s with
  | Some len, Some payload =>
      let% _ := mthrow_if (negb (byteLength payload =? len)) BtpProtocolError in
      let% _ := mset (set_incoming None None) in
      mret payload
  | _, _ => mthrow BtpProtocolError
  end.

(** The [try] body up to the delivery, or to the end. *)
Definition handlePacket (data : list Z) : M unit :=
  let% _ := mthrow_if ((fragmentSize cfg <? byteLength data) &&
                       (fragmentSize cfg + 3 <? byteLength data)) BtpProtocolError in
  let% packet := mlift (decodeBtpPacket data) in
  let h := btp_header packet in
  let p := btp_payload packet in
  let segment := default [] (segmentPayload p) in
  let% _ := mthrow_if (isHandshakeRequest h || hasManagementOpcode h) BtpProtocolError in
  let% _ := mthrow_if ((byteLength segment =? 0) && negb (hasAckNumber h)) BtpProtocolError in
  let% s := mget in
  let% _ := mthrow_if (negb (BtpCodec.sequenceNumber p =?
                             Z.rem (prevIncomingSequenceNumber s + 1) 256)) BtpProtocolError in
  let% _ := mset (set_prevIncomingSequenceNumber (BtpCodec.sequenceNumber p)) in
  let% _ := mset (fun s => if sendAckTimer s then s
                           else set_timers (ackReceiveTimer s) true (idleTimeout s) s) in
  let% _ := match ackNumber p with
            | Some a => if hasAckNumber h then processAck a else mret tt
            | None => mret tt
            end in
  let% _ := addSegment h (messageLength p) segment in
  if isEndingSegment h then
    let% message := takeMessage in
    let% _ := memit (EDeliver message) in
    mset (fun s => set_suspended (writes s) (S (deliveries s)) s)
  else handlerRest.

Definition handleIncomingBleData (data : list Z) : M unit :=
  let% s := mget in
  if negb (isActive s) then mret tt
  else catching ThenAckIfLow (handlePacket data).

(** ** Timers *)

Definition btpSendAckTimeoutTriggered : M unit :=
  let% _ := mset (fun s => set_timers (ackReceiveTimer s) false (idleTimeout s) s) in
  let% s := mget in
  if negb (isActive s) then mret tt
  else let% _ := sendStandaloneAck Detached in mret tt.

Definition btpAckTimeoutTriggered : M unit :=
  let% _ := mset (fun s => set_timers false (sendAckTimer s) (idleTimeout s) s) in
  let% s := mget in
  if negb (prevIncomingAckNumber s =? sequenceNumber s) then close None else mret tt.

(** ** The session as a state machine *)

Inductive Input :=
| AppSend (data : list Z)
| BleData (data : list Z)
| DeliveryDone (r : result unit)
| WriteDone (i : nat) (o : WriteOutcome)
| SendAckTimeout
| AckTimeout
| IdleTimeout
| Close
| DisconnectDone (r : result unit).

Definition step (i : Input) : M unit :=
  match i with
  | AppSend data => sendMatterMessage data
  | BleData data => handleIncomingBleData data
  | DeliveryDone r =>
      let% s := mget in
      match deliveries s with
      | O => mret tt
      | S d =>
          let% _ := mset (set_suspended (writes s) d) in
          catching ThenAckIfLow (match r with Ok _ => handlerRest | Throw e => mthrow e end)
      end
  | WriteDone i o =>
      let% s := mget in
      match writes s !! i with
      | None => mret tt
      | Some w =>
          let% _ := mset (set_suspended (delete i (writes s)) (deliveries s)) in
          resume w o
      end
  | SendAckTimeout => btpSendAckTimeoutTriggered
  | AckTimeout => btpAckTimeoutTriggered
  | IdleTimeout => close None
  | Close => close None
  | DisconnectDone r => disconnected r
  end.

End Handler.

(** ** Creation *)

Definition newSession (role : Role) (btpVersion : Z) : result Session :=
  if negb (btpVersion =? 4) then Throw BtpProtocolError
  else Ok match role with
  | Peripheral =>
      mkSession None None 255 (-1) false 0 255 [] false false true false [] 0 None
  | Central =>
      mkSession None None 0 (-1) false (-1) (-1) [] false true true false [] 0 None
  end.

(** [createFromHandshakeRequest]: the effects, and the session with its
    configuration; [written] and [disconnect] are how the handshake response
    write and the disconnect callback settle. *)
Definition createFromHandshakeRequest (maxDataSize : option Z) (handshakeRequestPayload : list Z)
  (written : result unit) (disconnect : result unit)
  : list Effect * result (Config * Session) :=
  match decodeBtpHandshakeRequest handshakeRequestPayload with
  | Throw e => ([], Throw e)
  | Ok request =>
      match List.find (fun v => existsb (Z.eqb v) (versions request))
              MatterBle.BTP_SUPPORTED_VERSIONS with
      | None => ([EDisconnect], match disconnect with Ok _ => Throw BtpProtocolError | Throw e => Throw e end)
      | Some version =>
          let handshakeMtu := attMtu request in
          let attMtu :=
            match maxDataSize with
            | None => MatterBle.MINIMUM_ATT_MTU
            | Some max =>
                if MatterBle.MINIMUM_ATT_MTU <? max then
                  if handshakeMtu <=? MatterBle.MINIMUM_ATT_MTU
                  then Z.min max MatterBle.MAXIMUM_BTP_MTU
                  else Z.min (Z.min handshakeMtu max) MatterBle.MAXIMUM_BTP_MTU
                else MatterBle.MINIMUM_ATT_MTU
            end in
          let windowSize := Z.min MatterBle.BTP_MAXIMUM_WINDOW_SIZE (clientWindowSize request) in
          match encodeBtpHandshakeResponse (mkResponse version attMtu windowSize) with
          | Throw e => ([], Throw e)
          | Ok response =>
              match newSession Peripheral version with
              | Throw e => ([], Throw e)
              | Ok s => ([EWrite response],
                  let* _ := written in
                  Ok (mkConfig Peripheral attMtu windowSize,
                      set_timers true (sendAckTimer s) (idleTimeout s) s))
              end
          end
      end
  end.

Definition createAsCentral (handshakeResponsePayload : list Z) : result (Config * Session) :=
  let* response := decodeBtpHandshakeResponsePayload handshakeResponsePayload in
  let fragmentSize := Z.min (r_attMtu response) MatterBle.MAXIMUM_BTP_MTU in
  let* s := newSession Central (version response) in
  Ok (mkConfig Central fragmentSize (windowSize response), s).

(** ** Sequence arithmetic *)

Lemma modularDistance_mod from to : modularDistance from to = (to - from) mod 256.
Proof.
  unfold modularDistance. set (x := to - from).
  pose proof (Z.rem_bound_abs x 256 ltac:(lia)) as Hb.
  rewrite Z.rem_mod_nonneg by lia.
  rewrite (Z.quot_rem x 256) at 2 by lia.
  replace (256 * Z.quot x 256 + Z.rem x 256) with (Z.rem x 256 + 256 + (Z.quot x 256 - 1) * 256) by lia.
  by rewrite Z.mod_add by lia.
Qed.

(** The sequence number after [n], as [getNextSequenceNumber] computes it. *)
Definition next (n : Z) : Z := if MAXIMUM_SEQUENCE_NUMBER <? n + 1 then 0 else n + 1.

Lemma next_mod n : -1 <= n <= 255 -> next n = (n + 1) mod 256.
Proof.
  intros Hn. unfold next, MAXIMUM_SEQUENCE_NUMBER. destruct (Z.ltb_spec 255 (n + 1)).
  - replace (n + 1) with 256 by lia. done.
  - rewrite Z.mod_small; lia.
Qed.

Lemma getNextSequenceNumber_eq s :
  getNextSequenceNumber s = (set_sequenceNumber (next (sequenceNumber s)) s, [], Ok (next (sequenceNumber s))).
Proof. done. Qed.

(** ** What a sending segment does *)

(** The fields no sending code touches. *)
Definition same_rest (s s' : Session) : Prop :=
  currentIncomingSegmentedMsgLength s' = currentIncomingSegmentedMsgLength s /\
  currentIncomingSegmentedPayload s' = currentIncomingSegmentedPayload s /\
  prevIncomingSequenceNumber s' = prevIncomingSequenceNumber s /\
  prevIncomingAckNumber s' = prevIncomingAckNumber s /\
  isActive s' = isActive s /\ deliveries s' = deliveries s.

(** Nothing was sent. *)
Definition quiet (s s' : Session) : Prop :=
  same_rest s s' /\ sequenceNumber s' = sequenceNumber s /\
  prevAckedSequenceNumber s' = prevAckedSequenceNumber s /\
  queuedOutgoingMatterMessages s' = queuedOutgoingMatterMessages s /\ writes s' = writes s.

Definition pendingAck (s : Session) : option Z :=
  if prevIncomingSequenceNumber s =? prevAckedSequenceNumber s then None
  else Some (prevIncomingSequenceNumber s).

(** One packet was sent: it has the next sequence number and carries the
    pending acknowledgement, the window had room for it, and it is either a
    stand-alone acknowledgement or the next fragment of the queue's head. *)
Record sent (cfg : Config) (after : After) (s s' : Session) (p : BtpPacket) : Prop := {
  sent_rest : same_rest s s';
  sent_room : canSend cfg s (is_some (pendingAck s)) = true;
  sent_ack : ackNumber (btp_payload p) = pendingAck s;
  sent_seq : BtpCodec.sequenceNumber (btp_payload p) = next (sequenceNumber s);
  sent_seq' : sequenceNumber s' = next (sequenceNumber s);
  sent_acked : prevAckedSequenceNumber s' = prevIncomingSequenceNumber s;
  sent_lock : sendInProgress s' = true;
  sent_consistent : consistent p = true;
  sent_kind :
    (p = ackPacket (prevIncomingSequenceNumber s) (next (sequenceNumber s)) /\
     queuedOutgoingMatterMessages s' = queuedOutgoingMatterMessages s /\
     writes s' = writes s ++ [WritingAck (prevAckedSequenceNumber s) after]) \/
    (exists cur rest n,
       let ending := Reader.remainingBytesCount cur <=? n in
       let beginning := Reader.remainingBytesCount cur =? Reader.length cur in
       n = fragmentSize cfg - btpHeaderLength beginning (is_some (pendingAck s)) /\ 0 < n /\
       queuedOutgoingMatterMessages s = cur :: rest /\
       p = dataPacket (pendingAck s) (next (sequenceNumber s)) beginning ending
             (Reader.remainingBytesCount cur)
             (Reader.subarray (Reader.buffer cur) (Reader.offset cur)
                (Z.min n (Reader.remainingBytesCount cur))) /\
       queuedOutgoingMatterMessages s' =
         Reader.mkReader (Reader.littleEndian cur) (Reader.buffer cur)
           (Reader.offset cur + Z.min n (Reader.remainingBytesCount cur)) :: rest /\
       writes s' = writes s ++ [WritingData ending (prevAckedSequenceNumber s) after]);
}.

(** The outcome of a sending segment that does not fail: quiet, with the send
    lock in the given state, or one packet. *)
Definition outcome (cfg : Config) (after : After) (lock : bool) (s : Session)
  (r : Session * list Effect * result bool) : Prop :=
  (exists s', r = (s', [], Ok false) /\ quiet s s' /\ sendInProgress s' = lock) \/
  (exists s' p, r = (s', [EWrite (packet_image p)], Ok true) /\ sent cfg after s s' p).

(** A queued message has bytes left to send. *)
Definition reader_ok (r : Reader.DataReader) : Prop :=
  0 <= Reader.offset r < Reader.length r.

Lemma bind_get {A} (k : Session -> M A) s : mbind mget k s = k s s.
Proof. unfold mbind, mget. by destruct (k s s) as [[s' e] r]. Qed.
Lemma bind_set {A} f (k : unit -> M A) s : mbind (mset f) k s = k tt (f s).
Proof. unfold mbind, mset. by destruct (k tt (f s)) as [[s' e] r]. Qed.
Lemma bind_ret {A B} (a : A) (k : A -> M B) s : mbind (mret a) k s = k a s.
Proof. unfold mbind, mret. by destruct (k a s) as [[s' e] r]. Qed.
Lemma bind_lift_ok {A B} (a : A) (k : A -> M B) s : mbind (mlift (Ok a)) k s = k a s.
Proof. apply bind_ret. Qed.
Lemma bind_eq {A B} (m : M A) (k : A -> M B) s s' a :
  m s = (s', [], Ok a) -> mbind m k s = k a s'.
Proof. unfold mbind. intros ->. by destruct (k a s') as [[s'' e] r]. Qed.

(** Run the monad operations, leaving the code's own functions alone. *)
Ltac run := repeat first
  [ progress cbn [negb andb orb] | rewrite bind_get | rewrite bind_set | rewrite bind_ret | rewrite bind_lift_ok ]; cbv beta.

Lemma sendStandaloneAck_outcome cfg after s :
  outcome cfg after (sendInProgress s) s (sendStandaloneAck cfg after s).
Proof.
  unfold sendStandaloneAck. run.
  destruct (sendInProgress s) eqn:El; [left; by exists s|].
  destruct (Z.eqb_spec (prevIncomingSequenceNumber s) (prevAckedSequenceNumber s)) as [E|E];
    [left; by exists s|].
  destruct (canSend cfg s true) eqn:Ec; [|left; by exists s].
  right. run. unfold monthrow.
  rewrite (bind_eq _ _ _ _ _ (getNextSequenceNumber_eq _)). rewrite encodeBtpPacket_cases.
  cbn [consistent ackPacket btp_header btp_payload]. run.
  do 2 eexists. split; [reflexivity|].
  assert (pendingAck s = Some (prevIncomingSequenceNumber s)) as Ep
    by (unfold pendingAck; by destruct (Z.eqb_spec (prevIncomingSequenceNumber s) (prevAckedSequenceNumber s))).
  split; cbn; rewrite ?Ep; try done. by left.
Qed.

Lemma finishSendQueue_outcome cfg after s :
  outcome cfg after false s (finishSendQueue cfg after s).
Proof.
  unfold finishSendQueue. run.
  destruct (sendStandaloneAck_outcome cfg after (set_sendInProgress false s))
    as [(s' & -> & Hq & Hl)|(s' & p & -> & Hs)].
  - left. exists s'. split; [done|]. done.
  - right. exists s', p. split; [done|]. destruct Hs; split; done.
Qed.

Definition head_ok (s : Session) : Prop :=
  match queuedOutgoingMatterMessages s with [] => True | cur :: _ => reader_ok cur end.

Lemma readByteArray_ok cur n :
  reader_ok cur -> 0 <= n <= Reader.remainingBytesCount cur ->
  Reader.readByteArray n cur =
    Ok (Reader.subarray (Reader.buffer cur) (Reader.offset cur) n,
        Reader.mkReader (Reader.littleEndian cur) (Reader.buffer cur) (Reader.offset cur + n)).
Proof.
  unfold reader_ok, Reader.remainingBytesCount, Reader.length. intros Hr Hn.
  unfold Reader.readByteArray, Reader.getOffsetAndAdvance.
  destruct (Z.ltb_spec n 0); [lia|].
  destruct (Z.ltb_spec (byteLength (Reader.buffer cur)) (Reader.offset cur + n)); [lia|done].
Qed.

Lemma subarray_length bs off n :
  0 <= off -> 0 <= n -> off + n <= byteLength bs -> byteLength (Reader.subarray bs off n) = n.
Proof.
  unfold Reader.subarray, byteLength. intros. rewrite length_take, length_drop. lia.
Qed.

Lemma dataPacket_consistent ack seq be en rem seg :
  0 < byteLength seg -> consistent (dataPacket ack seq be en rem seg) = true.
Proof.
  intros Hs. unfold consistent, dataPacket; cbn.
  destruct (Z.eqb_spec (byteLength seg) 0); [lia|]. by destruct ack, be, en.
Qed.

Lemma sendLoop_outcome cfg after s :
  6 <= fragmentSize cfg -> head_ok s -> sendInProgress s = true ->
  outcome cfg after false s (sendLoop cfg after s).
Proof.
  intros Hfs Hh Hl. unfold sendLoop. run. unfold head_ok in Hh.
  destruct (queuedOutgoingMatterMessages s) as [|cur rest] eqn:Eq;
    [apply finishSendQueue_outcome|].
  set (hasAck := negb (prevIncomingSequenceNumber s =? prevAckedSequenceNumber s)).
  assert (Ea : (if hasAck then Some (prevIncomingSequenceNumber s) else None) = pendingAck s)
    by (unfold hasAck, pendingAck; by destruct (_ =? _)).
  rewrite Ea. assert (Eh : is_some (pendingAck s) = hasAck) by (rewrite <- Ea; by destruct hasAck).
  destruct (canSend cfg s hasAck) eqn:Ec; [|apply finishSendQueue_outcome]. run.
  set (rem := Reader.remainingBytesCount cur). set (be := rem =? Reader.length cur).
  set (n := fragmentSize cfg - btpHeaderLength be hasAck).
  assert (Hn : 0 < n) by (unfold n, btpHeaderLength; destruct be, hasAck; lia).
  assert (Hrem : 0 < rem) by (unfold rem, Reader.remainingBytesCount, reader_ok, Reader.length in *; lia).
  set (s1 := if hasAck then set_timers (ackReceiveTimer s) false (idleTimeout s) s else s).
  assert (E1 : readHead (Z.min n rem) s1 =
    (set_queue (Reader.mkReader (Reader.littleEndian cur) (Reader.buffer cur)
       (Reader.offset cur + Z.min n rem) :: rest) s1, [],
     Ok (Reader.subarray (Reader.buffer cur) (Reader.offset cur) (Z.min n rem)))).
  { unfold readHead. run. assert (queuedOutgoingMatterMessages s1 = cur :: rest) as ->
      by (unfold s1; by destruct hasAck). by rewrite readByteArray_ok by (done || lia). }
  rewrite (bind_eq _ _ _ _ _ E1), (bind_eq _ _ _ _ _ (getNextSequenceNumber_eq _)).
  rewrite encodeBtpPacket_cases, dataPacket_consistent.
  2: { rewrite subarray_length; unfold reader_ok, rem, Reader.remainingBytesCount, Reader.length in *; lia. }
  assert (Eseq : sequenceNumber (set_queue (Reader.mkReader (Reader.littleEndian cur)
    (Reader.buffer cur) (Reader.offset cur + Z.min n rem) :: rest) s1) = sequenceNumber s)
    by (unfold s1; by destruct hasAck).
  rewrite Eseq. right. do 2 eexists. split; [done|]. unfold s1.
  split; first [by rewrite Eh|reflexivity|idtac].
  - unfold same_rest, pendingAck, hasAck; by destruct (_ =? _).
  - unfold pendingAck, hasAck; by destruct (_ =? _).
  - unfold pendingAck, hasAck. destruct (Z.eqb_spec (prevIncomingSequenceNumber s)
      (prevAckedSequenceNumber s)) as [E|]; cbn; [by rewrite E|done].
  - unfold pendingAck, hasAck. destruct (_ =? _); cbn; done.
  - apply dataPacket_consistent. rewrite subarray_length;
      unfold reader_ok, rem, Reader.remainingBytesCount, Reader.length in *; lia.
  - right. exists cur, rest, n. fold rem be. rewrite Eh. fold n.
    split; [done|]. split; [done|]. split; [done|]. split; [done|].
    unfold pendingAck, hasAck. destruct (_ =? _); done.
Qed.

Lemma processSendQueue_outcome cfg after s :
  6 <= fragmentSize cfg -> head_ok s ->
  outcome cfg after (sendInProgress s) s (processSendQueue cfg after s).
Proof.
  intros Hfs Hh. unfold processSendQueue. run.
  destruct (sendInProgress s) eqn:El; [left; by exists s|].
  unfold head_ok in Hh.
  destruct (queuedOutgoingMatterMessages s) as [|cur rest] eqn:Eq; [left; by exists s|].
  run. destruct (sendLoop_outcome cfg after (set_sendInProgress true s))
    as [(s' & -> & Hq & Hl)|(s' & p & -> & Hs)]; try done.
  - unfold head_ok; cbn. by rewrite Eq.
  - left. by exists s'.
  - right. exists s', p. split; [done|]. destruct Hs; split; done.
Qed.

Lemma sendImmediateAck_outcome cfg s :
  outcome cfg HandlerEnd (sendInProgress s) s (sendImmediateAckIfWindowLow cfg s).
Proof.
  unfold sendImmediateAckIfWindowLow. run.
  destruct (match queuedOutgoingMatterMessages s with [] => false | _ => true end);
    [left; by exists s|].
  destruct (sendInProgress s) eqn:El; [left; by exists s|].
  destruct (_ <? _); [left; by exists s|].
  pose proof (sendStandaloneAck_outcome cfg HandlerEnd s) as H. by rewrite El in H.
Qed.

(** ** The session invariant *)

(** The write in flight carries the last fragment of the queue's head. *)
Definition finishing (s : Session) : bool :=
  existsb (fun w => match w with WritingData e _ _ => e | WritingAck _ _ => false end) (writes s).

Definition queue_ok (s : Session) : Prop :=
  match queuedOutgoingMatterMessages s with
  | [] => True
  | cur :: rest => (if finishing s then True else reader_ok cur) /\ Forall reader_ok rest
  end.

(** What holds whatever the environment does: sequence numbers stay in
    range, no more packets are outstanding than the peer's window admits, the
    send lock is held exactly while one write is in flight, and the messages
    in the queue have bytes left. *)
Record inv (cfg : Config) (s : Session) : Prop := {
  inv_seq : -1 <= sequenceNumber s <= 255;
  inv_incoming : 0 <= prevIncomingSequenceNumber s <= 255;
  inv_window : modularDistance (prevIncomingAckNumber s) (sequenceNumber s) <= windowLimit cfg;
  inv_lock : match writes s with
             | [] => sendInProgress s = false
             | [_] => sendInProgress s = true
             | _ => False
             end;
  inv_queue : queue_ok s;
}.

Definition effects_ok (cfg : Config) (effs : list Effect) : Prop :=
  Forall (fun e => match e with EWrite p => byteLength p <= fragmentSize cfg | _ => True end) effs.

(** A result in which the invariant holds and no oversized packet was
    written, whether it is a return or an exception; and a handler segment
    that keeps the invariant in this sense. *)
Definition kept {A} (cfg : Config) (r : Session * list Effect * result A) : Prop :=
  inv cfg r.1.1 /\ effects_ok cfg r.1.2.
Definition keeps {A} (cfg : Config) (m : M A) : Prop := forall s, inv cfg s -> kept cfg (m s).

Lemma keeps_ret {A} cfg (a : A) : keeps cfg (mret a).
Proof. intros s H. split; [done|constructor]. Qed.
Lemma keeps_throw {A} cfg e : keeps cfg (@mthrow A e).
Proof. intros s H. split; [done|constructor]. Qed.
Lemma keeps_lift {A} cfg (r : result A) : keeps cfg (mlift r).
Proof. intros s H. split; [done|constructor]. Qed.
Lemma keeps_emit cfg e : match e with EWrite _ => False | _ => True end -> keeps cfg (memit e).
Proof. intros He s H. split; [done|]. constructor; [by destruct e|constructor]. Qed.
Lemma keeps_get {A} cfg (k : Session -> M A) :
  (forall s, keeps cfg (k s)) -> keeps cfg (mbind mget k).
Proof. intros Hk s H. rewrite bind_get. by apply Hk. Qed.
Lemma keeps_set cfg f : (forall s, inv cfg s -> inv cfg (f s)) -> keeps cfg (mset f).
Proof. intros Hf s H. split; [by apply Hf|constructor]. Qed.

Lemma kept_bind {A B} cfg (m : M A) (k : A -> M B) s :
  kept cfg (m s) -> (forall a, keeps cfg (k a)) -> kept cfg (mbind m k s).
Proof.
  intros [H1 He1] Hk. unfold mbind. destruct (m s) as [[s1 e1] [a|e]]; [|done].
  destruct (Hk a s1 H1) as [H2 He2]. destruct (k a s1) as [[s2 e2] r].
  split; [done|]. by apply Forall_app.
Qed.

Lemma kept_catch {A} cfg (m : M A) h s :
  kept cfg (m s) -> (forall e, keeps cfg (h e)) -> kept cfg (mcatch m h s).
Proof.
  intros [H1 He1] Hh. unfold mcatch. destruct (m s) as [[s1 e1] [a|e]]; [done|].
  destruct (Hh e s1 H1) as [H2 He2]. destruct (h e s1) as [[s2 e2] r].
  split; [done|]. by apply Forall_app.
Qed.

Lemma keeps_bind {A B} cfg (m : M A) (k : A -> M B) :
  keeps cfg m -> (forall a, keeps cfg (k a)) -> keeps cfg (mbind m k).
Proof. intros Hm Hk s H. apply kept_bind; auto. Qed.

Create HintDb btp discriminated.
#[local] Hint Resolve keeps_ret keeps_throw keeps_lift : btp.
#[local] Hint Extern 1 (keeps _ (mthrow_if _ _)) => (apply keeps_lift) : btp.
#[local] Hint Extern 1 (keeps _ (memit _)) => (by apply keeps_emit) : btp.

(** A state change outside the fields of the invariant. *)
Lemma inv_frame cfg s s' :
  sequenceNumber s' = sequenceNumber s ->
  prevIncomingSequenceNumber s' = prevIncomingSequenceNumber s ->
  prevIncomingAckNumber s' = prevIncomingAckNumber s ->
  queuedOutgoingMatterMessages s' = queuedOutgoingMatterMessages s ->
  sendInProgress s' = sendInProgress s -> writes s' = writes s ->
  inv cfg s -> inv cfg s'.
Proof.
  intros E1 E2 E3 E4 E5 E6 [H1 H2 H3 H4 H5].
  split; rewrite ?E1, ?E2, ?E3, ?E5, ?E6; try done.
  unfold queue_ok, finishing in *. by rewrite E4, E6.
Qed.

(** *** The emission keeps the invariant *)

Lemma next_range n : -1 <= n <= 255 -> 0 <= next n <= 255.
Proof. intros H. rewrite next_mod by done. pose proof (Z.mod_pos_bound (n + 1) 256). lia. Qed.

Lemma sent_window cfg s carries :
  -1 <= sequenceNumber s <= 255 -> windowLimit cfg <= 255 -> canSend cfg s carries = true ->
  modularDistance (prevIncomingAckNumber s) (next (sequenceNumber s)) =
    modularDistance (prevIncomingAckNumber s) (sequenceNumber s) + 1 /\
  modularDistance (prevIncomingAckNumber s) (sequenceNumber s) + (if carries then 1 else 2)
    <= windowLimit cfg.
Proof.
  intros Hs Hw Hc. rewrite next_mod, !modularDistance_mod by done.
  unfold canSend, remoteWindowFreeSlots, MatterBle.BTP_WINDOW_NO_ACK_SEND_THRESHOLD in Hc.
  rewrite modularDistance_mod in Hc.
  set (a := prevIncomingAckNumber s) in *. set (n := sequenceNumber s) in *.
  pose proof (Z.mod_pos_bound (n - a) 256 ltac:(lia)) as Hb.
  destruct (Z.leb_spec (windowLimit cfg - (n - a) mod 256) 0); [done|].
  rewrite Zminus_mod_idemp_l. replace (n + 1 - a) with (n - a + 1) by lia.
  rewrite <- Zplus_mod_idemp_l, (Z.mod_small (_ + 1)) by lia. split; [done|].
  destruct (Z.leb_spec (windowLimit cfg - (n - a) mod 256) 1), carries; cbn in Hc; done || lia.
Qed.

Lemma packet_image_length p :
  byteLength (packet_image p) =
    2 + (if is_some (ackNumber (btp_payload p)) then 1 else 0)
      + (if is_some (messageLength (btp_payload p)) then 2 else 0)
      + byteLength (default [] (segmentPayload (btp_payload p))).
Proof.
  unfold packet_image, byteLength, opt_image. rewrite !length_app, !le_bytes_length.
  destruct (ackNumber _), (messageLength _); cbn [from_option is_some length];
    rewrite ?le_bytes_length; lia.
Qed.

Lemma sent_size cfg after s s' p :
  6 <= fragmentSize cfg -> head_ok s -> sent cfg after s s' p ->
  byteLength (packet_image p) <= fragmentSize cfg.
Proof.
  intros Hfs Hh Hs. rewrite packet_image_length. destruct (sent_kind _ _ _ _ _ Hs)
    as [(-> & _)|(cur & rest & n & En & Hn & Eq & -> & _)]; cbn [ackPacket dataPacket btp_payload
      ackNumber messageLength segmentPayload from_option Datatypes.id is_some].
  - change (byteLength []) with 0. lia.
  - unfold head_ok in Hh. rewrite Eq in Hh.
    unfold reader_ok, Reader.remainingBytesCount, Reader.length in *.
    rewrite subarray_length by lia.
    unfold btpHeaderLength in En. destruct (_ =? _), (is_some (pendingAck s)); cbn [is_some]; lia.
Qed.

Lemma sent_inv cfg after s s' p :
  6 <= fragmentSize cfg -> windowLimit cfg <= 255 ->
  -1 <= sequenceNumber s <= 255 -> 0 <= prevIncomingSequenceNumber s <= 255 ->
  writes s = [] -> queue_ok s -> sent cfg after s s' p ->
  inv cfg s'.
Proof.
  intros Hfs Hw Hseq Hin Hwr Hq Hs. destruct Hs as [(_ & _ & R3 & R4 & _) Hroom _ _ Hseq' _ Hl _ Hk].
  pose proof (sent_window _ _ _ Hseq Hw Hroom) as [Hd Hle].
  assert (Hwin : modularDistance (prevIncomingAckNumber s') (sequenceNumber s') <= windowLimit cfg).
  { rewrite R4, Hseq', Hd. destruct (is_some (pendingAck s)); lia. }
  pose proof (next_range _ Hseq).
  unfold queue_ok, finishing in Hq. rewrite Hwr in Hq. cbn in Hq.
  destruct Hk as [(_ & Eq & Ew)|(cur & rest & n & En & Hn & Eq & _ & Eq' & Ew)].
  - split; [rewrite Hseq'; lia|by rewrite R3|exact Hwin|by rewrite Ew, Hwr|].
    unfold queue_ok, finishing. rewrite Eq, Ew, Hwr. by cbn.
  - split; [rewrite Hseq'; lia|by rewrite R3|exact Hwin|by rewrite Ew, Hwr|].
    unfold queue_ok, finishing. rewrite Eq', Ew, Hwr. rewrite Eq in Hq. cbn. rewrite orb_false_r.
    destruct Hq as [Hcur Hrest]. split; [|done].
    unfold reader_ok, Reader.remainingBytesCount, Reader.length in *; cbn.
    destruct (Z.leb_spec (byteLength (Reader.buffer cur) - Reader.offset cur) n); [done|].
    rewrite Z.min_l by lia. lia.
Qed.

Section Keeps.
Context (cfg : Config) (Hfs : 6 <= fragmentSize cfg) (Hw : windowLimit cfg <= 255).

Lemma inv_head s : inv cfg s -> writes s = [] -> head_ok s.
Proof.
  intros [_ _ _ _ Hq] Hwr. unfold head_ok, queue_ok, finishing in *. rewrite Hwr in Hq.
  by destruct (queuedOutgoingMatterMessages s); [|destruct Hq].
Qed.

(** From a state with no write in flight (the lock may still be held by the
    caller), a sending segment that ends unlocked reaches the invariant. *)
Lemma outcome_inv after s r :
  -1 <= sequenceNumber s <= 255 -> 0 <= prevIncomingSequenceNumber s <= 255 ->
  modularDistance (prevIncomingAckNumber s) (sequenceNumber s) <= windowLimit cfg ->
  writes s = [] -> queue_ok s -> outcome cfg after false s r ->
  kept cfg r.
Proof using Hfs Hw.
  intros H1 H2 H3 Hwr Hq [(s' & -> & Hquiet & Hl)|(s' & p & -> & Hs)].
  - split; [|constructor]. cbn [fst]. destruct Hquiet as ((_ & _ & R3 & R4 & _) & E1 & _ & E3 & E4).
    split; rewrite ?E1, ?R3, ?R4, ?E4, ?Hwr; try done.
    unfold queue_ok, finishing in *. by rewrite E3, E4.
  - split; [by eapply sent_inv|]. constructor; [|constructor]. eapply sent_size; [done| |done].
    unfold head_ok, queue_ok, finishing in *. rewrite Hwr in Hq.
    by destruct (queuedOutgoingMatterMessages s); [|destruct Hq].
Qed.

(** While a write is in flight the lock keeps every other sender out. *)
Lemma keeps_locked {A} (m : M A) after (f : bool -> result A) :
  (forall s, sendInProgress s = true -> exists r, m s = (s, [], r)) ->
  (forall s, head_ok s -> match m s with (s', effs, r) => exists b, r = f b /\
     outcome cfg after (sendInProgress s) s (s', effs, Ok b) end) ->
  keeps cfg m.
Proof using Hfs Hw.
  intros Hlock Hout s H. pose proof (inv_lock _ _ H) as Hl.
  destruct (writes s) as [|w [|]] eqn:Ew; [| |done].
  - specialize (Hout s (inv_head _ H Ew)). destruct (m s) as [[s' effs] r].
    destruct Hout as (b & _ & Ho). rewrite Hl in Ho.
    destruct H as [H1 H2 H3 _ H5].
    exact (outcome_inv _ _ _ H1 H2 H3 Ew H5 Ho).
  - destruct (Hlock s Hl) as [r ->]. split; [done|constructor].
Qed.

Lemma outcome_keeps (m : M bool) after :
  (forall s, sendInProgress s = true -> m s = (s, [], Ok false)) ->
  (forall s, head_ok s -> outcome cfg after (sendInProgress s) s (m s)) ->
  keeps cfg m.
Proof using Hfs Hw.
  intros Hlock Hout. apply (keeps_locked m after Ok).
  - intros s Hs. eauto.
  - intros s Hs. specialize (Hout s Hs). destruct (m s) as [[s' effs] r].
    pose proof Hout as [(? & [= _ _ ->] & _)|(? & ? & [= _ _ ->] & _)]; eauto.
Qed.

Lemma keeps_sendStandaloneAck after : keeps cfg (sendStandaloneAck cfg after).
Proof using Hfs Hw.
  apply (outcome_keeps _ after).
  - intros s Hs. unfold sendStandaloneAck. run. by rewrite Hs.
  - intros s _. apply sendStandaloneAck_outcome.
Qed.

Lemma keeps_processSendQueue after : keeps cfg (processSendQueue cfg after).
Proof using Hfs Hw.
  apply (outcome_keeps _ after).
  - intros s Hs. unfold processSendQueue. run. by rewrite Hs.
  - intros s Hh. by apply processSendQueue_outcome.
Qed.

Lemma keeps_sendImmediateAck : keeps cfg (sendImmediateAckIfWindowLow cfg).
Proof using Hfs Hw.
  apply (outcome_keeps _ HandlerEnd).
  - intros s Hs. unfold sendImmediateAckIfWindowLow. run. by rewrite Hs, orb_true_r.
  - intros s _. apply sendImmediateAck_outcome.
Qed.

#[local] Hint Resolve keeps_sendStandaloneAck keeps_processSendQueue keeps_sendImmediateAck : btp.

Lemma keeps_continue after b : keeps cfg (continue cfg after b).
Proof using Hfs Hw.
  destruct after; cbn; auto with btp. destruct b; [auto with btp|].
  apply keeps_bind; auto with btp.
Qed.

Lemma keeps_close e : keeps cfg (close e).
Proof using.
  apply keeps_bind; [apply keeps_set; intros s H; by apply (inv_frame cfg s)|intros _].
  apply keeps_get. intros s. destruct (isActive s); [|destruct e; auto with btp].
  apply keeps_bind; [apply keeps_set; intros s' H; by apply (inv_frame cfg s')|intros _].
  apply keeps_bind; [auto with btp|intros _]. apply keeps_set. intros s' H. by apply (inv_frame cfg s').
Qed.

Lemma keeps_disconnected r : keeps cfg (disconnected r).
Proof using.
  apply keeps_get. intros s. destruct (disconnecting s) as [e|]; [|auto with btp].
  apply keeps_bind; [apply keeps_set; intros s' H; by apply (inv_frame cfg s')|intros _].
  do 2 (apply keeps_bind; [auto with btp|intros _]). destruct e; auto with btp.
Qed.

Lemma kept_catching after m s : kept cfg (m s) -> kept cfg (catching after m s).
Proof using.
  intros Hm. destruct after; cbn; [done|apply kept_catch; [done|]; intros e..].
  all: apply keeps_close.
Qed.

Lemma keeps_handlerRest : keeps cfg (handlerRest cfg).
Proof using Hfs Hw. apply keeps_bind; [auto with btp|intros b; apply keeps_continue]. Qed.

(** Accepting an acknowledgement frees window slots. *)
Lemma ack_window prev ack seq :
  modularDistance prev ack <= modularDistance prev seq ->
  modularDistance ack seq = modularDistance prev seq - modularDistance prev ack.
Proof.
  rewrite !modularDistance_mod. intros H.
  pose proof (Z.mod_pos_bound (ack - prev) 256 ltac:(lia)).
  pose proof (Z.mod_pos_bound (seq - prev) 256 ltac:(lia)).
  replace (seq - ack) with ((seq - prev) - (ack - prev)) by lia.
  rewrite Zminus_mod. apply Z.mod_small. lia.
Qed.

Lemma keeps_processAck ack : keeps cfg (processAck ack).
Proof using.
  intros s H. unfold processAck. run. unfold mthrow_if.
  destruct (Z.ltb_spec (modularDistance (prevIncomingAckNumber s) (sequenceNumber s))
    (modularDistance (prevIncomingAckNumber s) ack)); cbn [throw_if]; [split; [done|constructor]|].
  run. unfold mset at 1.
  set (s1 := set_prevIncomingAckNumber ack (set_timers false (sendAckTimer s) (idleTimeout s) s)).
  assert (H1 : inv cfg s1).
  { destruct H as [? ? Hwin ? ?]. split; try done. cbn.
    rewrite (ack_window (prevIncomingAckNumber s)) by lia.
    pose proof (modularDistance_mod (prevIncomingAckNumber s) ack).
    pose proof (Z.mod_pos_bound (ack - prevIncomingAckNumber s) 256). lia. }
  split; [|constructor]. destruct (negb _); [by apply (inv_frame cfg s1)|done].
Qed.

Lemma keeps_set_incoming len payload : keeps cfg (mset (set_incoming len payload)).
Proof using. apply keeps_set. intros s H. by apply (inv_frame cfg s). Qed.

Lemma keeps_addSegment h len segment : keeps cfg (addSegment h len segment).
Proof using.
  apply keeps_get. intros s. destruct (isBeginningSegment h).
  { destruct (currentIncomingSegmentedPayload s); [auto with btp|apply keeps_set_incoming]. }
  destruct (_ || _); [|auto with btp].
  destruct (currentIncomingSegmentedPayload s); [|auto with btp].
  do 3 (apply keeps_bind; [auto with btp|intros ?]). apply keeps_set_incoming.
Qed.

Lemma keeps_takeMessage : keeps cfg takeMessage.
Proof using.
  apply keeps_get. intros s.
  destruct (currentIncomingSegmentedMsgLength s), (currentIncomingSegmentedPayload s);
    auto with btp.
  apply keeps_bind; [auto with btp|intros _].
  apply keeps_bind; [apply keeps_set_incoming|auto with btp].
Qed.

(** The sequence check, and what follows it. *)
Lemma keeps_sequence seq (k : M unit) :
  keeps cfg k ->
  keeps cfg (let% s := mget in
    let% _ := mthrow_if (negb (seq =? Z.rem (prevIncomingSequenceNumber s + 1) 256)) BtpProtocolError in
    let% _ := mset (set_prevIncomingSequenceNumber seq) in k).
Proof using.
  intros Hk s H. rewrite bind_get. unfold mthrow_if.
  destruct (Z.eqb_spec seq (Z.rem (prevIncomingSequenceNumber s + 1) 256)) as [E|E];
    cbn [negb throw_if]; [|split; [done|constructor]].
  run. apply Hk. destruct H as [H1 H2 H3 H4 H5]. split; try done. cbn.
  rewrite Z.rem_mod_nonneg in E by lia. pose proof (Z.mod_pos_bound (prevIncomingSequenceNumber s + 1) 256).
  lia.
Qed.

Lemma keeps_handlePacket data : keeps cfg (handlePacket cfg data).
Proof using Hfs Hw.
  unfold handlePacket. do 2 (apply keeps_bind; [auto with btp|intros ?]).
  do 2 (apply keeps_bind; [auto with btp|intros _]). apply keeps_sequence.
  apply keeps_bind; [|intros _].
  { apply keeps_set. intros s H. destruct (sendAckTimer s); [done|by apply (inv_frame cfg s)]. }
  apply keeps_bind; [|intros _].
  { destruct (ackNumber _); [|auto with btp]. destruct (hasAckNumber _); [|auto with btp].
    apply keeps_processAck. }
  apply keeps_bind; [apply keeps_addSegment|intros _].
  destruct (isEndingSegment _); [|apply keeps_handlerRest].
  apply keeps_bind; [apply keeps_takeMessage|intros m].
  apply keeps_bind; [auto with btp|intros _].
  apply keeps_set. intros s H. by apply (inv_frame cfg s).
Qed.

Lemma keeps_sendMatterMessage data : keeps cfg (sendMatterMessage cfg data).
Proof using Hfs Hw.
  intros s H. unfold sendMatterMessage. run. unfold mthrow_if.
  destruct (isActive s); cbn [negb throw_if]; [|split; [done|constructor]]. run.
  destruct (Z.eqb_spec (byteLength data) 0); cbn [throw_if]; [split; [done|constructor]|]. run.
  apply keeps_bind; [auto with btp|auto with btp|].
  destruct H as [H1 H2 H3 H4 H5]. split; try done.
  assert (Hd : reader_ok (Reader.new data true)).
  { unfold reader_ok, Reader.new, Reader.length, byteLength in *; cbn. lia. }
  unfold queue_ok, finishing in *; cbn.
  destruct (queuedOutgoingMatterMessages s) as [|cur rest]; cbn.
  - split; [by destruct (existsb _ _)|constructor].
  - destruct H5. split; [done|]. apply Forall_app. auto.
Qed.

(** Resuming the write in flight: the state it resumes in. *)
Definition resumable (s : Session) : Prop :=
  -1 <= sequenceNumber s <= 255 /\ 0 <= prevIncomingSequenceNumber s <= 255 /\
  modularDistance (prevIncomingAckNumber s) (sequenceNumber s) <= windowLimit cfg /\
  writes s = [] /\ sendInProgress s = true.

(** A failed write releases the lock. *)
Lemma write_failed s prev q :
  resumable s -> (q = [] \/ queue_ok s /\ q = queuedOutgoingMatterMessages s) ->
  inv cfg (set_sendInProgress false (set_queue q (set_prevAckedSequenceNumber prev s))).
Proof using.
  intros (H1 & H2 & H3 & H4 & H5) Hq. split; try done; cbn; [by rewrite H4|].
  unfold queue_ok, finishing in *; cbn. rewrite H4 in *. by destruct Hq as [-> |[Hq ->]].
Qed.

Lemma resumeData_kept s (en : bool) prev after o :
  resumable s ->
  match queuedOutgoingMatterMessages s with
  | [] => True
  | cur :: rest => (if en then True else reader_ok cur) /\ Forall reader_ok rest
  end ->
  kept cfg (resumeData cfg en prev after o s).
Proof using Hfs Hw.
  intros Hr Hq. destruct o; cbn [resumeData];
    [|run; split; [apply write_failed; [done|by left]|constructor]..].
  run. set (s1 := (if en then _ else _)).
  assert (E : resumable s1 /\ queue_ok s1).
  { unfold s1, startAckReceiveTimer, resumable, queue_ok, finishing in *.
    destruct Hr as (? & ? & ? & E4 & ?).
    destruct en, (ackReceiveTimer s), (decide (role cfg = Central)); cbn; rewrite ?E4;
      (split; [done|]).
    all: destruct (queuedOutgoingMatterMessages s) as [|cur rest]; cbn; try done.
    all: destruct Hq as [? Hr]; destruct rest; rewrite ?Forall_cons in Hr; done. }
  destruct E as [(H1 & H2 & H3 & H4 & H5) Hq1].
  assert (Hh : head_ok s1).
  { unfold head_ok, queue_ok, finishing in *. rewrite H4 in Hq1.
    by destruct (queuedOutgoingMatterMessages s1); [|destruct Hq1]. }
  eapply outcome_inv; [done..|]. by apply sendLoop_outcome.
Qed.

Lemma resumeAck_kept s prev after o :
  resumable s -> queue_ok s -> kept cfg (resumeAck cfg prev after o s).
Proof using Hfs Hw.
  intros Hr Hq. destruct o; cbn [resumeAck].
  - run. apply keeps_processSendQueue. unfold startAckReceiveTimer.
    destruct Hr as (? & ? & ? & E4 & ?), (ackReceiveTimer _); split; try done; cbn; by rewrite E4.
  - run. split; [|constructor]. apply (write_failed s prev (queuedOutgoingMatterMessages s)); auto.
  - run. split; [|constructor]. apply (write_failed s prev (queuedOutgoingMatterMessages s)); auto.
Qed.

Lemma resume_kept w o s :
  inv cfg s -> writes s = [w] -> kept cfg (resume cfg w o (set_suspended [] (deliveries s) s)).
Proof using Hfs Hw.
  intros [H1 H2 H3 Hl H5] Ew. rewrite Ew in Hl. unfold resume. apply kept_catching, kept_bind;
    [|apply keeps_continue].
  unfold queue_ok, finishing in H5. rewrite Ew in H5. cbn in H5.
  destruct w as [en prev after|prev after].
  - rewrite orb_false_r in H5. by apply resumeData_kept.
  - apply resumeAck_kept; [done|]. unfold queue_ok; cbn. done.
Qed.

Lemma keeps_step i : keeps cfg (step cfg i).
Proof using Hfs Hw.
  intros s H. destruct i as [data|data|r|i o| | | | |r]; cbn [step].
  - by apply keeps_sendMatterMessage.
  - unfold handleIncomingBleData. rewrite bind_get. destruct (isActive s); cbn [negb].
    + by apply kept_catching, keeps_handlePacket.
    + by apply keeps_ret.
  - rewrite bind_get. destruct (deliveries s) as [|d]; [by apply keeps_ret|].
    rewrite bind_set. apply kept_catching. destruct r; [|apply keeps_throw]; try apply keeps_handlerRest;
      by apply (inv_frame cfg s).
  - rewrite bind_get. destruct (writes s !! i) as [w|] eqn:E; [|by apply keeps_ret].
    rewrite bind_set. pose proof (inv_lock _ _ H) as Hl.
    destruct (writes s) as [|w' [|]] eqn:Ew; [done| |done].
    destruct i as [|i]; [|done]. injection E as ->. by apply resume_kept.
  - unfold btpSendAckTimeoutTriggered. rewrite bind_set, bind_get. cbn [isActive].
    destruct (negb _); [|apply keeps_bind; auto with btp]; [apply keeps_ret|]; by apply (inv_frame cfg s).
  - unfold btpAckTimeoutTriggered. rewrite bind_set, bind_get.
    destruct (negb _); [apply keeps_close|apply keeps_ret]; by apply (inv_frame cfg s).
  - by apply keeps_close.
  - by apply keeps_close.
  - by apply keeps_disconnected.
Qed.

End Keeps.

(** ** Runs *)

(** The environment's inputs one after the other; an exception that escapes a
    handler goes to its caller, the session stays. *)
Fixpoint run_inputs (cfg : Config) (s : Session) (inputs : list Input) : Session * list Effect :=
  match inputs with
  | [] => (s, [])
  | i :: inputs =>
      match step cfg i s with (s1, e1, _) =>
      match run_inputs cfg s1 inputs with (s2, e2) => (s2, e1 ++ e2) end end
  end.

Lemma run_inputs_inv cfg s inputs :
  6 <= fragmentSize cfg -> windowLimit cfg <= 255 -> inv cfg s ->
  inv cfg (run_inputs cfg s inputs).1 /\ effects_ok cfg (run_inputs cfg s inputs).2.
Proof.
  intros Hfs Hw. revert s. induction inputs as [|i inputs IH]; intros s H.
  { split; [done|constructor]. }
  cbn. destruct (keeps_step cfg Hfs Hw i s H) as [H1 He1].
  destruct (step cfg i s) as [[s1 e1] r]. destruct (IH s1 H1) as [H2 He2].
  destruct (run_inputs cfg s1 inputs) as [s2 e2]. split; [done|]. by apply Forall_app.
Qed.

Lemma newSession_inv cfg r s :
  1 <= windowLimit cfg -> newSession r 4 = Ok s -> inv cfg s.
Proof.
  intros Hw. destruct r; intros [= <-]; split; try done.
  - change (0 <= windowLimit cfg). lia.
Qed.

(** *** Closing is counted *)

Definition disconnects (effs : list Effect) : nat :=
  length (List.filter (fun e => match e with EDisconnect => true | _ => false end) effs).
Definition closings (effs : list Effect) : nat :=
  length (List.filter (fun e => match e with EClosed => true | _ => false end) effs).
Definition pending (s : Session) : nat := match disconnecting s with Some _ => 1 | None => 0 end.

(** Only a session that is no longer active waits for the disconnect callback. *)
Definition inactive_waits (s : Session) : Prop := isActive s = true -> disconnecting s = None.

(** A run of effects disconnects exactly when it deactivates the session, never
    reactivates it, and announces the close when the callback has settled. *)
Definition accounted (s s' : Session) (effs : list Effect) : Prop :=
  inactive_waits s -> inactive_waits s' /\ (isActive s = false -> isActive s' = false) /\
  disconnects effs = (if isActive s && negb (isActive s') then 1 else 0)%nat /\
  (closings effs + pending s' = pending s + disconnects effs)%nat.

Definition accounts {A} (m : M A) : Prop := forall s, accounted s (m s).1.1 (m s).1.2.

Lemma disconnects_app a b : disconnects (a ++ b) = (disconnects a + disconnects b)%nat.
Proof. unfold disconnects. by rewrite List.filter_app, length_app. Qed.
Lemma closings_app a b : closings (a ++ b) = (closings a + closings b)%nat.
Proof. unfold closings. by rewrite List.filter_app, length_app. Qed.

Lemma accounted_refl s : accounted s s [].
Proof. intros H. split_and!; try done. by destruct (isActive s). Qed.

Lemma accounted_seq s s1 s2 e1 e2 : accounted s s1 e1 -> accounted s1 s2 e2 -> accounted s s2 (e1 ++ e2).
Proof.
  intros H1 H2 H. destruct (H1 H) as (W1 & M1 & D1 & C1), (H2 W1) as (W2 & M2 & D2 & C2).
  rewrite disconnects_app, closings_app. split_and!; [done|auto| |lia].
  rewrite D1, D2. destruct (isActive s), (isActive s1), (isActive s2); cbn; naive_solver.
Qed.

Lemma accounts_bind {A B} (m : M A) (k : A -> M B) :
  accounts m -> (forall a, accounts (k a)) -> accounts (mbind m k).
Proof.
  intros Hm Hk s. specialize (Hm s). unfold mbind. destruct (m s) as [[s1 e1] [a|e]]; [|done].
  specialize (Hk a s1). destruct (k a s1) as [[s2 e2] r]. by eapply accounted_seq.
Qed.

Lemma accounts_catch {A} (m : M A) h :
  accounts m -> (forall e, accounts (h e)) -> accounts (mcatch m h).
Proof.
  intros Hm Hh s. specialize (Hm s). unfold mcatch. destruct (m s) as [[s1 e1] [a|e]]; [done|].
  specialize (Hh e s1). destruct (h e s1) as [[s2 e2] r]. by eapply accounted_seq.
Qed.

(** An update that leaves the activity and the callback alone. *)
Definition unrelated (f : Session -> Session) : Prop :=
  forall s, isActive (f s) = isActive s /\ disconnecting (f s) = disconnecting s.

Lemma accounted_update f s s' effs : unrelated f -> accounted s s' effs -> accounted s (f s') effs.
Proof.
  intros Hf H Hs. destruct (H Hs) as (W & M & D & C), (Hf s') as [Ha Hd].
  unfold inactive_waits, pending in *. rewrite Ha, Hd. done.
Qed.

Lemma accounts_onthrow {A} (m : M A) f : unrelated f -> accounts m -> accounts (monthrow m f).
Proof.
  intros Hf Hm s. specialize (Hm s). unfold monthrow.
  destruct (m s) as [[s1 e1] [a|e]]; [done|]. by apply accounted_update.
Qed.

Lemma accounts_set f : unrelated f -> accounts (mset f).
Proof. intros Hf s. apply accounted_update; [done|apply accounted_refl]. Qed.
Lemma accounts_get {A} (k : Session -> M A) : (forall s, accounts (k s)) -> accounts (mbind mget k).
Proof. intros Hk s. rewrite bind_get. apply Hk. Qed.
Lemma accounts_lift {A} (r : result A) : accounts (mlift r).
Proof. intros s. apply accounted_refl. Qed.
Lemma accounts_ret {A} (a : A) : accounts (mret a).
Proof. apply (accounts_lift (Ok a)). Qed.
Lemma accounts_throw {A} e : accounts (@mthrow A e).
Proof. apply (accounts_lift (Throw e)). Qed.
Lemma accounts_emit e : match e with EWrite _ | EDeliver _ => True | _ => False end -> accounts (memit e).
Proof. intros He s H. destruct e; try done; (split_and!; cbn; [done|done|by destruct (isActive s)|done || lia]). Qed.

Lemma accounts_close e : accounts (close e).
Proof.
  intros s H. unfold close. rewrite bind_set, bind_get. cbn [isActive set_timers].
  destruct (isActive s) eqn:E; cbn.
  - specialize (H E). unfold pending, inactive_waits. cbn. rewrite H. done.
  - destruct e; cbn; unfold inactive_waits, pending; cbn; rewrite E; done.
Qed.

Lemma accounts_disconnected r : accounts (disconnected r).
Proof.
  intros s H. unfold disconnected. rewrite bind_get. unfold pending. destruct (disconnecting s) as [e|] eqn:E.
  - assert (Ha : isActive s = false) by (destruct (isActive s) eqn:Ea; [by rewrite H in E|done]).
    destruct r, e; cbn; unfold inactive_waits; cbn; rewrite Ha; done.
  - unfold inactive_waits; cbn; rewrite E. split_and!; try done. by destruct (isActive s).
Qed.

(** Walk through a segment: binds, branches and the primitive operations. *)
Create HintDb accounts discriminated.
Ltac accounts_tac :=
  repeat first
    [ solve [auto with accounts nocore]
    | apply accounts_close
    | apply accounts_disconnected
    | apply accounts_get; intros ?
    | apply accounts_bind; [|intros ?]
    | apply accounts_lift | apply accounts_ret | apply accounts_throw
    | apply accounts_emit; exact I
    | apply accounts_onthrow; [done|]
    | apply accounts_catch; [|intros ?]
    | apply accounts_set; intros ?; repeat case_match; split; reflexivity
    | progress cbv zeta
    | case_match ].

Lemma accounts_sendStandaloneAck cfg after : accounts (sendStandaloneAck cfg after).
Proof. unfold sendStandaloneAck, mthrow_if, suspend, getNextSequenceNumber. accounts_tac. Qed.
#[local] Hint Resolve accounts_sendStandaloneAck : accounts.

Lemma accounts_sendLoop cfg after : accounts (sendLoop cfg after).
Proof.
  unfold sendLoop, finishSendQueue, readHead, suspend, getNextSequenceNumber.
  accounts_tac.
Qed.
#[local] Hint Resolve accounts_sendLoop : accounts.

Lemma accounts_processSendQueue cfg after : accounts (processSendQueue cfg after).
Proof. unfold processSendQueue. accounts_tac. Qed.
#[local] Hint Resolve accounts_processSendQueue : accounts.

Lemma accounts_continue cfg after b : accounts (continue cfg after b).
Proof.
  unfold continue, sendImmediateAckIfWindowLow.
  accounts_tac.
Qed.
#[local] Hint Resolve accounts_continue : accounts.

Lemma accounts_catching after m : accounts m -> accounts (catching after m).
Proof. intros Hm. unfold catching. destruct after; [done|..]; (apply accounts_catch; [done|intros e]); accounts_tac.
Qed.
#[local] Hint Resolve accounts_catching : accounts.

Lemma accounts_handlerRest cfg : accounts (handlerRest cfg).
Proof. apply accounts_bind; [apply accounts_processSendQueue|intros b; apply accounts_continue]. Qed.
#[local] Hint Resolve accounts_handlerRest : accounts.

Lemma accounts_handlePacket cfg data : accounts (handlePacket cfg data).
Proof.
  unfold handlePacket, mthrow_if, processAck, addSegment, takeMessage, mthrow_if.
  accounts_tac.
Qed.
#[local] Hint Resolve accounts_handlePacket : accounts.

Lemma accounts_resume cfg w o : accounts (resume cfg w o).
Proof.
  unfold resume. apply accounts_catching, accounts_bind; [|intros b; apply accounts_continue].
  unfold resumeData, resumeAck, startAckReceiveTimer.
  accounts_tac.
Qed.
#[local] Hint Resolve accounts_resume : accounts.

Lemma accounts_step cfg i : accounts (step cfg i).
Proof.
  unfold step, sendMatterMessage, handleIncomingBleData, btpSendAckTimeoutTriggered,
    btpAckTimeoutTriggered, mthrow_if.
  accounts_tac.
Qed.

Lemma run_inputs_closings cfg s inputs : accounted s (run_inputs cfg s inputs).1 (run_inputs cfg s inputs).2.
Proof.
  revert s. induction inputs as [|i inputs IH]; intros s; [apply accounted_refl|].
  cbn. pose proof (accounts_step cfg i s) as H.
  destruct (step cfg i s) as [[s1 e1] r]. specialize (IH s1).
  destruct (run_inputs cfg s1 inputs) as [s2 e2]. by eapply accounted_seq.
Qed.

(** ** Properties *)

(** C2: with a fragment size of at least 6 bytes and a window of 1 to 255, whatever
    the environment does (messages to send, arbitrary incoming bytes, timers,
    write failures, closing, in any interleaving), a BTP session keeps its
    sequence numbers in one byte (-1 before the first packet of a central), never
    has more unacknowledged packets than the window, writes one packet at a time,
    holds its send lock exactly while a write is in flight, and never writes a
    packet larger than the fragment size. *)
Theorem btp_session_safe cfg r s0 inputs :
  6 <= fragmentSize cfg -> 1 <= windowLimit cfg <= 255 -> newSession r 4 = Ok s0 ->
  let '(s, effs) := run_inputs cfg s0 inputs in
  -1 <= sequenceNumber s <= 255 /\ 0 <= prevIncomingSequenceNumber s <= 255 /\
  0 <= modularDistance (prevIncomingAckNumber s) (sequenceNumber s) <= windowLimit cfg /\
  (length (writes s) <= 1)%nat /\ (sendInProgress s = true <-> writes s <> []) /\
  (forall packet, EWrite packet ∈ effs -> byteLength packet <= fragmentSize cfg).
Proof.
  intros Hfs Hw Hn.
  destruct (run_inputs_inv cfg s0 inputs Hfs ltac:(lia)) as [[Hseq Hinc Hwin Hl _] He];
    [by eapply newSession_inv; [lia|]|].
  destruct (run_inputs cfg s0 inputs) as [s effs]. cbn [fst snd] in *. split_and!; try lia.
  - rewrite modularDistance_mod. apply Z.mod_pos_bound. lia.
  - destruct (writes s) as [|w [|]]; cbn; done || lia.
  - destruct (writes s) as [|w [|]]; rewrite ?Hl; done.
  - intros packet Hp. unfold effects_ok in He. rewrite Forall_forall in He. by apply (He (EWrite packet)).
Qed.

Lemma btp_session_safe_witness :
  let cfg := mkConfig Central 20 4 in
  let inputs := [AppSend (replicate 40 7); WriteDone 0 Written; SendAckTimeout] in
  exists s0, newSession Central 4 = Ok s0 /\
    length (run_inputs cfg s0 inputs).2 = 2%nat /\
    (length (writes (run_inputs cfg s0 inputs).1) <= 1)%nat.
Proof.
  cbn zeta. set (cfg := mkConfig _ _ _). set (inputs := [_; _; _]).
  eexists. split; [reflexivity|]. split; [vm_compute; reflexivity|].
  match goal with |- context [run_inputs cfg ?s inputs] =>
    pose proof (btp_session_safe cfg Central s inputs ltac:(cbn; lia) ltac:(cbn; lia) eq_refl) as H;
    destruct (run_inputs cfg s inputs) as [s1 effs] end.
  destruct H as (_ & _ & _ & H & _). exact H.
Defined.

(** a session asks the transport to disconnect exactly once, when it stops being
    active, never becomes active again, and announces its close once, when the
    transport has answered. *)
Theorem btp_close_once cfg r s inputs :
  newSession r 4 = Ok s ->
  let '(s', effs) := run_inputs cfg s inputs in
  disconnects effs = (if isActive s' then 0 else 1)%nat /\
  closings effs = (if isActive s' then 0 else match disconnecting s' with Some _ => 0 | None => 1 end)%nat.
Proof.
  intros Hn. pose proof (run_inputs_closings cfg s inputs) as H. destruct (run_inputs cfg s inputs) as [s' effs].
  assert (Hs : isActive s = true /\ disconnecting s = None) by (destruct r; by injection Hn as <-). destruct Hs as [Ha Hd].
  destruct H as (W & _ & D & C); [by intros _|]. cbn [fst snd] in *. unfold pending in C. rewrite Ha in D. rewrite D, Hd in C. rewrite D.
  unfold inactive_waits in W. destruct (isActive s'), (disconnecting s'); cbn in *; split; naive_solver lia.
Qed.

Lemma btp_close_once_witness :
  let cfg := mkConfig Central 20 4 in
  let inputs := [IdleTimeout; Close; DisconnectDone (Ok tt)] in
  exists s, newSession Central 4 = Ok s /\ closings (run_inputs cfg s inputs).2 = 1%nat.
Proof.
  cbn zeta. set (cfg := mkConfig _ _ _). set (inputs := [_; _; _]). eexists. split; [reflexivity|].
  match goal with |- context [run_inputs cfg ?s inputs] =>
    pose proof (btp_close_once cfg Central s inputs eq_refl) as H; destruct (run_inputs cfg s inputs) as [s1 effs] eqn:E end.
  vm_compute in E. injection E as <- <-. exact (proj2 H).
Defined.

(** a central that accepts a handshake response with a tiny MTU cannot
    send: the fragment size is only bounded from above, the first message
    throws while the send lock is held, nothing is in flight to release it,
    and every later message is silently left in the queue. *)
Theorem tiny_mtu_blocks_sending :
  exists cfg s, createAsCentral [0x65; 0x6c; 4; 4; 0; 6] = Ok (cfg, s) /\
  match step cfg (AppSend [1; 2; 3]) s with
  | (s1, effs1, r1) =>
      effs1 = [] /\ r1 = Throw DataReadError /\ sendInProgress s1 = true /\ writes s1 = [] /\
      match step cfg (AppSend [4; 5; 6]) s1 with
      | (s2, effs2, r2) => effs2 = [] /\ r2 = Ok tt /\ length (queuedOutgoingMatterMessages s2) = 2%nat
      end
  end.
Proof. do 2 eexists. split; [vm_compute; reflexivity|]. vm_compute. auto 10. Qed.

(** a peripheral always negotiates a usable configuration: whatever the
    handshake request and the platform's data size, the fragment size lies
    between 20 and 244 bytes and the window is at most 255. *)
Theorem peripheral_negotiation maxDataSize request written disconnect cfg s :
  (createFromHandshakeRequest maxDataSize request written disconnect).2 = Ok (cfg, s) ->
  MatterBle.MINIMUM_ATT_MTU <= fragmentSize cfg <= MatterBle.MAXIMUM_BTP_MTU /\
  windowLimit cfg <= MatterBle.BTP_MAXIMUM_WINDOW_SIZE /\
  (exists r, decodeBtpHandshakeRequest request = Ok r /\ 4 ∈ versions r /\
     windowLimit cfg <= clientWindowSize r) /\
  prevAckedSequenceNumber s = prevIncomingSequenceNumber s /\ ackReceiveTimer s = true.
Proof.
  intros H. unfold createFromHandshakeRequest in H.
  destruct (decodeBtpHandshakeRequest request) as [r|e]; [|done].
  destruct (List.find _ _) as [v|] eqn:Ef; [|by destruct disconnect].
  apply List.find_some in Ef as [[<-|[]] Hin].
  destruct (encodeBtpHandshakeResponse _) as [resp|e]; [|done].
  cbn [newSession Z.eqb Pos.eqb negb snd] in H. destruct written; [|done].
  injection H as <- <-. cbn [fragmentSize windowLimit].
  unfold MatterBle.MINIMUM_ATT_MTU, MatterBle.MAXIMUM_BTP_MTU, MatterBle.BTP_MAXIMUM_WINDOW_SIZE.
  split_and!; try done; try lia.
  - destruct maxDataSize as [m|]; [|lia]. split_ifs; bool_to_prop; lia.
  - destruct maxDataSize as [m|]; [|lia]. split_ifs; bool_to_prop; lia.
  - exists r. split; [done|]. split; [|lia].
    apply existsb_exists in Hin as (x & Hx & Ex%Z.eqb_eq). subst x. by apply list_elem_of_In.
Qed.

Lemma peripheral_negotiation_witness :
  exists cfg s,
    (createFromHandshakeRequest (Some 100) [0x65; 0x6c; 4; 0; 0; 0; 247; 0; 6] (Ok tt) (Ok tt)).2
      = Ok (cfg, s) /\
    20 <= fragmentSize cfg <= 244.
Proof.
  destruct (createFromHandshakeRequest (Some 100) [0x65; 0x6c; 4; 0; 0; 0; 247; 0; 6] (Ok tt) (Ok tt)).2
    as [[cfg s]|e] eqn:E; [|vm_compute in E; discriminate].
  exists cfg, s. split; [reflexivity|].
  exact (proj1 (peripheral_negotiation _ _ _ _ _ _ E)).
Defined.
