(* ===== verification/BtpLink.v ===== *)
(** * Two BTP sessions over a reliable link

    Client of BtpSession: a central and a peripheral of
    src/packages/protocol/src/ble/BtpSessionHandler.ts, connected by a
    transport that delivers each direction's packets in order.  Every
    interleaving of the two sides' asynchronous segments is a run of
    [link_step].  The theorems say that neither side ever sees a protocol
    error and that each side delivers exactly the messages the other side
    sent, in order. *)

From S2P Require Import Prelude DataIO CodecLib BtpCodec BtpSession.

(** ** Reassembly as a function of the packets *)

(** The message under reassembly: its declared length and its bytes so far. *)
Abbreviation Partial := (option (Z * list Z)).

Definition segment_of (p : BtpPacket) : list Z := default [] (segmentPayload (btp_payload p)).

Definition add_segment (st : Partial) (p : BtpPacket) : option Partial :=
  let h := btp_header p in
  if isBeginningSegment h then
    match st, messageLength (btp_payload p) with
    | None, Some len => Some (Some (len, segment_of p))
    | _, _ => None
    end
  else if isContinuingSegment h || isEndingSegment h then
    match st with
    | Some (len, cur) =>
        if (byteLength (segment_of p) =? 0) || (len <? byteLength cur + byteLength (segment_of p))
        then None else Some (Some (len, cur ++ segment_of p))
    | None => None
    end
  else Some st.

Definition absorb (st : Partial) (p : BtpPacket) : option (Partial * list (list Z)) :=
  match add_segment st p with
  | None => None
  | Some st' =>
      if isEndingSegment (btp_header p) then
        match st' with
        | Some (len, msg) => if byteLength msg =? len then Some (None, [msg]) else None
        | None => None
        end
      else Some (st', [])
  end.

Fixpoint absorb_all (st : Partial) (ps : list BtpPacket) : option (Partial * list (list Z)) :=
  match ps with
  | [] => Some (st, [])
  | p :: ps =>
      match absorb st p with
      | None => None
      | Some (st1, d1) =>
          match absorb_all st1 ps with
          | None => None
          | Some (st2, d2) => Some (st2, d1 ++ d2)
          end
      end
  end.

Lemma absorb_all_snoc st ps p st1 d1 st2 d2 :
  absorb_all st ps = Some (st1, d1) -> absorb st1 p = Some (st2, d2) ->
  absorb_all st (ps ++ [p]) = Some (st2, d1 ++ d2).
Proof.
  revert st d1. induction ps as [|q ps IH]; intros st d1; cbn.
  - intros [= <- <-] ->. by rewrite app_nil_r.
  - destruct (absorb st q) as [[sta da]|]; [|done].
    destruct (absorb_all sta ps) as [[stb db]|] eqn:E; [|done].
    intros [= <- <-] Hp. rewrite (IH _ _ E Hp). by rewrite app_assoc.
Qed.

(** ** The sender's view *)

(** The queue of a sender between steps: every message fits the 16-bit length
    field, only the head may be partly sent, and a message whose last fragment
    is being written is still at the head. *)
Definition queue_fresh (s : Session) : Prop :=
  Forall (fun r => 0 <= Reader.offset r /\ Reader.length r < 2 ^ 16)
    (queuedOutgoingMatterMessages s) /\
  Forall (fun r => Reader.offset r = 0) (tail (queuedOutgoingMatterMessages s)) /\
  (finishing s = true -> queuedOutgoingMatterMessages s <> []).

(** Messages not yet completely handed to the transport. *)
Definition unsent (s : Session) : list (list Z) :=
  let q := map Reader.buffer (queuedOutgoingMatterMessages s) in
  if finishing s then tail q else q.

(** What the peer has of the head message once it has all packets. *)
Definition progress_of (s : Session) : Partial :=
  match queuedOutgoingMatterMessages s with
  | [] => None
  | cur :: _ =>
      if finishing s || (Reader.offset cur =? 0) then None
      else Some (Reader.length cur, take (Z.to_nat (Reader.offset cur)) (Reader.buffer cur))
  end.

(** Sending a packet advances the view by what the packet absorbs to. *)
Lemma take_subarray bs off n :
  0 <= off -> 0 <= n ->
  take (Z.to_nat off) bs ++ Reader.subarray bs off n = take (Z.to_nat (off + n)) bs.
Proof.
  intros Ho Hn. unfold Reader.subarray. rewrite Z2Nat.inj_add by lia.
  apply take_take_drop.
Qed.

Lemma sent_absorb cfg after s s' p :
  writes s = [] -> queue_ok s -> queue_fresh s -> sent cfg after s s' p ->
  exists d, absorb (progress_of s) p = Some (progress_of s', d) /\ d ++ unsent s' = unsent s.
Proof.
  intros Hw Hq [Hf _] Hs. destruct (sent_kind _ _ _ _ _ Hs)
    as [(-> & Eq & Ew)|(cur & rest & n & En & Hn & Eq & -> & Eq' & Ew)].
  { exists []. unfold progress_of, unsent, finishing. rewrite Eq, Ew, Hw. cbn.
    split; [|done]. by destruct (queuedOutgoingMatterMessages s). }
  unfold queue_ok, finishing in Hq. rewrite Hw, Eq in Hq. cbn in Hq. destruct Hq as [Hcur _].
  unfold progress_of, unsent, finishing. rewrite Eq, Eq', Ew, Hw. cbn [existsb orb app].
  unfold reader_ok, Reader.remainingBytesCount, Reader.length in *.
  set (off := Reader.offset cur) in *. set (len := byteLength (Reader.buffer cur)) in *.
  set (k := Z.min n (len - off)) in *. set (seg := Reader.subarray (Reader.buffer cur) off k).
  assert (Hk : byteLength seg = k) by (apply subarray_length; fold len; lia).
  assert (Hjoin : take (Z.to_nat off) (Reader.buffer cur) ++ seg = take (Z.to_nat (off + k)) (Reader.buffer cur))
    by (apply take_subarray; lia).
  assert (Hpre : byteLength (take (Z.to_nat off) (Reader.buffer cur)) = off)
    by (unfold byteLength in *; rewrite length_take; lia).
  assert (Hadd : add_segment (if off =? 0 then None else Some (len, take (Z.to_nat off) (Reader.buffer cur)))
    (dataPacket (pendingAck s) (next (BtpSession.sequenceNumber s)) (len - off =? len) (len - off <=? n)
       (len - off) seg) = Some (Some (len, take (Z.to_nat (off + k)) (Reader.buffer cur)))).
  { unfold add_segment, segment_of; cbn.
    destruct (Z.eqb_spec (len - off) len), (Z.eqb_spec off 0); try lia; cbn.
    - do 3 f_equal; [lia|]. rewrite <- Hjoin. by replace off with 0 by lia.
    - rewrite Hpre, Hk. destruct (Z.eqb_spec k 0); [lia|].
      destruct (Z.ltb_spec len (off + k)); [lia|]. cbn. by rewrite Hjoin. }
  unfold absorb. fold off. cbn [Reader.offset Reader.buffer]. rewrite orb_false_r. cbn [orb].
  rewrite Hadd. cbn [btp_header dataPacket isEndingSegment].
  destruct (Z.leb_spec (len - off) n) as [He|He].
  - assert (Hall : take (Z.to_nat (off + k)) (Reader.buffer cur) = Reader.buffer cur).
    { apply take_ge. unfold byteLength in *. lia. }
    rewrite Hall. fold len. rewrite Z.eqb_refl. exists [Reader.buffer cur]. done.
  - exists []. split; [|done]. destruct (Z.eqb_spec (off + k) 0); [lia|]. done.
Qed.

(** ** One direction of the link *)

(** A sequence-number field [v] after [n] packets: the field of packet number
    [n] (counting from 1) modulo 256, or the initial -1. *)
Definition counts (v n : Z) : Prop := -1 <= v <= 255 /\ (v + 1) mod 256 = n mod 256.

Record SenderView := mkSender {
  v_sequence : Z;
  v_acked : Z;
  v_unsent : list (list Z);
  v_progress : Partial;
}.

Record ReceiverView := mkReceiver {
  v_incoming : Z;
  v_ackSent : Z;
  v_partial : option Z * option (list Z);
}.

Definition sender_view (s : Session) : SenderView :=
  mkSender (sequenceNumber s) (prevIncomingAckNumber s) (unsent s) (progress_of s).
Definition receiver_view (s : Session) : ReceiverView :=
  mkReceiver (prevIncomingSequenceNumber s) (prevAckedSequenceNumber s)
    (currentIncomingSegmentedMsgLength s, currentIncomingSegmentedPayload s).

(** The acknowledgements in flight back to the sender, none of them behind
    [h] or ahead of [k]. *)
Fixpoint acks_between (h k : Z) (ps : list BtpPacket) : Prop :=
  match ps with
  | [] => h <= k
  | p :: ps =>
      match ackNumber (btp_payload p) with
      | None => acks_between h k ps
      | Some a => exists h', counts a h' /\ 0 <= a /\ h <= h' /\ acks_between h' k ps
      end
  end.

Fixpoint numbered (n : Z) (ps : list BtpPacket) : Prop :=
  match ps with
  | [] => True
  | p :: ps => BtpCodec.sequenceNumber (btp_payload p) = n mod 256 /\ numbered (n + 1) ps
  end.

(** [dir window snd rcv data acks sent delivered]: with [data] in flight
    towards the receiver and [acks] towards the sender, [n] packets were
    sent, [h] are known to be acknowledged and [k] were acknowledged; the
    receiver's state together with the packets in flight yields the messages
    sent so far. *)
Definition dir (window : Z) (sv : SenderView) (rv : ReceiverView) (data acks : list BtpPacket)
  (sent delivered : list (list Z)) : Prop :=
  exists n h k,
    counts (v_sequence sv) n /\ counts (v_acked sv) h /\ counts (v_ackSent rv) k /\
    counts (v_incoming rv) (n - Z.of_nat (length data)) /\ 0 <= v_incoming rv /\
    numbered (n - Z.of_nat (length data)) data /\
    acks_between h k acks /\ k <= n - Z.of_nat (length data) /\
    n - h <= window /\
    exists st st' d, v_partial rv = (fst <$> st, snd <$> st) /\
      absorb_all st data = Some (st', d) /\ st' = v_progress sv /\
      delivered ++ d ++ v_unsent sv = sent.

Lemma counts_next v n : counts v n -> counts (next v) (n + 1).
Proof.
  intros [Hr Hm]. rewrite next_mod by done. split; [pose proof (Z.mod_pos_bound (v + 1) 256); lia|].
  rewrite Hm, Zplus_mod_idemp_l. done.
Qed.

(** Modular distances are real distances while less than 256 packets are
    outstanding. *)
Lemma counts_distance v w n m :
  counts v n -> counts w m -> 0 <= m - n < 256 -> modularDistance v w = m - n.
Proof.
  intros [_ Hn] [_ Hm] Hd. rewrite modularDistance_mod.
  replace (w - v) with ((w + 1) - (v + 1)) by lia.
  rewrite Zminus_mod, Hn, Hm, <- Zminus_mod. by apply Z.mod_small.
Qed.

Lemma acks_between_le h k ps : acks_between h k ps -> h <= k.
Proof.
  revert h. induction ps as [|p ps IH]; intros h; cbn; [done|].
  destruct (ackNumber _); [|auto]. intros (h' & _ & _ & ? & H%IH). lia.
Qed.

Lemma acks_between_mono h k k' ps : k <= k' -> acks_between h k ps -> acks_between h k' ps.
Proof.
  intros Hk. revert h. induction ps as [|p ps IH]; intros h; cbn; [lia|].
  destruct (ackNumber _); [|auto]. intros (h' & ? & ? & ? & H%IH). eauto 10.
Qed.

Lemma acks_between_snoc h k r ps p :
  acks_between h k ps -> k <= r ->
  (forall a, ackNumber (btp_payload p) = Some a -> counts a r /\ 0 <= a) ->
  acks_between h r (ps ++ [p]).
Proof.
  revert h. induction ps as [|q ps IH]; intros h H Hk Ha; cbn in *.
  - destruct (ackNumber (btp_payload p)) as [a|]; [|lia].
    destruct (Ha a eq_refl). exists r. split_and!; done || lia.
  - destruct (ackNumber (btp_payload q)); [|by apply IH].
    destruct H as (h' & ? & ? & ? & H). exists h'. auto 10.
Qed.

Lemma numbered_snoc n ps p :
  numbered n ps -> BtpCodec.sequenceNumber (btp_payload p) = (n + Z.of_nat (length ps)) mod 256 ->
  numbered n (ps ++ [p]).
Proof.
  revert n. induction ps as [|q ps IH]; intros n; cbn [numbered app length].
  - intros _ ->. split; [|done]. f_equal. lia.
  - intros [? H] Hp. split; [done|]. apply IH; [done|]. rewrite Hp. f_equal. lia.
Qed.

(** The sender emits a packet. *)
Lemma dir_send window sv rv data acks snt del sv' p d :
  dir window sv rv data acks snt del ->
  BtpCodec.sequenceNumber (btp_payload p) = next (v_sequence sv) ->
  v_sequence sv' = next (v_sequence sv) -> v_acked sv' = v_acked sv ->
  (forall n h, counts (v_sequence sv) n -> counts (v_acked sv) h -> 0 <= n - h < 256 -> n + 1 - h <= window) ->
  window <= 255 ->
  absorb (v_progress sv) p = Some (v_progress sv', d) -> d ++ v_unsent sv' = v_unsent sv ->
  dir window sv' rv (data ++ [p]) acks snt del.
Proof.
  intros (n & h & k & Cn & Ch & Ck & Cr & Hin & Hnum & Hacks & Hkr & Hwin & st & st' & d0 & Hp & Ha & Hst & Hd)
    Eseq Eseq' Eack Hroom Hw Habs Hun.
  pose proof (acks_between_le _ _ _ Hacks).
  exists (n + 1), h, k. rewrite length_app. cbn [length].
  replace (n + 1 - Z.of_nat (length data + 1)) with (n - Z.of_nat (length data)) by lia.
  rewrite Eseq', Eack. split_and!; try done.
  - by apply counts_next.
  - apply numbered_snoc; [done|]. rewrite Eseq. destruct Cn as [Cr1 Cm].
    rewrite next_mod, Cm by done. f_equal. lia.
  - apply (Hroom n h); [done|done|lia].
  - subst st'. exists st, (v_progress sv'), (d0 ++ d). split; [done|].
    split; [by eapply absorb_all_snoc|]. split; [done|].
    by rewrite <- app_assoc, Hun.
Qed.

(** The receiver emits a packet, with or without an acknowledgement. *)
Lemma dir_ack window sv rv data acks snt del rv' p :
  dir window sv rv data acks snt del ->
  (ackNumber (btp_payload p) = None /\ v_ackSent rv = v_incoming rv \/
   ackNumber (btp_payload p) = Some (v_incoming rv)) ->
  v_ackSent rv' = v_incoming rv -> v_incoming rv' = v_incoming rv -> v_partial rv' = v_partial rv ->
  dir window sv rv' data (acks ++ [p]) snt del.
Proof.
  intros (n & h & k & Cn & Ch & Ck & Cr & Hin & Hnum & Hacks & Hkr & Hwin & st & st' & d0 & Hp & Ha & Hst & Hd)
    Hack E1 E2 E3.
  exists n, h, (n - Z.of_nat (length data)). rewrite E1, E2, E3. split_and!; try done; try lia; eauto 10.
  eapply acks_between_snoc; [done|done|]. intros a Ea.
  destruct Hack as [[En _]|Es]; [by rewrite En in Ea|]. rewrite Es in Ea. by injection Ea as <-.
Qed.

(** ** Receiving a good packet *)

Definition of_partial (st : Partial) : option Z * option (list Z) := (fst <$> st, snd <$> st).

Definition incoming_is (s : Session) (st : Partial) : Prop :=
  (currentIncomingSegmentedMsgLength s, currentIncomingSegmentedPayload s) = of_partial st.

Lemma bind_pass {A} c e (k : unit -> M A) s : c = false -> mbind (mthrow_if c e) k s = k tt s.
Proof. intros ->. apply bind_lift_ok. Qed.

Lemma set_incoming_same s st : incoming_is s st -> set_incoming (fst <$> st) (snd <$> st) s = s.
Proof. unfold incoming_is, of_partial. intros [= <- <-]. by destruct s. Qed.

Lemma addSegment_absorbs s st st' p :
  incoming_is s st -> add_segment st p = Some st' ->
  addSegment (btp_header p) (messageLength (btp_payload p)) (segment_of p) s =
    (set_incoming (fst <$> st') (snd <$> st') s, [], Ok tt).
Proof.
  intros Hi Ha. unfold addSegment, add_segment in *. rewrite bind_get.
  pose proof Hi as Hi'. unfold incoming_is, of_partial in Hi. injection Hi as El Ep.
  destruct (isBeginningSegment (btp_header p)).
  { destruct st; [done|]. cbn in Ep. rewrite Ep.
    destruct (messageLength (btp_payload p)); [|done]. by injection Ha as <-. }
  destruct (_ || _).
  2: { injection Ha as <-. by rewrite set_incoming_same. }
  destruct st as [[len cur]|]; [|done]. cbn in El, Ep. rewrite El, Ep.
  destruct (byteLength (segment_of p) =? 0) eqn:E0; cbn [orb] in Ha; [done|].
  destruct (len <? _) eqn:E1; [done|]. injection Ha as <-.
  rewrite !bind_pass by done. rewrite concat2_app. by rewrite bind_lift_ok.
Qed.

Lemma takeMessage_takes s len msg :
  incoming_is s (Some (len, msg)) -> byteLength msg = len ->
  takeMessage s = (set_incoming None None s, [], Ok msg).
Proof.
  unfold incoming_is, of_partial. intros H <-. cbn in H. injection H as El Ep.
  unfold takeMessage. rewrite bind_get, El, Ep.
  rewrite bind_pass by (by rewrite Z.eqb_refl). by rewrite bind_set.
Qed.

(** What reception leaves alone, and what it sets. *)
Record received (s s1 : Session) (p : BtpPacket) (st' : Partial) : Prop := {
  rc_incoming : incoming_is s1 st';
  rc_seq : prevIncomingSequenceNumber s1 = BtpCodec.sequenceNumber (btp_payload p);
  rc_ack : prevIncomingAckNumber s1 = default (prevIncomingAckNumber s) (ackNumber (btp_payload p));
  rc_own_seq : sequenceNumber s1 = sequenceNumber s;
  rc_acked : prevAckedSequenceNumber s1 = prevAckedSequenceNumber s;
  rc_queue : queuedOutgoingMatterMessages s1 = queuedOutgoingMatterMessages s;
  rc_lock : sendInProgress s1 = sendInProgress s;
  rc_active : isActive s1 = isActive s;
  rc_writes : writes s1 = writes s;
}.

Lemma processAck_accepts a s :
  modularDistance (prevIncomingAckNumber s) a <= modularDistance (prevIncomingAckNumber s) (sequenceNumber s) ->
  exists b, processAck a s =
    (set_timers b (sendAckTimer s) (idleTimeout s) (set_prevIncomingAckNumber a s), [], Ok tt).
Proof.
  intros H. unfold processAck. rewrite bind_get, bind_pass by (apply Z.ltb_ge; lia).
  rewrite !bind_set. unfold mset. cbn [sequenceNumber set_prevIncomingAckNumber set_timers].
  destruct (negb _); [exists true|exists false]; by destruct s.
Qed.

(** A packet the peer may have sent. *)
Record good (limit : Z) (p : BtpPacket) : Prop := {
  good_consistent : consistent p = true;
  good_fits : packet_fits p;
  good_size : byteLength (packet_image p) <= limit;
  good_content : is_some (ackNumber (btp_payload p)) = true \/ byteLength (segment_of p) <> 0;
}.

Lemma consistent_flags p :
  consistent p = true ->
  isHandshakeRequest (btp_header p) = false /\ hasManagementOpcode (btp_header p) = false /\
  hasAckNumber (btp_header p) = is_some (ackNumber (btp_payload p)).
Proof.
  unfold consistent. rewrite !andb_true_iff, !negb_true_iff, !eqb_true_iff.
  intros ((((((? & ?) & ?) & _) & _) & _) & _). done.
Qed.

Lemma handlePacket_good cfg s p st st' d :
  good (fragmentSize cfg + 3) p -> incoming_is s st -> absorb st p = Some (st', d) ->
  0 <= prevIncomingSequenceNumber s ->
  BtpCodec.sequenceNumber (btp_payload p) = (prevIncomingSequenceNumber s + 1) mod 256 ->
  (forall a, ackNumber (btp_payload p) = Some a ->
     modularDistance (prevIncomingAckNumber s) a <=
     modularDistance (prevIncomingAckNumber s) (sequenceNumber s)) ->
  exists s1, received s s1 p st' /\
    handlePacket cfg (packet_image p) s =
      if isEndingSegment (btp_header p)
      then (set_suspended (writes s1) (S (deliveries s1)) s1, map EDeliver d, Ok tt)
      else handlerRest cfg s1.
Proof.
  intros [Hc Hf Hsz Hct] Hi Habs H0 Hseq Hack.
  destruct (consistent_flags p Hc) as (F1 & F2 & F3).
  unfold handlePacket.
  rewrite bind_pass by (apply andb_false_intro2, Z.ltb_ge; lia).
  rewrite decodeBtpPacket_image, bind_lift_ok by done. cbn [with_payload btp_header btp_payload].
  cbn [segmentPayload ackNumber messageLength BtpCodec.sequenceNumber from_option Datatypes.id].
  fold (segment_of p).
  rewrite bind_pass by (by rewrite F1, F2).
  rewrite bind_pass by (rewrite F3; destruct Hct as [-> |]; [by rewrite andb_false_r|];
    destruct (Z.eqb_spec (byteLength (segment_of p)) 0); [lia|done]).
  rewrite bind_get, bind_pass by (rewrite Z.rem_mod_nonneg by lia; by rewrite Hseq, Z.eqb_refl).
  rewrite !bind_set. set (s2 := (if sendAckTimer _ then _ else _)).
  assert (Hs2 : received s (set_prevIncomingAckNumber
    (default (prevIncomingAckNumber s) (ackNumber (btp_payload p))) s2) p st).
  { unfold s2. destruct (sendAckTimer _); split; done. }
  assert (exists s3, received s s3 p st /\ forall (k : unit -> M unit),
    mbind match ackNumber (btp_payload p) with
     | Some a => if hasAckNumber (btp_header p) then processAck a else mret tt
     | None => mret tt end k s2 = k tt s3) as (s3 & Hs3 & E3).
  { destruct (ackNumber (btp_payload p)) as [a|] eqn:Ea.
    - rewrite F3. cbn [is_some]. destruct (processAck_accepts a s2) as [b Eb].
      { unfold s2. specialize (Hack a eq_refl). by destruct (sendAckTimer _). }
      eexists. split; [|intros k; by apply bind_eq]. destruct Hs2; split; done.
    - exists s2. split; [|intros k; apply bind_ret]. unfold s2.
      destruct (sendAckTimer _); split; done || (by rewrite Ea). }
  rewrite E3. unfold absorb in Habs. destruct (add_segment st p) as [sta|] eqn:Ea; [|done].
  rewrite (bind_eq _ _ _ _ _ (addSegment_absorbs _ _ _ _ (rc_incoming _ _ _ _ Hs3) Ea)).
  assert (Hs4 : received s (set_incoming (fst <$> sta) (snd <$> sta) s3) p sta)
    by (destruct Hs3; split; done).
  destruct (isEndingSegment (btp_header p)).
  - destruct sta as [[len msg]|]; [|done]. destruct (Z.eqb_spec (byteLength msg) len) as [El|]; [|done].
    injection Habs as <- <-.
    rewrite (bind_eq _ _ _ _ _ (takeMessage_takes _ _ _ (rc_incoming _ _ _ _ Hs4) El)).
    eexists. split; [|reflexivity]. destruct Hs4; split; done.
  - injection Habs as <- <-. eexists. split; [exact Hs4|done].
Qed.

(** ** Segments settle *)

(** The result of a handler segment that returns: nothing sent, or one packet
    sent from a state with no write in flight. *)
Definition settles (cfg : Config) (s : Session) (r : Session * list Effect * result unit) : Prop :=
  (exists s', r = (s', [], Ok tt) /\ quiet s s') \/
  (exists s' after p, r = (s', [EWrite (packet_image p)], Ok tt) /\ sent cfg after s s' p /\ writes s = []).

Lemma quiet_refl s : quiet s s.
Proof. done. Qed.

Lemma quiet_trans s1 s2 s3 : quiet s1 s2 -> quiet s2 s3 -> quiet s1 s3.
Proof. unfold quiet, same_rest. intuition congruence. Qed.

Lemma sent_quiet cfg after s s1 s' p : quiet s s1 -> sent cfg after s1 s' p -> sent cfg after s s' p.
Proof.
  intros ((R1 & R2 & R3 & R4 & R5 & R6) & E1 & E2 & E3 & E4) Hs.
  assert (Ep : pendingAck s1 = pendingAck s) by (unfold pendingAck; by rewrite R3, E2).
  assert (Ec : forall b, canSend cfg s1 b = canSend cfg s b)
    by (intros b; unfold canSend, remoteWindowFreeSlots; by rewrite R4, E1).
  destruct Hs as [(Q1 & Q2 & Q3 & Q4 & Q5 & Q6) Hr Ha Hq1 Hq2 Hk Hl Hc Hd].
  rewrite Ep, ?Ec, ?E1, ?R3, ?E2, ?E3, ?E4 in *.
  split; try done. split_and!; congruence.
Qed.

Lemma settles_quiet cfg s s1 r :
  quiet s s1 -> settles cfg s1 r -> settles cfg s r.
Proof.
  intros Hq [(s' & -> & H)|(s' & after & p & -> & H & Hw)].
  - left. exists s'. split; [done|]. by eapply quiet_trans.
  - right. exists s', after, p. split; [done|]. split; [by eapply sent_quiet|].
    by destruct Hq as (_ & _ & _ & _ & <-).
Qed.

Section Settle.
Context (cfg : Config) (Hfs : 6 <= fragmentSize cfg).

Lemma sendImmediate_settles s :
  (sendInProgress s = false -> writes s = []) ->
  settles cfg s ((let% _ := sendImmediateAckIfWindowLow cfg in mret tt) s).
Proof using.
  intros Hw. destruct (sendInProgress s) eqn:El.
  { left. exists s. split; [|done]. unfold sendImmediateAckIfWindowLow.
    erewrite bind_eq; [done|]. rewrite bind_get, El, orb_true_r. done. }
  destruct (sendImmediateAck_outcome cfg s) as [(s' & E & Hq & _)|(s' & p & E & Hs)];
    unfold mbind; rewrite E.
  - left. by exists s'.
  - right. exists s', HandlerEnd, p. auto.
Qed.

Lemma continue_settles (m : M bool) after after' s :
  outcome cfg after false s (m s) -> writes s = [] ->
  settles cfg s ((let% b := m in continue cfg after' b) s).
Proof using.
  intros Ho Hw. unfold mbind. destruct Ho as [(s1 & -> & Hq & Hl)|(s1 & p & -> & Hs)].
  - assert (Hw1 : writes s1 = []) by (by destruct Hq as (_ & _ & _ & _ & ->)).
    destruct after'; cbn [continue].
    1,3: left; exists s1; done.
    pose proof (sendImmediate_settles s1 (fun _ => Hw1)) as H.
    eapply settles_quiet; [exact Hq|].
    destruct ((let% _ := sendImmediateAckIfWindowLow cfg in mret tt) s1) as [[s2 e2] r]. exact H.
  - right. exists s1, after, p. destruct after'; done.
Qed.

Lemma handlerRest_settles s : inv cfg s -> settles cfg s (handlerRest cfg s).
Proof using Hfs.
  intros H. pose proof (inv_lock _ _ H) as Hl. unfold handlerRest.
  destruct (writes s) as [|w [|]] eqn:Ew; [| |done].
  - apply (continue_settles _ ThenAckIfLow); [|done]. rewrite <- Hl.
    apply processSendQueue_outcome; [done|by eapply inv_head].
  - assert (E : processSendQueue cfg ThenAckIfLow s = (s, [], Ok false))
      by (unfold processSendQueue; by rewrite bind_get, Hl).
    rewrite (bind_eq _ _ _ _ _ E). apply sendImmediate_settles. by rewrite Hl.
Qed.

Lemma catching_ok after m s s' effs :
  m s = (s', effs, Ok tt) -> catching after m s = (s', effs, Ok tt).
Proof using. intros E. destruct after; cbn; [done|..]; unfold mcatch; by rewrite E. Qed.

Lemma settles_result s r : settles cfg s r -> exists s' effs, r = (s', effs, Ok tt).
Proof using. intros [(s' & -> & _)|(s' & a & p & -> & _)]; eauto. Qed.

Lemma catching_settles after m s1 s :
  settles cfg s1 (m s) -> settles cfg s1 (catching after m s).
Proof using.
  intros H. destruct (settles_result _ _ H) as (s' & effs & E).
  by rewrite (catching_ok _ _ _ _ _ E), <- E.
Qed.

End Settle.

(** ** The steps of one endpoint *)

(** The inputs, apart from received packets, of a session that nothing outside
    closes: messages that fit the 16-bit length field, writes and deliveries that
    succeed, the timer that sends an acknowledgement.  The other two timers and
    [close] end the session and are left out. *)
Definition local_input (i : Input) : Prop :=
  match i with
  | AppSend data => 0 < byteLength data < 2 ^ 16
  | WriteDone _ o => o = Written
  | DeliveryDone r => r = Ok tt
  | SendAckTimeout => True
  | _ => False
  end.

Definition sent_by (i : Input) : list (list Z) :=
  match i with AppSend data => [data] | _ => [] end.

(** [adjusts s s1 msgs]: before anything is sent the input only queues
    [msgs] and does bookkeeping. *)
Record adjusts (s s1 : Session) (msgs : list (list Z)) : Prop := {
  adj_receiver : receiver_view s1 = receiver_view s;
  adj_seq : sequenceNumber s1 = sequenceNumber s;
  adj_ack : prevIncomingAckNumber s1 = prevIncomingAckNumber s;
  adj_unsent : unsent s1 = unsent s ++ msgs;
  adj_progress : progress_of s1 = progress_of s;
  adj_fresh : queue_fresh s1;
  adj_queue : queue_ok s1;
  adj_active : isActive s1 = isActive s;
}.

Lemma append_adjusts cfg s data :
  inv cfg s -> queue_fresh s -> 0 < byteLength data < 2 ^ 16 ->
  let s1 := set_queue (queuedOutgoingMatterMessages s ++ [Reader.new data true]) s in
  adjusts s s1 [data] /\ inv cfg s1.
Proof.
  intros [H1 H2 H3 H4 Hq] (Hf1 & Hf2 & Hf3) Hd. cbn zeta.
  set (s1 := set_queue _ s).
  assert (Hqok : queue_ok s1).
  { unfold queue_ok, finishing, s1 in *; cbn.
    destruct (queuedOutgoingMatterMessages s) as [|cur rest]; cbn.
    - split; [destruct (existsb _ _); [done|unfold reader_ok, Reader.length; cbn; lia]|constructor].
    - destruct Hq. split; [done|]. apply Forall_app. split; [done|].
      constructor; [unfold reader_ok, Reader.length; cbn; lia|constructor]. }
  split; [|by split].
  split; try done.
  - unfold unsent, finishing, s1; cbn. rewrite map_app. cbn.
    destruct (existsb _ _) eqn:E; [|done].
    destruct (queuedOutgoingMatterMessages s) as [|cur rest]; [|done].
    by specialize (Hf3 E).
  - unfold progress_of, finishing, s1; cbn.
    destruct (queuedOutgoingMatterMessages s) as [|cur rest]; cbn; [|done].
    by rewrite orb_true_r.
  - unfold queue_fresh, s1; cbn. split_and!.
    + apply Forall_app. split; [done|]. constructor; [|constructor].
      unfold Reader.length; cbn. lia.
    + destruct (queuedOutgoingMatterMessages s); cbn in *; [constructor|].
      apply Forall_app. split; [done|]. by constructor.
    + intros _. by destruct (queuedOutgoingMatterMessages s).
Qed.

(** Bookkeeping that touches neither the views nor the queue. *)
Lemma frame_adjusts s s1 :
  receiver_view s1 = receiver_view s -> sequenceNumber s1 = sequenceNumber s ->
  prevIncomingAckNumber s1 = prevIncomingAckNumber s ->
  queuedOutgoingMatterMessages s1 = queuedOutgoingMatterMessages s ->
  finishing s1 = finishing s -> isActive s1 = isActive s ->
  queue_fresh s -> queue_ok s -> adjusts s s1 [].
Proof.
  intros E1 E2 E3 E4 E5 E6 Hf Hq.
  split; unfold unsent, progress_of, queue_fresh, queue_ok in *; rewrite ?E4, ?E5, ?app_nil_r; done.
Qed.

Section Endpoint.
Context (cfg : Config) (Hfs : 6 <= fragmentSize cfg) (Hw : windowLimit cfg <= 255).

Lemma written_data_settles s en prev after :
  inv cfg s -> queue_fresh s -> writes s = [WritingData en prev after] ->
  exists s1, adjusts s s1 [] /\
    settles cfg s1 (resume cfg (WritingData en prev after) Written (set_suspended [] (deliveries s) s)).
Proof using Hfs.
  intros [H1 H2 H3 Hl Hq] (Hf1 & Hf2 & Hf3) Ew. rewrite Ew in Hl.
  unfold finishing in Hf3. unfold queue_ok, finishing in Hq. rewrite Ew in Hq, Hf3.
  cbn in Hq, Hf3. rewrite orb_false_r in Hq, Hf3.
  set (s0 := set_suspended [] (deliveries s) s).
  set (sa := startAckReceiveTimer s0).
  set (sb := if decide (role cfg = Central) then set_timers (ackReceiveTimer sa) (sendAckTimer sa) true sa else sa).
  set (s1 := if en then set_queue (tail (queuedOutgoingMatterMessages sb)) sb else sb).
  assert (Eq : queuedOutgoingMatterMessages s1 =
               if en then tail (queuedOutgoingMatterMessages s) else queuedOutgoingMatterMessages s).
  { unfold s1, sb, sa, startAckReceiveTimer. by destruct en, (decide _), (ackReceiveTimer s0). }
  assert (Ew1 : writes s1 = [] /\ sendInProgress s1 = true /\ sequenceNumber s1 = sequenceNumber s /\
    prevIncomingAckNumber s1 = prevIncomingAckNumber s /\ receiver_view s1 = receiver_view s /\
    isActive s1 = isActive s)
    by (unfold s1, sb, sa, startAckReceiveTimer; by destruct en, (decide _), (ackReceiveTimer s0)).
  destruct Ew1 as (Ew1 & El1 & E1 & E2 & E3 & E4).
  assert (Hok : queue_ok s1).
  { unfold queue_ok, finishing. rewrite Ew1, Eq. cbn.
    destruct en, (queuedOutgoingMatterMessages s) as [|cur [|nx rest]]; cbn; try done;
      destruct Hq as [? Hr]; rewrite ?Forall_cons in Hr; tauto. }
  assert (Hfr : queue_fresh s1).
  { unfold queue_fresh, finishing. rewrite Ew1, Eq. cbn.
    destruct en, (queuedOutgoingMatterMessages s) as [|cur [|nx rest]]; cbn in *;
      rewrite ?Forall_cons in *; try tauto; intuition (done || constructor). }
  exists s1. split.
  - split; try done.
    + unfold unsent, finishing. rewrite Ew1, Ew, Eq, app_nil_r. cbn.
      by destruct en, (queuedOutgoingMatterMessages s).
    + unfold progress_of, finishing. rewrite Ew1, Ew, Eq. cbn.
      destruct en, (queuedOutgoingMatterMessages s) as [|cur [|nx rest]]; cbn in *; try done.
      rewrite Forall_cons in Hf2. destruct Hf2 as [-> _]. done.
  - unfold resume. cbn [after_of]. apply catching_settles. unfold resumeData.
    unfold mbind at 1. rewrite !bind_set. fold sa sb s1.
    pose proof (continue_settles cfg (sendLoop cfg after) after after s1) as Hc.
    unfold mbind at 1 in Hc. apply Hc; [|done]. apply sendLoop_outcome; [done| |done].
    unfold head_ok, queue_ok, finishing in *. rewrite Ew1 in Hok.
    by destruct (queuedOutgoingMatterMessages s1); [|destruct Hok].
Qed.

Lemma written_ack_settles s prev after :
  inv cfg s -> queue_fresh s -> writes s = [WritingAck prev after] ->
  exists s1, adjusts s s1 [] /\
    settles cfg s1 (resume cfg (WritingAck prev after) Written (set_suspended [] (deliveries s) s)).
Proof using Hfs.
  intros [H1 H2 H3 Hl Hq] Hf Ew.
  set (s0 := set_suspended [] (deliveries s) s).
  set (sa := startAckReceiveTimer (set_timers (ackReceiveTimer s0) false (idleTimeout s0) s0)).
  set (s1 := set_sendInProgress false sa).
  assert (Hfin : finishing s = false) by (unfold finishing; by rewrite Ew).
  assert (Hf1 : writes s1 = [] /\ sendInProgress s1 = false /\
    queuedOutgoingMatterMessages s1 = queuedOutgoingMatterMessages s)
    by (unfold s1, sa, startAckReceiveTimer; by destruct (ackReceiveTimer _)).
  destruct Hf1 as (Ew1 & El1 & Eq1).
  assert (Hadj : adjusts s s1 []).
  { apply frame_adjusts; try done; try (unfold s1, sa, startAckReceiveTimer; by destruct (ackReceiveTimer _)). }
  exists s1. split; [done|].
  unfold resume. cbn [after_of]. apply catching_settles. unfold resumeAck.
  unfold mbind at 1. rewrite !bind_set. fold sa s1.
  pose proof (continue_settles cfg (processSendQueue cfg after) after after s1) as Hc.
  unfold mbind at 1 in Hc. apply Hc; [|done]. rewrite <- El1.
  apply processSendQueue_outcome; [done|]. pose proof (adj_queue _ _ _ Hadj) as Hok.
  unfold head_ok, queue_ok, finishing in *. rewrite Ew1 in Hok.
  by destruct (queuedOutgoingMatterMessages s1); [|destruct Hok].
Qed.

Lemma local_step s i :
  inv cfg s -> queue_fresh s -> isActive s = true -> local_input i ->
  exists s1, adjusts s s1 (sent_by i) /\ settles cfg s1 (step cfg i s).
Proof using Hfs Hw.
  intros H Hf Ha Hi. destruct i as [data|data|r|j o| | | | |r]; cbn [local_input] in Hi; try done.
  - destruct (append_adjusts cfg s data H Hf Hi) as [Hadj H1].
    set (s1 := set_queue _ s) in *. exists s1. split; [done|]. cbn [step]. unfold sendMatterMessage.
    rewrite bind_get, bind_pass, bind_pass, bind_set; cycle 1.
    { apply Z.eqb_neq. lia. }
    { by rewrite Ha. }
    cbn beta. fold s1.
    pose proof (inv_lock _ _ H1) as Hl. destruct (writes s1) as [|w [|]] eqn:Ew; [| |done].
    + pose proof (continue_settles cfg (processSendQueue cfg Detached) Detached Detached s1) as Hc.
      apply Hc; [|done]. rewrite <- Hl. apply processSendQueue_outcome; [done|by eapply inv_head].
    + left. exists s1. split; [|done]. erewrite bind_eq; [done|].
      unfold processSendQueue. by rewrite bind_get, Hl.
  - subst r. cbn [step sent_by]. rewrite bind_get. destruct (deliveries s) as [|d].
    { exists s. split; [|left; by exists s]. apply frame_adjusts; try done. by destruct H. }
    rewrite bind_set. exists (set_suspended (writes s) d s). split.
    { apply frame_adjusts; try done. by destruct H. }
    apply catching_settles, handlerRest_settles; [done|]. by apply (inv_frame cfg s).
  - subst o. cbn [step sent_by]. rewrite bind_get. destruct (writes s !! j) as [w|] eqn:Ej.
    2: { exists s. split; [|left; by exists s]. apply frame_adjusts; try done. by destruct H. }
    rewrite bind_set. pose proof (inv_lock _ _ H) as Hl.
    destruct (writes s) as [|w' [|]] eqn:Ew; [done| |done].
    destruct j as [|j]; [|done]. injection Ej as ->. cbn [delete list_delete].
    destruct w as [en prev after|prev after]; [by apply written_data_settles|by apply written_ack_settles].
  - cbn [step sent_by]. unfold btpSendAckTimeoutTriggered. rewrite bind_set, bind_get.
    set (s1 := set_timers _ _ _ s). assert (isActive s1 = true) as -> by done. cbn [negb].
    assert (H1 : inv cfg s1) by (by apply (inv_frame cfg s)).
    exists s1. split. { apply frame_adjusts; try done. by destruct H. }
    pose proof (inv_lock _ _ H1) as Hl. destruct (writes s1) as [|w [|]] eqn:Ew; [| |done].
    + apply (continue_settles cfg (sendStandaloneAck cfg Detached) Detached Detached s1); [|done].
      rewrite <- Hl. apply sendStandaloneAck_outcome.
    + left. exists s1. split; [|done]. erewrite bind_eq; [done|].
      unfold sendStandaloneAck. by rewrite bind_get, Hl.
Qed.

End Endpoint.

(** ** One direction when a packet arrives *)

Lemma counts_same v n m : counts v n -> n mod 256 = m mod 256 -> counts v m.
Proof. intros [Hr Hm] E. split; [done|congruence]. Qed.

(** The receiver takes the first data packet. *)
Lemma dir_receive window sv rv p data acks snt del :
  dir window sv rv (p :: data) acks snt del ->
  exists st st' d,
    v_partial rv = of_partial st /\ absorb st p = Some (st', d) /\ 0 <= v_incoming rv /\
    BtpCodec.sequenceNumber (btp_payload p) = (v_incoming rv + 1) mod 256 /\
    forall rv', v_incoming rv' = BtpCodec.sequenceNumber (btp_payload p) ->
      v_ackSent rv' = v_ackSent rv -> v_partial rv' = of_partial st' ->
      dir window sv rv' data acks snt (del ++ d).
Proof.
  intros (n & h & k & Cn & Ch & Ck & Cr & Hin & Hnum & Hacks & Hkr & Hwin & st & st' & d0 & Hp & Ha & Hst & Hd).
  cbn [absorb_all numbered length] in *. destruct Hnum as [Hseq Hnum].
  destruct (absorb st p) as [[st1 d1]|] eqn:E; [|done].
  destruct (absorb_all st1 data) as [[st2 d2]|] eqn:E2; [|done]. injection Ha as <- <-.
  exists st, st1, d1. split; [done|]. split; [done|]. split; [done|].
  set (m := n - Z.of_nat (S (length data))) in *.
  assert (Em : n - Z.of_nat (length data) = m + 1) by lia.
  split; [by rewrite Hseq; destruct Cr as [_ ->]|].
  intros rv' E3 E4 E5. exists n, h, k. rewrite E3, E4, E5, Em.
  assert (Hr : 0 <= BtpCodec.sequenceNumber (btp_payload p) <= 255)
    by (rewrite Hseq; pose proof (Z.mod_pos_bound m 256); lia).
  split_and!; try done; try lia.
  - split; [lia|]. rewrite Hseq, Zplus_mod_idemp_l. done.
  - exists st1, st2, d2. split_and!; try done. by rewrite <- !app_assoc in *.
Qed.

(** The sender takes the first packet of the reverse direction. *)
Lemma dir_acked window sv rv p data acks snt del :
  window <= 255 ->
  dir window sv rv data (p :: acks) snt del ->
  (forall a, ackNumber (btp_payload p) = Some a ->
     modularDistance (v_acked sv) a <= modularDistance (v_acked sv) (v_sequence sv)) /\
  forall sv', v_sequence sv' = v_sequence sv ->
    v_acked sv' = default (v_acked sv) (ackNumber (btp_payload p)) ->
    v_unsent sv' = v_unsent sv -> v_progress sv' = v_progress sv ->
    dir window sv' rv data acks snt del.
Proof.
  intros Hw (n & h & k & Cn & Ch & Ck & Cr & Hin & Hnum & Hacks & Hkr & Hwin & Hst).
  cbn [acks_between] in Hacks. destruct (ackNumber (btp_payload p)) as [a|]; cbn [from_option Datatypes.id].
  - destruct Hacks as (h' & Ca & Ha0 & Hh & Hacks). pose proof (acks_between_le _ _ _ Hacks).
    split.
    + intros a' [= <-]. rewrite (counts_distance _ _ h h'), (counts_distance _ _ h n) by (done || lia). lia.
    + intros sv' E1 E2 E3 E4. exists n, h', k. rewrite E1, E2, E3, E4. split_and!; done || lia.
  - split; [done|]. intros sv' E1 E2 E3 E4. exists n, h, k. rewrite E1, E2, E3, E4. split_and!; done.
Qed.

(** ** Endpoints and the link *)

Record Endpoint := mkEndpoint {
  session : Session;
  accepted : list (list Z);
  handedOver : list (list Z);
}.

Definition written_in (effs : list Effect) : list (list Z) :=
  omap (fun e => match e with EWrite p => Some p | _ => None end) effs.
Definition delivered_in (effs : list Effect) : list (list Z) :=
  omap (fun e => match e with EDeliver m => Some m | _ => None end) effs.

(** One asynchronous segment of one endpoint; [out] and [inc] are the packets
    in flight from and to it. *)
Inductive acts (cfg : Config) (e : Endpoint) (out : list (list Z))
  : list (list Z) -> Endpoint -> list (list Z) -> list (list Z) -> result unit -> Prop :=
| acts_local inc i s' effs r :
    local_input i -> step cfg i (session e) = (s', effs, r) ->
    acts cfg e out inc
      (mkEndpoint s' (accepted e ++ sent_by i) (handedOver e ++ delivered_in effs))
      (out ++ written_in effs) inc r
| acts_receive packet inc s' effs r :
    step cfg (BleData packet) (session e) = (s', effs, r) ->
    acts cfg e out (packet :: inc)
      (mkEndpoint s' (accepted e) (handedOver e ++ delivered_in effs))
      (out ++ written_in effs) inc r.

Definition healthy (cfg : Config) (e : Endpoint) : Prop :=
  inv cfg (session e) /\ queue_fresh (session e) /\ isActive (session e) = true.

(** The link invariant, symmetric in the two endpoints. *)
Definition linked (cx cy : Config) (x y : Endpoint) (xy yx : list (list Z)) : Prop :=
  exists data acks, xy = map packet_image data /\ yx = map packet_image acks /\
    Forall (good (fragmentSize cy + 3)) data /\ Forall (good (fragmentSize cx + 3)) acks /\
    dir (windowLimit cx) (sender_view (session x)) (receiver_view (session y)) data acks
      (accepted x) (handedOver y) /\
    dir (windowLimit cy) (sender_view (session y)) (receiver_view (session x)) acks data
      (accepted y) (handedOver x) /\
    healthy cx x /\ healthy cy y.

Lemma linked_sym cx cy x y xy yx : linked cx cy x y xy yx -> linked cy cx y x yx xy.
Proof. intros (d & a & ? & ? & ? & ? & ? & ? & ? & ?). exists a, d. done. Qed.

Lemma good_mono l l' p : l <= l' -> good l p -> good l' p.
Proof. intros Hl [? ? ? ?]. split; try done. lia. Qed.

Lemma sent_fresh cfg after s s' p :
  writes s = [] -> queue_fresh s -> sent cfg after s s' p -> queue_fresh s'.
Proof.
  intros Hw (Hf1 & Hf2 & _) Hs. unfold queue_fresh, finishing.
  destruct (sent_kind _ _ _ _ _ Hs) as [(_ & Eq & Ew)|(cur & rest & n & En & Hn & Eq & _ & Eq' & Ew)].
  - rewrite Eq, Ew, Hw. done.
  - rewrite Eq in *. rewrite Eq'. split_and!; [|done|done].
    rewrite Forall_cons in *. destruct Hf1 as [[H0 Hl] Hr]. split; [|done].
    unfold Reader.remainingBytesCount, Reader.length in *; cbn in *.
    destruct (Z.min_spec n (byteLength (Reader.buffer cur) - Reader.offset cur)) as [[? ->]|[? ->]].
    + lia.
    + unfold byteLength in *. lia.
Qed.

Lemma sent_good cfg after s s' p :
  6 <= fragmentSize cfg -> writes s = [] -> queue_ok s -> queue_fresh s ->
  -1 <= sequenceNumber s <= 255 -> 0 <= prevIncomingSequenceNumber s <= 255 ->
  sent cfg after s s' p -> good (fragmentSize cfg) p.
Proof.
  intros Hfs Hw Hq (Hf & _) Hseq Hin Hs.
  unfold queue_ok, finishing in Hq. rewrite Hw in Hq. cbn in Hq.
  assert (Hh : head_ok s) by (unfold head_ok; by destruct (queuedOutgoingMatterMessages s); [|destruct Hq]).
  pose proof (next_range _ Hseq) as Hnx.
  split; [apply Hs|..].
  - split_and!.
    + intros a Ea. rewrite (sent_ack _ _ _ _ _ Hs) in Ea. unfold pendingAck in Ea.
      destruct (_ =? _); [done|]. injection Ea as <-. lia.
    + rewrite (sent_seq _ _ _ _ _ Hs). lia.
    + rewrite (sent_seq _ _ _ _ _ Hs). lia.
    + destruct (sent_kind _ _ _ _ _ Hs) as [(-> & _)|(cur & rest & n & En & Hn & Eq & -> & _)]; [done|].
      intros v. cbn. rewrite Eq in Hq, Hf. destruct Hq as [Hr _]. rewrite Forall_cons in Hf.
      destruct Hf as [[_ Hl] _]. unfold reader_ok, Reader.remainingBytesCount, Reader.length in *.
      destruct (_ =? _); [|done]. intros [= <-]. lia.
  - by eapply sent_size.
  - destruct (sent_kind _ _ _ _ _ Hs) as [(-> & _)|(cur & rest & n & En & Hn & Eq & -> & _)]; [by left|].
    right. unfold segment_of; cbn. rewrite Eq in Hq. destruct Hq as [Hr _].
    unfold reader_ok, Reader.remainingBytesCount, Reader.length in *.
    rewrite subarray_length by lia. lia.
Qed.

(** The invariants of both directions survive a settled segment of the
    sender side. *)
Lemma settles_dir cx wy s1 s' effs svy rvy data acks snt del snty delx :
  6 <= fragmentSize cx -> windowLimit cx <= 255 ->
  settles cx s1 (s', effs, Ok tt) -> queue_ok s1 -> queue_fresh s1 ->
  -1 <= sequenceNumber s1 <= 255 -> 0 <= prevIncomingSequenceNumber s1 <= 255 ->
  dir (windowLimit cx) (sender_view s1) rvy data acks snt del ->
  dir wy svy (receiver_view s1) acks data snty delx ->
  exists ps, written_in effs = map packet_image ps /\ delivered_in effs = [] /\
    Forall (good (fragmentSize cx)) ps /\
    dir (windowLimit cx) (sender_view s') rvy (data ++ ps) acks snt del /\
    dir wy svy (receiver_view s') acks (data ++ ps) snty delx /\
    queue_fresh s' /\ isActive s' = isActive s1.
Proof.
  intros Hfs Hw Hset Hq Hf Hseq Hin Hxy Hyx.
  destruct Hset as [(s2 & [= <- ->] & (R1 & R2 & R3 & R4 & R5 & R6) & E1 & E2 & E3 & E4)
                   |(s2 & after & p & [= <- ->] & Hs & Hwr)].
  - exists []. rewrite !app_nil_r.
    assert (sender_view s' = sender_view s1) as ->
      by (unfold sender_view, unsent, progress_of, finishing; by rewrite E1, R4, E3, E4).
    assert (receiver_view s' = receiver_view s1) as ->
      by (unfold receiver_view; by rewrite R1, R2, R3, E2).
    split_and!; try done. unfold queue_fresh, finishing in *. by rewrite E3, E4.
  - exists [p]. destruct (sent_absorb _ _ _ _ _ Hwr Hq Hf Hs) as (d & Habs & Hun).
    pose proof (sent_rest _ _ _ _ _ Hs) as (R1 & R2 & R3 & R4 & R5 & R6).
    split_and!; try done.
    + constructor; [by eapply sent_good|constructor].
    + eapply dir_send; [exact Hxy|apply Hs|apply Hs|exact R4| |done|exact Habs|exact Hun].
      intros n h Cn Ch Hnh. cbn in Cn, Ch.
      destruct (sent_window _ _ _ Hseq Hw (sent_room _ _ _ _ _ Hs)) as [_ Hle].
      rewrite (counts_distance _ _ h n) in Hle by done. destruct (is_some _); lia.
    + eapply dir_ack; [exact Hyx| |apply Hs|exact R3|cbn; by rewrite R1, R2].
      rewrite (sent_ack _ _ _ _ _ Hs). unfold pendingAck, receiver_view; cbn.
      destruct (Z.eqb_spec (prevIncomingSequenceNumber s1) (prevAckedSequenceNumber s1)); auto.
    + by eapply sent_fresh.
Qed.

Lemma dir_queue window sv rv data acks snt del sv' msgs :
  dir window sv rv data acks snt del ->
  v_sequence sv' = v_sequence sv -> v_acked sv' = v_acked sv ->
  v_unsent sv' = v_unsent sv ++ msgs -> v_progress sv' = v_progress sv ->
  dir window sv' rv data acks (snt ++ msgs) del.
Proof.
  intros (n & h & k & H) E1 E2 E3 E4. exists n, h, k. rewrite E1, E2, E3, E4.
  destruct H as (? & ? & ? & ? & ? & ? & ? & ? & ? & st & st' & d & ? & ? & ? & <-).
  split_and!; try done. exists st, st', d. split_and!; try done. by rewrite <- !app_assoc.
Qed.

Lemma received_inv cfg s s1 p st' :
  inv cfg s -> received s s1 p st' ->
  0 <= BtpCodec.sequenceNumber (btp_payload p) <= 255 ->
  (forall a, ackNumber (btp_payload p) = Some a ->
     modularDistance (prevIncomingAckNumber s) a <=
     modularDistance (prevIncomingAckNumber s) (sequenceNumber s)) ->
  inv cfg s1.
Proof.
  intros [H1 H2 H3 H4 H5] [R1 R2 R3 R4 R5 R6 R7 R8 R9] Hp Ha.
  split; rewrite ?R2, ?R4, ?R7, ?R9; try done.
  - rewrite R3. destruct (ackNumber (btp_payload p)) as [a|]; cbn; [|done].
    specialize (Ha a eq_refl). rewrite (ack_window (prevIncomingAckNumber s)) by done.
    pose proof (modularDistance_mod (prevIncomingAckNumber s) a).
    pose proof (Z.mod_pos_bound (a - prevIncomingAckNumber s) 256). lia.
  - unfold queue_ok, finishing in *. by rewrite R6, R9.
Qed.

Lemma delivered_map d :
  delivered_in (map EDeliver d) = d /\ written_in (map EDeliver d) = [].
Proof. induction d as [|m d [IH1 IH2]]; [done|]. cbn. split; [by f_equal|done]. Qed.

Section Link.
Context (cx cy : Config).
Hypothesis Hfx : 6 <= fragmentSize cx.
Hypothesis Hwx : windowLimit cx <= 255.
Hypothesis Hxy : fragmentSize cx <= fragmentSize cy + 3.

Lemma local_linked x y out inc i s' effs r :
  linked cx cy x y out inc -> local_input i -> step cx i (session x) = (s', effs, r) ->
  r = Ok tt /\
  linked cx cy (mkEndpoint s' (accepted x ++ sent_by i) (handedOver x ++ delivered_in effs)) y
    (out ++ written_in effs) inc.
Proof using Hfx Hwx Hxy.
  intros (data & acks & -> & -> & Hgd & Hga & Dxy & Dyx & (Hi & Hf & Ha) & Hy) Hloc E.
  destruct (local_step cx Hfx Hwx (session x) i Hi Hf Ha Hloc) as (s1 & Hadj & Hset).
  rewrite E in Hset. destruct (settles_result _ _ _ Hset) as (? & ? & [= <- <- ->]).
  destruct Hadj as [A1 A2 A3 A4 A5 A6 A7 A8].
  pose proof (f_equal v_incoming A1) as A9. cbn in A9.
  pose proof (keeps_step cx Hfx Hwx i (session x) Hi) as [Hi' _]. rewrite E in Hi'.
  assert (D1 : dir (windowLimit cx) (sender_view s1) (receiver_view (session y)) data acks
                 (accepted x ++ sent_by i) (handedOver y)).
  { eapply dir_queue; [exact Dxy|done..]. }
  rewrite <- A1 in Dyx.
  destruct (settles_dir cx _ _ _ _ _ _ _ _ _ _ _ _ Hfx Hwx Hset A7 A6
    ltac:(rewrite A2; apply Hi) ltac:(rewrite A9; apply Hi) D1 Dyx)
    as (ps & E1 & E2 & Hps & D2 & D3 & Hf' & Ha').
  split; [done|]. exists (data ++ ps), acks. rewrite E1, E2, app_nil_r.
  split_and!; try done.
  - by rewrite map_app.
  - apply Forall_app. split; [done|]. eapply Forall_impl; [exact Hps|].
    intros p. by apply good_mono.
  - unfold healthy; cbn. split_and!; try done. congruence.
Qed.

(** The incoming handler: reception, the delivery if the message is complete,
    and a segment that settles. *)
Lemma receive_step s p st st' d s' effs r :
  inv cx s -> isActive s = true -> good (fragmentSize cx + 3) p ->
  incoming_is s st -> absorb st p = Some (st', d) ->
  BtpCodec.sequenceNumber (btp_payload p) = (prevIncomingSequenceNumber s + 1) mod 256 ->
  (forall a, ackNumber (btp_payload p) = Some a ->
     modularDistance (prevIncomingAckNumber s) a <=
     modularDistance (prevIncomingAckNumber s) (sequenceNumber s)) ->
  step cx (BleData (packet_image p)) s = (s', effs, r) ->
  exists s1 effs', received s s1 p st' /\ inv cx s1 /\ settles cx s1 (s', effs', r) /\
    delivered_in effs = d ++ delivered_in effs' /\ written_in effs = written_in effs'.
Proof using Hfx.
  intros Hi Ha Hp Epar Habs Hseq Hack E.
  destruct (handlePacket_good cx s p st st' d Hp Epar Habs (proj1 (inv_incoming _ _ Hi)) Hseq Hack)
    as (s1 & Hrc & Eh).
  assert (Hps : 0 <= BtpCodec.sequenceNumber (btp_payload p) <= 255)
    by (rewrite Hseq; pose proof (Z.mod_pos_bound (prevIncomingSequenceNumber s + 1) 256); lia).
  cbn [step] in E. unfold handleIncomingBleData in E. rewrite bind_get, Ha in E. cbn [negb] in E.
  destruct (isEndingSegment (btp_header p)) eqn:Een.
  - rewrite (catching_ok _ _ _ _ _ Eh) in E. injection E as <- <- <-.
    set (s2 := set_suspended _ _ s1). exists s2, [].
    assert (Hrc2 : received s s2 p st') by (destruct Hrc; by split).
    split; [done|]. split; [by eapply received_inv|]. split; [left; by exists s2|].
    destruct (delivered_map d) as [-> ->]. by rewrite app_nil_r.
  - assert (d = []) as ->.
    { unfold absorb in Habs. destruct (add_segment st p); [|done]. rewrite Een in Habs. by injection Habs. }
    pose proof (received_inv _ _ _ _ _ Hi Hrc Hps Hack) as Hi1.
    pose proof (handlerRest_settles cx Hfx s1 Hi1) as Hset. rewrite <- Eh in Hset.
    apply (catching_settles cx ThenAckIfLow) in Hset. rewrite E in Hset. by exists s1, effs.
Qed.

Lemma receive_linked x y out packet inc s' effs r :
  linked cx cy x y out (packet :: inc) -> step cx (BleData packet) (session x) = (s', effs, r) ->
  r = Ok tt /\
  linked cx cy (mkEndpoint s' (accepted x) (handedOver x ++ delivered_in effs)) y
    (out ++ written_in effs) inc.
Proof using Hfx Hwx Hxy.
  intros (data & acks & -> & Ein & Hgd & Hga & Dxy & Dyx & (Hi & Hf & Ha) & Hy) E.
  destruct acks as [|p acks]; [done|]. injection Ein as -> ->. rewrite Forall_cons in Hga.
  destruct Hga as [Hp Hga]. set (s := session x) in *.
  destruct (dir_receive _ _ _ _ _ _ _ _ Dyx) as (st & st' & d & Epar & Habs & _ & Hseq & Drecv).
  destruct (dir_acked _ _ _ _ _ _ _ _ Hwx Dxy) as [Hack Dack]. cbn in Hseq, Hack.
  destruct (receive_step s p st st' d s' effs r Hi Ha Hp Epar Habs Hseq Hack E)
    as (s1 & effs' & [R1 R2 R3 R4 R5 R6 R7 R8 R9] & Hi1 & Hset & Ed & Ewr).
  pose proof (keeps_step cx Hfx Hwx (BleData (packet_image p)) s Hi) as [Hi' _]. rewrite E in Hi'.
  assert (Hf1 : queue_fresh s1) by (unfold queue_fresh, finishing in *; by rewrite R6, R9).
  rewrite Ed, Ewr. clear Ed Ewr E.
  destruct (settles_result _ _ _ Hset) as (? & ? & [= <- <- ->]). split; [done|].
  destruct (settles_dir cx (windowLimit cy) s1 s' effs' (sender_view (session y))
    (receiver_view (session y)) data acks (accepted x) (handedOver y) (accepted y) (handedOver x ++ d)
    Hfx Hwx Hset (inv_queue _ _ Hi1) Hf1 (inv_seq _ _ Hi1) (inv_incoming _ _ Hi1))
    as (ps & E1 & E2 & Hgps & D2 & D3 & Hf' & Ha').
  - apply Dack; [exact R4|exact R3|..]; cbn; unfold unsent, progress_of, finishing; by rewrite R6, R9.
  - apply Drecv; [exact R2|exact R5|exact R1].
  - exists (data ++ ps), acks. rewrite E1, E2, app_nil_r. split_and!; try done.
    + by rewrite map_app.
    + apply Forall_app. split; [done|]. eapply Forall_impl; [exact Hgps|]. intros q. by apply good_mono.
    + unfold healthy; cbn. split_and!; try done. by rewrite Ha', R8.
Qed.

Lemma acts_linked x y out inc x' out' inc' r :
  linked cx cy x y out inc -> acts cx x out inc x' out' inc' r ->
  r = Ok tt /\ linked cx cy x' y out' inc'.
Proof using Hfx Hwx Hxy.
  intros Hl Hacts. destruct Hacts; [by eapply local_linked|by eapply receive_linked].
Qed.

End Link.

(** ** Runs of the link *)

Record World := mkWorld {
  central : Endpoint;
  peripheral : Endpoint;
  toPeripheral : list (list Z);
  toCentral : list (list Z);
}.

(** One segment of either side; the [result] is what its handler returns or
    throws. *)
Inductive link_step (cc cp : Config) (w : World) : result unit -> World -> Prop :=
| central_acts c out inc r :
    acts cc (central w) (toPeripheral w) (toCentral w) c out inc r ->
    link_step cc cp w r (mkWorld c (peripheral w) out inc)
| peripheral_acts p out inc r :
    acts cp (peripheral w) (toCentral w) (toPeripheral w) p out inc r ->
    link_step cc cp w r (mkWorld (central w) p inc out).

Inductive reachable (cc cp : Config) (w0 : World) : World -> Prop :=
| reach_refl : reachable cc cp w0 w0
| reach_step w r w' : reachable cc cp w0 w -> link_step cc cp w r w' -> reachable cc cp w0 w'.

Definition start (sc sp : Session) : World :=
  mkWorld (mkEndpoint sc [] []) (mkEndpoint sp [] []) [] [].

Definition world_ok (cc cp : Config) (w : World) : Prop :=
  linked cc cp (central w) (peripheral w) (toPeripheral w) (toCentral w).

Lemma link_step_ok cc cp w r w' :
  6 <= fragmentSize cc -> fragmentSize cp = fragmentSize cc ->
  windowLimit cc <= 255 -> windowLimit cp <= 255 ->
  world_ok cc cp w -> link_step cc cp w r w' -> r = Ok tt /\ world_ok cc cp w'.
Proof.
  intros Hf Ef Hwc Hwp Hok Hstep. unfold world_ok in *. destruct Hstep as [c out inc r Ha|p out inc r Ha].
  - eapply acts_linked; [..|exact Ha]; done || lia.
  - apply linked_sym in Hok.
    destruct (acts_linked cp cc ltac:(lia) Hwp ltac:(lia) _ _ _ _ _ _ _ _ Hok Ha) as [Hr Hl].
    split; [done|]. by apply linked_sym.
Qed.

(** The freshly created sessions: the handshake response counts as the first
    packet of the peripheral, received and not yet acknowledged. *)
Lemma start_ok cc cp sc sp b :
  1 <= windowLimit cc -> 1 <= windowLimit cp ->
  newSession Central 4 = Ok sc -> newSession Peripheral 4 = Ok sp ->
  world_ok cc cp (start sc (set_timers b (sendAckTimer sp) (idleTimeout sp) sp)).
Proof.
  intros Hc Hp Ec Ep.
  pose proof (newSession_inv cc _ _ Hc Ec) as Ic. pose proof (newSession_inv cp _ _ Hp Ep) as Ip.
  injection Ec as <-. injection Ep as <-.
  exists [], []. split; [done|]. split; [done|]. split; [constructor|]. split; [constructor|].
  split; [|split; [|split]].
  - exists 0, 0, 0. cbn. split_and!; try done; try lia; try (split; [lia|done]).
    exists None, None, []. done.
  - exists 1, 0, 0. cbn. split_and!; try done; try lia; try (split; [lia|done]).
    exists None, None, []. done.
  - split; [done|]. split; [|done]. unfold queue_fresh; cbn. done.
  - split; [eapply (inv_frame cp); [..|exact Ip]; done|].
    split; [|done]. unfold queue_fresh; cbn. done.
Qed.

Lemma dir_prefix window sv rv data acks snt del :
  dir window sv rv data acks snt del ->
  del `prefix_of` snt /\ (data = [] -> v_unsent sv = [] -> del = snt).
Proof.
  intros (n & h & k & _ & _ & _ & _ & _ & _ & _ & _ & _ & st & st' & d & _ & Ha & _ & <-).
  split; [by eexists|]. intros -> ->. injection Ha as _ <-. by rewrite app_nil_r.
Qed.

Lemma reachable_ok cc cp w0 w :
  6 <= fragmentSize cc -> fragmentSize cp = fragmentSize cc ->
  windowLimit cc <= 255 -> windowLimit cp <= 255 ->
  world_ok cc cp w0 -> reachable cc cp w0 w -> world_ok cc cp w.
Proof.
  intros Hf Ef Hwc Hwp H0 Hr. induction Hr as [|w r w' _ IH Hs]; [done|].
  by apply (link_step_ok cc cp w r w').
Qed.

(** The handshake gives both sides the same configuration. *)
Lemma handshake_agrees maxDataSize request dp response cp sp :
  createFromHandshakeRequest maxDataSize request (Ok tt) dp = ([EWrite response], Ok (cp, sp)) ->
  1 <= windowLimit cp ->
  exists cc sc, createAsCentral response = Ok (cc, sc) /\ newSession Central 4 = Ok sc /\
    fragmentSize cc = fragmentSize cp /\ windowLimit cc = windowLimit cp /\
    20 <= fragmentSize cp <= 244 /\ windowLimit cp <= 255 /\
    exists sp0, newSession Peripheral 4 = Ok sp0 /\
      sp = set_timers true (sendAckTimer sp0) (idleTimeout sp0) sp0.
Proof.
  intros H Hw. unfold createFromHandshakeRequest in H.
  destruct (decodeBtpHandshakeRequest request) as [r|e]; [|done].
  destruct (List.find _ _) as [v|] eqn:Ef; [|by destruct dp].
  apply List.find_some in Ef as [[<-|[]] _].
  set (mtu := match maxDataSize with Some _ => _ | None => _ end) in H.
  set (ws := Z.min _ _) in H.
  assert (Hm : 20 <= mtu <= 244).
  { unfold mtu, MatterBle.MINIMUM_ATT_MTU, MatterBle.MAXIMUM_BTP_MTU.
    destruct maxDataSize as [m|]; [|lia]. split_ifs; bool_to_prop; lia. }
  destruct (encodeBtpHandshakeResponse (mkResponse 4 mtu ws)) as [resp|e] eqn:Er; [|done].
  cbn [newSession Z.eqb Pos.eqb negb rbind] in H. injection H as <- <- <-.
  cbn [windowLimit fragmentSize] in *.
  pose proof (handshake_response_decodes (mkResponse 4 mtu ws)) as Hd. cbn [version r_attMtu windowSize] in Hd.
  unfold MatterBle.BTP_MAXIMUM_WINDOW_SIZE in ws.
  rewrite Er in Hd. cbn [rbind] in Hd. unfold createAsCentral. rewrite Hd by lia.
  cbn [rbind r_attMtu version windowSize newSession Z.eqb Pos.eqb negb].
  do 2 eexists. split; [reflexivity|]. split; [reflexivity|]. cbn [fragmentSize windowLimit].
  unfold MatterBle.MAXIMUM_BTP_MTU. split; [lia|]. split; [done|]. split; [lia|]. split; [lia|].
  eexists. split; reflexivity.
Qed.

(** ** Properties *)

(** C1: end to end.  When the peripheral answers a handshake request, the
    central that reads the response has the same fragment size and window,
    and as long as nothing outside closes a session (no [close], no idle or
    ack-receive timeout, no failing write or delivery), for every interleaving of
    sends of 1 to 65535 bytes, packet deliveries, write completions and send-ack
    timeouts on the two sides of a reliable link: no handler throws, neither side
    closes the session by itself, the messages each side has handed to its upper
    layer are a prefix of the messages the other side accepted, and when nothing
    is queued or in flight they are all of them. *)
Theorem btp_link_reliable maxDataSize request dp response cp sp :
  createFromHandshakeRequest maxDataSize request (Ok tt) dp = ([EWrite response], Ok (cp, sp)) ->
  1 <= windowLimit cp ->
  exists cc sc, createAsCentral response = Ok (cc, sc) /\
    fragmentSize cc = fragmentSize cp /\ windowLimit cc = windowLimit cp /\
    forall w, reachable cc cp (start sc sp) w ->
      (forall r w', link_step cc cp w r w' -> r = Ok tt) /\
      isActive (session (central w)) = true /\ isActive (session (peripheral w)) = true /\
      handedOver (peripheral w) `prefix_of` accepted (central w) /\
      handedOver (central w) `prefix_of` accepted (peripheral w) /\
      (toPeripheral w = [] -> unsent (session (central w)) = [] ->
       handedOver (peripheral w) = accepted (central w)) /\
      (toCentral w = [] -> unsent (session (peripheral w)) = [] ->
       handedOver (central w) = accepted (peripheral w)).
Proof.
  intros H Hw.
  destruct (handshake_agrees _ _ _ _ _ _ H Hw)
    as (cc & sc & E & Ec & Ef & Ew & Hf & Hwp & sp0 & Ep & ->).
  exists cc, sc. split; [done|]. split; [done|]. split; [done|]. intros w Hr.
  assert (Hok : world_ok cc cp w).
  { eapply reachable_ok; [..|exact Hr]; try lia. apply start_ok; done || lia. }
  pose proof Hok as (data & acks & E1 & E2 & _ & _ & D1 & D2 & (_ & _ & A1) & (_ & _ & A2)).
  destruct (dir_prefix _ _ _ _ _ _ _ D1) as [P1 Q1], (dir_prefix _ _ _ _ _ _ _ D2) as [P2 Q2].
  split_and!; try done.
  - intros r w' Hs. by eapply link_step_ok in Hs as [-> _]; try exact Hok; try lia.
  - rewrite E1. intros Hd. apply Q1. by destruct data.
  - rewrite E2. intros Hd. apply Q2. by destruct acks.
Qed.

Lemma btp_link_reliable_witness :
  exists cc sc cp sp response,
    createFromHandshakeRequest (Some 30) [0x65; 0x6c; 4; 0; 0; 0; 247; 0; 6] (Ok tt) (Ok tt)
      = ([EWrite response], Ok (cp, sp)) /\
    createAsCentral response = Ok (cc, sc) /\ fragmentSize cc = 30 /\ windowLimit cc = 6.
Proof.
  destruct (createFromHandshakeRequest (Some 30) [0x65; 0x6c; 4; 0; 0; 0; 247; 0; 6] (Ok tt) (Ok tt))
    as [[|[response| | |] [|]] [[cp sp]|]] eqn:E; try (vm_compute in E; discriminate).
  assert (Hw : fragmentSize cp = 30 /\ windowLimit cp = 6)
    by (vm_compute in E; injection E as _ <- _; split; reflexivity).
  destruct (btp_link_reliable _ _ _ _ _ _ E) as (cc & sc & E2 & E3 & E4 & _); [lia|].
  exists cc, sc, cp, sp, response. split; [reflexivity|]. split; [exact E2|].
  destruct Hw. split; congruence.
Defined.
