(* ===== verification/Base38.v ===== *)
(** * Base38

    Models src/packages/types/src/schema/Base38Schema.ts.  A JavaScript string
    is its list of UTF-16 code units. *)

From S2P Require Import Prelude DataIO.

(** The code units of an ASCII literal. *)
Definition lit (s : string) : list Z :=
  map (fun c => Z.of_N (Ascii.N_of_ascii c)) (String.list_ascii_of_string s).

Definition BASE38_ALPHABET : list Z := lit "0123456789ABCDEFGHIJKLMNOPQRSTUVWXYZ-.".

(** [string[i]] for an index in range. *)
Definition char_at (s : list Z) (i : Z) : Z := default 0 (s !! Z.to_nat i).

(** [string.indexOf(char)] for a single code unit. *)
Fixpoint indexOf_from (s : list Z) (c i : Z) : Z :=
  match s with
  | [] => -1
  | x :: s => if x =? c then i else indexOf_from s c (i + 1)
  end.
Definition indexOf (s : list Z) (c : Z) : Z := indexOf_from s c 0.

(** [encodeBase38]. *)
Fixpoint encodeBase38 (value : Z) (charCount : nat) : list Z :=
  match charCount with
  | O => []
  | S n =>
      let remainder := Z.rem value 38 in
      char_at BASE38_ALPHABET remainder :: encodeBase38 ((value - remainder) / 38) n
  end.

Fixpoint encodeInternal (bytes : list Z) : list Z :=
  match bytes with
  | [] => []
  | [b0] => encodeBase38 b0 2
  | [b0; b1] => encodeBase38 (js_or b0 (js_shl b1 8)) 4
  | b0 :: b1 :: b2 :: rest =>
      encodeBase38 (js_or (js_or b0 (js_shl b1 8)) (js_shl b2 16)) 5 ++ encodeInternal rest
  end.

(** The loop of [decodeBase38] over one group, last character first. *)
Fixpoint decode_chars (chars : list Z) : result Z :=
  match chars with
  | [] => Ok 0
  | c :: chars =>
      let* result := decode_chars chars in
      let code := indexOf BASE38_ALPHABET c in
      if code =? -1 then Throw UnexpectedDataError else Ok (result * 38 + code)
  end.

Definition decodeBase38 (chars : list Z) (byteCount : Z) : result Z :=
  let* result := decode_chars chars in
  if js_shl 1 (8 * byteCount) <=? result then Throw UnexpectedDataError else Ok result.

(** The loop of [decodeInternal]; [fuel] bounds the number of groups. *)
Fixpoint decode_groups (fuel : nat) (encoded : list Z) : result (list Z) :=
  match fuel with
  | O => Throw OutOfFuel
  | S fuel =>
      let remaining := byteLength encoded in
      if remaining =? 0 then Ok []
      else if 5 <=? remaining then
        let* value := decodeBase38 (take 5 encoded) 3 in
        let* rest := decode_groups fuel (drop 5 encoded) in
        Ok (js_and value 0xff :: js_and (js_shr value 8) 0xff :: js_and (js_shr value 16) 0xff :: rest)
      else if remaining =? 4 then
        let* value := decodeBase38 (take 4 encoded) 2 in
        Ok [js_and value 0xff; js_and (js_shr value 8) 0xff]
      else
        let* value := decodeBase38 (take 2 encoded) 1 in
        Ok [js_and value 0xff]
  end.

Definition decodeInternal (encoded : list Z) : result (list Z) :=
  let remainderEncodedLength := byteLength encoded mod 5 in
  if (remainderEncodedLength =? 0) || (remainderEncodedLength =? 4) || (remainderEncodedLength =? 2)
  then decode_groups (S (length encoded)) encoded
  else Throw UnexpectedDataError.

(** ** Characters *)

Lemma alphabet_index c : 0 <= c < 38 -> indexOf BASE38_ALPHABET (char_at BASE38_ALPHABET c) = c.
Proof.
  intros Hc.
  assert (H : forallb_below 38 (fun c => indexOf BASE38_ALPHABET (char_at BASE38_ALPHABET c) =? c) = true)
    by (vm_compute; reflexivity).
  by apply Z.eqb_eq, (forallb_below_spec _ _ H).
Qed.

Lemma indexOf_from_spec s c i :
  indexOf_from s c i = -1 \/
  (i <= indexOf_from s c i < i + Z.of_nat (length s) /\
   s !! Z.to_nat (indexOf_from s c i - i) = Some c).
Proof.
  revert i. induction s as [|x s IH]; intros i; cbn; [by left|].
  destruct (Z.eqb_spec x c) as [-> |].
  - right. rewrite Z.sub_diag. split; [lia|done].
  - destruct (IH (i + 1)) as [E|[Hr E]]; [by left|]. right. split; [lia|].
    replace (Z.to_nat (indexOf_from s c (i + 1) - i)) with
      (S (Z.to_nat (indexOf_from s c (i + 1) - (i + 1)))) by lia. done.
Qed.

Lemma index_alphabet c :
  indexOf BASE38_ALPHABET c <> -1 ->
  0 <= indexOf BASE38_ALPHABET c < 38 /\ char_at BASE38_ALPHABET (indexOf BASE38_ALPHABET c) = c.
Proof.
  intros H. unfold indexOf in *. destruct (indexOf_from_spec BASE38_ALPHABET c 0) as [E|[Hr E]]; [done|].
  change (0 + Z.of_nat (length BASE38_ALPHABET)) with 38 in Hr. split; [done|].
  rewrite Z.sub_0_r in E. unfold char_at. by rewrite E.
Qed.

(** ** Groups *)

Lemma encodeBase38_length v n : length (encodeBase38 v n) = n.
Proof. revert v. induction n; intros v; cbn; auto. Qed.

Lemma decode_encodeBase38 v n :
  0 <= v < 38 ^ Z.of_nat n -> decode_chars (encodeBase38 v n) = Ok v.
Proof.
  revert v. induction n as [|n IH]; intros v Hv; [cbn in *; f_equal; lia|].
  rewrite Nat2Z.inj_succ, Z.pow_succ_r in Hv by lia.
  cbn [encodeBase38 decode_chars]. rewrite Z.rem_mod_nonneg by lia.
  pose proof (Z.mod_pos_bound v 38 ltac:(lia)) as Hm. pose proof (Z.div_mod v 38 ltac:(lia)) as Hd.
  assert (E : (v - v mod 38) / 38 = v / 38).
  { replace (v - v mod 38) with (v / 38 * 38) by lia. apply Z.div_mul. lia. }
  rewrite E, IH by (split; [apply Z.div_pos; lia|apply Z.div_lt_upper_bound; lia]).
  cbn [rbind]. rewrite alphabet_index by lia.
  destruct (Z.eqb_spec (v mod 38) (-1)); [lia|]. f_equal. lia.
Qed.

Lemma decode_chars_inv cs v :
  decode_chars cs = Ok v -> 0 <= v /\ encodeBase38 v (length cs) = cs.
Proof.
  revert v. induction cs as [|c cs IH]; intros v; cbn [decode_chars length encodeBase38].
  - intros [= <-]. done.
  - intros (v' & Hv' & H)%rbind_ok. destruct (IH v' Hv') as [H0 E].
    destruct (Z.eqb_spec (indexOf BASE38_ALPHABET c) (-1)) as [|Hc]; [done|]. injection H as <-.
    destruct (index_alphabet c Hc) as [Hr Ec]. split; [lia|].
    rewrite Z.rem_mod_nonneg by lia.
    replace (v' * 38 + indexOf BASE38_ALPHABET c) with (indexOf BASE38_ALPHABET c + v' * 38) by lia.
    rewrite Z.mod_add, Z.mod_small by lia. rewrite Ec. f_equal.
    replace (indexOf BASE38_ALPHABET c + v' * 38 - indexOf BASE38_ALPHABET c) with (v' * 38) by lia.
    by rewrite Z.div_mul by lia.
Qed.

(** *** Packing bytes into the group value *)

Lemma shl_byte b n : is_byte b -> 0 <= n <= 16 -> js_shl b n = b * 2 ^ n.
Proof.
  unfold is_byte. intros Hb Hn. unfold js_shl. rewrite (int32_id b) by lia.
  rewrite Z.mod_small, Z.shiftl_mul_pow2 by lia. apply int32_id.
  pose proof (Z.pow_le_mono_r 2 n 16). pose proof (Z.pow_pos_nonneg 2 n). nia.
Qed.

Lemma pack2 b0 b1 : is_byte b0 -> is_byte b1 -> js_or b0 (js_shl b1 8) = b0 + b1 * 256.
Proof.
  intros H0 H1. rewrite shl_byte by (done || lia). unfold is_byte in *.
  rewrite js_or_plain by (unfold is_int32; lia). by apply (lor_add b0 b1 8).
Qed.

Lemma pack3 b0 b1 b2 :
  is_byte b0 -> is_byte b1 -> is_byte b2 ->
  js_or (js_or b0 (js_shl b1 8)) (js_shl b2 16) = b0 + b1 * 256 + b2 * 65536.
Proof.
  intros H0 H1 H2. rewrite pack2, shl_byte by (done || lia). unfold is_byte in *.
  rewrite js_or_plain by (unfold is_int32; lia). apply (lor_add (b0 + b1 * 256) b2 16); lia.
Qed.

Lemma unpack v n : 0 <= v < 2 ^ 24 -> 0 <= n < 32 -> js_and (js_shr v n) 0xff = v / 2 ^ n mod 256.
Proof.
  intros Hv Hn. unfold js_shr. rewrite int32_id, Z.mod_small, Z.shiftr_div_pow2 by lia.
  assert (0 <= v / 2 ^ n < 2 ^ 24).
  { pose proof (Z.pow_pos_nonneg 2 n). split; [apply Z.div_pos; lia|].
    apply Z.div_lt_upper_bound; [lia|]. nia. }
  rewrite js_and_plain by (unfold is_int32; lia). apply (Z.land_ones _ 8). lia.
Qed.

Lemma unpack0 v : 0 <= v < 2 ^ 24 -> js_and v 0xff = v mod 256.
Proof.
  intros Hv. rewrite js_and_plain by (unfold is_int32; lia). apply (Z.land_ones _ 8). lia.
Qed.

(** The bytes of a group value. *)
Lemma bytes_of_value v :
  0 <= v < 2 ^ 24 ->
  v = v mod 256 + v / 2 ^ 8 mod 256 * 256 + v / 2 ^ 16 mod 256 * 65536 /\
  is_byte (v mod 256) /\ is_byte (v / 2 ^ 8 mod 256) /\ is_byte (v / 2 ^ 16 mod 256).
Proof.
  intros Hv. unfold is_byte.
  pose proof (Z.div_mod v 256 ltac:(lia)). pose proof (Z.mod_pos_bound v 256 ltac:(lia)).
  pose proof (Z.div_mod (v / 256) 256 ltac:(lia)). pose proof (Z.mod_pos_bound (v / 256) 256 ltac:(lia)).
  assert (E : v / 2 ^ 16 = v / 256 / 256) by (rewrite Z.div_div by lia; done).
  change (2 ^ 8) with 256. rewrite E.
  assert (0 <= v / 256 / 256 < 256).
  { lia. }
  rewrite (Z.mod_small (v / 256 / 256)) by lia. lia.
Qed.

Lemma value_of_bytes b0 b1 b2 :
  is_byte b0 -> is_byte b1 -> is_byte b2 ->
  let v := b0 + b1 * 256 + b2 * 65536 in
  0 <= v < 2 ^ 24 /\ v mod 256 = b0 /\ v / 2 ^ 8 mod 256 = b1 /\ v / 2 ^ 16 mod 256 = b2.
Proof.
  unfold is_byte. intros H0 H1 H2. cbn zeta. set (v := b0 + b1 * 256 + b2 * 65536).
  assert (Hv : 0 <= v < 2 ^ 24) by lia.
  assert (E1 : v / 2 ^ 8 = b1 + b2 * 256)
    by (symmetry; apply (Z.div_unique _ _ _ b0); lia).
  assert (E2 : v / 2 ^ 16 = b2)
    by (symmetry; apply (Z.div_unique _ _ _ (b0 + b1 * 256)); lia).
  rewrite E1, E2, (Z.mod_small b2) by lia. split_and!; try lia.
  - symmetry. apply (Z.mod_unique _ _ (b1 + b2 * 256)); lia.
  - symmetry. apply (Z.mod_unique _ _ b2); lia.
Qed.

Lemma decodeBase38_encode v n byteCount :
  1 <= byteCount <= 3 -> 0 <= v < 2 ^ (8 * byteCount) -> 2 ^ (8 * byteCount) <= 38 ^ Z.of_nat n ->
  decodeBase38 (encodeBase38 v n) byteCount = Ok v.
Proof.
  intros Hb Hv Hn. unfold decodeBase38. rewrite decode_encodeBase38 by lia. cbn [rbind].
  assert (E : js_shl 1 (8 * byteCount) = 2 ^ (8 * byteCount)).
  { unfold js_shl. rewrite (int32_id 1), Z.mod_small, Z.shiftl_mul_pow2, Z.mul_1_l by lia.
    apply int32_id. pose proof (Z.pow_le_mono_r 2 (8 * byteCount) 24).
    pose proof (Z.pow_pos_nonneg 2 (8 * byteCount)). lia. }
  rewrite E. destruct (Z.leb_spec (2 ^ (8 * byteCount)) v); [lia|done].
Qed.

Lemma decodeBase38_inv cs byteCount v :
  1 <= byteCount <= 3 -> decodeBase38 cs byteCount = Ok v ->
  0 <= v < 2 ^ (8 * byteCount) /\ encodeBase38 v (length cs) = cs.
Proof.
  intros Hb. unfold decodeBase38. intros (v' & Hv & H)%rbind_ok.
  destruct (decode_chars_inv _ _ Hv) as [H0 E].
  assert (E1 : js_shl 1 (8 * byteCount) = 2 ^ (8 * byteCount)).
  { assert (byteCount = 1 \/ byteCount = 2 \/ byteCount = 3) as [-> |[-> | ->]] by lia; reflexivity. }
  rewrite E1 in H. destruct (Z.leb_spec (2 ^ (8 * byteCount)) v'); [done|]. injection H as <-. auto.
Qed.

(** ** Whole strings *)

(** Induction by groups of three. *)
Lemma by_three (P : list Z -> Prop) :
  P [] -> (forall a, P [a]) -> (forall a b, P [a; b]) ->
  (forall a b c l, P l -> P (a :: b :: c :: l)) -> forall l, P l.
Proof.
  intros H0 H1 H2 H3. fix IH 1. intros [|a [|b [|c l]]]; [done|apply H1|apply H2|].
  apply H3, IH.
Qed.

Lemma encoded_length bs :
  byteLength (encodeInternal bs) mod 5 = 0 \/ byteLength (encodeInternal bs) mod 5 = 4 \/
  byteLength (encodeInternal bs) mod 5 = 2.
Proof.
  induction bs as [|a|a b|a b c l IH] using by_three; cbn [encodeInternal]; [by left|..].
  - right; right. unfold byteLength. by rewrite encodeBase38_length.
  - right; left. unfold byteLength. by rewrite encodeBase38_length.
  - unfold byteLength in *. rewrite length_app, encodeBase38_length.
    replace (Z.of_nat (5 + length (encodeInternal l))) with
      (Z.of_nat (length (encodeInternal l)) + 1 * 5) by lia.
    by rewrite Z.mod_add by lia.
Qed.

Lemma decode_groups_encode bs fuel :
  bytes_ok bs -> (length (encodeInternal bs) < fuel)%nat ->
  decode_groups fuel (encodeInternal bs) = Ok bs.
Proof.
  revert fuel. induction bs as [|a|a b|a b c l IH] using by_three; intros fuel Hb Hf.
  all: destruct fuel as [|fuel]; [lia|]; unfold bytes_ok in Hb; rewrite ?Forall_cons in Hb.
  - done.
  - destruct Hb as [Ha _]. cbn [encodeInternal decode_groups].
    unfold byteLength. rewrite encodeBase38_length.
    change (Z.of_nat 2) with 2. cbv beta iota delta [Z.eqb Z.leb Z.compare Pos.compare Pos.compare_cont Pos.eqb].
    rewrite take_ge by (rewrite encodeBase38_length; lia).
    unfold is_byte in Ha. rewrite decodeBase38_encode by (done || lia). cbn.
    by rewrite unpack0, Z.mod_small by lia.
  - destruct Hb as (Ha & Hb & _). cbn [encodeInternal decode_groups].
    unfold byteLength. rewrite encodeBase38_length.
    change (Z.of_nat 4) with 4. cbv beta iota delta [Z.eqb Z.leb Z.compare Pos.compare Pos.compare_cont Pos.eqb].
    rewrite take_ge by (rewrite encodeBase38_length; lia).
    rewrite pack2 by done.
    destruct (value_of_bytes a b 0 Ha Hb ltac:(unfold is_byte; lia)) as (Hv & E0 & E1 & _).
    rewrite Z.mul_0_l, Z.add_0_r in Hv, E0, E1. unfold is_byte in *.
    rewrite decodeBase38_encode by (done || lia). cbn.
    by rewrite unpack0, unpack, E0, E1 by lia.
  - destruct Hb as (Ha & Hb & Hc & Hl). cbn [encodeInternal] in *. rewrite pack3 by done.
    destruct (value_of_bytes a b c Ha Hb Hc) as (Hv & E0 & E1 & E2). cbn zeta in *.
    set (v := a + b * 256 + c * 65536) in *.
    rewrite length_app, encodeBase38_length in Hf.
    assert (Hl5 : length (encodeBase38 v 5) = 5%nat) by apply encodeBase38_length.
    cbn [decode_groups]. unfold byteLength at 1 2. rewrite length_app, Hl5.
    destruct (Z.eqb_spec (Z.of_nat (5 + length (encodeInternal l))) 0); [lia|].
    destruct (Z.leb_spec 5 (Z.of_nat (5 + length (encodeInternal l)))); [|lia].
    rewrite take_app_length', drop_app_length' by done.
    rewrite decodeBase38_encode by (done || lia). cbn [rbind].
    rewrite IH by (done || lia). cbn [rbind]. by rewrite unpack0, !unpack, E0, E1, E2 by lia.
Qed.

Lemma decode_groups_total fuel s e :
  (length s < fuel)%nat -> decode_groups fuel s = Throw e -> e = UnexpectedDataError.
Proof.
  assert (Hc : forall cs e, decode_chars cs = Throw e -> e = UnexpectedDataError).
  { induction cs as [|c cs IH]; cbn; intros e'; [done|]. destruct (decode_chars cs) as [v|e0]; cbn.
    - by destruct (_ =? -1); [intros [= <-]|].
    - intros [= <-]. by apply IH. }
  assert (Hd : forall cs n e, decodeBase38 cs n = Throw e -> e = UnexpectedDataError).
  { intros cs n e'. unfold decodeBase38. destruct (decode_chars cs) as [v|e0] eqn:E; cbn.
    - by destruct (_ <=? _); [intros [= <-]|].
    - intros [= <-]. by apply (Hc cs). }
  revert s. induction fuel as [|fuel IH]; intros s Hf; [lia|]. cbn [decode_groups].
  destruct (Z.eqb_spec (byteLength s) 0); [done|]. destruct (Z.leb_spec 5 (byteLength s)).
  - destruct (decodeBase38 _ _) as [v|e0] eqn:E; cbn; [|intros [= <-]; by apply (Hd _ _ _ E)].
    destruct (decode_groups fuel (drop 5 s)) as [r|e0] eqn:E2; cbn; [done|]. intros [= <-].
    apply (IH (drop 5 s)); [|done]. rewrite length_drop. unfold byteLength in *. lia.
  - destruct (_ =? 4); destruct (decodeBase38 _ _) as [v|e0] eqn:E; cbn;
      try done; intros [= <-]; by apply (Hd _ _ _ E).
Qed.

(** Decoding is injective: only the canonical encoding decodes. *)
Lemma encode_decode_groups fuel s bs :
  (byteLength s mod 5 = 0 \/ byteLength s mod 5 = 4 \/ byteLength s mod 5 = 2) ->
  decode_groups fuel s = Ok bs -> bytes_ok bs /\ encodeInternal bs = s.
Proof.
  revert s bs. induction fuel as [|fuel IH]; intros s bs Hlen; [done|]. cbn [decode_groups].
  destruct (Z.eqb_spec (byteLength s) 0) as [E0|E0].
  { intros [= <-]. destruct s; [split; [constructor|done]|unfold byteLength in E0; cbn in E0; lia]. }
  destruct (Z.leb_spec 5 (byteLength s)) as [H5|H5].
  - intros (v & Hv & (rest & Hr & H)%rbind_ok)%rbind_ok. injection H as <-.
    destruct (decodeBase38_inv _ 3 _ ltac:(lia) Hv) as [Hb E]. change (8 * 3) with 24 in Hb.
    assert (Hl5 : length (take 5 s) = 5%nat) by (rewrite length_take; unfold byteLength in H5; lia).
    rewrite Hl5 in E. destruct (bytes_of_value v Hb) as (Ev & B0 & B1 & B2).
    destruct (IH (drop 5 s) rest) as [Hok Er]; [|done|].
    { unfold byteLength in *. rewrite length_drop.
      replace (Z.of_nat (length s - 5)) with (Z.of_nat (length s) + (-1) * 5) by lia.
      by rewrite Z.mod_add by lia. }
    rewrite unpack0, !unpack by lia. split; [by unfold bytes_ok; rewrite !Forall_cons|].
    cbn [encodeInternal]. rewrite pack3, <- Ev, E, Er by done. apply take_drop.
  - assert (Hs : byteLength s = 4 \/ byteLength s = 2).
    { unfold byteLength in *. rewrite Z.mod_small in Hlen by lia. lia. }
    destruct (Z.eqb_spec (byteLength s) 4) as [E4|E4].
    + intros (v & Hv & H)%rbind_ok. injection H as <-.
      destruct (decodeBase38_inv _ 2 _ ltac:(lia) Hv) as [Hb E]. change (8 * 2) with 16 in Hb.
      rewrite take_ge in E by (unfold byteLength in *; lia).
      assert (length s = 4%nat) as Hl by (unfold byteLength in *; lia). rewrite Hl in E.
      destruct (bytes_of_value v) as (Ev & B0 & B1 & B2); [lia|].
      rewrite (Z.div_small v (2 ^ 16)), Z.mod_0_l, Z.mul_0_l, Z.add_0_r in Ev by lia.
      rewrite unpack0, unpack by lia. split; [by unfold bytes_ok; rewrite !Forall_cons|].
      cbn [encodeInternal]. by rewrite pack2, <- Ev by done.
    + intros (v & Hv & H)%rbind_ok. injection H as <-.
      destruct (decodeBase38_inv _ 1 _ ltac:(lia) Hv) as [Hb E]. change (8 * 1) with 8 in Hb.
      rewrite take_ge in E by (unfold byteLength in *; lia).
      assert (length s = 2%nat) as Hl by (unfold byteLength in *; lia). rewrite Hl in E.
      rewrite unpack0, Z.mod_small by lia. split; [repeat constructor; unfold is_byte; lia|done].
Qed.

Lemma base38_decode_encode bs : bytes_ok bs -> decodeInternal (encodeInternal bs) = Ok bs.
Proof.
  intros Hb. unfold decodeInternal.
  assert ((byteLength (encodeInternal bs) mod 5 =? 0) || (byteLength (encodeInternal bs) mod 5 =? 4) ||
          (byteLength (encodeInternal bs) mod 5 =? 2) = true) as ->.
  { bool_to_prop. destruct (encoded_length bs) as [-> |[-> | ->]]; auto. }
  apply decode_groups_encode; [done|lia].
Qed.

(** Base38 is a bijection between byte strings and the strings it
    decodes: every byte string round-trips, and whatever string decodes is
    exactly the encoding of the bytes it yields; every other string is
    refused with [UnexpectedDataError]. *)
Theorem base38_bijective :
  (forall bs, bytes_ok bs -> decodeInternal (encodeInternal bs) = Ok bs) /\
  forall s, match decodeInternal s with
  | Ok bs => bytes_ok bs /\ encodeInternal bs = s
  | Throw e => e = UnexpectedDataError /\ forall bs, bytes_ok bs -> encodeInternal bs <> s
  end.
Proof.
  split; [exact base38_decode_encode|]. intros s. destruct (decodeInternal s) as [bs|e] eqn:E.
  - unfold decodeInternal in E. destruct (_ || _) eqn:El; [|done].
    eapply encode_decode_groups; [|exact E]. bool_to_prop. tauto.
  - split.
    + unfold decodeInternal in E. destruct (_ || _) in E; [|by injection E].
      eapply decode_groups_total; [|exact E]. lia.
    + intros bs Hb <-. by rewrite base38_decode_encode in E.
Qed.
