(* ===== verification/Verhoeff.v ===== *)
(** * The Verhoeff check digit

    Models src/packages/general/src/math/Verhoeff.ts.  A digit string is a list
    of UTF-16 code units. *)

From S2P Require Import Prelude.

Definition multiply : list (list Z) :=
  [[0; 1; 2; 3; 4; 5; 6; 7; 8; 9];
   [1; 2; 3; 4; 0; 6; 7; 8; 9; 5];
   [2; 3; 4; 0; 1; 7; 8; 9; 5; 6];
   [3; 4; 0; 1; 2; 8; 9; 5; 6; 7];
   [4; 0; 1; 2; 3; 9; 5; 6; 7; 8];
   [5; 9; 8; 7; 6; 0; 4; 3; 2; 1];
   [6; 5; 9; 8; 7; 1; 0; 4; 3; 2];
   [7; 6; 5; 9; 8; 2; 1; 0; 4; 3];
   [8; 7; 6; 5; 9; 3; 2; 1; 0; 4];
   [9; 8; 7; 6; 5; 4; 3; 2; 1; 0]].

Definition inverse : list Z := [0; 4; 3; 2; 1; 5; 6; 7; 8; 9].

Definition permute : list (list Z) :=
  [[0; 1; 2; 3; 4; 5; 6; 7; 8; 9];
   [1; 5; 7; 6; 2; 8; 3; 0; 9; 4];
   [5; 8; 0; 3; 7; 9; 6; 1; 4; 2];
   [8; 9; 1; 6; 0; 4; 3; 5; 2; 7];
   [9; 4; 5; 3; 1; 2; 6; 8; 7; 0];
   [4; 2; 8; 6; 5; 7; 3; 9; 0; 1];
   [2; 7; 9; 3; 8; 0; 6; 4; 1; 5];
   [7; 0; 4; 6; 9; 1; 3; 2; 5; 8]].

Definition at_ (row : list Z) (i : Z) : Z := default 0 (row !! Z.to_nat i).
Definition mul (a b : Z) : Z := at_ (default [] (multiply !! Z.to_nat a)) b.
Definition perm (i d : Z) : Z := at_ (default [] (permute !! Z.to_nat i)) d.

(** [Number.parseInt] of one code unit. *)
Definition digit_of (c : Z) : option Z :=
  if (48 <=? c) && (c <=? 57) then Some (c - 48) else None.

(** The loop: the digits from the last to the first, [i] counting from 1. *)
Fixpoint checksum_loop (i : Z) (checksum : Z) (reversed : list Z) : result Z :=
  match reversed with
  | [] => Ok checksum
  | c :: reversed =>
      match digit_of c with
      | None => Throw ImplementationError
      | Some digit => checksum_loop (i + 1) (mul checksum (perm (i mod 8) digit)) reversed
      end
  end.

Definition computeChecksum (digits : list Z) : result Z :=
  let* checksum := checksum_loop 1 0 (rev digits) in
  Ok (at_ inverse checksum).

(** ** The group and the permutations *)

Definition is_digit (d : Z) : Prop := 0 <= d < 10.

Ltac by_digits P := assert (P = true) by (vm_compute; reflexivity).

Lemma mul_digit a b : is_digit a -> is_digit b -> is_digit (mul a b).
Proof.
  intros Ha Hb. by_digits (forallb_below 10 (fun a => forallb_below 10 (fun b =>
    (0 <=? mul a b) && (mul a b <? 10)))).
  pose proof (forallb_below_spec _ _ (forallb_below_spec _ _ H a Ha) b Hb) as E.
  cbn in E. unfold is_digit. bool_to_prop. lia.
Qed.

Lemma perm_digit i d : 0 <= i < 8 -> is_digit d -> is_digit (perm i d).
Proof.
  intros Hi Hd. by_digits (forallb_below 8 (fun i => forallb_below 10 (fun d =>
    (0 <=? perm i d) && (perm i d <? 10)))).
  pose proof (forallb_below_spec _ _ (forallb_below_spec _ _ H i Hi) d Hd) as E.
  cbn in E. unfold is_digit. bool_to_prop. lia.
Qed.

Lemma mul_assoc a b c :
  is_digit a -> is_digit b -> is_digit c -> mul (mul a b) c = mul a (mul b c).
Proof.
  intros Ha Hb Hc. by_digits (forallb_below 10 (fun a => forallb_below 10 (fun b =>
    forallb_below 10 (fun c => mul (mul a b) c =? mul a (mul b c))))).
  apply Z.eqb_eq. exact (forallb_below_spec _ _ (forallb_below_spec _ _
    (forallb_below_spec _ _ H a Ha) b Hb) c Hc).
Qed.

(** Cancellation on both sides, and injectivity of the permutations. *)
Lemma mul_cancel_l a b c :
  is_digit a -> is_digit b -> is_digit c -> mul a b = mul a c -> b = c.
Proof.
  intros Ha Hb Hc. by_digits (forallb_below 10 (fun a => forallb_below 10 (fun b =>
    forallb_below 10 (fun c => implb (mul a b =? mul a c) (b =? c))))).
  pose proof (forallb_below_spec _ _ (forallb_below_spec _ _
    (forallb_below_spec _ _ H a Ha) b Hb) c Hc) as E. cbn beta in E.
  intros Heq. rewrite Heq, Z.eqb_refl in E. by apply Z.eqb_eq.
Qed.

Lemma mul_cancel_r a b c :
  is_digit a -> is_digit b -> is_digit c -> mul a c = mul b c -> a = b.
Proof.
  intros Ha Hb Hc. by_digits (forallb_below 10 (fun a => forallb_below 10 (fun b =>
    forallb_below 10 (fun c => implb (mul a c =? mul b c) (a =? b))))).
  pose proof (forallb_below_spec _ _ (forallb_below_spec _ _
    (forallb_below_spec _ _ H a Ha) b Hb) c Hc) as E. cbn beta in E.
  intros Heq. rewrite Heq, Z.eqb_refl in E. by apply Z.eqb_eq.
Qed.

Lemma perm_inj i a b : 0 <= i < 8 -> is_digit a -> is_digit b -> perm i a = perm i b -> a = b.
Proof.
  intros Hi Ha Hb. by_digits (forallb_below 8 (fun i => forallb_below 10 (fun a =>
    forallb_below 10 (fun b => implb (perm i a =? perm i b) (a =? b))))).
  pose proof (forallb_below_spec _ _ (forallb_below_spec _ _
    (forallb_below_spec _ _ H i Hi) a Ha) b Hb) as E. cbn beta in E.
  intros Heq. rewrite Heq, Z.eqb_refl in E. by apply Z.eqb_eq.
Qed.

(** The property that makes adjacent transpositions visible. *)
Lemma perm_swap i a b :
  0 <= i < 8 -> is_digit a -> is_digit b ->
  mul (perm i a) (perm ((i + 1) mod 8) b) = mul (perm i b) (perm ((i + 1) mod 8) a) -> a = b.
Proof.
  intros Hi Ha Hb. by_digits (forallb_below 8 (fun i => forallb_below 10 (fun a =>
    forallb_below 10 (fun b => implb (mul (perm i a) (perm ((i + 1) mod 8) b) =?
      mul (perm i b) (perm ((i + 1) mod 8) a)) (a =? b))))).
  pose proof (forallb_below_spec _ _ (forallb_below_spec _ _
    (forallb_below_spec _ _ H i Hi) a Ha) b Hb) as E. cbn beta in E.
  intros Heq. rewrite Heq, Z.eqb_refl in E. by apply Z.eqb_eq.
Qed.

Lemma inverse_spec x : is_digit x ->
  is_digit (at_ inverse x) /\ mul (at_ inverse x) x = 0 /\ forall y, is_digit y -> mul y x = 0 -> y = at_ inverse x.
Proof.
  intros Hx. by_digits (forallb_below 10 (fun x => (0 <=? at_ inverse x) && (at_ inverse x <? 10) &&
    (mul (at_ inverse x) x =? 0))).
  pose proof (forallb_below_spec _ _ H x Hx) as E. cbn beta in E. bool_to_prop.
  destruct E as [[E1 E2] E3]. split; [done|]. split; [done|]. intros y Hy E4.
  apply (mul_cancel_r y (at_ inverse x) x); [done|done|done|congruence].
Qed.

(** ** The checksum as a product *)

Definition is_digit_char (c : Z) : Prop := 48 <= c <= 57.
Definition digits_ok (s : list Z) : Prop := Forall is_digit_char s.

(** The product of the permuted digits, from position [i] on; 0 is the
    identity of the group. *)
Fixpoint prod (i : Z) (reversed : list Z) : Z :=
  match reversed with
  | [] => 0
  | c :: reversed => mul (perm (i mod 8) (c - 48)) (prod (i + 1) reversed)
  end.

Lemma digit_char_of c : is_digit_char c -> digit_of c = Some (c - 48) /\ is_digit (c - 48).
Proof.
  unfold is_digit_char, digit_of, is_digit. intros H.
  rewrite (proj2 (Z.leb_le 48 c)), (proj2 (Z.leb_le c 57)) by lia. split; [done|lia].
Qed.

Lemma digit_of_char c : digit_of c <> None -> is_digit_char c.
Proof.
  unfold digit_of, is_digit_char. destruct ((48 <=? c) && (c <=? 57)) eqn:E; [|done].
  intros _. bool_to_prop. lia.
Qed.

Lemma mod8 i : 0 <= i mod 8 < 8.
Proof. apply Z.mod_pos_bound. lia. Qed.

Lemma prod_digit i ds : digits_ok ds -> is_digit (prod i ds).
Proof.
  intros H. revert i. induction H as [|c ds Hc _ IH]; intros i; cbn; [unfold is_digit; lia|].
  apply mul_digit; [|apply IH]. apply perm_digit; [apply mod8|]. by apply digit_char_of.
Qed.

Lemma mul_0_r a : is_digit a -> mul a 0 = a.
Proof.
  intros Ha. by_digits (forallb_below 10 (fun a => mul a 0 =? a)).
  by apply Z.eqb_eq, (forallb_below_spec _ _ H).
Qed.

Lemma mul_0_l a : is_digit a -> mul 0 a = a.
Proof.
  intros Ha. by_digits (forallb_below 10 (fun a => mul 0 a =? a)).
  by apply Z.eqb_eq, (forallb_below_spec _ _ H).
Qed.

Lemma checksum_loop_prod ds i acc :
  digits_ok ds -> is_digit acc -> checksum_loop i acc ds = Ok (mul acc (prod i ds)).
Proof.
  intros H. revert i acc. induction H as [|c ds Hc Hds IH]; intros i acc Ha; cbn.
  - by rewrite mul_0_r.
  - destruct (digit_char_of c Hc) as [-> Hd].
    assert (Hp : is_digit (perm (i mod 8) (c - 48))) by (apply perm_digit; [apply mod8|done]).
    rewrite IH by (by apply mul_digit). f_equal. apply mul_assoc; try done. by apply prod_digit.
Qed.

Lemma computeChecksum_prod ds :
  digits_ok ds -> computeChecksum ds = Ok (at_ inverse (prod 1 (rev ds))).
Proof.
  intros H. unfold computeChecksum.
  assert (Hr : digits_ok (rev ds)) by (apply Forall_forall; intros x Hx; unfold digits_ok in H;
    rewrite Forall_forall in H; apply H; by apply list_elem_of_In, in_rev, list_elem_of_In).
  rewrite checksum_loop_prod by (done || (unfold is_digit; lia)). cbn [rbind].
  by rewrite mul_0_l by (by apply prod_digit).
Qed.

Lemma prod_app i a b :
  digits_ok a -> digits_ok b -> prod i (a ++ b) = mul (prod i a) (prod (i + Z.of_nat (length a)) b).
Proof.
  intros Ha Hb. revert i. induction Ha as [|c a Hc Ha IH]; intros i; cbn [app prod length].
  - rewrite Z.add_0_r, mul_0_l by (by apply prod_digit). done.
  - rewrite IH, <- mul_assoc; [do 2 f_equal; lia|..].
    + apply perm_digit; [apply mod8|]. by apply digit_char_of.
    + by apply prod_digit.
    + by apply prod_digit.
Qed.

(** A code whose last digit is its check digit has product 0, the check digit
    being position 0. *)
Lemma checksum_zero ds c :
  digits_ok ds -> is_digit_char c ->
  (computeChecksum ds = Ok (c - 48) <-> prod 0 (rev (ds ++ [c])) = 0).
Proof.
  intros Hd Hc. rewrite computeChecksum_prod by done. rewrite rev_app_distr. cbn [rev app prod].
  destruct (digit_char_of c Hc) as [_ Hc'].
  assert (Hp : is_digit (prod 1 (rev ds))).
  { apply prod_digit. unfold digits_ok. by apply Forall_rev. }
  assert (E : perm (0 mod 8) (c - 48) = c - 48).
  { by_digits (forallb_below 10 (fun d => perm 0 d =? d)).
    by apply Z.eqb_eq, (forallb_below_spec _ _ H). }
  rewrite E. change (0 + 1) with 1. destruct (inverse_spec _ Hp) as (_ & Hz & Hu).
  split; [intros [= <-]; done|]. intros H. f_equal. symmetry. by apply Hu.
Qed.

(** ** Typing errors *)

Inductive typo : list Z -> list Z -> Prop :=
| wrong_digit a x y b : x <> y -> typo (a ++ x :: b) (a ++ y :: b)
| swapped_digits a x y b : x <> y -> typo (a ++ x :: y :: b) (a ++ y :: x :: b).

Lemma typo_rev s t : typo s t -> typo (rev s) (rev t).
Proof.
  intros H. destruct H as [a x y b Hn|a x y b Hn]; rewrite !rev_app_distr; cbn [rev];
    rewrite <- !app_assoc; cbn [app].
  - by apply wrong_digit.
  - by apply swapped_digits.
Qed.

Lemma typo_length s t : typo s t -> length t = length s.
Proof. by intros [a x y b _|a x y b _]; rewrite !length_app. Qed.

Lemma prod_typo s t i :
  digits_ok s -> digits_ok t -> typo s t -> prod i s <> prod i t.
Proof.
  intros Hs Ht H E. unfold digits_ok in *. destruct H as [a x y b Hn|a x y b Hn];
    rewrite Forall_app, !Forall_cons in Hs, Ht.
  - destruct Hs as (Ha & Hx & Hb), Ht as (_ & Hy & _). apply Hn.
    rewrite !prod_app in E by (done || (unfold digits_ok; by rewrite !Forall_cons)). cbn [prod] in E.
    destruct (digit_char_of x Hx) as [_ Hx'], (digit_char_of y Hy) as [_ Hy'].
    apply mul_cancel_l in E; try (apply prod_digit; done);
      try (apply mul_digit; [apply perm_digit; [apply mod8|done]|by apply prod_digit]).
    apply mul_cancel_r in E; try (apply perm_digit; [apply mod8|done]); [|by apply prod_digit].
    apply perm_inj in E; [lia|apply mod8|done|done].
  - destruct Hs as (Ha & Hx & Hy & Hb). apply Hn.
    rewrite !prod_app in E by (done || (unfold digits_ok; by rewrite !Forall_cons)). cbn [prod] in E.
    destruct (digit_char_of x Hx) as [_ Hx'], (digit_char_of y Hy) as [_ Hy'].
    set (j := i + Z.of_nat (length a)) in *.
    assert (forall k d, is_digit d -> is_digit (perm (k mod 8) d)) as Hpd
      by (intros; apply perm_digit; [apply mod8|done]).
    assert (Hq : is_digit (prod (j + 1 + 1) b)) by (by apply prod_digit).
    assert (Hpa : is_digit (prod i a)) by (by apply prod_digit).
    assert (E' : mul (mul (perm (j mod 8) (x - 48)) (perm ((j + 1) mod 8) (y - 48))) (prod (j + 1 + 1) b) =
                 mul (mul (perm (j mod 8) (y - 48)) (perm ((j + 1) mod 8) (x - 48))) (prod (j + 1 + 1) b)).
    { rewrite !mul_assoc by auto. apply (mul_cancel_l (prod i a)); auto using mul_digit. }
    apply mul_cancel_r in E'; auto using mul_digit.
    replace ((j + 1) mod 8) with ((j mod 8 + 1) mod 8) in E' by (by rewrite Zplus_mod_idemp_l).
    apply perm_swap in E'; [lia|apply mod8|done|done].
Qed.

Lemma typo_detected ds c ds' c' :
  digits_ok (ds ++ [c]) -> digits_ok (ds' ++ [c']) -> typo (ds ++ [c]) (ds' ++ [c']) ->
  computeChecksum ds = Ok (c - 48) -> computeChecksum ds' <> Ok (c' - 48).
Proof.
  unfold digits_ok. intros H H' Ht E E'. pose proof H as G. pose proof H' as G'.
  rewrite Forall_app, Forall_cons in G, G'. destruct G as (Hd & Hc & _), G' as (Hd' & Hc' & _).
  apply checksum_zero in E; [|done..]. apply checksum_zero in E'; [|done..].
  apply typo_rev in Ht. eapply prod_typo in Ht; [|by apply Forall_rev..].
  apply Ht. by rewrite E, E'.
Qed.

(** the check digit detects every single wrong digit and every swap of
    two adjacent different digits, the check digit included: if a code and a
    code with such an error are both digit strings, they do not both carry
    their Verhoeff check digit. *)
Theorem verhoeff_detects_typos ds c ds' c' :
  digits_ok (ds ++ [c]) -> digits_ok (ds' ++ [c']) -> typo (ds ++ [c]) (ds' ++ [c']) ->
  computeChecksum ds = Ok (c - 48) -> computeChecksum ds' <> Ok (c' - 48).
Proof. apply typo_detected. Qed.

Lemma verhoeff_detects_typos_witness :
  computeChecksum [50; 51; 54] = Ok 3 /\ computeChecksum [50; 54; 51] <> Ok 3.
Proof.
  split; [vm_compute; reflexivity|].
  apply (verhoeff_detects_typos [50; 51; 54] 51 [50; 54; 51] 51).
  - unfold digits_ok, is_digit_char; repeat (apply Forall_cons; split; [lia|]); apply Forall_nil_2.
  - unfold digits_ok, is_digit_char; repeat (apply Forall_cons; split; [lia|]); apply Forall_nil_2.
  - apply (swapped_digits [50] 51 54 [51]). lia.
  - vm_compute; reflexivity.
Defined.
