(* ===== verification/PairingCode.v ===== *)
(** * Onboarding payloads: manual pairing codes and QR codes

    Models src/packages/types/src/schema/PairingCodeSchema.ts (both codecs,
    their validators and the common identity rules) with the [encode]/[decode]
    template of src/packages/types/src/schema/Schema.ts and the [VendorId]
    constructor.  A string is the list of its UTF-16 code units; a number is an
    integer. *)

From S2P Require Import Prelude DataIO BitmapSchema TlvCodec TlvAny Base38 Verhoeff.

Abbreviation slength := List.length.

(** ** Identifiers and passcodes *)

Definition PASSCODE_MIN : Z := 0x0000001.
Definition PASSCODE_MAX : Z := 0x5f5e0fe.
Definition INVALID_PASSCODES : list Z :=
  [0; 11111111; 22222222; 33333333; 44444444; 55555555; 66666666; 77777777; 88888888; 99999999;
   12345678; 87654321].

Definition isValidPasscode (passcode : Z) : bool :=
  (PASSCODE_MIN <=? passcode) && (passcode <=? PASSCODE_MAX) &&
  negb (existsb (Z.eqb passcode) INVALID_PASSCODES).

Definition assertValidPasscode (passcode : Z) : result unit :=
  throw_if (negb (isValidPasscode passcode)) UnexpectedDataError.

Definition UNSPECIFIED_ID : Z := 0.

Definition statedIdentifier (id : option Z) : option Z :=
  match id with
  | None => None
  | Some i => if i =? UNSPECIFIED_ID then None else Some i
  end.

(** The constructor [VendorId(v)] and [VendorId.isValid]. *)
Definition VendorId (vendorId : Z) : result Z :=
  if (0 <=? vendorId) && (vendorId <=? 0xfff4) then Ok vendorId else Throw ValidationError.
Definition VendorId_isValid (v : Z) : bool := is_ok (VendorId v).

Definition PRODUCT_ID_MAX : Z := 0xffff.

Definition assertValidPayloadIdentity (rawVendorId rawProductId : option Z) : result unit :=
  let vendorId := statedIdentifier rawVendorId in
  let productId := statedIdentifier rawProductId in
  let* _ := throw_if (match vendorId with Some v => negb (VendorId_isValid v) | None => false end)
              UnexpectedDataError in
  let* _ := throw_if (match productId with
                      | Some p => (p <? 0) || (PRODUCT_ID_MAX <? p)
                      | None => false
                      end) UnexpectedDataError in
  throw_if (match productId, vendorId with None, Some _ => true | _, _ => false end)
    UnexpectedDataError.

(** ** Numbers as strings *)

(** The decimal digits of [n >= 0]; [fuel] bounds their number. *)
Fixpoint decimal (fuel : nat) (n : Z) : list Z :=
  match fuel with
  | O => []
  | S fuel => (if n <? 10 then [] else decimal fuel (n / 10)) ++ [48 + n mod 10]
  end.

(** [n.toString()] of an integer below 10^21, from where on JavaScript prints
    an exponent. *)
Definition toString (n : Z) : list Z :=
  if n <? 0 then 45 :: decimal 21 (- n) else decimal 21 n.

(** [s.padStart(n, "0")]. *)
Definition padStart (s : list Z) (n : nat) : list Z := replicate (n - slength s) 48 ++ s.

(** [parseInt] of a string of decimal digits. *)
Definition parseInt (s : list Z) : Z := fold_left (fun acc c => acc * 10 + (c - 48)) s 0.

Definition slice {A} (a b : nat) (s : list A) : list A := take (b - a) (drop a s).

(** ** The manual pairing code *)

Module Manual.

Record ManualPairingData := mkManual {
  discriminator : option Z;
  shortDiscriminator : option Z;
  passcode : Z;
  vendorId : option Z;
  productId : option Z;
  flowType : option Z;
}.

Definition CommissioningFlowType_Standard : Z := 0.

Definition validate (d : ManualPairingData) : result unit :=
  let* _ := assertValidPasscode (passcode d) in
  throw_if
    (match flowType d with
     | Some f => negb (f =? CommissioningFlowType_Standard) &&
                 match vendorId d, productId d with Some _, Some _ => false | _, _ => true end
     | None => false
     end) UnexpectedDataError.

Definition encodeInternal (d : ManualPairingData) : result (list Z) :=
  match discriminator d with
  | None => Throw UnexpectedDataError
  | Some disc =>
      let* _ := throw_if (4095 <? disc) UnexpectedDataError in
      let ids := match vendorId d, productId d with
                 | Some v, Some p => Some (v, p)
                 | _, _ => None
                 end in
      let result := toString (js_or (js_shr disc 10) (match ids with Some _ => js_shl 1 2 | None => 0 end)) in
      let result := result ++
        padStart (toString (js_or (js_shl (js_and disc 0x300) 6) (js_and (passcode d) 0x3fff))) 5 in
      let result := result ++ padStart (toString (js_shr (passcode d) 14)) 4 in
      let result := match ids with
                    | Some (v, p) => (result ++ padStart (toString v) 5) ++ padStart (toString p) 5
                    | None => result
                    end in
      let* checksum := computeChecksum result in
      Ok (result ++ toString checksum)
  end.

(** [encoded.replace(/\D/g, "")]. *)
Definition is_decimal (c : Z) : bool := (48 <=? c) && (c <=? 57).
Definition strip (encoded : list Z) : list Z := List.filter is_decimal encoded.

Definition decodeInternal (encoded : list Z) : result ManualPairingData :=
  let encoded := strip encoded in
  let* _ := throw_if (negb ((slength encoded =? 11)%nat || (slength encoded =? 21)%nat)) UnexpectedDataError in
  let first := parseInt (slice 0 1 encoded) in
  let* _ := throw_if (8 <=? first) UnexpectedDataError in
  let* checksum := computeChecksum (slice 0 (slength encoded - 1) encoded) in
  let* _ := throw_if (negb (checksum =? parseInt (slice (slength encoded - 1) (slength encoded) encoded)))
              UnexpectedDataError in
  let hasVendorProductIds := negb (js_and first (js_shl 1 2) =? 0) in
  let* _ := throw_if (negb (Bool.eqb hasVendorProductIds (slength encoded =? 21)%nat)) UnexpectedDataError in
  let middle := parseInt (slice 1 6 encoded) in
  let shortDiscriminator := js_or (js_shl (js_and first 0x03) 2) (js_and (js_shr middle 14) 0x3) in
  let passcode := js_or (js_and middle 0x3fff) (js_shl (parseInt (slice 6 10 encoded)) 14) in
  if hasVendorProductIds then
    let statedVendorId := statedIdentifier (Some (parseInt (slice 10 15 encoded))) in
    let* vendorId := match statedVendorId with
                     | None => Ok None
                     | Some v => let* v := VendorId v in Ok (Some v)
                     end in
    let productId := statedIdentifier (Some (parseInt (slice 15 20 encoded))) in
    Ok (mkManual None (Some shortDiscriminator) passcode vendorId productId None)
  else Ok (mkManual None (Some shortDiscriminator) passcode None None None).

(** [Schema.encode] and [Schema.decode] at this class. *)
Definition encode (d : ManualPairingData) : result (list Z) :=
  let* _ := validate d in encodeInternal d.

Definition validateDecoded (d : ManualPairingData) : result unit :=
  assertValidPayloadIdentity (vendorId d) (productId d).

Definition decode (encoded : list Z) (validate_ : bool) : result ManualPairingData :=
  let* d := decodeInternal encoded in
  let* _ := if validate_ then let* _ := validate d in validateDecoded d else Ok tt in
  Ok d.

End Manual.

(** ** The QR code *)

Module Qr.

Definition MATTER_QR_CODE_SINGLE_PAYLOAD_MAX_LENGTH : Z := 255.
Definition MATTER_QR_CODE_ALL_PAYLOAD_MAX_LENGTH : Z := 4296.

Definition QrCodeDataSchema : BitSchema :=
  [("version", BitField 0 3);
   ("vendorId", BitField 3 16);
   ("productId", BitField 19 16);
   ("flowType", BitFieldEnum 35 2);
   ("discoveryCapabilities", BitField 37 8);
   ("discriminator", BitField 45 12);
   ("passcode", BitField 57 27)].

Record QrCodeData := mkQr {
  version : Z;
  vendorId : option Z;
  productId : option Z;
  flowType : Z;
  discoveryCapabilities : Z;
  discriminator : Z;
  passcode : Z;
  tlvData : option (list Z);
}.

Definition PREFIX : list Z := lit "MT:".
Definition STAR : Z := 42.

Fixpoint validate (payloadData : list QrCodeData) : result unit :=
  match payloadData with
  | [] => Ok tt
  | d :: rest =>
      let* _ := throw_if (negb (version d =? 0)) UnexpectedDataError in
      let* _ := assertValidPasscode (passcode d) in
      validate rest
  end.

Fixpoint validateDecoded (payloadData : list QrCodeData) : result unit :=
  match payloadData with
  | [] => Ok tt
  | d :: rest =>
      let* _ := assertValidPayloadIdentity (vendorId d) (productId d) in
      validateDecoded rest
  end.

(** The properties of [fields] the bitmap schema reads. *)
Definition fields (d : QrCodeData) : BitValues :=
  [("version", VNum (version d));
   ("vendorId", VNum (default UNSPECIFIED_ID (vendorId d)));
   ("productId", VNum (default UNSPECIFIED_ID (productId d)));
   ("flowType", VNum (flowType d));
   ("discoveryCapabilities", VNum (discoveryCapabilities d));
   ("discriminator", VNum (discriminator d));
   ("passcode", VNum (passcode d))].

(** The callback of [payloadData.map]. *)
Definition encode_payload (d : QrCodeData) : result (list Z) :=
  let fixed := ByteArray.encodeInternal QrCodeDataSchema (fields d) in
  let data := match tlvData d with
              | Some tlv => if 0 <? byteLength tlv then fixed ++ tlv else fixed
              | None => fixed
              end in
  let result := Base38.encodeInternal data in
  let length := Z.of_nat (slength PREFIX) + Z.of_nat (slength result) in
  let* _ := throw_if (MATTER_QR_CODE_SINGLE_PAYLOAD_MAX_LENGTH <? length) UnexpectedDataError in
  Ok result.

Fixpoint map_result {A B} (f : A -> result B) (l : list A) : result (list B) :=
  match l with
  | [] => Ok []
  | x :: l => let* y := f x in let* ys := map_result f l in Ok (y :: ys)
  end.

(** [parts.join("*")] and [s.split("*")]. *)
Fixpoint join (parts : list (list Z)) : list Z :=
  match parts with
  | [] => []
  | [p] => p
  | p :: rest => p ++ STAR :: join rest
  end.
Fixpoint split (s : list Z) : list (list Z) :=
  match s with
  | [] => [[]]
  | c :: s =>
      if c =? STAR then [] :: split s
      else match split s with
           | p :: rest => (c :: p) :: rest
           | [] => [[c]]
           end
  end.

Definition encodeInternal (payloadData : list QrCodeData) : result (list Z) :=
  let* _ := throw_if (slength payloadData =? 0)%nat ImplementationError in
  let* parts := map_result encode_payload payloadData in
  let result := PREFIX ++ join parts in
  let* _ := throw_if (MATTER_QR_CODE_ALL_PAYLOAD_MAX_LENGTH <? Z.of_nat (slength result))
              UnexpectedDataError in
  Ok result.

(** [value[name]] of a decoded numeric field. *)
Definition num (values : BitValues) (name : string) : Z := toNum (get values name).

(** The callback of the decoder's [map]. *)
Definition decode_payload (encodedData : list Z) : result QrCodeData :=
  let* data := Base38.decodeInternal encodedData in
  let* values := ByteArray.decodeInternal QrCodeDataSchema (slice 0 11 data) in
  Ok (mkQr (num values "version")
       (statedIdentifier (Some (num values "vendorId")))
       (statedIdentifier (Some (num values "productId")))
       (num values "flowType") (num values "discoveryCapabilities")
       (num values "discriminator") (num values "passcode")
       (if 11 <? byteLength data then Some (drop 11 data) else None)).

Definition starts_with (s prefix : list Z) : bool :=
  bool_decide (take (slength prefix) s = prefix).

Definition decodeInternal (encoded : list Z) : result (list QrCodeData) :=
  let* _ := throw_if (negb (starts_with encoded PREFIX)) UnexpectedDataError in
  map_result decode_payload (split (drop (slength PREFIX) encoded)).

Definition encode (payloadData : list QrCodeData) : result (list Z) :=
  let* _ := validate payloadData in encodeInternal payloadData.

Definition decode (encoded : list Z) (validate_ : bool) : result (list QrCodeData) :=
  let* payloadData := decodeInternal encoded in
  let* _ := if validate_ then let* _ := validate payloadData in validateDecoded payloadData
            else Ok tt in
  Ok payloadData.

End Qr.

(** ** Decimal fields *)

Lemma parseInt_app a b : parseInt (a ++ b) = parseInt a * 10 ^ Z.of_nat (slength b) + parseInt b.
Proof.
  assert (G : forall b acc, fold_left (fun acc c => acc * 10 + (c - 48)) b acc =
                            acc * 10 ^ Z.of_nat (slength b) + parseInt b).
  { clear. induction b as [|c b IH]; intros acc; [cbn; lia|]. unfold parseInt. cbn [fold_left].
    rewrite (IH (acc * 10 + (c - 48))), (IH (0 * 10 + (c - 48))). cbn [slength].
    rewrite Nat2Z.inj_succ, Z.pow_succ_r by lia. ring. }
  unfold parseInt at 1. rewrite fold_left_app. by rewrite G.
Qed.

Lemma parseInt_zeros n s : parseInt (replicate n 48 ++ s) = parseInt s.
Proof.
  assert (parseInt (replicate n 48) = 0) as E.
  { induction n as [|n IH]; [done|]. change (replicate (S n) 48) with ([48] ++ replicate n 48).
    rewrite parseInt_app, IH. done. }
  rewrite parseInt_app, E. lia.
Qed.

Lemma decimal_spec fuel n k :
  0 <= n < 10 ^ Z.of_nat k -> (1 <= k <= fuel)%nat ->
  digits_ok (decimal fuel n) /\ parseInt (decimal fuel n) = n /\ (slength (decimal fuel n) <= k)%nat.
Proof.
  revert n k. induction fuel as [|fuel IH]; intros n k Hn Hk; [lia|]. cbn [decimal].
  pose proof (Z.div_mod n 10 ltac:(lia)). pose proof (Z.mod_pos_bound n 10 ltac:(lia)).
  assert (Hlast : digits_ok [48 + n mod 10]).
  { apply Forall_cons. split; [unfold is_digit_char; lia|apply Forall_nil_2]. }
  destruct (Z.ltb_spec n 10).
  - cbn [app]. split_and!; [done| |cbn; lia]. unfold parseInt. cbn [fold_left].
    rewrite Z.mod_small by lia. lia.
  - destruct k as [|[|k]]; [lia|cbn in Hn; lia|].
    destruct (IH (n / 10) (S k)) as (G1 & G2 & G3); [|lia|].
    { rewrite Nat2Z.inj_succ, Z.pow_succ_r in Hn by lia. lia. }
    split_and!.
    + by apply Forall_app.
    + rewrite parseInt_app, G2. unfold parseInt. cbn [fold_left slength]. lia.
    + rewrite length_app. cbn [slength]. lia.
Qed.

(** A number written in [k] digits. *)
Definition field (n : Z) (k : nat) : list Z := padStart (toString n) k.

Lemma field_spec n k :
  0 <= n < 10 ^ Z.of_nat k -> (1 <= k <= 21)%nat ->
  slength (field n k) = k /\ digits_ok (field n k) /\ parseInt (field n k) = n.
Proof.
  intros Hn Hk. unfold field, padStart, toString. destruct (Z.ltb_spec n 0); [lia|].
  destruct (decimal_spec 21 n k Hn Hk) as (H1 & H2 & H3). split_and!.
  - rewrite length_app, length_replicate. lia.
  - apply Forall_app. split; [|done]. apply Forall_replicate. unfold is_digit_char. lia.
  - by rewrite parseInt_zeros.
Qed.

Lemma toString_digit n : 0 <= n < 10 -> toString n = [48 + n].
Proof.
  intros Hn. assert (H : forallb_below 10 (fun n => bool_decide (toString n = [48 + n])) = true)
    by (vm_compute; reflexivity).
  by apply (forallb_below_spec _ _ H) in Hn as ->%bool_decide_eq_true.
Qed.

Lemma parseInt_digit c : parseInt [c] = c - 48.
Proof. done. Qed.

Lemma slice_app {A} (pre mid post : list A) a b :
  a = slength pre -> b = (a + slength mid)%nat -> slice a b (pre ++ mid ++ post) = mid.
Proof. intros -> ->. unfold slice. apply take_drop_app. lia. Qed.

(** ** Bit fields of the manual code *)

Lemma js_shr_div a n : 0 <= a < 2 ^ 31 -> 0 <= n < 32 -> js_shr a n = a / 2 ^ n.
Proof.
  intros Ha Hn. unfold js_shr. by rewrite int32_id, Z.mod_small, Z.shiftr_div_pow2 by lia.
Qed.

Lemma js_and_mod a n : 0 <= a < 2 ^ 31 -> 0 <= n < 31 -> js_and a (2 ^ n - 1) = a mod 2 ^ n.
Proof.
  intros Ha Hn. assert (1 <= 2 ^ n <= 2 ^ 30).
  { split; [apply (Z.pow_le_mono_r 2 0)|apply Z.pow_le_mono_r]; lia. }
  rewrite js_and_plain by (unfold is_int32; lia).
  replace (2 ^ n - 1) with (Z.ones n) by (rewrite Z.ones_equiv; lia). apply Z.land_ones; lia.
Qed.

Lemma js_shl_mul a n : 0 <= a -> 0 <= n < 32 -> a * 2 ^ n < 2 ^ 31 -> js_shl a n = a * 2 ^ n.
Proof.
  intros Ha Hn H. pose proof (Z.pow_pos_nonneg 2 n ltac:(lia) ltac:(lia)).
  unfold js_shl. rewrite (int32_id a) by nia. rewrite Z.mod_small, Z.shiftl_mul_pow2 by lia.
  apply int32_id. nia.
Qed.

Lemma js_or_add a b n :
  0 <= n -> 0 <= a < 2 ^ n -> 0 <= b -> a + b * 2 ^ n < 2 ^ 31 -> js_or a (b * 2 ^ n) = a + b * 2 ^ n.
Proof.
  intros Hn Ha Hb H. pose proof (Z.pow_pos_nonneg 2 n ltac:(lia) ltac:(lia)).
  rewrite js_or_plain by (unfold is_int32; nia). by apply lor_add.
Qed.

Lemma js_or_comm a b : js_or a b = js_or b a.
Proof. apply Z.lor_comm. Qed.

(** Quotients and remainders by constants are linear. *)
#[local] Ltac Zify.zify_post_hook ::= Z.to_euclidean_division_equations.

(** The three bit-packed fields: first digit, five-digit and four-digit
    group, and what the decoder cuts out of them. *)
Ltac pow_consts :=
  change (2 ^ 2) with 4 in *; change (2 ^ 8) with 256 in *; change (2 ^ 10) with 1024 in *;
  change (2 ^ 14) with 16384 in *.

Lemma packed_first disc (ids : bool) :
  0 <= disc <= 4095 ->
  js_or (js_shr disc 10) (if ids then js_shl 1 2 else 0) = disc / 1024 + (if ids then 4 else 0).
Proof.
  intros H. rewrite js_shr_div by lia. change (js_shl 1 2) with (1 * 2 ^ 2).
  assert (0 <= disc / 1024 < 4) by lia. destruct ids.
  - rewrite js_or_add; pow_consts; lia.
  - pow_consts. rewrite js_or_plain by width. by rewrite Z.lor_0_r, Z.add_0_r.
Qed.

Lemma packed_middle disc pass :
  0 <= disc <= 4095 -> 0 <= pass < 2 ^ 27 ->
  js_or (js_shl (js_and disc 0x300) 6) (js_and pass 0x3fff) =
  pass mod 16384 + (disc / 256) mod 4 * 16384.
Proof.
  intros Hd Hp.
  assert (E : js_shl (js_and disc 0x300) 6 = (disc / 256) mod 4 * 2 ^ 14).
  { assert (H : forallb_below 4096 (fun d => js_shl (js_and d 0x300) 6 =? (d / 256) mod 4 * 2 ^ 14) = true)
      by (vm_compute; reflexivity).
    apply Z.eqb_eq, (forallb_below_spec _ _ H). clear H.
    assert (Z.of_nat 4096 = 4096) as -> by (vm_compute; reflexivity). lia. }
  rewrite E, js_or_comm. change 0x3fff with (2 ^ 14 - 1). rewrite js_and_mod by lia.
  apply js_or_add; pow_consts; lia.
Qed.

Lemma unpacked_first disc (ids : bool) :
  0 <= disc <= 4095 ->
  let f := disc / 1024 + (if ids then 4 else 0) in
  0 <= f < 8 /\ negb (js_and f (js_shl 1 2) =? 0) = ids /\ js_shl (js_and f 0x03) 2 = disc / 1024 * 2 ^ 2.
Proof.
  intros H. cbn zeta. assert (Hq : 0 <= disc / 1024 < 4) by lia.
  revert Hq. generalize (disc / 1024). intros q Hq.
  assert (q = 0 \/ q = 1 \/ q = 2 \/ q = 3) as [-> |[-> |[-> | ->]]] by lia; destruct ids; done.
Qed.

Lemma unpacked_short disc pass :
  0 <= disc <= 4095 -> 0 <= pass < 2 ^ 27 ->
  let m := pass mod 16384 + (disc / 256) mod 4 * 16384 in
  0 <= m < 2 ^ 16 /\
  js_or (disc / 1024 * 2 ^ 2) (js_and (js_shr m 14) 0x3) = disc / 256 /\
  js_or (js_and m 0x3fff) (js_shl (pass / 16384) 14) = pass.
Proof.
  intros Hd Hp. cbn zeta. set (q := disc / 256 mod 4). assert (0 <= q < 4) by lia.
  assert (disc / 256 = disc / 1024 * 4 + q) as Hq by (subst q; lia).
  set (r := pass mod 16384). set (m := r + q * 16384).
  assert (Hr : 0 <= r < 16384) by (subst r; lia). assert (Hm : 0 <= m < 2 ^ 16) by lia.
  assert (H2 : m / 16384 = q) by lia. assert (H3 : m mod 16384 = r) by lia. split_and!; try lia.
  - rewrite js_shr_div by lia. change 0x3 with (2 ^ 2 - 1).
    change (2 ^ 14) with 16384. rewrite H2, js_and_mod by lia.
    rewrite js_or_comm, Z.mod_small, js_or_add by (pow_consts; lia). pow_consts; lia.
  - change 0x3fff with (2 ^ 14 - 1). rewrite js_and_mod, js_shl_mul by (pow_consts; lia).
    change (m mod 2 ^ 14) with (m mod 16384). rewrite H3, js_or_add by (pow_consts; lia).
    subst r; pow_consts; lia.
Qed.

Section ManualRoundTrip.
Import Manual.

(** A payload [encode] accepts, with a discriminator of 12 bits and
    identifiers of at most five digits, the width of their fields. *)
Definition manual_ok (d : ManualPairingData) (disc : Z) : Prop :=
  validate d = Ok tt /\ discriminator d = Some disc /\ 0 <= disc <= 4095 /\
  match vendorId d with Some v => 0 <= v <= 99999 | None => True end /\
  match productId d with Some p => 0 <= p <= 99999 | None => True end.

Definition ids_of (d : ManualPairingData) : option (Z * Z) :=
  match vendorId d, productId d with Some v, Some p => Some (v, p) | _, _ => None end.

Definition has_ids (d : ManualPairingData) : bool :=
  match ids_of d with Some _ => true | None => false end.

(** What a reader of the code learns of [d]. *)
Definition received (d : ManualPairingData) (disc : Z) : ManualPairingData :=
  match ids_of d with
  | Some (v, p) => mkManual None (Some (disc / 256)) (passcode d)
                     (statedIdentifier (Some v)) (statedIdentifier (Some p)) None
  | None => mkManual None (Some (disc / 256)) (passcode d) None None None
  end.

Definition tail_of (d : ManualPairingData) : list Z :=
  match ids_of d with Some (v, p) => field v 5 ++ field p 5 | None => [] end.

Definition body (d : ManualPairingData) (disc : Z) : list Z :=
  [48 + (disc / 1024 + (if has_ids d then 4 else 0))] ++
  field (passcode d mod 16384 + (disc / 256) mod 4 * 16384) 5 ++
  field (passcode d / 16384) 4 ++ tail_of d.

Lemma isValidPasscode_range p : isValidPasscode p = true -> 1 <= p <= 99999998.
Proof. unfold isValidPasscode, PASSCODE_MIN, PASSCODE_MAX. intros H. bool_to_prop. lia. Qed.

Lemma validate_passcode d : validate d = Ok tt -> isValidPasscode (passcode d) = true.
Proof. unfold validate, assertValidPasscode, throw_if. by destruct (isValidPasscode (passcode d)). Qed.

Lemma tail_spec d disc :
  manual_ok d disc -> digits_ok (tail_of d) /\ slength (tail_of d) = (if has_ids d then 10 else 0)%nat.
Proof.
  intros (_ & _ & _ & Hv & Hp). unfold tail_of, has_ids, ids_of.
  destruct (vendorId d) as [v|], (productId d) as [p|]; try (split; [apply Forall_nil_2|done]).
  destruct (field_spec v 5) as (L1 & D1 & _); [cbn; lia|lia|].
  destruct (field_spec p 5) as (L2 & D2 & _); [cbn; lia|lia|].
  split; [unfold digits_ok in *; by rewrite Forall_app|]. rewrite length_app. lia.
Qed.

Lemma body_spec d disc :
  manual_ok d disc ->
  digits_ok (body d disc) /\ slength (body d disc) = (if has_ids d then 20 else 10)%nat.
Proof.
  intros H. destruct (tail_spec d disc H) as [Dt Lt]. destruct H as (Hval & _ & Hd & _).
  pose proof (isValidPasscode_range _ (validate_passcode _ Hval)) as Hp.
  destruct (unpacked_first disc (has_ids d) Hd) as (Hf & _). cbn zeta in Hf.
  destruct (unpacked_short disc (passcode d) Hd ltac:(lia)) as (Hm & _). cbn zeta in Hm.
  unfold body. set (m := passcode d mod 16384 + _) in *.
  destruct (field_spec m 5) as (L1 & D1 & _); [cbn; lia|lia|].
  destruct (field_spec (passcode d / 16384) 4) as (L2 & D2 & _); [cbn; lia|lia|].
  split.
  - unfold digits_ok in *. rewrite !Forall_app, Forall_singleton.
    split_and!; (done || (unfold is_digit_char; lia)).
  - rewrite !length_app, L1, L2, Lt. cbn. by destruct (has_ids d).
Qed.

Lemma encodeInternal_body d disc :
  manual_ok d disc ->
  encodeInternal d = (let* c := computeChecksum (body d disc) in Ok (body d disc ++ toString c)).
Proof.
  intros (Hval & Hdisc & Hd & _).
  pose proof (isValidPasscode_range _ (validate_passcode _ Hval)) as Hp.
  unfold encodeInternal. rewrite Hdisc. unfold throw_if. destruct (Z.ltb_spec 4095 disc); [lia|].
  cbn [rbind]. rewrite packed_middle, (js_shr_div (passcode d)) by lia.
  assert (E : toString (js_or (js_shr disc 10) (match ids_of d with Some _ => js_shl 1 2 | None => 0 end)) =
              [48 + (disc / 1024 + (if has_ids d then 4 else 0))]).
  { rewrite <- toString_digit by (destruct (unpacked_first disc (has_ids d) Hd); lia).
    f_equal. rewrite <- packed_first by done. unfold has_ids. by destruct (ids_of d). }
  fold (ids_of d). rewrite E. unfold body, tail_of, field, has_ids. change (2 ^ 14) with 16384.
  destruct (ids_of d) as [[v p]|]; by rewrite <- ?app_assoc, ?app_nil_r.
Qed.

Lemma computeChecksum_digits ds :
  digits_ok ds -> exists c, computeChecksum ds = Ok c /\ 0 <= c < 10.
Proof.
  intros H. rewrite computeChecksum_prod by done. eexists; split; [done|].
  apply inverse_spec, prod_digit. by apply Forall_rev.
Qed.

Lemma strip_digits s : digits_ok s -> strip s = s.
Proof.
  induction 1 as [|c s Hc Hs IH]; [done|]. unfold strip in *. cbn [List.filter].
  assert (is_decimal c = true) as -> by (unfold is_decimal, is_digit_char in *; bool_to_prop; lia).
  by rewrite IH.
Qed.

(** Cutting a code of the right shape into its parts. *)
Lemma slice_body (f : Z) m h t c :
  slength m = 5%nat -> slength h = 4%nat ->
  let s := ([f] ++ m ++ h ++ t) ++ [c] in
  slice 0 1 s = [f] /\ slice 1 6 s = m /\ slice 6 10 s = h /\
  slice 0 (slength s - 1) s = [f] ++ m ++ h ++ t /\
  slice (slength s - 1) (slength s) s = [c] /\
  (forall v p, t = v ++ p -> slength v = 5%nat -> slength p = 5%nat ->
     slice 10 15 s = v /\ slice 15 20 s = p).
Proof.
  intros Hm Hh. cbn zeta.
  assert (L : slength (([f] ++ m ++ h ++ t) ++ [c]) = S (slength ([f] ++ m ++ h ++ t)))
    by (rewrite length_app; cbn; lia).
  split_and!.
  - rewrite <- app_assoc. apply (slice_app [] [f]); done.
  - rewrite <- !app_assoc. apply (slice_app [f] m); cbn; lia.
  - rewrite <- !app_assoc. rewrite (app_assoc [f] m).
    apply (slice_app ([f] ++ m) h); rewrite ?length_app; cbn; lia.
  - rewrite L. apply (slice_app [] _ [c]); cbn; lia.
  - rewrite L. apply (slice_app ([f] ++ m ++ h ++ t) [c] []); cbn [slength]; lia.
  - intros v p -> Hv Hp. split.
    + replace (([f] ++ m ++ h ++ v ++ p) ++ [c]) with (([f] ++ m ++ h) ++ v ++ (p ++ [c]))
        by (by rewrite <- !app_assoc).
      apply slice_app; rewrite ?length_app; cbn; lia.
    + replace (([f] ++ m ++ h ++ v ++ p) ++ [c]) with (([f] ++ m ++ h ++ v) ++ p ++ [c])
        by (by rewrite <- !app_assoc).
      apply slice_app; rewrite ?length_app; cbn; lia.
Qed.

Lemma statedIdentifier_vendor v :
  0 <= v ->
  (match statedIdentifier (Some v) with
   | None => Ok None
   | Some v => let* v := VendorId v in Ok (Some v)
   end) = if v <=? 0xfff4 then Ok (statedIdentifier (Some v)) else Throw ValidationError.
Proof.
  intros Hv. cbn [statedIdentifier]. unfold UNSPECIFIED_ID. destruct (Z.eqb_spec v 0) as [->|]; [done|].
  unfold VendorId. rewrite (proj2 (Z.leb_le 0 v)) by done. by destruct (v <=? 0xfff4).
Qed.

(** Whether the decoder can represent the vendor. *)
Definition vendor_readable (d : ManualPairingData) : bool :=
  match ids_of d with Some (v, _) => v <=? 0xfff4 | None => true end.

Lemma decodeInternal_body d disc c s :
  manual_ok d disc -> computeChecksum (body d disc) = Ok c -> 0 <= c < 10 ->
  strip s = body d disc ++ [48 + c] ->
  decodeInternal s = if vendor_readable d then Ok (received d disc) else Throw ValidationError.
Proof.
  intros H Hc Hc10 Hs. unfold decodeInternal. rewrite Hs.
  destruct (body_spec d disc H) as [_ Lb]. pose proof H as (Hval & _ & Hd & Hv & Hp).
  pose proof (isValidPasscode_range _ (validate_passcode _ Hval)) as Hpass.
  destruct (unpacked_first disc (has_ids d) Hd) as (Hf & Hbit & Hshl).
  destruct (unpacked_short disc (passcode d) Hd ltac:(lia)) as (Hm & Hshort & Hpc).
  cbn zeta in *. unfold body in Lb, Hc |- *.
  set (f := disc / 1024 + _) in *. set (m := passcode d mod 16384 + _) in *.
  destruct (field_spec m 5) as (L1 & _ & P1); [cbn; lia|lia|].
  destruct (field_spec (passcode d / 16384) 4) as (L2 & _ & P2); [cbn; lia|lia|].
  destruct (slice_body (48 + f) (field m 5) (field (passcode d / 16384) 4) (tail_of d) (48 + c) L1 L2)
    as (S1 & S2 & S3 & S4 & S5 & S6). rewrite S1, S2, S3, S4, S5, Hc, P1, P2, !parseInt_digit.
  rewrite length_app, Lb. cbn [slength rbind].
  replace (48 + f - 48) with f by lia. replace (48 + c - 48) with c by lia.
  rewrite Z.eqb_refl, Hbit, Hshl, Hshort, Hpc. unfold throw_if. destruct (Z.leb_spec 8 f); [lia|].
  unfold has_ids, received, tail_of, vendor_readable, ids_of in *.
  destruct (vendorId d) as [v|], (productId d) as [p|]; try done.
  destruct (field_spec v 5) as (L3 & _ & P3); [cbn; lia|lia|].
  destruct (field_spec p 5) as (L4 & _ & P4); [cbn; lia|lia|].
  destruct (S6 _ _ eq_refl L3 L4) as [-> ->]. cbn [negb orb andb Nat.eqb Bool.eqb rbind Nat.add].
  rewrite P3, P4, statedIdentifier_vendor by lia. by destruct (v <=? 0xfff4).
Qed.

Lemma encode_code d disc :
  manual_ok d disc ->
  exists c, computeChecksum (body d disc) = Ok c /\ 0 <= c < 10 /\
            encode d = Ok (body d disc ++ [48 + c]).
Proof.
  intros H. destruct (body_spec d disc H) as [Db _].
  destruct (computeChecksum_digits _ Db) as (c & Hc & Hc10). exists c. split_and!; try done; try lia.
  unfold encode. destruct H as (Hval & H). rewrite Hval. cbn [rbind].
  by rewrite (encodeInternal_body d disc), Hc by done; cbn; rewrite toString_digit.
Qed.

Lemma code_digits d disc c :
  manual_ok d disc -> 0 <= c < 10 ->
  digits_ok (body d disc ++ [48 + c]) /\
  slength (body d disc ++ [48 + c]) = (if has_ids d then 21 else 11)%nat.
Proof.
  intros H Hc. destruct (body_spec d disc H) as [Db Lb]. split.
  - unfold digits_ok in *. rewrite Forall_app, Forall_singleton. split; [done|].
    unfold is_digit_char. lia.
  - rewrite length_app, Lb. by destruct (has_ids d).
Qed.

(** Whether a reader accepts the identifiers: a product is one of 16 bits, and
    a stated vendor needs a stated product. *)
Definition identity_readable (d : ManualPairingData) : bool :=
  match statedIdentifier (vendorId d), statedIdentifier (productId d) with
  | Some _, None => false
  | _, Some p => p <=? 0xffff
  | _, None => true
  end.

Lemma stated_valid v p :
  0 <= v <= 0xfff4 -> 0 <= p ->
  assertValidPayloadIdentity (statedIdentifier (Some v)) (statedIdentifier (Some p)) =
  match statedIdentifier (Some v), statedIdentifier (Some p) with
  | Some _, None => Throw UnexpectedDataError
  | _, Some p => if p <=? 0xffff then Ok tt else Throw UnexpectedDataError
  | _, None => Ok tt
  end.
Proof.
  intros Hv Hp. unfold assertValidPayloadIdentity, throw_if, VendorId_isValid, VendorId, PRODUCT_ID_MAX.
  cbn [statedIdentifier]. unfold UNSPECIFIED_ID.
  destruct (Z.eqb_spec v 0), (Z.eqb_spec p 0); cbn [statedIdentifier];
    unfold UNSPECIFIED_ID; rewrite ?(proj2 (Z.eqb_neq v 0)), ?(proj2 (Z.eqb_neq p 0)) by done;
    rewrite ?(proj2 (Z.leb_le 0 v)), ?(proj2 (Z.leb_le v 0xfff4)) by lia;
    rewrite ?(proj2 (Z.ltb_ge p 0)), ?(Z.leb_antisym 0xffff p) by lia; cbn; by destruct (0xffff <? p).
Qed.

(** C37: the manual pairing code.  Every payload with a valid passcode, a
    12-bit discriminator and identifiers of at most five digits is encoded, as
    11 digits, or 21 with a vendor and a product.  Any string whose digits are
    that code, whatever separators it carries, decodes to the passcode, the
    upper four bits of the discriminator and the identifiers (0 read as
    unstated), but for what a reader refuses: a vendor above 0xfff4 always,
    and, when validating, a product above 0xffff and a vendor without a
    product, although the encoder writes them. *)
Theorem manual_code_roundtrip d disc :
  manual_ok d disc ->
  exists code, encode d = Ok code /\ digits_ok code /\
    slength code = (if has_ids d then 21 else 11)%nat /\
    forall s, strip s = code ->
      decode s false = (if vendor_readable d then Ok (received d disc) else Throw ValidationError) /\
      decode s true = (if negb (vendor_readable d) then Throw ValidationError
                       else if has_ids d && negb (identity_readable d) then Throw UnexpectedDataError
                       else Ok (received d disc)).
Proof.
  intros H. destruct (encode_code d disc H) as (c & Hc & Hc10 & He).
  destruct (code_digits d disc c H Hc10) as [Dc Lc]. eexists. split_and!; [done..|].
  intros s Hs. unfold decode. rewrite (decodeInternal_body d disc c) by done.
  destruct (vendor_readable d) eqn:Ev; [|done]. cbn [rbind negb].
  split; [done|]. destruct H as (Hval & _ & _ & Hv & Hp). apply validate_passcode in Hval.
  revert Ev. unfold validate, validateDecoded, received, vendor_readable, has_ids, identity_readable, ids_of.
  unfold assertValidPasscode.
  destruct (vendorId d) as [v|], (productId d) as [p|]; cbn [passcode flowType vendorId productId];
    rewrite Hval; try done.
  intros Ev%Z.leb_le. cbn [negb throw_if rbind]. rewrite stated_valid by lia. cbn [andb].
  destruct (statedIdentifier (Some v)), (statedIdentifier (Some p)) as [x|]; try done; by destruct (x <=? 0xffff).
Qed.

Lemma last_digit s n :
  digits_ok s -> slength s = S n ->
  exists c, s = slice 0 n s ++ [c] /\ slice n (S n) s = [c] /\ is_digit_char c /\ digits_ok (slice 0 n s).
Proof.
  intros D L. destruct s as [|c s _] using rev_ind; [done|]. rewrite length_app in L. cbn in L.
  assert (n = slength s) as -> by lia. unfold digits_ok in *.
  rewrite Forall_app, Forall_singleton in D.
  exists c. rewrite (slice_app [] s [c]) by done.
  split_and!; try done; try apply D.
  apply (slice_app s [c] []); cbn; lia.
Qed.

(** a mistyped manual pairing code is refused: take any code the encoder
    writes and change one digit, or swap two different adjacent digits; the
    decoder throws [UnexpectedDataError], with or without validation. *)
Theorem manual_code_rejects_typos d disc code code' validate_ :
  manual_ok d disc -> encode d = Ok code -> typo code code' -> digits_ok code' ->
  decode code' validate_ = Throw UnexpectedDataError.
Proof.
  intros H He Ht D'. destruct (encode_code d disc H) as (c & Hc & Hc10 & He').
  assert (code = body d disc ++ [48 + c]) as -> by congruence.
  destruct (code_digits d disc c H Hc10) as [Dc Lc].
  assert (L' : slength code' = slength (body d disc ++ [48 + c])) by (by apply typo_length).
  unfold decode, decodeInternal. rewrite strip_digits by done. unfold throw_if.
  assert (Hn : exists n, slength code' = S n) by (rewrite L', Lc; destruct (has_ids d); eauto).
  destruct Hn as [n Hn]. destruct (last_digit code' n D' Hn) as (c' & E & El & Hc' & Ds).
  assert (Hlen : (slength code' =? 11)%nat || (slength code' =? 21)%nat = true)
    by (rewrite L', Lc; by destruct (has_ids d)).
  rewrite Hlen. cbn [negb rbind]. destruct (8 <=? _); [done|]. cbn [rbind].
  rewrite Hn. replace (S n - 1)%nat with n by lia. rewrite El, parseInt_digit.
  destruct (computeChecksum_digits _ Ds) as (x & Hx & _). rewrite Hx. cbn [rbind].
  destruct (Z.eqb_spec x (c' - 48)) as [-> |]; [exfalso|done].
  rewrite E in Ht, D'. eapply typo_detected in Ht; [by apply Ht|done..|].
  rewrite Hc. f_equal. lia.
Qed.

Definition sample_manual : ManualPairingData :=
  mkManual (Some 3840) None 20202021 (Some 0xfff1) (Some 0x8000) (Some 1).

Lemma sample_manual_ok : manual_ok sample_manual 3840.
Proof. unfold manual_ok; cbn -[validate]. split_and!; try lia; try done. Qed.

Lemma manual_code_roundtrip_witness :
  encode sample_manual = Ok (lit "749701123365521327687") /\
  exists d, decode (lit "7497-0112-3365521-327687") true = Ok d /\ passcode d = 20202021.
Proof.
  destruct (manual_code_roundtrip sample_manual 3840 sample_manual_ok) as (code & He & _ & _ & Hd).
  assert (code = lit "749701123365521327687") as -> by (vm_compute in He; by injection He as <-).
  split; [done|]. destruct (Hd (lit "7497-0112-3365521-327687") eq_refl) as [_ ->].
  eexists. split; [vm_compute; reflexivity|done].
Defined.

Lemma manual_code_rejects_typos_witness :
  decode (lit "749701123356521327687") true = Throw UnexpectedDataError.
Proof.
  apply (manual_code_rejects_typos sample_manual 3840 (lit "749701123365521327687")).
  - apply sample_manual_ok.
  - vm_compute; reflexivity.
  - apply (swapped_digits (lit "7497011233") 54 53 (lit "521327687")). lia.
  - apply (bool_decide_unpack (Forall (fun c => 48 <= c <= 57) (lit "749701123356521327687"))).
    vm_compute; exact I.
Defined.

End ManualRoundTrip.

Section QrRoundTrip.
Import Qr.

Lemma schema_coherent : ByteArray.coherent QrCodeDataSchema.
Proof.
  split_and!.
  - apply (bool_decide_unpack (NoDup QrCodeDataSchema.*1)). vm_compute; exact I.
  - repeat (apply Forall_cons; split; [unfold ByteArray.range_ok; cbn; lia|]). apply Forall_nil_2.
  - apply all_disjointb_spec. vm_compute; reflexivity.
Qed.

(** A payload [encode] accepts, each field within the bits the schema gives
    it. *)
Definition qr_ok (d : QrCodeData) : Prop :=
  version d = 0 /\ isValidPasscode (passcode d) = true /\
  0 <= default 0 (vendorId d) < 2 ^ 16 /\ 0 <= default 0 (productId d) < 2 ^ 16 /\
  0 <= flowType d < 2 ^ 2 /\ 0 <= discoveryCapabilities d < 2 ^ 8 /\ 0 <= discriminator d < 2 ^ 12 /\
  bytes_ok (default [] (tlvData d)).

Definition tlv_of (d : QrCodeData) : list Z := default [] (tlvData d).

(** The payload as a reader sees it: 0 and absent identifiers, and empty and
    absent TLV data, are the same thing. *)
Definition normalized (d : QrCodeData) : QrCodeData :=
  mkQr (version d) (statedIdentifier (vendorId d)) (statedIdentifier (productId d)) (flowType d)
    (discoveryCapabilities d) (discriminator d) (passcode d)
    (match tlv_of d with [] => None | tlv => Some tlv end).

Definition image (d : QrCodeData) : list Z :=
  ByteArray.encodeInternal QrCodeDataSchema (fields d) ++ tlv_of d.

Lemma fields_ok d : qr_ok d -> values_ok QrCodeDataSchema (fields d).
Proof.
  intros (H0 & H1 & H2). pose proof (isValidPasscode_range _ H1).
  change (default 0 (vendorId d)) with (default UNSPECIFIED_ID (vendorId d)) in H2.
  change (default 0 (productId d)) with (default UNSPECIFIED_ID (productId d)) in H2.
  unfold values_ok, QrCodeDataSchema, fields.
  repeat (apply Forall2_cons_2; [split; [done|unfold value_ok; cbn [type length BitField BitFieldEnum snd]; lia]|]).
  apply Forall2_nil_2.
Qed.

Lemma image_spec d :
  qr_ok d -> bytes_ok (image d) /\ byteLength (ByteArray.encodeInternal QrCodeDataSchema (fields d)) = 11.
Proof.
  intros H. destruct schema_coherent as (Hn & Hr & _).
  destruct (ByteArray.encodeInternal_spec _ _ Hn Hr (fields_ok d H)) as (Hb & Hl & _).
  split; [apply Forall_app; split; [done|apply H]|]. rewrite Hl. vm_compute; reflexivity.
Qed.

Lemma encode_payload_image d :
  encode_payload d =
  if MATTER_QR_CODE_SINGLE_PAYLOAD_MAX_LENGTH <? 3 + Z.of_nat (slength (Base38.encodeInternal (image d)))
  then Throw UnexpectedDataError else Ok (Base38.encodeInternal (image d)).
Proof.
  unfold encode_payload, image, tlv_of, throw_if.
  change (Z.of_nat (slength PREFIX)) with 3.
  destruct (tlvData d) as [[|b tlv]|]; cbn [default]; rewrite ?app_nil_r; by destruct (_ <? 3 + _).
Qed.

Lemma stated_default v : statedIdentifier (Some (default UNSPECIFIED_ID v)) = statedIdentifier v.
Proof. by destruct v. Qed.

Lemma decode_payload_image d :
  qr_ok d -> decode_payload (Base38.encodeInternal (image d)) = Ok (normalized d).
Proof.
  intros H. destruct (image_spec d H) as [Hb Hl]. unfold decode_payload.
  rewrite base38_decode_encode by done. cbn [rbind]. unfold image in *.
  set (fixed := ByteArray.encodeInternal QrCodeDataSchema (fields d)) in *.
  assert (L : slength fixed = 11%nat) by (unfold byteLength in Hl; lia).
  assert (slice 0 11 (fixed ++ tlv_of d) = fixed) as -> by (apply (slice_app [] fixed); [done|lia]).
  unfold fixed at 1. rewrite ByteArray.decode_encode_bytes by (apply schema_coherent || by apply fields_ok).
  cbn [rbind]. unfold num. cbn [fields get decide toNum].
  replace (drop 11 (fixed ++ tlv_of d)) with (tlv_of d) by (by rewrite <- L, drop_app_length).
  unfold byteLength in *. rewrite length_app, L. unfold normalized.
  assert (E : (if 11 <? Z.of_nat (11 + slength (tlv_of d)) then Some (tlv_of d) else None) =
              match tlv_of d with [] => None | tlv => Some tlv end).
  { destruct (tlv_of d); [done|]. cbn [slength]. destruct (Z.ltb_spec 11 (Z.of_nat (11 + S (slength l)))); [done|lia]. }
  rewrite E. unfold normalized. rewrite <- (stated_default (vendorId d)), <- (stated_default (productId d)).
  reflexivity.
Qed.

Lemma split_nonempty s : split s <> [].
Proof. destruct s as [|c s]; cbn; [done|]. destruct (c =? STAR); [done|]. by destruct (split s). Qed.

Lemma split_join parts :
  parts <> [] -> Forall (Forall (fun c => c <> STAR)) parts -> split (join parts) = parts.
Proof.
  intros Hn H. induction H as [|p parts Hp Hps IH]; [done|].
  assert (G : forall s, split s = [] :: parts -> split (p ++ s) = p :: parts).
  { intros s Hs. induction Hp as [|c p Hc Hp IHp]; [done|]. cbn.
    destruct (Z.eqb_spec c STAR); [done|]. by rewrite IHp. }
  destruct parts as [|q parts].
  - pose proof (G [] eq_refl) as E. by rewrite app_nil_r in E.
  - change (join (p :: q :: parts)) with (p ++ STAR :: join (q :: parts)). apply G.
    cbn [split]. rewrite Z.eqb_refl. by rewrite IH.
Qed.

Lemma map_result_ok {A B} (f : A -> result B) (g : A -> B) l :
  Forall (fun x => f x = Ok (g x)) l -> map_result f l = Ok (map g l).
Proof. induction 1 as [|x l Hx Hl IH]; [done|]. cbn. by rewrite Hx, IH. Qed.

(** The characters of a payload are those of the alphabet, [*] not among
    them. *)
Lemma encoded_no_star bs : Forall (fun c => c <> STAR) (Base38.encodeInternal bs).
Proof.
  assert (Hall : Forall (fun c => c <> STAR) (0 :: BASE38_ALPHABET)).
  { apply (bool_decide_unpack (Forall (fun c => c <> STAR) (0 :: BASE38_ALPHABET))). vm_compute; exact I. }
  assert (Hc : forall i, char_at BASE38_ALPHABET i <> STAR).
  { intros i. unfold char_at. rewrite Forall_cons in Hall. destruct Hall as [H0 Ha].
    destruct (BASE38_ALPHABET !! Z.to_nat i) eqn:E; [|done]. cbn. by apply (Forall_lookup_1 _ _ _ _ Ha E). }
  assert (He : forall n v, Forall (fun c => c <> STAR) (encodeBase38 v n)).
  { induction n as [|n IH]; intros v; cbn [encodeBase38]; [apply Forall_nil_2|].
    apply Forall_cons. split; [apply Hc|apply IH]. }
  induction bs using by_three; cbn [Base38.encodeInternal]; try apply Forall_nil_2; try apply He.
  apply Forall_app. split; [apply He|done].
Qed.

(** The number of characters [n] bytes take. *)
Definition base38_length (n : Z) : Z :=
  n / 3 * 5 + (if n mod 3 =? 0 then 0 else if n mod 3 =? 1 then 2 else 4).

Lemma base38_encoded_length bs :
  Z.of_nat (slength (Base38.encodeInternal bs)) = base38_length (byteLength bs).
Proof.
  unfold byteLength. induction bs as [|a|a b|a b c l IH] using by_three;
    cbn [Base38.encodeInternal]; rewrite ?encodeBase38_length; try done.
  rewrite length_app, encodeBase38_length, Nat2Z.inj_add, IH. cbn [slength].
  set (n := slength l). rewrite !Nat2Z.inj_succ. unfold base38_length.
  replace (Z.succ (Z.succ (Z.succ (Z.of_nat n)))) with (Z.of_nat n + 1 * 3) by lia.
  rewrite Z.div_add, Z.mod_add by lia. lia.
Qed.

Lemma image_length d : qr_ok d -> byteLength (image d) = 11 + byteLength (tlv_of d).
Proof.
  intros H. destruct (image_spec d H) as [_ L]. unfold image, byteLength in *. rewrite length_app. lia.
Qed.

(** The length of a whole code. *)
Definition code_length (ds : list QrCodeData) : Z :=
  2 + foldr (fun d acc => base38_length (11 + byteLength (tlv_of d)) + 1 + acc) 0 ds.

Lemma join_length ds :
  Forall qr_ok ds -> ds <> [] ->
  Z.of_nat (slength (PREFIX ++ join (map (fun d => Base38.encodeInternal (image d)) ds))) = code_length ds.
Proof.
  intros H Hn. rewrite length_app. change (slength PREFIX) with 3%nat. unfold code_length.
  induction H as [|d ds Hd Hds IH]; [done|].
  pose proof (base38_encoded_length (image d)) as L. rewrite image_length in L by done.
  destruct ds as [|d' ds]; cbn [map join foldr] in *; [lia|].
  rewrite length_app. cbn [slength]. specialize (IH ltac:(done)). lia.
Qed.

Definition fits (d : QrCodeData) : bool := byteLength (tlv_of d) <=? 140.

Lemma encode_payload_fits d :
  qr_ok d -> encode_payload d = if fits d then Ok (Base38.encodeInternal (image d)) else Throw UnexpectedDataError.
Proof.
  intros H. rewrite encode_payload_image, base38_encoded_length, image_length by done.
  unfold fits, MATTER_QR_CODE_SINGLE_PAYLOAD_MAX_LENGTH.
  assert (0 <= byteLength (tlv_of d)) by (unfold byteLength; lia).
  generalize dependent (byteLength (tlv_of d)). intros n Hn. unfold base38_length.
  destruct (Z.leb_spec n 140), (Z.ltb_spec 255 (3 + ((11 + n) / 3 * 5 +
    (if (11 + n) mod 3 =? 0 then 0 else if (11 + n) mod 3 =? 1 then 2 else 4)))); try done;
    destruct (Z.eqb_spec ((11 + n) mod 3) 0), (Z.eqb_spec ((11 + n) mod 3) 1); lia.
Qed.

Lemma map_result_fits ds :
  Forall qr_ok ds ->
  map_result encode_payload ds =
    if forallb fits ds then Ok (map (fun d => Base38.encodeInternal (image d)) ds)
    else Throw UnexpectedDataError.
Proof.
  induction 1 as [|d ds Hd Hds IH]; [done|]. cbn [map_result forallb map].
  rewrite encode_payload_fits, IH by done.
  destruct (fits d), (forallb fits ds); done.
Qed.

Lemma validate_ok ds : Forall qr_ok ds -> validate ds = Ok tt.
Proof.
  induction 1 as [|d ds (H0 & H1 & _) Hds IH]; [done|]. cbn. unfold assertValidPasscode.
  by rewrite H0, H1, IH.
Qed.

(** Whether a reader accepts the identifiers of a payload. *)
Definition readable (d : QrCodeData) : bool :=
  is_ok (assertValidPayloadIdentity (vendorId d) (productId d)).

Lemma stated_idem v : statedIdentifier (statedIdentifier v) = statedIdentifier v.
Proof.
  destruct v as [v|]; [|done]. unfold statedIdentifier.
  destruct (v =? UNSPECIFIED_ID) eqn:E; [done|]. by rewrite E.
Qed.

Lemma assertValidPayloadIdentity_throws v p e :
  assertValidPayloadIdentity v p = Throw e -> e = UnexpectedDataError.
Proof.
  unfold assertValidPayloadIdentity, throw_if. repeat case_match; cbn; congruence.
Qed.

Lemma validate_normalized ds :
  Forall qr_ok ds ->
  validate (map normalized ds) = Ok tt /\
  validateDecoded (map normalized ds) =
    if forallb readable ds then Ok tt else Throw UnexpectedDataError.
Proof.
  induction 1 as [|d ds (H0 & H1 & _) Hds [IH1 IH2]]; [done|]. split.
  - cbn. unfold assertValidPasscode. by rewrite H0, H1, IH1.
  - cbn [map validateDecoded normalized vendorId productId forallb].
    rewrite IH2. unfold readable.
    assert (assertValidPayloadIdentity (statedIdentifier (vendorId d)) (statedIdentifier (productId d)) =
            assertValidPayloadIdentity (vendorId d) (productId d)) as ->
      by (unfold assertValidPayloadIdentity; by rewrite !stated_idem).
    destruct (assertValidPayloadIdentity _ _) as [[]|e] eqn:E; cbn; [done|].
    by rewrite (assertValidPayloadIdentity_throws _ _ _ E).
Qed.

(** C38: QR codes.  A list of in-range payloads is encoded exactly when each
    payload's TLV data has at most 140 bytes and the whole code at most 4296
    characters; too long a payload is refused with [UnexpectedDataError].  The
    code decodes to the same payloads (an identifier 0 read as absent, empty
    TLV data as none), unless a payload's vendor and product may not be read
    together. *)
Theorem qr_code_roundtrip ds :
  ds <> [] -> Forall qr_ok ds ->
  encode ds = Throw UnexpectedDataError /\ (forallb fits ds = false \/ 4296 < code_length ds) \/
  exists code, encode ds = Ok code /\ forallb fits ds = true /\ code_length ds <= 4296 /\
    Z.of_nat (slength code) = code_length ds /\
    decode code false = Ok (map normalized ds) /\
    decode code true = (if forallb readable ds then Ok (map normalized ds) else Throw UnexpectedDataError).
Proof.
  intros Hn H. unfold encode. rewrite validate_ok by done. cbn [rbind]. unfold encodeInternal.
  destruct ds as [|d0 ds0] eqn:Eds; [done|]. rewrite <- Eds in *. clear d0 ds0 Eds.
  assert ((slength ds =? 0)%nat = false) as -> by (by destruct ds). cbn [throw_if rbind].
  rewrite map_result_fits by done. destruct (forallb fits ds) eqn:Ef; [|left; by split; [|left]].
  cbn [rbind]. rewrite join_length by done. unfold MATTER_QR_CODE_ALL_PAYLOAD_MAX_LENGTH.
  destruct (Z.ltb_spec 4296 (code_length ds)); cbn [throw_if rbind]; [left; by split; [|right]|right].
  eexists. split; [done|]. split; [done|]. split; [done|]. split; [by apply join_length|].
  assert (Hd : decodeInternal (PREFIX ++ join (map (fun d => Base38.encodeInternal (image d)) ds)) =
               Ok (map normalized ds)).
  { unfold decodeInternal, starts_with. rewrite take_app_length, bool_decide_true, drop_app_length by done.
    cbn [throw_if rbind negb]. rewrite split_join.
    - clear Hn Ef H0. induction H as [|d ds Hd Hds IH]; [done|].
      cbn [map map_result]. by rewrite decode_payload_image, IH.
    - by destruct ds.
    - apply Forall_map, Forall_true. intros d. apply encoded_no_star. }
  destruct (validate_normalized ds H) as [V1 V2].
  unfold decode. rewrite Hd. cbn [rbind]. split; [done|]. rewrite V1. cbn [rbind]. rewrite V2.
  by destruct (forallb readable ds).
Qed.

Definition sample_qr : QrCodeData := mkQr 0 (Some 9050) (Some 65279) 0 2 2976 34567890 (Some [1; 2; 3]).

Lemma qr_code_roundtrip_witness :
  exists code, encode [sample_qr; sample_qr] = Ok code /\ decode code true = Ok [sample_qr; sample_qr].
Proof.
  destruct (qr_code_roundtrip [sample_qr; sample_qr]) as [[_ [Hf|Hl]]|(code & He & _ & _ & _ & _ & Hd)].
  - done.
  - assert (qr_ok sample_qr).
    { unfold qr_ok; cbn. split_and!; try lia; try done.
      repeat (apply Forall_cons; split; [unfold is_byte; lia|]). apply Forall_nil_2. }
    by repeat constructor.
  - discriminate Hf.
  - discriminate Hl.
  - exists code. split; [exact He|]. rewrite Hd. vm_compute; reflexivity.
Defined.

End QrRoundTrip.
