(* ===== verification/Heap.v ===== *)
(** * The indexed binary heap

    Models src/packages/general/src/util/Heap.ts: the array-encoded heap with
    its position index, as a priority set.  An [Observable] emission appends to
    the log [emitted]; [stream], which only repeats [shift], is not modelled. *)

From stdpp Require Import gmap sorting.
From S2P Require Import Prelude.

(** What [Array.sort] and the heap ask of a comparator: negative or zero when
    the first argument does not rank after the second. *)
Class Comparator {T} (compare : T -> T -> Z) : Prop := {
  compare_total : forall a b, compare a b <= 0 \/ compare b a <= 0;
  compare_trans : forall a b c, compare a b <= 0 -> compare b c <= 0 -> compare a c <= 0;
}.

#[export] Instance Zsub_comparator : Comparator Z.sub.
Proof. split; lia. Qed.

Section Heap.
Context {T : Type} `{Countable T} (compare : T -> T -> Z) (normalize : T -> T).

Inductive Event := Added (item : T) | Deleted (item : T) | FirstChanged (first : option T).

Record HeapState := mkHeap {
  buffer : list T;
  positions : gmap T nat;
  emitted : list Event;
}.

Definition newHeap : HeapState := mkHeap [] ∅ [].

Definition emit (e : Event) (h : HeapState) : HeapState :=
  mkHeap (buffer h) (positions h) (emitted h ++ [e]).

Definition first (h : HeapState) : option T := buffer h !! 0%nat.
Definition size (h : HeapState) : nat := length (buffer h).

Definition leftChildOf (index : nat) : nat := (2 * index + 1)%nat.
Definition rightChildOf (index : nat) : nat := (2 * index + 2)%nat.
Definition parentOf (index : nat) : nat := ((index - 1) / 2)%nat.

(** [this.#compare(this.#buffer[i], this.#buffer[j]) > 0], for indexes of the
    buffer. *)
Definition greater (buf : list T) (i j : nat) : bool :=
  match buf !! i, buf !! j with
  | Some a, Some b => 0 <? compare a b
  | _, _ => false
  end.

Definition swap (h : HeapState) (index1 index2 : nat) : HeapState :=
  match buffer h !! index1, buffer h !! index2 with
  | Some a, Some b =>
      mkHeap (<[index2 := a]> (<[index1 := b]> (buffer h)))
        (<[a := index2]> (<[b := index1]> (positions h))) (emitted h)
  | _, _ => h
  end.

(** The loops; every round of [bubbleUp] at least halves the index and every
    round of [sinkDown] increases it below the buffer's length. *)
Fixpoint bubbleUp_loop (fuel : nat) (h : HeapState) (index : nat) : HeapState * nat :=
  match fuel with
  | O => (h, index)
  | S fuel =>
      if (index =? 0)%nat then (h, index)
      else
        let parent := parentOf index in
        if negb (greater (buffer h) parent index) then (h, index)
        else bubbleUp_loop fuel (swap h index parent) parent
  end.

Definition bubbleUp (h : HeapState) (index : nat) : HeapState * nat :=
  let '(h, index) := bubbleUp_loop (S index) h index in
  (if (index =? 0)%nat then emit (FirstChanged (first h)) h else h, index).

(** The child an item sinks to. *)
Definition moveTo (buf : list T) (index : nat) : option nat :=
  let leftChild := leftChildOf index in
  if (leftChild <? length buf)%nat then
    let moveTo := if greater buf index leftChild then Some leftChild else None in
    let rightChild := rightChildOf index in
    if (rightChild <? length buf)%nat then
      if greater buf (default index moveTo) rightChild then Some rightChild else moveTo
    else moveTo
  else None.

Fixpoint sinkDown_loop (fuel : nat) (h : HeapState) (index : nat) : HeapState :=
  match fuel with
  | O => h
  | S fuel =>
      match moveTo (buffer h) index with
      | None => h
      | Some next => sinkDown_loop fuel (swap h index next) next
      end
  end.

Definition sinkDown (h : HeapState) (index : nat) : HeapState :=
  sinkDown_loop (S (length (buffer h) - index)) h index.

Definition add1 (h : HeapState) (item : T) : HeapState :=
  let item := normalize item in
  match positions h !! item with
  | Some _ => h
  | None =>
      let h := mkHeap (buffer h ++ [item]) (positions h) (emitted h) in
      let '(h, index) := bubbleUp h (length (buffer h) - 1) in
      let h := mkHeap (buffer h) (<[item := index]> (positions h)) (emitted h) in
      emit (Added item) h
  end.

Definition add (h : HeapState) (items : list T) : HeapState := fold_left add1 items h.

Definition deleteAt (h : HeapState) (index : nat) : HeapState :=
  match buffer h !! index with
  | None => h
  | Some item =>
      let '(h, index) :=
        if (length (buffer h) =? 1)%nat then (mkHeap [] (positions h) (emitted h), index)
        else
          let lastIndex := (length (buffer h) - 1)%nat in
          match buffer h !! lastIndex with
          | None => (h, index)
          | Some last =>
              let h := mkHeap (take lastIndex (<[index := last]> (buffer h)))
                         (<[last := index]> (positions h)) (emitted h) in
              if (index <? length (buffer h))%nat then
                let '(h, index) := if (index =? 0)%nat then (h, index) else bubbleUp h index in
                (sinkDown h index, index)
              else (h, index)
          end in
      let h := mkHeap (buffer h) (base.delete item (positions h)) (emitted h) in
      let h := emit (Deleted item) h in
      if (index =? 0)%nat then emit (FirstChanged (first h)) h else h
  end.

Definition delete (h : HeapState) (item : T) : HeapState * bool :=
  match positions h !! normalize item with
  | None => (h, false)
  | Some pos => (deleteAt h pos, true)
  end.

Definition shift (h : HeapState) : HeapState * option T :=
  if (length (buffer h) =? 0)%nat then (h, None) else (deleteAt h 0, first h).

Definition clear (h : HeapState) : HeapState := mkHeap [] ∅ (emitted h).

(** [validate]: [for (let i = 0; i < buffer.length; i++)]. *)
Definition validate_at (buf : list T) (i : nat) : result unit :=
  let leftChild := leftChildOf i in
  if (leftChild <? length buf)%nat then
    let* _ := throw_if (greater buf i leftChild) InternalError in
    let rightChild := rightChildOf i in
    if (rightChild <? length buf)%nat then
      let* _ := throw_if (greater buf i rightChild) InternalError in
      throw_if (greater buf leftChild rightChild) InternalError
    else Ok tt
  else Ok tt.

Fixpoint validate_from (buf : list T) (i n : nat) : result unit :=
  match n with
  | O => Ok tt
  | S n => let* _ := validate_at buf i in validate_from buf (S i) n
  end.

Definition validate (h : HeapState) : result unit :=
  validate_from (buffer h) 0 (length (buffer h)).

(** ** Swapping *)

Lemma swap_lookup h i j a b :
  buffer h !! i = Some a -> buffer h !! j = Some b ->
  forall k, buffer (swap h i j) !! k =
    if decide (k = j) then Some a else if decide (k = i) then Some b else buffer h !! k.
Proof.
  intros Ha Hb k. unfold swap. rewrite Ha, Hb. cbn [buffer].
  apply lookup_lt_Some in Ha as La. apply lookup_lt_Some in Hb as Lb.
  destruct (decide (k = j)) as [-> |Hj].
  - apply list_lookup_insert_eq. by rewrite length_insert.
  - rewrite list_lookup_insert_ne by done. destruct (decide (k = i)) as [-> |Hi].
    + by apply list_lookup_insert_eq.
    + by rewrite list_lookup_insert_ne.
Qed.

Lemma swap_length h i j : length (buffer (swap h i j)) = length (buffer h).
Proof. unfold swap. repeat case_match; cbn; by rewrite ?length_insert. Qed.

Lemma swap_emitted h i j : emitted (swap h i j) = emitted h.
Proof. unfold swap. by repeat case_match. Qed.

Lemma swap_perm h i j : i <> j -> buffer (swap h i j) ≡ₚ buffer h.
Proof.
  intros Hij. destruct (buffer h !! i) as [a|] eqn:Ha, (buffer h !! j) as [b|] eqn:Hb;
    try (unfold swap; rewrite Ha, ?Hb; done).
  apply Permutation_inj. split; [by rewrite swap_length|].
  exists (fun k => if decide (k = j) then i else if decide (k = i) then j else k). split.
  - intros x y. repeat case_decide; congruence.
  - intros k. rewrite (swap_lookup h i j a b) by done. repeat case_decide; subst; done.
Qed.

(** ** The position index

    [indexed x h]: the index is exact for every item but [x], whose entry may
    be missing or stale while an operation is at work on it. *)

Definition indexed (x : T) (h : HeapState) : Prop :=
  NoDup (buffer h) /\
  forall y i, y <> x -> (positions h !! y = Some i <-> buffer h !! i = Some y).

Definition index_exact (h : HeapState) : Prop :=
  NoDup (buffer h) /\ forall y i, positions h !! y = Some i <-> buffer h !! i = Some y.

Lemma swap_indexed x h i j : i <> j -> indexed x h -> indexed x (swap h i j).
Proof.
  intros Hij [Hnd Hix]. destruct (buffer h !! i) as [a|] eqn:Ha, (buffer h !! j) as [b|] eqn:Hb;
    try (unfold swap; rewrite Ha, ?Hb; done).
  split; [by rewrite swap_perm|]. intros y k Hy. rewrite (swap_lookup h i j a b) by done.
  unfold swap. rewrite Ha, Hb. cbn [positions].
  assert (a <> b) as Hab by (intros ->; by apply Hij, (NoDup_lookup (buffer h) i j b)).
  pose proof (NoDup_lookup (buffer h)) as Hu.
  destruct (decide (y = a)) as [-> |Hya]; [|destruct (decide (y = b)) as [-> |Hyb]].
  - rewrite lookup_insert_eq. destruct (decide (k = j)) as [-> |Hkj]; [done|].
    split; [congruence|]. destruct (decide (k = i)) as [-> |Hki]; [congruence|].
    intros Hk. by destruct (Hki (Hu _ _ _ Hnd Hk Ha)).
  - rewrite lookup_insert_ne, lookup_insert_eq by done.
    destruct (decide (k = j)) as [-> |Hkj]; [split; congruence|].
    destruct (decide (k = i)) as [-> |Hki]; [done|]. split; [congruence|].
    intros Hk. by destruct (Hkj (Hu _ _ _ Hnd Hk Hb)).
  - rewrite !lookup_insert_ne by done. rewrite Hix by done.
    destruct (decide (k = j)) as [-> |Hkj]; [split; congruence|].
    destruct (decide (k = i)) as [-> |Hki]; [split; congruence|done].
Qed.

(** ** Heap order *)

Section Ordered.
Context `{!Comparator compare}.

Definition ranks (buf : list T) (i j : nat) : Prop :=
  forall a b, buf !! i = Some a -> buf !! j = Some b -> compare a b <= 0.

Definition heap_ordered (buf : list T) : Prop :=
  forall j, (0 < j)%nat -> ranks buf (parentOf j) j.

(** Order holds but between an item and its parent, or but between an item
    and its children, or but around an item. *)
Definition over (buf : list T) (i : nat) : Prop :=
  (0 < i)%nat -> forall c, (0 < c)%nat -> parentOf c = i -> ranks buf (parentOf i) c.
Definition ordered_above (buf : list T) (i : nat) : Prop :=
  (forall j, (0 < j)%nat -> j <> i -> ranks buf (parentOf j) j) /\ over buf i.
Definition ordered_below (buf : list T) (i : nat) : Prop :=
  (forall j, (0 < j)%nat -> parentOf j <> i -> ranks buf (parentOf j) j) /\ over buf i.
Definition ordered_around (buf : list T) (i : nat) : Prop :=
  (forall j, (0 < j)%nat -> j <> i -> parentOf j <> i -> ranks buf (parentOf j) j) /\ over buf i.

Lemma parentOf_lt i : (0 < i)%nat -> (parentOf i < i)%nat.
Proof. intros Hi. unfold parentOf. pose proof (Nat.Div0.div_le_upper_bound (i - 1) 2 (i - 1)). lia. Qed.

Lemma parentOf_children i c :
  (0 < c)%nat -> parentOf c = i -> c = leftChildOf i \/ c = rightChildOf i.
Proof.
  unfold parentOf, leftChildOf, rightChildOf. intros Hc <-.
  pose proof (Nat.div_mod (c - 1) 2 ltac:(lia)). pose proof (Nat.mod_upper_bound (c - 1) 2 ltac:(lia)). lia.
Qed.

Lemma parentOf_left i : parentOf (leftChildOf i) = i.
Proof. unfold parentOf, leftChildOf. symmetry. apply (Nat.div_unique _ _ _ 0); lia. Qed.
Lemma parentOf_right i : parentOf (rightChildOf i) = i.
Proof. unfold parentOf, rightChildOf. symmetry. apply (Nat.div_unique _ _ _ 1); lia. Qed.

Lemma greater_true buf i j :
  greater buf i j = true -> exists a b, buf !! i = Some a /\ buf !! j = Some b /\ 0 < compare a b.
Proof.
  unfold greater. destruct (buf !! i), (buf !! j); try done. intros Hc%Z.ltb_lt. eauto.
Qed.

Lemma greater_false buf i j : greater buf i j = false -> ranks buf i j.
Proof.
  unfold greater. intros Hg a b Ha Hb. rewrite Ha, Hb in Hg. by apply Z.ltb_ge in Hg.
Qed.

Lemma compare_gt a b : 0 < compare a b -> compare b a <= 0.
Proof. destruct (compare_total a b); [lia|done]. Qed.

Lemma ranks_trans buf i j k :
  is_Some (buf !! j) -> ranks buf i j -> ranks buf j k -> ranks buf i k.
Proof. intros [b Hb] Hij Hjk a c Ha Hc. by apply (compare_trans _ b); auto. Qed.

Lemma ranks_none_l buf i j : buf !! i = None -> ranks buf i j.
Proof. intros E a b Ha. congruence. Qed.
Lemma ranks_none_r buf i j : buf !! j = None -> ranks buf i j.
Proof. intros E a b _ Hb. congruence. Qed.

Lemma is_Some_below (buf : list T) i j : (i <= j)%nat -> is_Some (buf !! j) -> is_Some (buf !! i).
Proof. rewrite !lookup_lt_is_Some. lia. Qed.

Lemma ordered_over buf i : heap_ordered buf -> over buf i.
Proof.
  intros Ho Hi c Hc Hp. destruct (buf !! c) as [x|] eqn:Ex; [|by apply ranks_none_r].
  apply (ranks_trans _ _ i).
  - apply (is_Some_below _ _ c); [|by eexists]. rewrite <- Hp. pose proof (parentOf_lt c Hc). lia.
  - by apply Ho.
  - rewrite <- Hp. by apply Ho.
Qed.

Lemma heap_ordered_below buf i : heap_ordered buf -> ordered_below buf i.
Proof. intros Ho. split; [intros j Hj _; by apply Ho|by apply ordered_over]. Qed.

(** An item out of order around its place is out of order on one side
    only. *)
Lemma around_above buf i :
  (0 < i)%nat -> ordered_around buf i -> greater buf (parentOf i) i = true -> ordered_above buf i.
Proof.
  intros Hi [Ho Hov] (a & b & Ha & Hb & Hc)%greater_true. split; [|done].
  intros j Hj Hne. destruct (decide (parentOf j = i)) as [E|E]; [|by apply Ho]. rewrite E.
  intros x y Hx Hy. rewrite Hb in Hx. injection Hx as <-.
  apply (compare_trans _ a); [by apply compare_gt|]. by apply (Hov Hi j Hj E).
Qed.

Lemma around_below buf i :
  (0 < i)%nat -> ordered_around buf i -> greater buf (parentOf i) i = false -> ordered_below buf i.
Proof.
  intros Hi [Ho Hov] Hg%greater_false. split; [|done].
  intros j Hj Hne. destruct (decide (j = i)) as [-> |]; [done|by apply Ho].
Qed.

Lemma around_root_below buf : ordered_around buf 0 -> ordered_below buf 0.
Proof. intros [Ho Hov]. split; [|done]. intros j Hj Hp. apply Ho; [done|lia|done]. Qed.

(** ** Bubbling up *)

Lemma swap_ranks h i j a b k l :
  buffer h !! i = Some a -> buffer h !! j = Some b ->
  (k <> i -> k <> j -> l <> i -> l <> j -> ranks (buffer h) k l) ->
  (k = i -> l <> i -> l <> j -> ranks (buffer h) j l) ->
  (k = j -> l <> i -> l <> j -> ranks (buffer h) i l) ->
  (k <> i -> k <> j -> l = i -> ranks (buffer h) k j) ->
  (k <> i -> k <> j -> l = j -> ranks (buffer h) k i) ->
  (k = i -> l = j -> compare b a <= 0) ->
  (k = j -> l = i -> compare a b <= 0) -> k <> l ->
  ranks (buffer (swap h i j)) k l.
Proof.
  intros Ha Hb H1 H2 H3 H4 H5 H6 H7 Hkl x y. rewrite !(swap_lookup h i j a b) by done.
  destruct (decide (k = j)) as [-> |], (decide (l = j)) as [-> |]; try done;
    repeat case_decide; subst; try done; intros Hx Hy; simplify_eq; auto.
  all: first [by eapply H3; eauto|by eapply H5; eauto|by eapply H2; eauto|by eapply H4; eauto|by eapply H1; eauto].
Qed.

Lemma bubble_step h i a b :
  (0 < i)%nat -> buffer h !! i = Some a -> buffer h !! parentOf i = Some b -> 0 < compare b a ->
  ordered_above (buffer h) i -> ordered_above (buffer (swap h i (parentOf i))) (parentOf i).
Proof.
  intros Hi Ha Hb Hc [Ho Hov]. pose proof (parentOf_lt i Hi) as Hpi. apply compare_gt in Hc.
  specialize (Hov Hi). split.
  - intros j Hj Hne. pose proof (parentOf_lt j Hj).
    apply (swap_ranks h i (parentOf i) a b); try done; try lia.
    + intros. by apply Ho.
    + intros E _ _. apply Hov; done.
    + intros E Hji _. apply (ranks_trans _ _ (parentOf i)); [by eexists| |by rewrite <- E; apply Ho].
      intros x y Hx Hy. congruence.
    + intros E1 E2 E3. subst j. lia.
  - intros Hp c Hc0 Hcp. pose proof (parentOf_lt c Hc0). pose proof (parentOf_lt _ Hp).
    assert (Hgp : ranks (buffer h) (parentOf (parentOf i)) (parentOf i)) by (apply Ho; lia).
    apply (swap_ranks h i (parentOf i) a b); try done; try lia.
    + intros _ _ Hci _. apply (ranks_trans _ _ (parentOf i)); [by eexists|done|].
      rewrite <- Hcp. by apply Ho.
Qed.

Lemma bubbleUp_loop_spec x fuel h i :
  (i < fuel)%nat -> is_Some (buffer h !! i) -> indexed x h ->
  forall h' i', bubbleUp_loop fuel h i = (h', i') ->
  buffer h' ≡ₚ buffer h /\ indexed x h' /\ emitted h' = emitted h /\ (i' <= i)%nat /\
  buffer h' !! i' = buffer h !! i /\
  (ordered_above (buffer h) i -> heap_ordered (buffer h')) /\
  (i' <> i -> (0 < i)%nat /\ greater (buffer h) (parentOf i) i = true) /\
  (i' = i -> h' = h /\ ((0 < i)%nat -> greater (buffer h) (parentOf i) i = false)) /\
  ((0 < i')%nat -> buffer h' !! 0%nat = buffer h !! 0%nat).
Proof.
  revert h i. induction fuel as [|fuel IH]; intros h i Hf Hs Hix h' i'; [lia|]. cbn [bubbleUp_loop].
  destruct (Nat.eqb_spec i 0) as [-> |Hi].
  { intros [= <- <-]. split_and!; try done; try lia; [|split; [done|lia]].
    intros [Ho _] j Hj. apply Ho; lia. }
  destruct (greater (buffer h) (parentOf i) i) eqn:Hg; cbn [negb].
  - destruct (greater_true _ _ _ Hg) as (b & a & Hb & Ha & Hc).
    pose proof (parentOf_lt i ltac:(lia)) as Hpi. intros E.
    assert (Hp : buffer (swap h i (parentOf i)) !! parentOf i = Some a)
      by (rewrite (swap_lookup h i (parentOf i) a b), decide_True by done; done).
    apply IH in E as (E1 & E2 & E3 & E4 & E5 & E6 & E7 & E8 & E9);
      [|lia|by eexists|apply swap_indexed; [lia|done]].
    split_and!; try done; try lia.
    + rewrite E1. apply swap_perm. lia.
    + by rewrite E3, swap_emitted.
    + by rewrite E5, Hp, Ha.
    + intros Ho. apply E6. apply (bubble_step h i a b); try done. lia.
    + intros Hi'. rewrite E9, (swap_lookup h i (parentOf i) a b), !decide_False by (done || lia). done.
  - intros [= <- <-]. split_and!; try done. intros [Ho Hov] j Hj.
    destruct (decide (j = i)) as [-> |]; [by apply greater_false|by apply Ho].
Qed.

(** ** Sinking down *)

Lemma moveTo_spec buf i :
  match moveTo buf i with
  | Some c => (0 < c < length buf)%nat /\ parentOf c = i /\ greater buf i c = true /\
      forall c', (0 < c')%nat -> parentOf c' = i -> ranks buf c c'
  | None => is_Some (buf !! i) -> forall c, (0 < c)%nat -> parentOf c = i -> ranks buf i c
  end.
Proof.
  set (l := leftChildOf i). set (r := rightChildOf i).
  assert (Hl : (0 < l)%nat /\ parentOf l = i) by (unfold l; rewrite parentOf_left; unfold leftChildOf; lia).
  assert (Hr : (0 < r)%nat /\ parentOf r = i) by (unfold r; rewrite parentOf_right; unfold rightChildOf; lia).
  assert (Hlr : (r = S l)%nat) by (unfold l, r, leftChildOf, rightChildOf; lia).
  assert (Hch : forall c, (0 < c)%nat -> parentOf c = i -> c = l \/ c = r) by apply parentOf_children.
  assert (Hout : forall c, (length buf <= c)%nat -> forall k, ranks buf k c)
    by (intros c Hc k; apply ranks_none_r; by apply lookup_ge_None).
  assert (Hrefl : forall k, ranks buf k k).
  { intros k a b Ha Hb. assert (a = b) as -> by congruence. by destruct (compare_total b b). }
  assert (Hgt : forall j k, greater buf j k = true -> ranks buf k j).
  { intros j k (a & b & Ha & Hb & Hc)%greater_true x y Hx Hy. apply compare_gt in Hc. congruence. }
  unfold moveTo. fold l. fold r. clearbody l r.
  destruct (Nat.ltb_spec l (length buf)) as [Ll|Ll];
    [|intros _ c Hc Hp; destruct (Hch c Hc Hp) as [-> | ->]; apply Hout; lia].
  destruct (greater buf i l) eqn:Gl; destruct (Nat.ltb_spec r (length buf)) as [Lr|Lr]; cbn [default id].
  - destruct (greater buf l r) eqn:Gr.
    + pose proof (greater_true _ _ _ Gl) as (a & b & Ha & Hb & Hab).
      pose proof (greater_true _ _ _ Gr) as (b' & c & Hb' & Hc & Hbc). simplify_eq.
      split_and!; try lia; try done.
      * unfold greater. rewrite Ha, Hc. apply Z.ltb_lt. destruct (decide (0 < compare a c)); [done|].
        assert (compare a b <= 0); [|lia]. apply (compare_trans _ c); [lia|by apply compare_gt].
      * intros c' H1 H2. destruct (Hch c' H1 H2) as [-> | ->]; auto.
    + split_and!; try lia; try done. intros c' H1 H2.
      destruct (Hch c' H1 H2) as [-> | ->]; [done|by apply greater_false].
  - split_and!; try lia; try done. intros c' H1 H2.
    destruct (Hch c' H1 H2) as [-> | ->]; [done|apply Hout; lia].
  - destruct (greater buf i r) eqn:Gr.
    + split_and!; try lia; try done. intros c' H1 H2.
      destruct (Hch c' H1 H2) as [-> | ->]; [|done].
      apply (ranks_trans _ _ i); [|by apply Hgt|by apply greater_false].
      by destruct (greater_true _ _ _ Gr) as (a & b & -> & _).
    + intros _ c H1 H2. destruct (Hch c H1 H2) as [-> | ->]; by apply greater_false.
  - intros _ c H1 H2. destruct (Hch c H1 H2) as [-> | ->]; [by apply greater_false|apply Hout; lia].
Qed.

Lemma sink_step h i c a b :
  (0 < c)%nat -> parentOf c = i -> buffer h !! i = Some a -> buffer h !! c = Some b -> 0 < compare a b ->
  (forall c', (0 < c')%nat -> parentOf c' = i -> ranks (buffer h) c c') ->
  ordered_below (buffer h) i -> ordered_below (buffer (swap h i c)) c.
Proof.
  intros Hc Hp Ha Hb Hab Hmin [Ho Hov]. pose proof (parentOf_lt c Hc). apply compare_gt in Hab. split.
  - intros j Hj Hne. pose proof (parentOf_lt j Hj). apply (swap_ranks h i c a b); try done; try lia.
    + intros. by apply Ho.
    + intros E _ _. apply Hmin; [done|congruence].
    + intros E1 E2 ->. apply Hov; lia || done.
    + intros E1 E2 ->. congruence.
  - intros _ c' Hc' Hp'. pose proof (parentOf_lt c' Hc'). rewrite Hp.
    apply (swap_ranks h i c a b); try done; try lia.
    intros _ _ _. rewrite <- Hp'. apply Ho; [done|lia].
Qed.

Lemma sinkDown_loop_spec x fuel h i :
  (length (buffer h) < fuel + i)%nat -> (i < length (buffer h))%nat -> indexed x h ->
  let h' := sinkDown_loop fuel h i in
  buffer h' ≡ₚ buffer h /\ indexed x h' /\ emitted h' = emitted h /\
  (ordered_below (buffer h) i -> heap_ordered (buffer h')) /\
  ((0 < i)%nat -> buffer h' !! 0%nat = buffer h !! 0%nat).
Proof.
  revert h i. induction fuel as [|fuel IH]; intros h i Hf Hi Hix; cbn [sinkDown_loop]; [lia|].
  pose proof (moveTo_spec (buffer h) i) as Hm. destruct (moveTo (buffer h) i) as [c|].
  - destruct Hm as (Hc & Hp & (a & b & Ha & Hb & Hab)%greater_true & Hmin).
    pose proof (parentOf_lt c ltac:(lia)).
    destruct (IH (swap h i c) c) as (E1 & E2 & E3 & E4 & E5);
      [rewrite swap_length; lia|rewrite swap_length; lia|apply swap_indexed; [lia|done]|].
    split_and!; [|done| | |].
    + rewrite E1. apply swap_perm. lia.
    + by rewrite E3, swap_emitted.
    + intros Ho. apply E4. apply (sink_step h i c a b); try done. lia.
    + intros Hi'. rewrite E5, (swap_lookup h i c a b), !decide_False by (done || lia). done.
  - cbn zeta. split_and!; try done. intros [Ho _] j Hj. destruct (decide (parentOf j = i)) as [E|E].
    + rewrite E. apply Hm; [by apply lookup_lt_is_Some|done..].
    + by apply Ho.
Qed.

(** ** The invariant and the operations *)

Definition invariant (h : HeapState) : Prop := index_exact h /\ heap_ordered (buffer h).

Lemma index_exact_indexed x h : index_exact h -> indexed x h.
Proof. intros [Hn Hix]. split; [done|]. intros y i _. apply Hix. Qed.

Lemma invariant_new : invariant newHeap.
Proof.
  split; [split; [constructor|]|intros j _ a b Ha; done].
  intros y i. cbn. by rewrite lookup_empty.
Qed.

Lemma emit_fields e h : buffer (emit e h) = buffer h /\ positions (emit e h) = positions h.
Proof. done. Qed.

(** The state after a [push]: the new item is unindexed and out of order only
    with its parent. *)
Lemma push_state h item :
  invariant h -> positions h !! item = None ->
  (item ∉ buffer h) /\
  indexed item (mkHeap (buffer h ++ [item]) (positions h) (emitted h)) /\
  ordered_above (buffer h ++ [item]) (length (buffer h)).
Proof.
  intros [[Hn Hix] Ho] Hp.
  assert (Hni : item ∉ buffer h).
  { intros [k Hk]%list_elem_of_lookup. apply Hix in Hk. congruence. }
  split_and!; [done| |].
  - split; cbn [buffer positions].
    + apply NoDup_app. split_and!; [done| |apply NoDup_singleton].
      intros x Hx ->%list_elem_of_singleton. done.
    + intros y i Hy. rewrite Hix, lookup_app. destruct (buffer h !! i) eqn:E; [done|].
      split; [done|]. intros [_ Hl]%list_lookup_singleton_Some. congruence.
  - assert (Hpre : forall k x, (k < length (buffer h))%nat ->
      (buffer h ++ [item]) !! k = Some x -> buffer h !! k = Some x)
      by (intros k x Hk; by rewrite lookup_app_l).
    assert (Hlen : forall k x, (buffer h ++ [item]) !! k = Some x -> (k <= length (buffer h))%nat).
    { intros k x Hk%lookup_lt_Some. rewrite length_app in Hk. cbn in Hk. lia. }
    split.
    + intros j Hj Hne a b Ha Hb. pose proof (parentOf_lt j Hj). pose proof (Hlen _ _ Hb).
      apply (Ho j Hj); apply Hpre; try done; lia.
    + intros _ c Hc Hpc a b _ Hb. pose proof (parentOf_lt c Hc). pose proof (Hlen _ _ Hb). lia.
Qed.

Lemma bubbleUp_spec x h i h' i' :
  bubbleUp h i = (h', i') -> is_Some (buffer h !! i) -> indexed x h ->
  buffer h' ≡ₚ buffer h /\ indexed x h' /\ buffer h' !! i' = buffer h !! i /\
  emitted h' = emitted h ++ (if (i' =? 0)%nat then [FirstChanged (first h')] else []) /\
  ((0 < i')%nat -> first h' = first h) /\
  (ordered_above (buffer h) i -> heap_ordered (buffer h')) /\
  ((0 < i)%nat -> ordered_around (buffer h) i -> ordered_below (buffer h') i').
Proof.
  unfold bubbleUp. destruct (bubbleUp_loop (S i) h i) as [h1 i1] eqn:E. intros [= <- <-] Hs Hix.
  destruct (bubbleUp_loop_spec x (S i) h i ltac:(lia) Hs Hix _ _ E)
    as (E1 & E2 & E3 & E4 & E5 & E6 & E7 & E8 & E9).
  assert (Eb : buffer (if (i1 =? 0)%nat then emit (FirstChanged (first h1)) h1 else h1) = buffer h1)
    by (by destruct (i1 =? 0)%nat).
  unfold first in *. rewrite Eb. split_and!; try done.
  - unfold indexed. rewrite Eb. by destruct (i1 =? 0)%nat.
  - destruct (i1 =? 0)%nat; cbn; by rewrite E3, ?app_nil_r.
  - intros Hi Ho. destruct (decide (i1 = i)) as [-> |Hne].
    + destruct (E8 eq_refl) as [-> Hg]. apply around_below; auto.
    + destruct (E7 Hne) as [_ Hg]. apply heap_ordered_below, E6, around_above; auto.
Qed.

Lemma indexed_set item i h :
  indexed item h -> buffer h !! i = Some item ->
  index_exact (mkHeap (buffer h) (<[item := i]> (positions h)) (emitted h)).
Proof.
  intros [Hn Hix] Hi. split; [done|]. cbn [buffer positions]. intros y k.
  destruct (decide (y = item)) as [-> |Hy].
  - rewrite lookup_insert_eq. split; [congruence|]. intros Hk. by rewrite (NoDup_lookup _ _ _ _ Hn Hi Hk).
  - rewrite lookup_insert_ne by done. by apply Hix.
Qed.

Lemma indexed_delete item h :
  indexed item h -> item ∉ buffer h ->
  index_exact (mkHeap (buffer h) (base.delete item (positions h)) (emitted h)).
Proof.
  intros [Hn Hix] Hi. split; [done|]. cbn [buffer positions]. intros y k.
  destruct (decide (y = item)) as [-> |Hy].
  - rewrite lookup_delete_eq. split; [done|]. intros Hk. destruct Hi. by eapply list_elem_of_lookup_2.
  - rewrite lookup_delete_ne by done. by apply Hix.
Qed.

(** What an operation emits: [e] and, when the head changes, the new head. *)
Definition announces (h h' : HeapState) (e : Event) : Prop :=
  exists evs, emitted h' = emitted h ++ evs /\ (e ∈ evs) /\
    (first h' <> first h -> FirstChanged (first h') ∈ evs).

Lemma add1_spec h item :
  invariant h ->
  invariant (add1 h item) /\
  (if decide (normalize item ∈ buffer h) then add1 h item = h
   else buffer (add1 h item) ≡ₚ normalize item :: buffer h /\ announces h (add1 h item) (Added (normalize item))).
Proof.
  intros Hinv. unfold add1. set (n := normalize item). destruct (positions h !! n) as [k|] eqn:Ep.
  { split; [done|]. rewrite decide_True; [done|]. apply Hinv in Ep. by eapply list_elem_of_lookup_2. }
  destruct (push_state h n Hinv Ep) as (Hni & Hix & Ho). rewrite decide_False by done.
  set (h0 := mkHeap (buffer h ++ [n]) (positions h) (emitted h)) in *.
  replace (length (buffer h0) - 1)%nat with (length (buffer h))
    by (cbn; rewrite length_app; cbn; lia).
  destruct (bubbleUp h0 (length (buffer h))) as [h1 i1] eqn:Eb.
  assert (Hl : buffer h0 !! length (buffer h) = Some n) by (cbn; by rewrite lookup_app_r, Nat.sub_diag by lia).
  destruct (bubbleUp_spec n _ _ _ _ Eb ltac:(by eexists) Hix) as (E1 & E2 & E3 & E4 & E5 & E6 & _).
  rewrite Hl in E3. split_and!.
  - split; [|by apply E6]. apply (indexed_set n i1) in E2; [|done]. destruct E2 as [G1 G2]. by split.
  - cbn [emit buffer]. rewrite E1. cbn. by rewrite Permutation_app_comm.
  - exists ((if (i1 =? 0)%nat then [FirstChanged (first h1)] else []) ++ [Added n]). split_and!.
    + cbn [emit emitted]. rewrite E4. cbn. by rewrite app_assoc.
    + set_solver.
    + intros Hne. destruct (Nat.eqb_spec i1 0) as [-> |Hi1]; [set_solver|]. destruct Hne.
      unfold first in *. cbn [emit buffer]. rewrite E5 by lia. cbn.
      destruct (buffer h) eqn:Eh; [|done]. cbn in *. destruct Hi1.
      unfold bubbleUp in Eb. cbn in Eb. by injection Eb as <- <-.
Qed.

(** The buffer after the last item has taken the place of the deleted one. *)
Definition replaced (buf : list T) (index : nat) (last : T) : list T :=
  take (length buf - 1) (<[index := last]> buf).

Lemma replaced_spec buf index item last :
  buf !! index = Some item -> buf !! (length buf - 1)%nat = Some last ->
  length (replaced buf index last) = (length buf - 1)%nat /\
  buf ≡ₚ item :: replaced buf index last /\
  (forall k, k <> index -> (k < length buf - 1)%nat -> replaced buf index last !! k = buf !! k) /\
  ((index < length buf - 1)%nat -> replaced buf index last !! index = Some last).
Proof.
  intros Hi Hl. unfold replaced. destruct buf as [|x buf _] using rev_ind; [done|].
  assert (En : (length (buf ++ [x]) - 1)%nat = length buf) by (rewrite length_app; cbn; lia).
  rewrite En in *. rewrite lookup_app_r, Nat.sub_diag in Hl by lia. injection Hl as ->.
  apply lookup_lt_Some in Hi as Li. rewrite length_app in Li. cbn in Li.
  destruct (decide (index < length buf)%nat) as [Hlt|Hge].
  - rewrite insert_app_l, take_app_le, take_ge by (rewrite ?length_insert; lia).
    rewrite lookup_app_l in Hi by done. split_and!.
    + by rewrite length_insert.
    + rewrite Permutation_app_comm. cbn [app].
      rewrite <- (take_drop_middle _ _ _ Hi) at 1. rewrite insert_take_drop by done. solve_Permutation.
    + intros k Hk Hkl. rewrite list_lookup_insert_ne, lookup_app_l by done. done.
    + intros _. by apply list_lookup_insert_eq.
  - assert (index = length buf) as -> by lia. rewrite lookup_app_r, Nat.sub_diag in Hi by lia.
    injection Hi as ->. rewrite list_insert_id by (rewrite lookup_app_r, Nat.sub_diag by lia; done).
    rewrite take_app_length. split_and!; [done|by rewrite Permutation_app_comm| |lia].
    intros k _ Hk. by rewrite lookup_app_l.
Qed.

Lemma replaced_state h index item last :
  invariant h -> buffer h !! index = Some item -> buffer h !! (length (buffer h) - 1)%nat = Some last ->
  let buf := replaced (buffer h) index last in
  indexed item (mkHeap buf (<[last := index]> (positions h)) (emitted h)) /\
  ordered_around buf index /\ ((length buf <= index)%nat -> heap_ordered buf).
Proof.
  intros [[Hn Hix] Ho] Hi Hl. cbn zeta.
  destruct (replaced_spec _ _ _ _ Hi Hl) as (Ln & Hp & Hother & Hat).
  set (buf := replaced (buffer h) index last) in *.
  assert (Hnd : NoDup (item :: buf)) by (by rewrite <- Hp). apply NoDup_cons in Hnd as [Hni Hnd].
  assert (Hsub : forall k x, k <> index -> buf !! k = Some x -> buffer h !! k = Some x).
  { intros k x Hk Hx. apply lookup_lt_Some in Hx as Lx. rewrite <- Hother by (done || lia). done. }
  assert (Hsub' : forall k x, x <> item -> x <> last -> buffer h !! k = Some x -> buf !! k = Some x).
  { intros k x Hx1 Hx2 Hk. apply lookup_lt_Some in Hk as Lk. rewrite Hother; [done|congruence|].
    destruct (decide (k = length (buffer h) - 1)%nat) as [-> |]; [congruence|lia]. }
  assert (Hran : forall k l, k <> index -> l <> index -> ranks (buffer h) k l -> ranks buf k l).
  { intros k l Hk Hlx Hr a b Ha Hb. by apply Hr; apply Hsub. }
  split_and!.
  - split; [done|]. cbn [buffer positions]. intros y k Hy. destruct (decide (y = last)) as [-> |Hyl].
    + rewrite lookup_insert_eq.
      assert (index < length (buffer h) - 1)%nat as Hlt.
      { apply lookup_lt_Some in Hi as Li.
        destruct (decide (index = length (buffer h) - 1)%nat) as [-> |]; [congruence|lia]. }
      split; [intros [= <-]; auto|]. intros Hk. f_equal. eapply NoDup_lookup; eauto.
    + rewrite lookup_insert_ne by done. rewrite Hix. split; [by apply Hsub'|].
      intros Hk. destruct (decide (k = index)) as [-> |]; [|by apply Hsub].
      apply lookup_lt_Some in Hk as Lk. rewrite Hat in Hk by lia. congruence.
  - split.
    + intros j Hj Hne Hpn. apply Hran; try done. by apply Ho.
    + intros Hpos c Hc Hpc. pose proof (parentOf_lt c Hc). pose proof (parentOf_lt index Hpos).
      apply Hran; [lia..|]. by apply (ordered_over _ index).
  - intros Hlen j Hj. pose proof (parentOf_lt j Hj). intros a b Ha Hb.
    apply lookup_lt_Some in Ha as La. apply lookup_lt_Some in Hb as Lb.
    apply (Ho j Hj); apply Hsub; try done; lia.
Qed.

(** The part of [deleteAt] that restores the order. *)
Lemma restore_spec x h index h' index' :
  (let '(h, index) := if (index =? 0)%nat then (h, index) else bubbleUp h index in
   (sinkDown h index, index)) = (h', index') ->
  is_Some (buffer h !! index) -> indexed x h -> ordered_around (buffer h) index ->
  buffer h' ≡ₚ buffer h /\ indexed x h' /\ heap_ordered (buffer h') /\
  (exists evs, emitted h' = emitted h ++ evs) /\
  ((0 < index')%nat -> first h' = first h).
Proof.
  intros E Hs Hix Ho.
  assert (Hsink : forall g i, is_Some (buffer g !! i) -> indexed x g -> ordered_below (buffer g) i ->
    buffer (sinkDown g i) ≡ₚ buffer g /\ indexed x (sinkDown g i) /\ heap_ordered (buffer (sinkDown g i)) /\
    emitted (sinkDown g i) = emitted g /\ ((0 < i)%nat -> first (sinkDown g i) = first g)).
  { intros g i Hi%lookup_lt_is_Some Hg Hob. unfold sinkDown.
    destruct (sinkDown_loop_spec x (S (length (buffer g) - i)) g i ltac:(lia) Hi Hg)
      as (E1 & E2 & E3 & E4 & E5). split_and!; auto. }
  destruct (Nat.eqb_spec index 0) as [-> |Hne].
  - injection E as <- <-. destruct (Hsink h 0%nat Hs Hix (around_root_below _ Ho)) as (E1 & E2 & E3 & E4 & E5).
    split_and!; try done. exists []. by rewrite E4, app_nil_r.
  - destruct (bubbleUp h index) as [h1 i1] eqn:Eb. injection E as <- <-.
    destruct (bubbleUp_spec x _ _ _ _ Eb Hs Hix) as (E1 & E2 & E3 & E4 & E5 & _ & E7).
    destruct (Hsink h1 i1) as (F1 & F2 & F3 & F4 & F5); [by rewrite E3|done|apply E7; [lia|done]|].
    split_and!; [by rewrite F1|done|done|eexists; by rewrite F4, E4|].
    intros Hi. by rewrite F5, E5.
Qed.

Lemma deleteAt_spec h index item :
  invariant h -> buffer h !! index = Some item ->
  invariant (deleteAt h index) /\ buffer h ≡ₚ item :: buffer (deleteAt h index) /\
  announces h (deleteAt h index) (Deleted item).
Proof.
  intros Hinv Hi. apply lookup_lt_Some in Hi as Li. unfold deleteAt. rewrite Hi.
  (* the state before the item leaves the index *)
  match goal with |- context [let '(_, _) := ?e in _] => destruct e as [h1 i1] eqn:E end.
  assert (indexed item h1 /\ heap_ordered (buffer h1) /\ buffer h ≡ₚ item :: buffer h1 /\
          (exists evs, emitted h1 = emitted h ++ evs) /\ ((0 < i1)%nat -> first h1 = first h))
    as (H1 & H2 & H3 & [evs H4] & H5).
  { destruct (Nat.eqb_spec (length (buffer h)) 1) as [L1|L1].
    - injection E as <- <-. destruct (buffer h) as [|x [|]] eqn:Eb; try done.
      assert (index = 0%nat) as -> by (cbn in Li; lia). cbn in Hi. injection Hi as ->.
      split_and!; try done; [|by exists []; rewrite app_nil_r|lia].
      split; [constructor|]. cbn. intros y i Hy. destruct Hinv as [[_ Hix] _].
      rewrite Hix, Eb. split; [|done]. intros [_ ->]%list_lookup_singleton_Some. done.
    - assert (Hlast : is_Some (buffer h !! (length (buffer h) - 1)%nat)) by (apply lookup_lt_is_Some; lia).
      destruct Hlast as [last Hlast]. rewrite Hlast in E. fold (replaced (buffer h) index last) in E.
      destruct (replaced_spec _ _ _ _ Hi Hlast) as (Ln & Hp & Hother & Hat).
      destruct (replaced_state _ _ _ _ Hinv Hi Hlast) as (Hix & Har & Hord).
      assert (Hfirst : (0 < index)%nat -> replaced (buffer h) index last !! 0%nat = buffer h !! 0%nat)
        by (intros; apply Hother; lia).
      cbn [buffer] in E. destruct (Nat.ltb_spec index (length (replaced (buffer h) index last))) as [Hlt|Hge].
      + destruct (restore_spec item _ _ _ _ E) as (R1 & R2 & R3 & R4 & R5);
          [cbn; by apply lookup_lt_is_Some|done|done|].
        cbn [buffer] in R1. split_and!; try done; [by rewrite R1|].
        intros Hi1. rewrite R5 by done. unfold first. cbn [buffer].
        destruct (Nat.eqb_spec index 0) as [-> |]; [injection E as _ <-; lia|apply Hfirst; lia].
      + injection E as <- <-. split_and!; try done; [by apply Hord|by exists []; rewrite app_nil_r]. }
  assert (Hni : item ∉ buffer h1).
  { assert (NoDup (item :: buffer h1)) as [? _]%NoDup_cons; [|done]. rewrite <- H3. apply Hinv. }
  destruct (indexed_delete _ _ H1 Hni) as [X1 X2].
  destruct (Nat.eqb_spec i1 0) as [-> |Hne]; (split; [by split|]); (split; [done|]);
    cbn [emit emitted buffer positions].
  - exists ((evs ++ [Deleted item]) ++ [FirstChanged (first h1)]). split_and!; [|set_solver..].
    cbn [emit emitted]. by rewrite H4, !app_assoc.
  - exists (evs ++ [Deleted item]). split_and!; [by cbn; rewrite H4, app_assoc|set_solver|].
    intros Hf. destruct Hf. apply H5. lia.
Qed.

(** *** The priority set a heap implements *)

Inductive Op := OpAdd (items : list T) | OpDelete (item : T) | OpShift | OpClear.
Inductive Result := RUnit | RBool (b : bool) | RItem (item : option T).

Definition step (h : HeapState) (op : Op) : HeapState * Result :=
  match op with
  | OpAdd items => (add h items, RUnit)
  | OpDelete item => let '(h, b) := delete h item in (h, RBool b)
  | OpShift => let '(h, r) := shift h in (h, RItem r)
  | OpClear => (clear h, RUnit)
  end.

Fixpoint run (h : HeapState) (ops : list Op) : HeapState * list Result :=
  match ops with
  | [] => (h, [])
  | op :: ops => let '(h, r) := step h op in let '(h, rs) := run h ops in (h, r :: rs)
  end.

Inductive spec_step (s : gset T) : Op -> gset T -> Result -> Prop :=
| spec_add items : spec_step s (OpAdd items) (s ∪ list_to_set (normalize <$> items)) RUnit
| spec_delete item :
    spec_step s (OpDelete item) (s ∖ {[normalize item]}) (RBool (bool_decide (normalize item ∈ s)))
| spec_shift_empty : s = ∅ -> spec_step s OpShift s (RItem None)
| spec_shift x : x ∈ s -> (forall y, y ∈ s -> compare x y <= 0) ->
    spec_step s OpShift (s ∖ {[x]}) (RItem (Some x))
| spec_clear : spec_step s OpClear ∅ RUnit.

Inductive spec_run : gset T -> list Op -> gset T -> list Result -> Prop :=
| spec_run_nil s : spec_run s [] s []
| spec_run_cons s op s' r ops s'' rs :
    spec_step s op s' r -> spec_run s' ops s'' rs -> spec_run s (op :: ops) s'' (r :: rs).

Definition items (h : HeapState) : gset T := list_to_set (buffer h).

Lemma root_min h x : invariant h -> first h = Some x -> forall y, y ∈ buffer h -> compare x y <= 0.
Proof.
  intros [_ Ho] Hx y [k Hk]%list_elem_of_lookup. revert y Hk.
  induction k as [k IH] using lt_wf_ind. intros y Hk. destruct (decide (k = 0)%nat) as [-> |Hk0].
  - unfold first in Hx. assert (x = y) as -> by congruence. by destruct (compare_total y y).
  - pose proof (parentOf_lt k ltac:(lia)) as Hp.
    destruct (is_Some_below (buffer h) (parentOf k) k ltac:(lia) ltac:(by eexists)) as [z Hz].
    apply (compare_trans _ z); [by apply (IH (parentOf k))|]. apply (Ho k ltac:(lia)); done.
Qed.

Lemma deleted_items h h' x :
  NoDup (buffer h) -> buffer h ≡ₚ x :: buffer h' -> items h' = items h ∖ {[x]}.
Proof.
  intros Hn Hp. assert (NoDup (x :: buffer h')) as [Hx _]%NoDup_cons by (by rewrite <- Hp).
  unfold items. rewrite Hp. cbn. set_solver.
Qed.

Lemma add_spec h xs :
  invariant h -> invariant (add h xs) /\ items (add h xs) = items h ∪ list_to_set (normalize <$> xs).
Proof.
  unfold add. revert h. induction xs as [|x xs IH]; intros h Hinv; cbn; [set_solver|].
  destruct (add1_spec h x Hinv) as [H1 H2]. destruct (IH _ H1) as [H3 H4]. split; [done|].
  rewrite H4. unfold items in *. case_decide.
  - rewrite H2. set_solver.
  - destruct H2 as [Hp _]. rewrite Hp. cbn. set_solver.
Qed.

Lemma step_refines h op :
  invariant h ->
  invariant (step h op).1 /\ spec_step (items h) op (items (step h op).1) (step h op).2.
Proof.
  intros Hinv. pose proof Hinv as [[Hn Hix] _]. destruct op as [xs|x| |]; cbn [step].
  - destruct (add_spec h xs Hinv) as [H1 H2]. split; [done|]. cbn [fst snd]. rewrite H2. constructor.
  - unfold delete. destruct (positions h !! normalize x) as [k|] eqn:Ep; cbn [fst snd].
    + apply Hix in Ep as Hk. destruct (deleteAt_spec h k _ Hinv Hk) as (H1 & H2 & _). split; [done|].
      rewrite (deleted_items h (deleteAt h k) (normalize x)) by done.
      rewrite <- (bool_decide_eq_true_2 (normalize x ∈ items h)); [constructor|].
      apply elem_of_list_to_set. by eapply list_elem_of_lookup_2.
    + assert (Hni : normalize x ∉ items h).
      { unfold items. rewrite elem_of_list_to_set. intros [k Hk]%list_elem_of_lookup. apply Hix in Hk. congruence. }
      split; [done|]. rewrite <- (bool_decide_eq_false_2 _ Hni).
      replace (items h) with (items h ∖ {[normalize x]}) at 2 by set_solver. constructor.
  - unfold shift. destruct (Nat.eqb_spec (length (buffer h)) 0) as [L|L]; cbn [fst snd].
    + split; [done|]. constructor. unfold items. by destruct (buffer h).
    + destruct (lookup_lt_is_Some_2 (buffer h) 0 ltac:(lia)) as [x Hx].
      destruct (deleteAt_spec h 0 x Hinv Hx) as (H1 & H2 & _). split; [done|].
      rewrite (deleted_items h (deleteAt h 0) x) by done. unfold first. rewrite Hx. constructor.
      * apply elem_of_list_to_set. by eapply list_elem_of_lookup_2.
      * intros y Hy%elem_of_list_to_set. by apply (root_min h).
  - cbn [fst snd]. split; [apply invariant_new|]. replace (items (clear h)) with (∅ : gset T) by done. constructor.
Qed.

Lemma run_refines h ops :
  invariant h ->
  invariant (run h ops).1 /\ spec_run (items h) ops (items (run h ops).1) (run h ops).2.
Proof.
  revert h. induction ops as [|op ops IH]; intros h Hinv; cbn [run]; [split; [done|constructor]|].
  destruct (step_refines h op Hinv) as [H1 H2]. destruct (step h op) as [h1 r]. cbn [fst snd] in *.
  destruct (IH h1 H1) as [H3 H4]. destruct (run h1 ops) as [h2 rs]. cbn [fst snd] in *.
  split; [done|]. by apply (spec_run_cons _ _ (items h1)).
Qed.

(** C26: the heap implements a priority set.  Every sequence of [add],
    [delete], [shift] and [clear] on a new heap returns the results of the
    abstract set: [delete] tells whether the (normalized) item was present,
    [shift] returns and removes an item no other item ranks before, or
    nothing from an empty heap; adding a present item changes nothing.
    Throughout, the position index names the exact place of every item, items
    are held once, and every parent ranks before its children. *)
Theorem heap_refines_priority_set ops :
  invariant (run newHeap ops).1 /\
  spec_run ∅ ops (items (run newHeap ops).1) (run newHeap ops).2 /\
  size (run newHeap ops).1 = base.size (items (run newHeap ops).1).
Proof.
  destruct (run_refines newHeap ops invariant_new) as [H1 H2]. split_and!; [done|exact H2|].
  unfold size, items. rewrite size_list_to_set; [done|]. apply H1.
Qed.

(** [shift] until the heap is empty. *)
Fixpoint drain (n : nat) (h : HeapState) : list T :=
  match n with
  | O => []
  | S n => let '(h, r) := shift h in match r with Some x => x :: drain n h | None => [] end
  end.

(** taking everything out of a heap yields its items in order of rank. *)
Theorem heap_drains_sorted h :
  invariant h ->
  drain (size h) h ≡ₚ buffer h /\ StronglySorted (fun a b => compare a b <= 0) (drain (size h) h).
Proof.
  remember (size h) as n eqn:En. revert h En. induction n as [|n IH]; intros h En Hinv.
  - unfold size in En. destruct (buffer h) eqn:Eb; [|done]. cbn. split; [done|constructor].
  - unfold size in En. cbn [drain]. unfold shift. rewrite <- En. cbn [Nat.eqb].
    destruct (lookup_lt_is_Some_2 (buffer h) 0 ltac:(lia)) as [x Hx].
    destruct (deleteAt_spec h 0 x Hinv Hx) as (H1 & H2 & _). unfold first. rewrite Hx.
    destruct (IH (deleteAt h 0)) as [I1 I2]; [unfold size; apply Permutation_length in H2; cbn in H2; lia|done|].
    split; [by rewrite I1, H2|]. constructor; [done|]. rewrite I1.
    apply Forall_forall. intros y Hy. apply (root_min h); [done|done|]. rewrite H2. by right.
Qed.

(** whenever [add], [delete] or [shift] changes the head of the heap,
    listeners of [firstChanged] receive the new head, and those of [added] or
    [deleted] the item. *)
Theorem heap_announces_changes h item :
  invariant h ->
  (normalize item ∉ buffer h -> announces h (add1 h item) (Added (normalize item))) /\
  (forall h', delete h item = (h', true) -> announces h h' (Deleted (normalize item))) /\
  (forall h' x, shift h = (h', Some x) -> announces h h' (Deleted x)).
Proof.
  intros Hinv. split_and!.
  - intros Hni. destruct (add1_spec h item Hinv) as [_ Ha]. rewrite decide_False in Ha by done. apply Ha.
  - unfold delete. intros h'. destruct (positions h !! normalize item) as [k|] eqn:Ep; [|done].
    intros [= <-]. apply Hinv in Ep. by apply deleteAt_spec.
  - unfold shift. intros h' x. destruct (length (buffer h) =? 0)%nat; [done|].
    intros [= <- Hx]. by apply deleteAt_spec.
Qed.

Lemma validate_from_ok buf i n k :
  validate_from buf i n = Ok tt -> (i <= k < i + n)%nat -> validate_at buf k = Ok tt.
Proof.
  revert i. induction n as [|n IH]; intros i Hv Hk; [lia|]. cbn in Hv.
  destruct (validate_at buf i) as [[]|] eqn:E; [|done]. cbn in Hv.
  destruct (decide (k = i)) as [-> |]; [done|]. apply (IH (S i)); [done|lia].
Qed.

(** a heap [validate] accepts is in heap order. *)
Theorem validate_sound h : validate h = Ok tt -> heap_ordered (buffer h).
Proof.
  intros Hv j Hj. destruct (decide (j < length (buffer h))%nat) as [Hl|Hl];
    [|apply ranks_none_r, lookup_ge_None; lia].
  pose proof (parentOf_lt j Hj). apply (validate_from_ok _ _ _ (parentOf j)) in Hv; [|lia].
  apply greater_false. unfold validate_at, throw_if in Hv.
  destruct (parentOf_children _ j Hj eq_refl) as [E|E].
  - rewrite <- E in Hv. destruct (Nat.ltb_spec j (length (buffer h))); [|lia].
    by destruct (greater (buffer h) (parentOf j) j).
  - assert (leftChildOf (parentOf j) < length (buffer h))%nat
      by (unfold leftChildOf, rightChildOf in *; lia).
    rewrite <- E in Hv. destruct (Nat.ltb_spec (leftChildOf (parentOf j)) (length (buffer h))); [|lia].
    destruct (greater (buffer h) (parentOf j) (leftChildOf (parentOf j))); [done|]. cbn [rbind] in Hv.
    destruct (Nat.ltb_spec j (length (buffer h))); [|lia].
    by destruct (greater (buffer h) (parentOf j) j).
Qed.

End Ordered.

End Heap.

(** ** Concrete heaps *)

Lemma heap_refines_priority_set_witness :
  (run Z.sub (fun x => x) newHeap [OpAdd [5; 3; 8; 3]; OpDelete 5; OpShift; OpShift; OpShift]).2 =
    [RUnit; RBool true; RItem (Some 3); RItem (Some 8); RItem None] /\
  invariant Z.sub (run Z.sub (fun x => x) newHeap [OpAdd [5; 3; 8; 3]; OpDelete 5; OpShift]).1.
Proof.
  split; [vm_compute; reflexivity|].
  apply (heap_refines_priority_set Z.sub (fun x => x) [OpAdd [5; 3; 8; 3]; OpDelete 5; OpShift]).
Defined.

Lemma heap_drains_sorted_witness :
  let h := add Z.sub (fun x => x) newHeap [9; 2; 7; 4] in
  StronglySorted (fun a b => a - b <= 0) (drain Z.sub (size h) h) /\ drain Z.sub (size h) h = [2; 4; 7; 9].
Proof.
  cbn zeta. split; [|vm_compute; reflexivity].
  apply (heap_drains_sorted Z.sub (fun x => x) (add Z.sub (fun x => x) newHeap [9; 2; 7; 4])).
  apply add_spec; [apply _|apply invariant_new].
Defined.

Lemma heap_announces_changes_witness :
  announces newHeap (add1 Z.sub (fun x => x) newHeap 4) (Added 4).
Proof.
  apply (heap_announces_changes Z.sub (fun x => x) newHeap 4 (invariant_new Z.sub)).
  apply not_elem_of_nil.
Defined.

Lemma validate_sound_witness : heap_ordered Z.sub (buffer (add Z.sub (fun x => x) newHeap [1; 2; 3; 4])).
Proof. apply (validate_sound Z.sub). vm_compute; reflexivity. Defined.

(** [validate] also demands that a left child not rank after its right
    sibling, which heap order does not: it refuses a correct heap. *)
Theorem validate_refuses_a_heap :
  exists xs, let h := add Z.sub (fun x => x) newHeap xs in
    invariant Z.sub h /\ validate Z.sub h = Throw InternalError.
Proof.
  exists [1; 3; 2]. cbn zeta. split; [apply add_spec; [apply _|apply invariant_new]|].
  vm_compute; reflexivity.
Qed.
