(* ===== verification/AccessControl.v ===== *)
(** * Access control

    Models the access decision of a node, from the access control list to the
    enforcement on a data model element:

    - src/packages/types/src/datatype/CaseAuthenticatedTag.ts and NodeId.ts:
      CASE authenticated tags inside node identifiers (Module [Cat]);
    - src/packages/protocol/src/interaction/subjectMatches.ts and
      FabricAccessControl.ts: the privileges an access control list grants
      (Module [Acl]);
    - src/packages/protocol/src/action/server/AccessControl.ts: the enforcers
      for data and for commands (Module [Enforcer]).

    Identifiers are integers, strings are lists of UTF-16 code units.  The
    extension hook of the list is a parameter. *)

From S2P Require Import Prelude Base38.

(** ** Numbers in hexadecimal *)

Definition hex_char (d : Z) : Z := if d <? 10 then 48 + d else 87 + d.
Definition hex_value (c : Z) : Z := if c <? 58 then c - 48 else c - 87.

Fixpoint hex_digits (fuel : nat) (n : Z) : list Z :=
  match fuel with
  | O => []
  | S fuel => (if n <? 16 then [] else hex_digits fuel (n / 16)) ++ [hex_char (n mod 16)]
  end.

(** [n.toString(16)]; a positive number below [2^k] has at most [k] digits. *)
Definition toString16 (n : Z) : list Z :=
  if n <? 0 then 45 :: hex_digits (S (Z.to_nat (Z.log2 (- n)))) (- n)
  else hex_digits (S (Z.to_nat (Z.log2 n))) n.

(** [parseInt(s, 16)] of a string of lower-case hexadecimal digits. *)
Definition parseInt16 (s : list Z) : Z := fold_left (fun acc c => acc * 16 + hex_value c) s 0.

(** ** CASE authenticated tags *)

Module Cat.

(** [CaseAuthenticatedTag(id)] and [CaseAuthenticatedTag(tag, version)]. *)
Definition CaseAuthenticatedTag (idOrTag : Z) (version : option Z) : result Z :=
  let idOrTag := match version with Some v => js_or (js_shl idOrTag 16) v | None => idOrTag end in
  if js_and idOrTag 0xffff =? 0 then Throw ValidationError else Ok idOrTag.

Definition AdministratorIdentifier (version : Z) : result Z :=
  if (version <=? 0) || (0xffff <? version) then Throw ValidationError
  else Ok (js_or (js_shl 0xfffd 16) version).

Definition AnchorIdentifier (version : Z) : result Z :=
  if (version <=? 0) || (0xffff <? version) then Throw ValidationError
  else Ok (js_or (js_shl 0xfffe 16) version).

Definition getIdentifyValue (tag : Z) : Z := js_ushr tag 16.
Definition getVersion (tag : Z) : Z := js_and tag 0xffff.

Definition increaseVersion (tag : Z) : result Z :=
  if getVersion tag =? 0xffff then Throw ValidationError else CaseAuthenticatedTag (tag + 1) None.

Fixpoint dedup (l : list Z) : list Z :=
  match l with
  | [] => []
  | x :: l => if existsb (Z.eqb x) l then dedup l else x :: dedup l
  end.

Definition validateNocTagList (tags : list Z) : result unit :=
  let* _ := throw_if (3 <? Z.of_nat (length tags)) ValidationError in
  throw_if (negb (length (dedup (map getIdentifyValue tags)) =? length tags)%nat) ValidationError.

(** [NodeId.fromCaseAuthenticatedTag]: [BigInt("0xFFFFFFFD" + hex.fixed(id, 8))]. *)
Definition fromCaseAuthenticatedTag (id : Z) : result Z :=
  if (id <? 0) || (0xffffffff <? id) then Throw UnexpectedDataError
  else Ok (0xFFFFFFFD * 2 ^ 32 + id).

Definition isCaseAuthenticatedTag (nodeId : Z) : bool :=
  let nodeIdHex := toString16 nodeId in
  bool_decide (take 8 nodeIdHex = lit "fffffffd") && (length nodeIdHex =? 16)%nat.

Definition extractAsCaseAuthenticatedTag (nodeId : Z) : result Z :=
  if negb (isCaseAuthenticatedTag nodeId) then Throw UnexpectedDataError
  else CaseAuthenticatedTag (parseInt16 (drop 8 (toString16 nodeId))) None.

Definition UNSPECIFIED_NODE_ID : Z := 0.

End Cat.

(** ** The access control list *)

Module Acl.
Import Cat.

Inductive AccessLevel := View | ProxyView | Operate | Manage | Administer.
#[global] Instance AccessLevel_eq_dec : EqDecision AccessLevel.
Proof. solve_decision. Defined.

(** [AccessControlEntryAuthMode], and [AuthModeNone.None]. *)
Inductive AuthMode := NoAuth | Pase | Case | Group.
#[global] Instance AuthMode_eq_dec : EqDecision AuthMode.
Proof. solve_decision. Defined.

(** An entry's target; [None] is [null]. *)
Record Target := mkTarget {
  t_cluster : option Z;
  t_endpoint : option Z;
  t_deviceType : option Z;
}.

Record AclEntry := mkEntry {
  e_fabricIndex : Z;
  privilege : AccessLevel;
  e_authMode : AuthMode;
  e_subjects : option (list Z);
  e_targets : option (list Target);
}.

Record AclEndpointContext := mkEndpoint { ep_id : Z; deviceTypes : list Z }.

Record IncomingSubjectDescriptor := mkIsd {
  isCommissioning : bool;
  authMode : AuthMode;
  subjects : list Z;
  fabricIndex : Z;
}.

(** [Subject]: a node with its tags, or a group. *)
Inductive Subject :=
| SNode (id : Z) (catSubjects : option (list Z))
| SGroup (id : Z) (hasValidMapping : bool).

Definition NO_FABRIC : Z := 0.

Definition ImplicitDefaultPaseAclEntry : AclEntry :=
  mkEntry NO_FABRIC Administer Pase (Some []) (Some []).

(** The extension hook. *)
Definition ExtensionCheck : Type :=
  list AclEntry -> AclEntry -> IncomingSubjectDescriptor -> AclEndpointContext -> Z -> bool.

Record FabricAccessControl := mkFac {
  fac_fabricIndex : Z;
  aclList : list AclEntry;
  auxiliaryFeatureEnabled : bool;
  extensionEntryAccessCheck : ExtensionCheck;
}.

Definition newAccessControl (fabric : option Z) : FabricAccessControl :=
  match fabric with
  | None => mkFac NO_FABRIC [ImplicitDefaultPaseAclEntry] false (fun _ _ _ _ _ => true)
  | Some index => mkFac index [] false (fun _ _ _ _ _ => true)
  end.

Definition set_aclList (list : list AclEntry) (fac : FabricAccessControl) : result FabricAccessControl :=
  if existsb (fun e => negb (e_fabricIndex e =? fac_fabricIndex fac)) list then Throw InternalError
  else Ok (mkFac (fac_fabricIndex fac) list (auxiliaryFeatureEnabled fac) (extensionEntryAccessCheck fac)).

Definition set_auxiliaryFeatureEnabled (enabled : bool) (fac : FabricAccessControl) : FabricAccessControl :=
  mkFac (fac_fabricIndex fac) (aclList fac) enabled (extensionEntryAccessCheck fac).

Definition set_extensionEntryAccessCheck (func : ExtensionCheck) (fac : FabricAccessControl)
  : FabricAccessControl :=
  mkFac (fac_fabricIndex fac) (aclList fac) (auxiliaryFeatureEnabled fac) func.

Definition subjectMatches (target candidate : Z) : result bool :=
  if target =? candidate then Ok true
  else if negb (isCaseAuthenticatedTag target) || negb (isCaseAuthenticatedTag candidate) then Ok false
  else
    let* targetCat := extractAsCaseAuthenticatedTag target in
    let* candidateCat := extractAsCaseAuthenticatedTag candidate in
    Ok ((getIdentifyValue targetCat =? getIdentifyValue candidateCat) &&
        (getVersion targetCat <=? getVersion candidateCat)).

(** A JavaScript [Set] as the list of its members in insertion order. *)
Definition has (s : list AccessLevel) (l : AccessLevel) : bool := existsb (fun x => bool_decide (x = l)) s.
Definition set_add (s : list AccessLevel) (l : AccessLevel) : list AccessLevel :=
  if has s l then s else s ++ [l].

Definition addGrantedPrivilege (granted : list AccessLevel) (privilege : AccessLevel) : list AccessLevel :=
  let granted := set_add granted privilege in
  match privilege with
  | ProxyView => set_add granted View
  | Operate => set_add granted View
  | Manage => set_add (set_add granted Operate) View
  | Administer => set_add (set_add (set_add granted Manage) Operate) View
  | View => granted
  end.

(** [session.fabric] and [session.subject]. *)
Definition getIsdFromMessage (fabric : option Z) (subject : option Subject)
  : result IncomingSubjectDescriptor :=
  let no_fabric := match fabric with None => true | Some f => f =? NO_FABRIC end in
  let fabricIndex := default NO_FABRIC fabric in
  match subject with
  | None => Throw MatterFlowError
  | Some (SGroup id hasValidMapping) =>
      let* _ := throw_if no_fabric MatterFlowError in
      if hasValidMapping then Ok (mkIsd false Group [id] fabricIndex)
      else Ok (mkIsd false NoAuth [] NO_FABRIC)
  | Some (SNode id catSubjects) =>
      if id =? UNSPECIFIED_NODE_ID then
        Ok (mkIsd true Pase [UNSPECIFIED_NODE_ID] (if no_fabric then NO_FABRIC else fabricIndex))
      else
        let* _ := throw_if no_fabric MatterFlowError in
        Ok (mkIsd false Case (id :: default [] catSubjects) fabricIndex)
  end.

(** [subjectLoop]: some entry subject matches some incoming subject. *)
Fixpoint any_match (aclSubject : Z) (isdSubjects : list Z) : result bool :=
  match isdSubjects with
  | [] => Ok false
  | s :: rest =>
      let* m := subjectMatches aclSubject s in
      if m then Ok true else any_match aclSubject rest
  end.
Fixpoint subject_loop (aclSubjects isdSubjects : list Z) : result bool :=
  match aclSubjects with
  | [] => Ok false
  | s :: rest =>
      let* m := any_match s isdSubjects in
      if m then Ok true else subject_loop rest isdSubjects
  end.

(** The loop over the targets of an entry. *)
Definition is_null {A} (o : option A) : bool := match o with None => true | Some _ => false end.
Definition null_or (o : option Z) (p : Z -> bool) : bool := match o with None => true | Some x => p x end.

Fixpoint target_loop (targets : list Target) (endpoint : AclEndpointContext) (clusterId : Z) : result bool :=
  match targets with
  | [] => Ok false
  | t :: rest =>
      let* _ := throw_if (is_null (t_cluster t) && is_null (t_endpoint t) && is_null (t_deviceType t))
                  MatterFlowError in
      let* _ := throw_if (negb (is_null (t_endpoint t)) && negb (is_null (t_deviceType t)))
                  MatterFlowError in
      if negb (null_or (t_cluster t) (fun c => c =? clusterId)) then target_loop rest endpoint clusterId
      else if negb (null_or (t_endpoint t) (fun e => e =? ep_id endpoint)) then target_loop rest endpoint clusterId
      else if negb (null_or (t_deviceType t) (fun d => existsb (Z.eqb d) (deviceTypes endpoint)))
      then target_loop rest endpoint clusterId
      else Ok true
  end.

Definition is_empty {A} (o : option (list A)) : bool :=
  match o with None | Some [] => true | Some _ => false end.

Section Granting.
Variable fac : FabricAccessControl.

(** The checks one entry goes through: [true] when all passed, [false] for
    [continue]. *)
Definition entry_passes (isd : IncomingSubjectDescriptor) (endpoint : AclEndpointContext) (clusterId : Z)
  (e : AclEntry) : result bool :=
  if (e_fabricIndex e =? NO_FABRIC) || negb (e_fabricIndex e =? fabricIndex isd) then Ok false
  else if negb (bool_decide (e_authMode e = authMode isd)) then Ok false
  else
    let* subject_ok :=
      if is_empty (e_subjects e) then
        let* _ := throw_if (negb (bool_decide (e_authMode e = Case)) && negb (bool_decide (e_authMode e = Group)))
                    MatterFlowError in
        Ok true
      else subject_loop (default [] (e_subjects e)) (subjects isd) in
    if negb subject_ok then Ok false
    else
      let* target_ok :=
        if is_empty (e_targets e) then
          Ok (negb (bool_decide (e_authMode e = Group) && auxiliaryFeatureEnabled fac && (ep_id endpoint =? 0)))
        else target_loop (default [] (e_targets e)) endpoint clusterId in
      if negb target_ok then Ok false
      else Ok (extensionEntryAccessCheck fac (aclList fac) e isd endpoint clusterId).

Fixpoint acl_loop (isd : IncomingSubjectDescriptor) (endpoint : AclEndpointContext) (clusterId : Z)
  (entries : list AclEntry) (granted : list AccessLevel) : result (list AccessLevel) :=
  match entries with
  | [] => Ok granted
  | e :: rest =>
      if has granted Administer then Ok granted
      else
        let* passes := entry_passes isd endpoint clusterId e in
        acl_loop isd endpoint clusterId rest
          (if passes then addGrantedPrivilege granted (privilege e) else granted)
  end.

Definition getGrantedPrivileges (fabric : option Z) (subject : option Subject)
  (endpoint : AclEndpointContext) (clusterId : Z) : result (list AccessLevel) :=
  let* isd := getIsdFromMessage fabric subject in
  let granted := if bool_decide (authMode isd = Pase) && isCommissioning isd
                 then addGrantedPrivilege [] Administer else [] in
  let* granted := acl_loop isd endpoint clusterId (aclList fac) granted in
  let* _ := throw_if (bool_decide (authMode isd = Group) && has granted Administer) MatterFlowError in
  Ok granted.

Definition accessLevelsFor (fabric : option Z) (subject : option Subject) (cluster : option Z)
  (endpoint : option AclEndpointContext) : result (list AccessLevel) :=
  match cluster with
  | None => Ok [View]
  | Some clusterId =>
      match endpoint with
      | None => Ok [View]
      | Some endpoint => getGrantedPrivileges fabric subject endpoint clusterId
      end
  end.

End Granting.

End Acl.

(** ** Enforcement on schema elements *)

Module Enforcer.
Import Acl.

Module Status.
Definition UnsupportedAccess : Z := 126.
Definition UnsupportedWrite : Z := 136.
Definition UnsupportedRead : Z := 143.
Definition NeedsTimedInteraction : Z := 198.
Definition TimedRequestMismatch : Z := 201.
End Status.

Inductive Authority := Granted | Unauthorized | Restricted.
#[global] Instance Authority_eq_dec : EqDecision Authority.
Proof. solve_decision. Defined.

Record Location := mkLocation {
  l_endpoint : option Z;
  l_cluster : option Z;
  owningFabric : option Z;
}.

(** [RemoteActorSession]. *)
Record Remote := mkRemote {
  authorityAt : AccessLevel -> Location -> result Authority;
  s_fabric : Z;
  fabricFiltered : bool;
  timed : bool;
  command : bool;
}.

(** A session; [None] is an undefined one or one without a subject, the local
    actor. *)
Abbreviation Session := (option Remote).

Record Limits := mkLimits {
  readable : bool;
  readLevel : AccessLevel;
  writable : bool;
  writeLevel : AccessLevel;
  fabricScoped : bool;
  fabricSensitive : bool;
  l_timed : bool;
  largeMessage : bool;
}.

Definition Assertion : Type := Session -> Location -> result unit.
Definition Verification : Type := Session -> Location -> result bool.

Record AccessControl := mkAccessControl {
  limits : Limits;
  authorizeRead : Assertion;
  mayRead : Verification;
  authorizeWrite : Assertion;
  mayWrite : Verification;
  authorizeInvoke : Assertion;
  mayInvoke : Verification;
}.

(** [session.authorityAt(level, location) === Authority.Granted]. *)
Definition granted (s : Remote) (level : AccessLevel) (location : Location) : result bool :=
  let* a := authorityAt s level location in Ok (bool_decide (a = Granted)).

(** The local actor and a command context pass. *)
Definition exempt (session : Session) : bool :=
  match session with None => true | Some s => command s end.

(** [location?.owningFabric !== undefined && location.owningFabric !== session.fabric]. *)
Definition fabric_mismatch (s : Remote) (location : Location) : bool :=
  match owningFabric location with Some f => negb (f =? s_fabric s) | None => false end.

(** The closures of [dataEnforcerFor], innermost first. *)

Definition base_may (level : AccessLevel) : Verification := fun session location =>
  match session with
  | Some s => if command s then Ok true else granted s level location
  | None => Ok true
  end.

Definition base_authorize (level : AccessLevel) (denied : MatterError) : Assertion := fun session location =>
  match session with
  | Some s =>
      if command s then Ok tt
      else let* g := granted s level location in if g then Ok tt else Throw denied
  | None => Ok tt
  end.

Definition timed_authorizeWrite (wrapped : Assertion) : Assertion := fun session location =>
  match session with
  | Some s => if negb (timed s) then Throw (WriteError Status.NeedsTimedInteraction) else wrapped session location
  | None => wrapped session location
  end.

Definition timed_mayWrite (wrapped : Verification) : Verification := fun session location =>
  match session with
  | Some s => if negb (timed s) then Ok false else wrapped session location
  | None => wrapped session location
  end.

Definition sensitive_authorizeRead (wrapped : Assertion) : Assertion := fun session location =>
  match session with
  | Some s =>
      if command s then Ok tt
      else
        let* _ := if fabricFiltered s then
                    let* _ := throw_if (s_fabric s =? 0) (ReadError Status.UnsupportedAccess) in
                    throw_if (fabric_mismatch s location) (ReadError Status.UnsupportedAccess)
                  else Ok tt in
        wrapped session location
  | None => Ok tt
  end.

Definition sensitive_authorizeWrite (wrapped : Assertion) : Assertion := fun session location =>
  match session with
  | Some s =>
      if command s then Ok tt
      else
        let* _ := throw_if (s_fabric s =? 0) (WriteError Status.UnsupportedAccess) in
        let* _ := throw_if (fabric_mismatch s location) (WriteError Status.UnsupportedWrite) in
        wrapped session location
  | None => Ok tt
  end.

Definition sensitive_may (wrapped : Verification) : Verification := fun session location =>
  match session with
  | Some s =>
      if command s then Ok true
      else if s_fabric s =? 0 then Ok false
      else if fabric_mismatch s location then Ok false
      else wrapped session location
  | None => Ok true
  end.

Definition exempt_only_authorize (denied : MatterError) : Assertion := fun session _ =>
  if exempt session then Ok tt else Throw denied.

Definition exempt_only_may : Verification := fun session _ => Ok (exempt session).

Definition dataEnforcerFor (limits : Limits) : AccessControl :=
  let mayRead := base_may (readLevel limits) in
  let mayWrite := base_may (writeLevel limits) in
  let authorizeRead := base_authorize (readLevel limits) (ReadError Status.UnsupportedAccess) in
  let authorizeWrite := base_authorize (writeLevel limits) (WriteError Status.UnsupportedAccess) in
  let '(authorizeWrite, mayWrite) :=
    if l_timed limits then (timed_authorizeWrite authorizeWrite, timed_mayWrite mayWrite)
    else (authorizeWrite, mayWrite) in
  let '(authorizeRead, mayRead, authorizeWrite, mayWrite) :=
    if fabricSensitive limits then
      (sensitive_authorizeRead authorizeRead, sensitive_may mayRead,
       sensitive_authorizeWrite authorizeWrite, sensitive_may mayWrite)
    else (authorizeRead, mayRead, authorizeWrite, mayWrite) in
  let '(authorizeRead, mayRead) :=
    if negb (readable limits) then (exempt_only_authorize (ReadError Status.UnsupportedRead), exempt_only_may)
    else (authorizeRead, mayRead) in
  let '(authorizeWrite, mayWrite) :=
    if negb (writable limits) then (exempt_only_authorize (WriteError Status.UnsupportedWrite), exempt_only_may)
    else (authorizeWrite, mayWrite) in
  mkAccessControl limits authorizeRead mayRead authorizeWrite mayWrite
    (fun _ _ => Throw SchemaImplementationError) (fun _ _ => Ok false).

(** The command's [effectiveAccess.timed] and [effectiveAccess.fabric]. *)
Definition commandEnforcerFor (limits : Limits) (schema_timed schema_fabric : bool) : AccessControl :=
  let authorizeInvoke : Assertion := fun session location =>
    match session with
    | None => Ok tt
    | Some s =>
        let* _ := throw_if (negb (command s)) (InvokeError Status.UnsupportedAccess) in
        let* _ := throw_if (schema_timed && negb (timed s)) (InvokeError Status.TimedRequestMismatch) in
        let* _ := throw_if (schema_fabric && (s_fabric s =? 0)) (WriteError Status.UnsupportedAccess) in
        let* g := granted s (writeLevel limits) location in
        if g then Ok tt else Throw (InvokeError Status.UnsupportedAccess)
    end in
  let mayInvoke : Verification := fun session location =>
    match session with
    | None => Ok true
    | Some s =>
        if negb (command s) then Ok false
        else if schema_timed && negb (timed s) then Ok false
        else if schema_fabric && (s_fabric s =? 0) then Ok false
        else granted s (writeLevel limits) location
    end in
  mkAccessControl limits
    (fun _ _ => Throw SchemaImplementationError) (fun _ _ => Ok false)
    (fun _ _ => Throw SchemaImplementationError) (fun _ _ => Ok false)
    authorizeInvoke mayInvoke.

(** [limitsFor] on what it reads of a schema: its effective access, and
    whether it or an owning value is fixed. *)
Inductive Fabric := FabricNone | Scoped | Sensitive.
#[global] Instance Fabric_eq_dec : EqDecision Fabric.
Proof. solve_decision. Defined.

Record Access := mkAccess {
  a_readable : bool;
  a_writable : bool;
  a_fabric : Fabric;
  a_timed : bool;
  readPriv : option AccessLevel;
  writePriv : option AccessLevel;
}.

Definition limitsFor (access : Access) (fixed : list bool) (large : bool) : Limits :=
  mkLimits (a_readable access)
    (default View (readPriv access))
    (a_writable access && negb (existsb (fun b => b) fixed))
    (default Operate (writePriv access))
    (bool_decide (a_fabric access = Scoped) || bool_decide (a_fabric access = Sensitive))
    (bool_decide (a_fabric access = Sensitive))
    (a_timed access) large.

(** The endpoint an access is checked for: one the node has, or a bare
    structure for one it has not. *)
Definition aclEndpointContextFor (nodeProtocol : Z -> option AclEndpointContext) (location : Location)
  : result AclEndpointContext :=
  match l_endpoint location with
  | None => Throw InternalError
  | Some number =>
      match nodeProtocol number with
      | Some endpoint => Ok endpoint
      | None => Ok (mkEndpoint number [])
      end
  end.

(** [authorityAt] of a remote actor: the levels the access control list
    grants it at the location. *)
Definition aclAuthority (fac : FabricAccessControl) (fabric : Z) (subject : Subject)
  (nodeProtocol : Z -> option AclEndpointContext) (level : AccessLevel) (location : Location)
  : result Authority :=
  let* endpoint := aclEndpointContextFor nodeProtocol location in
  let* levels := accessLevelsFor fac (Some fabric) (Some subject) (l_cluster location) (Some endpoint) in
  Ok (if has levels level then Granted else Unauthorized).

End Enforcer.

(** ** Hexadecimal digits *)

(** The low [k] hexadecimal digits of a number, most significant first. *)
Fixpoint hexw (k : nat) (n : Z) : list Z :=
  match k with
  | O => []
  | S k => hexw k (n / 16) ++ [hex_char (n mod 16)]
  end.

Lemma hexw_length k n : length (hexw k n) = k.
Proof. revert n. induction k as [|k IH]; intros n; cbn; [done|]. rewrite length_app, IH. cbn. lia. Qed.

Lemma hex_value_char d : 0 <= d < 16 -> hex_value (hex_char d) = d.
Proof.
  intros Hd. unfold hex_value, hex_char.
  destruct (Z.ltb_spec d 10), (Z.ltb_spec (48 + d) 58), (Z.ltb_spec (87 + d) 58); lia.
Qed.

Lemma parseInt16_snoc s c : parseInt16 (s ++ [c]) = parseInt16 s * 16 + hex_value c.
Proof. unfold parseInt16. by rewrite fold_left_app. Qed.

Lemma parse_hexw k n : 0 <= n -> parseInt16 (hexw k n) = n mod 16 ^ Z.of_nat k.
Proof.
  revert n. induction k as [|k IH]; intros n Hn.
  { cbn [hexw]. rewrite Z.pow_0_r, Z.mod_1_r. done. }
  cbn [hexw]. rewrite parseInt16_snoc, IH by (apply Z.div_pos; lia).
  rewrite hex_value_char by (apply Z.mod_pos_bound; lia).
  rewrite Nat2Z.inj_succ, Z.pow_succ_r, Z.rem_mul_r by lia. lia.
Qed.

Lemma hexw_split j k n : 0 <= n -> hexw (j + k) n = hexw j (n / 16 ^ Z.of_nat k) ++ hexw k n.
Proof.
  revert n. induction k as [|k IH]; intros n Hn.
  { rewrite Nat.add_0_r, Z.pow_0_r, Z.div_1_r. cbn. by rewrite app_nil_r. }
  rewrite Nat.add_succ_r. cbn [hexw]. rewrite IH by (apply Z.div_pos; lia).
  rewrite Z.div_div by lia. rewrite <- app_assoc. repeat f_equal.
  rewrite Nat2Z.inj_succ, Z.pow_succ_r by lia. lia.
Qed.

(** A number with exactly [S k] digits prints as them. *)
Lemma hex_digits_exact k fuel n :
  16 ^ Z.of_nat k <= n < 16 ^ Z.of_nat (S k) -> (k < fuel)%nat -> hex_digits fuel n = hexw (S k) n.
Proof.
  revert fuel n. induction k as [|k IH]; intros fuel n Hn Hf; (destruct fuel as [|fuel]; [lia|]).
  - cbn in Hn. cbn. destruct (Z.ltb_spec n 16); [done|lia].
  - cbn [hex_digits]. destruct (Z.ltb_spec n 16) as [Hl|Hg].
    { rewrite Nat2Z.inj_succ, Z.pow_succ_r in Hn by lia. pose proof (Z.pow_pos_nonneg 16 (Z.of_nat k)). lia. }
    rewrite IH; [done| |lia]. rewrite !Nat2Z.inj_succ, !Z.pow_succ_r in * by lia.
    split; [apply Z.div_le_lower_bound; lia|apply Z.div_lt_upper_bound; lia].
Qed.

Lemma hex_digits_short k fuel n :
  0 <= n < 16 ^ Z.of_nat k -> (0 < k)%nat -> (length (hex_digits fuel n) <= k)%nat.
Proof.
  revert fuel n. induction k as [|k IH]; intros fuel n Hn Hk; [lia|].
  destruct fuel as [|fuel]; [cbn; lia|]. cbn [hex_digits]. rewrite length_app. cbn [length].
  destruct (Z.ltb_spec n 16); [cbn; lia|].
  destruct k as [|k]; [cbn in Hn; lia|].
  enough (length (hex_digits fuel (n / 16)) <= S k)%nat by lia.
  apply IH; [|lia]. rewrite Nat2Z.inj_succ, Z.pow_succ_r in Hn by lia.
  split; [apply Z.div_pos; lia|apply Z.div_lt_upper_bound; lia].
Qed.

(** ** Tags inside node identifiers *)

(** The tag of a node identifier in the CAT range: its identifier and its
    version. *)
Definition cat_of (n : Z) : option (Z * Z) :=
  if n / 2 ^ 32 =? 0xfffffffd then Some (n / 2 ^ 16 mod 2 ^ 16, n mod 2 ^ 16) else None.

Definition is_node_id (n : Z) : Prop := 0 <= n < 2 ^ 64.

Lemma toString16_wide n : 2 ^ 60 <= n < 2 ^ 64 -> toString16 n = hexw 8 (n / 2 ^ 32) ++ hexw 8 n.
Proof.
  intros Hn. unfold toString16. destruct (Z.ltb_spec n 0); [lia|].
  rewrite (hex_digits_exact 15); [by rewrite (hexw_split 8 8) by lia|cbn; lia|].
  pose proof (Z.log2_le_mono (2 ^ 60) n). change (Z.log2 (2 ^ 60)) with 60 in *. lia.
Qed.

Lemma hexw_inj k a b :
  0 <= a < 16 ^ Z.of_nat k -> 0 <= b < 16 ^ Z.of_nat k -> hexw k a = hexw k b -> a = b.
Proof.
  intros Ha Hb E%(f_equal parseInt16). rewrite !parse_hexw, !Z.mod_small in E by lia. done.
Qed.

Lemma isCaseAuthenticatedTag_spec n :
  is_node_id n -> Cat.isCaseAuthenticatedTag n = (n / 2 ^ 32 =? 0xfffffffd).
Proof.
  unfold is_node_id, Cat.isCaseAuthenticatedTag. intros Hn.
  destruct (decide (2 ^ 60 <= n)) as [Hw|Hs].
  - rewrite toString16_wide by lia. rewrite take_app_le by (rewrite hexw_length; lia).
    rewrite take_ge by (rewrite hexw_length; lia).
    rewrite length_app, !hexw_length. cbn [Nat.add Nat.eqb]. rewrite andb_true_r.
    apply eq_iff_eq_true. rewrite bool_decide_eq_true, Z.eqb_eq.
    change (lit "fffffffd") with (hexw 8 0xfffffffd). split; [|by intros ->].
    apply hexw_inj; [|done]. split; [apply Z.div_pos; lia|apply Z.div_lt_upper_bound; cbn; lia].
  - assert ((length (toString16 n) =? 16)%nat = false) as ->.
    { apply Nat.eqb_neq. unfold toString16. destruct (Z.ltb_spec n 0); [lia|].
      pose proof (hex_digits_short 15 (S (Z.to_nat (Z.log2 n))) n). cbn in *. lia. }
    rewrite andb_false_r. symmetry. apply Z.eqb_neq.
    assert (n / 2 ^ 32 < 2 ^ 28) by (apply Z.div_lt_upper_bound; lia). lia.
Qed.

Lemma low16 n : n mod 2 ^ 32 mod 2 ^ 16 = n mod 2 ^ 16.
Proof. apply Z.mod_mod_divide. by exists (2 ^ 16). Qed.

Lemma extract_spec n :
  is_node_id n -> n / 2 ^ 32 = 0xfffffffd ->
  Cat.extractAsCaseAuthenticatedTag n =
    if n mod 2 ^ 16 =? 0 then Throw ValidationError else Ok (n mod 2 ^ 32).
Proof.
  intros Hn Hc. unfold Cat.extractAsCaseAuthenticatedTag.
  rewrite isCaseAuthenticatedTag_spec, Hc by done. cbn [Z.eqb Pos.eqb negb].
  assert (2 ^ 60 <= n) by (pose proof (Z.div_mod n (2 ^ 32)); pose proof (Z.mod_pos_bound n (2 ^ 32)); lia).
  rewrite toString16_wide by (unfold is_node_id in Hn; lia).
  rewrite drop_app_ge, hexw_length, Nat.sub_diag, drop_0 by (rewrite hexw_length; lia).
  unfold is_node_id in Hn. rewrite parse_hexw by lia.
  change (16 ^ Z.of_nat 8) with (2 ^ 32). unfold Cat.CaseAuthenticatedTag.
  rewrite js_and_ffff by (apply Z.mod_pos_bound; lia).
  by rewrite low16.
Qed.

Lemma identifier_spec n : 0 <= n -> Cat.getIdentifyValue (n mod 2 ^ 32) = n / 2 ^ 16 mod 2 ^ 16.
Proof.
  intros Hn. unfold Cat.getIdentifyValue, js_ushr. rewrite uint32_id by (apply Z.mod_pos_bound; lia).
  change (16 mod 32) with 16.
  rewrite Z.shiftr_div_pow2 by lia.
  change (2 ^ 32) with (2 ^ 16 * 2 ^ 16). rewrite Z.rem_mul_r by lia.
  pose proof (Z.mod_pos_bound n (2 ^ 16)).
  rewrite Z.mul_comm, Z.add_comm, Z.div_add_l, (Z.div_small (n mod 2 ^ 16)) by lia. lia.
Qed.

Lemma version_spec n : 0 <= n -> Cat.getVersion (n mod 2 ^ 32) = n mod 2 ^ 16.
Proof.
  intros Hn. unfold Cat.getVersion. rewrite js_and_ffff by (apply Z.mod_pos_bound; lia).
  apply low16.
Qed.

(** When a target subject is satisfied by a candidate. *)
Definition subject_satisfied (target candidate : Z) : bool :=
  (target =? candidate) ||
  match cat_of target, cat_of candidate with
  | Some (i, v), Some (j, w) => (i =? j) && (v <=? w)
  | _, _ => false
  end.

(** A subject an entry or a session may carry: a 64-bit identifier whose tag,
    if it is one, has a version. *)
Definition valid_subject (n : Z) : Prop := is_node_id n /\ (forall i v, cat_of n = Some (i, v) -> v <> 0).

Lemma subjectMatches_spec target candidate :
  valid_subject target -> valid_subject candidate ->
  Acl.subjectMatches target candidate = Ok (subject_satisfied target candidate).
Proof.
  intros [Ht Vt] [Hc Vc]. unfold Acl.subjectMatches, subject_satisfied.
  destruct (target =? candidate); [done|]. rewrite !isCaseAuthenticatedTag_spec by done.
  unfold cat_of in *.
  destruct (Z.eqb_spec (target / 2 ^ 32) 0xfffffffd) as [Et|Et]; [|done].
  destruct (Z.eqb_spec (candidate / 2 ^ 32) 0xfffffffd) as [Ec|Ec]; [|done]. cbn [negb orb].
  specialize (Vt _ _ eq_refl). specialize (Vc _ _ eq_refl).
  rewrite !extract_spec by done. rewrite <- Z.eqb_neq in Vt, Vc. rewrite Vt, Vc. cbn [rbind].
  unfold is_node_id in *. by rewrite !identifier_spec, !version_spec by lia.
Qed.

(** ** What an access control list grants *)

Section Grants.
Import Acl.

(** The privilege lattice: [subsumes p l] when a grant of [p] includes [l]. *)
Definition subsumes (p l : AccessLevel) : bool :=
  match p, l with
  | Administer, ProxyView => false
  | Administer, _ => true
  | Manage, (Manage | Operate | View) => true
  | Operate, (Operate | View) => true
  | ProxyView, (ProxyView | View) => true
  | View, View => true
  | _, _ => false
  end.

Lemma has_spec s l : has s l = true <-> In l s.
Proof.
  unfold has. rewrite existsb_exists. split.
  - intros (x & Hx & E%bool_decide_eq_true). by subst.
  - intros H. exists l. by rewrite bool_decide_eq_true.
Qed.

Lemma has_set_add s a l : has (set_add s a) l = has s l || bool_decide (a = l).
Proof.
  unfold set_add. destruct (has s a) eqn:E.
  - case_bool_decide; subst; [by rewrite E|by rewrite orb_false_r].
  - unfold has. rewrite existsb_app. cbn. by rewrite orb_false_r.
Qed.

Lemma has_add s p l : has (addGrantedPrivilege s p) l = has s l || subsumes p l.
Proof.
  destruct p; cbn [addGrantedPrivilege]; rewrite ?has_set_add, <- ?orb_assoc; f_equal; by destruct l.
Qed.

(** An entry that the cluster's own validation lets into the list. *)
Definition wf_target (t : Target) : bool :=
  negb (is_null (t_cluster t) && is_null (t_endpoint t) && is_null (t_deviceType t)) &&
  (is_null (t_endpoint t) || is_null (t_deviceType t)).

Definition wf_entry (e : AclEntry) : Prop :=
  Forall valid_subject (default [] (e_subjects e)) /\
  forallb wf_target (default [] (e_targets e)) = true /\
  (is_empty (e_subjects e) = true -> e_authMode e = Case \/ e_authMode e = Group).

Definition target_matches (endpoint : AclEndpointContext) (clusterId : Z) (t : Target) : bool :=
  null_or (t_cluster t) (fun c => c =? clusterId) &&
  null_or (t_endpoint t) (fun e => e =? ep_id endpoint) &&
  null_or (t_deviceType t) (fun d => existsb (Z.eqb d) (deviceTypes endpoint)).

Variable fac : FabricAccessControl.
Variable isd : IncomingSubjectDescriptor.
Variable endpoint : AclEndpointContext.
Variable clusterId : Z.

(** The entry is about this subject and this target. *)
Definition entry_applies (e : AclEntry) : bool :=
  negb (e_fabricIndex e =? NO_FABRIC) && (e_fabricIndex e =? fabricIndex isd) &&
  bool_decide (e_authMode e = authMode isd) &&
  (is_empty (e_subjects e) ||
   existsb (fun s => existsb (subject_satisfied s) (subjects isd)) (default [] (e_subjects e))) &&
  (if is_empty (e_targets e)
   then negb (bool_decide (e_authMode e = Group) && auxiliaryFeatureEnabled fac && (ep_id endpoint =? 0))
   else existsb (target_matches endpoint clusterId) (default [] (e_targets e))) &&
  extensionEntryAccessCheck fac (aclList fac) e isd endpoint clusterId.

Lemma any_match_spec s l :
  valid_subject s -> Forall valid_subject l -> any_match s l = Ok (existsb (subject_satisfied s) l).
Proof.
  intros Hs. induction 1 as [|c l Hc Hl IH]; [done|]. cbn [any_match existsb].
  rewrite subjectMatches_spec by done. cbn [rbind]. by destruct (subject_satisfied s c).
Qed.

Lemma subject_loop_spec ss l :
  Forall valid_subject ss -> Forall valid_subject l ->
  subject_loop ss l = Ok (existsb (fun s => existsb (subject_satisfied s) l) ss).
Proof.
  intros Hss Hl. induction Hss as [|s ss Hs Hss IH]; [done|]. cbn [subject_loop existsb].
  rewrite any_match_spec by done. cbn [rbind]. by destruct (existsb _ l).
Qed.

Lemma target_loop_spec ts :
  forallb wf_target ts = true ->
  target_loop ts endpoint clusterId = Ok (existsb (target_matches endpoint clusterId) ts).
Proof.
  induction ts as [|t ts IH]; [done|]. cbn [forallb target_loop existsb].
  intros [[Hn Hb]%andb_true_iff Hts]%andb_true_iff. rewrite negb_true_iff in Hn. rewrite Hn.
  rewrite <- negb_orb, Hb.
  cbn [throw_if rbind negb]. rewrite IH by done. unfold target_matches.
  destruct (null_or (t_cluster t) _); cbn [negb andb orb]; [|done].
  destruct (null_or (t_endpoint t) _); cbn [negb andb orb]; [|done].
  by destruct (null_or (t_deviceType t) _).
Qed.

Lemma target_rule_spec (b : bool) (e : AclEntry) :
  forallb wf_target (default [] (e_targets e)) = true ->
  (if is_empty (e_targets e) then Ok b else target_loop (default [] (e_targets e)) endpoint clusterId) =
  Ok (if is_empty (e_targets e) then b else existsb (target_matches endpoint clusterId) (default [] (e_targets e))).
Proof. intros H. destruct (is_empty (e_targets e)); [done|by apply target_loop_spec]. Qed.

Lemma entry_passes_spec e :
  wf_entry e -> Forall valid_subject (subjects isd) ->
  entry_passes fac isd endpoint clusterId e = Ok (entry_applies e).
Proof.
  intros (Hs & Ht & Hm) Hi. unfold entry_passes, entry_applies.
  destruct (e_fabricIndex e =? NO_FABRIC), (e_fabricIndex e =? fabricIndex isd); cbn [negb orb andb]; try done.
  case_bool_decide as Ha; cbn [negb andb]; [|done].
  destruct (is_empty (e_subjects e)) eqn:Es; cbn [orb andb].
  - assert (negb (bool_decide (e_authMode e = Case)) && negb (bool_decide (e_authMode e = Group)) = false) as ->.
    { destruct (Hm eq_refl) as [-> | ->]; by rewrite ?bool_decide_true, ?andb_false_r by done. }
    cbn [throw_if rbind negb]. rewrite target_rule_spec by done. cbn [rbind].
    by destruct (if is_empty (e_targets e) then _ else _).
  - rewrite subject_loop_spec by done. cbn [rbind]. destruct (existsb _ (default [] (e_subjects e))); [|done].
    cbn [negb andb]. rewrite target_rule_spec by done. cbn [rbind].
    by destruct (if is_empty (e_targets e) then _ else _).
Qed.

(** The privileges a list of entries should grant. *)
Definition entries_grant (entries : list AclEntry) (l : AccessLevel) : bool :=
  existsb (fun e => entry_applies e && subsumes (privilege e) l) entries.

(** The entries the loop looks at: up to the first that grants Administer. *)
Fixpoint until_admin (entries : list AclEntry) : list AclEntry :=
  match entries with
  | [] => []
  | e :: rest =>
      e :: (if entry_applies e && bool_decide (privilege e = Administer) then [] else until_admin rest)
  end.

(** Looking no further loses nothing but a ProxyView privilege. *)
Lemma until_admin_grants entries l :
  l <> ProxyView -> entries_grant (until_admin entries) l = entries_grant entries l.
Proof.
  intros Hl. unfold entries_grant. induction entries as [|e rest IH]; [done|]. cbn [until_admin existsb].
  destruct (entry_applies e); cbn [andb]; [|by rewrite IH].
  case_bool_decide as Hp; [|by rewrite IH]. rewrite Hp. by destruct l.
Qed.

Lemma acl_loop_spec entries granted :
  Forall wf_entry entries -> Forall valid_subject (subjects isd) ->
  exists granted', acl_loop fac isd endpoint clusterId entries granted = Ok granted' /\
    forall l, has granted' l =
      has granted l || (negb (has granted Administer) && entries_grant (until_admin entries) l).
Proof.
  intros He Hi. revert granted. induction He as [|e entries Hwf He IH]; intros granted.
  { exists granted. split; [done|]. intros l. cbn. by rewrite andb_false_r, orb_false_r. }
  cbn [acl_loop]. destruct (has granted Administer) eqn:Ea.
  { exists granted. split; [done|]. intros l. by rewrite orb_false_r. }
  rewrite entry_passes_spec by done. cbn [rbind].
  destruct (IH (if entry_applies e then addGrantedPrivilege granted (privilege e) else granted)) as (g & Hg & Hspec).
  exists g. split; [done|]. intros l. rewrite Hspec. unfold entries_grant. cbn [until_admin existsb].
  destruct (entry_applies e); cbn [andb orb]; [|by rewrite Ea].
  rewrite !has_add, Ea, <- orb_assoc. cbn [negb andb orb]. f_equal. f_equal.
  by destruct (privilege e).
Qed.

End Grants.

(** ** Theorems *)

Section Decision.
Import Cat Acl.

(** What the list should grant: everything to a commissioner over PASE, and
    what the entries about the subject and the target subsume. *)
Definition commissioner (isd : IncomingSubjectDescriptor) : bool :=
  bool_decide (authMode isd = Pase) && isCommissioning isd.

Definition acl_grants (fac : FabricAccessControl) (isd : IncomingSubjectDescriptor)
  (endpoint : AclEndpointContext) (clusterId : Z) (l : AccessLevel) : bool :=
  (commissioner isd && subsumes Administer l) || entries_grant fac isd endpoint clusterId (aclList fac) l.

(** What it does grant: the same, except that a ProxyView entry counts only
    when no entry before it, nor the commissioner rule, gave Administer. *)
Definition acl_decides (fac : FabricAccessControl) (isd : IncomingSubjectDescriptor)
  (endpoint : AclEndpointContext) (clusterId : Z) (l : AccessLevel) : bool :=
  match l with
  | ProxyView =>
      negb (commissioner isd) &&
      entries_grant fac isd endpoint clusterId (until_admin fac isd endpoint clusterId (aclList fac)) ProxyView
  | _ => acl_grants fac isd endpoint clusterId l
  end.

(** The subject belongs to a fabric that is not given: only a commissioner
    over PASE acts without one. *)
Definition lacks_fabric (fabric : option Z) (subject : Subject) : Prop :=
  default NO_FABRIC fabric = NO_FABRIC /\ forall cats, subject <> SNode UNSPECIFIED_NODE_ID cats.

Definition valid_remote (subject : Subject) : Prop :=
  match subject with
  | SNode id cats => valid_subject id /\ Forall valid_subject (default [] cats)
  | SGroup id _ => 0 <= id < 2 ^ 16
  end.

Lemma small_valid id : 0 <= id < 2 ^ 32 -> valid_subject id.
Proof.
  intros H. split; [unfold is_node_id; lia|]. unfold cat_of. by rewrite Z.div_small by lia.
Qed.

Lemma isd_subjects_valid fabric subject isd :
  valid_remote subject -> getIsdFromMessage fabric (Some subject) = Ok isd -> Forall valid_subject (subjects isd).
Proof.
  assert (valid_subject UNSPECIFIED_NODE_ID) by (by apply small_valid).
  unfold getIsdFromMessage. destruct subject as [id cats|id m]; cbn [valid_remote].
  - intros [Hid Hc]. destruct (id =? _); [intros [= <-]; cbn; auto|].
    intros ([] & _ & [= <-])%rbind_ok. cbn. auto.
  - intros Hid. intros ([] & _ & E)%rbind_ok. destruct m; injection E as <-; cbn; [|auto].
    constructor; [apply small_valid; lia|auto].
Qed.

(** A session that is neither PASE nor accepted without a fabric. *)
Lemma isd_group_not_commissioning fabric subject isd :
  getIsdFromMessage fabric subject = Ok isd -> authMode isd = Group -> isCommissioning isd = false.
Proof.
  unfold getIsdFromMessage. destruct subject as [[id cats|id m]|]; [| |done].
  - destruct (id =? _); [by intros [= <-]|]. by intros ([] & _ & [= <-])%rbind_ok.
  - intros ([] & _ & E)%rbind_ok. by destruct m; injection E as <-.
Qed.

Lemma isd_fails fabric subject e :
  getIsdFromMessage fabric (Some subject) = Throw e -> e = MatterFlowError /\ lacks_fabric fabric subject.
Proof.
  assert (forall b, match fabric with None => true | Some f => f =? NO_FABRIC end = b ->
    b = true -> default NO_FABRIC fabric = NO_FABRIC) as Hf.
  { intros b <-. destruct fabric as [f|]; [apply Z.eqb_eq|done]. }
  unfold getIsdFromMessage, lacks_fabric. destruct subject as [id cats|id m].
  - destruct (Z.eqb_spec id UNSPECIFIED_NODE_ID) as [|Hid]; [done|].
    destruct (match fabric with None => _ | Some _ => _ end) eqn:E; cbn; [|done].
    intros [= <-]. split; [done|]. split; [by eapply Hf|]. intros c [= ->]. done.
  - destruct (match fabric with None => _ | Some _ => _ end) eqn:E; cbn; [|by destruct m].
    intros [= <-]. split; [done|]. split; [by eapply Hf|done].
Qed.

Lemma granted_spec fac fabric subject endpoint clusterId isd :
  getIsdFromMessage fabric (Some subject) = Ok isd -> Forall wf_entry (aclList fac) -> valid_remote subject ->
  exists levels,
    getGrantedPrivileges fac fabric (Some subject) endpoint clusterId =
      (if bool_decide (authMode isd = Group) && acl_grants fac isd endpoint clusterId Administer
       then Throw MatterFlowError else Ok levels) /\
    forall l, has levels l = acl_decides fac isd endpoint clusterId l.
Proof.
  intros Hisd Hwf Hv. unfold getGrantedPrivileges. rewrite Hisd. cbn [rbind].
  fold (commissioner isd).
  destruct (acl_loop_spec fac isd endpoint clusterId (aclList fac)
    (if commissioner isd then addGrantedPrivilege [] Administer else []))
    as (levels & -> & Hspec); [done|by eapply isd_subjects_valid|].
  exists levels. cbn [rbind].
  assert (forall l, has levels l = acl_decides fac isd endpoint clusterId l) as HL.
  { intros l. rewrite Hspec. unfold acl_decides, acl_grants. destruct (commissioner isd).
    - rewrite !has_add. cbn [has existsb orb negb andb subsumes]. rewrite orb_false_r.
      destruct l; done.
    - cbn [has existsb orb negb andb]. destruct l; try done; by apply until_admin_grants. }
  split; [|exact HL]. rewrite (HL Administer). cbn [acl_decides].
  by destruct (bool_decide (authMode isd = Group) && acl_grants _ _ _ _ _).
Qed.

(** A subject that is no commissioner is described with its own fabric, or
    none, and never as PASE. *)
Lemma isd_not_pase fabric subject isd :
  getIsdFromMessage (Some fabric) (Some subject) = Ok isd ->
  (forall id cats, subject = SNode id cats -> id <> UNSPECIFIED_NODE_ID) ->
  bool_decide (authMode isd = Pase) = false /\ (fabricIndex isd = fabric \/ fabricIndex isd = NO_FABRIC).
Proof.
  unfold getIsdFromMessage. intros Hisd Hs. destruct subject as [id cats|id m].
  - destruct (Z.eqb_spec id UNSPECIFIED_NODE_ID) as [E|_]; [by destruct (Hs id cats)|].
    apply rbind_ok in Hisd as ([] & _ & [= <-]). auto.
  - apply rbind_ok in Hisd as ([] & _ & E). destruct m; injection E as <-; cbn; auto.
Qed.

(** Entries of another fabric contribute nothing. *)
Lemma acl_loop_foreign fac isd endpoint clusterId index entries :
  existsb (fun e => negb (e_fabricIndex e =? index)) entries = false ->
  (index =? NO_FABRIC) || negb (index =? fabricIndex isd) = true ->
  acl_loop fac isd endpoint clusterId entries [] = Ok [].
Proof.
  intros El Hf. induction entries as [|e entries IH]; [done|].
  cbn [existsb] in El. apply orb_false_iff in El as [Ee%negb_false_iff%Z.eqb_eq El].
  cbn [acl_loop]. change (has [] Administer) with false. cbn [rbind].
  unfold entry_passes. rewrite Ee, Hf. by apply IH.
Qed.

End Decision.

(** C28: The access control list decides as it should.  For a list of entries
    the cluster's validation accepts and any subject, the levels computed are,
    for every level but ProxyView, exactly those of the commissioner rule and
    of the entries that are about the subject and the target, each with what it
    subsumes.  ProxyView is granted exactly when some applying entry gives it
    before, or together with, the first that gives Administer, and never by the
    commissioner rule: the loop stops at Administer.  The only error is
    MatterFlowError, for a subject other than a commissioner without a fabric
    and for an entry that gives Administer to a group. *)
Theorem access_granted_iff (fac : Acl.FabricAccessControl) (fabric : option Z) (subject : Acl.Subject)
  (endpoint : Acl.AclEndpointContext) (clusterId : Z) :
  Forall wf_entry (Acl.aclList fac) ->
  valid_remote subject ->
  match Acl.getGrantedPrivileges fac fabric (Some subject) endpoint clusterId with
  | Ok levels =>
      exists isd, Acl.getIsdFromMessage fabric (Some subject) = Ok isd /\
      (forall l, l <> Acl.ProxyView -> In l levels <-> acl_grants fac isd endpoint clusterId l = true) /\
      (In Acl.ProxyView levels <->
       commissioner isd = false /\
       entries_grant fac isd endpoint clusterId
         (until_admin fac isd endpoint clusterId (Acl.aclList fac)) Acl.ProxyView = true) /\
      (Acl.authMode isd = Acl.Group -> ~ In Acl.Administer levels)
  | Throw e =>
      e = MatterFlowError /\
      (lacks_fabric fabric subject \/
       exists isd, Acl.getIsdFromMessage fabric (Some subject) = Ok isd /\
         Acl.authMode isd = Acl.Group /\ acl_grants fac isd endpoint clusterId Acl.Administer = true)
  end.
Proof.
  intros Hwf Hv. destruct (Acl.getIsdFromMessage fabric (Some subject)) as [isd|e] eqn:Hisd.
  2: { unfold Acl.getGrantedPrivileges. rewrite Hisd. cbn [rbind]. apply isd_fails in Hisd as [-> ?]. auto. }
  destruct (granted_spec fac fabric subject endpoint clusterId isd) as (levels & -> & H); [done..|].
  destruct (bool_decide _ && _) eqn:E.
  { apply andb_true_iff in E as [Eg%bool_decide_eq_true Ea]. eauto 6. }
  exists isd. split_and!; [done| | |].
  - intros l Hl. rewrite <- has_spec, H. by destruct l.
  - rewrite <- has_spec, H. cbn [acl_decides]. by rewrite andb_true_iff, negb_true_iff.
  - intros Hg Hin. rewrite <- has_spec, H in Hin. by rewrite Hg, (Hin : acl_grants _ _ _ _ _ = true) in E.
Qed.

(** C30: No access across fabrics.  Whatever lists were installed and however
    malformed their entries are, a subject that is not a PASE commissioner and
    belongs to another fabric than the list obtains no privilege. *)
Theorem no_cross_fabric_grant (fac fac' : Acl.FabricAccessControl) (list : list Acl.AclEntry) (fabric : Z)
  (subject : Acl.Subject) (endpoint : Acl.AclEndpointContext) (clusterId : Z) (levels : Datatypes.list Acl.AccessLevel) :
  Acl.set_aclList list fac = Ok fac' ->
  fabric <> Acl.fac_fabricIndex fac ->
  (forall id cats, subject = Acl.SNode id cats -> id <> Cat.UNSPECIFIED_NODE_ID) ->
  Acl.getGrantedPrivileges fac' (Some fabric) (Some subject) endpoint clusterId = Ok levels ->
  levels = [].
Proof.
  unfold Acl.set_aclList. destruct (existsb _ list) eqn:El; [done|]. intros [= <-] Hf Hs.
  unfold Acl.getGrantedPrivileges. intros (isd & Hisd & (granted & Hg & ([] & _ & [= <-])%rbind_ok)%rbind_ok)%rbind_ok.
  destruct (isd_not_pase _ _ _ Hisd Hs) as [Hp Hfi].
  rewrite Hp in Hg. cbn [andb Acl.aclList] in Hg.
  rewrite (acl_loop_foreign _ _ _ _ (Acl.fac_fabricIndex fac)) in Hg; [by injection Hg|done|].
  destruct Hfi as [-> | ->].
  - rewrite (proj2 (Z.eqb_neq _ fabric)) by congruence. apply orb_true_r.
  - by destruct (_ =? Acl.NO_FABRIC).
Qed.

Section Enforcement.
Import Acl Enforcer.

(** [may] answers what [authorize] decides. *)
Definition agree (may : Verification) (authorize : Assertion) (session : Session) (location : Location) : Prop :=
  may session location = Ok true <-> authorize session location = Ok tt.

Lemma base_agree level denied session location :
  agree (base_may level) (base_authorize level denied) session location.
Proof.
  unfold agree, base_may, base_authorize. destruct session as [s|]; [|done].
  destruct (command s); [done|]. destruct (granted s level location) as [[]|]; cbn; done.
Qed.

Lemma timed_agree may authorize session location :
  agree may authorize session location ->
  agree (timed_mayWrite may) (timed_authorizeWrite authorize) session location.
Proof.
  unfold agree, timed_mayWrite, timed_authorizeWrite. destruct session as [s|]; [|done].
  by destruct (timed s); cbn.
Qed.

Lemma sensitive_write_agree may authorize session location :
  agree may authorize session location ->
  agree (sensitive_may may) (sensitive_authorizeWrite authorize) session location.
Proof.
  unfold agree, sensitive_may, sensitive_authorizeWrite. destruct session as [s|]; [|done].
  destruct (command s); [done|]. destruct (s_fabric s =? 0); [done|]. by destruct (fabric_mismatch s location).
Qed.

Lemma sensitive_read_agree may authorize session location :
  agree may authorize session location ->
  (sensitive_may may session location = Ok true -> sensitive_authorizeRead authorize session location = Ok tt) /\
  (forall s, session = Some s -> fabricFiltered s = true ->
     agree (sensitive_may may) (sensitive_authorizeRead authorize) session location).
Proof.
  unfold agree, sensitive_may, sensitive_authorizeRead. intros H. destruct session as [s|]; [|done].
  destruct (command s); [done|]. destruct (s_fabric s =? 0), (fabric_mismatch s location), (fabricFiltered s) eqn:Ef;
    cbn; split; try done; try tauto; intros ? [= <-]; rewrite ?Ef; tauto || done.
Qed.

Lemma exempt_only_agree denied session location :
  agree exempt_only_may (exempt_only_authorize denied) session location.
Proof. unfold agree, exempt_only_may, exempt_only_authorize. by destruct (exempt session). Qed.

End Enforcement.

(** The enforcers answer consistently.  For every schema, session and
    location, a write or an invocation may happen exactly when it is
    authorized; a read that may happen is authorized, and the converse holds
    unless the element is fabric sensitive and the read is not fabric
    filtered. *)
Theorem may_matches_authorize (limits : Enforcer.Limits) (schema_timed schema_fabric : bool)
  (session : Enforcer.Session) (location : Enforcer.Location) :
  let data := Enforcer.dataEnforcerFor limits in
  let cmd := Enforcer.commandEnforcerFor limits schema_timed schema_fabric in
  agree (Enforcer.mayWrite data) (Enforcer.authorizeWrite data) session location /\
  agree (Enforcer.mayInvoke cmd) (Enforcer.authorizeInvoke cmd) session location /\
  (Enforcer.mayRead data session location = Ok true -> Enforcer.authorizeRead data session location = Ok tt) /\
  (Enforcer.fabricSensitive limits = false \/ session = None \/
   (exists s, session = Some s /\ Enforcer.fabricFiltered s = true) ->
   agree (Enforcer.mayRead data) (Enforcer.authorizeRead data) session location).
Proof.
  intros data cmd. split; [|split; [|split]].
  - unfold data, Enforcer.dataEnforcerFor.
    destruct (Enforcer.l_timed limits), (Enforcer.fabricSensitive limits), (Enforcer.readable limits),
      (Enforcer.writable limits); cbn;
      auto using exempt_only_agree, sensitive_write_agree, timed_agree, base_agree.
  - unfold agree, cmd. cbn. destruct session as [s|]; [|done].
    destruct (Enforcer.command s); [|done]. destruct (schema_timed && _); [done|].
    destruct (schema_fabric && _); [done|]. cbn.
    by destruct (Enforcer.granted s (Enforcer.writeLevel limits) location) as [[]|].
  - unfold data, Enforcer.dataEnforcerFor.
    destruct (Enforcer.l_timed limits), (Enforcer.fabricSensitive limits), (Enforcer.readable limits),
      (Enforcer.writable limits); cbn;
      first [apply sensitive_read_agree, base_agree | apply base_agree | apply exempt_only_agree].
  - unfold data, Enforcer.dataEnforcerFor. intros Hc.
    destruct (Enforcer.l_timed limits), (Enforcer.fabricSensitive limits), (Enforcer.readable limits),
      (Enforcer.writable limits); cbn; try apply exempt_only_agree; try apply base_agree;
      (destruct Hc as [?|[-> |(s & Hs & Hf)]];
        [done|done|by eapply sensitive_read_agree; [apply base_agree|..]]).
Qed.

(** A fabric-sensitive element of another fabric.  With an unfiltered read
    the check [authorizeRead] passes although [mayRead] denies. *)
Theorem unfiltered_sensitive_read_diverges :
  exists (limits : Enforcer.Limits) (s : Enforcer.Remote) (location : Enforcer.Location),
    Enforcer.fabricSensitive limits = true /\ Enforcer.fabricFiltered s = false /\
    Enforcer.fabric_mismatch s location = true /\
    Enforcer.authorizeRead (Enforcer.dataEnforcerFor limits) (Some s) location = Ok tt /\
    Enforcer.mayRead (Enforcer.dataEnforcerFor limits) (Some s) location = Ok false.
Proof.
  exists (Enforcer.mkLimits true Acl.View true Acl.Operate true true false false),
    (Enforcer.mkRemote (fun _ _ => Ok Enforcer.Granted) 1 false false false),
    (Enforcer.mkLocation (Some 1) (Some 31) (Some 2)).
  done.
Qed.

Section Composition.
Import Acl Enforcer.

Lemma aclAuthority_granted fac fabric subject nodeProtocol level e c owning endpoint :
  Forall wf_entry (aclList fac) -> valid_remote subject ->
  aclEndpointContextFor nodeProtocol (mkLocation (Some e) (Some c) owning) = Ok endpoint ->
  aclAuthority fac fabric subject nodeProtocol level (mkLocation (Some e) (Some c) owning) = Ok Granted <->
  exists isd, getIsdFromMessage (Some fabric) (Some subject) = Ok isd /\
    acl_decides fac isd endpoint c level = true /\
    (authMode isd = Group -> acl_grants fac isd endpoint c Administer = false).
Proof.
  intros Hwf Hv He. unfold aclAuthority. rewrite He. cbn [rbind accessLevelsFor l_cluster].
  destruct (getIsdFromMessage (Some fabric) (Some subject)) as [isd|x] eqn:Hisd.
  2: { unfold getGrantedPrivileges. rewrite Hisd. split; [done|]. by intros (? & ? & _). }
  destruct (granted_spec fac (Some fabric) subject endpoint c isd) as (levels & -> & H); [done..|].
  assert (forall P : _ -> Prop, (exists i, Ok isd = Ok i /\ P i) <-> P isd) as ->.
  { intros P. split; [by intros (? & [= <-] & ?)|eauto]. }
  rewrite <- H. case_bool_decide as Hg; cbn [andb].
  - destruct (acl_grants fac isd endpoint c Administer); cbn.
    + split; [done|]. by intros [_ F%(fun f => f Hg)].
    + destruct (has levels level); naive_solver.
  - cbn. destruct (has levels level); naive_solver.
Qed.

(** What a write of a data element asks of a remote session besides the
    privilege. *)
Definition write_conditions (limits : Limits) (s : Remote) (location : Location) : bool :=
  writable limits && (negb (l_timed limits) || timed s) &&
  (negb (fabricSensitive limits) || (negb (s_fabric s =? 0) && negb (fabric_mismatch s location))).

Lemma base_authorize_ok level denied s location :
  command s = false ->
  base_authorize level denied (Some s) location = Ok tt <-> authorityAt s level location = Ok Granted.
Proof.
  intros Hc. unfold base_authorize, granted. rewrite Hc.
  destruct (authorityAt s level location) as [[]|]; cbn; naive_solver.
Qed.

(** Within a command no privilege is asked for; what is left of the checks is
    the timed interaction, of a writable schema that is not fabric sensitive. *)
Definition command_write_conditions (limits : Limits) (s : Remote) : bool :=
  negb (writable limits) || fabricSensitive limits || negb (l_timed limits) || timed s.

Lemma command_authorizeWrite_spec limits s location :
  command s = true ->
  authorizeWrite (dataEnforcerFor limits) (Some s) location = Ok tt <-> command_write_conditions limits s = true.
Proof.
  intros Hc. unfold dataEnforcerFor, command_write_conditions.
  destruct (writable limits), (l_timed limits), (fabricSensitive limits), (readable limits);
    cbn [authorizeWrite negb andb orb];
    unfold exempt_only_authorize, exempt, timed_authorizeWrite, sensitive_authorizeWrite, base_authorize;
    rewrite ?Hc; try destruct (timed s); done.
Qed.

Lemma authorizeWrite_spec limits s location :
  command s = false ->
  authorizeWrite (dataEnforcerFor limits) (Some s) location = Ok tt <->
  write_conditions limits s location = true /\ authorityAt s (writeLevel limits) location = Ok Granted.
Proof.
  intros Hc. rewrite <- (base_authorize_ok _ (WriteError Status.UnsupportedAccess)) by done.
  unfold dataEnforcerFor, write_conditions.
  destruct (writable limits), (l_timed limits), (fabricSensitive limits), (readable limits);
    cbn [authorizeWrite negb andb orb];
    unfold exempt_only_authorize, exempt, timed_authorizeWrite, sensitive_authorizeWrite;
    rewrite ?Hc; cbn [negb andb orb];
    try destruct (timed s); try destruct (s_fabric s =? 0); try destruct (fabric_mismatch s location);
    cbn [negb andb orb throw_if rbind]; intuition congruence.
Qed.

End Composition.


(** The special CASE authenticated tags cannot become node identifiers.
    The tag constructors shift the identifier into the sign bit: the
    Administrator and Anchor tags, and any tag with an identifier from 0x8000,
    are negative, and [NodeId.fromCaseAuthenticatedTag] throws on them. *)
Theorem high_tags_rejected (tag version : Z) :
  0x8000 <= tag <= 0xffff -> 0 < version <= 0xffff ->
  exists id, Cat.CaseAuthenticatedTag tag (Some version) = Ok id /\ id < 0 /\
    Cat.getIdentifyValue id = tag /\ Cat.getVersion id = version /\
    Cat.fromCaseAuthenticatedTag id = Throw UnexpectedDataError.
Proof.
  intros Ht Hv.
  assert (js_shl tag 16 = (tag - 0x10000) * 2 ^ 16) as Es.
  { unfold js_shl. rewrite (int32_id tag) by lia. change (16 mod 32) with 16. rewrite Z.shiftl_mul_pow2 by lia.
    unfold int32. symmetry. rewrite <- (Z.mod_unique_pos (tag * 2 ^ 16 + 2 ^ 31) (2 ^ 32) 1
      ((tag - 0x10000) * 2 ^ 16 + 2 ^ 31)); lia. }
  assert (js_or (js_shl tag 16) version = (tag - 0x10000) * 2 ^ 16 + version) as Eo.
  { rewrite Es, js_or_plain by (unfold is_int32; lia). rewrite Z.lor_comm, lor_add by lia. lia. }
  exists ((tag - 0x10000) * 2 ^ 16 + version). unfold Cat.CaseAuthenticatedTag. rewrite Eo.
  assert (forall x, x = (tag - 0x10000) * 2 ^ 16 + version -> js_and x 0xffff = version) as Ev.
  { intros x ->. unfold js_and. rewrite int32_id by lia. change (int32 0xffff) with (Z.ones 16).
    rewrite Z.land_ones, Z.add_comm, Z.mod_add, Z.mod_small by lia. done. }
  rewrite Ev by done. destruct (Z.eqb_spec version 0); [lia|]. split_and!; [done|lia| |by apply Ev|].
  - unfold Cat.getIdentifyValue, js_ushr, uint32. change (16 mod 32) with 16.
    rewrite <- (Z.mod_unique_pos ((tag - 0x10000) * 2 ^ 16 + version) (2 ^ 32) (-1) (tag * 2 ^ 16 + version)) by lia.
    rewrite Z.shiftr_div_pow2, Z.div_add_l, Z.div_small by lia. lia.
  - unfold Cat.fromCaseAuthenticatedTag. destruct (Z.ltb_spec ((tag - 0x10000) * 2 ^ 16 + version) 0); [done|lia].
Qed.

(** ** Witnesses *)

(** Fabric 1: node 5 manages cluster 6 on every endpoint of device type 256,
    every holder of tag 0x1234 from version 2 operates endpoint 1, every group
    of the fabric may view. *)
Definition sample_acl : Acl.FabricAccessControl :=
  Acl.mkFac 1
    [Acl.mkEntry 1 Acl.Manage Acl.Case (Some [5]) (Some [Acl.mkTarget (Some 6) None (Some 256)]);
     Acl.mkEntry 1 Acl.Operate Acl.Case (Some [0xFFFFFFFD12340002]) (Some [Acl.mkTarget None (Some 1) None]);
     Acl.mkEntry 1 Acl.View Acl.Group None None]
    false (fun _ _ _ _ _ => true).

Definition sample_node : Acl.Subject := Acl.SNode 7 (Some [0xFFFFFFFD12340003]).

Lemma sample_acl_wf : Forall wf_entry (Acl.aclList sample_acl).
Proof.
  assert (valid_subject 5) by (by apply small_valid).
  assert (valid_subject 0xFFFFFFFD12340002).
  { split; [unfold is_node_id; lia|]. vm_compute. by intros i v [= <- <-]. }
  repeat (apply Forall_cons; split); [| | |by apply Forall_nil];
    (split; [cbn; auto|split; [done|]]); [done|done|by right].
Qed.

Lemma sample_node_valid : valid_remote sample_node.
Proof.
  split; [by apply small_valid|]. cbn. repeat constructor; unfold is_node_id; try lia; try done.
  vm_compute. by intros i v [= <- <-].
Qed.

Lemma access_granted_iff_witness :
  let isd := Acl.mkIsd false Acl.Case [7; 0xFFFFFFFD12340003] 1 in
  Acl.getGrantedPrivileges sample_acl (Some 1) (Some sample_node) (Acl.mkEndpoint 1 []) 6 =
    Ok [Acl.Operate; Acl.View] /\
  acl_grants sample_acl isd (Acl.mkEndpoint 1 []) 6 Acl.Operate = true /\
  acl_grants sample_acl isd (Acl.mkEndpoint 1 []) 6 Acl.Manage = false.
Proof.
  intros isd.
  pose proof (access_granted_iff sample_acl (Some 1) sample_node (Acl.mkEndpoint 1 []) 6
    sample_acl_wf sample_node_valid) as H.
  assert (Acl.getGrantedPrivileges sample_acl (Some 1) (Some sample_node) (Acl.mkEndpoint 1 []) 6 =
    Ok [Acl.Operate; Acl.View]) as E by (vm_compute; reflexivity).
  rewrite E in H. destruct H as (isd' & [= <-] & H & _). split_and!; [done|apply H; [done|by left]|].
  apply not_true_iff_false. intros [F|[F|[]]]%(proj2 (H Acl.Manage ltac:(done))); discriminate F.
Defined.

Lemma no_cross_fabric_grant_witness :
  Acl.getGrantedPrivileges sample_acl (Some 2) (Some sample_node) (Acl.mkEndpoint 1 []) 6 = Ok [] /\
  ([] : list Acl.AccessLevel) = [].
Proof.
  split; [vm_compute; reflexivity|].
  apply (no_cross_fabric_grant (Acl.newAccessControl (Some 1)) sample_acl (Acl.aclList sample_acl) 2
    sample_node (Acl.mkEndpoint 1 []) 6); [reflexivity|discriminate| |vm_compute; reflexivity].
  intros id cats [= <- _]. discriminate.
Defined.


(** [CaseAuthenticatedTag(0xfffd, 1)] is the Administrator tag. *)
Lemma high_tags_rejected_witness :
  exists id, Cat.AdministratorIdentifier 1 = Ok id /\ id < 0 /\
    Cat.fromCaseAuthenticatedTag id = Throw UnexpectedDataError.
Proof.
  destruct (high_tags_rejected 0xfffd 1) as (id & H1 & H2 & _ & _ & H3); [lia|lia|].
  exists id. rewrite <- H1. split_and!; [vm_compute; reflexivity|done|done].
Defined.
