(* ===== verification/TlvSchemas.v ===== *)
(** * TLV schemas

    Models the typed schemas of src/packages/types/src/tlv: TlvNumber.ts,
    TlvBoolean.ts, TlvString.ts, TlvNullable.ts, TlvArray.ts, TlvObject.ts,
    TlvWrapper.ts and TlvVoid.ts, with the entry points of TlvSchema.ts and
    Schema.ts, on top of the element codec (TlvCodec.v) and the raw streams
    (TlvAny.v).

    A schema is a tree; encoding and decoding follow the class hierarchy: one
    branch per class, over any [TlvWriter] and [TlvReader].  The loops over the
    members of a container run on fuel, and the reader bounds it.

    Values are JavaScript values: a number and a bigint of the same magnitude
    are one [JInt], a float is its binary64 pattern, an object the association
    list of its properties in their enumeration order.  Property names are
    taken not to look like array indices. *)

From S2P Require Import Prelude DataIO CodecLib BitmapSchema Text TlvCodec TlvAny.

Set Warnings "-register-all".

#[local] Abbreviation length := Datatypes.length.

Inductive Value :=
| JInt (z : Z)
| JFloat (bits : Z)
| JString (s : list Z)
| JBytes (bs : list Z)
| JBool (b : bool)
| JNull
| JUndefined
| JArray (l : list Value)
| JObject (props : list (string * Value))
| JStream (s : TlvStream).

(** ** Schemas *)

(** [TlvNumericSchema] at the integer types.  [isNumber] tells the subclass
    [TlvNumberSchema], [bigBase] that [baseTypeMax] is a bigint. *)
Record Numeric := mkNumeric {
  signed : bool;
  isNumber : bool;
  bigBase : bool;
  baseTypeMin : Z;
  baseTypeMax : Z;
  own_min : option Z;
  own_max : option Z;
}.

Definition n_min (n : Numeric) : Z := default (baseTypeMin n) (own_min n).
Definition n_max (n : Numeric) : Z := default (baseTypeMax n) (own_max n).

(** [interface FieldType] and its variants. *)
Record FieldOf (S : Type) := mkField {
  f_id : Z;
  f_schema : S;
  f_optional : bool;
  f_repeated : bool;
  f_fallback : option Value;
  f_minLength : option Z;
  f_maxLength : option Z;
}.
Arguments mkField {S}.
Arguments f_id {S}.
Arguments f_schema {S}.
Arguments f_optional {S}.
Arguments f_repeated {S}.
Arguments f_fallback {S}.
Arguments f_minLength {S}.
Arguments f_maxLength {S}.

Inductive StringType := Utf8String | ByteString.
Inductive ObjectType := Structure | List.

Inductive Schema :=
| SNumber (n : Numeric)
| SFloat (length : TlvLength) (min max : Z)
| SBoolean
| SString (type : StringType) (minLength maxLength : Z)
| SNullable (schema : Schema)
| SArray (elementSchema : Schema) (minLength maxLength : Z)
| SObject (fieldDefinitions : list (string * FieldOf Schema)) (type : ObjectType)
    (allowProtocolSpecificTags preserveDataOrdering : bool)
| SBitmap (numericSchema : Numeric) (bitSchema : BitSchema)
| SWrapper (underlyingSchema : Schema) (wrap unwrap : Value -> result Value)
| SAny
| SVoid.

Abbreviation Field := (FieldOf Schema).

#[global] Instance StringType_eq_dec : EqDecision StringType.
Proof. solve_decision. Defined.
#[global] Instance ObjectType_eq_dec : EqDecision ObjectType.
Proof. solve_decision. Defined.

(** [FabricIndex.id]. *)
Definition FABRIC_INDEX_ID : Z := 0xfe.

Record TlvEncodingOptions := mkOptions {
  forWriteInteraction : bool;
  allowMissingFieldsForNonFabricFilteredRead : bool;
}.
Definition no_options : TlvEncodingOptions := mkOptions false false.

(** ** Numbers *)

(** The constructor keeps a bound only inside the base type. *)
Definition newNumeric (signed isNumber bigBase : bool) (baseTypeMin baseTypeMax : Z) (min max : option Z)
  : Numeric :=
  mkNumeric signed isNumber bigBase baseTypeMin baseTypeMax
    (match min with Some m => if baseTypeMin <? m then Some m else None | None => None end)
    (match max with Some m => if m <? baseTypeMax then Some m else None | None => None end).

Definition TlvInt8 := newNumeric true true false (-128) 127 None None.
Definition TlvInt16 := newNumeric true true false (-32768) 32767 None None.
Definition TlvInt32 := newNumeric true true false (-2147483648) 2147483647 None None.
Definition TlvInt64 := newNumeric true false true (- 2 ^ 63) (2 ^ 63 - 1) None None.
Definition TlvUInt8 := newNumeric false true false 0 255 None None.
Definition TlvUInt16 := newNumeric false true false 0 65535 None None.
Definition TlvUInt24 := newNumeric false true false 0 (2 ^ 24 - 1) None None.
Definition TlvUInt32 := newNumeric false true false 0 (2 ^ 32 - 1) None None.
Definition TlvUInt64 := newNumeric false false true 0 (2 ^ 64 - 1) None None.

Definition FLOAT32_MAX : Z := 0x47EFFFFFE0000000.
Definition FLOAT64_MAX : Z := 0x7FEFFFFFFFFFFFFF.
Definition negative (bits : Z) : Z := bits + 2 ^ 63.
Definition TlvFloat := SFloat FourBytes (negative FLOAT32_MAX) FLOAT32_MAX.
Definition TlvDouble := SFloat EightBytes (negative FLOAT64_MAX) FLOAT64_MAX.

(** A bound as the caller states it. *)
Inductive Magnitude := MNumber (z : Z) | MBigint (z : Z).
Definition magnitude (m : Magnitude) : Z := match m with MNumber z | MBigint z => z end.

Definition MAX_SAFE_INTEGER : Z := 2 ^ 53 - 1.

Definition assertStatable (n : Numeric) (bound : option Magnitude) : result unit :=
  match bound with
  | Some (MNumber z) => throw_if (bigBase n && negb (Z.abs z <=? MAX_SAFE_INTEGER)) ImplementationError
  | _ => Ok tt
  end.

(** [bound]; the cache of earlier results is left out, it returns an equal
    schema.  [constrain] creates a schema of the same class. *)
Definition constrain (n : Numeric) (min max : Z) : Numeric :=
  newNumeric (signed n) (isNumber n) (bigBase n) (baseTypeMin n) (baseTypeMax n) (Some min) (Some max).

Definition bound (n : Numeric) (min max : option Magnitude) : result Numeric :=
  let* _ := assertStatable n min in
  let* _ := assertStatable n max in
  let effectiveMin := match min with Some m => Z.max (magnitude m) (n_min n) | None => n_min n end in
  let effectiveMax := match max with Some m => Z.min (magnitude m) (n_max n) | None => n_max n end in
  Ok (constrain n effectiveMin effectiveMax).

Definition numeric_typeLength (n : Numeric) (z : Z) : TlvTypeLength :=
  if signed n then TSignedInt (getIntTlvLength z) else TUnsignedInt (getUIntTlvLength z).

Definition validateBoundaries (n : Numeric) (z : Z) : result unit :=
  let* _ := throw_if (z <? n_min n) ValidationError in
  throw_if (n_max n <? z) ValidationError.

(** [Number(value)] of a bigint: rounding to 53 significant bits, ties to
    even. *)
Definition toNumber (z : Z) : Z :=
  let a := Z.abs z in
  if a <? 2 ^ 53 then z
  else
    let e := Z.log2 a - 52 in
    let q := a / 2 ^ e in
    let r := a mod 2 ^ e in
    let q := if (2 ^ (e - 1) <? r) || ((r =? 2 ^ (e - 1)) && Z.odd q) then q + 1 else q in
    Z.sgn z * (q * 2 ^ e).

(** Order of binary64 patterns; NaN compares false. *)
Definition float_key (bits : Z) : Z := if bits <? 2 ^ 63 then bits else - (bits - 2 ^ 63).
Definition is_nan (bits : Z) : bool := 0x7FF0000000000000 <? Z.abs (float_key bits).
Definition float_lt (a b : Z) : bool := negb (is_nan a) && negb (is_nan b) && (float_key a <? float_key b).

(** ** Nullable numbers *)

(** The [bound] of [NullableSchema]'s constructor, which leaves one value of
    the base type to stand for null.  The bounds it passes are a bigint when
    the base type is one, and otherwise not tested. *)
Definition reserve_null (n : Numeric) : result Numeric :=
  if (baseTypeMin n =? 0) && (n_max n =? baseTypeMax n)
  then bound n (Some (MBigint (n_min n))) (Some (MBigint (baseTypeMax n - 1)))
  else if (baseTypeMin n <? 0) && (n_min n =? baseTypeMin n)
  then bound n (Some (MBigint (baseTypeMin n + 1))) (Some (MBigint (n_max n)))
  else Ok n.

(** [withReservedMsb]. *)
Definition withReservedMsb (n : Numeric) : result Numeric := bound n None (Some (MNumber (baseTypeMax n / 2))).

Definition TlvNullable (schema : Schema) : result Schema :=
  match schema with
  | SNumber n => let* n := reserve_null n in Ok (SNullable (SNumber n))
  | SBitmap n bits => let* n := withReservedMsb n in Ok (SNullable (SBitmap n bits))
  | _ => Ok (SNullable schema)
  end.

(** ** Objects *)

Fixpoint prop (props : list (string * Value)) (name : string) : Value :=
  match props with
  | [] => JUndefined
  | (n, v) :: rest => if decide (n = name) then v else prop rest name
  end.

(** [result[name] = v] keeps the place of an existing property. *)
Fixpoint set_prop (props : list (string * Value)) (name : string) (v : Value) : list (string * Value) :=
  match props with
  | [] => [(name, v)]
  | (n, w) :: rest => if decide (n = name) then (n, v) :: rest else (n, w) :: set_prop rest name v
  end.

Fixpoint delete_prop (props : list (string * Value)) (name : string) : list (string * Value) :=
  match props with
  | [] => []
  | (n, w) :: rest => if decide (n = name) then rest else (n, w) :: delete_prop rest name
  end.

Definition is_undefined (v : Value) : bool := match v with JUndefined => true | _ => false end.
Definition is_nullish (v : Value) : bool := match v with JUndefined | JNull => true | _ => false end.

(** Reading and writing a property of any value; a property set on an array
    or on bytes is not part of the model. *)
Definition get_of (v : Value) (name : string) : result Value :=
  match v with
  | JObject props => Ok (prop props name)
  | JUndefined | JNull => Throw TypeError
  | _ => Ok JUndefined
  end.
Definition set_of (v : Value) (name : string) (w : Value) : result Value :=
  match v with
  | JObject props => Ok (JObject (set_prop props name w))
  | JArray _ | JBytes _ | JStream _ => Ok v
  | _ => Throw TypeError
  end.

Fixpoint assoc {A} (l : list (string * A)) (name : string) : option A :=
  match l with
  | [] => None
  | (n, a) :: rest => if decide (n = name) then Some a else assoc rest name
  end.

(** The entries a list of names selects. *)
Fixpoint select {A} (entries : list (string * A)) (names : list string) : list (string * A) :=
  match names with
  | [] => []
  | name :: rest =>
      match assoc entries name with
      | Some e => (name, e) :: select entries rest
      | None => select entries rest
      end
  end.

(** The entries no name of a list mentions. *)
Definition unselected {A} (entries : list (string * A)) (names : list string) : list (string * A) :=
  List.filter (fun e => negb (bool_decide (e.1 ∈ names))) entries.

(** The constructor: repeated fields need a list. *)
Definition newObject (fields : list (string * Field)) (type : ObjectType)
  (allowProtocolSpecificTags preserveDataOrdering : bool) : result Schema :=
  let* _ := throw_if (bool_decide (type = Structure) && existsb (fun nf => f_repeated nf.2) fields) PlainError in
  Ok (SObject fields type allowProtocolSpecificTags preserveDataOrdering).

Definition TlvObject (fields : list (string * Field)) : result Schema := newObject fields Structure false false.
Definition TlvTaggedList (fields : list (string * Field)) (allow : bool) : result Schema :=
  newObject fields List allow false.
Definition TlvTaggedListPreservingOrder (fields : list (string * Field)) (allow : bool) : result Schema :=
  newObject fields List allow true.

Definition TlvField (id : Z) (schema : Schema) (fallback : option Value) : Field :=
  mkField id schema false false fallback None None.
Definition TlvOptionalField (id : Z) (schema : Schema) : Field := mkField id schema true false None None None.
Definition TlvRepeatedField (id : Z) (schema : Schema) (minLength maxLength length : option Z) : Field :=
  mkField id schema false true None
    (match length with Some l => Some l | None => minLength end)
    (match length with Some l => Some l | None => maxLength end).
Definition TlvOptionalRepeatedField (id : Z) (schema : Schema) (maxLength : option Z) : Field :=
  mkField id schema true true None (Some 0) maxLength.

(** [StringSchema]'s constructor and [bound]. *)
Definition newString (type : StringType) (minLength maxLength : Z) : result Schema :=
  let* _ := throw_if (minLength <? 0) ImplementationError in
  let* _ := throw_if (maxLength <? 0) ImplementationError in
  let* _ := throw_if (maxLength <? minLength) ImplementationError in
  Ok (SString type minLength maxLength).

Definition DEFAULT_MAX_STRING_LENGTH : Z := 65536.
Definition TlvByteString := SString ByteString 0 DEFAULT_MAX_STRING_LENGTH.
Definition TlvString := SString Utf8String 0 DEFAULT_MAX_STRING_LENGTH.

Definition or_else (a b : option Z) (c : Z) : Z :=
  match a with Some x => x | None => default c b end.

Definition bound_string (type : StringType) (own_min own_max : Z) (minLength maxLength length : option Z)
  : result Schema :=
  newString type (or_else length minLength own_min) (or_else length maxLength own_max).

Definition TlvArray (elementSchema : Schema) (minLength maxLength length : option Z) : Schema :=
  SArray elementSchema (or_else length minLength 0) (or_else length maxLength 65535).

(** ** Bitmaps *)

Definition bit_value (v : Value) : option BitValue :=
  match v with JBool b => Some (VBool b) | JInt z => Some (VNum z) | _ => None end.
Definition of_bit_value (v : BitValue) : Value := match v with VBool b => JBool b | VNum z => JInt z end.

Fixpoint bit_values (props : list (string * Value)) : BitValues :=
  match props with
  | [] => []
  | (n, v) :: rest => match bit_value v with Some b => (n, b) :: bit_values rest | None => bit_values rest end
  end.

Definition bitmap_wrap (bits : BitSchema) (v : Value) : result Z :=
  match v with
  | JObject props => Ok (BitmapSchema.encodeInternal bits (bit_values props))
  | JUndefined | JNull => Throw TypeError
  | _ => Ok (BitmapSchema.encodeInternal bits [])
  end.
Definition bitmap_unwrap (bits : BitSchema) (z : Z) : Value :=
  JObject (map (fun nv => (nv.1, of_bit_value nv.2)) (BitmapSchema.decodeInternal bits z)).

(** ** Encoding *)

Section Encode.
Context {W : Type} `{TlvWriter W}.

Definition Encoder : Type := W -> Value -> option TlvTag -> TlvEncodingOptions -> result W.

Definition context_tag (id : Z) : option TlvTag := Some (mkTag None (Some id)).

(** A [forEach] over the elements of an array. *)
Fixpoint encode_each (encode : Encoder) (tag : option TlvTag) (o : TlvEncodingOptions) (l : list Value) (writer : W)
  : result W :=
  match l with
  | [] => Ok writer
  | v :: rest => let* writer := encode writer v tag o in encode_each encode tag o rest writer
  end.

Definition encodeEntryToTlv (name : string) (field : Field) (encode : Encoder) (writer : W) (value : Value)
  (o : TlvEncodingOptions) : result W :=
  let* _ := throw_if (forWriteInteraction o && allowMissingFieldsForNonFabricFilteredRead o) InternalError in
  if forWriteInteraction o && (f_id field =? FABRIC_INDEX_ID) then Ok writer
  else
    let* fieldValue := get_of value name in
    if is_undefined fieldValue then
      let* _ := throw_if (negb (f_optional field) && negb (allowMissingFieldsForNonFabricFilteredRead o))
                  ValidationError in
      Ok writer
    else if f_repeated field then
      match fieldValue with
      | JArray l => encode_each encode (context_tag (f_id field)) o l writer
      | _ => Throw ValidationError
      end
    else encode writer fieldValue (context_tag (f_id field)) o.

(** The fields of an object, each with the encoder of its schema. *)
Abbreviation Entries := (list (string * (Field * Encoder))).

Fixpoint encodeStructure (entries : Entries) (value : Value) (o : TlvEncodingOptions) (writer : W) : result W :=
  match entries with
  | [] => Ok writer
  | (name, (field, encode)) :: rest =>
      let* writer := encodeEntryToTlv name field encode writer value o in
      encodeStructure rest value o writer
  end.

Definition object_keys (value : Value) : result (list string) :=
  match value with
  | JObject props => Ok (map fst props)
  | JUndefined | JNull => Throw TypeError
  | _ => Ok []
  end.

Definition encodeList (entries : Entries) (preserveDataOrdering : bool) (value : Value) (o : TlvEncodingOptions)
  (writer : W) : result W :=
  let* valueKeys := object_keys value in
  let* _ := throw_if (existsb (fun k => negb (is_some (assoc entries k))) valueKeys) ValidationError in
  if preserveDataOrdering then
    let* writer := encodeStructure (select entries valueKeys) value o writer in
    encodeStructure (unselected entries valueKeys) value o writer
  else encodeStructure entries value o writer.

Definition string_type (type : StringType) (length : TlvLength) : TlvTypeLength :=
  match type with Utf8String => TUtf8String length | ByteString => TByteString length end.
Definition object_type (type : ObjectType) : TlvTypeLength :=
  match type with Structure => TStructure | List => TList end.

Definition encodeNumber (n : Numeric) : Encoder := fun writer v tag _ =>
  match v with
  | JInt z =>
      let typeLength := numeric_typeLength n z in
      let* writer := writer_writeTag writer typeLength tag in
      writer_writePrimitive writer typeLength (Some (VInt z))
  | _ => Throw TypeError
  end.

(** [value.length] of a string counts UTF-16 code units. *)
Definition encodeString (type : StringType) : Encoder := fun writer v tag _ =>
  let write length primitive :=
    let typeLength := string_type type (getUIntTlvLength length) in
    let* writer := writer_writeTag writer typeLength tag in
    writer_writePrimitive writer typeLength (Some primitive) in
  match v with
  | JString s => write (Z.of_nat (length s)) (VString s)
  | JBytes bs => write (byteLength bs) (VBytes bs)
  | _ => Throw TypeError
  end.

Fixpoint encodeTlvInternal (schema : Schema) (writer : W) (v : Value) (tag : option TlvTag)
  (o : TlvEncodingOptions) : result W :=
  match schema with
  | SNumber n => encodeNumber n writer v tag o
  | SFloat length _ _ =>
      match v with
      | JFloat bits =>
          let* writer := writer_writeTag writer (TFloat length) tag in
          writer_writePrimitive writer (TFloat length) (Some (VFloat bits))
      | _ => Throw TypeError
      end
  | SBoolean =>
      match v with
      | JBool b => writer_writeTag writer (TBoolean b) tag
      | _ => Throw TypeError
      end
  | SString type _ _ => encodeString type writer v tag o
  | SNullable schema =>
      match v with
      | JNull => writer_writeTag writer TNull tag
      | _ => encodeTlvInternal schema writer v tag o
      end
  | SArray elementSchema _ _ =>
      match v with
      | JArray l =>
          let* writer := writer_writeTag writer TArray tag in
          let* writer := encode_each (encodeTlvInternal elementSchema) None o l writer in
          writer_writeTag writer TEndOfContainer None
      | _ => Throw TypeError
      end
  | SObject fields type _ preserveDataOrdering =>
      let* writer := writer_writeTag writer (object_type type) tag in
      let entries := map (fun nf => (nf.1, (nf.2, encodeTlvInternal (f_schema nf.2)))) fields in
      let* writer := match type with
                     | Structure => encodeStructure entries v o writer
                     | List => encodeList entries preserveDataOrdering v o writer
                     end in
      writer_writeTag writer TEndOfContainer None
  | SBitmap n bits => let* z := bitmap_wrap bits v in encodeNumber n writer (JInt z) tag o
  | SWrapper underlying wrap _ => let* w := wrap v in encodeTlvInternal underlying writer w tag o
  | SAny =>
      match v with
      | JStream s => TlvAny.encodeTlvInternal writer s tag
      | _ => Throw TypeError
      end
  | SVoid => Ok writer
  end.

End Encode.

(** ** Decoding *)

Section Decode.
Context {R : Type} `{TlvReader R}.

(** [reader.options?.relaxNumberTypeChecks]. *)
Variable relax : bool.

(** Fuel of the container loops. *)
Variable fuel : nat.

Definition Decoder : Type := R -> TlvTypeLength -> result (Value * R).

Definition is_integer (tl : TlvTypeLength) : bool :=
  match tl with TSignedInt _ | TUnsignedInt _ => true | _ => false end.
Definition same_sign (n : Numeric) (tl : TlvTypeLength) : bool :=
  match tl with TSignedInt _ => signed n | TUnsignedInt _ => negb (signed n) | _ => false end.

(** The integer a reader yields for an integer element. *)
Definition read_int (reader : R) (tl : TlvTypeLength) : result (Z * R) :=
  let* (v, reader) := reader_readPrimitive tl reader in
  match v with Some (VInt z) => Ok (z, reader) | _ => Throw TypeError end.

(** [TlvNumericSchema], and the conversion of [TlvNumberSchema]. *)
Definition decodeNumber (n : Numeric) : R -> TlvTypeLength -> result (Z * R) := fun reader tl =>
  let* (z, reader) :=
    if same_sign n tl then read_int reader tl
    else
      let* _ := throw_if (negb relax || negb (is_integer tl)) UnexpectedDataError in
      let* (z, reader) := read_int reader tl in
      let* _ := validateBoundaries n z in
      Ok (z, reader) in
  Ok (if isNumber n then toNumber z else z, reader).

Definition INFORMATION_SEPARATOR_1 : Z := 0x1f.

Fixpoint indexOf (c : Z) (s : list Z) : option nat :=
  match s with
  | [] => None
  | x :: rest => if x =? c then Some O else S <$> indexOf c rest
  end.

Definition decodeString (type : StringType) (maxLength : Z) : Decoder := fun reader tl =>
  match type, tl with
  | Utf8String, TUtf8String _ =>
      let* (v, reader) := reader_readPrimitive tl reader in
      match v with
      | Some (VString s) =>
          match indexOf INFORMATION_SEPARATOR_1 s with
          | Some separatorIndex =>
              let* _ := throw_if (maxLength <? Z.of_nat (length s)) ValidationError in
              Ok (JString (take separatorIndex s), reader)
          | None => Ok (JString s, reader)
          end
      | _ => Throw TypeError
      end
  | ByteString, TByteString _ =>
      let* (v, reader) := reader_readPrimitive tl reader in
      match v with Some (VBytes bs) => Ok (JBytes bs, reader) | _ => Throw TypeError end
  | _, _ => Throw UnexpectedDataError
  end.

(** What a nullable schema makes of an empty string or array. *)
Definition empty_as_null (schema : Schema) (v : Value) : Value :=
  match schema, v with
  | SString ByteString _ _, JBytes [] => JNull
  | SString Utf8String minLength _, JString [] => if 0 <? minLength then JNull else v
  | SArray _ minLength _, JArray [] => if 0 <? minLength then JNull else v
  | _, _ => v
  end.

Fixpoint decode_elements (n : nat) (decode : Decoder) (reader : R) (result : list Value)
  : Prelude.result (list Value * R) :=
  match n with
  | O => Throw OutOfFuel
  | S n =>
      let* ((elementTag, elementTypeLength), reader) := reader_readTagType reader in
      let* _ := throw_if (is_some elementTag) UnexpectedDataError in
      if decide (elementTypeLength = TEndOfContainer) then Ok (result, reader)
      else
        let* (v, reader) := decode reader elementTypeLength in
        decode_elements n decode reader (result ++ [v])
  end.

(** The fields of an object by id, each with the decoder of its schema; of two
    fields with one id the later counts. *)
Abbreviation FieldById := (list (Z * (string * bool * Decoder))).

Fixpoint by_id (fields : FieldById) (id : Z) : option (string * bool * Decoder) :=
  match fields with
  | [] => None
  | (i, f) :: rest =>
      match by_id rest id with Some g => Some g | None => if i =? id then Some f else None end
  end.

Definition add_repeated (result : list (string * Value)) (name : string) (decoded : Value)
  : Prelude.result (list (string * Value)) :=
  match prop result name with
  | JUndefined => Ok (set_prop result name (JArray [decoded]))
  | JArray l => Ok (set_prop result name (JArray (l ++ [decoded])))
  | _ => Throw TypeError
  end.

Fixpoint decode_fields (n : nat) (fields : FieldById) (allowProtocolSpecificTags : bool) (reader : R)
  (result : list (string * Value)) : Prelude.result (list (string * Value) * R) :=
  match n with
  | O => Throw OutOfFuel
  | S n =>
      let* ((tag, elementTypeLength), reader) := reader_readTagType reader in
      let '(mkTag profile id) := default (mkTag None None) tag in
      if decide (elementTypeLength = TEndOfContainer) then Ok (result, reader)
      else
        let* _ := throw_if (is_some profile && negb allowProtocolSpecificTags) UnexpectedDataError in
        match id with
        | None => Throw UnexpectedDataError
        | Some id =>
            match by_id fields id with
            | None =>
                let* (_, reader) := TlvAny.decodeTlvValueRec fuel reader elementTypeLength [] None in
                decode_fields n fields allowProtocolSpecificTags reader result
            | Some (name, repeated, decode) =>
                let* (decoded, reader) := decode reader elementTypeLength in
                let* result := if repeated then add_repeated result name decoded
                               else Ok (set_prop result name decoded) in
                decode_fields n fields allowProtocolSpecificTags reader result
            end
        end
  end.

(** Missing mandatory fields take their fallback. *)
Fixpoint apply_fallbacks (fields : list (string * Field)) (result : list (string * Value)) : list (string * Value) :=
  match fields with
  | [] => result
  | (name, f) :: rest =>
      apply_fallbacks rest
        (if f_optional f then result
         else if is_undefined (prop result name) then
           match f_fallback f with
           | Some v => set_prop result name (if f_repeated f then JArray [v] else v)
           | None => result
           end
         else result)
  end.

Fixpoint decodeTlvInternalValue (schema : Schema) (reader : R) (tl : TlvTypeLength) : result (Value * R) :=
  match schema with
  | SNumber n => let* (z, reader) := decodeNumber n reader tl in Ok (JInt z, reader)
  | SFloat _ _ _ =>
      match tl with
      | TFloat _ =>
          let* (v, reader) := reader_readPrimitive tl reader in
          match v with Some (VFloat bits) => Ok (JFloat bits, reader) | _ => Throw TypeError end
      | _ => Throw UnexpectedDataError
      end
  | SBoolean =>
      match tl with TBoolean b => Ok (JBool b, reader) | _ => Throw UnexpectedDataError end
  | SString type _ maxLength => decodeString type maxLength reader tl
  | SNullable schema =>
      if decide (tl = TNull) then Ok (JNull, reader)
      else
        let* (v, reader) := decodeTlvInternalValue schema reader tl in
        Ok (empty_as_null schema v, reader)
  | SArray elementSchema _ _ =>
      if decide (tl = TArray) then
        let* (l, reader) := decode_elements fuel (decodeTlvInternalValue elementSchema) reader [] in
        Ok (JArray l, reader)
      else Throw UnexpectedDataError
  | SObject fields type allowProtocolSpecificTags _ =>
      if decide (tl = object_type type) then
        let decoders := map (fun nf => (f_id nf.2, (nf.1, f_repeated nf.2, decodeTlvInternalValue (f_schema nf.2))))
                          fields in
        let* (result, reader) := decode_fields fuel decoders allowProtocolSpecificTags reader [] in
        Ok (JObject (apply_fallbacks fields result), reader)
      else Throw UnexpectedDataError
  | SBitmap n bits => let* (z, reader) := decodeNumber n reader tl in Ok (bitmap_unwrap bits z, reader)
  | SWrapper underlying _ unwrap =>
      let* (v, reader) := decodeTlvInternalValue underlying reader tl in
      let* v := unwrap v in
      Ok (v, reader)
  | SAny =>
      let* (s, reader) := TlvAny.decodeTlvValueRec fuel reader tl [] None in
      Ok (JStream s, reader)
  | SVoid => Throw InternalError
  end.

Definition decodeTlvInternal (schema : Schema) (reader : R) : result (Value * option TlvTag) :=
  let* ((tag, tl), reader) := reader_readTagType reader in
  let* (v, _) := decodeTlvInternalValue schema reader tl in
  Ok (v, tag).

End Decode.

(** ** Validation *)

Definition validate_length (n minLength maxLength : Z) : result unit :=
  let* _ := throw_if (maxLength <? n) ValidationError in
  throw_if (n <? minLength) ValidationError.

(** A [forEach] of validations. *)
Fixpoint validate_each (validate : Value -> result unit) (l : list Value) : result unit :=
  match l with
  | [] => Ok tt
  | v :: rest => let* _ := validate v in validate_each validate rest
  end.

Definition validate_field (name : string) (f : Field) (validate : Value -> result unit) (value : Value)
  : result unit :=
  let* data := get_of value name in
  if is_undefined data then throw_if (negb (f_optional f)) ValidationError
  else if f_repeated f then
    match data with
    | JArray l =>
        let* _ := validate_length (Z.of_nat (length l)) (default 2 (f_minLength f)) (default 65535 (f_maxLength f)) in
        validate_each validate l
    | _ => Throw ValidationError
    end
  else validate data.

Fixpoint validate_fields (fields : list (string * (Field * (Value -> result unit)))) (value : Value) : result unit :=
  match fields with
  | [] => Ok tt
  | (name, (f, validate)) :: rest =>
      let* _ := validate_field name f validate value in
      validate_fields rest value
  end.

Definition validateString (type : StringType) (minLength maxLength : Z) (v : Value) : result unit :=
  match type, v with
  | Utf8String, JString s =>
      let* _ := throw_if (existsb (Z.eqb INFORMATION_SEPARATOR_1) s) ValidationError in
      validate_length (Z.of_nat (length s)) minLength maxLength
  | ByteString, JBytes bs => validate_length (byteLength bs) minLength maxLength
  | _, _ => Throw ValidationError
  end.

Fixpoint validate (schema : Schema) (v : Value) : result unit :=
  match schema with
  | SNumber n => match v with JInt z => validateBoundaries n z | _ => Throw ValidationError end
  | SFloat _ min max =>
      match v with
      | JFloat bits =>
          let* _ := throw_if (float_lt bits min) ValidationError in
          throw_if (float_lt max bits) ValidationError
      | _ => Throw ValidationError
      end
  | SBoolean => match v with JBool _ => Ok tt | _ => Throw ValidationError end
  | SString type minLength maxLength => validateString type minLength maxLength v
  | SNullable schema => match v with JNull => Ok tt | _ => validate schema v end
  | SArray elementSchema minLength maxLength =>
      match v with
      | JArray l =>
          let* _ := validate_length (Z.of_nat (length l)) minLength maxLength in
          validate_each (validate elementSchema) l
      | _ => Throw ValidationError
      end
  | SObject fields _ _ _ =>
      validate_fields (map (fun nf => (nf.1, (nf.2, validate (f_schema nf.2)))) fields) v
  | SBitmap n bits => let* z := bitmap_wrap bits v in validateBoundaries n z
  | SWrapper underlying wrap _ => let* w := wrap v in validate underlying w
  | SAny => match v with JStream _ => Ok tt | _ => Throw ValidationError end
  | SVoid => match v with JUndefined => Ok tt | _ => Throw ValidationError end
  end.

(** ** Entry points *)

Definition encodeInternal (schema : Schema) (v : Value) : result (list Z) :=
  let* w := encodeTlvInternal schema (Writer.new true) v None no_options in
  let* (bs, _) := Writer.toByteArray w in
  Ok bs.

Definition decodeInternal (schema : Schema) (encoded : list Z) : result Value :=
  let reader := Reader.new encoded true in
  let* (v, _) := decodeTlvInternal false (decode_fuel reader) schema reader in
  Ok v.

(** [Schema.encode] and [Schema.decode]. *)
Definition encode (schema : Schema) (v : Value) : result (list Z) :=
  let* _ := validate schema v in
  encodeInternal schema v.

Definition decode (schema : Schema) (encoded : list Z) (check : bool) : result Value :=
  let* v := decodeInternal schema encoded in
  let* _ := if check then validate schema v else Ok tt in
  Ok v.

(** [ObjectSchemaWithMaxSize.encode]. *)
Definition encode_with_max_size (schema : Schema) (maxSize : Z) (v : Value) : result (list Z) :=
  let* encoded := encode schema v in
  let* _ := throw_if (maxSize <? byteLength encoded) ImplementationError in
  Ok encoded.

Definition encodeTlv (schema : Schema) (v : Value) (o : TlvEncodingOptions) : result TlvStream :=
  let* w := encodeTlvInternal schema (mkArrayWriter []) v None o in
  Ok (tlvArray w).

(** The element reader makes progress. *)
Definition array_size (r : ArrayReader) : nat := Z.to_nat (Z.of_nat (length (tlvElements r)) - (index r + 1)).

#[global] Program Instance TlvArrayReaderProgress : TlvReaderProgress ArrayReader := {
  reader_size := array_size;
}.
Next Obligation.
  intros r x r'. cbn. destruct (tlvElements r !! _) as [e|] eqn:E; [|done].
  intros [= _ <-]. apply lookup_lt_Some in E. unfold array_size. cbn. lia.
Qed.
Next Obligation.
  intros tl r x r'. cbn. destruct (tlvElements r !! _); [|done]. by intros [= _ <-].
Qed.
Next Obligation. intros r. cbn. by destruct (tlvElements r !! _). Qed.
Next Obligation. intros tl r. cbn. by destruct (tlvElements r !! _). Qed.

Definition decodeTlv (relax : bool) (schema : Schema) (encoded : TlvStream) : result Value :=
  match schema with
  | SVoid => Ok JUndefined
  | _ =>
      let reader := mkArrayReader encoded (-1) in
      let* (v, _) := decodeTlvInternal relax (decode_fuel reader) schema reader in
      Ok v
  end.

(** ** Chunked arrays *)

Inductive ListIndex := IUndefined | INull | IAt (i : Z).

Record ArrayChunkData := mkChunk { listIndex : ListIndex; element : TlvStream }.

(** [array[i] = v]: past the end the array grows with holes. *)
Definition array_put (l : list Value) (i : Z) (v : Value) : list Value :=
  let i := Z.to_nat i in
  if (i <? length l)%nat then <[i := v]> l
  else l ++ replicate (i - length l) JUndefined ++ [v].

Definition splice1 (l : list Value) (i : Z) : list Value := delete (Z.to_nat i) l.

Section Chunked.
Variable relax : bool.
Variables (elementSchema : Schema) (minLength maxLength : Z).

Definition apply_chunk (currentValue : list Value) (chunk : ArrayChunkData) : result (list Value) :=
  match listIndex chunk with
  | IUndefined =>
      let* v := decodeTlv relax (SArray elementSchema minLength maxLength) (element chunk) in
      match v with JArray l => Ok l | _ => Throw TypeError end
  | INull => let* v := decodeTlv relax elementSchema (element chunk) in Ok (currentValue ++ [v])
  | IAt i =>
      match element chunk with
      | [] => Throw TypeError
      | e :: _ =>
          if decide (typeLength e = TNull) then Ok (splice1 currentValue i)
          else let* v := decodeTlv relax elementSchema (element chunk) in Ok (array_put currentValue i v)
      end
  end.

Fixpoint apply_chunks (currentValue : list Value) (chunks : list ArrayChunkData) : result (list Value) :=
  match chunks with
  | [] => Ok currentValue
  | c :: rest => let* currentValue := apply_chunk currentValue c in apply_chunks currentValue rest
  end.

Definition decodeFromChunkedArray (chunks : list ArrayChunkData) (currentValue : option (list Value))
  : result (list Value) :=
  match currentValue, chunks with
  | None, [] => Throw TypeError
  | None, c :: _ =>
      match listIndex c with
      | IUndefined => apply_chunks [] chunks
      | _ => Throw UnexpectedDataError
      end
  | Some current, _ => apply_chunks current chunks
  end.

Fixpoint encode_chunks (o : TlvEncodingOptions) (l : list Value) : result (list ArrayChunkData) :=
  match l with
  | [] => Ok []
  | v :: rest =>
      let* s := encodeTlv elementSchema v o in
      let* chunks := encode_chunks o rest in
      Ok (mkChunk INull s :: chunks)
  end.

Definition encodeAsChunkedArray (value : list Value) (o : TlvEncodingOptions) : result (list ArrayChunkData) :=
  let* empty := encodeTlv (SArray elementSchema minLength maxLength) (JArray []) o in
  let* chunks := encode_chunks o value in
  Ok (mkChunk IUndefined empty :: chunks).

End Chunked.

(** ** Injecting and removing fields *)

Definition Update : Type := Value -> result Value.

(** [value.forEach((item, index) => value[index] = f(item))]. *)
Fixpoint update_each (update : Update) (l : list Value) : result (list Value) :=
  match l with
  | [] => Ok []
  | v :: rest =>
      let* v := update v in
      let* rest := update_each update rest in
      Ok (v :: rest)
  end.

Section Inject.
Variables (fieldId : Z) (fieldValue : Value) (injectChecker : Value -> bool).

Fixpoint inject_fields (fields : list (string * (Field * Update))) (value : Value) : result Value :=
  match fields with
  | [] => Ok value
  | (k, (f, inject)) :: rest =>
      let* fieldValueOfK := get_of value k in
      let* value :=
        if f_id f =? fieldId then
          if injectChecker fieldValueOfK then
            let* _ := validate (f_schema f) fieldValue in
            set_of value k fieldValue
          else Ok value
        else if negb (is_nullish fieldValueOfK) then
          let* v := inject fieldValueOfK in
          set_of value k v
        else Ok value in
      inject_fields rest value
  end.

Fixpoint injectField (schema : Schema) (value : Value) : result Value :=
  match schema with
  | SNullable schema => match value with JNull => Ok value | _ => injectField schema value end
  | SArray elementSchema _ _ =>
      match value with
      | JArray l => let* l := update_each (injectField elementSchema) l in Ok (JArray l)
      | _ => Ok value
      end
  | SObject fields _ _ _ =>
      inject_fields (map (fun nf => (nf.1, (nf.2, injectField (f_schema nf.2)))) fields) value
  | _ => Ok value
  end.

End Inject.

Section Remove.
Variables (fieldId : Z) (removeChecker : Value -> bool).

Definition delete_of (v : Value) (name : string) : Value :=
  match v with JObject props => JObject (delete_prop props name) | _ => v end.

Fixpoint remove_fields (fields : list (string * (Field * Update))) (value : Value) : result Value :=
  match fields with
  | [] => Ok value
  | (k, (f, remove)) :: rest =>
      let* fieldValueOfK := get_of value k in
      let* value :=
        if f_id f =? fieldId then
          Ok (if negb (is_undefined fieldValueOfK) && removeChecker fieldValueOfK then delete_of value k else value)
        else if negb (is_nullish fieldValueOfK) then
          let* v := remove fieldValueOfK in
          set_of value k v
        else Ok value in
      remove_fields rest value
  end.

Fixpoint removeField (schema : Schema) (value : Value) : result Value :=
  match schema with
  | SNullable schema => match value with JNull => Ok value | _ => removeField schema value end
  | SArray elementSchema _ _ =>
      match value with
      | JArray l => let* l := update_each (removeField elementSchema) l in Ok (JArray l)
      | _ => Ok value
      end
  | SObject fields _ _ _ =>
      remove_fields (map (fun nf => (nf.1, (nf.2, removeField (f_schema nf.2)))) fields) value
  | _ => Ok value
  end.

End Remove.

(** ** Epoch times *)

Definition MATTER_EPOCH_OFFSET_S : Z := 10957 * 86400.
Definition MATTER_EPOCH_OFFSET_US : Z := 10957 * 86400 * 1000 * 1000.

Definition int_map (f : Z -> result Z) (v : Value) : result Value :=
  match v with JInt z => let* z := f z in Ok (JInt z) | _ => Throw TypeError end.

Definition since_epoch (offset unixEpoch : Z) : result Z :=
  let value := unixEpoch - offset in
  let* _ := throw_if (value <? 0) ImplementationError in
  Ok value.

Definition TlvEpochS : Schema :=
  SWrapper (SNumber (newNumeric false true false 0 (2 ^ 32 - 1 + MATTER_EPOCH_OFFSET_S) None None))
    (int_map (since_epoch MATTER_EPOCH_OFFSET_S)) (int_map (fun s => Ok (s + MATTER_EPOCH_OFFSET_S))).

Definition TlvEpochUs : Schema :=
  SWrapper (SNumber (newNumeric false false true 0 (2 ^ 64 - 1 + MATTER_EPOCH_OFFSET_US) None None))
    (int_map (since_epoch MATTER_EPOCH_OFFSET_US)) (int_map (fun us => Ok (us + MATTER_EPOCH_OFFSET_US))).
