(* ===== verification/TlvRoundTrip.v ===== *)
(** * Round trips of the TLV schemas

    What an encoding of TlvSchemas.v reads back as: the reference functions
    [elements] (the element stream of a value) and [canon] (the value a reader
    obtains), and the proofs that the schema encoder writes the former and the
    schema decoder returns the latter, over the byte codec and over element
    arrays alike. *)

From S2P Require Import Prelude DataIO CodecLib BitmapSchema Text TlvCodec TlvAny TlvSchemas.

#[local] Abbreviation length := Datatypes.length.

(** ** What an encoding reads back as *)

(** Induction over schemas, through the fields of objects. *)
Fixpoint Schema_nested_ind (P : Schema -> Prop)
  (HNumber : forall n, P (SNumber n)) (HFloat : forall l min max, P (SFloat l min max)) (HBoolean : P SBoolean)
  (HString : forall t min max, P (SString t min max)) (HNullable : forall s, P s -> P (SNullable s))
  (HArray : forall s min max, P s -> P (SArray s min max))
  (HObject : forall fields t a p, Forall (fun nf => P (f_schema nf.2)) fields -> P (SObject fields t a p))
  (HBitmap : forall n bits, P (SBitmap n bits)) (HWrapper : forall s w u, P s -> P (SWrapper s w u))
  (HAny : P SAny) (HVoid : P SVoid) (s : Schema) : P s :=
  let rec := Schema_nested_ind P HNumber HFloat HBoolean HString HNullable HArray HObject HBitmap HWrapper HAny HVoid in
  match s with
  | SNumber n => HNumber n
  | SFloat l min max => HFloat l min max
  | SBoolean => HBoolean
  | SString t min max => HString t min max
  | SNullable s => HNullable s (rec s)
  | SArray s min max => HArray s min max (rec s)
  | SObject fields t a p =>
      HObject fields t a p
        ((fix go (l : list (string * Field)) : Forall (fun nf => P (f_schema nf.2)) l :=
            match l with
            | [] => Forall_nil_2 _
            | (name, mkField i s o r f mi ma) :: rest =>
                Forall_cons_2 _ (name, mkField i s o r f mi ma) rest (rec s) (go rest)
            end) fields)
  | SBitmap n bits => HBitmap n bits
  | SWrapper s w u => HWrapper s w u (rec s)
  | SAny => HAny
  | SVoid => HVoid
  end.

(** The order in which an object's fields are written. *)
Definition field_order {A} (entries : list (string * A)) (type : ObjectType) (preserve : bool)
  (keys : list string) : list (string * A) :=
  match type, preserve with
  | List, true => select entries keys ++ unselected entries keys
  | _, _ => entries
  end.

Definition end_marker : TlvElement := mkElement None TEndOfContainer None.

Definition field_elements (els : Value -> option TlvTag -> TlvStream) (f : Field) (x : Value) : TlvStream :=
  if is_undefined x then []
  else if f_repeated f then
    match x with JArray l => concat (map (fun y => els y (context_tag (f_id f))) l) | _ => [] end
  else els x (context_tag (f_id f)).

(** The elements an encoding consists of. *)
Fixpoint elements (s : Schema) (v : Value) (tag : option TlvTag) : TlvStream :=
  match s with
  | SNumber n =>
      match v with JInt z => [mkElement tag (numeric_typeLength n z) (Some (VInt z))] | _ => [] end
  | SFloat l _ _ => match v with JFloat b => [mkElement tag (TFloat l) (Some (VFloat b))] | _ => [] end
  | SBoolean => match v with JBool b => [mkElement tag (TBoolean b) (Some (VBoolean b))] | _ => [] end
  | SString t _ _ =>
      match v with
      | JString x => [mkElement tag (string_type t (getUIntTlvLength (Z.of_nat (length x)))) (Some (VString x))]
      | JBytes x => [mkElement tag (string_type t (getUIntTlvLength (byteLength x))) (Some (VBytes x))]
      | _ => []
      end
  | SNullable s => match v with JNull => [mkElement tag TNull (Some VNull)] | _ => elements s v tag end
  | SArray s _ _ =>
      match v with
      | JArray l => mkElement tag TArray None :: concat (map (fun x => elements s x None) l) ++ [end_marker]
      | _ => []
      end
  | SObject fields t _ p =>
      match v with
      | JObject props =>
          let entries := map (fun nf => (nf.1, (nf.2, elements (f_schema nf.2)))) fields in
          mkElement tag (object_type t) None ::
          concat (map (fun e => field_elements e.2.2 e.2.1 (prop props e.1)) (field_order entries t p (map fst props)))
          ++ [end_marker]
      | _ => []
      end
  | SBitmap n bits =>
      match bitmap_wrap bits v with
      | Ok z => [mkElement tag (numeric_typeLength n z) (Some (VInt z))]
      | Throw _ => []
      end
  | SWrapper s wrap _ => match wrap v with Ok w => elements s w tag | Throw _ => [] end
  | SAny => match v with JStream st => match tag with Some _ => with_tag tag st | None => st end | _ => [] end
  | SVoid => []
  end.

Definition canon_field (can : Value -> Value) (f : Field) (x : Value) : option Value :=
  if is_undefined x then None
  else if f_repeated f then
    match x with
    | JArray [] => None
    | JArray l => Some (JArray (map can l))
    | _ => None
    end
  else Some (can x).

(** The value an encoding reads back as: an object has the properties of its
    schema in the order they were written, an absent or empty repeated field
    is not there, a nullable schema may take an empty value for null. *)
Fixpoint canon (s : Schema) (v : Value) : Value :=
  match s with
  | SNullable s => match v with JNull => JNull | _ => empty_as_null s (canon s v) end
  | SArray s _ _ => match v with JArray l => JArray (map (canon s) l) | _ => v end
  | SObject fields t _ p =>
      match v with
      | JObject props =>
          let entries := map (fun nf => (nf.1, (nf.2, canon (f_schema nf.2)))) fields in
          JObject (apply_fallbacks fields
            (concat (map (fun e => match canon_field e.2.2 e.2.1 (prop props e.1) with
                                   | Some c => [(e.1, c)]
                                   | None => []
                                   end) (field_order entries t p (map fst props)))))
      | _ => v
      end
  | SBitmap _ bits => match bitmap_wrap bits v with Ok z => bitmap_unwrap bits z | Throw _ => v end
  | SWrapper s wrap unwrap =>
      match wrap v with
      | Ok w => match unwrap (canon s w) with Ok u => u | Throw _ => v end
      | Throw _ => v
      end
  | SAny => match v with JStream st => JStream (with_tag None st) | _ => v end
  | _ => v
  end.

(** An integer the element of a numeric schema can carry. *)
Definition number_fits (n : Numeric) (z : Z) : Prop :=
  (if signed n then - 2 ^ 63 <= z < 2 ^ 63 else 0 <= z < 2 ^ 64) /\
  (isNumber n = true -> Z.abs z < 2 ^ 53).

Definition field_fits (fits : Value -> Prop) (f : Field) (x : Value) : Prop :=
  if is_undefined x then f_optional f = true
  else if f_repeated f then exists l, x = JArray l /\ Forall fits l
  else fits x.

Section Fits.

(** Which raw streams the reader reproduces. *)
Variable raw : TlvStream -> bool.

(** The values a schema encodes faithfully.  Beyond the types: integers fit 64
    bits (numbers 53), a four-byte float is a binary32 value, a string has a
    UTF-8 form whose length fits the width chosen from its length in code
    units and holds no separator, the fields of an object have names and
    one-byte ids of their own. *)
Fixpoint fits (s : Schema) (v : Value) : Prop :=
  match s with
  | SNumber n => exists z, v = JInt z /\ number_fits n z
  | SFloat l _ _ => exists b, v = JFloat b /\ primitive_ok (TFloat l) (VFloat b)
  | SBoolean => exists b, v = JBool b
  | SString Utf8String _ _ =>
      exists x, v = JString x /\ indexOf INFORMATION_SEPARATOR_1 x = None /\
        primitive_ok (TUtf8String (getUIntTlvLength (Z.of_nat (length x)))) (VString x)
  | SString ByteString _ _ =>
      exists x, v = JBytes x /\ primitive_ok (TByteString (getUIntTlvLength (byteLength x))) (VBytes x)
  | SNullable s =>
      v = JNull \/ (v <> JNull /\ fits s v /\ forall t e rest, elements s v t = e :: rest -> typeLength e <> TNull)
  | SArray s _ _ => exists l, v = JArray l /\ Forall (fits s) l
  | SObject fields t _ p =>
      exists props, v = JObject props /\ NoDup (map fst fields) /\ NoDup (map (fun nf => f_id nf.2) fields) /\
        Forall (fun nf => 0 <= f_id nf.2 < 256) fields /\
        (t = List -> NoDup (map fst props) /\ Forall (fun k => is_Some (assoc fields k)) (map fst props)) /\
        (fix go (l : list (string * Field)) : Prop :=
           match l with
           | [] => True
           | (name, f) :: rest => field_fits (fits (f_schema f)) f (prop props name) /\ go rest
           end) fields
  | SBitmap n bits => exists z, bitmap_wrap bits v = Ok z /\ number_fits n z
  | SWrapper s wrap unwrap =>
      exists w u, wrap v = Ok w /\ fits s w /\ unwrap (canon s w) = Ok u
  | SAny => exists st, v = JStream st /\ complete st /\ raw st = true /\ with_tag None st = st
  | SVoid => False
  end.

Lemma fits_object fields t a p v :
  fits (SObject fields t a p) v <-> exists props, v = JObject props /\
  NoDup (map fst fields) /\ NoDup (map (fun nf => f_id nf.2) fields) /\
  Forall (fun nf => 0 <= f_id nf.2 < 256) fields /\
  (t = List -> NoDup (map fst props) /\ Forall (fun k => is_Some (assoc fields k)) (map fst props)) /\
  Forall (fun nf => field_fits (fits (f_schema nf.2)) nf.2 (prop props nf.1)) fields.
Proof.
  cbn [fits]. assert (forall props l, (fix go (l : list (string * Field)) : Prop :=
    match l with
    | [] => True
    | (name, f) :: rest => field_fits (fits (f_schema f)) f (prop props name) /\ go rest
    end) l <-> Forall (fun nf => field_fits (fits (f_schema nf.2)) nf.2 (prop props nf.1)) l) as E.
  { intros props. induction l as [|[name f] l IH]; [done|]. rewrite Forall_cons, IH. done. }
  split; intros (props & H); exists props; [by rewrite E in H|by rewrite E].
Qed.

End Fits.

(** ** Ordering of fields *)

Lemma assoc_map {A B} (g : A -> B) (l : list (string * A)) k :
  assoc (map (fun e => (e.1, g e.2)) l) k = g <$> assoc l k.
Proof. induction l as [|[n a] l IH]; [done|]. cbn. by case_decide. Qed.

Lemma field_order_map {A B} (g : A -> B) (l : list (string * A)) t p keys :
  field_order (map (fun e => (e.1, g e.2)) l) t p keys = map (fun e => (e.1, g e.2)) (field_order l t p keys).
Proof.
  destruct t; [done|]. destruct p; [|done]. cbn. rewrite map_app. f_equal.
  - induction keys as [|k keys IH]; [done|]. cbn. rewrite assoc_map. destruct (assoc l k); cbn; by rewrite IH.
  - unfold unselected. induction l as [|[n a] l IH]; [done|]. cbn. destruct (bool_decide _); cbn; by rewrite IH.
Qed.

Lemma assoc_elem {A} (l : list (string * A)) k a :
  NoDup (map fst l) -> assoc l k = Some a <-> (k, a) ∈ l.
Proof.
  induction l as [|[n b] l IH]; cbn; [by rewrite elem_of_nil|]. intros [Hn Hl]%NoDup_cons.
  rewrite elem_of_cons. case_decide as E.
  - subst. split; [intros [= ->]; by left|]. intros [[= ->]|H]; [done|]. destruct Hn.
    apply list_elem_of_fmap. by exists (k, a).
  - rewrite IH by done. split; [by right|]. intros [[= -> _]|H]; [done|done].
Qed.

Lemma select_elem {A} (l : list (string * A)) keys k a :
  NoDup (map fst l) -> (k, a) ∈ select l keys <-> k ∈ keys /\ (k, a) ∈ l.
Proof.
  intros Hl. induction keys as [|x keys IH]; cbn; [rewrite !elem_of_nil; tauto|].
  rewrite elem_of_cons. destruct (assoc l x) as [b|] eqn:E.
  - rewrite elem_of_cons, IH. pose proof (proj1 (assoc_elem l x b Hl) E). split.
    + intros [[= -> ->]|[? ?]]; tauto.
    + intros [[->|H1] H2]; [left|right; done]. apply assoc_elem in H2; [congruence|done].
  - rewrite IH. split; [tauto|]. intros [[->|H1] H2]; [|done].
    apply assoc_elem in H2; [congruence|done].
Qed.

Lemma select_names {A} (l : list (string * A)) keys :
  Forall (fun k => is_Some (assoc l k)) keys -> map fst (select l keys) = keys.
Proof. induction 1 as [|k keys [a Ha] _ IH]; [done|]. cbn. rewrite Ha. cbn. by rewrite IH. Qed.

Lemma unselected_elem {A} (l : list (string * A)) keys e : e ∈ unselected l keys <-> e ∈ l /\ (e.1 ∉ keys).
Proof.
  unfold unselected. rewrite list_elem_of_In, filter_In, negb_true_iff, bool_decide_eq_false, <- list_elem_of_In.
  done.
Qed.

Lemma unselected_NoDup {A} (l : list (string * A)) keys : NoDup (map fst l) -> NoDup (map fst (unselected l keys)).
Proof.
  unfold unselected. induction l as [|[n a] l IH]; [done|]. cbn. intros [Hn Hl]%NoDup_cons.
  destruct (negb _); [|by apply IH]. cbn. apply NoDup_cons. split; [|by apply IH].
  intros H. apply Hn. apply list_elem_of_fmap in H as (e & -> & He%list_elem_of_In%filter_In).
  apply list_elem_of_fmap. exists e. split; [done|]. apply list_elem_of_In, He.
Qed.

(** Each field is written once. *)
Lemma field_order_perm {A} (l : list (string * A)) t p keys :
  NoDup (map fst l) -> (t = List -> NoDup keys /\ Forall (fun k => is_Some (assoc l k)) keys) ->
  Permutation (field_order l t p keys) l.
Proof.
  intros Hl Hk. destruct t; [done|]. destruct p; [|done]. destruct (Hk eq_refl) as [Hkeys Hin]. cbn.
  assert (NoDup (map fst (select l keys ++ unselected l keys))) as Hnd.
  { rewrite map_app. apply NoDup_app. split_and!; [by rewrite select_names| |by apply unselected_NoDup].
    rewrite select_names by done. intros k H1 H2. apply list_elem_of_fmap in H2 as (e & -> & He).
    by apply unselected_elem in He as [_ He]. }
  apply NoDup_Permutation; [by eapply NoDup_fmap_1|by eapply NoDup_fmap_1|].
  intros [k a]. rewrite elem_of_app, select_elem, unselected_elem by done. cbn.
  destruct (decide (k ∈ keys)); tauto.
Qed.

Lemma elements_object fields t a p props tg :
  elements (SObject fields t a p) (JObject props) tg =
  mkElement tg (object_type t) None ::
  concat (map (fun nf => field_elements (elements (f_schema nf.2)) nf.2 (prop props nf.1))
            (field_order fields t p (map fst props))) ++ [end_marker].
Proof.
  cbn [elements]. rewrite (field_order_map (fun f => (f, elements (f_schema f)))), map_map. done.
Qed.

Lemma canon_object fields t a p props :
  canon (SObject fields t a p) (JObject props) =
  JObject (apply_fallbacks fields
    (concat (map (fun nf => match canon_field (canon (f_schema nf.2)) nf.2 (prop props nf.1) with
                            | Some c => [(nf.1, c)]
                            | None => []
                            end) (field_order fields t p (map fst props))))).
Proof.
  cbn [canon]. rewrite (field_order_map (fun f => (f, canon (f_schema f)))), map_map. done.
Qed.

Lemma field_fits_impl (P Q : Value -> Prop) f x : (forall y, P y -> Q y) -> field_fits P f x -> field_fits Q f x.
Proof.
  intros HPQ. unfold field_fits. destruct (is_undefined x), (f_repeated f); auto.
  intros (l & -> & Hl). exists l. split; [done|]. by eapply Forall_impl.
Qed.

(** ** The encoder writes the elements *)

Section EncodeElements.
Context {W : Type} `{TlvWriter W}.

Lemma any_app (w : W) s1 s2 :
  TlvAny.encodeTlvInternal w (s1 ++ s2) None =
  let* w := TlvAny.encodeTlvInternal w s1 None in TlvAny.encodeTlvInternal w s2 None.
Proof.
  revert w. induction s1 as [|e s1 IH]; intros w; [done|]. cbn [app TlvAny.encodeTlvInternal].
  destruct (encode_element w _ e); cbn [rbind]; [apply IH|done].
Qed.

Lemma any_single (w : W) e : TlvAny.encodeTlvInternal w [e] None = encode_element w (tag e) e.
Proof. cbn. by destruct (encode_element w (tag e) e). Qed.

Lemma any_cons (w : W) e st :
  TlvAny.encodeTlvInternal w (e :: st) None =
  let* w := encode_element w (tag e) e in TlvAny.encodeTlvInternal w st None.
Proof. done. Qed.

(** [enc] writes the elements [els] says. *)
Definition writes (enc : Encoder) (els : Value -> option TlvTag -> TlvStream) (x : Value) : Prop :=
  forall (w : W) t, enc w x t no_options = TlvAny.encodeTlvInternal w (els x t) None.

Lemma encode_each_writes (enc : Encoder) els t l (w : W) :
  Forall (writes enc els) l ->
  encode_each enc t no_options l w = TlvAny.encodeTlvInternal w (concat (map (fun x => els x t) l)) None.
Proof.
  intros Hl. revert w. induction Hl as [|x l Hx Hl IH]; intros w; [done|].
  cbn [encode_each map concat]. rewrite Hx, any_app.
  destruct (TlvAny.encodeTlvInternal w (els x t) None); cbn [rbind]; [apply IH|done].
Qed.

Lemma encodeEntry_writes name f (enc : Encoder) els props (w : W) :
  field_fits (writes enc els) f (prop props name) ->
  encodeEntryToTlv name f enc w (JObject props) no_options =
  TlvAny.encodeTlvInternal w (field_elements els f (prop props name)) None.
Proof.
  unfold field_fits, encodeEntryToTlv, field_elements. cbn [forWriteInteraction andb throw_if rbind get_of no_options
    allowMissingFieldsForNonFabricFilteredRead negb].
  destruct (is_undefined _) eqn:Eu.
  { intros ->. done. }
  destruct (f_repeated f).
  - intros (l & -> & Hl). by apply encode_each_writes.
  - intros Hx. apply Hx.
Qed.

Lemma encodeStructure_writes (entries : list (string * (Field * Encoder))) els props (w : W) :
  Forall (fun e => field_fits (writes e.2.2 (els e)) e.2.1 (prop props e.1)) entries ->
  encodeStructure entries (JObject props) no_options w =
  TlvAny.encodeTlvInternal w
    (concat (map (fun e => field_elements (els e) e.2.1 (prop props e.1)) entries)) None.
Proof.
  intros He. revert w. induction He as [|[name [f enc]] entries Hx He IH]; intros w; [done|].
  cbn [encodeStructure map concat fst snd]. rewrite (encodeEntry_writes _ _ _ (els (name, (f, enc)))) by done.
  rewrite any_app. destruct (TlvAny.encodeTlvInternal w _ None); cbn [rbind]; [apply IH|done].
Qed.

Lemma encodeStructure_app (e1 e2 : list (string * (Field * Encoder))) v o (w : W) :
  encodeStructure (e1 ++ e2) v o w = let* w := encodeStructure e1 v o w in encodeStructure e2 v o w.
Proof.
  revert w. induction e1 as [|[n [f enc]] e1 IH]; intros w; [done|]. cbn [app encodeStructure].
  destruct (encodeEntryToTlv n f enc w v o); cbn [rbind]; [apply IH|done].
Qed.

(** Whatever the container, the fields are encoded in their order. *)
Lemma encode_ordered (F : Field -> Encoder) fields t p props (w : W) :
  (t = List -> NoDup (map fst props) /\ Forall (fun k => is_Some (assoc fields k)) (map fst props)) ->
  let entries := map (fun nf => (nf.1, (nf.2, F nf.2))) fields in
  match t with
  | Structure => encodeStructure entries (JObject props) no_options w
  | List => encodeList entries p (JObject props) no_options w
  end =
  encodeStructure (map (fun nf => (nf.1, (nf.2, F nf.2))) (field_order fields t p (map fst props)))
    (JObject props) no_options w.
Proof.
  intros Hk entries. rewrite <- (field_order_map (fun f => (f, F f))). fold entries.
  destruct t; [done|]. destruct (Hk eq_refl) as [_ Hin]. unfold encodeList. cbn [object_keys rbind].
  assert (existsb (fun k => negb (is_some (assoc entries k))) (map fst props) = false) as ->.
  { apply not_true_iff_false. rewrite existsb_exists. intros (k & Hk1%list_elem_of_In & Hk2).
    rewrite Forall_forall in Hin. destruct (Hin k Hk1) as [f Hf].
    unfold entries in Hk2. rewrite (assoc_map (fun f => (f, F f))), Hf in Hk2. done. }
  cbn [throw_if rbind field_order]. destruct p; [|done]. by rewrite encodeStructure_app.
Qed.

Lemma encode_writes raw s v : fits raw s v -> writes (encodeTlvInternal s) (elements s) v.
Proof.
  revert v. induction s as [n|l min max| |t min max|s IH|s min max IH|fields t a p IH|n bits|s wr un IH| |]
    using Schema_nested_ind; intros v Hv w tg; cbn [fits] in Hv.
  - destruct Hv as (z & -> & _). cbn [encodeTlvInternal elements encodeNumber]. rewrite any_single.
    unfold encode_element, numeric_typeLength. cbn. by destruct (signed n).
  - destruct Hv as (b & -> & _). cbn [encodeTlvInternal elements]. by rewrite any_single.
  - destruct Hv as (b & ->). cbn [encodeTlvInternal elements]. by rewrite any_single.
  - destruct t.
    + destruct Hv as (x & -> & _). cbn [encodeTlvInternal elements encodeString]. by rewrite any_single.
    + destruct Hv as (x & -> & _). cbn [encodeTlvInternal elements encodeString]. by rewrite any_single.
  - destruct Hv as [-> |(Hn & Hf & _)]; cbn [encodeTlvInternal elements]; [by rewrite any_single|].
    destruct v; by (done || apply IH).
  - destruct Hv as (l & -> & Hl). cbn [encodeTlvInternal elements]. rewrite any_cons.
    cbn [encode_element is_bare typeLength tag]. destruct (writer_writeTag w TArray tg); cbn [rbind]; [|done].
    rewrite any_app, (encode_each_writes _ (elements s)).
    2: { eapply Forall_impl; [exact Hl|]. intros x Hx. by apply IH. }
    destruct (TlvAny.encodeTlvInternal a _ None); cbn [rbind]; [|done]. by rewrite any_single.
  - apply (fits_object raw fields t a p) in Hv as (props & -> & Hn & _ & _ & Hk & Hf).
    rewrite elements_object. cbn [encodeTlvInternal]. rewrite any_cons.
    assert (is_bare (object_type t) = true) as Hb by (by destruct t).
    unfold encode_element. cbn [typeLength tag]. rewrite Hb.
    destruct (writer_writeTag w (object_type t) tg) as [w1|]; cbn [rbind]; [|done].
    rewrite (encode_ordered (fun f => encodeTlvInternal (f_schema f)) fields t p props w1 Hk).
    rewrite any_app, (encodeStructure_writes _ (fun e => elements (f_schema e.2.1))), map_map.
    + destruct (TlvAny.encodeTlvInternal w1 _ None); cbn [rbind]; [|done]. by rewrite any_single.
    + apply Forall_map. rewrite (field_order_perm fields t p _ Hn Hk).
      rewrite Forall_forall in IH, Hf |- *. intros nf Hin. eapply field_fits_impl; [|by apply Hf].
      intros y Hy. by apply IH.
  - destruct Hv as (z & Hz & _). cbn [encodeTlvInternal elements]. rewrite Hz. cbn [rbind encodeNumber].
    rewrite any_single. unfold encode_element, numeric_typeLength. cbn. by destruct (signed n).
  - destruct Hv as (x & u & Hw & Hx & _). cbn [encodeTlvInternal elements]. rewrite Hw. cbn [rbind]. by apply IH.
  - destruct Hv as (st & -> & _). cbn [encodeTlvInternal elements]. destruct tg; [|done].
    by destruct st.
  - done.
Qed.

End EncodeElements.

(** ** The elements are complete *)

Lemma uint_length_fits z : 0 <= z < 2 ^ 64 -> unsigned_fits (getUIntTlvLength z) z.
Proof.
  intros Hz. unfold unsigned_fits, getUIntTlvLength.
  destruct (Z.leb_spec z 255); [cbn; lia|]. destruct (Z.leb_spec z 65535); [cbn; lia|].
  destruct (Z.leb_spec z 4294967295); cbn; lia.
Qed.

Lemma int_length_fits z : - 2 ^ 63 <= z < 2 ^ 63 -> signed_fits (getIntTlvLength z) z.
Proof.
  intros Hz. unfold signed_fits, getIntTlvLength. destruct (Z.ltb_spec 0 z).
  - destruct (Z.leb_spec z 127); [cbn; lia|]. destruct (Z.leb_spec z 32767); [cbn; lia|].
    destruct (Z.leb_spec z 2147483647); cbn; lia.
  - destruct (Z.leb_spec (-128) z); [cbn; lia|]. destruct (Z.leb_spec (-32768) z); [cbn; lia|].
    destruct (Z.leb_spec (-2147483648) z); cbn; lia.
Qed.

Lemma number_primitive_ok n z : number_fits n z -> primitive_ok (numeric_typeLength n z) (VInt z).
Proof.
  intros [Hz _]. unfold numeric_typeLength. destruct (signed n); cbn; [by apply int_length_fits|by apply uint_length_fits].
Qed.

Definition good_tag (t : option TlvTag) : Prop := tag_ok t = true /\ normalize_tag t = t.

Lemma good_none : good_tag None.
Proof. done. Qed.

Lemma good_context i : 0 <= i < 256 -> good_tag (context_tag i).
Proof. intros Hi. split; [|done]. cbn. bool_to_prop. lia. Qed.

Lemma complete_leaf t tl v :
  good_tag t -> is_primitive tl = true -> tl_ok tl = true -> primitive_ok tl v ->
  complete [mkElement t tl (Some v)].
Proof.
  intros [Ht Hn] Hp Htl Hv. apply complete_primitive; [|by destruct tl|by destruct tl].
  unfold element_ok. cbn. split_and!; try done. destruct tl; try done; by exists v.
Qed.

Lemma complete_members_app s1 s2 : complete_members s1 -> complete_members s2 -> complete_members (s1 ++ s2).
Proof.
  intros H1 H2. induction H1 as [|s body Hs Hb IH]; [done|]. rewrite <- app_assoc. by constructor.
Qed.

Lemma complete_members_concat ls : Forall complete ls -> complete_members (concat ls).
Proof. induction 1 as [|s ls Hs Hls IH]; [constructor|]. cbn. by constructor. Qed.

Lemma complete_members_concat_all ls : Forall complete_members ls -> complete_members (concat ls).
Proof. induction 1 as [|s ls Hs Hls IH]; [constructor|]. cbn. by apply complete_members_app. Qed.

Lemma complete_container_of t tl body :
  good_tag t -> is_container tl = true -> complete_members body ->
  complete (mkElement t tl None :: body ++ [end_marker]).
Proof.
  intros [Ht Hn] Hc Hb. apply complete_container; try done. unfold element_ok. cbn.
  split_and!; try done; by destruct tl.
Qed.

Lemma element_ok_retag e t : element_ok e -> good_tag t -> element_ok (mkElement t (typeLength e) (value e)).
Proof. intros (Htl & _ & _ & Hv) [Ht Hn]. unfold element_ok. cbn. auto. Qed.

Lemma complete_retag st t : complete st -> good_tag t -> complete (with_tag t st).
Proof.
  intros [e He Hc Hne|e body end_ He Hc Hb Hend Hendt] Ht; cbn [with_tag].
  - apply complete_primitive; [by apply element_ok_retag|done..].
  - apply complete_container; try done. by apply element_ok_retag.
Qed.

Lemma field_elements_complete raw f x :
  (forall y t, fits raw (f_schema f) y -> good_tag t -> complete (elements (f_schema f) y t)) ->
  0 <= f_id f < 256 -> field_fits (fits raw (f_schema f)) f x ->
  complete_members (field_elements (elements (f_schema f)) f x).
Proof.
  intros IH Hi. unfold field_fits, field_elements. destruct (is_undefined x); [constructor|].
  pose proof (good_context _ Hi) as Hg. destruct (f_repeated f).
  - intros (l & -> & Hl). apply complete_members_concat, Forall_map. eapply Forall_impl; [exact Hl|]. auto.
  - intros Hx. rewrite <- (app_nil_r (elements _ _ _)). constructor; [auto|constructor].
Qed.

Lemma elements_complete raw s v t : fits raw s v -> good_tag t -> complete (elements s v t).
Proof.
  revert v t. induction s as [n|l min max| |ty min max|s IH|s min max IH|fields ty a p IH|n bits|s wr un IH| |]
    using Schema_nested_ind; intros v t Hv Ht; cbn [fits] in Hv.
  - destruct Hv as (z & -> & Hz). apply number_primitive_ok in Hz as Hp. cbn [elements].
    unfold numeric_typeLength in *. destruct (signed n); by apply complete_leaf.
  - destruct Hv as (b & -> & Hb). cbn [elements]. apply complete_leaf; try done. by destruct l.
  - destruct Hv as (b & ->). cbn [elements]. destruct Ht as [Ht Hn]. by apply complete_primitive.
  - destruct ty.
    + destruct Hv as (x & -> & _ & Hx). by apply complete_leaf.
    + destruct Hv as (x & -> & Hx). by apply complete_leaf.
  - destruct Hv as [-> |(Hn & Hf & _)]; cbn [elements].
    + destruct Ht as [Ht Hn]. by apply complete_primitive.
    + destruct v; by (done || apply IH).
  - destruct Hv as (l & -> & Hl). cbn [elements]. apply complete_container_of; [done..|].
    apply complete_members_concat, Forall_map. eapply Forall_impl; [exact Hl|]. intros x Hx. by apply IH.
  - apply (fits_object raw fields ty a p) in Hv as (props & -> & Hn & _ & Hi & Hk & Hf).
    rewrite elements_object. apply complete_container_of; [done|by destruct ty|].
    apply complete_members_concat_all, Forall_map. rewrite (field_order_perm fields ty p _ Hn Hk).
    rewrite Forall_forall in IH, Hf, Hi |- *. intros nf Hin.
    apply (field_elements_complete raw); [|by apply Hi|by apply Hf]. intros y t' Hy Ht'. by apply (IH nf).
  - destruct Hv as (z & Hz & Hzf). apply number_primitive_ok in Hzf as Hp. cbn [elements]. rewrite Hz.
    unfold numeric_typeLength in *. destruct (signed n); by apply complete_leaf.
  - destruct Hv as (x & u & Hw & Hx & _). cbn [elements]. rewrite Hw. by apply IH.
  - destruct Hv as (st & -> & Hc & _). cbn [elements]. destruct t; [by apply complete_retag|done].
  - done.
Qed.

(** ** Readers that present elements *)

(** What the schema decoder asks of a reader: in front of a well-formed
    element it yields the element's header and then its value, and in front of
    a complete raw stream the raw decoder reproduces it. *)
Class StreamSource (R : Type) `{TlvReader R} (raw : TlvStream -> bool) := {
  presents : R -> TlvStream -> Prop;
  presents_header r e st :
    presents r (e :: st) -> element_ok e ->
    exists r1, reader_readTagType r = Ok ((tag e, typeLength e), r1) /\
      (is_primitive (typeLength e) = true ->
       exists r2, reader_readPrimitive (typeLength e) r1 = Ok (value e, r2) /\ presents r2 st) /\
      (is_bare (typeLength e) = true -> presents r1 st);
  presents_raw st rest r fuel :
    complete st -> raw st = true -> presents r (st ++ rest) -> (2 * length st <= fuel)%nat ->
    exists e st' r1 r2, st = e :: st' /\ reader_readTagType r = Ok ((tag e, typeLength e), r1) /\
      typeLength e <> TEndOfContainer /\
      TlvAny.decodeTlvValueRec fuel r1 (typeLength e) [] None = Ok (with_tag None st, r2) /\ presents r2 rest;
  raw_retag t st : raw (with_tag t st) = raw st;
}.

Section DecodeElements.
Context {R : Type} `{TlvReader R} {raw : TlvStream -> bool} `{!StreamSource R raw}.
Variable relax : bool.

(** [dec] reads the elements [st] as [u]. *)
Definition reads (fuel : nat) (dec : Decoder (R := R)) (t : option TlvTag) (st : TlvStream) (u : Value) : Prop :=
  forall rest r, presents r (st ++ rest) -> (2 * length st + 2 <= fuel)%nat ->
  exists e st' r1 r2, st = e :: st' /\ reader_readTagType r = Ok ((t, typeLength e), r1) /\
    typeLength e <> TEndOfContainer /\ dec r1 (typeLength e) = Ok (u, r2) /\ presents r2 rest.

Lemma reads_leaf fuel dec t tl v u :
  complete [mkElement t tl (Some v)] -> is_primitive tl = true ->
  (forall r r', reader_readPrimitive tl r = Ok (Some v, r') -> dec r tl = Ok (u, r')) ->
  reads fuel dec t [mkElement t tl (Some v)] u.
Proof.
  intros Hc Hp Hdec rest r Hr _. apply complete_elements in Hc. rewrite Forall_singleton in Hc.
  destruct (presents_header _ _ _ Hr Hc) as (r1 & H1 & H2 & _). cbn [tag typeLength value] in *.
  destruct (H2 Hp) as (r2 & Hr2 & Hrest). exists (mkElement t tl (Some v)), [], r1, r2. split_and!; try done.
  - cbn. by intros ->.
  - by apply Hdec.
Qed.

Lemma presents_end rest r :
  presents r (end_marker :: rest) ->
  exists r1, reader_readTagType r = Ok ((None, TEndOfContainer), r1) /\ presents r1 rest.
Proof.
  intros Hr. destruct (presents_header _ _ _ Hr) as (r1 & H1 & _ & H2); [done|]. exists r1. split; [done|].
  by apply H2.
Qed.

Lemma presents_container t tl st r :
  presents r (mkElement t tl None :: st) -> good_tag t -> is_container tl = true ->
  exists r1, reader_readTagType r = Ok ((t, tl), r1) /\ presents r1 st.
Proof.
  intros Hr [Ht Hn] Hc. destruct (presents_header _ _ _ Hr) as (r1 & H1 & _ & H2).
  { unfold element_ok. cbn. split_and!; try done; by destruct tl. }
  exists r1. split; [done|]. apply H2. by destruct tl.
Qed.

(** *** Arrays *)

Lemma decode_elements_reads fuel dec (els : Value -> option TlvTag -> TlvStream) can l :
  Forall (fun x => reads fuel dec None (els x None) (can x)) l ->
  forall n rest r acc,
    presents r (concat (map (fun x => els x None) l) ++ end_marker :: rest) ->
    (2 * length (concat (map (fun x => els x None) l)) + 2 <= fuel)%nat ->
    (length (concat (map (fun x => els x None) l)) < n)%nat ->
    exists r', decode_elements n dec r acc = Ok (acc ++ map can l, r') /\ presents r' rest.
Proof.
  induction 1 as [|x l Hx Hl IH]; intros n rest r acc Hr Hf Hn; (destruct n as [|n]; [lia|]).
  - cbn [map concat app] in Hr. destruct (presents_end _ _ Hr) as (r1 & H1 & Hrest).
    exists r1. cbn [decode_elements]. rewrite H1. cbn. by rewrite app_nil_r.
  - cbn [map concat] in *. rewrite <- app_assoc in Hr. rewrite length_app in Hf, Hn.
    destruct (Hx _ _ Hr ltac:(lia)) as (e & st' & r1 & r2 & He & H1 & Hne & H2 & Hrest).
    rewrite He in Hn. cbn [length] in Hn.
    destruct (IH n rest r2 (acc ++ [can x]) Hrest ltac:(lia) ltac:(lia)) as (r' & Hd & Hr').
    exists r'. split; [|done]. cbn [decode_elements]. rewrite H1. cbn [rbind is_some throw_if].
    destruct (decide _); [done|]. rewrite H2. cbn [rbind]. rewrite Hd, <- app_assoc. done.
Qed.

(** *** Objects *)

Lemma by_id_elem (F : Field -> Decoder (R := R)) (fields : list (string * Field)) name f :
  NoDup (map (fun nf => f_id nf.2) fields) -> (name, f) ∈ fields ->
  by_id (map (fun nf => (f_id nf.2, (nf.1, f_repeated nf.2, F nf.2))) fields) (f_id f) =
  Some (name, f_repeated f, F f).
Proof.
  induction fields as [|[n g] fields IH]; [by intros _ ?%elem_of_nil|].
  cbn. intros [Hn Hnd]%NoDup_cons [[= <- <-]|Hin]%elem_of_cons; [|by rewrite IH].
  assert (by_id (map (fun nf => (f_id nf.2, (nf.1, f_repeated nf.2, F nf.2))) fields) (f_id f) = None) as ->.
  { clear IH Hnd. induction fields as [|[m h] fields IH]; [done|]. cbn in *.
    apply not_elem_of_cons in Hn as [Hne Hn]. rewrite IH by done.
    by rewrite (proj2 (Z.eqb_neq (f_id h) (f_id f))) by congruence. }
  by rewrite Z.eqb_refl.
Qed.

Lemma prop_absent acc name : (name ∉ map fst acc) -> prop acc name = JUndefined.
Proof.
  induction acc as [|[n v] acc IH]; [done|]. cbn. intros [Hne Hn]%not_elem_of_cons.
  destruct (decide _); [congruence|by apply IH].
Qed.

Lemma prop_last acc name v : (name ∉ map fst acc) -> prop (acc ++ [(name, v)]) name = v.
Proof.
  induction acc as [|[n w] acc IH]; cbn; [by destruct (decide _)|]. intros [Hne Hn]%not_elem_of_cons.
  destruct (decide _); [congruence|by apply IH].
Qed.

Lemma set_prop_absent acc name v : (name ∉ map fst acc) -> set_prop acc name v = acc ++ [(name, v)].
Proof.
  induction acc as [|[n w] acc IH]; [done|]. cbn. intros [Hne Hn]%not_elem_of_cons.
  destruct (decide _); [congruence|by rewrite IH].
Qed.

Lemma set_prop_last acc name v w : (name ∉ map fst acc) -> set_prop (acc ++ [(name, w)]) name v = acc ++ [(name, v)].
Proof.
  induction acc as [|[n u] acc IH]; cbn; [by destruct (decide _)|]. intros [Hne Hn]%not_elem_of_cons.
  destruct (decide _); [congruence|by rewrite IH].
Qed.

(** A repeated field after some of its elements. *)
Definition collected (name : string) (ds : list Value) : list (string * Value) :=
  match ds with [] => [] | _ => [(name, JArray ds)] end.

Lemma add_repeated_collected acc name ds d :
  (name ∉ map fst acc) ->
  add_repeated (acc ++ collected name ds) name d = Ok (acc ++ collected name (ds ++ [d])).
Proof.
  intros Hn. unfold add_repeated. destruct ds as [|d0 ds]; cbn [collected app].
  - by rewrite app_nil_r, prop_absent, set_prop_absent by done.
  - by rewrite prop_last, set_prop_last by done.
Qed.

Section Fields.
Variables (fuel : nat) (fields : list (string * Field)) (allow : bool).
Hypothesis ids_unique : NoDup (map (fun nf => f_id nf.2) fields).

Let decoders :=
  map (fun nf => (f_id nf.2, (nf.1, f_repeated nf.2, decodeTlvInternalValue (R := R) relax fuel (f_schema nf.2)))) fields.

(** One member of the object is read into the result. *)
Lemma decode_fields_member name f st u rest r acc acc' :
  (name, f) ∈ fields ->
  reads fuel (decodeTlvInternalValue relax fuel (f_schema f)) (context_tag (f_id f)) st u ->
  presents r (st ++ rest) -> (2 * length st + 2 <= fuel)%nat ->
  (if f_repeated f then add_repeated acc name u else Ok (set_prop acc name u)) = Ok acc' ->
  exists r', (1 <= length st)%nat /\ presents r' rest /\
    forall n, decode_fields fuel (S n) decoders allow r acc = decode_fields fuel n decoders allow r' acc'.
Proof.
  intros Hin Hreads Hr Hf Hacc. destruct (Hreads _ _ Hr Hf) as (e & st' & r1 & r2 & -> & H1 & Hne & H2 & Hrest).
  exists r2. split; [cbn; lia|]. split; [done|]. intros n. cbn [decode_fields]. rewrite H1.
  cbn [rbind default context_tag Datatypes.id]. destruct (decide _); [done|]. cbn [is_some andb throw_if rbind].
  unfold decoders.
  rewrite (by_id_elem (fun f => decodeTlvInternalValue relax fuel (f_schema f)) fields name f) by done.
  fold decoders. rewrite H2. cbn [rbind]. by rewrite Hacc.
Qed.

Lemma decode_fields_repeated name f l can :
  (name, f) ∈ fields -> f_repeated f = true ->
  Forall (fun x => reads fuel (decodeTlvInternalValue relax fuel (f_schema f)) (context_tag (f_id f))
                     (elements (f_schema f) x (context_tag (f_id f))) (can x)) l ->
  forall rest r acc ds, (name ∉ map fst acc) ->
    let st := concat (map (fun x => elements (f_schema f) x (context_tag (f_id f))) l) in
    presents r (st ++ rest) -> (2 * length st + 2 <= fuel)%nat ->
    exists g r', (g <= length st)%nat /\ presents r' rest /\
      forall n, decode_fields fuel (g + n) decoders allow r (acc ++ collected name ds) =
                decode_fields fuel n decoders allow r' (acc ++ collected name (ds ++ map can l)).
Proof.
  intros Hin Hrep. induction 1 as [|x l Hx Hl IH]; intros rest r acc ds Hn st Hr Hf.
  { exists O, r. split; [lia|]. split; [done|]. intros n. by rewrite app_nil_r. }
  unfold st in *. cbn [map concat] in *. rewrite <- app_assoc in Hr. rewrite length_app in Hf.
  destruct (decode_fields_member name f _ (can x) _ r (acc ++ collected name ds)
    (acc ++ collected name (ds ++ [can x])) Hin Hx Hr ltac:(lia)) as (r1 & Hl1 & Hr1 & Hstep).
  { by rewrite Hrep, add_repeated_collected. }
  destruct (IH rest r1 acc (ds ++ [can x]) Hn Hr1 ltac:(lia)) as (g & r' & Hg & Hr' & Hdec).
  exists (S g), r'. split; [rewrite length_app; lia|]. split; [done|]. intros n. cbn [Nat.add].
  by rewrite Hstep, Hdec, <- app_assoc.
Qed.

Lemma decode_fields_field name f x rest r acc :
  (name, f) ∈ fields -> (name ∉ map fst acc) ->
  field_fits (fun y => reads fuel (decodeTlvInternalValue relax fuel (f_schema f)) (context_tag (f_id f))
                         (elements (f_schema f) y (context_tag (f_id f))) (canon (f_schema f) y)) f x ->
  let st := field_elements (elements (f_schema f)) f x in
  presents r (st ++ rest) -> (2 * length st + 2 <= fuel)%nat ->
  exists g r', (g <= length st)%nat /\ presents r' rest /\
    forall n, decode_fields fuel (g + n) decoders allow r acc =
      decode_fields fuel n decoders allow r'
        (acc ++ match canon_field (canon (f_schema f)) f x with Some c => [(name, c)] | None => [] end).
Proof.
  intros Hin Hn. unfold field_fits, field_elements, canon_field. destruct (is_undefined x).
  { intros _ Hr _. exists O, r. split; [lia|]. split; [done|]. intros n. by rewrite app_nil_r. }
  destruct (f_repeated f) eqn:Erep.
  - intros (l & -> & Hl) Hr Hf.
    destruct (decode_fields_repeated name f l _ Hin Erep Hl rest r acc [] Hn Hr Hf) as (g & r' & Hg & Hr' & Hdec).
    exists g, r'. split_and!; [done..|]. intros n. cbn [collected app] in Hdec. rewrite app_nil_r in Hdec.
    rewrite Hdec. by destruct l.
  - intros Hx Hr Hf.
    destruct (decode_fields_member name f _ _ rest r acc (acc ++ [(name, canon (f_schema f) x)]) Hin Hx Hr Hf)
      as (r' & Hl & Hr' & Hdec).
    { by rewrite Erep, set_prop_absent. }
    exists 1%nat, r'. by split_and!.
Qed.

Definition read_back (props : list (string * Value)) (nf : string * Field) : list (string * Value) :=
  match canon_field (canon (f_schema nf.2)) nf.2 (prop props nf.1) with
  | Some c => [(nf.1, c)]
  | None => []
  end.

Lemma decode_fields_all props todo :
  NoDup (map fst todo) -> Forall (fun nf => nf ∈ fields) todo ->
  Forall (fun nf => field_fits (fun y => reads fuel (decodeTlvInternalValue relax fuel (f_schema nf.2))
      (context_tag (f_id nf.2)) (elements (f_schema nf.2) y (context_tag (f_id nf.2))) (canon (f_schema nf.2) y))
      nf.2 (prop props nf.1)) todo ->
  forall rest r acc, (forall name, name ∈ map fst todo -> name ∉ map fst acc) ->
    let st := concat (map (fun nf => field_elements (elements (f_schema nf.2)) nf.2 (prop props nf.1)) todo) in
    presents r (st ++ rest) -> (2 * length st + 2 <= fuel)%nat ->
    exists g r', (g <= length st)%nat /\ presents r' rest /\
      forall n, decode_fields fuel (g + n) decoders allow r acc =
        decode_fields fuel n decoders allow r' (acc ++ concat (map (read_back props) todo)).
Proof.
  induction todo as [|[name f] todo IH]; intros Hnd Hin Hfit rest r acc Hacc st Hr Hf.
  { exists O, r. split; [lia|]. split; [done|]. intros n. by rewrite app_nil_r. }
  unfold st in *. cbn [map concat fst snd] in *. rewrite <- app_assoc in Hr. rewrite length_app in Hf.
  apply NoDup_cons in Hnd as [Hname Hnd]. apply Forall_cons in Hin as [Hin Hins]. apply Forall_cons in Hfit as [Hx Hfit].
  cbn [fst snd] in Hx. edestruct (decode_fields_field name f) as (g1 & r1 & Hg1 & Hr1 & Hd1);
    [exact Hin|apply Hacc; by apply elem_of_cons; left|exact Hx|exact Hr|cbn [fst]; lia|].
  destruct (IH Hnd Hins Hfit rest r1 (acc ++ read_back props (name, f))) as (g2 & r2 & Hg2 & Hr2 & Hd2); [|done|lia|].
  { intros n' Hn'. rewrite map_app, not_elem_of_app. split; [apply Hacc; by right|].
    unfold read_back. cbn. destruct (canon_field _ _ _); cbn; [|by apply not_elem_of_nil].
    intros ->%list_elem_of_singleton. done. }
  exists (g1 + g2)%nat, r2. split; [rewrite length_app; lia|]. split; [done|]. intros n.
  rewrite <- Nat.add_assoc, Hd1. fold (read_back props (name, f)). by rewrite Hd2, <- app_assoc.
Qed.

End Fields.

Lemma toNumber_small z : Z.abs z < 2 ^ 53 -> toNumber z = z.
Proof. intros Hz. unfold toNumber. by rewrite (proj2 (Z.ltb_lt _ _) Hz). Qed.

Lemma decodeNumber_reads n z (r r' : R) :
  number_fits n z -> reader_readPrimitive (numeric_typeLength n z) r = Ok (Some (VInt z), r') ->
  decodeNumber relax n r (numeric_typeLength n z) = Ok (z, r').
Proof.
  intros [_ Hn] Hr. unfold decodeNumber. assert (same_sign n (numeric_typeLength n z) = true) as ->.
  { unfold numeric_typeLength, same_sign. by destruct (signed n). }
  unfold read_int. rewrite Hr. cbn [rbind]. destruct (isNumber n); [|done]. by rewrite toNumber_small by auto.
Qed.

Lemma with_tag_twice t t' st : with_tag t (with_tag t' st) = with_tag t st.
Proof. by destruct st. Qed.

Lemma decode_reads fuel s v t :
  fits raw s v -> good_tag t -> reads fuel (decodeTlvInternalValue relax fuel s) t (elements s v t) (canon s v).
Proof.
  revert v t. induction s as [n|l min max| |ty min max|s IH|s min max IH|fields ty a p IH|n bits|s wr un IH| |]
    using Schema_nested_ind; intros v t Hv Ht; pose proof (elements_complete raw _ _ _ Hv Ht) as Hcomp; cbn [fits] in Hv.
  - destruct Hv as (z & -> & Hz). apply reads_leaf; [done|unfold numeric_typeLength; by destruct (signed n)|].
    intros r r' Hr. cbn [decodeTlvInternalValue canon]. by rewrite (decodeNumber_reads n z r r').
  - destruct Hv as (b & -> & Hb). apply reads_leaf; [done..|]. intros r r' Hr.
    cbn [decodeTlvInternalValue canon]. by rewrite Hr.
  - destruct Hv as (b & ->). intros rest r Hr _. cbn [elements app] in *.
    destruct (presents_header _ _ _ Hr) as (r1 & H1 & _ & H2).
    { apply complete_elements in Hcomp. by rewrite Forall_singleton in Hcomp. }
    eexists _, [], r1, r1. split; [done|]. cbn in *. split_and!; try done. by apply H2.
  - destruct ty.
    + destruct Hv as (x & -> & Hi & Hx). apply reads_leaf; [done..|]. intros r r' Hr.
      cbn [decodeTlvInternalValue decodeString string_type] in *. rewrite Hr. cbn [rbind]. by rewrite Hi.
    + destruct Hv as (x & -> & Hx). apply reads_leaf; [done..|]. intros r r' Hr.
      cbn [decodeTlvInternalValue decodeString string_type] in *. by rewrite Hr.
  - destruct Hv as [-> |(Hn & Hf & Hnull)]; cbn [elements] in *.
    + intros rest r Hr _. cbn [app] in *. destruct (presents_header _ _ _ Hr) as (r1 & H1 & _ & H2).
      { apply complete_elements in Hcomp. by rewrite Forall_singleton in Hcomp. }
      eexists _, [], r1, r1. split; [done|]. cbn in *. split_and!; try done. by apply H2.
    + assert (elements (SNullable s) v t = elements s v t) as Ee by (by destruct v).
      assert (canon (SNullable s) v = empty_as_null s (canon s v)) as Ec by (by destruct v).
      cbn [elements] in Ee. rewrite Ee in *. rewrite Ec. intros rest r Hr Hfu.
      destruct (IH v t Hf Ht rest r Hr Hfu) as (e & st' & r1 & r2 & He & H1 & Hne & H2 & Hrest).
      exists e, st', r1, r2. split_and!; try done. cbn [decodeTlvInternalValue].
      destruct (decide (typeLength e = TNull)) as [E|_]; [by destruct (Hnull _ _ _ He)|]. by rewrite H2.
  - destruct Hv as (l & -> & Hl). intros rest r Hr Hfu. cbn [elements] in *. cbn [app length] in Hr, Hfu.
    rewrite <- app_assoc in Hr. rewrite length_app in Hfu. cbn [length app] in Hr, Hfu.
    destruct (presents_container _ _ _ _ Hr Ht) as (r1 & H1 & Hr1); [done|].
    destruct (decode_elements_reads fuel (decodeTlvInternalValue relax fuel s) (elements s) (canon s) l)
      with (n := fuel) (rest := rest) (r := r1) (acc := @nil Value) as (r2 & H2 & Hr2); try done; try lia.
    { eapply Forall_impl; [exact Hl|]. intros x Hx. by apply IH. }
    eexists _, _, r1, r2. split; [done|]. cbn [typeLength]. split_and!; try done.
    cbn [decodeTlvInternalValue]. destruct (decide _); [|done]. by rewrite H2.
  - apply (fits_object raw fields ty a p) in Hv as (props & -> & Hn & Hids & Hi & Hk & Hf).
    rewrite elements_object, canon_object. intros rest r Hr Hfu. cbn [app length] in Hr, Hfu.
    rewrite <- app_assoc in Hr. rewrite length_app in Hfu. cbn [length app] in Hr, Hfu.
    pose proof (field_order_perm fields ty p _ Hn Hk) as Hperm.
    destruct (presents_container _ _ _ _ Hr Ht) as (r1 & H1 & Hr1); [by destruct ty|].
    destruct (decode_fields_all fuel fields a Hids props (field_order fields ty p (map fst props)))
      with (rest := end_marker :: rest) (r := r1) (acc := @nil (string * Value)) as (g & r2 & Hg & Hr2 & Hdec);
      [by rewrite Hperm|apply Forall_forall; intros nf; by rewrite Hperm| |by intros ? _ ?%elem_of_nil|done|lia|].
    { rewrite Hperm. rewrite Forall_forall in IH, Hf, Hi |- *. intros nf Hin.
      eapply field_fits_impl; [|by apply Hf]. intros y Hy. apply IH; [done..|]. by apply good_context, Hi. }
    destruct (presents_end _ _ Hr2) as (r3 & H3 & Hr3).
    eexists _, _, r1, r3. split; [done|]. cbn [typeLength]. split_and!; try done; [by destruct ty|].
    cbn [decodeTlvInternalValue]. destruct (decide _); [|done].
    specialize (Hdec (S (fuel - g - 1))). replace (g + S (fuel - g - 1))%nat with fuel in Hdec by lia.
    rewrite Hdec. cbn [decode_fields]. by rewrite H3.
  - destruct Hv as (z & Hz & Hzf). cbn [elements canon decodeTlvInternalValue] in *. rewrite Hz in *.
    apply reads_leaf; [done|unfold numeric_typeLength; by destruct (signed n)|].
    intros r r' Hr. by rewrite (decodeNumber_reads n z r r').
  - destruct Hv as (x & u & Hw & Hx & Hu). cbn [elements canon decodeTlvInternalValue] in *. rewrite Hw, Hu in *.
    intros rest r Hr Hfu. destruct (IH x t Hx Ht rest r Hr Hfu) as (e & st' & r1 & r2 & He & H1 & Hne & H2 & Hrest).
    exists e, st', r1, r2. split_and!; try done. rewrite H2. cbn [rbind]. by rewrite Hu.
  - destruct Hv as (st & -> & Hc & Hraw & Htag). intros rest r Hr Hfu.
    assert (exists st0, elements SAny (JStream st) t = st0 /\ raw st0 = true /\ with_tag None st0 = with_tag None st /\
      (forall e st', st0 = e :: st' -> tag e = t)) as (st0 & E0 & Hraw0 & Ht0 & Hhead).
    { eexists. split; [done|]. cbn [elements]. destruct t as [t|].
      - rewrite raw_retag, with_tag_twice. split_and!; try done. intros e st'. destruct st; [done|]. by intros [= <- _].
      - split_and!; try done. intros e st' E. rewrite E in Htag. cbn in Htag. injection Htag as Htag. by rewrite <- Htag. }
    rewrite E0 in *. destruct (presents_raw st0 rest r fuel) as (e & st' & r1 & r2 & He & H1 & Hne & H2 & Hrest);
      [done|done|done|lia|]. exists e, st', r1, r2. rewrite (Hhead _ _ He) in H1. split_and!; try done.
    cbn [decodeTlvInternalValue canon]. rewrite H2. cbn [rbind]. by rewrite Ht0.
  - done.
Qed.

End DecodeElements.

(** ** The byte reader presents the elements of an image *)

Definition any_raw (st : TlvStream) : bool := true.

#[global] Program Instance ByteSource : StreamSource Reader.DataReader any_raw := {
  presents r st := exists pre post, r = Reader.at_ pre (stream_image st ++ post);
}.
Next Obligation.
  intros r e st (pre & post & ->) Hok. cbn [stream_image]. rewrite <- app_assoc.
  destruct (readTagType_element e pre (stream_image st ++ post) Hok) as (tail & Ht & Hr).
  eexists. split; [exact Hr|]. unfold element_image in Ht. destruct Hok as (_ & _ & _ & Hv). split.
  - intros Hp. assert (is_bare (typeLength e) = false) as Hb by (by destruct (typeLength e)).
    rewrite Hp, Hb in Ht. assert (exists v, value e = Some v /\ primitive_ok (typeLength e) v) as (v & Ev & Hok)
      by (by destruct (typeLength e)).
    rewrite Ev in Ht. apply app_inv_head in Ht as <-.
    cbn [reader_readPrimitive TlvByteArrayReader]. rewrite (readPrimitive_image _ v) by done. cbn [rbind].
    rewrite Ev. eexists. split; [done|]. by eexists _, _.
  - intros Hb. rewrite Hb in Ht. apply app_self_inv in Ht as ->. by eexists _, _.
Qed.
Next Obligation.
  intros st rest r fuel Hc _ (pre & post & ->) Hf. rewrite stream_image_app, <- app_assoc.
  destruct (proj1 decode_complete st Hc fuel [] pre (stream_image rest ++ post) Hf)
    as (r1 & e & st' & -> & Hr & Hne & Hdec).
  eexists e, st', r1, _. split_and!; [done|done|done|apply Hdec|]. by eexists _, _.
Qed.
Next Obligation. done. Qed.

(** ** The element reader presents an array of elements *)

Definition no_raw (st : TlvStream) : bool := false.

(** What the element writer stores: a value only for primitives. *)
Definition stored (e : TlvElement) : TlvElement :=
  if is_primitive (typeLength e) then e else mkElement (tag e) (typeLength e) None.

#[global] Program Instance ArraySource : StreamSource ArrayReader no_raw := {
  presents r st := -1 <= index r /\
    exists post, drop (Z.to_nat (index r + 1)) (tlvElements r) = map stored st ++ post;
}.
Next Obligation.
  intros [els i] e st [Hi (post & Hd)] Hok. cbn [index tlvElements] in *. cbn [map app] in Hd.
  assert (els !! Z.to_nat (i + 1) = Some (stored e)) as He.
  { rewrite <- (Nat.add_0_r (Z.to_nat (i + 1))), <- lookup_drop, Hd. done. }
  assert (drop (Z.to_nat (i + 1 + 1)) els = map stored st ++ post) as Hd'.
  { replace (Z.to_nat (i + 1 + 1)) with (Z.to_nat (i + 1) + 1)%nat by lia. rewrite <- drop_drop, Hd. done. }
  exists (mkArrayReader els (i + 1)). cbn [reader_readTagType TlvArrayReader index tlvElements].
  rewrite He. unfold stored. split_and!.
  - by destruct (is_primitive (typeLength e)).
  - intros Hp. exists (mkArrayReader els (i + 1)).
    cbn [reader_readPrimitive TlvArrayReader index tlvElements]. rewrite He. unfold stored. rewrite Hp.
    split_and!; [done|lia|by exists post].
  - intros _. split; [lia|by exists post].
Qed.
Next Obligation. done. Qed.
Next Obligation. done. Qed.

Lemma array_writer_stores st acc :
  TlvAny.encodeTlvInternal (mkArrayWriter acc) st None =
  Ok (mkArrayWriter (acc ++ map stored (List.filter (fun e => is_bare (typeLength e) || is_primitive (typeLength e)) st))).
Proof.
  revert acc. induction st as [|e st IH]; intros acc; [by rewrite app_nil_r|]. rewrite any_cons.
  unfold encode_element. cbn [List.filter]. destruct (is_bare (typeLength e)) eqn:Eb; cbn [orb].
  - cbn [writer_writeTag TlvArrayWriter rbind tlvArray]. rewrite IH. cbn [map]. rewrite <- app_assoc.
    unfold stored at 2. by destruct (typeLength e).
  - destruct (is_primitive (typeLength e)) eqn:Ep; [|cbn [rbind]; by rewrite IH].
    cbn [writer_writeTag writer_writePrimitive TlvArrayWriter rbind tlvArray].
    unfold array_set_last. rewrite last_snoc. cbn [rbind tag typeLength].
    rewrite length_app, Nat.add_sub, take_app_length. rewrite IH. cbn [map]. rewrite <- app_assoc.
    unfold stored at 2. rewrite Ep. by destruct e.
Qed.

Lemma ok_elements_kept st :
  Forall element_ok st -> List.filter (fun e => is_bare (typeLength e) || is_primitive (typeLength e)) st = st.
Proof.
  induction 1 as [|e st (_ & _ & _ & He) _ IH]; [done|]. cbn [List.filter]. rewrite IH.
  by destruct (typeLength e).
Qed.

(** ** Termination *)

Section Termination.
Context {R : Type} `{TlvReader R} `{!TlvReaderProgress R}.
Variable relax : bool.

(** No wrapper of the schema reports a lack of fuel as its own error. *)
Fixpoint fuel_free (s : Schema) : Prop :=
  match s with
  | SNullable s | SArray s _ _ => fuel_free s
  | SObject fields _ _ _ =>
      (fix go (l : list (string * Field)) : Prop :=
         match l with [] => True | (_, f) :: rest => fuel_free (f_schema f) /\ go rest end) fields
  | SWrapper s _ unwrap => fuel_free s /\ forall v, unwrap v <> Throw OutOfFuel
  | _ => True
  end.

(** A decoder that, given a reader within the fuel, ends with a reader no
    larger or with an error of the code. *)
Definition settles (fuel : nat) {A} (dec : R -> result (A * R)) : Prop :=
  forall r, (2 * reader_size r + 2 <= fuel)%nat ->
  match dec r with
  | Ok (_, r') => (reader_size r' <= reader_size r)%nat
  | Throw e => e <> OutOfFuel
  end.

Lemma settles_primitive fuel tl : settles fuel (fun r => reader_readPrimitive tl r).
Proof.
  intros r _. destruct (reader_readPrimitive tl r) as [[v r']|e] eqn:E.
  - by apply reader_readPrimitive_progress in E.
  - intros ->. by apply reader_readPrimitive_fuel in E.
Qed.

Lemma settles_bind fuel {A B} (m : R -> result (A * R)) (k : A -> R -> result (B * R)) :
  settles fuel m -> (forall a, settles fuel (k a)) -> settles fuel (fun r => let* (a, r) := m r in k a r).
Proof.
  intros Hm Hk r Hr. specialize (Hm r Hr). destruct (m r) as [[a r1]|e]; cbn [rbind]; [|done].
  specialize (Hk a r1 ltac:(lia)). destruct (k a r1) as [[b r2]|e]; [lia|done].
Qed.

Lemma settles_ret fuel {A} (a : A) : settles fuel (fun r => Ok (a, r)).
Proof. by intros r _. Qed.

Lemma settles_throw fuel {A} e : e <> OutOfFuel -> settles (A := A) fuel (fun _ => Throw e).
Proof. by intros He r _. Qed.

Lemma settles_throw_if fuel {A} c e (k : R -> result (A * R)) :
  e <> OutOfFuel -> settles fuel k -> settles fuel (fun r => let* _ := throw_if c e in k r).
Proof. intros He Hk r Hr. destruct c; cbn [throw_if rbind]; [done|by apply Hk]. Qed.

Lemma settles_number fuel n tl : settles fuel (fun r => decodeNumber relax n r tl).
Proof.
  assert (settles fuel (fun r => read_int r tl)) as Hi.
  { unfold read_int. apply settles_bind; [apply settles_primitive|].
    intros [[]|]; by apply settles_ret || by apply settles_throw. }
  unfold decodeNumber. apply settles_bind; [|intros z; apply settles_ret].
  destruct (same_sign n tl); [done|]. apply settles_throw_if; [done|]. apply settles_bind; [done|].
  intros z r Hr. unfold validateBoundaries. destruct (z <? n_min n), (n_max n <? z); cbn; done || lia.
Qed.

Lemma settles_elements fuel dec n :
  (forall tl, settles fuel (fun r => dec r tl)) ->
  forall r acc, (2 * reader_size r + 2 <= fuel)%nat -> (reader_size r < n)%nat ->
  match decode_elements n dec r acc with
  | Ok (_, r') => (reader_size r' <= reader_size r)%nat
  | Throw e => e <> OutOfFuel
  end.
Proof.
  intros Hd. induction n as [|n IH]; intros r acc Hr Hn; [lia|]. cbn [decode_elements].
  destruct (reader_readTagType r) as [[[t tl] r1]|e] eqn:E1; cbn [rbind].
  2: { intros ->. by apply reader_readTagType_fuel in E1. }
  apply reader_readTagType_progress in E1. destruct (is_some t); cbn [throw_if rbind]; [done|].
  destruct (decide _); [lia|]. specialize (Hd tl r1 ltac:(lia)).
  destruct (dec r1 tl) as [[v r2]|e2]; cbn [rbind]; [|done].
  specialize (IH r2 (acc ++ [v]) ltac:(lia) ltac:(lia)).
  destruct (decode_elements n dec r2 _) as [[l r3]|e3]; [lia|done].
Qed.

Lemma settles_fields fuel fields allow n :
  (forall id name rep dec tl, by_id fields id = Some (name, rep, dec) -> settles fuel (fun r => dec r tl)) ->
  forall r acc, (2 * reader_size r + 2 <= fuel)%nat -> (reader_size r < n)%nat ->
  match decode_fields fuel n fields allow r acc with
  | Ok (_, r') => (reader_size r' <= reader_size r)%nat
  | Throw e => e <> OutOfFuel
  end.
Proof.
  intros Hd. induction n as [|n IH]; intros r acc Hr Hn; [lia|]. cbn [decode_fields].
  destruct (reader_readTagType r) as [[[t tl] r1]|e] eqn:E1; cbn [rbind].
  2: { intros ->. by apply reader_readTagType_fuel in E1. }
  apply reader_readTagType_progress in E1. destruct (default (mkTag None None) t) as [prof [id|]];
    (destruct (decide _); [lia|]); destruct (_ && _); cbn [throw_if rbind]; try done.
  destruct (by_id fields id) as [[[name rep] dec]|] eqn:Eb.
  - specialize (Hd id name rep dec tl Eb r1 ltac:(lia)). destruct (dec r1 tl) as [[v r2]|e2]; cbn [rbind]; [|done].
    assert (exists acc', (if rep then add_repeated acc name v else Ok (set_prop acc name v)) = Ok acc' \/
      (if rep then add_repeated acc name v else Ok (set_prop acc name v)) = Throw TypeError) as [acc' [-> | ->]].
    { unfold add_repeated. destruct rep; [|by eexists; left]. destruct (prop acc name);
        try (exists []; by right); by eexists; left. }
    + cbn [rbind]. specialize (IH r2 acc' ltac:(lia) ltac:(lia)).
      destruct (decode_fields fuel n fields allow r2 acc') as [[l r3]|e3]; [lia|done].
    + done.
  - pose proof (proj1 (decode_settles fuel) r1 tl [] None ltac:(lia)) as Hany. unfold settled in Hany.
    destruct (TlvAny.decodeTlvValueRec fuel r1 tl [] None) as [[st r2]|e2]; cbn [rbind]; [|done].
    specialize (IH r2 acc ltac:(lia) ltac:(lia)).
    destruct (decode_fields fuel n fields allow r2 acc) as [[l r3]|e3]; [lia|done].
Qed.

Lemma by_id_some fields (F : Field -> Decoder (R := R)) id name rep dec :
  by_id (map (fun nf => (f_id nf.2, (nf.1, f_repeated nf.2, F nf.2))) fields) id = Some (name, rep, dec) ->
  exists nf, nf ∈ fields /\ f_id nf.2 = id /\ dec = F nf.2.
Proof.
  induction fields as [|nf fields IH]; [done|]. cbn [map by_id].
  destruct (by_id (map _ fields) id) as [g|].
  - intros [= ->]. destruct (IH eq_refl) as (nf' & Hin & Hid & ->). exists nf'. split; [by right|done].
  - destruct (Z.eqb_spec (f_id nf.2) id); [|done]. intros [= _ _ <-]. exists nf. split; [by left|done].
Qed.

Lemma decode_settles_schema fuel s : fuel_free s -> forall tl, settles fuel (fun r => decodeTlvInternalValue relax fuel s r tl).
Proof.
  induction s as [n|l min max| |ty min max|s IH|s min max IH|fields ty a p IH|n bits|s wr un IH| |]
    using Schema_nested_ind; intros Hs tl; cbn [decodeTlvInternalValue].
  - apply settles_bind; [apply settles_number|]. intros z. apply settles_ret.
  - destruct tl; try by apply settles_throw. apply settles_bind; [apply settles_primitive|].
    intros [[]|]; by apply settles_ret || by apply settles_throw.
  - destruct tl; by apply settles_ret || by apply settles_throw.
  - unfold decodeString. destruct ty, tl; try by apply settles_throw.
    + apply settles_bind; [apply settles_primitive|]. intros [[]|]; try by apply settles_throw.
      destruct (indexOf _ _); [|apply settles_ret]. apply settles_throw_if; [done|apply settles_ret].
    + apply settles_bind; [apply settles_primitive|]. intros [[]|]; by apply settles_ret || by apply settles_throw.
  - destruct (decide _); [apply settles_ret|]. apply settles_bind; [by apply IH|]. intros v. apply settles_ret.
  - destruct (decide _); [|by apply settles_throw]. apply settles_bind; [|intros v; apply settles_ret].
    intros r Hr. apply (settles_elements fuel); [by apply IH|lia|lia].
  - destruct (decide _); [|by apply settles_throw]. apply settles_bind; [|intros v; apply settles_ret].
    intros r Hr. apply (settles_fields fuel); [|lia|lia]. intros id name rep dec tl' Hid.
    apply (by_id_some fields (fun f => decodeTlvInternalValue relax fuel (f_schema f))) in Hid as (nf & Hin & _ & ->).
    rewrite Forall_forall in IH. apply IH; [done|]. clear IH. cbn [fuel_free] in Hs.
    induction fields as [|[n f] fields IHf]; [by apply elem_of_nil in Hin|]. destruct Hs as [Hf Hs].
    apply elem_of_cons in Hin as [-> |Hin]; [done|by apply IHf].
  - apply settles_bind; [apply settles_number|]. intros z. apply settles_ret.
  - destruct Hs as [Hs Hun]. apply settles_bind; [by apply IH|]. intros v r Hr.
    specialize (Hun v). destruct (un v) as [u|e]; cbn [rbind]; [lia|congruence].
  - apply settles_bind; [|intros v; apply settles_ret]. intros r Hr.
    apply (proj1 (decode_settles fuel) r tl [] None Hr).
  - by apply settles_throw.
Qed.

Lemma decodeTlvInternal_total s r : fuel_free s -> decodeTlvInternal relax (decode_fuel r) s r <> Throw OutOfFuel.
Proof.
  intros Hs. unfold decodeTlvInternal, decode_fuel.
  destruct (reader_readTagType r) as [[[t tl] r1]|e] eqn:E; cbn [rbind].
  2: { intros [= ->]. by apply reader_readTagType_fuel in E. }
  apply reader_readTagType_progress in E.
  pose proof (decode_settles_schema (2 * reader_size r + 2) s Hs tl r1 ltac:(lia)) as H1.
  cbv beta in H1. destruct (decodeTlvInternalValue _ _ s r1 tl) as [[v r2]|e]; cbn in *; congruence.
Qed.

End Termination.

(** ** Properties *)

(** The bytes of a complete stream bound the fuel its decoding needs. *)
Lemma image_fuel st : complete st -> (2 * length st + 2 <= decode_fuel (Reader.at_ [] (stream_image st)))%nat.
Proof.
  intros Hc. pose proof (proj1 complete_size _ Hc) as [Hl _].
  unfold decode_fuel. cbn [reader_size TlvByteArrayReaderProgress].
  unfold Reader.size. rewrite Reader.remainingBytesCount_at. unfold byteLength. lia.
Qed.

(** The bytes of an encoding. *)
Lemma encodeInternal_elements s v :
  fits any_raw s v -> encodeInternal s v = Ok (stream_image (elements s v None)).
Proof.
  intros Hv. pose proof (elements_complete any_raw s v None Hv good_none) as Hc.
  destruct (encode_stream_succeeds (Writer.new true) _ (proj1 complete_elements _ Hc)) as [w Hw].
  pose proof (encodeInternal_stream _ _ Hw) as E. unfold TlvAny.encodeInternal in E.
  unfold encodeInternal. by rewrite (encode_writes any_raw s v Hv).
Qed.

Lemma schema_roundtrip_lemma s v :
  fits any_raw s v ->
  exists bs, encodeInternal s v = Ok bs /\ decodeInternal s bs = Ok (canon s v).
Proof.
  intros Hv. exists (stream_image (elements s v None)). split; [by apply encodeInternal_elements|].
  unfold decodeInternal, decodeTlvInternal. rewrite Reader.new_at. set (r := Reader.at_ [] _).
  destruct (decode_reads false (decode_fuel r) s v None Hv good_none [] r)
    as (e & st' & r1 & r2 & He & H1 & Hne & H2 & _).
  - exists [], []. by rewrite !app_nil_r.
  - by apply image_fuel, (elements_complete any_raw).
  - rewrite H1. cbn [rbind]. by rewrite H2.
Qed.

(** C31: Every value a schema fits survives the byte codec: it is encoded, and
    decoding the bytes yields its canonical form. *)
Theorem schema_roundtrip (s : Schema) (v : Value) :
  fits any_raw s v ->
  exists bs, encodeInternal s v = Ok bs /\ decodeInternal s bs = Ok (canon s v).
Proof. apply schema_roundtrip_lemma. Qed.

(** The same over element arrays, for schemas without raw content, with the
    relaxed integer checks or without. *)
Lemma stream_roundtrip (relax : bool) (s : Schema) (v : Value) :
  fits no_raw s v ->
  exists st, encodeTlv s v no_options = Ok st /\ decodeTlv relax s st = Ok (canon s v).
Proof.
  intros Hv. pose proof (elements_complete no_raw s v None Hv good_none) as Hc.
  pose proof (proj1 complete_elements _ Hc) as Hok.
  exists (map stored (elements s v None)). split.
  - unfold encodeTlv. rewrite (encode_writes no_raw s v Hv), array_writer_stores, ok_elements_kept by done. done.
  - assert (decodeTlv relax s (map stored (elements s v None)) =
      let reader := mkArrayReader (map stored (elements s v None)) (-1) in
      let* (v, _) := decodeTlvInternal relax (decode_fuel reader) s reader in Ok v) as ->.
    { destruct s; done. }
    cbv zeta. set (r := mkArrayReader _ _). unfold decodeTlvInternal.
    destruct (decode_reads relax (decode_fuel r) s v None Hv good_none [] r)
      as (e & st' & r1 & r2 & He & H1 & Hne & H2 & _).
    + split; [done|]. exists []. by rewrite !app_nil_r.
    + unfold decode_fuel, reader_size; cbn. unfold array_size, r. cbn. rewrite length_map. lia.
    + rewrite H1. cbn [rbind]. by rewrite H2.
Qed.

(** A list written in chunks is read back from its chunks, whatever the
    reader held before. *)
Theorem chunked_array_roundtrip (relax : bool) (es : Schema) (min max : Z) (l : list Value)
  (current : option (list Value)) :
  Forall (fits no_raw es) l ->
  exists chunks, encodeAsChunkedArray es min max l no_options = Ok chunks /\
    decodeFromChunkedArray relax es min max chunks current = Ok (map (canon es) l).
Proof.
  intros Hl. destruct (stream_roundtrip relax (SArray es min max) (JArray [])) as (st0 & E0 & D0).
  { by exists []. }
  assert (exists chunks, encode_chunks es no_options l = Ok chunks /\
    forall cur, apply_chunks relax es min max cur chunks = Ok (cur ++ map (canon es) l)) as (chunks & Ec & Dc).
  { induction Hl as [|v l Hv Hl (chunks & Ec & Dc)].
    - exists []. split; [done|]. intros cur. cbn. by rewrite app_nil_r.
    - destruct (stream_roundtrip relax es v Hv) as (st & Ev & Dv).
      exists (mkChunk INull st :: chunks). cbn [encode_chunks]. rewrite Ev. cbn [rbind]. rewrite Ec. split; [done|].
      intros cur. cbn [apply_chunks apply_chunk listIndex element]. rewrite Dv. cbn [rbind]. rewrite Dc. cbn [map].
      by rewrite <- app_assoc. }
  exists (mkChunk IUndefined st0 :: chunks). unfold encodeAsChunkedArray. rewrite E0. cbn [rbind]. rewrite Ec.
  split; [done|].
  assert (forall cur, apply_chunks relax es min max cur (mkChunk IUndefined st0 :: chunks) = Ok (map (canon es) l)) as D.
  { intros cur. cbn [apply_chunks apply_chunk listIndex element]. rewrite D0. cbn [canon rbind map]. by rewrite Dc. }
  unfold decodeFromChunkedArray. destruct current; [apply D|]. cbn [listIndex]. apply D.
Qed.

(** C36: Decoding with a schema terminates on every byte sequence. *)
Theorem schema_decode_total (s : Schema) (bs : list Z) :
  fuel_free s -> decodeInternal s bs <> Throw OutOfFuel.
Proof.
  intros Hs. unfold decodeInternal.
  pose proof (decodeTlvInternal_total false s (Reader.new bs true) Hs) as Ht.
  destruct (decodeTlvInternal _ _ _ _) as [[v t]|e]; cbn; congruence.
Qed.

(** ** Unknown members *)

Section Unknown.
Variables (fuel : nat) (all : list (string * Field)) (known : string -> bool).
Hypothesis ids_unique : NoDup (map (fun nf => f_id nf.2) all).
Hypothesis ids_ok : Forall (fun nf => 0 <= f_id nf.2 < 256) all.

Let fields := List.filter (fun nf => known nf.1) all.
Let decoders :=
  map (fun nf => (f_id nf.2, (nf.1, f_repeated nf.2, decodeTlvInternalValue (R := Reader.DataReader) false fuel (f_schema nf.2)))) fields.

Lemma fields_sub nf : nf ∈ fields <-> nf ∈ all /\ known nf.1 = true.
Proof. unfold fields. rewrite !list_elem_of_In, filter_In. done. Qed.

Lemma fields_ids : NoDup (map (fun nf => f_id nf.2) fields).
Proof.
  unfold fields. clear ids_ok. induction all as [|nf l IH]; [done|]. cbn in *. apply NoDup_cons in ids_unique as [Hn Hl].
  destruct (known nf.1); [|by apply IH]. cbn. apply NoDup_cons. split; [|by apply IH].
  intros H. apply Hn. apply list_elem_of_fmap in H as (nf' & -> & Hin%list_elem_of_In%filter_In).
  apply list_elem_of_fmap. exists nf'. split; [done|]. apply list_elem_of_In, Hin.
Qed.

Lemma by_id_unknown nf : nf ∈ all -> known nf.1 = false -> by_id decoders (f_id nf.2) = None.
Proof.
  intros Hin Hk. destruct (by_id decoders (f_id nf.2)) as [g|] eqn:E; [|done]. exfalso.
  destruct g as [[name rep] dec]. unfold decoders in E.
  apply (by_id_some fields (fun f => decodeTlvInternalValue false fuel (f_schema f))) in E as (nf' & Hin' & Eid & _).
  apply fields_sub in Hin' as [Hin' Hk']. assert (nf' = nf); [|congruence].
  apply list_elem_of_lookup in Hin as [i Hi]. apply list_elem_of_lookup in Hin' as [j Hj].
  assert (i = j) as ->; [|congruence].
  eapply (NoDup_lookup _ i j (f_id nf.2) ids_unique); rewrite list_lookup_fmap;
    [by rewrite Hi|rewrite Hj; cbn; by rewrite Eid].
Qed.

(** An unknown member is skipped. *)
Lemma decode_fields_skip nf st dec u rest r acc :
  nf ∈ all -> known nf.1 = false -> complete st -> reads (raw := any_raw) (R := Reader.DataReader) fuel dec (context_tag (f_id nf.2)) st u ->
  presents (raw := any_raw) r (st ++ rest) -> (2 * length st + 2 <= fuel)%nat ->
  exists r', (1 <= length st)%nat /\ presents (raw := any_raw) r' rest /\
    forall n, decode_fields fuel (S n) decoders false r acc = decode_fields fuel n decoders false r' acc.
Proof.
  intros Hin Hk Hc Hreads Hr Hf.
  destruct (Hreads rest r Hr Hf) as (e0 & st0 & r0 & _ & _ & H0 & _).
  destruct (presents_raw (raw := any_raw) _ rest r fuel Hc eq_refl Hr ltac:(lia))
    as (e & st' & r1 & r2 & -> & H1 & Hne & H2 & Hrest).
  rewrite H0 in H1. injection H1 as Ht Htl ->. rewrite Htl in H0.
  exists r2. split; [cbn; lia|]. split; [done|]. intros n. cbn [decode_fields]. rewrite H0.
  cbn [rbind default context_tag Datatypes.id]. destruct (decide _); [done|].
  cbn [is_some andb throw_if rbind]. rewrite by_id_unknown by done. by rewrite H2.
Qed.

Lemma decode_fields_mixed props todo :
  NoDup (map fst todo) -> Forall (fun nf => nf ∈ all) todo -> Forall (fun nf => f_repeated nf.2 = false) todo ->
  Forall (fun nf => field_fits (fits any_raw (f_schema nf.2)) nf.2 (prop props nf.1)) todo ->
  forall rest r acc, (forall name, name ∈ map fst todo -> name ∉ map fst acc) ->
    let st := concat (map (fun nf => field_elements (elements (f_schema nf.2)) nf.2 (prop props nf.1)) todo) in
    presents (raw := any_raw) r (st ++ rest) -> (2 * length st + 2 <= fuel)%nat ->
    exists g r', (g <= length st)%nat /\ presents (raw := any_raw) r' rest /\
      forall n, decode_fields fuel (g + n) decoders false r acc =
        decode_fields fuel n decoders false r'
          (acc ++ concat (map (read_back props) (List.filter (fun nf => known nf.1) todo))).
Proof.
  induction todo as [|[name f] todo IH]; intros Hnd Hin Hrep Hfit rest r acc Hacc st Hr Hf.
  { exists O, r. split; [lia|]. split; [done|]. intros n. by rewrite app_nil_r. }
  unfold st in *. cbn [map concat fst snd] in *. rewrite <- app_assoc in Hr. rewrite length_app in Hf.
  apply NoDup_cons in Hnd as [Hname Hnd]. apply Forall_cons in Hin as [Hin Hins]. apply Forall_cons in Hfit as [Hx Hfit].
  apply Forall_cons in Hrep as [Hr0 Hrep]. cbn [fst snd] in Hx, Hr0.
  pose proof Hin as Hid. apply (proj1 (Forall_forall _ _) ids_ok) in Hid. cbn [snd] in Hid.
  assert (exists g1 r1 new, (g1 <= length (field_elements (elements (f_schema f)) f (prop props name)))%nat /\
    presents (raw := any_raw) r1 (concat (map (fun nf => field_elements (elements (f_schema nf.2)) nf.2 (prop props nf.1)) todo) ++ rest) /\
    new = (if known name then read_back props (name, f) else []) /\
    forall n, decode_fields fuel (g1 + n) decoders false r acc = decode_fields fuel n decoders false r1 (acc ++ new))
    as (g1 & r1 & new & Hg1 & Hr1 & Hnew & Hd1).
  { destruct (known name) eqn:Ek.
    - edestruct (decode_fields_field (raw := any_raw) false fuel fields false fields_ids name f)
        as (g1 & r1 & Hg1 & Hr1 & Hd1); [by apply fields_sub|apply Hacc; by apply elem_of_cons; left|..].
      + eapply field_fits_impl; [|exact Hx]. intros y Hy. by apply decode_reads, good_context.
      + exact Hr.
      + lia.
      + by eexists g1, r1, _.
    - unfold field_elements in *. unfold field_fits in Hx. destruct (is_undefined _).
      { exists O, r, []. cbn in *. split_and!; [lia|done|done|]. intros n. by rewrite app_nil_r. }
      rewrite Hr0 in *. edestruct (decode_fields_skip (name, f)) as (r1 & Hl & Hr1 & Hd1); [done|done| | |exact Hr|lia|].
      + by apply (elements_complete any_raw), good_context.
      + by apply (decode_reads false), good_context.
      + exists 1%nat, r1, []. split_and!; [done..|]. intros n. rewrite app_nil_r. apply Hd1. }
  destruct (IH Hnd Hins Hrep Hfit rest r1 (acc ++ new)) as (g2 & r2 & Hg2 & Hr2 & Hd2); [|done|lia|].
  { intros n' Hn'. rewrite map_app, not_elem_of_app. split; [apply Hacc; by right|]. subst new.
    destruct (known name); [|by apply not_elem_of_nil]. unfold read_back. cbn.
    destruct (canon_field _ _ _); cbn; [|by apply not_elem_of_nil]. intros ->%list_elem_of_singleton. done. }
  exists (g1 + g2)%nat, r2. split; [rewrite length_app; lia|]. split; [done|]. intros n.
  rewrite <- Nat.add_assoc, Hd1, Hd2. cbn [List.filter fst]. subst new. destruct (known name); cbn [map concat];
    by rewrite <- ?app_assoc, ?app_nil_r.
Qed.

End Unknown.

(** A reader with an older schema: an object written with a schema that has
    further fields, anywhere among the old ones, decodes with the old schema
    to what it would be without them. *)
Theorem unknown_fields_ignored (all : list (string * Field)) (known : string -> bool) (v : Value) :
  let newer := SObject all Structure false false in
  let older := SObject (List.filter (fun nf => known nf.1) all) Structure false false in
  fits any_raw newer v -> Forall (fun nf => f_repeated nf.2 = false) all ->
  exists bs, encodeInternal newer v = Ok bs /\ decodeInternal older bs = Ok (canon older v).
Proof.
  intros newer older Hv Hrep. exists (stream_image (elements newer v None)).
  split; [by apply encodeInternal_elements|].
  pose proof (image_fuel _ (elements_complete any_raw newer v None Hv good_none)) as Hfuel.
  apply fits_object in Hv as (props & -> & Hn & Hids & Hi & _ & Hf).
  unfold decodeInternal, decodeTlvInternal. rewrite Reader.new_at. set (r := Reader.at_ [] _) in *.
  assert (presents (raw := any_raw) r (elements newer (JObject props) None)) as Hr.
  { exists [], []. by rewrite app_nil_r. }
  revert Hr Hfuel. generalize (decode_fuel r) as fuel. clearbody r. intros fuel Hr Hfuel.
  unfold newer in Hr, Hfuel. rewrite elements_object in Hr, Hfuel. cbn [field_order] in Hr, Hfuel.
  destruct (presents_container _ _ _ _ Hr good_none) as (r1 & H1 & Hr1); [done|].
  cbn [length] in Hfuel. rewrite length_app in Hfuel.
  destruct (decode_fields_mixed fuel all known Hids Hi props all Hn) with (rest := [end_marker]) (r := r1)
    (acc := @nil (string * Value)) as (g & r2 & Hg & Hr2 & Hdec); [by apply Forall_forall|done|done|
    by intros ? _ ?%elem_of_nil|done|lia|].
  destruct (presents_end _ _ Hr2) as (r3 & H3 & _).
  rewrite H1. cbn [rbind object_type]. unfold older. rewrite canon_object. cbn [decodeTlvInternalValue field_order].
  destruct (decide _); [|done]. specialize (Hdec (S (fuel - g - 1))).
  replace (g + S (fuel - g - 1))%nat with fuel in Hdec by lia. rewrite Hdec. cbn [decode_fields]. by rewrite H3.
Qed.
