(* ===== verification/TlvConstraints.v ===== *)
(** * Constraints and options of the TLV schemas

    Properties of the schemas of TlvSchemas.v beyond the round trip: what
    [bound] and [TlvNullable] do to the range of a number, that validated
    numbers survive encoding, that a write interaction carries no fabric
    index, and where a validated value does not survive (long UTF-8 strings,
    late epoch times). *)

From S2P Require Import Prelude DataIO CodecLib Text TlvCodec TlvAny TlvSchemas TlvRoundTrip.

(** ** Ranges of numbers *)

Definition in_range (n : Numeric) (z : Z) : bool := (n_min n <=? z) && (z <=? n_max n).

Lemma validate_number n z : validate (SNumber n) (JInt z) = if in_range n z then Ok tt else Throw ValidationError.
Proof.
  cbn [validate]. unfold validateBoundaries, in_range.
  destruct (Z.ltb_spec z (n_min n)), (Z.leb_spec (n_min n) z), (Z.ltb_spec (n_max n) z), (Z.leb_spec z (n_max n));
    cbn; lia || done.
Qed.

(** The bounds a schema keeps lie inside its base type. *)
Definition sane (n : Numeric) : Prop :=
  (forall m, own_min n = Some m -> baseTypeMin n < m) /\ (forall m, own_max n = Some m -> m < baseTypeMax n).

Lemma newNumeric_sane s i b lo hi min max : sane (newNumeric s i b lo hi min max).
Proof.
  split; cbn; intros m.
  - destruct min as [x|]; [|done]. destruct (Z.ltb_spec lo x); [|done]. by intros [= <-].
  - destruct max as [x|]; [|done]. destruct (Z.ltb_spec x hi); [|done]. by intros [= <-].
Qed.

Lemma constrain_range n min max z :
  in_range (constrain n min max) z =
  (Z.max min (baseTypeMin n) <=? z) && (z <=? Z.min max (baseTypeMax n)).
Proof.
  unfold in_range, constrain, n_min, n_max. cbn.
  destruct (Z.ltb_spec (baseTypeMin n) min), (Z.ltb_spec max (baseTypeMax n)); cbn [default from_option];
    f_equal; f_equal; cbn; lia.
Qed.

Lemma n_min_base n : sane n -> baseTypeMin n <= n_min n.
Proof.
  intros [Hm _]. unfold n_min. destruct (own_min n) as [m|]; cbn; [|lia]. specialize (Hm m eq_refl). lia.
Qed.

Lemma n_max_base n : sane n -> n_max n <= baseTypeMax n.
Proof.
  intros [_ Hm]. unfold n_max. destruct (own_max n) as [m|]; cbn; [|lia]. specialize (Hm m eq_refl). lia.
Qed.

Definition at_least (m : option Magnitude) (z : Z) : bool := match m with Some m => magnitude m <=? z | None => true end.
Definition at_most (m : option Magnitude) (z : Z) : bool := match m with Some m => z <=? magnitude m | None => true end.

Lemma bound_range n min max n' z :
  sane n -> bound n min max = Ok n' -> in_range n' z = in_range n z && at_least min z && at_most max z.
Proof.
  intros Hs. unfold bound. intros ([] & _ & ([] & _ & [= <-])%rbind_ok)%rbind_ok.
  rewrite constrain_range. pose proof (n_min_base n Hs). pose proof (n_max_base n Hs).
  unfold in_range, at_least, at_most. apply eq_iff_eq_true.
  destruct min, max; cbn; rewrite ?andb_true_iff, ?Z.leb_le; lia.
Qed.

Lemma bound_bigints n a b :
  sane n -> exists n2, bound n (Some (MBigint a)) (Some (MBigint b)) = Ok n2 /\
    forall z, in_range n2 z = in_range n z && (a <=? z) && (z <=? b).
Proof.
  intros Hs. eexists. split; [done|]. intros z. by rewrite (bound_range n (Some (MBigint a)) (Some (MBigint b)) _ z Hs).
Qed.

(** The value of the base type that stands for null. *)
Definition null_value (n : Numeric) : Z := if signed n then baseTypeMin n else baseTypeMax n.

(** Unsigned types start at 0, signed ones below it. *)
Definition signed_base (n : Numeric) : Prop := if signed n then baseTypeMin n < 0 else baseTypeMin n = 0.

Definition standard : list Numeric :=
  [TlvInt8; TlvInt16; TlvInt32; TlvInt64; TlvUInt8; TlvUInt16; TlvUInt24; TlvUInt32; TlvUInt64].

Lemma standard_ok n :
  n ∈ standard ->
  sane n /\ signed_base n /\ (forall z, baseTypeMin n <= z <= baseTypeMax n -> number_fits n z).
Proof.
  unfold standard. intros Hn. repeat (apply elem_of_cons in Hn as [-> |Hn]); [..|by apply elem_of_nil in Hn];
    (split; [apply newNumeric_sane|split; [done|]]); intros z Hz; cbn in Hz; unfold number_fits; cbn;
    (split; [lia|intros; lia || done]).
Qed.

Ltac in_standard := apply list_elem_of_In; cbn; auto 20.

(** The kind of a schema is kept by [bound]. *)
Lemma bound_kind n min max n' :
  bound n min max = Ok n' ->
  signed n' = signed n /\ isNumber n' = isNumber n /\ baseTypeMin n' = baseTypeMin n /\
  baseTypeMax n' = baseTypeMax n /\ sane n'.
Proof.
  unfold bound. intros ([] & _ & ([] & _ & [= <-])%rbind_ok)%rbind_ok. split_and!; try done. apply newNumeric_sane.
Qed.

(** A stated bound narrows a number type to exactly the stated range, and what
    the narrowed type validates survives encoding and decoding with
    validation. *)
Theorem bounded_number_roundtrip (n n' : Numeric) (min max : option Magnitude) (z : Z) :
  n ∈ standard -> bound n min max = Ok n' ->
  validate (SNumber n') (JInt z) =
    (if in_range n z && at_least min z && at_most max z then Ok tt else Throw ValidationError) /\
  (validate (SNumber n') (JInt z) = Ok tt ->
   exists bs, encode (SNumber n') (JInt z) = Ok bs /\ decode (SNumber n') bs true = Ok (JInt z)).
Proof.
  intros Hn Hb. destruct (standard_ok n Hn) as (Hs & _ & Hfit).
  destruct (bound_kind _ _ _ _ Hb) as (Es & Ei & Emin & Emax & Hs').
  rewrite validate_number, (bound_range _ _ _ _ _ Hs Hb). split; [done|].
  destruct (_ && _) eqn:E; [|done]. intros _.
  assert (in_range n z = true) as Hr by (by destruct (in_range n z)).
  unfold in_range in Hr. rewrite andb_true_iff, !Z.leb_le in Hr.
  pose proof (n_min_base n Hs). pose proof (n_max_base n Hs).
  assert (fits any_raw (SNumber n') (JInt z)) as Hf.
  { exists z. split; [done|]. unfold number_fits. rewrite Es, Ei. apply Hfit. lia. }
  destruct (schema_roundtrip_lemma _ _ Hf) as (bs & He & Hd). exists bs.
  assert (validate (SNumber n') (JInt z) = Ok tt) as Hv.
  { rewrite validate_number, (bound_range _ _ _ _ _ Hs Hb), E. done. }
  unfold encode, decode. rewrite Hv, Hd. cbn [rbind canon]. rewrite Hv. by split.
Qed.

(** C33: Making a number nullable takes exactly the sentinel value out of its
    range, whether the bounds of the type are numbers or bigints. *)
Theorem nullable_reserves_sentinel (n n' : Numeric) (min max : option Magnitude) :
  n ∈ standard -> bound n min max = Ok n' ->
  exists s, TlvNullable (SNumber n') = Ok s /\ validate s JNull = Ok tt /\
    forall z, validate s (JInt z) =
      if in_range n' z && negb (z =? null_value n) then Ok tt else Throw ValidationError.
Proof.
  intros Hn Hb. destruct (standard_ok n Hn) as (_ & Hsb & _).
  destruct (bound_kind _ _ _ _ Hb) as (Es & Ei & Emin & Emax & Hs).
  pose proof (n_min_base n' Hs). pose proof (n_max_base n' Hs).
  assert (exists n2, reserve_null n' = Ok n2 /\ forall z, in_range n2 z = in_range n' z && negb (z =? null_value n))
    as (n2 & E2 & H2).
  { unfold reserve_null, null_value, signed_base in *. rewrite Emin, Emax in *. destruct (signed n).
    - destruct (Z.eqb_spec (baseTypeMin n) 0); [lia|]. cbn [andb].
      destruct (Z.ltb_spec (baseTypeMin n) 0); [|lia]. cbn [andb]. destruct (Z.eqb_spec (n_min n') (baseTypeMin n)).
      + destruct (bound_bigints n' (baseTypeMin n + 1) (n_max n') Hs) as (n2 & E2 & H2).
        exists n2. split; [done|]. intros z. rewrite H2. unfold in_range.
        apply eq_iff_eq_true. rewrite ?andb_true_iff, ?negb_true_iff, ?Z.eqb_neq, ?Z.leb_le. lia.
      + eexists. split; [done|]. intros z. unfold in_range.
        apply eq_iff_eq_true. rewrite ?andb_true_iff, ?negb_true_iff, ?Z.eqb_neq, ?Z.leb_le. lia.
    - rewrite Hsb. cbn [Z.eqb andb Z.ltb Z.compare]. destruct (Z.eqb_spec (n_max n') (baseTypeMax n)).
      + destruct (bound_bigints n' (n_min n') (baseTypeMax n - 1) Hs) as (n2 & E2 & H2).
        exists n2. split; [done|]. intros z. rewrite H2. unfold in_range.
        apply eq_iff_eq_true. rewrite ?andb_true_iff, ?negb_true_iff, ?Z.eqb_neq, ?Z.leb_le. lia.
      + eexists. split; [done|]. intros z. unfold in_range.
        apply eq_iff_eq_true. rewrite ?andb_true_iff, ?negb_true_iff, ?Z.eqb_neq, ?Z.leb_le. lia. }
  exists (SNullable (SNumber n2)). cbn [TlvNullable]. rewrite E2. split_and!; [done|done|].
  intros z. change (validate (SNullable (SNumber n2)) (JInt z)) with (validate (SNumber n2) (JInt z)).
  by rewrite validate_number, H2.
Qed.

(** ** Write interactions *)

(** No part of the schema is a raw stream. *)
Fixpoint any_free (s : Schema) : Prop :=
  match s with
  | SNullable s | SArray s _ _ | SWrapper s _ _ => any_free s
  | SObject fields _ _ _ =>
      (fix go (l : list (string * Field)) : Prop :=
         match l with [] => True | (_, f) :: rest => any_free (f_schema f) /\ go rest end) fields
  | SAny => False
  | _ => True
  end.

Lemma any_free_fields fields t a p nf : any_free (SObject fields t a p) -> nf ∈ fields -> any_free (f_schema nf.2).
Proof.
  cbn [any_free]. induction fields as [|[n f] fields IH]; [by intros _ ?%elem_of_nil|].
  intros [Hf Hs] [-> |Hin]%elem_of_cons; [done|by apply IH].
Qed.

Section Write.
Variable o : TlvEncodingOptions.
Hypothesis write : forWriteInteraction o = true.

Definition unmarked (w : ArrayWriter) : Prop :=
  Forall (fun e => tag e <> context_tag FABRIC_INDEX_ID) (tlvArray w).

(** [m] writes no fabric index. *)
Definition keeps (m : ArrayWriter -> result ArrayWriter) : Prop :=
  forall w w', unmarked w -> m w = Ok w' -> unmarked w'.

Lemma keeps_tag tl t : t <> context_tag FABRIC_INDEX_ID -> keeps (fun w => writer_writeTag w tl t).
Proof.
  intros Ht w w' Hw [= <-]. unfold unmarked. cbn. apply Forall_app_2; [done|]. by apply Forall_singleton.
Qed.

Lemma keeps_primitive tl v : keeps (fun w => writer_writePrimitive w tl v).
Proof.
  intros w w' Hw H. cbn in H. unfold array_set_last in H. destruct (last (tlvArray w)) as [e|] eqn:E; [|done].
  cbn in H. injection H as <-. unfold unmarked in *. cbn. apply last_Some in E as [l E]. rewrite E in *.
  apply Forall_app in Hw as [Hl He]. rewrite Forall_singleton in He.
  apply Forall_app_2; [|by apply Forall_singleton]. by apply Forall_take, Forall_app_2; [|apply Forall_singleton].
Qed.

Lemma keeps_then m k : keeps m -> keeps k -> keeps (fun w => let* w := m w in k w).
Proof. intros Hm Hk w w' Hw (w1 & E1 & E2)%rbind_ok. eauto. Qed.

Lemma keeps_const {A} (r : result A) (k : A -> ArrayWriter -> result ArrayWriter) :
  (forall a, keeps (k a)) -> keeps (fun w => let* a := r in k a w).
Proof. intros Hk w w' Hw (a & _ & E)%rbind_ok. by eapply Hk. Qed.

Lemma keeps_each (enc : Encoder) t l :
  (forall v, keeps (fun w => enc w v t o)) -> keeps (fun w => encode_each enc t o l w).
Proof.
  intros He. induction l as [|v l IH]; [by intros w w' Hw [= <-]|]. by apply keeps_then.
Qed.

Lemma keeps_entry name f (enc : Encoder) v :
  (forall v t, t <> context_tag FABRIC_INDEX_ID -> keeps (fun w => enc w v t o)) ->
  keeps (fun w => encodeEntryToTlv name f enc w v o).
Proof.
  intros He. unfold encodeEntryToTlv. apply keeps_const. intros _. rewrite write. cbn [andb].
  destruct (Z.eqb_spec (f_id f) FABRIC_INDEX_ID) as [_|Hne]; [by intros w w' Hw [= <-]|].
  assert (context_tag (f_id f) <> context_tag FABRIC_INDEX_ID) by (unfold context_tag; congruence).
  apply keeps_const. intros x. destruct (is_undefined x).
  { apply keeps_const. by intros _ w w' Hw [= <-]. }
  destruct (f_repeated f); [|by apply He]. destruct x; try done. apply keeps_each. intros y. by apply He.
Qed.

Lemma keeps_structure entries v :
  Forall (fun e => forall v t, t <> context_tag FABRIC_INDEX_ID -> keeps (fun w => e.2.2 w v t o)) entries ->
  keeps (fun w => encodeStructure entries v o w).
Proof.
  induction 1 as [|[n [f enc]] entries He _ IH]; [by intros w w' Hw [= <-]|].
  apply keeps_then; [by apply keeps_entry|done].
Qed.

Lemma select_sub {A} (l : list (string * A)) keys e : e ∈ select l keys -> e ∈ l.
Proof.
  induction keys as [|k keys IH]; [by intros ?%elem_of_nil|]. cbn. destruct (assoc l k) as [a|] eqn:E; [|done].
  intros [-> |H]%elem_of_cons; [|by apply IH]. clear IH. induction l as [|[n b] l IH]; [done|]. cbn in E.
  case_decide; [|right; by apply IH]. simplify_eq. by left.
Qed.

Lemma keeps_encode s : any_free s -> forall v t, t <> context_tag FABRIC_INDEX_ID ->
  keeps (fun w => encodeTlvInternal s w v t o).
Proof.
  induction s as [n|l min max| |ty min max|s IH|s min max IH|fields ty a p IH|n bits|s wr un IH| |]
    using Schema_nested_ind; intros Hs v t Ht; cbn [encodeTlvInternal].
  - unfold encodeNumber. destruct v; try done. apply keeps_then; [by apply keeps_tag|apply keeps_primitive].
  - destruct v; try done. apply keeps_then; [by apply keeps_tag|apply keeps_primitive].
  - destruct v; try done. by apply keeps_tag.
  - unfold encodeString. destruct v; try done; (apply keeps_then; [by apply keeps_tag|apply keeps_primitive]).
  - destruct v; try (by apply IH). by apply keeps_tag.
  - destruct v; try done. apply keeps_then; [by apply keeps_tag|].
    apply keeps_then; [|by apply keeps_tag]. apply keeps_each. intros x. by apply IH.
  - apply keeps_then; [by apply keeps_tag|]. apply keeps_then; [|by apply keeps_tag].
    set (entries := map _ fields).
    assert (forall e, e ∈ entries ->
      forall v t, t <> context_tag FABRIC_INDEX_ID -> keeps (fun w => e.2.2 w v t o)) as He.
    { intros e (nf & -> & Hin)%list_elem_of_fmap. rewrite Forall_forall in IH. apply IH; [done|].
      by eapply any_free_fields. }
    destruct ty; [by apply keeps_structure, Forall_forall|]. unfold encodeList. apply keeps_const. intros keys.
    apply keeps_const. intros _. destruct p; [|by apply keeps_structure, Forall_forall].
    apply keeps_then; apply keeps_structure, Forall_forall; intros e Hin; apply He.
    + by eapply select_sub.
    + by apply unselected_elem in Hin as [Hin _].
  - apply keeps_const. intros z. unfold encodeNumber. apply keeps_then; [by apply keeps_tag|apply keeps_primitive].
  - apply keeps_const. intros x. by apply IH.
  - done.
  - by intros w w' Hw [= <-].
Qed.

End Write.

(** C32: With a schema that contains no raw [TlvAny] element, what is encoded
    for a write interaction carries no fabric index, at any depth, whatever
    the value provides.  (A [TlvAny] element is copied as it is given.) *)
Theorem write_omits_fabric_index (s : Schema) (v : Value) (st : TlvStream) :
  any_free s -> encodeTlv s v (mkOptions true false) = Ok st ->
  Forall (fun e => tag e <> context_tag FABRIC_INDEX_ID) st.
Proof.
  intros Hs (w & E & [= <-])%rbind_ok.
  by apply (keeps_encode (mkOptions true false) eq_refl s Hs v None ltac:(done) (mkArrayWriter []) w (Forall_nil_2 _)).
Qed.

(** ** Values that do not survive *)

Definition accented : Value := JString (replicate 200 0xe9).

(** A string of 200 code units that needs two bytes each: it validates and is
    encoded, but with a one-byte length, and what is decoded is another
    string. *)
Theorem long_utf8_string_corrupted :
  exists bs v, encode TlvString accented = Ok bs /\ decode TlvString bs true = Ok v /\ v <> accented.
Proof.
  eexists _, _. split; [vm_compute; reflexivity|]. split; [vm_compute; reflexivity|].
  intros [= E%(f_equal length)].
Qed.

(** A microsecond time from 2^64 microseconds after the Matter epoch on
    validates, and is decoded as an earlier one. *)
Theorem late_epoch_time_wraps :
  exists v bs u, encode TlvEpochUs v = Ok bs /\ decode TlvEpochUs bs true = Ok u /\ u <> v.
Proof.
  exists (JInt (2 ^ 64 + MATTER_EPOCH_OFFSET_US + 5)). eexists _, _.
  split; [vm_compute; reflexivity|]. split; [vm_compute; reflexivity|]. intros E. vm_compute in E. discriminate E.
Qed.

(** ** Witnesses *)

(** An object of a number, a nullable string, a list of numbers and a fabric
    index. *)
Definition sample_fields : list (string * Field) :=
  [("count", TlvField 0 (SNumber TlvUInt16) None);
   ("label", TlvOptionalField 1 (SNullable TlvString));
   ("items", TlvField 2 (TlvArray (SNumber TlvInt8) None None None) None);
   ("fabricIndex", TlvField 254 (SNumber TlvUInt8) None)]%string.

Definition sample_schema : Schema := SObject sample_fields Structure false false.

Definition sample_value : Value :=
  JObject [("items", JArray [JInt (-1); JInt 2]); ("label", JString [104; 105]); ("count", JInt 300);
           ("fabricIndex", JInt 3)]%string.

Lemma sample_number n z : number_fits n z -> fits any_raw (SNumber n) (JInt z).
Proof. intros H. by exists z. Qed.

Lemma sample_fits : fits any_raw sample_schema sample_value.
Proof.
  assert (forall n z, n ∈ standard -> baseTypeMin n <= z <= baseTypeMax n -> fits any_raw (SNumber n) (JInt z)) as Hz.
  { intros n z Hn Hr. apply sample_number. by apply standard_ok. }
  apply fits_object. eexists. split; [done|]. split; [by apply (bool_decide_unpack _)|].
  split; [by apply (bool_decide_unpack _)|]. split; [repeat (constructor; [cbn; lia|]); constructor|]. split; [done|].
  repeat (apply Forall_cons; split); [..|by apply Forall_nil]; cbn [fst snd].
  - change (prop _ _) with (JInt 300). apply Hz; [in_standard|cbn; lia].
  - change (prop _ _) with (JString [104; 105]). right. split; [done|]. split.
    + eexists. split; [done|]. split; [done|]. split; [done|]. by split.
    + by intros t e rest [= <- _].
  - change (prop _ _) with (JArray [JInt (-1); JInt 2]). eexists. split; [done|].
    repeat (apply Forall_cons; split); [..|by apply Forall_nil]; (apply Hz; [in_standard|cbn; lia]).
  - change (prop _ _) with (JInt 3). apply Hz; [in_standard|cbn; lia].
Qed.

Lemma schema_roundtrip_witness :
  exists bs, encodeInternal sample_schema sample_value = Ok bs /\
    decodeInternal sample_schema bs =
      Ok (JObject [("count", JInt 300); ("label", JString [104; 105]); ("items", JArray [JInt (-1); JInt 2]);
                   ("fabricIndex", JInt 3)]%string).
Proof. apply (schema_roundtrip sample_schema sample_value sample_fits). Defined.

Lemma unknown_fields_ignored_witness :
  exists bs, encodeInternal sample_schema sample_value = Ok bs /\
    decodeInternal (SObject [("count", TlvField 0 (SNumber TlvUInt16) None)]%string Structure false false) bs =
      Ok (JObject [("count", JInt 300)]%string).
Proof.
  apply (unknown_fields_ignored sample_fields (fun n => String.eqb n "count") sample_value sample_fits).
  repeat (apply Forall_cons; split; [done|]). by apply Forall_nil.
Defined.

Lemma chunked_array_roundtrip_witness :
  exists chunks, encodeAsChunkedArray SBoolean 0 10 [JBool true; JBool false] no_options = Ok chunks /\
    decodeFromChunkedArray false SBoolean 0 10 chunks (Some [JBool false]) = Ok [JBool true; JBool false].
Proof.
  apply (chunked_array_roundtrip false SBoolean 0 10 [JBool true; JBool false] (Some [JBool false])).
  repeat (apply Forall_cons; split; [by eexists|]). by apply Forall_nil.
Defined.

Lemma schema_decode_total_witness : decodeInternal sample_schema [0x15; 0x24; 0; 1] <> Throw OutOfFuel.
Proof. apply (schema_decode_total sample_schema [0x15; 0x24; 0; 1]). cbn. tauto. Defined.

Lemma bounded_number_roundtrip_witness :
  exists n, bound TlvUInt8 None (Some (MNumber 100)) = Ok n /\
    exists bs, encode (SNumber n) (JInt 42) = Ok bs /\ decode (SNumber n) bs true = Ok (JInt 42).
Proof.
  eexists. split; [reflexivity|].
  apply (bounded_number_roundtrip TlvUInt8 _ None (Some (MNumber 100)) 42); [in_standard|reflexivity|].
  vm_compute. reflexivity.
Defined.

Lemma nullable_reserves_sentinel_witness :
  exists s, TlvNullable (SNumber TlvUInt64) = Ok s /\ validate s (JInt (2 ^ 64 - 1)) = Throw ValidationError /\
    validate s (JInt (2 ^ 64 - 2)) = Ok tt.
Proof.
  destruct (nullable_reserves_sentinel TlvUInt64 TlvUInt64 None None) as (s & E & _ & H);
    [in_standard|vm_compute; reflexivity|].
  exists s. rewrite !H. split; [done|]. split; vm_compute; reflexivity.
Defined.

Lemma write_omits_fabric_index_witness :
  exists st, encodeTlv sample_schema sample_value (mkOptions true false) = Ok st /\
    Forall (fun e => tag e <> context_tag FABRIC_INDEX_ID) st.
Proof.
  eexists. split; [vm_compute; reflexivity|].
  eapply (write_omits_fabric_index sample_schema sample_value); [cbn; tauto|vm_compute; reflexivity].
Defined.
