(* ===== verification/TxLocks.v ===== *)
(** * Transactions: locking

    Models the locking half of src/packages/general/src/transaction: the
    resource sets of ResourceSet.ts and the operations of Tx.ts that take and
    release locks ([addResources], [addResourcesSync], [lock], [begin],
    [beginSync], [waitFor], [#finalize], [#reset], dispose).

    A transaction and a resource are named by an integer.  The state is shared:
    the [lockedBy] field of every resource and the fields of every transaction.
    An asynchronous operation runs up to its [await]; what follows is kept as
    the transaction's [suspension], and [resume] is the microtask that goes on
    with it.  Other transactions may run in between, in any order. *)

From stdpp Require Import gmap sets relations.
From S2P Require Import Prelude.

(** ** State *)

Inductive Status :=
| ReadOnly
| Shared
| Waiting
| Exclusive
| Settled
| CommittingPhaseOne
| CommittingPhaseTwo
| RollingBack
| Concluding
| Destroyed.

#[global] Instance Status_eq_dec : EqDecision Status.
Proof. solve_decision. Defined.

Inductive IsolationLevel := Rw | Ro | Snapshot.

(** Who awaits [acquireLocks]: [begin], or [addResources], which may itself be
    awaited by [#lockAsync]. *)
Inductive Caller :=
| FromBegin
| FromAddResources (resources : list Z) (lockAsync : bool).

(** Where an asynchronous operation of a transaction is suspended:
    in [waitFor], at the [await] of [acquireLocks] inside its loop; after
    [waitFor] resolved; at the [await] of the [acquireLocks] that its caller
    made, once that is settled; in [#lockAsync], once [addResources] is
    settled; or in [#finalize], while the finalizer runs. *)
Inductive Suspension :=
| Idle
| WaitingFor (others : list Z) (set : list Z) (caller : Caller)
| Woken (set : list Z) (caller : Caller)
| Acquired (caller : Caller) (settled : result unit)
| Added (settled : result unit)
| Finalizing.

Record Tx := mkTx {
  status : Status;
  resources : list Z;
  suspension : Suspension;
}.

(** The transaction that was never opened behaves as a destroyed one. *)
#[global] Instance Tx_inhabited : Inhabited Tx := populate (mkTx Destroyed [] Idle).

Record System := mkSystem {
  lockedBy : gmap Z Z;
  txs : gmap Z Tx;
}.

Definition tx_of (s : System) (t : Z) : Tx := txs s !!! t.

Definition with_tx (s : System) (t : Z) (x : Tx) : System :=
  mkSystem (lockedBy s) (<[t := x]> (txs s)).

Definition set_status (s : System) (t : Z) (st : Status) : System :=
  with_tx s t (mkTx st (resources (tx_of s t)) (suspension (tx_of s t))).

Definition set_resources (s : System) (t : Z) (rs : list Z) : System :=
  with_tx s t (mkTx (status (tx_of s t)) rs (suspension (tx_of s t))).

Definition suspend (s : System) (t : Z) (p : Suspension) : System :=
  with_tx s t (mkTx (status (tx_of s t)) (resources (tx_of s t)) p).

(** The getter [waitingOn]: [waitFor] sets the field, and it is cleared when
    the last of the awaited transactions becomes shared. *)
Definition waitingOn (x : Tx) : option (list Z) :=
  match suspension x with
  | WaitingFor others _ _ => Some others
  | _ => None
  end.

(** A JavaScript [Set] is the list of its members in insertion order. *)
Definition set_insert (l : list Z) (x : Z) : list Z :=
  if decide (x ∈ l) then l else l ++ [x].

Definition set_of (l : list Z) : list Z := foldl set_insert [] l.

(** [new Tx(via, lifetime, isolation)] *)
Definition open (s : System) (t : Z) (isolation : IsolationLevel) : System :=
  with_tx s t (mkTx match isolation with Rw => Shared | _ => ReadOnly end [] Idle).

(** What an operation reports to its caller: it returned, it threw (or its
    promise was rejected), or it is suspended. *)
Inductive Reply :=
| Returned
| Threw (e : MatterError)
| Suspended.

Definition reply_of (r : result unit) : Reply :=
  match r with Ok _ => Returned | Throw e => Threw e end.

Definition assertAvailable (s : System) (t : Z) : result unit :=
  let* _ := throw_if (bool_decide (status (tx_of s t) = Destroyed)) TransactionDestroyedError in
  throw_if (bool_decide (status (tx_of s t) = ReadOnly)) ReadOnlyError.

Section Locking.

(** [resource[Resource.reference]]: the resource a stand-in stands for, and a
    bound on the length of the chains. *)
Context (reference : Z -> option Z) (depth : nat).

(** The loop that follows the references of a resource. *)
Fixpoint dereference (fuel : nat) (resource : Z) : Z :=
  match fuel with
  | O => resource
  | S fuel =>
      match reference resource with
      | Some r => dereference fuel r
      | None => resource
      end
  end.

(** [new ResourceSet(transaction, resources)] *)
Definition ResourceSet (resources : list Z) : list Z :=
  set_of (map (dereference depth) resources).

(** [Resource.isLocked] *)
Definition isLocked (s : System) (resource : Z) : bool :=
  bool_decide (is_Some (lockedBy s !! dereference depth resource)).

(** ** ResourceSet *)

Definition lockableSync (s : System) (t : Z) (set : list Z) : bool :=
  forallb (fun r => match lockedBy s !! r with Some u => bool_decide (u = t) | None => true end) set.

(** The transactions other than [t] that hold a resource of [set]. *)
Definition blockedBy (s : System) (t : Z) (set : list Z) : list Z :=
  foldl (fun blocked r =>
    match lockedBy s !! r with
    | Some u => if decide (u = t) then blocked else set_insert blocked u
    | None => blocked
    end) [] set.

Definition acquireLocksSync (s : System) (t : Z) (set : list Z) : result System :=
  let '(toLock, blocked) := foldl (fun '(toLock, blocked) r =>
    match lockedBy s !! r with
    | Some u =>
        if decide (u = t) then (toLock, blocked)
        else (set_insert toLock r, set_insert blocked r)
    | None => (set_insert toLock r, blocked)
    end) ([], []) set in
  let* _ := throw_if (negb (bool_decide (blocked = []))) SynchronousTransactionConflictError in
  Ok (mkSystem (foldl (fun locks r => <[r := t]> locks) (lockedBy s) toLock) (txs s)).

Definition releaseLocks (s : System) (t : Z) (set : list Z) : System :=
  mkSystem (foldl (fun locks r => if decide (locks !! r = Some t) then delete r locks else locks) (lockedBy s) set)
    (txs s).

(** [examineBlocker], which shares [examined] among all its calls.  The fuel
    bounds the nesting. *)
Fixpoint examineBlocker (fuel : nat) (s : System) (self : Z) (t : Z) (examined : list Z) : result (list Z) :=
  match fuel with
  | O => Throw OutOfFuel
  | S fuel =>
      let examined := set_insert examined t in
      if decide (t = self) then Throw TransactionDeadlockError
      else
        match waitingOn (tx_of s t) with
        | None => Ok examined
        | Some blockers =>
            (fix each (blockers : list Z) (examined : list Z) : result (list Z) :=
               match blockers with
               | [] => Ok examined
               | blocker :: rest =>
                   if decide (blocker ∈ examined) then each rest examined
                   else
                     let* examined := examineBlocker fuel s self blocker examined in
                     each rest examined
               end) blockers examined
        end
  end.

(** Nesting adds a transaction to [examined] each time, so the number of
    transactions bounds it. *)
Definition nesting (s : System) : nat := S (S (size (txs s))).

Fixpoint examine_each (s : System) (self : Z) (blockedBy : list Z) (examined : list Z) : result (list Z) :=
  match blockedBy with
  | [] => Ok examined
  | t :: rest =>
      let* examined := examineBlocker (nesting s) s self t examined in
      examine_each s self rest examined
  end.

Definition detectDeadlock (s : System) (self : Z) (blockedBy : list Z) : result unit :=
  let* _ := examine_each s self blockedBy [] in Ok tt.

(** [waitFor]: the listeners it installs are part of [emit_shared]. *)
Definition waitFor (s : System) (t : Z) (others : list Z) (set : list Z) (caller : Caller) : result System :=
  let* _ := assertAvailable s t in
  let* _ := throw_if (bool_decide (is_Some (waitingOn (tx_of s t)))) TransactionFlowError in
  Ok (suspend s t (WaitingFor others set caller)).

(** One turn of the loop of [acquireLocks], with the locking that follows it.
    An asynchronous function that is done settles its promise, and its caller
    goes on in a later microtask. *)
Definition acquireLocks (s : System) (t : Z) (set : list Z) (caller : Caller) : System :=
  match blockedBy s t set with
  | [] =>
      match acquireLocksSync s t set with
      | Ok s => suspend s t (Acquired caller (Ok tt))
      | Throw e => suspend s t (Acquired caller (Throw e))
      end
  | blocked =>
      match (let* _ := detectDeadlock s t blocked in waitFor s t blocked set caller) with
      | Ok s => s
      | Throw e => suspend s t (Acquired caller (Throw e))
      end
  end.

(** ** Tx *)

Definition addResourcesSync (s : System) (t : Z) (rs : list Z) : result System :=
  let* _ := assertAvailable s t in
  let* s :=
    if decide (status (tx_of s t) = Exclusive) then acquireLocksSync s t (ResourceSet rs)
    else if decide (status (tx_of s t) = Shared) then Ok s
    else Throw TransactionFlowError in
  Ok (set_resources s t (foldl set_insert (resources (tx_of s t)) rs)).

(** The end of [addResources]: its caller is [#lockAsync], which goes on in a
    later microtask, or the program. *)
Definition addResources_settled (s : System) (t : Z) (lockAsync : bool) (r : result unit) : System * Reply :=
  if lockAsync then (suspend s t (Added r), Suspended)
  else (suspend s t Idle, reply_of r).

(** [addResources] once its [await], if any, is over. *)
Definition addResources_rest (s : System) (t : Z) (rs : list Z) (lockAsync : bool) : System * Reply :=
  match addResourcesSync s t rs with
  | Ok s => addResources_settled s t lockAsync (Ok tt)
  | Throw e => addResources_settled s t lockAsync (Throw e)
  end.

Definition addResources_from (s : System) (t : Z) (rs : list Z) (lockAsync : bool) : System * Reply :=
  match assertAvailable s t with
  | Throw e => addResources_settled s t lockAsync (Throw e)
  | Ok _ =>
      if decide (status (tx_of s t) = Exclusive) then
        (acquireLocks s t (ResourceSet rs) (FromAddResources rs lockAsync), Suspended)
      else addResources_rest s t rs lockAsync
  end.

Definition addResources (s : System) (t : Z) (rs : list Z) : System * Reply :=
  addResources_from s t rs false.

Definition begin (s : System) (t : Z) : System * Reply :=
  match assertAvailable s t with
  | Throw e => (suspend s t Idle, Threw e)
  | Ok _ =>
      if decide (status (tx_of s t) = Exclusive) then (suspend s t Idle, Returned)
      else if decide (status (tx_of s t) = Shared) then
        let s := set_status s t Waiting in
        (acquireLocks s t (ResourceSet (resources (tx_of s t))) FromBegin, Suspended)
      else (suspend s t Idle, Threw TransactionFlowError)
  end.

(** The rest of [begin], its [catch] included. *)
Definition begin_rest (s : System) (t : Z) (r : result unit) : System * Reply :=
  match r with
  | Ok _ => (suspend (set_status s t Exclusive) t Idle, Returned)
  | Throw e => (suspend (set_status s t Shared) t Idle, Threw e)
  end.

Definition beginSync (s : System) (t : Z) : System * Reply :=
  match assertAvailable s t with
  | Throw e => (s, Threw e)
  | Ok _ =>
      if decide (status (tx_of s t) = Exclusive) then (s, Returned)
      else if decide (status (tx_of s t) = Shared) then
        let s := set_status s t Exclusive in
        match acquireLocksSync s t (ResourceSet (resources (tx_of s t))) with
        | Ok s => (s, Returned)
        | Throw e => (set_status s t Shared, Threw e)
        end
      else (s, Threw TransactionFlowError)
  end.

Definition lock (s : System) (t : Z) (rs : list Z) : System * Reply :=
  if lockableSync s t (ResourceSet (resources (tx_of s t) ++ rs)) then
    match addResourcesSync s t rs with
    | Ok s => beginSync s t
    | Throw e => (s, Threw e)
    end
  else addResources_from s t rs true.

(** The microtask that continues the suspended operation of [t]. *)
Definition resume (s : System) (t : Z) : System * Reply :=
  match suspension (tx_of s t) with
  | Woken set caller => (acquireLocks s t set caller, Suspended)
  | Acquired FromBegin r => begin_rest s t r
  | Acquired (FromAddResources rs lockAsync) (Ok _) => addResources_rest s t rs lockAsync
  | Acquired (FromAddResources rs lockAsync) (Throw e) => addResources_settled s t lockAsync (Throw e)
  | Added (Ok _) => begin s t
  | Added (Throw e) => (suspend s t Idle, Threw e)
  | _ => (s, Suspended)
  end.

(** [this.#shared?.emit()]: every transaction that waits for [t] drops it from
    the set it waits for, and is woken when the set is empty. *)
Definition drop_blocker (t : Z) (x : Tx) : Tx :=
  match suspension x with
  | WaitingFor others set caller =>
      if decide (t ∈ others) then
        let others := filter (fun u => u <> t) others in
        mkTx (status x) (resources x)
          (if decide (others = []) then Woken set caller else WaitingFor others set caller)
      else x
  | _ => x
  end.

Definition emit_shared (s : System) (t : Z) : System :=
  mkSystem (lockedBy s) (drop_blocker t <$> txs s).

Definition reset (s : System) (t : Z) : System :=
  let s := releaseLocks s t (ResourceSet (resources (tx_of s t))) in
  let s := set_resources s t [] in
  let s := set_status s t Shared in
  emit_shared s t.

(** [#finalize] up to the finalizer, and its end. *)
Definition finalize (s : System) (t : Z) (st : Status) : System * Reply :=
  if decide (status (tx_of s t) = Shared \/ status (tx_of s t) = Exclusive) then
    (suspend (set_status s t st) t Finalizing, Suspended)
  else (s, Threw TransactionFlowError).

Definition finalized (s : System) (t : Z) : System :=
  suspend (reset s t) t Idle.

(** [[Symbol.dispose]()] *)
Definition dispose (s : System) (t : Z) : System :=
  set_status (reset s t) t Destroyed.

(** Whether all resources of a transaction are locked by it. *)
Definition assertResourcesAreLocked (s : System) (t : Z) : result unit :=
  throw_if (negb (forallb (fun r => bool_decide (lockedBy s !! r = Some t)) (resources (tx_of s t))))
    TransactionFlowError.

End Locking.

(** ** The wait graph and the search in it *)

(** [t] waits for [u]. *)
Definition waits (s : System) (t u : Z) : Prop :=
  exists others, waitingOn (tx_of s t) = Some others /\ u ∈ others.

Lemma set_insert_elem l x y : y ∈ set_insert l x <-> y ∈ l \/ y = x.
Proof. unfold set_insert. case_decide; set_solver. Qed.

Lemma set_inserts_elem rs l y : y ∈ foldl set_insert l rs <-> y ∈ l \/ y ∈ rs.
Proof.
  revert l. induction rs as [|r rs IH]; intros l; simpl; [set_solver|].
  rewrite IH, set_insert_elem. set_solver.
Qed.

Lemma set_of_elem l y : y ∈ set_of l <-> y ∈ l.
Proof. unfold set_of. rewrite set_inserts_elem. set_solver. Qed.

Section Search.

Context (s : System) (self : Z).

(** The loop over the blockers inside [examineBlocker]. *)
Fixpoint each_blocker (fuel : nat) (blockers examined : list Z) : result (list Z) :=
  match blockers with
  | [] => Ok examined
  | blocker :: rest =>
      if decide (blocker ∈ examined) then each_blocker fuel rest examined
      else
        let* examined := examineBlocker fuel s self blocker examined in
        each_blocker fuel rest examined
  end.

Lemma examineBlocker_unfold fuel t examined :
  examineBlocker (S fuel) s self t examined =
  if decide (t = self) then Throw TransactionDeadlockError
  else match waitingOn (tx_of s t) with
       | None => Ok (set_insert examined t)
       | Some blockers => each_blocker fuel blockers (set_insert examined t)
       end.
Proof.
  cbn [examineBlocker]. case_decide; [done|]. destruct (waitingOn _) as [bs|]; [|done].
  generalize (set_insert examined t). induction bs as [|b bs IH]; intros ex; [done|].
  cbn [each_blocker]. case_decide; [apply IH|].
  destruct (examineBlocker fuel s self b ex); [apply IH|done].
Qed.

(** A search that ends normally has examined everything it can reach: what it
    adds is closed under [waits]. *)
Definition explored (ex ex' : list Z) : Prop :=
  ex ⊆ ex' /\ (self ∈ ex' -> self ∈ ex) /\
  forall x y, x ∈ ex' -> x ∉ ex -> waits s x y -> y ∈ ex'.

Lemma explored_refl ex : explored ex ex.
Proof. split_and!; [done..|set_solver]. Qed.

Lemma explored_trans a b c : explored a b -> explored b c -> explored a c.
Proof.
  intros (H1 & H2 & H3) (K1 & K2 & K3). split_and!; [set_solver|auto|].
  intros x y Hx Hnx Hw. destruct (decide (x ∈ b)); [|by eauto].
  apply K1. eauto.
Qed.

Lemma each_blocker_ok fuel bs ex ex' :
  (forall t a b, examineBlocker fuel s self t a = Ok b -> explored a b /\ t ∈ b) ->
  each_blocker fuel bs ex = Ok ex' -> explored ex ex' /\ forall b, b ∈ bs -> b ∈ ex'.
Proof.
  intros IH. revert ex. induction bs as [|b bs IHb]; intros ex; cbn [each_blocker].
  - intros [= <-]. split; [apply explored_refl|set_solver].
  - case_decide as Hb.
    + intros (H1 & H2)%IHb. split; [done|]. intros b' [->|Hb']%elem_of_cons; [|auto]. by apply H1.
    + intros (mid & [E1 Eb]%IH & [E2 E3]%IHb)%rbind_ok. split; [by eapply explored_trans|].
      intros b' [->|Hb']%elem_of_cons; [|auto]. by apply E2.
Qed.

Lemma examineBlocker_ok fuel t ex ex' :
  examineBlocker fuel s self t ex = Ok ex' -> explored ex ex' /\ t ∈ ex'.
Proof.
  revert t ex ex'. induction fuel as [|fuel IH]; intros t ex ex'; [done|].
  rewrite examineBlocker_unfold. case_decide as Hself; [done|].
  assert (Hins : forall y, y ∈ set_insert ex t <-> y ∈ ex \/ y = t) by apply set_insert_elem.
  destruct (waitingOn (tx_of s t)) as [bs|] eqn:Hw.
  - intros ((H1 & H2 & H3) & Hbs)%(each_blocker_ok _ _ _ _ IH).
    assert (Ht : t ∈ ex') by (apply H1; set_solver).
    split; [split_and!|done]; [set_solver|set_solver|].
    intros x y Hx Hnx Hxy. destruct (decide (x = t)) as [->|].
    + destruct Hxy as (o & Ho & Hy). simplify_eq. auto.
    + apply (H3 x y); [done|set_solver|done].
  - intros [= <-]. split; [split_and!|set_solver]; [set_solver|set_solver|].
    intros x y Hx Hnx (o & Ho & _). assert (x = t) as -> by set_solver. congruence.
Qed.

(** A search that fails has found a path to [self], or has no fuel left. *)
Lemma each_blocker_throw fuel bs ex e :
  (forall t a e, examineBlocker fuel s self t a = Throw e ->
     e = TransactionDeadlockError /\ rtc (waits s) t self \/ e = OutOfFuel) ->
  each_blocker fuel bs ex = Throw e ->
  e = TransactionDeadlockError /\ (exists b, b ∈ bs /\ rtc (waits s) b self) \/ e = OutOfFuel.
Proof.
  intros IH. revert ex. induction bs as [|b bs IHb]; intros ex; cbn [each_blocker]; [done|].
  assert (Hin : forall b', b' ∈ bs -> b' ∈ b :: bs) by set_solver.
  case_decide as Hb; [by intros [(-> & b' & ? & ?)|]%IHb; [left; eauto|right]|].
  destruct (examineBlocker fuel s self b ex) eqn:E; cbn [rbind].
  - by intros [(-> & b' & ? & ?)|]%IHb; [left; eauto|right].
  - intros [= <-]. apply IH in E as [[-> ?]|]; [|by right]. left. split; [done|]. exists b. set_solver.
Qed.

Lemma examineBlocker_throw fuel t ex e :
  examineBlocker fuel s self t ex = Throw e ->
  e = TransactionDeadlockError /\ rtc (waits s) t self \/ e = OutOfFuel.
Proof.
  revert t ex e. induction fuel as [|fuel IH]; intros t ex e; [intros [= <-]; by right|].
  rewrite examineBlocker_unfold. case_decide as Hself; [intros [= <-]; subst; by left|].
  destruct (waitingOn (tx_of s t)) as [bs|] eqn:Hw; [|done].
  intros [(-> & b & Hb & Hp)|]%(each_blocker_throw _ _ _ _ IH); [left|by right].
  split; [done|]. eapply rtc_l; [|done]. exists bs. done.
Qed.

(** The transactions a search has not examined yet. *)
Definition unexamined (ex : list Z) : nat := size (dom (txs s) ∖ list_to_set (C := gset Z) ex).

Lemma unexamined_mono ex ex' : ex ⊆ ex' -> (unexamined ex' <= unexamined ex)%nat.
Proof. intros H. unfold unexamined. apply (subseteq_size (C := gset Z)). set_solver. Qed.

Lemma unexamined_insert ex t :
  t ∈ dom (txs s) -> t ∉ ex -> (unexamined (set_insert ex t) < unexamined ex)%nat.
Proof.
  intros Ht Hn. unfold unexamined. apply (subset_size (C := gset Z)). split.
  - intros x. rewrite !elem_of_difference, !elem_of_list_to_set, set_insert_elem. naive_solver.
  - intros H. assert (Hin : t ∈ dom (txs s) ∖ list_to_set (C := gset Z) ex) by set_solver.
    apply H in Hin. rewrite elem_of_difference, elem_of_list_to_set, set_insert_elem in Hin. naive_solver.
Qed.

Lemma waiting_known t bs : waitingOn (tx_of s t) = Some bs -> t ∈ dom (txs s).
Proof.
  intros H. apply elem_of_dom. unfold tx_of in H. rewrite lookup_total_alt in H.
  destruct (txs s !! t); [done|]. by cbn in H.
Qed.

Definition enough (fuel : nat) (t : Z) (ex : list Z) : Prop :=
  (1 <= fuel)%nat /\ (t ∈ dom (txs s) -> (unexamined (set_insert ex t) + 2 <= fuel)%nat).

Lemma enough_next fuel t ex ex' b :
  t ∈ dom (txs s) -> enough (S fuel) t ex -> set_insert ex t ⊆ ex' -> b ∉ ex' -> enough fuel b ex'.
Proof.
  intros Ht [_ H] Hsub Hb. specialize (H Ht). pose proof (unexamined_mono _ _ Hsub).
  split; [lia|]. intros Hbd. pose proof (unexamined_insert ex' b Hbd Hb). lia.
Qed.

Lemma each_blocker_fuel fuel t bs ex ex' :
  t ∈ dom (txs s) -> enough (S fuel) t ex -> set_insert ex t ⊆ ex' ->
  (forall t ex, enough fuel t ex -> examineBlocker fuel s self t ex <> Throw OutOfFuel) ->
  each_blocker fuel bs ex' <> Throw OutOfFuel.
Proof.
  intros Ht He Hsub IH. revert ex' Hsub. induction bs as [|b bs IHb]; intros ex' Hsub; cbn [each_blocker]; [done|].
  case_decide as Hb; [by apply IHb|].
  pose proof (IH b ex' (enough_next _ _ _ _ _ Ht He Hsub Hb)) as Hnf.
  destruct (examineBlocker fuel s self b ex') as [mid|] eqn:E; cbn [rbind]; [|done].
  apply IHb. apply examineBlocker_ok in E as [(H1 & _) _]. set_solver.
Qed.

Lemma examineBlocker_fuel fuel t ex :
  enough fuel t ex -> examineBlocker fuel s self t ex <> Throw OutOfFuel.
Proof.
  revert t ex. induction fuel as [|fuel IH]; intros t ex He; [by destruct He; lia|].
  rewrite examineBlocker_unfold. case_decide; [done|].
  destruct (waitingOn (tx_of s t)) as [bs|] eqn:Hw; [|done].
  eapply each_blocker_fuel; [by eapply waiting_known|done..].
Qed.

Lemma enough_nesting t ex : enough (nesting s) t ex.
Proof.
  unfold nesting. split; [lia|]. intros _. rewrite <- (size_dom (txs s)).
  assert (unexamined (set_insert ex t) <= size (dom (txs s)))%nat by (unfold unexamined; apply (subseteq_size (C := gset Z)); set_solver). lia.
Qed.

Lemma examine_each_spec bs ex :
  match examine_each s self bs ex with
  | Ok ex' => explored ex ex' /\ forall b, b ∈ bs -> b ∈ ex'
  | Throw e => e = TransactionDeadlockError /\ exists b, b ∈ bs /\ rtc (waits s) b self
  end.
Proof.
  revert ex. induction bs as [|b bs IH]; intros ex; cbn [examine_each].
  { split; [apply explored_refl|set_solver]. }
  pose proof (examineBlocker_fuel _ _ _ (enough_nesting b ex)) as Hf.
  destruct (examineBlocker (nesting s) s self b ex) as [mid|e] eqn:E; cbn [rbind].
  - apply examineBlocker_ok in E as [E1 E2]. specialize (IH mid).
    destruct (examine_each s self bs mid) as [ex'|e].
    + destruct IH as [I1 I2]. split; [by eapply explored_trans|].
      intros b' [->|Hb']%elem_of_cons; [|auto]. by apply I1.
    + destruct IH as (-> & b' & ? & ?). split; [done|]. exists b'. set_solver.
  - apply examineBlocker_throw in E as [[-> ?]|E]; [|congruence]. split; [done|]. exists b. set_solver.
Qed.

(** From what a search examined, only what it examined can be reached. *)
Lemma explored_closed ex' x y : explored [] ex' -> x ∈ ex' -> rtc (waits s) x y -> y ∈ ex'.
Proof. intros (_ & _ & H) Hx Hr. induction Hr; [done|]. apply IHHr. eapply H; [done|set_solver|done]. Qed.

Lemma detectDeadlock_cases bs :
  detectDeadlock s self bs = Throw TransactionDeadlockError /\ (exists b, b ∈ bs /\ rtc (waits s) b self) \/
  detectDeadlock s self bs = Ok tt /\ forall b, b ∈ bs -> ~ rtc (waits s) b self.
Proof.
  unfold detectDeadlock. pose proof (examine_each_spec bs []) as H.
  destruct (examine_each s self bs []) as [ex'|e]; cbn [rbind].
  - right. split; [done|]. destruct H as [He Hbs]. intros b Hb Hr.
    pose proof (explored_closed _ _ _ He (Hbs b Hb) Hr) as Hin. destruct He as (_ & He & _). set_solver.
  - left. by destruct H as [-> H].
Qed.

(** A deadlock is reported exactly when one of the transactions that hold a
    wanted resource waits, directly or through others, for the transaction that
    wants it; and the search always ends. *)
Theorem deadlock_detected_iff bs :
  (detectDeadlock s self bs = Throw TransactionDeadlockError <-> exists b, b ∈ bs /\ rtc (waits s) b self) /\
  (detectDeadlock s self bs = Ok tt <-> forall b, b ∈ bs -> ~ rtc (waits s) b self).
Proof.
  destruct (detectDeadlock_cases bs) as [[-> (b & Hb & Hr)]|[-> H]]; split; split; try done; try naive_solver.
Qed.

End Search.

(** ** Resource sets *)

Section Sets.

Context (s : System) (t : Z).

Lemma lockableSync_spec set :
  lockableSync s t set = true <-> forall r, r ∈ set -> lockedBy s !! r = None \/ lockedBy s !! r = Some t.
Proof.
  unfold lockableSync. rewrite forallb_forall. setoid_rewrite <- list_elem_of_In.
  split; intros H r Hr; specialize (H r Hr).
  - destruct (lockedBy s !! r); [|by left]. apply bool_decide_eq_true in H as ->. by right.
  - destruct H as [->| ->]; [done|]. by apply bool_decide_eq_true.
Qed.

Lemma blockedBy_elem set u :
  u ∈ blockedBy s t set <-> u <> t /\ exists r, r ∈ set /\ lockedBy s !! r = Some u.
Proof.
  unfold blockedBy. enough (G : forall acc, u ∈ foldl (fun blocked r =>
    match lockedBy s !! r with
    | Some u => if decide (u = t) then blocked else set_insert blocked u
    | None => blocked
    end) acc set <-> u ∈ acc \/ u <> t /\ exists r, r ∈ set /\ lockedBy s !! r = Some u).
  { rewrite G. set_solver. }
  induction set as [|r set IH]; intros acc; cbn [foldl]; [set_solver|].
  rewrite IH. setoid_rewrite elem_of_cons.
  destruct (lockedBy s !! r) as [v|] eqn:Hr; [case_decide as Hv; [|rewrite set_insert_elem]|]; naive_solver.
Qed.

Lemma blockedBy_nil set :
  blockedBy s t set = [] <-> lockableSync s t set = true.
Proof.
  rewrite lockableSync_spec. split.
  - intros H r Hr. destruct (lockedBy s !! r) as [u|] eqn:Hu; [|by left].
    destruct (decide (u = t)) as [->|Hn]; [by right|].
    assert (u ∈ blockedBy s t set) by (apply blockedBy_elem; eauto). rewrite H in *. set_solver.
  - intros H. destruct (blockedBy s t set) as [|u l] eqn:E; [done|].
    assert (Hu : u ∈ blockedBy s t set) by (rewrite E; set_solver).
    apply blockedBy_elem in Hu as (Hn & r & Hr & Hl). specialize (H r Hr). naive_solver.
Qed.

(** The two sets [acquireLocksSync] collects. *)
Lemma toLock_spec set :
  let '(toLock, blocked) := foldl (fun '(toLock, blocked) r =>
    match lockedBy s !! r with
    | Some u =>
        if decide (u = t) then (toLock, blocked)
        else (set_insert toLock r, set_insert blocked r)
    | None => (set_insert toLock r, blocked)
    end) ([], []) set in
  (forall r, r ∈ toLock <-> r ∈ set /\ lockedBy s !! r <> Some t) /\
  (forall r, r ∈ blocked <-> r ∈ set /\ exists u, u <> t /\ lockedBy s !! r = Some u).
Proof.
  match goal with |- context [foldl ?f ([], []) set] => set (F := f) end.
  enough (G : forall l b, (forall r, r ∈ (foldl F (l, b) set).1 <-> r ∈ l \/ r ∈ set /\ lockedBy s !! r <> Some t) /\
    (forall r, r ∈ (foldl F (l, b) set).2 <-> r ∈ b \/ r ∈ set /\ exists u, u <> t /\ lockedBy s !! r = Some u)).
  { destruct (G [] []) as [G1 G2]. destruct (foldl F ([], []) set). simpl in *.
    split; intros r; [rewrite G1|rewrite G2]; set_solver. }
  induction set as [|x set IH]; intros l b; cbn [foldl]; [simpl; set_solver|].
  setoid_rewrite elem_of_cons. unfold F at 2 4.
  destruct (lockedBy s !! x) as [u|] eqn:Hx; [case_decide as Hu; [subst|]|];
    (split; intros r; [rewrite (proj1 (IH _ _) r)|rewrite (proj2 (IH _ _) r)]);
    rewrite ?set_insert_elem; naive_solver.
Qed.

Lemma lock_all_lookup set (m : gmap Z Z) r :
  foldl (fun locks r => <[r := t]> locks) m set !! r = if decide (r ∈ set) then Some t else m !! r.
Proof.
  revert m. induction set as [|x set IH]; intros m; cbn [foldl]; [by case_decide; [set_solver|]|].
  rewrite IH. destruct (decide (r = x)) as [->|Hn].
  - rewrite lookup_insert_eq. case_decide; case_decide; set_solver.
  - rewrite lookup_insert_ne by done. case_decide; case_decide; set_solver.
Qed.

Lemma acquireLocksSync_conflict set :
  lockableSync s t set = false -> acquireLocksSync s t set = Throw SynchronousTransactionConflictError.
Proof.
  intros El. unfold acquireLocksSync. pose proof (toLock_spec set) as H.
  match goal with |- context [foldl ?f ([], []) set] => destruct (foldl f ([], []) set) as [l b] end.
  destruct H as [_ Hb]. rewrite bool_decide_eq_false_2; [done|]. intros ->.
  apply not_true_iff_false in El. apply El, lockableSync_spec. intros r Hr.
  destruct (lockedBy s !! r) as [u|] eqn:Hu; [|by left]. destruct (decide (u = t)) as [->|]; [by right|].
  assert (r ∈ @nil Z) by (apply Hb; eauto). set_solver.
Qed.

Lemma acquireLocksSync_ok set :
  lockableSync s t set = true ->
  exists s', acquireLocksSync s t set = Ok s' /\ txs s' = txs s /\
    forall r, lockedBy s' !! r = if decide (r ∈ set) then Some t else lockedBy s !! r.
Proof.
  intros Hl. pose proof (proj1 (lockableSync_spec set) Hl) as Hfree.
  unfold acquireLocksSync. pose proof (toLock_spec set) as H.
  match goal with |- context [foldl ?f ([], []) set] => destruct (foldl f ([], []) set) as [l b] end.
  destruct H as [Ht Hb]. rewrite bool_decide_eq_true_2.
  2:{ destruct b as [|r b]; [done|]. destruct (proj1 (Hb r)) as (Hr & u & Hu & E); [set_solver|].
      destruct (Hfree r Hr); congruence. }
  eexists. split_and!; [done|done|]. intros r. cbn [lockedBy]. rewrite lock_all_lookup.
  destruct (decide (r ∈ l)) as [Hin|Hin].
  - rewrite decide_True; [done|]. by apply Ht.
  - case_decide as Hr; [|done]. destruct (decide (lockedBy s !! r = Some t)); [done|]. exfalso. apply Hin, Ht. done.
Qed.

Lemma releaseLocks_lookup set r :
  lockedBy (releaseLocks s t set) !! r =
  if decide (r ∈ set /\ lockedBy s !! r = Some t) then None else lockedBy s !! r.
Proof.
  unfold releaseLocks. cbn [lockedBy]. generalize (lockedBy s) as m.
  induction set as [|x set IH]; intros m; cbn [foldl].
  { rewrite decide_False; [done|set_solver]. }
  rewrite IH. destruct (decide (m !! x = Some t)) as [Hx|Hx].
  - destruct (decide (r = x)) as [->|Hn].
    + rewrite lookup_delete_eq. repeat case_decide; rewrite ?elem_of_cons in *; naive_solver.
    + rewrite lookup_delete_ne by done. repeat case_decide; rewrite ?elem_of_cons in *; naive_solver.
  - repeat case_decide; rewrite ?elem_of_cons in *; naive_solver.
Qed.

(** [lockableSync] tells, without trying, whether [acquireLocksSync] succeeds;
    and when it does, exactly the resources of the set change hands. *)
Theorem lockableSync_correct set :
  if lockableSync s t set then
    exists s', acquireLocksSync s t set = Ok s' /\ txs s' = txs s /\
      forall r, lockedBy s' !! r = if decide (r ∈ set) then Some t else lockedBy s !! r
  else
    acquireLocksSync s t set = Throw SynchronousTransactionConflictError /\
    exists r u, r ∈ set /\ u <> t /\ lockedBy s !! r = Some u.
Proof.
  destruct (lockableSync s t set) eqn:E; [by apply acquireLocksSync_ok|].
  split; [by apply acquireLocksSync_conflict|].
  destruct (blockedBy s t set) as [|u l] eqn:Eb; [apply blockedBy_nil in Eb; congruence|].
  assert (Hu : u ∈ blockedBy s t set) by (rewrite Eb; set_solver).
  apply blockedBy_elem in Hu as (Hn & r & Hr & Hl). eauto.
Qed.

End Sets.
