(* ===== verification/TxSafety.v ===== *)
(** * Transactions: exclusion, deadlock freedom and progress

    The transactions of TxLocks.v as a transition system: any number of
    transactions over shared resources, each used by a program that awaits one
    operation before it calls the next, in any interleaving.  An invariant of
    the reachable states gives mutual exclusion and the absence of deadlocks;
    a measure shows that the system drains once the programs stop. *)

From stdpp Require Import gmap sets relations.
From S2P Require Import Prelude TxLocks.

Section Safety.

Context (reference : Z -> option Z) (depth : nat).

Local Abbreviation roots := (ResourceSet reference depth).

(** [depth] is enough to follow every reference to its end. *)
Definition chains_end : Prop := forall r, reference (dereference reference depth r) = None.

(** ** The transition system *)

Definition idle (s : System) (t : Z) : Prop := suspension (tx_of s t) = Idle.

(** The assignments to [#status] the commit cycle makes between the calls that
    change locks. *)
Inductive phase (x : Tx) : Status -> Prop :=
| phase_settled : suspension x = Idle -> status x = Exclusive -> phase x Settled
| phase_restore : suspension x = Idle -> status x = Settled -> phase x Exclusive
| phase_two : suspension x = Finalizing -> status x = CommittingPhaseOne -> phase x CommittingPhaseTwo
| phase_rollback : suspension x = Finalizing -> status x = CommittingPhaseOne -> phase x RollingBack
| phase_finished : suspension x = Finalizing -> status x = RollingBack -> phase x Shared.

(** [commit] enters phase one from exclusive status ([commit] of a shared
    transaction is a rollback). *)
Definition finalizes (x : Tx) (st : Status) : Prop :=
  st = RollingBack \/ st = CommittingPhaseOne /\ status x = Exclusive.

(** The steps of a system whose programs await each call on a transaction before
    the next call on it ([idle]); calls on different transactions overlap freely.
    The code does not enforce this: see [disposed_waiter_keeps_lock] and
    [waiting_commit_writes] for what happens otherwise. *)
Inductive step (s : System) : System -> Prop :=
| step_open t isolation : txs s !! t = None -> step s (open s t isolation)
| step_addResources t rs : idle s t -> step s (addResources reference depth s t rs).1
| step_addResourcesSync t rs s' : idle s t -> addResourcesSync reference depth s t rs = Ok s' -> step s s'
| step_lock t rs : idle s t -> step s (lock reference depth s t rs).1
| step_begin t : idle s t -> step s (begin reference depth s t).1
| step_beginSync t : idle s t -> step s (beginSync reference depth s t).1
| step_resume t : step s (resume reference depth s t).1
| step_finalize t st : idle s t -> finalizes (tx_of s t) st -> step s (finalize s t st).1
| step_phase t st : phase (tx_of s t) st -> step s (set_status s t st)
| step_finalized t : suspension (tx_of s t) = Finalizing -> step s (finalized reference depth s t)
| step_dispose t : idle s t -> step s (dispose reference depth s t).

Definition initial : System := mkSystem ∅ ∅.

Definition reachable (s : System) : Prop := rtc step initial s.

(** ** The invariant *)

(** The resources a transaction must hold in its present state. *)
Definition required (x : Tx) : list Z :=
  match status x, suspension x with
  | Exclusive, Acquired (FromAddResources rs _) (Ok _) => roots (resources x) ++ roots rs
  | Exclusive, _ | Settled, _ | CommittingPhaseOne, _ | CommittingPhaseTwo, _ => roots (resources x)
  | Waiting, Acquired FromBegin (Ok _) => roots (resources x)
  | _, _ => []
  end.

(** The resources it may hold. *)
Definition claims (x : Tx) : list Z :=
  match suspension x with
  | Finalizing => roots (resources x)
  | _ => required x
  end.

(** How status and suspension go together. *)
Definition shape (x : Tx) : Prop :=
  match suspension x with
  | Idle | Added _ =>
      match status x with
      | Waiting | CommittingPhaseOne | CommittingPhaseTwo | RollingBack => False
      | _ => True
      end
  | WaitingFor _ set FromBegin | Woken set FromBegin => status x = Waiting /\ set = roots (resources x)
  | WaitingFor _ set (FromAddResources rs _) | Woken set (FromAddResources rs _) =>
      status x = Exclusive /\ set = roots rs
  | Acquired caller r =>
      status x = match caller with FromBegin => Waiting | _ => Exclusive end /\
      (r = Ok tt \/ r = Throw TransactionDeadlockError)
  | Finalizing =>
      match status x with
      | CommittingPhaseOne | CommittingPhaseTwo | RollingBack | Shared => True
      | _ => False
      end
  end.

(** Whoever is waited for holds a resource that is wanted. *)
Definition blocked_ok (s : System) (t : Z) : Prop :=
  match suspension (tx_of s t) with
  | WaitingFor others set _ =>
      others <> [] /\ forall u, u ∈ others -> exists r, r ∈ set /\ lockedBy s !! r = Some u
  | _ => True
  end.

Record tx_ok (s : System) (t : Z) : Prop := {
  ok_claims : forall r, lockedBy s !! r = Some t -> r ∈ claims (tx_of s t);
  ok_required : forall r, r ∈ required (tx_of s t) -> lockedBy s !! r = Some t;
  ok_shape : shape (tx_of s t);
  ok_blocked : blocked_ok s t;
}.

Record Inv (s : System) : Prop := {
  inv_tx : forall t, tx_ok s t;
  inv_acyclic : forall t, ~ tc (waits s) t t;
}.

(** ** Reading an updated state *)

Lemma tx_of_with s t x u : tx_of (with_tx s t x) u = if decide (u = t) then x else tx_of s u.
Proof.
  unfold tx_of, with_tx. cbn [txs]. case_decide as H.
  - subst. apply lookup_total_insert_eq.
  - by apply lookup_total_insert_ne.
Qed.

Lemma with_tx_twice s t x y : with_tx (with_tx s t x) t y = with_tx s t y.
Proof. unfold with_tx. cbn [lockedBy txs]. by rewrite insert_insert_eq. Qed.

Lemma tx_of_emit s t u : tx_of (emit_shared s t) u = drop_blocker t (tx_of s u).
Proof.
  unfold tx_of, emit_shared. cbn [txs]. rewrite !lookup_total_alt, lookup_fmap. by destruct (txs s !! u).
Qed.

Lemma tx_of_same s s' u : txs s' = txs s -> tx_of s' u = tx_of s u.
Proof. unfold tx_of. by intros ->. Qed.

Lemma roots_elem rs r : r ∈ roots rs <-> exists x, x ∈ rs /\ dereference reference depth x = r.
Proof. unfold ResourceSet. rewrite set_of_elem, list_elem_of_fmap. naive_solver. Qed.

Lemma roots_inserts rs l r : r ∈ roots (foldl set_insert l rs) <-> r ∈ roots l \/ r ∈ roots rs.
Proof. rewrite !roots_elem. setoid_rewrite set_inserts_elem. naive_solver. Qed.

(** ** Steps of one transaction *)

(** A step of [t] leaves the other transactions alone; it takes free
    resources and gives none away. *)
Record local (s s' : System) (t : Z) : Prop := {
  local_tx : forall u, u <> t -> tx_of s' u = tx_of s u;
  local_others : forall r u, u <> t -> lockedBy s' !! r = Some u <-> lockedBy s !! r = Some u;
  local_keeps : forall r, lockedBy s !! r = Some t -> lockedBy s' !! r = Some t;
}.

Lemma local_tx_ok s s' t u : local s s' t -> u <> t -> tx_ok s u -> tx_ok s' u.
Proof.
  intros [Htx Ho Hk] Hu [H1 H2 H3 H4]. constructor; unfold blocked_ok; rewrite ?Htx by done.
  - intros r Hr. by apply H1, Ho.
  - intros r Hr. by apply Ho, H2.
  - done.
  - unfold blocked_ok in H4. destruct (suspension (tx_of s u)) as [|others set c| | | |]; try done.
    destruct H4 as [Hne H4]. split; [done|]. intros v Hv. destruct (H4 v Hv) as (r & Hr & Hl).
    exists r. split; [done|]. destruct (decide (v = t)) as [->|]; [by apply Hk|by apply Ho].
Qed.

Lemma tc_mono (R R' : Z -> Z -> Prop) x y : (forall a b, R a b -> R' a b) -> tc R x y -> tc R' x y.
Proof. intros H. induction 1; [by apply tc_once, H|]. by eapply tc_l; [apply H|]. Qed.

(** Unless the step makes [t] wait, no edge is added to the wait graph. *)
Lemma local_inv s s' t :
  Inv s -> local s s' t -> waitingOn (tx_of s' t) = None -> tx_ok s' t -> Inv s'.
Proof.
  intros [Htx Hac] Hl Hw Hok. split.
  - intros u. destruct (decide (u = t)) as [->|]; [done|]. by eapply local_tx_ok.
  - intros x Hx. apply (Hac x). revert Hx. apply tc_mono. intros a b (o & Ho & Hb). exists o. split; [|done].
    rewrite <- Ho. f_equal. symmetry. apply (local_tx _ _ _ Hl). intros ->. congruence.
Qed.

(** Edges out of a transaction that cannot be reached from their targets close
    no cycle. *)
Lemma acyclic_extend (R R' : Z -> Z -> Prop) t :
  (forall x, ~ tc R x x) ->
  (forall a b, R' a b -> R a b \/ a = t /\ ~ rtc R b t) ->
  forall x, ~ tc R' x x.
Proof.
  intros Hac Hsub.
  assert (G : forall x y, tc R' x y -> tc R x y \/ rtc R x t /\ exists u, ~ rtc R u t /\ rtc R u y).
  { intros x y H. induction H as [x y H|x z y H _ IH].
    - apply Hsub in H as [H|[-> H]]; [left; by apply tc_once|]. right. split; [done|]. exists y. done.
    - apply Hsub in H as [H|[-> H]].
      + destruct IH as [IH|[IH1 IH2]]; [left; by eapply tc_l|]. right. split; [by eapply rtc_l|done].
      + destruct IH as [IH|[IH1 IH2]]; [|done]. right. split; [done|]. exists z. split; [done|by apply tc_rtc]. }
  intros x [H|[H1 (u & H2 & H3)]]%G; [by eapply Hac|]. apply H2. by etrans.
Qed.

(** ** What a transaction holds *)

Lemma held_required s t r :
  tx_ok s t -> suspension (tx_of s t) <> Finalizing -> lockedBy s !! r = Some t <-> r ∈ required (tx_of s t).
Proof.
  intros [H1 H2 _ _] Hf. split; [|apply H2]. intros Hr%H1. revert Hr. unfold claims.
  by destruct (suspension (tx_of s t)).
Qed.

Definition parked (p : Suspension) : Prop :=
  match p with WaitingFor _ _ _ | Finalizing => False | _ => True end.

Lemma tx_ok_intro s t x :
  tx_of s t = x -> parked (suspension x) -> shape x ->
  (forall r, lockedBy s !! r = Some t <-> r ∈ required x) -> tx_ok s t.
Proof.
  intros <- Hp Hs Hr. constructor; [|by intros r; apply Hr|done|].
  - intros r Hl%Hr. unfold claims. by destruct (suspension (tx_of s t)).
  - unfold blocked_ok. by destruct (suspension (tx_of s t)).
Qed.

(** An update of [t] alone, into a state in which it does not wait. *)
Lemma update_inv s t x :
  Inv s -> parked (suspension x) -> shape x ->
  (forall r, lockedBy s !! r = Some t <-> r ∈ required x) -> Inv (with_tx s t x).
Proof.
  intros HI Hp Hs Hr. apply (local_inv s _ t HI).
  - constructor; [|done..]. intros u Hu. by rewrite tx_of_with, decide_False.
  - rewrite tx_of_with, decide_True by done. unfold waitingOn. by destruct (suspension x).
  - apply (tx_ok_intro _ _ x); [by rewrite tx_of_with, decide_True|done..].
Qed.

(** The same, after [t] has locked [set]. *)
Lemma acquired_inv s s1 t set x :
  Inv s -> txs s1 = txs s ->
  (forall r, lockedBy s1 !! r = if decide (r ∈ set) then Some t else lockedBy s !! r) ->
  lockableSync s t set = true -> parked (suspension x) -> shape x ->
  (forall r, r ∈ set \/ lockedBy s !! r = Some t <-> r ∈ required x) -> Inv (with_tx s1 t x).
Proof.
  intros HI Htx Hl Hfree Hp Hs Hr.
  pose proof (proj1 (lockableSync_spec s t set) Hfree) as Hf. apply (local_inv s _ t HI).
  - constructor.
    + intros u Hu. rewrite tx_of_with, decide_False by done. by apply tx_of_same.
    + intros r u Hu. cbn [with_tx lockedBy]. rewrite Hl. case_decide as Hin; [|done].
      destruct (Hf r Hin) as [->| ->]; split; congruence.
    + intros r Hr'. cbn [with_tx lockedBy]. rewrite Hl. by case_decide.
  - rewrite tx_of_with, decide_True by done. unfold waitingOn. by destruct (suspension x).
  - apply (tx_ok_intro _ _ x); [by rewrite tx_of_with, decide_True|done..|].
    intros r. cbn [with_tx lockedBy]. rewrite Hl, <- Hr. case_decide; naive_solver.
Qed.

(** ** Acquiring locks *)

(** What a transaction holds while it acquires more. *)
Definition base (x : Tx) (caller : Caller) : list Z :=
  match caller with FromBegin => [] | FromAddResources _ _ => roots (resources x) end.

Definition acquiring (x : Tx) (set : list Z) (caller : Caller) : Prop :=
  match caller with
  | FromBegin => status x = Waiting /\ set = roots (resources x)
  | FromAddResources rs _ => status x = Exclusive /\ set = roots rs
  end.

Lemma required_base x caller p :
  acquiring x [] caller \/ (exists set, acquiring x set caller) ->
  match p with
  | WaitingFor _ _ c | Woken _ c | Acquired c (Throw _) => c = caller
  | _ => False
  end ->
  required (mkTx (status x) (resources x) p) = base x caller.
Proof.
  intros Ha Hp. assert (Hst : status x = match caller with FromBegin => Waiting | _ => Exclusive end).
  { destruct Ha as [Ha|[set Ha]]; destruct caller; apply Ha. }
  unfold required, base. cbn [status suspension resources]. rewrite Hst.
  by destruct p as [|? ? c|? c|c [|]| |]; try done; subst c; destruct caller.
Qed.

Section Acquire.

Context (s0 s : System) (t : Z) (set : list Z) (caller : Caller).

(** [s] is [s0], in which [t] has at most changed its status and is about to
    run [acquireLocks]. *)
Context (x : Tx) (HI : Inv s0) (Hs : s = s0 \/ s = with_tx s0 t x) (Hx : tx_of s t = x).
Context (Hq : parked (suspension x)) (Ha : acquiring x set caller).
Context (Hh : forall r, lockedBy s !! r = Some t <-> r ∈ base x caller).

Lemma acquire_locks r : lockedBy s !! r = lockedBy s0 !! r.
Proof. by destruct Hs as [->| ->]. Qed.

Lemma acquire_with p : with_tx s t (mkTx (status x) (resources x) p) = with_tx s0 t (mkTx (status x) (resources x) p).
Proof.
  destruct Hs as [->| ->]; [done|]. apply with_tx_twice.
Qed.

Lemma acquire_waits a b : waits s a b -> waits s0 a b.
Proof.
  destruct Hs as [->| ->]; [done|]. intros (o & Ho & Hb). exists o. split; [|done].
  rewrite tx_of_with in Ho. case_decide; [|done]. subst. revert Ho. unfold waitingOn.
  by destruct (suspension x).
Qed.

Lemma acquire_settled : Inv (suspend s t (Acquired caller (Throw TransactionDeadlockError))).
Proof.
  unfold suspend. rewrite Hx, acquire_with. apply update_inv; [done|done| |].
  - unfold shape. cbn. split; [by destruct caller; apply Ha|by right].
  - intros r. rewrite <- acquire_locks, Hh. rewrite (required_base x caller); [done|by right; exists set|done].
Qed.

Lemma acquire_all s1 :
  lockableSync s t set = true -> txs s1 = txs s ->
  (forall r, lockedBy s1 !! r = if decide (r ∈ set) then Some t else lockedBy s !! r) ->
  Inv (suspend s1 t (Acquired caller (Ok tt))).
Proof.
  intros Hfree Htx Hl.
  assert (E : suspend s1 t (Acquired caller (Ok tt)) =
              with_tx (mkSystem (lockedBy s1) (txs s0)) t (mkTx (status x) (resources x) (Acquired caller (Ok tt)))).
  { unfold suspend. rewrite !(tx_of_same s s1) by done. rewrite Hx. unfold with_tx. cbn [lockedBy txs]. f_equal.
    rewrite Htx. destruct Hs as [->| ->]; [done|]. unfold with_tx. cbn [txs]. by rewrite insert_insert_eq. }
  rewrite E. apply (acquired_inv s0 _ t set); [done|done| | |done| |].
  - intros r. cbn [lockedBy]. by rewrite Hl, acquire_locks.
  - rewrite <- Hfree. unfold lockableSync. f_equal. by destruct Hs as [->| ->].
  - unfold shape. cbn. split; [by destruct caller; apply Ha|by left].
  - intros r. rewrite <- acquire_locks, Hh. unfold required, base. cbn [status suspension resources].
    destruct caller; destruct Ha as [-> ->]; rewrite ?elem_of_app; set_solver.
Qed.

Lemma acquire_waits_for u l :
  blockedBy s t set = u :: l -> (forall b, b ∈ u :: l -> ~ rtc (waits s) b t) ->
  Inv (suspend s t (WaitingFor (u :: l) set caller)).
Proof.
  intros Hb Hpath. set (s' := suspend s t (WaitingFor (u :: l) set caller)).
  assert (Hl : local s0 s' t).
  { constructor; unfold s', suspend; cbn [with_tx lockedBy].
    - intros v Hv. rewrite tx_of_with, decide_False by done. destruct Hs as [->| ->]; [done|].
      by rewrite tx_of_with, decide_False.
    - intros r v Hv. by rewrite acquire_locks.
    - intros r. by rewrite acquire_locks. }
  assert (Ht : tx_of s' t = mkTx (status x) (resources x) (WaitingFor (u :: l) set caller)).
  { unfold s', suspend. by rewrite tx_of_with, decide_True, Hx. }
  assert (Hr : required (tx_of s' t) = base x caller).
  { rewrite Ht. apply required_base; [right; by exists set|done]. }
  split.
  - intros v. destruct (decide (v = t)) as [->|]; [|by eapply local_tx_ok; [|done|apply HI]].
    constructor.
    + intros r. unfold claims. rewrite Hr. rewrite Ht. cbn [suspension]. apply Hh.
    + intros r. rewrite Hr. apply Hh.
    + rewrite Ht. unfold shape. cbn. destruct caller; apply Ha.
    + unfold blocked_ok. rewrite Ht. cbn [suspension]. split; [done|]. intros v Hv.
      rewrite <- Hb in Hv. apply blockedBy_elem in Hv as (_ & r & ? & ?). eauto.
  - apply (acyclic_extend (waits s) _ t).
    + intros y Hy. apply (inv_acyclic _ HI y). revert Hy. apply tc_mono, acquire_waits.
    + intros a b (o & Ho & Hb'). destruct (decide (a = t)) as [->|Hn].
      * right. split; [done|]. rewrite Ht in Ho. cbn in Ho. simplify_eq. auto.
      * left. exists o. split; [|done]. unfold s', suspend in Ho. by rewrite tx_of_with, decide_False in Ho.
Qed.

Lemma acquireLocks_inv : Inv (acquireLocks s t set caller).
Proof.
  unfold acquireLocks. destruct (blockedBy s t set) as [|u l] eqn:Hb.
  - apply blockedBy_nil in Hb. destruct (acquireLocksSync_ok s t set Hb) as (s1 & -> & H1 & H2).
    by apply acquire_all.
  - destruct (detectDeadlock_cases s t (u :: l)) as [[-> _]|[-> Hn]]; cbn [rbind]; [apply acquire_settled|].
    assert (Hst : status x = Waiting \/ status x = Exclusive) by (destruct caller; destruct Ha; auto).
    unfold waitFor, assertAvailable. rewrite Hx.
    rewrite !bool_decide_eq_false_2; [by apply acquire_waits_for| | |].
    + unfold waitingOn. destruct (suspension x); try done; by intros [? ?].
    + destruct Hst; congruence.
    + destruct Hst; congruence.
Qed.

End Acquire.

(** ** Every operation preserves the invariant *)

Section Preserved.

Context (s : System) (t : Z) (HI : Inv s).

(** The suspensions in which the program, or [#lockAsync], is about to call an
    operation. *)
Definition calm (p : Suspension) : Prop :=
  match p with Idle | Added _ => True | _ => False end.

Definition standing (x : Tx) : list Z :=
  match status x with Exclusive | Settled => roots (resources x) | _ => [] end.

Lemma required_calm x : calm (suspension x) -> shape x -> required x = standing x.
Proof. unfold required, standing, shape. destruct (status x), (suspension x); done. Qed.

Lemma held_calm r :
  calm (suspension (tx_of s t)) -> lockedBy s !! r = Some t <-> r ∈ standing (tx_of s t).
Proof.
  intros Hc. rewrite held_required; [|apply HI|by intros E; rewrite E in Hc].
  by rewrite required_calm by (done || apply HI).
Qed.

(** A new calm state of [t] that stands for what it holds. *)
Lemma calm_inv x :
  calm (suspension x) -> shape x ->
  (forall r, lockedBy s !! r = Some t <-> r ∈ standing x) -> Inv (with_tx s t x).
Proof.
  intros Hc Hs Hr. apply update_inv; [done| |done|].
  - by destruct (suspension x).
  - intros r. by rewrite required_calm.
Qed.

Lemma settle_inv q : calm (suspension (tx_of s t)) -> calm q -> Inv (suspend s t q).
Proof.
  intros Hc Hq. pose proof (ok_shape _ _ (inv_tx _ HI t)) as Hsh. apply calm_inv; [done| |].
  - revert Hsh. unfold shape. cbn. by destruct (suspension (tx_of s t)), q.
  - intros r. rewrite held_calm by done. done.
Qed.

Lemma open_inv isolation : txs s !! t = None -> Inv (open s t isolation).
Proof.
  intros Hn. assert (E : tx_of s t = mkTx Destroyed [] Idle) by (unfold tx_of; by rewrite lookup_total_alt, Hn).
  apply calm_inv; [done|by destruct isolation|].
  intros r. rewrite held_calm, E by (by rewrite E). by destruct isolation.
Qed.

Lemma begin_inv : calm (suspension (tx_of s t)) -> Inv (begin reference depth s t).1.
Proof.
  intros Hc. unfold begin. destruct (assertAvailable s t); [|by apply settle_inv].
  case_decide as He; [by apply settle_inv|]. case_decide as Hsh; [|by apply settle_inv]. cbn [fst].
  set (x := mkTx Waiting (resources (tx_of s t)) (suspension (tx_of s t))).
  assert (Hx : tx_of (set_status s t Waiting) t = x) by (unfold set_status; by rewrite tx_of_with, decide_True).
  rewrite Hx. apply (acquireLocks_inv s _ t _ _ x); [done|by right|done| |done|].
  - cbn. by destruct (suspension (tx_of s t)).
  - intros r. cbn [set_status with_tx lockedBy base]. rewrite held_calm by done. unfold standing. by rewrite Hsh.
Qed.

Lemma begin_rest_inv r : suspension (tx_of s t) = Acquired FromBegin r -> Inv (begin_rest s t r).1.
Proof.
  intros Hp. pose proof (ok_shape _ _ (inv_tx _ HI t)) as Hsh. unfold shape in Hsh. rewrite Hp in Hsh.
  destruct Hsh as [Hst _].
  assert (Hh : forall v, lockedBy s !! v = Some t <-> v ∈ required (tx_of s t)).
  { intros v. apply held_required; [apply HI|congruence]. }
  unfold required in Hh. rewrite Hst, Hp in Hh.
  unfold begin_rest, suspend, set_status.
  destruct r; cbn [fst]; rewrite tx_of_with, decide_True by done; rewrite with_tx_twice; by apply calm_inv.
Qed.

Lemma beginSync_inv : idle s t -> Inv (beginSync reference depth s t).1.
Proof.
  intros Hc. unfold beginSync. destruct (assertAvailable s t); [|done].
  case_decide as He; [done|]. case_decide as Hsh; [|done].
  set (x := mkTx Exclusive (resources (tx_of s t)) (suspension (tx_of s t))).
  assert (Hx : tx_of (set_status s t Exclusive) t = x) by (unfold set_status; by rewrite tx_of_with, decide_True).
  assert (Hcalm : calm (suspension (tx_of s t))) by (by rewrite Hc).
  assert (Hh : forall r, lockedBy s !! r <> Some t).
  { intros r Hr%held_calm; [|done]. unfold standing in Hr. rewrite Hsh in Hr. set_solver. }
  destruct (lockableSync (set_status s t Exclusive) t (roots (resources x))) eqn:Hl; rewrite Hx.
  - destruct (acquireLocksSync_ok _ _ _ Hl) as (s1 & -> & H1 & H2). cbn [fst].
    assert (E : s1 = with_tx (mkSystem (lockedBy s1) (txs s)) t x) by (destruct s1; cbn in *; subst; done).
    rewrite E. apply (acquired_inv s _ t (roots (resources x))); [done..| | |].
    + unfold x. cbn. by rewrite Hc.
    + unfold shape, x. cbn. by rewrite Hc.
    + intros r. unfold required. cbn [status suspension resources x]. rewrite Hc. split; [|by left].
      intros [?|?]; [done|]. by destruct (Hh r).
  - rewrite acquireLocksSync_conflict by done. cbn [fst]. unfold set_status at 1. rewrite Hx.
    unfold set_status. rewrite with_tx_twice. apply calm_inv; [cbn; by rewrite Hc| |].
    + unfold shape. cbn. by rewrite Hc.
    + intros r. cbn. split; [by intros ?%Hh|set_solver].
Qed.

(** [addResourcesSync], called by the program or at the end of
    [addResources]. *)
Definition may_add (rs : list Z) (p : Suspension) : Prop :=
  match p with
  | Idle => True
  | Acquired (FromAddResources rs' _) (Ok _) => rs' = rs
  | _ => False
  end.

Lemma addResourcesSync_inv rs s' q :
  may_add rs (suspension (tx_of s t)) -> calm q ->
  addResourcesSync reference depth s t rs = Ok s' -> Inv (suspend s' t q).
Proof.
  intros Hm Hq. unfold addResourcesSync. intros (u0 & Hav & (s1 & H1 & [= <-])%rbind_ok)%rbind_ok.
  pose proof (ok_shape _ _ (inv_tx _ HI t)) as Hsh.
  assert (Hh : forall r, lockedBy s !! r = Some t <-> r ∈ required (tx_of s t)).
  { intros r. apply held_required; [apply HI|]. by intros E; rewrite E in Hm. }
  set (added := foldl set_insert (resources (tx_of s t)) rs).
  assert (E : txs s1 = txs s -> suspend (set_resources s1 t added) t q =
              with_tx (mkSystem (lockedBy s1) (txs s)) t (mkTx (status (tx_of s t)) added q)).
  { intros Htx. unfold suspend, set_resources. rewrite tx_of_with, decide_True by done.
    rewrite !(tx_of_same s s1) by done. unfold with_tx. cbn [lockedBy txs resources status].
    by rewrite insert_insert_eq, Htx. }
  case_decide as He; [|case_decide as Hshared; [|done]].
  - destruct (lockableSync s t (roots rs)) eqn:Hl; [|by rewrite acquireLocksSync_conflict in H1].
    destruct (acquireLocksSync_ok _ _ _ Hl) as (s2 & E1 & H2 & H3). rewrite E1 in H1. simplify_eq.
    rewrite (tx_of_same s s1) by done. fold added. rewrite E by done. rewrite He.
    apply (acquired_inv s _ t (roots rs)); [done..| | |].
    + by destruct q.
    + by destruct q.
    + intros r. rewrite Hh. unfold required. cbn [status suspension resources]. rewrite He.
      replace (match q with Acquired (FromAddResources _ _) (Ok _) => _ | _ => _ end)
        with (roots added) by (by destruct q).
      unfold added. rewrite roots_inserts.
      destruct (suspension (tx_of s t)) as [|? ? []|? []|[|rs' ?] []| |]; try done; [naive_solver|].
      cbn in Hm. subst rs'. rewrite elem_of_app. naive_solver.
  - injection H1 as <-. fold added. rewrite E by done. rewrite Hshared.
    replace (mkSystem (lockedBy s) (txs s)) with s by (by destruct s).
    apply calm_inv; [done|by destruct q|]. intros r. rewrite Hh. unfold required, standing. cbn [status].
    rewrite Hshared. by destruct (suspension (tx_of s t)).
Qed.

Lemma addResourcesSync_step rs s' :
  idle s t -> addResourcesSync reference depth s t rs = Ok s' -> Inv s' /\ idle s' t.
Proof.
  intros Hi H. assert (Hi' : idle s' t).
  { revert H. unfold addResourcesSync. intros (u0 & Hav & (s1 & H1 & [= <-])%rbind_ok)%rbind_ok.
    unfold idle, set_resources. rewrite tx_of_with, decide_True by done. cbn.
    case_decide; [|case_decide; [by injection H1 as <-|done]].
    destruct (lockableSync s t (roots rs)) eqn:Hl; [|by rewrite acquireLocksSync_conflict in H1].
    destruct (acquireLocksSync_ok _ _ _ Hl) as (s2 & E1 & H2 & H3). rewrite E1 in H1. simplify_eq.
    by rewrite (tx_of_same s s1). }
  split; [|done]. pose proof (addResourcesSync_inv rs s' Idle) as HI'.
  rewrite Hi in HI'. specialize (HI' I I H).
  apply (local_inv _ s' t HI').
  - constructor; cbn [suspend with_tx lockedBy]; [|done..]. intros u Hu. unfold suspend. by rewrite tx_of_with, decide_False.
  - unfold waitingOn. by rewrite Hi'.
  - assert (Ht : tx_of (suspend s' t Idle) t = tx_of s' t).
    { unfold suspend. rewrite tx_of_with, decide_True by done. rewrite <- Hi'. by destruct (tx_of s' t). }
    destruct (inv_tx _ HI' t) as [H1 H2 H3 H4]. unfold blocked_ok in H4. rewrite Ht in *. by constructor.
Qed.

Lemma addResources_rest_inv rs lockAsync :
  may_add rs (suspension (tx_of s t)) -> Inv (addResources_rest reference depth s t rs lockAsync).1.
Proof.
  intros Hm. unfold addResources_rest, addResources_settled.
  destruct (addResourcesSync reference depth s t rs) as [s'|e] eqn:E.
  - by destruct lockAsync; eapply addResourcesSync_inv.
  - assert (Hi : calm (suspension (tx_of s t))); [|by destruct lockAsync; apply settle_inv].
    pose proof (ok_shape _ _ (inv_tx _ HI t)) as Hsh. unfold shape in Hsh.
    destruct (suspension (tx_of s t)) as [|? ? []|? []|[|rs' b] [[]|]| |] eqn:Hp; try done. exfalso.
    cbn in Hm. subst rs'. destruct Hsh as [Hst _].
    revert E. unfold addResourcesSync, assertAvailable.
    rewrite Hst, !bool_decide_eq_false_2 by done. cbn [rbind throw_if].
    rewrite decide_True by done. destruct (acquireLocksSync_ok s t (roots rs)) as (s1 & -> & _); [|done].
    apply lockableSync_spec. intros r Hr. right. apply HI. unfold required. rewrite Hst, Hp, elem_of_app. by right.
Qed.

Lemma addResources_inv rs lockAsync :
  idle s t -> Inv (addResources_from reference depth s t rs lockAsync).1.
Proof.
  intros Hi. unfold addResources_from.
  assert (Hc : calm (suspension (tx_of s t))) by (by rewrite Hi).
  destruct (assertAvailable s t) eqn:Hav; [|by destruct lockAsync; apply settle_inv].
  case_decide as He; [|by apply addResources_rest_inv; rewrite Hi].
  apply (acquireLocks_inv s _ t _ _ (tx_of s t)); [done|by left|done|by rewrite Hi|done|].
  intros r. rewrite held_calm by done. unfold standing. by rewrite He.
Qed.

Lemma resume_inv : Inv (resume reference depth s t).1.
Proof.
  unfold resume. pose proof (ok_shape _ _ (inv_tx _ HI t)) as Hsh. unfold shape in Hsh.
  destruct (suspension (tx_of s t)) as [|others set caller|set caller|[|rs b] r|r|] eqn:Hp; try done.
  - apply (acquireLocks_inv s _ t _ _ (tx_of s t)); [done|by left|done|by rewrite Hp| |].
    + by destruct caller.
    + intros v. rewrite held_required by (apply HI || congruence). unfold required, base. rewrite Hp.
      by destruct caller; destruct Hsh as [-> _].
  - by apply begin_rest_inv.
  - destruct r as [[]|e]; [apply addResources_rest_inv; by rewrite Hp|].
    destruct Hsh as [Hst _].
    assert (Hh : forall v, lockedBy s !! v = Some t <-> v ∈ required (tx_of s t)).
    { intros v. apply held_required; [apply HI|congruence]. }
    unfold required in Hh. rewrite Hst, Hp in Hh. unfold addResources_settled.
    by destruct b; apply calm_inv; unfold shape, standing; cbn; rewrite ?Hst.
  - destruct r; [apply begin_inv; by rewrite Hp|apply settle_inv; [by rewrite Hp|done]].
Qed.

(** ** Finalization *)

Lemma required_drop u x : required (drop_blocker u x) = required x.
Proof.
  unfold drop_blocker. destruct (suspension x) as [|others set c| | | |] eqn:E; try done.
  case_decide; [|done]. unfold required. cbn. rewrite E. by case_decide; destruct (status x).
Qed.

Lemma claims_drop u x : claims (drop_blocker u x) = claims x.
Proof.
  unfold claims. rewrite required_drop. unfold drop_blocker.
  destruct (suspension x) as [|others set c| | | |] eqn:E; rewrite ?E; try done.
  case_decide; [|by rewrite E]. cbn. by case_decide.
Qed.

Lemma shape_drop u x : shape x -> shape (drop_blocker u x).
Proof.
  unfold drop_blocker, shape. destruct (suspension x) as [|others set c| | | |] eqn:E; try (by rewrite E).
  case_decide; [|by rewrite E]. cbn. by case_decide.
Qed.

Lemma drop_waiting u x others :
  waitingOn (drop_blocker u x) = Some others ->
  exists all, waitingOn x = Some all /\ others = filter (fun v => v <> u) all /\ others <> [] \/
  waitingOn x = Some others /\ u ∉ others.
Proof.
  unfold drop_blocker, waitingOn. destruct (suspension x) as [|all set c| | | |] eqn:E; rewrite ?E; try done.
  case_decide; [|by rewrite E; intros [= <-]; exists all; right]. cbn.
  case_decide; [done|]. intros [= <-]. exists all. by left.
Qed.

(** [t] is gone: it holds nothing, and nobody waits for it. *)
Lemma released_inv s' x :
  (forall u, tx_of s' u = if decide (u = t) then x else drop_blocker t (tx_of s u)) ->
  (forall r, lockedBy s' !! r = if decide (lockedBy s !! r = Some t) then None else lockedBy s !! r) ->
  suspension x = Idle -> resources x = [] -> shape x -> Inv s'.
Proof.
  intros Htx Hl Hp Hres Hsh. split.
  - intros u. destruct (decide (u = t)) as [->|Hu].
    + apply (tx_ok_intro _ _ x); [by rewrite Htx, decide_True|by rewrite Hp|done|].
      intros r. rewrite Hl. case_decide as Ht; [|].
      * split; [done|]. unfold required. rewrite Hp, Hres. destruct (status x); set_solver.
      * split; [done|]. unfold required. rewrite Hp, Hres. destruct (status x); set_solver.
    + destruct (inv_tx _ HI u) as [H1 H2 H3 H4].
      assert (Hut : tx_of s' u = drop_blocker t (tx_of s u)) by (by rewrite Htx, decide_False).
      assert (Hlu : forall r v, v <> t -> lockedBy s' !! r = Some v <-> lockedBy s !! r = Some v).
      { intros r v Hv. rewrite Hl. case_decide; [|done]. split; congruence. }
      constructor.
      * intros r Hr%Hlu; [|done]. rewrite Hut, claims_drop. auto.
      * intros r. rewrite Hut, required_drop. intros Hr. apply Hlu; auto.
      * rewrite Hut. by apply shape_drop.
      * unfold blocked_ok in *. rewrite Hut. unfold drop_blocker.
        destruct (suspension (tx_of s u)) as [|others set c| | | |] eqn:E; try (by rewrite E).
        destruct H4 as [Hne H4]. case_decide as Hin; cbn.
        -- case_decide; [done|]. split; [done|]. intros v [Hv1 Hv2]%list_elem_of_filter.
           destruct (H4 v Hv2) as (r & ? & ?). exists r. split; [done|]. by apply Hlu.
        -- rewrite E. split; [done|]. intros v Hv. destruct (H4 v Hv) as (r & ? & ?). exists r.
           split; [done|]. apply Hlu; [set_solver|done].
  - intros v Hv. apply (inv_acyclic _ HI v). revert Hv. apply tc_mono. intros a b (o & Ho & Hb).
    rewrite Htx in Ho. case_decide; [unfold waitingOn in Ho; by rewrite Hp in Ho|].
    apply drop_waiting in Ho as (all & [(Ha & -> & _)|[Ha _]]); eexists; (split; [done|]); [|done].
    by apply list_elem_of_filter in Hb as [_ ?].
Qed.

Lemma reset_tx u p :
  suspension (tx_of s t) = p -> p = Idle \/ p = Finalizing ->
  tx_of (reset reference depth s t) u = if decide (u = t) then mkTx Shared [] p else drop_blocker t (tx_of s u).
Proof.
  intros Hp Hcase. unfold reset, set_status, set_resources. set (s1 := releaseLocks s t _).
  assert (E : forall v, tx_of s1 v = tx_of s v) by (intros v; by apply tx_of_same).
  rewrite tx_of_emit, with_tx_twice, (tx_of_with _ _ _ t), decide_True by done. cbn [resources suspension].
  rewrite tx_of_with, !E, Hp. case_decide; [|done].
  unfold drop_blocker. cbn. by destruct Hcase as [-> | ->].
Qed.

Lemma reset_locks r :
  suspension (tx_of s t) = Idle \/ suspension (tx_of s t) = Finalizing ->
  lockedBy (reset reference depth s t) !! r =
  if decide (lockedBy s !! r = Some t) then None else lockedBy s !! r.
Proof.
  intros Hp. unfold reset. cbn [emit_shared set_status set_resources with_tx lockedBy].
  rewrite releaseLocks_lookup. case_decide as H1; case_decide as H2; try naive_solver.
  destruct H1. split; [|done]. apply (ok_claims _ _ (inv_tx _ HI t)) in H2. revert H2.
  unfold claims, required. destruct Hp as [-> | ->]; [|done]. destruct (status (tx_of s t)); set_solver.
Qed.

Lemma finalize_inv st : idle s t -> finalizes (tx_of s t) st -> Inv (finalize s t st).1.
Proof.
  intros Hi Hf. unfold finalize. case_decide as Hst; [|done]. cbn [fst].
  unfold suspend, set_status. rewrite tx_of_with, decide_True, with_tx_twice by done. cbn [status resources].
  set (x := mkTx st (resources (tx_of s t)) Finalizing).
  assert (Hx : tx_of (with_tx s t x) t = x) by (by rewrite tx_of_with, decide_True).
  assert (Hh : forall r, lockedBy s !! r = Some t <-> r ∈ standing (tx_of s t)).
  { intros r. apply held_calm. by rewrite Hi. }
  apply (local_inv s _ t HI).
  - constructor; [|done..]. intros u Hu. by rewrite tx_of_with, decide_False.
  - by rewrite Hx.
  - constructor; unfold blocked_ok; rewrite Hx; cbn [with_tx lockedBy].
    + intros r Hr%Hh. unfold claims. cbn. unfold standing in Hr. destruct (status (tx_of s t)); set_solver.
    + intros r Hr. apply Hh. unfold standing. unfold required in Hr. cbn in Hr.
      destruct Hf as [->|[-> ->]]; [set_solver|done].
    + unfold shape. cbn. by destruct Hf as [->|[-> _]].
    + done.
Qed.

Lemma phase_facts x st :
  phase x st ->
  let x' := mkTx st (resources x) (suspension x) in
  (suspension x = Idle \/ suspension x = Finalizing) /\ claims x' = claims x /\
  (forall r, r ∈ required x' -> r ∈ required x) /\ shape x'.
Proof.
  destruct x as [st0 rs p]. unfold claims, required, shape. cbn [status suspension resources].
  intros []; cbn [status suspension resources] in *; subst; split_and!; try done; set_solver.
Qed.

Lemma phase_inv st : phase (tx_of s t) st -> Inv (set_status s t st).
Proof.
  intros Hph. destruct (inv_tx _ HI t) as [H1 H2 _ _]. destruct (phase_facts _ _ Hph) as (Hp & Hc & Hr & Hs).
  unfold set_status. set (x := mkTx st (resources (tx_of s t)) (suspension (tx_of s t))) in *.
  assert (Hx : tx_of (with_tx s t x) t = x) by (by rewrite tx_of_with, decide_True).
  assert (Hx' : suspension x = suspension (tx_of s t)) by done.
  apply (local_inv s _ t HI).
  - constructor; [|done..]. intros u Hu. by rewrite tx_of_with, decide_False.
  - rewrite Hx. unfold waitingOn. rewrite Hx'. by destruct Hp as [-> | ->].
  - constructor; unfold blocked_ok; rewrite Hx; cbn [with_tx lockedBy]; [|by auto|done|].
    + rewrite Hc. apply H1.
    + rewrite Hx'. by destruct Hp as [-> | ->].
Qed.

Lemma finalized_inv : suspension (tx_of s t) = Finalizing -> Inv (finalized reference depth s t).
Proof.
  intros Hp. apply (released_inv _ (mkTx Shared [] Idle)); [| |done..].
  - intros u. unfold finalized, suspend. rewrite tx_of_with, !(reset_tx _ Finalizing) by auto.
    case_decide; [|done]. by rewrite decide_True.
  - intros r. unfold finalized, suspend. cbn [with_tx lockedBy]. apply reset_locks. by right.
Qed.

Lemma dispose_inv : idle s t -> Inv (dispose reference depth s t).
Proof.
  intros Hp. apply (released_inv _ (mkTx Destroyed [] Idle)); [| |done..].
  - intros u. unfold dispose, set_status. rewrite tx_of_with, !(reset_tx _ Idle) by auto.
    case_decide; [|done]. by rewrite decide_True.
  - intros r. unfold dispose, set_status. cbn [with_tx lockedBy]. apply reset_locks. by left.
Qed.

End Preserved.

Lemma lock_inv s t rs : Inv s -> idle s t -> Inv (lock reference depth s t rs).1.
Proof.
  intros HI Hi. unfold lock. destruct (lockableSync _ _ _); [|by apply addResources_inv].
  destruct (addResourcesSync reference depth s t rs) as [s'|e] eqn:E; [|done].
  apply addResourcesSync_step in E as [HI' Hi']; [|done..]. by apply beginSync_inv.
Qed.


Lemma step_inv s s' : Inv s -> step s s' -> Inv s'.
Proof.
  intros HI. destruct 1 as [t iso ?|t rs ?|t rs s' ? E|t rs ?|t ?|t ?|t|t st ? ?|t st ?|t ?|t ?].
  - by apply open_inv.
  - by apply addResources_inv.
  - by eapply addResourcesSync_step.
  - by apply lock_inv.
  - apply begin_inv; [done|]. by rewrite H.
  - by apply beginSync_inv.
  - by apply resume_inv.
  - by apply finalize_inv.
  - by apply phase_inv.
  - by apply finalized_inv.
  - by apply dispose_inv.
Qed.

Lemma initial_inv : Inv initial.
Proof.
  assert (H : forall t, tx_of initial t = mkTx Destroyed [] Idle) by (intros t; unfold tx_of; by rewrite lookup_total_alt).
  split.
  - intros t. apply (tx_ok_intro _ _ _ (H t)); [done..|]. intros r. cbn. rewrite lookup_empty. set_solver.
  - assert (Hw : forall a b, ~ waits initial a b) by (intros a b (o & Ho & _); by rewrite H in Ho).
    intros t Ht. destruct Ht; by eapply Hw.
Qed.

Lemma reachable_inv s : reachable s -> Inv s.
Proof.
  intros Hr. assert (G : forall a b, rtc step a b -> Inv a -> Inv b).
  { induction 1; [done|]. eauto using step_inv. }
  eapply G; [done|apply initial_inv].
Qed.

(** ** Exclusion *)

(** The statuses in which a transaction writes, or has its writes inspected or
    committed. *)
Definition writing (st : Status) : bool :=
  match st with
  | Exclusive | Settled | CommittingPhaseOne | CommittingPhaseTwo => true
  | _ => false
  end.

Lemma writing_required x r : writing (status x) = true -> r ∈ roots (resources x) -> r ∈ required x.
Proof.
  unfold required. intros Hw Hr. destruct (status x); try done.
  destruct (suspension x) as [| | |[] []| |]; try done. rewrite elem_of_app. by left.
Qed.

(** C7: Let every program await each call it makes on a transaction, its disposal
    included, before the next call on that transaction.  In every interleaving of
    the transactions: a transaction that writes has locked all its
    resources; no two transactions that write share one; a stand-in is never
    locked itself; and a transaction at rest that is not exclusive holds no
    lock. *)
Theorem transactions_exclusive s :
  chains_end -> reachable s ->
  (forall t r, writing (status (tx_of s t)) = true -> r ∈ resources (tx_of s t) ->
     lockedBy s !! dereference reference depth r = Some t) /\
  (forall t u r r', writing (status (tx_of s t)) = true -> writing (status (tx_of s u)) = true ->
     r ∈ resources (tx_of s t) -> r' ∈ resources (tx_of s u) ->
     dereference reference depth r = dereference reference depth r' -> t = u) /\
  (forall t r, lockedBy s !! r = Some t -> reference r = None) /\
  (forall t r, lockedBy s !! r = Some t -> idle s t -> writing (status (tx_of s t)) = true).
Proof.
  intros Hch HI%reachable_inv.
  assert (Hlock : forall t r, writing (status (tx_of s t)) = true -> r ∈ resources (tx_of s t) ->
     lockedBy s !! dereference reference depth r = Some t).
  { intros t r Hw Hr. apply (ok_required _ _ (inv_tx _ HI t)), writing_required; [done|].
    apply roots_elem. eauto. }
  split_and!; [done| | |].
  - intros t u r r' Ht Hu Hr Hr' E. pose proof (Hlock t r Ht Hr). pose proof (Hlock u r' Hu Hr'). congruence.
  - intros t r Hl%(ok_claims _ _ (inv_tx _ HI t)).
    assert (Hroot : forall l, r ∈ roots l -> reference r = None).
    { intros l (x & _ & <-)%roots_elem. apply Hch. }
    revert Hl. unfold claims, required.
    destruct (suspension (tx_of s t)) as [| | |[] []| |], (status (tx_of s t));
      intros [H|H]%elem_of_app || intros H; first [by apply Hroot in H|by apply not_elem_of_nil in H].
  - intros t r Hl%(ok_claims _ _ (inv_tx _ HI t)) Hi. revert Hl. unfold claims, required. rewrite Hi.
    destruct (status (tx_of s t)); intros H; (done || by apply not_elem_of_nil in H || (rewrite Hi in H; by apply not_elem_of_nil in H)).
Qed.

(** ** No deadlock *)

Lemma waits_holder s t u : Inv s -> waits s t u -> exists r, lockedBy s !! r = Some u.
Proof.
  intros HI (o & Ho & Hu). pose proof (ok_blocked _ _ (inv_tx _ HI t)) as H. unfold blocked_ok in H.
  unfold waitingOn in Ho. destruct (suspension (tx_of s t)); simplify_eq. destruct H as [_ H].
  destruct (H u Hu) as (r & _ & ?). eauto.
Qed.

Lemma waits_next s t o : Inv s -> waitingOn (tx_of s t) = Some o -> exists u, waits s t u.
Proof.
  intros HI Ho. pose proof (ok_blocked _ _ (inv_tx _ HI t)) as H. unfold blocked_ok in H.
  pose proof Ho as Ho'. unfold waitingOn in Ho. destruct (suspension (tx_of s t)); simplify_eq.
  destruct H as [Hne _]. destruct o as [|u o]; [done|]. exists u, (u :: o). split; [done|set_solver].
Qed.

Lemma waits_sn s t : Inv s -> sn (waits s) t.
Proof.
  intros HI. apply tc_finite_sn; [by intros x; apply HI|].
  exists ((map_to_list (lockedBy s)).*2). intros u Hu.
  assert (Hw : exists v, waits s v u) by (clear HI; induction Hu; eauto).
  destruct Hw as [v Hv]. apply waits_holder in Hv as [r Hr]; [|done].
  apply list_elem_of_fmap. exists (r, u). split; [done|]. by apply elem_of_map_to_list.
Qed.

Lemma no_deadlock_lemma s t o :
  Inv s -> waitingOn (tx_of s t) = Some o ->
  exists u r, tc (waits s) t u /\ waitingOn (tx_of s u) = None /\ lockedBy s !! r = Some u.
Proof.
  intros HI. revert o. induction (waits_sn s t HI) as [t _ IH]. intros o Ho.
  destruct (waits_next _ _ _ HI Ho) as [u Hu]. destruct (waitingOn (tx_of s u)) as [o'|] eqn:E.
  - destruct (IH u Hu _ E) as (v & r & ? & ? & ?). exists v, r. split; [by eapply tc_l|done].
  - destruct (waits_holder _ _ _ HI Hu) as [r Hr]. exists u, r. split; [by apply tc_once|done].
Qed.

(** C9: In every interleaving, a transaction that waits does so, directly or through
    others, for one that is not waiting and holds a lock: the transactions are
    never all blocked. *)
Theorem no_deadlock s t o :
  reachable s -> waitingOn (tx_of s t) = Some o ->
  exists u r, tc (waits s) t u /\ waitingOn (tx_of s u) = None /\ lockedBy s !! r = Some u.
Proof. intros HI%reachable_inv. by apply no_deadlock_lemma. Qed.

(** ** Progress *)

(** What remains once the programs call nothing new: the suspended operations
    go on, and each transaction is finalized and disposed of. *)
Inductive drain (s : System) : System -> Prop :=
| drain_resume t :
    match suspension (tx_of s t) with Woken _ _ | Acquired _ _ | Added _ => True | _ => False end ->
    drain s (resume reference depth s t).1
| drain_finalize t st :
    idle s t -> status (tx_of s t) = Exclusive -> finalizes (tx_of s t) st -> drain s (finalize s t st).1
| drain_finalized t : suspension (tx_of s t) = Finalizing -> drain s (finalized reference depth s t)
| drain_dispose t : idle s t -> status (tx_of s t) <> Destroyed -> drain s (dispose reference depth s t).

Lemma drain_step s s' : drain s s' -> step s s'.
Proof. destruct 1; by constructor. Qed.

(** How far a transaction is from its end.  Waiting counts as much as having
    been woken, since a woken transaction may have to wait again. *)
Definition weight (x : Tx) : nat :=
  match suspension x with
  | Idle => match status x with Destroyed => 0 | Exclusive => 3 | _ => 1 end
  | Finalizing => 2
  | Acquired FromBegin _ => 4
  | WaitingFor _ _ FromBegin | Woken _ FromBegin => 5
  | Added _ => 6
  | Acquired (FromAddResources _ _) _ => 7
  | WaitingFor _ _ (FromAddResources _ _) | Woken _ (FromAddResources _ _) => 8
  end.

Definition woken (x : Tx) : nat := match suspension x with Woken _ _ => 1 | _ => 0 end.

Definition known (s : System) : list Z := elements (dom (txs s)).

Definition total (f : Tx -> nat) (s : System) : nat := sum_list_with (fun t => f (tx_of s t)) (known s).

(** The bound on the number of steps that remain. *)
Definition rank (s : System) : nat := total weight s * S (length (known s)) + total woken s.

Lemma sum_le (f g : Z -> nat) l : (forall u, u ∈ l -> (f u <= g u)%nat) -> (sum_list_with f l <= sum_list_with g l)%nat.
Proof.
  induction l as [|u l IH]; intros H; cbn; [lia|].
  pose proof (H u ltac:(set_solver)). assert (sum_list_with f l <= sum_list_with g l)%nat by (apply IH; set_solver). lia.
Qed.

Lemma sum_lt (f g : Z -> nat) l t :
  t ∈ l -> (forall u, u ∈ l -> (f u <= g u)%nat) -> (f t < g t)%nat -> (sum_list_with f l < sum_list_with g l)%nat.
Proof.
  intros Ht H Hlt. induction l as [|u l IH]; [set_solver|]. cbn.
  pose proof (H u ltac:(set_solver)). apply elem_of_cons in Ht as [->|Ht].
  - assert (sum_list_with f l <= sum_list_with g l)%nat by (apply sum_le; set_solver). lia.
  - assert (sum_list_with f l < sum_list_with g l)%nat by (apply IH; set_solver). lia.
Qed.

Lemma total_woken s : (total woken s <= length (known s))%nat.
Proof.
  unfold total. induction (known s) as [|t l IH]; cbn; [lia|].
  assert (woken (tx_of s t) <= 1)%nat by (unfold woken; destruct (suspension _); lia). lia.
Qed.

(** A step that lightens one transaction, or makes one that was woken wait
    again, and leaves the weight of the others, lowers the rank. *)
Lemma rank_lighter s s' t :
  dom (txs s') = dom (txs s) -> t ∈ dom (txs s) ->
  (forall u, u <> t -> weight (tx_of s' u) = weight (tx_of s u)) ->
  (weight (tx_of s' t) < weight (tx_of s t))%nat -> (rank s' < rank s)%nat.
Proof.
  intros Hd Ht Ho Hlt. pose proof (total_woken s') as Hw. unfold rank.
  assert (Hk : known s' = known s) by (unfold known; by rewrite Hd). rewrite Hk in *.
  assert (total weight s' < total weight s)%nat; [|nia].
  unfold total. rewrite Hk. apply (sum_lt _ _ _ t); [unfold known; by apply elem_of_elements| |done].
  intros u _. destruct (decide (u = t)) as [->|]; [lia|]. rewrite Ho by done. lia.
Qed.

Lemma rank_waits s s' t :
  dom (txs s') = dom (txs s) -> t ∈ dom (txs s) ->
  (forall u, u <> t -> tx_of s' u = tx_of s u) ->
  weight (tx_of s' t) = weight (tx_of s t) -> (woken (tx_of s' t) < woken (tx_of s t))%nat ->
  (rank s' < rank s)%nat.
Proof.
  intros Hd Ht Ho Hw Hlt. unfold rank.
  assert (Hk : known s' = known s) by (unfold known; by rewrite Hd). rewrite Hk in *.
  assert (total weight s' <= total weight s)%nat.
  { unfold total. rewrite Hk. apply sum_le. intros u _. destruct (decide (u = t)) as [->|]; [lia|].
    rewrite Ho by done. lia. }
  assert (total woken s' < total woken s)%nat; [|nia].
  unfold total. rewrite Hk. apply (sum_lt _ _ _ t); [unfold known; by apply elem_of_elements| |done].
  intros u _. destruct (decide (u = t)) as [->|]; [lia|]. rewrite Ho by done. lia.
Qed.

(** An operation that replaces the record of [t] by [y]. *)
Definition moves (s s' : System) (t : Z) (y : Tx) : Prop := txs s' = <[t := y]> (txs s).

Lemma moves_tx s s' t y u : moves s s' t y -> tx_of s' u = if decide (u = t) then y else tx_of s u.
Proof. intros H. rewrite <- (tx_of_with s t y u). by apply tx_of_same. Qed.

Lemma moves_dom s s' t y : moves s s' t y -> t ∈ dom (txs s) -> dom (txs s') = dom (txs s).
Proof. unfold moves. intros -> Ht. rewrite dom_insert_L. set_solver. Qed.

Lemma moves_trans s s1 s' t x y : moves s s1 t x -> moves s1 s' t y -> moves s s' t y.
Proof. unfold moves. intros -> ->. by rewrite insert_insert_eq. Qed.

Lemma acquireLocksSync_txs s t set s' : acquireLocksSync s t set = Ok s' -> txs s' = txs s.
Proof.
  intros E. destruct (lockableSync s t set) eqn:Hl; [|by rewrite acquireLocksSync_conflict in E].
  destruct (acquireLocksSync_ok _ _ _ Hl) as (s2 & E1 & H2 & _). congruence.
Qed.

Lemma acquireLocks_moves s t set caller :
  exists p, moves s (acquireLocks s t set caller) t (mkTx (status (tx_of s t)) (resources (tx_of s t)) p) /\
    ((exists r, p = Acquired caller r) \/ exists o, p = WaitingFor o set caller).
Proof.
  unfold acquireLocks, waitFor. destruct (blockedBy s t set) as [|u l].
  - destruct (acquireLocksSync s t set) as [s1|e] eqn:E.
    + apply acquireLocksSync_txs in E. exists (Acquired caller (Ok tt)). split; [|eauto].
      unfold moves, suspend. rewrite !(tx_of_same s s1) by done. cbn. by rewrite E.
    + exists (Acquired caller (Throw e)). split; [done|eauto].
  - destruct (rbind _ _) as [s1|e] eqn:E; [|by exists (Acquired caller (Throw e)); split; [|eauto]].
    apply rbind_ok in E as (u1 & E1 & E). apply rbind_ok in E as (u2 & E2 & E). apply rbind_ok in E as (u3 & E3 & [= <-]).
    exists (WaitingFor (u :: l) set caller). split; [done|eauto].
Qed.

Lemma addResources_settled_moves s t b r :
  exists y, moves s (addResources_settled s t b r).1 t y /\ (weight y <= 6)%nat.
Proof.
  unfold addResources_settled. destruct b; eexists; (split; [done|]); unfold weight; cbn; [lia|].
  destruct (status _); lia.
Qed.

Lemma addResources_rest_moves s t rs b :
  exists y, moves s (addResources_rest reference depth s t rs b).1 t y /\ (weight y <= 6)%nat.
Proof.
  unfold addResources_rest. destruct (addResourcesSync reference depth s t rs) as [s1|e] eqn:E.
  - destruct (addResources_settled_moves s1 t b (Ok tt)) as (y & Hm & Hw). exists y. split; [|done].
    apply rbind_ok in E as (u0 & E0 & (s0 & H0 & [= <-])%rbind_ok).
    eapply moves_trans; [|done]. unfold moves. cbn. f_equal.
    revert H0. case_decide; [apply acquireLocksSync_txs|]. case_decide; [by intros [= <-]|done].
  - apply addResources_settled_moves.
Qed.

Lemma begin_moves s t :
  exists y, moves s (begin reference depth s t).1 t y /\ (weight y <= 5)%nat.
Proof.
  assert (Hidle : forall s', exists y, moves s' (suspend s' t Idle) t y /\ (weight y <= 5)%nat).
  { intros s'. eexists. split; [done|]. unfold weight. cbn. destruct (status _); lia. }
  unfold begin. destruct (assertAvailable s t); [|apply Hidle].
  case_decide; [apply Hidle|]. case_decide; [|apply Hidle]. cbn [fst].
  destruct (acquireLocks_moves (set_status s t Waiting) t (roots (resources (tx_of (set_status s t Waiting) t))) FromBegin)
    as (p & Hm & Hp).
  eexists. split; [by eapply (moves_trans s); [|apply Hm]|]. unfold weight. cbn.
  destruct Hp as [[r ->]|[o ->]]; lia.
Qed.

Lemma begin_rest_moves s t r : exists y, moves s (begin_rest s t r).1 t y /\ (weight y <= 3)%nat.
Proof.
  destruct r as [[]|e]; [exists (mkTx Exclusive (resources (tx_of s t)) Idle)|exists (mkTx Shared (resources (tx_of s t)) Idle)];
    (split; [|cbn; lia]); unfold begin_rest, suspend, set_status; cbn [fst];
    rewrite tx_of_with, decide_True, with_tx_twice by done; done.
Qed.

Lemma reset_dom s t : t ∈ dom (txs s) -> dom (txs (reset reference depth s t)) = dom (txs s).
Proof.
  intros Ht. unfold reset. cbn [emit_shared set_status set_resources with_tx txs releaseLocks].
  rewrite dom_fmap_L, !dom_insert_L. set_solver.
Qed.

Lemma weight_drop u x : weight (drop_blocker u x) = weight x.
Proof.
  unfold drop_blocker, weight. destruct (suspension x) as [|others set c| | | |] eqn:E; rewrite ?E; try done.
  case_decide; [|by rewrite E]. cbn. case_decide; by destruct c.
Qed.

Lemma known_of s t : tx_of s t <> mkTx Destroyed [] Idle -> t ∈ dom (txs s).
Proof.
  intros H. apply elem_of_dom. unfold tx_of in H. rewrite lookup_total_alt in H.
  destruct (txs s !! t); [done|]. by destruct H.
Qed.

Lemma rank_moves s s' t y :
  moves s s' t y -> t ∈ dom (txs s) -> (weight y < weight (tx_of s t))%nat -> (rank s' < rank s)%nat.
Proof.
  intros Hm Ht Hw. apply (rank_lighter s s' t); [by eapply moves_dom|done| |].
  - intros u Hu. by rewrite (moves_tx _ _ _ _ _ Hm), decide_False.
  - by rewrite (moves_tx _ _ _ _ _ Hm), decide_True.
Qed.

Lemma resume_rank s t :
  match suspension (tx_of s t) with Woken _ _ | Acquired _ _ | Added _ => True | _ => False end ->
  (rank (resume reference depth s t).1 < rank s)%nat.
Proof.
  intros Hp. assert (Ht : t ∈ dom (txs s)) by (apply known_of; intros E; by rewrite E in Hp).
  unfold resume.
  destruct (suspension (tx_of s t)) as [|others set caller|set caller|[|rs b] r|r|] eqn:E; try done; cbn [fst].
  - destruct (acquireLocks_moves s t set caller) as (p & Hm & Hc).
    destruct Hc as [[r ->]|[o ->]].
    + apply (rank_moves _ _ _ _ Hm Ht). unfold weight. cbn. rewrite E. destruct caller; lia.
    + apply (rank_waits _ _ t); [by eapply moves_dom|done| | |];
        [intros u Hu; by rewrite (moves_tx _ _ _ _ _ Hm), decide_False|..];
        rewrite (moves_tx _ _ _ _ _ Hm), decide_True by done; unfold weight, woken; cbn; rewrite E; [done|lia].
  - destruct (begin_rest_moves s t r) as (y & Hm & Hy). apply (rank_moves _ _ _ _ Hm Ht).
    unfold weight at 2. rewrite E. lia.
  - assert (H7 : weight (tx_of s t) = 7%nat) by (unfold weight; by rewrite E).
    destruct r as [[]|e].
    + destruct (addResources_rest_moves s t rs b) as (y & Hm & Hy). apply (rank_moves _ _ _ _ Hm Ht). lia.
    + destruct (addResources_settled_moves s t b (Throw e)) as (y & Hm & Hy). apply (rank_moves _ _ _ _ Hm Ht). lia.
  - assert (H6 : weight (tx_of s t) = 6%nat) by (unfold weight; by rewrite E). destruct r as [[]|e].
    + destruct (begin_moves s t) as (y & Hm & Hy). apply (rank_moves _ _ _ _ Hm Ht). lia.
    + eapply rank_moves; [done|done|]. unfold weight at 1. cbn. destruct (status _); lia.
Qed.

Lemma drain_rank s s' : drain s s' -> (rank s' < rank s)%nat.
Proof.
  destruct 1 as [t Hp|t st Hi Hst Hf|t Hp|t Hi Hst].
  - by apply resume_rank.
  - assert (Ht : t ∈ dom (txs s)) by (apply known_of; intros E; by rewrite E in Hst).
    unfold finalize. rewrite decide_True by auto. cbn [fst].
    unfold suspend, set_status. rewrite tx_of_with, decide_True, with_tx_twice by done.
    eapply (rank_moves s _ t); [done|done|]. unfold weight. cbn. rewrite Hi, Hst. lia.
  - assert (Ht : t ∈ dom (txs s)) by (apply known_of; intros E; by rewrite E in Hp).
    apply (rank_lighter _ _ t); [|done| |].
    + unfold finalized, suspend. cbn [with_tx txs]. rewrite dom_insert_L, reset_dom by done. set_solver.
    + intros u Hu. unfold finalized, suspend. rewrite tx_of_with, decide_False by done.
      rewrite (reset_tx s t u Finalizing), decide_False by auto. apply weight_drop.
    + unfold finalized, suspend. rewrite tx_of_with, decide_True by done.
      rewrite (reset_tx s t t Finalizing), decide_True by auto. unfold weight. cbn. rewrite Hp. lia.
  - assert (Ht : t ∈ dom (txs s)) by (apply known_of; intros E; by rewrite E in Hst).
    apply (rank_lighter _ _ t); [|done| |].
    + unfold dispose, set_status. cbn [with_tx txs]. rewrite dom_insert_L, reset_dom by done. set_solver.
    + intros u Hu. unfold dispose, set_status. rewrite tx_of_with, decide_False by done.
      rewrite (reset_tx s t u Idle), decide_False by auto. apply weight_drop.
    + unfold dispose, set_status. rewrite tx_of_with, decide_True by done.
      rewrite (reset_tx s t t Idle), decide_True by auto. unfold weight. cbn. rewrite Hi.
      destruct (status (tx_of s t)); try done; lia.
Qed.

(** A transaction that has not ended and does not wait can go on. *)
Lemma drain_enabled s t :
  waitingOn (tx_of s t) = None -> suspension (tx_of s t) <> Idle \/ status (tx_of s t) <> Destroyed ->
  exists s', drain s s'.
Proof.
  intros Hw H. destruct (suspension (tx_of s t)) eqn:E.
  - destruct H as [|H]; [done|]. eexists. by apply (drain_dispose s t).
  - unfold waitingOn in Hw. by rewrite E in Hw.
  - eexists. apply (drain_resume s t). by rewrite E.
  - eexists. apply (drain_resume s t). by rewrite E.
  - eexists. apply (drain_resume s t). by rewrite E.
  - eexists. by apply (drain_finalized s t).
Qed.

Lemma stuck_ended s : Inv s -> (~ exists s', drain s s') -> lockedBy s = ∅ /\ forall t, status (tx_of s t) = Destroyed.
Proof.
  intros HI Hstuck.
  assert (Hnw : forall t, waitingOn (tx_of s t) = None).
  { intros t. destruct (waitingOn (tx_of s t)) as [o|] eqn:E; [|done]. exfalso.
    destruct (no_deadlock_lemma _ _ _ HI E) as (u & r & _ & Hu & Hr). apply Hstuck, (drain_enabled s u Hu).
    destruct (decide (status (tx_of s u) = Destroyed)) as [Hd|]; [left|by right]. intros Hi.
    apply (ok_claims _ _ (inv_tx _ HI u)) in Hr. unfold claims, required in Hr. rewrite Hi, Hd in Hr. set_solver. }
  assert (Hend : forall t, suspension (tx_of s t) = Idle /\ status (tx_of s t) = Destroyed).
  { intros t. split.
    - destruct (suspension (tx_of s t)) eqn:E; [done|exfalso..]; apply Hstuck, (drain_enabled s t); rewrite ?E; auto.
    - destruct (decide (status (tx_of s t) = Destroyed)); [done|]. exfalso. apply Hstuck, (drain_enabled s t); auto. }
  split; [|apply Hend]. apply map_empty. intros r. destruct (lockedBy s !! r) as [t|] eqn:Hr; [|done].
  apply (ok_claims _ _ (inv_tx _ HI t)) in Hr. destruct (Hend t) as [Hi Hd].
  unfold claims, required in Hr. rewrite Hi, Hd in Hr. set_solver.
Qed.

(** C8: Let every program await each call it makes on a transaction, its disposal
    included, before the next call on that transaction.  Once the programs call
    nothing new, whatever order the pending operations
    and finalizations run in, their number is bounded, and when none is left
    every transaction has ended and every lock is released. *)
Theorem transactions_drain s :
  reachable s ->
  (forall n s', nsteps drain n s s' -> (n <= rank s)%nat) /\
  (forall s', rtc drain s s' -> (~ exists s'', drain s' s'') ->
     lockedBy s' = ∅ /\ forall t, status (tx_of s' t) = Destroyed).
Proof.
  intros HI%reachable_inv. split.
  - intros n. clear HI. revert s. induction n as [|n IH]; intros s s' Hn; [lia|].
    inversion Hn as [|? ? mid ? Hd Hr]; subst. apply IH in Hr. apply drain_rank in Hd. lia.
  - intros s' Hr. assert (HI' : Inv s') by (induction Hr; eauto using step_inv, drain_step). by apply stuck_ended.
Qed.

End Safety.

(** ** An example: two transactions and a stand-in *)

(** Resource 10 stands for resource 1. *)
Definition sample_reference (r : Z) : option Z := if r =? 10 then Some 1 else None.

Lemma sample_chains_end : chains_end sample_reference 1.
Proof.
  intros r. cbn. unfold sample_reference. destruct (Z.eqb_spec r 10); [done|].
  by destruct (Z.eqb_spec r 10).
Qed.

Definition sample_opened : System := open (open initial 1 Rw) 2 Rw.

(** Transaction 1 locks the resource through its stand-in; transaction 2 asks
    for it and waits. *)
Definition sample_held : System := (lock sample_reference 1 sample_opened 1 [10]).1.
Definition sample_asked : System := (lock sample_reference 1 sample_held 2 [1]).1.
Definition sample_waiting : System := (resume sample_reference 1 sample_asked 2).1.

Lemma sample_reachable : reachable sample_reference 1 sample_waiting.
Proof.
  apply rtc_l with (open initial 1 Rw); [by apply step_open|].
  apply rtc_l with sample_opened; [by apply step_open|].
  apply rtc_l with sample_held; [by apply step_lock|].
  apply rtc_l with sample_asked; [by apply step_lock|].
  apply rtc_once, step_resume.
Qed.

Lemma transactions_exclusive_witness :
  writing (status (tx_of sample_waiting 1)) = true /\ lockedBy sample_waiting !! 1 = Some 1.
Proof.
  split; [reflexivity|].
  apply (proj1 (transactions_exclusive sample_reference 1 sample_waiting sample_chains_end sample_reachable) 1 10);
    [reflexivity|]. vm_compute. left.
Defined.

Lemma no_deadlock_witness :
  exists u r, tc (waits sample_waiting) 2 u /\ waitingOn (tx_of sample_waiting u) = None /\
    lockedBy sample_waiting !! r = Some u.
Proof. apply (no_deadlock sample_reference 1 sample_waiting 2 [1] sample_reachable). vm_compute. reflexivity. Defined.

Lemma transactions_drain_witness :
  rank sample_waiting = 24%nat /\
  forall n s', nsteps (drain sample_reference 1) n sample_waiting s' -> (n <= 24)%nat.
Proof.
  split; [vm_compute; reflexivity|].
  apply (proj1 (transactions_drain sample_reference 1 sample_waiting sample_reachable)).
Defined.

(** Transaction 2 is disposed of while it waits, and transaction 1 ends. *)
Definition sample_disposed : System :=
  dispose sample_reference 1 (dispose sample_reference 1 sample_waiting 2) 1.

(** The [begin] that was pending when the transaction was disposed of goes on:
    it locks the resource and makes the destroyed transaction exclusive, and
    nobody is left to release the lock. *)
Theorem disposed_waiter_keeps_lock :
  status (tx_of sample_disposed 2) = Destroyed /\ lockedBy sample_disposed = ∅ /\
  let s := (resume sample_reference 1 (resume sample_reference 1 sample_disposed 2).1 2).1 in
  status (tx_of s 2) = Exclusive /\ lockedBy s !! 1 = Some 2 /\ idle s 2.
Proof. cbv zeta. unfold idle. split_and!; vm_compute; reflexivity. Qed.
