(* ===== verification/TxCommit.v ===== *)
(** * Transactions: the commit cycle

    Models the finalizing half of src/packages/general/src/transaction/Tx.ts:
    [addParticipants], [commit], [rollback], [resolve], [reject] and the phases
    behind them, with the participants of Participant.ts.

    A participant is the program's own code.  It enters as the function
    [behaviour]: what a hook does, given everything that has happened before
    (the trace), so that a hook may keep any state of its own.  A hook can make
    participants join, can begin a new write transaction, and then returns or
    throws, synchronously or not; its calls on the transaction take effect when
    it is dispatched.  A hook that itself calls [commit] or [rollback] on the
    transaction is not covered.  Locks are the business of TxLocks.v: here [#reset] is
    the event [Unlocked]. *)

From stdpp Require Import list.
From S2P Require Import Prelude TxLocks.

(** ** Participants and state *)

Inductive Kind := KPreCommit | KSettled | KCommit1 | KCommit2 | KPostCommit | KRollback | KConclusion.

#[global] Instance Kind_eq_dec : EqDecision Kind.
Proof. solve_decision. Defined.

(** [Participant.Outcome] *)
Inductive Outcome := Committed | RolledBack | Inconsistent.

(** A call of a hook, with its argument. *)
Inductive Call := PreCommit | SettledCall | Commit1 | Commit2 | PostCommit | Rollback | Conclusion (outcome : Outcome).

Definition kind (c : Call) : Kind :=
  match c with
  | PreCommit => KPreCommit
  | SettledCall => KSettled
  | Commit1 => KCommit1
  | Commit2 => KCommit2
  | PostCommit => KPostCommit
  | Rollback => KRollback
  | Conclusion _ => KConclusion
  end.

(** [p_id] is the identity of the object, [p_name] its description, [p_hooks]
    the optional hooks it declares. *)
Record Participant := mkParticipant {
  p_id : Z;
  p_name : Z;
  p_role : option Z;
  p_hooks : list Kind;
}.

Definition has (c : Call) (p : Participant) : bool := bool_decide (kind c ∈ p_hooks p).

(** A hook ran, and returned a value ([Some], where only [preCommit] has a
    meaningful one) or threw ([None]); the locks were released. *)
Inductive Event :=
| Ran (c : Call) (p : Participant) (settled : option bool)
| Unlocked.

(** The transaction, with the trace of what happened. *)
Record World := mkWorld {
  w_status : Status;
  participants : list Participant;
  roles : list (Z * Participant);
  events : list Event;
}.

Definition with_status (st : Status) (w : World) : World :=
  mkWorld st (participants w) (roles w) (events w).

Definition record_event (e : Event) (w : World) : World :=
  mkWorld (w_status w) (participants w) (roles w) (events w ++ [e]).

Record CommitCycle := mkCycle {
  concluded : bool;
  reportees : option (list Participant);
  outcome : option Outcome;
}.

Definition new_cycle : CommitCycle := mkCycle false None None.

Definition MAX_PRECOMMIT_CYCLES : Z := 5.
Definition MAX_CHAINED_COMMITS : nat := 5.

(** ** Joining *)

Definition available (w : World) : result unit :=
  let* _ := throw_if (bool_decide (w_status w = Destroyed)) TransactionDestroyedError in
  throw_if (bool_decide (w_status w = ReadOnly)) ReadOnlyError.

(** The loop of [addParticipants]; what it did before it throws stays. *)
Fixpoint add_each (ps : list Participant) (w : World) : World * result unit :=
  match ps with
  | [] => (w, Ok tt)
  | p :: ps =>
      if existsb (fun q => p_id q =? p_id p) (participants w) then add_each ps w
      else if existsb (fun q => p_name q =? p_name p) (participants w) then (w, Throw ImplementationError)
      else
        let w := mkWorld (w_status w) (participants w ++ [p]) (roles w) (events w) in
        match p_role p with
        | None => add_each ps w
        | Some role =>
            if existsb (fun '(r, _) => r =? role) (roles w) then (w, Throw TransactionFlowError)
            else add_each ps (mkWorld (w_status w) (participants w) (roles w ++ [(role, p)]) (events w))
        end
  end.

Definition addParticipants (ps : list Participant) (w : World) : World * result unit :=
  match available w with
  | Throw e => (w, Throw e)
  | Ok _ =>
      if bool_decide (w_status w = Settled \/ w_status w = Concluding) then (w, Throw TransactionFlowError)
      else add_each ps w
  end.

Definition getParticipant (role : Z) (w : World) : result (option Participant) :=
  let* _ := available w in
  Ok (snd <$> List.find (fun '(r, _) => r =? role) (roles w)).

(** The effect of [beginSync] on the status, when the locks are free. *)
Definition enter_exclusive (w : World) : World * result unit :=
  match available w with
  | Throw e => (w, Throw e)
  | Ok _ =>
      if decide (w_status w = Exclusive) then (w, Ok tt)
      else if decide (w_status w = Shared) then (with_status Exclusive w, Ok tt)
      else (w, Throw TransactionFlowError)
  end.

(** What a hook does: participants join, a write transaction may begin, and it
    returns ([preCommit] a boolean) or throws. *)
Record Act := mkAct {
  joins : list Participant;
  begins : bool;
  returns : result bool;
  isAsync : bool;
}.

Section Cycle.

Context (behaviour : Call -> Participant -> list Event -> Act).

(** Bounds the loops over the set of participants, which may grow while it is
    iterated. *)
Context (fuel0 : nat).

(** [participant.hook?.()] *)
Definition run (c : Call) (p : Participant) (w : World) : World * result bool :=
  if has c p then
    let act := behaviour c p (events w) in
    let '(w1, r) := match joins act with [] => (w, Ok tt) | ps => addParticipants ps w end in
    let '(w2, r) :=
      match r with
      | Ok _ => if begins act then enter_exclusive w1 else (w1, Ok tt)
      | Throw e => (w1, Throw e)
      end in
    let r := let* _ := r in returns act in
    (record_event (Ran c p match r with Ok b => Some b | Throw _ => None end) w2, r)
  else (w, Ok false).

Definition reset_cycle (w : World) : World :=
  record_event Unlocked (mkWorld Shared [] [] (events w)).

(** [#finalize]: the reset follows whether or not the finalizer throws. *)
Definition finalize_with (st : Status) (finalizer : World -> World * CommitCycle * result unit)
    (cycle : CommitCycle) (w : World) : World * CommitCycle * result unit :=
  if decide (w_status w = Shared \/ w_status w = Exclusive) then
    let '(w, cycle, r) := finalizer (with_status st w) in
    (reset_cycle w, cycle, r)
  else (w, cycle, Throw TransactionFlowError).

Definition throwIfErrored (errored : list MatterError) : result unit :=
  match errored with
  | [] => Ok tt
  | [e] => Throw e
  | _ => Throw MatterAggregateError
  end.

(** The loops of phase two and of the rollback: every participant is reached,
    and the errors are collected. *)
Fixpoint dispatch (fuel : nat) (c : Call) (i : nat) (reached : list Participant) (errored : list MatterError)
    (w : World) : World * result (list Participant * list MatterError) :=
  match fuel with
  | O => (w, Throw OutOfFuel)
  | S fuel =>
      match participants w !! i with
      | None => (w, Ok (reached, errored))
      | Some p =>
          let '(w, r) := run c p w in
          dispatch fuel c (S i) (reached ++ [p])
            (errored ++ match r with Ok _ => [] | Throw e => [e] end) w
      end
  end.

Definition executeRollback (cycle : CommitCycle) (w : World) : World * CommitCycle * result unit :=
  let '(w, r) := dispatch fuel0 Rollback 0 [] [] (with_status RollingBack w) in
  match r with
  | Throw e => (w, cycle, Throw e)
  | Ok (reached, errored) =>
      (with_status Shared w,
       mkCycle (concluded cycle) (Some reached)
         (Some (if bool_decide (errored = []) then RolledBack else Inconsistent)),
       throwIfErrored errored)
  end.

(** [#notifyInTurn] with a handler that goes on. *)
Fixpoint notify_all (c : Call) (ps : list Participant) (w : World) : World :=
  match ps with
  | [] => w
  | p :: ps => notify_all c ps (run c p w).1
  end.

Definition conclude (cycle : CommitCycle) (ps : list Participant) (o : Outcome) (w : World) : World * CommitCycle :=
  if concluded cycle then (w, cycle)
  else
    let previous := w_status w in
    let w := notify_all (Conclusion o) ps (with_status Concluding w) in
    (if decide (w_status w = Concluding) then with_status previous w else w,
     mkCycle true (reportees cycle) (outcome cycle)).

Definition concludeCycle (cycle : CommitCycle) (w : World) : World * CommitCycle :=
  match reportees cycle, outcome cycle with
  | Some ps, Some o =>
      if existsb (has (Conclusion o)) ps then conclude cycle ps o w else (w, cycle)
  | _, _ => (w, cycle)
  end.

(** [#thenConclude]: the report follows the work, whether or not it threw. *)
Definition thenConclude (worked : World * CommitCycle * result unit) : World * CommitCycle * result unit :=
  let '(w, cycle, r) := worked in
  let '(w, cycle) := concludeCycle cycle w in
  (w, cycle, r).

Definition rollbackAndConclude (cycle : CommitCycle) (w : World) : World * CommitCycle * result unit :=
  thenConclude (finalize_with RollingBack (executeRollback cycle) cycle w).

(** ** Pre-commit *)

(** [errorRollback]: an error of the rollback takes the place of [error]. *)
Definition errorRollback (cycle : CommitCycle) (error : MatterError) (w : World) : World * result unit :=
  let '(w, _, r) := rollbackAndConclude cycle w in
  (w, let* _ := r in Throw error).

(** [executePreCommit]: [i] is the position of the iterator.  Each pass has
    [fuel0] turns; [passes] bounds the passes. *)
Fixpoint pass (fuel : nat) (cycle : CommitCycle) (i : nat) (mayHaveMutated : bool) (w : World)
    : World * result bool :=
  match fuel with
  | O => (w, Throw OutOfFuel)
  | S fuel =>
      match participants w !! i with
      | None => (w, Ok mayHaveMutated)
      | Some p =>
          let '(w, r) := run PreCommit p w in
          match r with
          | Throw e => let '(w, r) := errorRollback cycle e w in (w, let* _ := r in Throw e)
          | Ok b => pass fuel cycle (S i) (mayHaveMutated || b) w
          end
      end
  end.

Fixpoint preCommit_passes (passes : nat) (cycle : CommitCycle) (cycles : Z) (w : World) : World * result unit :=
  match passes with
  | O => (w, Throw OutOfFuel)
  | S passes =>
      let '(w, r) := pass fuel0 cycle 0 false w in
      match r with
      | Throw e => (w, Throw e)
      | Ok false => (w, Ok tt)
      | Ok true =>
          let cycles := cycles + 1 in
          if MAX_PRECOMMIT_CYCLES <? cycles then errorRollback cycle UnsettledStateError w
          else preCommit_passes passes cycle cycles w
      end
  end.

Definition executePreCommit (cycle : CommitCycle) (w : World) : World * result unit :=
  preCommit_passes (Z.to_nat MAX_PRECOMMIT_CYCLES) cycle 1 w.

(** ** Settled *)

(** [#notifyInTurn] with a handler that throws: the first error ends it. *)
Fixpoint notify_until (c : Call) (ps : list Participant) (w : World) : World * result unit :=
  match ps with
  | [] => (w, Ok tt)
  | p :: ps =>
      let '(w, r) := run c p w in
      match r with
      | Ok _ => notify_until c ps w
      | Throw e => (w, Throw e)
      end
  end.

Definition restore_settled (w : World) : World :=
  if decide (w_status w = Settled) then with_status Exclusive w else w.

Definition executeSettled (cycle : CommitCycle) (w : World) : World * result unit :=
  match filter (fun p => has SettledCall p = true) (participants w) with
  | [] => (w, Ok tt)
  | ps =>
      let '(w, r) := notify_until SettledCall ps (with_status Settled w) in
      match r with
      | Ok _ => (restore_settled w, Ok tt)
      | Throw e => ((rollbackAndConclude cycle (restore_settled w)).1.1, Throw e)
      end
  end.

(** ** The two phases *)

(** The loop of phase one: a hook that throws synchronously ends it, a promise
    that is rejected does not. *)
Fixpoint commit1_loop (fuel : nat) (i : nat) (needRollback : bool) (w : World) : World * result bool :=
  match fuel with
  | O => (w, Throw OutOfFuel)
  | S fuel =>
      match participants w !! i with
      | None => (w, Ok needRollback)
      | Some p =>
          let async := isAsync (behaviour Commit1 p (events w)) in
          let '(w, r) := run Commit1 p w in
          match r with
          | Ok _ => commit1_loop fuel (S i) needRollback w
          | Throw _ => if async then commit1_loop fuel (S i) true w else (w, Ok true)
          end
      end
  end.

Definition executeCommit1 (cycle : CommitCycle) (w : World) : World * CommitCycle * result unit :=
  let '(w, r) := commit1_loop fuel0 0 false w in
  match r with
  | Throw e => (w, cycle, Throw e)
  | Ok false => (w, cycle, Ok tt)
  | Ok true =>
      let '(w, cycle, r) := executeRollback cycle w in
      (w, cycle, let* _ := r in Throw FinalizationError)
  end.

Definition executeCommit2 (cycle : CommitCycle) (w : World) : World * CommitCycle * result unit :=
  let '(w, r) := dispatch fuel0 Commit2 0 [] [] (with_status CommittingPhaseTwo w) in
  match r with
  | Throw e => (w, cycle, Throw e)
  | Ok (reached, errored) =>
      (w, mkCycle (concluded cycle) (Some reached) (outcome cycle), throwIfErrored errored)
  end.

Definition executePhases (cycle : CommitCycle) (w : World) : World * CommitCycle * result unit :=
  let '(w, cycle, r) := executeCommit1 cycle w in
  match r with
  | Ok _ => executeCommit2 cycle w
  | Throw e => (w, cycle, Throw e)
  end.

Definition executeCommit (cycle : CommitCycle) (w : World) : World * CommitCycle * result unit :=
  let ps := participants w in
  let '(w, cycle, r) := finalize_with CommittingPhaseOne (executePhases cycle) cycle w in
  match r with
  | Ok _ =>
      let to := default ps (reportees cycle) in
      (notify_all PostCommit to w, mkCycle (concluded cycle) (Some to) (Some Committed), Ok tt)
  | Throw e =>
      let cycle := mkCycle (concluded cycle) (Some (default ps (reportees cycle)))
                     (Some (default Inconsistent (outcome cycle))) in
      let '(w, cycle) := concludeCycle cycle w in
      (w, cycle, Throw e)
  end.

(** ** The cycle *)

(** [#executeCommitCycle], with [chain] cycles left of the limit. *)
Fixpoint executeCommitCycle (chain : nat) (w : World) : World * result unit :=
  match chain with
  | O => (w, Throw TransactionFlowError)
  | S chain =>
      let cycle := new_cycle in
      let '(w, r) := executePreCommit cycle w in
      match r with
      | Throw e => (w, Throw e)
      | Ok _ =>
          let '(w, r) := executeSettled cycle w in
          match r with
          | Throw e => (w, Throw e)
          | Ok _ =>
              let '(w, cycle, r) := executeCommit cycle w in
              match r with
              | Throw e => (w, Throw e)
              | Ok _ =>
                  if decide (w_status w = Exclusive) then
                    let '(w, r) := executeCommitCycle chain w in
                    ((concludeCycle cycle w).1, r)
                  else ((concludeCycle cycle w).1, Ok tt)
              end
          end
      end
  end.

Definition rollback (w : World) : World * result unit :=
  match available w with
  | Throw e => (w, Throw e)
  | Ok _ => let '(w, _, r) := rollbackAndConclude new_cycle w in (w, r)
  end.

Definition commit (w : World) : World * result unit :=
  if decide (w_status w = Shared) then rollback w
  else
    match available w with
    | Throw e => (w, Throw e)
    | Ok _ => executeCommitCycle MAX_CHAINED_COMMITS w
    end.

(** [[Symbol.dispose]()] *)
Definition dispose_cycle (w : World) : World := with_status Destroyed (reset_cycle w).

Definition reject (cause : MatterError) (w : World) : World * result unit :=
  if decide (w_status w = Shared) then (dispose_cycle (reset_cycle w), Throw cause)
  else (dispose_cycle (rollback w).1, Throw cause).

(** [resolve] of a value. *)
Definition resolve (w : World) : World * result unit :=
  match commit w with
  | (w, Throw e) => reject e w
  | (w, Ok _) => (dispose_cycle w, Ok tt)
  end.

End Cycle.
