(* ===== verification/TxProtocol.v ===== *)
(** * Transactions: what a commit does to its participants

    The table of hooks in the documentation of
    src/packages/general/src/transaction/Participant.ts, as a grammar of the
    traces of TxCommit.v, and the proof that every commit and every rollback
    follows it, whatever the participants do: which hooks run, for whom, in
    which order, where a phase stops, what outcome is reported and to whom. *)

From stdpp Require Import list sets.
From S2P Require Import Prelude TxLocks TxCommit.

(** ** The grammar *)

(** [evs] are the calls of hook [c] on those of [ps] that declare it, in order. *)
Inductive calls (c : Call) : list Participant -> list Event -> Prop :=
| calls_nil : calls c [] []
| calls_skip p ps evs : has c p = false -> calls c ps evs -> calls c (p :: ps) evs
| calls_ran p ps evs v : has c p = true -> calls c ps evs -> calls c (p :: ps) (Ran c p v :: evs).

Definition returned (e : Event) : Prop := match e with Ran _ _ None | Unlocked => False | _ => True end.
Definition threw (e : Event) : Prop := match e with Ran _ _ None => True | _ => False end.
Definition mutated (e : Event) : Prop := match e with Ran _ _ (Some true) => True | _ => False end.

(** A phase that stops at the first participant that throws. *)
Inductive stops (c : Call) : list Participant -> list Event -> Prop :=
| stops_skip p ps evs : has c p = false -> stops c ps evs -> stops c (p :: ps) evs
| stops_next p ps evs v : has c p = true -> stops c ps evs -> stops c (p :: ps) (Ran c p (Some v) :: evs)
| stops_here p ps : has c p = true -> stops c (p :: ps) [Ran c p None].

(** [n] passes of pre-commit over the participants, first [P0] and then those
    who joined as well, in each of which somebody may have mutated state. *)
Inductive restless (P0 : list Participant) : nat -> list Participant -> list Event -> Prop :=
| restless_none : restless P0 0 P0 []
| restless_more n P P' evs pass :
    restless P0 n P evs -> P `prefix_of` P' ->
    calls PreCommit P' pass -> Forall returned pass -> Exists mutated pass ->
    restless P0 (S n) P' (evs ++ pass).

(** Pre-commit converged: in the last pass, over the participants [P], every one
    reported that it mutated nothing. *)
Definition converged (P0 P : list Participant) (evs : list Event) : Prop :=
  exists n P1 before last, (n < 5)%nat /\ restless P0 n P1 before /\ P1 `prefix_of` P /\
    calls PreCommit P last /\ Forall returned last /\ ~ Exists mutated last /\ evs = before ++ last.

(** A rollback: every participant is reverted, the locks are released, and the
    same participants learn the outcome. *)
Definition reverts (P : list Participant) (ok : bool) (evs : list Event) : Prop :=
  exists undo told, evs = undo ++ Unlocked :: told /\ calls Rollback P undo /\
    if ok then Forall returned undo /\ calls (Conclusion RolledBack) P told
    else Exists threw undo /\ calls (Conclusion Inconsistent) P told.

(** A cycle over the participants [P0] in which both phases succeed, up to
    post-commit.  [P] are the participants phase two reached. *)
Definition writes (P0 P : list Participant) (evs : list Event) : Prop :=
  exists Ps P1 pre told one two post,
    evs = pre ++ told ++ one ++ two ++ Unlocked :: post /\
    converged P0 Ps pre /\ calls SettledCall Ps told /\ Forall returned told /\
    Ps `prefix_of` P1 /\ calls Commit1 P1 one /\ Forall returned one /\
    P1 `prefix_of` P /\ calls Commit2 P two /\ Forall returned two /\
    calls PostCommit P post.

(** The traces of a commit of a transaction with participants [P0] that may chain
    [n] cycles, with its result.  Participants may join in every phase, which
    then reaches them too; a chained cycle has those who join in post-commit. *)
Inductive commit_trace (P0 : list Participant) : nat -> list Event -> result unit -> Prop :=
| too_many : commit_trace P0 0 [] (Throw TransactionFlowError)
| preCommit_failed n P1 P P' k before pass undo ok r :
    restless P0 k P1 before -> (k < 5)%nat -> P1 `prefix_of` P -> stops PreCommit P pass ->
    P `prefix_of` P' -> reverts P' ok undo ->
    commit_trace P0 (S n) (before ++ pass ++ undo) (Throw r)
| preCommit_unsettled n P P' before undo ok r :
    restless P0 5 P before -> P `prefix_of` P' -> reverts P' ok undo -> (ok = true -> r = UnsettledStateError) ->
    commit_trace P0 (S n) (before ++ undo) (Throw r)
| settled_rejected n P P' pre told undo ok r :
    converged P0 P pre -> stops SettledCall P told -> P `prefix_of` P' -> reverts P' ok undo ->
    commit_trace P0 (S n) (pre ++ told ++ undo) (Throw r)
| phase_one_failed n P P1 P' pre told one undo ok r :
    converged P0 P pre -> calls SettledCall P told -> Forall returned told ->
    calls Commit1 P1 one -> Exists threw one -> (P `prefix_of` P1 \/ exists p, last one = Some (Ran Commit1 p None)) ->
    P `prefix_of` P' -> P1 `prefix_of` P' -> reverts P' ok undo ->
    (ok = true -> r = FinalizationError) ->
    commit_trace P0 (S n) (pre ++ told ++ one ++ undo) (Throw r)
| phase_two_failed n P P1 P2 pre told one two report r :
    converged P0 P pre -> calls SettledCall P told -> Forall returned told ->
    P `prefix_of` P1 -> calls Commit1 P1 one -> Forall returned one ->
    P1 `prefix_of` P2 -> calls Commit2 P2 two -> Exists threw two ->
    calls (Conclusion Inconsistent) P2 report ->
    commit_trace P0 (S n) (pre ++ told ++ one ++ two ++ Unlocked :: report) (Throw r)
| committed n P front report :
    writes P0 P front -> calls (Conclusion Committed) P report ->
    commit_trace P0 (S n) (front ++ report) (Ok tt)
| committed_again n P P2 front chained report r :
    writes P0 P front -> commit_trace P2 n chained r -> calls (Conclusion Committed) P report ->
    commit_trace P0 (S n) (front ++ chained ++ report) r.

Lemma calls_elem c ps evs p : calls c ps evs -> p ∈ ps -> has c p = true -> exists v, Ran c p v ∈ evs.
Proof.
  induction 1 as [|q ps evs Hq _ IH|q ps evs v Hq _ IH]; [by intros ?%elem_of_nil|..]; intros [->|Hp]%elem_of_cons Hh.
  - congruence.
  - by apply IH.
  - exists v. by apply elem_of_cons; left.
  - destruct (IH Hp Hh) as [v' ?]. exists v'. by apply elem_of_cons; right.
Qed.

Lemma restless_prefix P0 n P evs : restless P0 n P evs -> P0 `prefix_of` P.
Proof. induction 1; [done|by etrans]. Qed.

Lemma converged_prefix P0 P evs : converged P0 P evs -> P0 `prefix_of` P.
Proof. intros (n & P1 & ? & ? & _ & H%restless_prefix & ? & _). by etrans. Qed.

(** A commit that succeeds has called the phase-one and phase-two hooks of every
    participant it started with, and they returned. *)
Lemma calls_returned_elem c ps evs p :
  calls c ps evs -> Forall returned evs -> p ∈ ps -> has c p = true -> exists v, Ran c p (Some v) ∈ evs.
Proof.
  intros Hc Hr Hp Hh. destruct (calls_elem c ps evs p Hc Hp Hh) as [[v|] Hv]; [by exists v|].
  rewrite Forall_forall in Hr. by destruct (Hr _ Hv).
Qed.

Lemma writes_reaches P0 P evs p c :
  writes P0 P evs -> p ∈ P0 -> c = Commit1 \/ c = Commit2 -> has c p = true -> exists v, Ran c p (Some v) ∈ evs.
Proof.
  intros (Ps & P1 & pre & told & one & two & post & -> & Hcv%converged_prefix & _ & _ & H1 & C1 & R1 & H2 & C2 & R2 & _) Hp Hc Hh.
  assert (Hp1 : p ∈ P1) by (apply (elem_of_prefix P0 P1 p); [done|by etrans]).
  assert (Hp2 : p ∈ P) by (by apply (elem_of_prefix P1 P p)).
  destruct Hc as [-> | ->].
  - destruct (calls_returned_elem _ _ _ p C1 R1) as [v Hv]; [done..|]. exists v. rewrite !elem_of_app. tauto.
  - destruct (calls_returned_elem _ _ _ p C2 R2) as [v Hv]; [done..|]. exists v. rewrite !elem_of_app. tauto.
Qed.

Lemma trace_reaches P0 n evs r p c :
  commit_trace P0 n evs r -> r = Ok tt -> p ∈ P0 -> c = Commit1 \/ c = Commit2 -> has c p = true ->
  exists v, Ran c p (Some v) ∈ evs.
Proof.
  intros H Hr Hp Hc Hh. destruct H as [| | | | | |n P front report Hw _|n P P2 front chained report r Hw _ _]; try done;
    destruct (writes_reaches _ _ _ p c Hw) as [v Hv]; try done; exists v; rewrite !elem_of_app; by left.
Qed.

(** ** Joining participants *)

Section Protocol.

Context (behaviour : Call -> Participant -> list Event -> Act).

(** The participants that can ever join. *)
Context (universe : list Participant).
Context (joins_known : forall c p evs q, q ∈ joins (behaviour c p evs) -> q ∈ universe).
Context (throws_real : forall c p evs, returns (behaviour c p evs) <> Throw OutOfFuel).

Local Abbreviation fuel0 := (S (length universe)).
Local Abbreviation run := (run behaviour).

Definition roster (w : World) : Prop :=
  NoDup (p_id <$> participants w) /\ Forall (fun p => p ∈ universe) (participants w).

Lemma roster_length w : roster w -> (length (participants w) <= length universe)%nat.
Proof.
  intros [Hn Hu]. rewrite <- (length_fmap p_id (participants w)), <- (length_fmap p_id universe).
  apply submseteq_length, NoDup_submseteq; [done|].
  intros x (p & -> & Hp)%list_elem_of_fmap. apply list_elem_of_fmap. exists p. split; [done|].
  rewrite Forall_forall in Hu. by apply Hu.
Qed.

(** [w'] differs from [w] by participants that joined. *)
Definition joined (w w' : World) : Prop :=
  w_status w' = w_status w /\ events w' = events w /\ participants w `prefix_of` participants w' /\
  (roster w -> roster w').

Lemma joined_refl w : joined w w.
Proof. by split_and!. Qed.

Lemma joined_trans a b c : joined a b -> joined b c -> joined a c.
Proof. intros (?&?&?&?) (?&?&?&?). split_and!; [congruence|congruence|by etrans|auto]. Qed.

Lemma existsb_false {A} (f : A -> bool) l : existsb f l = false -> forall x, x ∈ l -> f x = false.
Proof.
  intros H x Hx. destruct (f x) eqn:E; [|done]. rewrite <- H. symmetry. apply existsb_exists. exists x.
  by rewrite <- list_elem_of_In.
Qed.

Lemma joined_one w p rs :
  p ∈ universe -> existsb (fun q => p_id q =? p_id p) (participants w) = false ->
  joined w (mkWorld (w_status w) (participants w ++ [p]) rs (events w)).
Proof.
  intros Hu Hid. split_and!; [done..|by apply prefix_app_r|]. intros [Hn Hf]. split; cbn.
  - rewrite fmap_app. apply NoDup_app. split_and!; [done| |by apply NoDup_singleton].
    intros x (q & -> & Hq)%list_elem_of_fmap Hx%list_elem_of_singleton.
    pose proof (existsb_false _ _ Hid q Hq) as E. cbn in E. lia.
  - apply Forall_app. split; [done|by apply Forall_singleton].
Qed.

Lemma add_each_joined ps w w' r :
  (forall q, q ∈ ps -> q ∈ universe) -> add_each ps w = (w', r) -> joined w w' /\ r <> Throw OutOfFuel.
Proof.
  revert w. induction ps as [|p ps IH]; intros w Hps; cbn [add_each].
  { intros [= <- <-]. split; [apply joined_refl|done]. }
  assert (Hp : p ∈ universe) by (apply Hps; set_solver).
  assert (Hps' : forall q, q ∈ ps -> q ∈ universe) by (intros q Hq; apply Hps; set_solver).
  destruct (existsb (fun q => p_id q =? p_id p) (participants w)) eqn:Hid; [by apply IH|].
  destruct (existsb (fun q => p_name q =? p_name p) (participants w)).
  { intros [= <- <-]. split; [apply joined_refl|done]. }
  destruct (p_role p) as [role|].
  - cbn [w_status participants roles events]. destruct (existsb _ (roles w)).
    + intros [= <- <-]. split; [by apply joined_one|done].
    + intros [H1 H2]%IH; [|done]. split; [|done]. eapply joined_trans; [|done]. by apply joined_one.
  - intros [H1 H2]%IH; [|done]. split; [|done]. eapply joined_trans; [|done]. by apply joined_one.
Qed.

Lemma available_ok w : available w <> Throw OutOfFuel.
Proof. unfold available. by repeat case_bool_decide. Qed.

Lemma addParticipants_joined ps w w' r :
  (forall q, q ∈ ps -> q ∈ universe) -> addParticipants ps w = (w', r) -> joined w w' /\ r <> Throw OutOfFuel.
Proof.
  intros Hps. unfold addParticipants. pose proof (available_ok w).
  destruct (available w); [|intros [= <- <-]; split; [apply joined_refl|congruence]].
  case_bool_decide; [|by apply add_each_joined]. intros [= <- <-]. split; [apply joined_refl|done].
Qed.

(** ** One hook *)

Definition settled_as (r : result bool) : option bool := match r with Ok b => Some b | Throw _ => None end.

Definition called (c : Call) (p : Participant) (r : result bool) : list Event :=
  if has c p then [Ran c p (settled_as r)] else [].

(** A hook cannot leave the phase it runs in; it may re-enter exclusive status
    once the transaction is shared again. *)
Record ran (c : Call) (p : Participant) (w w' : World) (r : result bool) : Prop := {
  ran_events : events w' = events w ++ called c p r;
  ran_joins : participants w `prefix_of` participants w';
  ran_roster : roster w -> roster w';
  ran_status : w_status w <> Shared -> w_status w' = w_status w;
  ran_shared : w_status w = Shared -> w_status w' = Shared \/ w_status w' = Exclusive;
  ran_real : r <> Throw OutOfFuel;
  ran_quiet : has c p = false -> w' = w /\ r = Ok false;
}.

Lemma enter_exclusive_spec w w' r :
  enter_exclusive w = (w', r) ->
  r <> Throw OutOfFuel /\ (w' = w \/ w_status w = Shared /\ w' = with_status Exclusive w).
Proof.
  unfold enter_exclusive. pose proof (available_ok w).
  destruct (available w); [|intros [= <- <-]; split; [congruence|by left]].
  case_decide; [intros [= <- <-]; auto|]. case_decide; intros [= <- <-]; auto.
Qed.

Lemma run_ran c p w w' r : run c p w = (w', r) -> ran c p w w' r.
Proof.
  unfold TxCommit.run. destruct (has c p) eqn:Hhas.
  2:{ intros [= <- <-]. constructor; auto. unfold called. by rewrite Hhas, app_nil_r. }
  set (act := behaviour c p (events w)).
  destruct (match joins act with [] => (w, Ok tt) | ps => addParticipants ps w end) as [w1 r1] eqn:E1.
  assert (H1 : joined w w1 /\ r1 <> Throw OutOfFuel).
  { destruct (joins act) as [|q qs] eqn:Ej; [injection E1 as <- <-; split; [apply joined_refl|done]|].
    apply (addParticipants_joined (q :: qs)); [|done]. intros x. rewrite <- Ej. apply joins_known. }
  destruct H1 as [(Hst & Hev & Hpre & Hro) Hr1].
  destruct (match r1 with Ok _ => if begins act then enter_exclusive w1 else (w1, Ok tt) | Throw e => (w1, Throw e) end)
    as [w2 r2] eqn:E2.
  assert (H2 : r2 <> Throw OutOfFuel /\ (w2 = w1 \/ w_status w1 = Shared /\ w2 = with_status Exclusive w1)).
  { destruct r1; [|injection E2 as <- <-; split; [congruence|by left]].
    destruct (begins act); [by apply enter_exclusive_spec|injection E2 as <- <-; auto]. }
  destruct H2 as [Hr2 Hw2]. intros [= <- <-].
  assert (Hp2 : participants w2 = participants w1) by (by destruct Hw2 as [->|[_ ->]]).
  assert (He2 : events w2 = events w1) by (by destruct Hw2 as [->|[_ ->]]).
  constructor; cbn.
  - unfold called. by rewrite Hhas, He2, Hev.
  - by rewrite Hp2.
  - intros Hr. unfold roster. cbn. rewrite Hp2. by apply Hro.
  - intros Hns. destruct Hw2 as [->|[Hs _]]; congruence.
  - intros Hs. destruct Hw2 as [->|[_ ->]]; [left; congruence|by right].
  - pose proof (throws_real c p (events w)). destruct r2; cbn; [done|congruence].
  - congruence.
Qed.

(** While the transaction refuses participants, a hook changes nothing. *)
Lemma run_refused c p w w' r :
  w_status w = Settled \/ w_status w = Concluding -> run c p w = (w', r) ->
  participants w' = participants w /\ w_status w' = w_status w.
Proof.
  intros Hst. unfold TxCommit.run. destruct (has c p); [|by intros [= <- <-]].
  assert (Hadd : forall ps, (addParticipants ps w).1 = w).
  { intros ps. unfold addParticipants. destruct (available w); [|done]. by rewrite bool_decide_eq_true_2. }
  set (act := behaviour c p (events w)).
  destruct (match joins act with [] => (w, Ok tt) | ps => addParticipants ps w end) as [w1 r1] eqn:E1.
  assert (w1 = w) as ->.
  { destruct (joins act) as [|q qs]; [by injection E1|]. specialize (Hadd (q :: qs)). by rewrite E1 in Hadd. }
  destruct (match r1 with Ok _ => if begins act then enter_exclusive w else (w, Ok tt) | Throw e => (w, Throw e) end)
    as [w2 r2] eqn:E2.
  assert (w2 = w) as ->; [|by intros [= <- <-]].
  destruct r1; [|by injection E2]. destruct (begins act); [|by injection E2].
  apply enter_exclusive_spec in E2 as [_ [?|[? _]]]; [done|]. destruct Hst; congruence.
Qed.

(** ** Loops over the participants *)

Lemma calls_app c ps qs e f : calls c ps e -> calls c qs f -> calls c (ps ++ qs) (e ++ f).
Proof. induction 1; [done|by constructor; auto..]. Qed.

Lemma calls_called c p ps r evs : calls c ps evs -> calls c (p :: ps) (called c p r ++ evs).
Proof. intros H. unfold called. destruct (has c p) eqn:E; cbn; by constructor. Qed.

Lemma called_ok c p b : Forall returned (called c p (Ok b)).
Proof. unfold called. destruct (has c p); by repeat constructor. Qed.

Lemma called_threw c p e : has c p = true -> Exists threw (called c p (Throw e)).
Proof. intros H. unfold called. rewrite H. by apply Exists_cons_hd. Qed.

Lemma calls_skipped c ps : existsb (has c) ps = false -> calls c ps [].
Proof.
  induction ps as [|p ps IH]; cbn; [constructor|]. intros [H1 H2]%orb_false_iff. constructor; auto.
Qed.

Lemma calls_filter c P evs : calls c (filter (fun p => has c p = true) P) evs -> calls c P evs.
Proof.
  revert evs. induction P as [|p P IH]; intros evs; [done|]. rewrite filter_cons. case_decide as H.
  - intros Hc. inversion Hc; subst; [congruence|]. apply calls_ran; auto.
  - intros Hc. constructor; [by apply not_true_iff_false|auto].
Qed.

Lemma stops_filter c P evs : stops c (filter (fun p => has c p = true) P) evs -> stops c P evs.
Proof.
  revert evs. induction P as [|p P IH]; intros evs; [done|]. rewrite filter_cons. case_decide as H.
  - intros Hc. inversion Hc; subst; [congruence|apply stops_next; auto|by apply stops_here].
  - intros Hc. constructor; [by apply not_true_iff_false|auto].
Qed.

(** The hooks of a phase ran, in a status the hooks cannot leave. *)
Record evolves (w w' : World) (evs : list Event) : Prop := {
  ev_events : events w' = events w ++ evs;
  ev_joins : participants w `prefix_of` participants w';
  ev_roster : roster w';
  ev_status : w_status w' = w_status w;
}.

Lemma evolves_refl w : roster w -> evolves w w [].
Proof. intros H. constructor; [by rewrite app_nil_r|done..]. Qed.

Lemma evolves_trans a b c e f : evolves a b e -> evolves b c f -> evolves a c (e ++ f).
Proof.
  intros [] []. constructor; [|by etrans|done|congruence]. rewrite ev_events1, ev_events0. by rewrite app_assoc.
Qed.

Lemma run_evolves c p w w' r :
  roster w -> w_status w <> Shared -> run c p w = (w', r) -> evolves w w' (called c p r).
Proof. intros Hr Hs H%run_ran. constructor; [apply H|apply H|by apply H|by apply H]. Qed.

Lemma run_throws c p w w' e :
  run c p w = (w', Throw e) -> has c p = true /\ e <> OutOfFuel.
Proof.
  intros H%run_ran. split; [|pose proof (ran_real _ _ _ _ _ H); congruence].
  destruct (has c p) eqn:E; [done|]. by destruct (ran_quiet _ _ _ _ _ H E).
Qed.

(** The iterator is at [i]: what it has passed, and that it can go on. *)
Lemma loop_next w w1 i p :
  participants w !! i = Some p -> participants w `prefix_of` participants w1 ->
  take i (participants w) ++ [p] = take (S i) (participants w1) /\ (S i <= length (participants w1))%nat.
Proof.
  intros Hi [k ->]. pose proof (lookup_lt_Some _ _ _ Hi). rewrite length_app. split; [|lia].
  rewrite take_app_le by lia. by rewrite (take_S_r _ _ p).
Qed.

Lemma loop_drop w w1 i p :
  participants w !! i = Some p -> participants w `prefix_of` participants w1 ->
  drop i (participants w1) = p :: drop (S i) (participants w1).
Proof. intros Hi Hp. apply drop_S. by eapply prefix_lookup_Some. Qed.

Lemma loop_done w i :
  participants w !! i = None -> (i <= length (participants w))%nat ->
  take i (participants w) = participants w /\ drop i (participants w) = [].
Proof. intros H%lookup_ge_None Hl. split; [by apply take_ge|by apply drop_ge]. Qed.

Lemma loop_fuel w i : roster w -> (i <= length (participants w))%nat -> (length universe < i)%nat -> False.
Proof. intros H%roster_length. lia. Qed.

Lemma dispatch_spec fuel c i errored w :
  roster w -> w_status w <> Shared -> (i <= length (participants w))%nat -> (length universe < fuel + i)%nat ->
  exists w' evs errs,
    dispatch behaviour fuel c i (take i (participants w)) errored w = (w', Ok (participants w', errored ++ errs)) /\
    evolves w w' evs /\ calls c (drop i (participants w')) evs /\ Forall (fun e => e <> OutOfFuel) errs /\
    (errs = [] /\ Forall returned evs \/ errs <> [] /\ Exists threw evs).
Proof.
  revert i errored w. induction fuel as [|fuel IH]; intros i errored w Hr Hs Hi Hf; [by destruct (loop_fuel w i)|].
  cbn [dispatch]. destruct (participants w !! i) as [p|] eqn:Hp.
  2:{ destruct (loop_done _ _ Hp Hi) as [-> Hd]. exists w, [], []. rewrite app_nil_r, Hd.
      split_and!; [done|by apply evolves_refl|constructor|done|by left]. }
  destruct (run c p w) as [w1 r] eqn:E. pose proof (run_evolves _ _ _ _ _ Hr Hs E) as H1.
  destruct (loop_next _ _ _ _ Hp (ev_joins _ _ _ H1)) as [-> Hlen].
  destruct (IH (S i) (errored ++ match r with Ok _ => [] | Throw e => [e] end) w1)
    as (w' & evs & errs & -> & H2 & Hc & Hreal & Ho); [apply H1|by rewrite (ev_status _ _ _ H1)|done|lia|].
  exists w', (called c p r ++ evs), (match r with Ok _ => [] | Throw e => [e] end ++ errs).
  split_and!; [by rewrite app_assoc|by eapply evolves_trans| | |].
  - rewrite (loop_drop _ w' _ _ Hp); [by apply calls_called|]. etrans; [apply H1|apply H2].
  - destruct r; [done|]. constructor; [by eapply run_throws|done].
  - destruct r as [b|e].
    + destruct Ho as [[-> Ho]|[Ho1 Ho2]]; [left|right]; (split; [done|]).
      * apply Forall_app. split; [apply called_ok|done].
      * apply Exists_app. by right.
    + right. split; [done|]. apply Exists_app. left. apply called_threw. by eapply run_throws.
Qed.

(** Phase one reached every participant, or ended with one that threw. *)
Definition covers (P P1 : list Participant) (one : list Event) : Prop :=
  P1 = P \/ exists p, last one = Some (Ran Commit1 p None).

Lemma covers_cons p P P1 e one : covers P P1 one -> covers (p :: P) (p :: P1) (e ++ one).
Proof. intros [->|[q Hq]]; [by left|right]. exists q. by rewrite last_app, Hq. Qed.

Lemma commit1_loop_spec fuel i b w :
  roster w -> w_status w <> Shared -> (i <= length (participants w))%nat -> (length universe < fuel + i)%nat ->
  exists w' evs b' front,
    commit1_loop behaviour fuel i b w = (w', Ok b') /\ evolves w w' evs /\
    calls Commit1 front evs /\ front `prefix_of` drop i (participants w') /\
    (b' = b /\ Forall returned evs /\ front = drop i (participants w') \/
     b' = true /\ Exists threw evs /\ covers (drop i (participants w')) front evs).
Proof.
  revert i b w. induction fuel as [|fuel IH]; intros i b w Hr Hs Hi Hf; [by destruct (loop_fuel w i)|].
  cbn [commit1_loop]. destruct (participants w !! i) as [p|] eqn:Hp.
  2:{ destruct (loop_done _ _ Hp Hi) as [_ Hd]. exists w, [], b, []. rewrite Hd.
      split_and!; [done|by apply evolves_refl|constructor|done|by left]. }
  destruct (run Commit1 p w) as [w1 r] eqn:E. pose proof (run_evolves _ _ _ _ _ Hr Hs E) as H1.
  destruct (loop_next _ _ _ _ Hp (ev_joins _ _ _ H1)) as [_ Hlen].
  assert (Hrest : forall b1, exists w' evs b' front,
    commit1_loop behaviour fuel (S i) b1 w1 = (w', Ok b') /\ evolves w w' (called Commit1 p r ++ evs) /\
    calls Commit1 (p :: front) (called Commit1 p r ++ evs) /\ p :: front `prefix_of` drop i (participants w') /\
    (b' = b1 /\ Forall returned evs /\ p :: front = drop i (participants w') \/
     b' = true /\ Exists threw evs /\ covers (drop i (participants w')) (p :: front) (called Commit1 p r ++ evs))).
  { intros b1. destruct (IH (S i) b1 w1) as (w' & evs & b' & front & -> & H2 & Hc & Hpre & Ho);
      [apply H1|by rewrite (ev_status _ _ _ H1)|done|lia|].
    exists w', evs, b', front. rewrite (loop_drop _ w' _ _ Hp) by (etrans; [apply H1|apply H2]).
    split_and!; [done|by eapply evolves_trans|by apply calls_called|by apply prefix_cons|].
    destruct Ho as [(-> & ? & ->)|(-> & ? & ?)]; [by left|right]. split_and!; [done..|by apply covers_cons]. }
  destruct r as [v|e].
  - destruct (Hrest b) as (w' & evs & b' & front & -> & H2 & Hc & Hpre & Ho).
    exists w', (called Commit1 p (Ok v) ++ evs), b', (p :: front). split_and!; [done..|].
    destruct Ho as [(-> & Ho & Hfr)|(-> & Ho & Hcov)]; [left|right]; split_and!; try done.
    + apply Forall_app. split; [apply called_ok|done].
    + apply Exists_app. by right.
  - pose proof (called_threw Commit1 p e (proj1 (run_throws _ _ _ _ _ E))) as Hthrew.
    destruct (isAsync _).
    + destruct (Hrest true) as (w' & evs & b' & front & -> & H2 & Hc & Hpre & Ho).
      exists w', (called Commit1 p (Throw e) ++ evs), b', (p :: front). split_and!; [done..|].
      right. split_and!; [by destruct Ho as [[-> _]|[-> _]]|apply Exists_app; by left|].
      destruct Ho as [(_ & _ & Hfr)|(_ & _ & Hcov)]; [by left|done].
    + exists w1, (called Commit1 p (Throw e)), true, [p]. split_and!; [done..| | |right; split_and!; [done|done|]].
      * rewrite <- (app_nil_r (called _ _ _)). apply calls_called. constructor.
      * rewrite (loop_drop _ w1 _ _ Hp) by apply H1. apply prefix_cons, prefix_nil.
      * right. exists p. unfold called. by rewrite (proj1 (run_throws _ _ _ _ _ E)).
Qed.

(** ** Reports *)

Lemma notify_all_refused c ps w :
  w_status w = Settled \/ w_status w = Concluding ->
  exists evs, calls c ps evs /\ events (notify_all behaviour c ps w) = events w ++ evs /\
    participants (notify_all behaviour c ps w) = participants w /\
    w_status (notify_all behaviour c ps w) = w_status w.
Proof.
  revert w. induction ps as [|p ps IH]; intros w Hs; cbn [notify_all].
  { exists []. split_and!; [constructor|by rewrite app_nil_r|done..]. }
  destruct (run c p w) as [w1 r] eqn:E. cbn [fst].
  destruct (run_refused _ _ _ _ _ Hs E) as [Hp Hst]. apply run_ran in E.
  destruct (IH w1) as (evs & Hc & He & Hp' & Hst'); [by rewrite Hst|].
  exists (called c p r ++ evs). split_and!; [by apply calls_called| |congruence..].
  rewrite He, (ran_events _ _ _ _ _ E). by rewrite app_assoc.
Qed.

(** The report of an outcome reaches the recorded participants, and leaves the
    transaction as it was. *)
Lemma concludeCycle_spec P o w :
  exists report, calls (Conclusion o) P report /\
    let w' := (concludeCycle behaviour (mkCycle false (Some P) (Some o)) w).1 in
    events w' = events w ++ report /\ participants w' = participants w /\ w_status w' = w_status w.
Proof.
  unfold concludeCycle. cbn [reportees outcome]. destruct (existsb (has (Conclusion o)) P) eqn:Eh.
  - unfold conclude. cbn [concluded fst].
    destruct (notify_all_refused (Conclusion o) P (with_status Concluding w)) as (evs & Hc & He & Hp & Hs); [by right|].
    exists evs. split; [done|]. rewrite decide_True by done. by split_and!.
  - exists []. split; [by apply calls_skipped|]. cbn. by rewrite app_nil_r.
Qed.

(** ** Rollback *)

Lemma throwIfErrored_spec errs :
  Forall (fun e => e <> OutOfFuel) errs ->
  throwIfErrored errs <> Throw OutOfFuel /\ (throwIfErrored errs = Ok tt <-> errs = []).
Proof. intros H. destruct errs as [|e [|e' errs]]; cbn; [done| |done]. inversion H. split; [congruence|done]. Qed.

Lemma executeRollback_spec cycle w :
  roster w ->
  exists w' P undo r (ok : bool),
    executeRollback behaviour fuel0 cycle w =
      (w', mkCycle (concluded cycle) (Some P) (Some (if ok then RolledBack else Inconsistent)), r) /\
    events w' = events w ++ undo /\ participants w `prefix_of` P /\ calls Rollback P undo /\
    r <> Throw OutOfFuel /\ if ok then Forall returned undo /\ r = Ok tt else Exists threw undo /\ r <> Ok tt.
Proof.
  intros Hr. unfold executeRollback.
  destruct (dispatch_spec fuel0 Rollback 0 [] (with_status RollingBack w)) as (w' & evs & errs & E & H & Hc & Hreal & Ho);
    [done|done|lia|lia|].
  cbn [take] in E. rewrite take_0 in E. rewrite E. cbn [app]. rewrite drop_0 in Hc.
  destruct (throwIfErrored_spec errs Hreal) as [Hnf Hok].
  exists (with_status Shared w'), (participants w'), evs, (throwIfErrored errs), (bool_decide (errs = [])).
  split_and!; [by case_bool_decide|apply H|apply H|done|done|].
  destruct Ho as [[-> Ho]|[Hne Ho]]; [done|]. rewrite bool_decide_eq_false_2 by done. split; [done|]. by rewrite Hok.
Qed.

Lemma rollbackAndConclude_spec w :
  roster w -> w_status w = Shared \/ w_status w = Exclusive ->
  exists w' cycle P undo (ok : bool) r,
    rollbackAndConclude behaviour fuel0 new_cycle w = (w', cycle, r) /\
    events w' = events w ++ undo /\ participants w `prefix_of` P /\ reverts P ok undo /\
    w_status w' = Shared /\ participants w' = [] /\ r <> Throw OutOfFuel /\ (if ok then r = Ok tt else r <> Ok tt).
Proof.
  intros Hr Hs. unfold rollbackAndConclude, finalize_with. rewrite decide_True by done.
  destruct (executeRollback_spec new_cycle (with_status RollingBack w) Hr)
    as (w1 & P & undo & r & ok & -> & He & Hp & Hc & Hnf & Hok).
  unfold thenConclude. cbn [concluded new_cycle].
  destruct (concludeCycle_spec P (if ok then RolledBack else Inconsistent) (reset_cycle w1)) as (report & Hrep & H).
  destruct (concludeCycle behaviour _ (reset_cycle w1)) as [w' cycle']. cbn zeta in H. cbn [fst] in H.
  destruct H as (He' & Hp' & Hs').
  exists w', cycle', P, (undo ++ Unlocked :: report), ok, r. split_and!; [done| |done| | | |done|].
  - rewrite He'. cbn [reset_cycle record_event events]. rewrite He. cbn. by rewrite <- !app_assoc.
  - exists undo, report. split_and!; [done..|]. by destruct ok; destruct Hok.
  - by rewrite Hs'.
  - by rewrite Hp'.
  - by destruct ok; destruct Hok.
Qed.

(** ** Pre-commit *)

Definition rolled_back (w w' : World) (undo : list Event) (ok : bool) (P : list Participant) : Prop :=
  events w' = events w ++ undo /\ participants w `prefix_of` P /\ reverts P ok undo /\
  w_status w' = Shared /\ participants w' = [].

Lemma errorRollback_spec e w :
  roster w -> w_status w = Exclusive -> e <> OutOfFuel ->
  exists w' P undo ok e', errorRollback behaviour fuel0 new_cycle e w = (w', Throw e') /\
    rolled_back w w' undo ok P /\ e' <> OutOfFuel /\ (ok = true -> e' = e).
Proof.
  intros Hr Hs He. unfold errorRollback.
  destruct (rollbackAndConclude_spec w Hr) as (w' & cyc & P & undo & ok & r & -> & H1 & H2 & H3 & H4 & H5 & H6 & H7); [by right|].
  destruct r as [[]|e']; cbn [rbind].
  - exists w', P, undo, ok, e. by split_and!.
  - exists w', P, undo, ok, e'. split_and!; [done|by split_and!|congruence|]. intros ->. done.
Qed.

Definition mutates (b : bool) (evs : list Event) : Prop := b = true <-> Exists mutated evs.

Lemma called_mutates c p b evs m :
  (has c p = false -> b = false) -> mutates m evs -> mutates (b || m) (called c p (Ok b) ++ evs).
Proof.
  unfold mutates, called. intros Hb Hm. rewrite orb_true_iff, Exists_app, Hm.
  destruct (has c p); [|rewrite Hb by done; rewrite Exists_nil; naive_solver].
  cbn. rewrite Exists_cons, Exists_nil. destruct b; cbn; naive_solver.
Qed.

Lemma pass_spec fuel i b w :
  roster w -> w_status w = Exclusive -> (i <= length (participants w))%nat -> (length universe < fuel + i)%nat ->
  (exists w' evs m, pass behaviour fuel0 fuel new_cycle i b w = (w', Ok (b || m)) /\ evolves w w' evs /\
     calls PreCommit (drop i (participants w')) evs /\ Forall returned evs /\ mutates m evs) \/
  (exists w1 w' evs undo ok P e, pass behaviour fuel0 fuel new_cycle i b w = (w', Throw e) /\ evolves w w1 evs /\
     stops PreCommit (drop i (participants w1)) evs /\ rolled_back w1 w' undo ok P /\ e <> OutOfFuel).
Proof.
  revert i b w. induction fuel as [|fuel IH]; intros i b w Hr Hs Hi Hf; [by destruct (loop_fuel w i)|].
  assert (Hns : w_status w <> Shared) by congruence.
  cbn [pass]. destruct (participants w !! i) as [p|] eqn:Hp.
  2:{ left. destruct (loop_done _ _ Hp Hi) as [_ Hd]. exists w, [], false. rewrite Hd, orb_false_r.
      split_and!; [done|by apply evolves_refl|constructor|done|]. unfold mutates. by rewrite Exists_nil. }
  destruct (run PreCommit p w) as [w1 r] eqn:E. pose proof (run_evolves _ _ _ _ _ Hr Hns E) as H1.
  destruct (loop_next _ _ _ _ Hp (ev_joins _ _ _ H1)) as [_ Hlen].
  destruct r as [v|e].
  - assert (Hv : has PreCommit p = false -> v = false).
    { intros Hh. apply run_ran in E. destruct (ran_quiet _ _ _ _ _ E Hh) as [_ [= ->]]. done. }
    destruct (IH (S i) (b || v) w1) as
      [(w' & evs & m & -> & H2 & Hc & Hret & Hm)|(w2 & w' & evs & undo & ok & P & e & -> & H2 & Hst & Hrb & Hne)];
      [apply H1|by rewrite (ev_status _ _ _ H1)|done|lia|left|right].
    + exists w', (called PreCommit p (Ok v) ++ evs), (v || m). rewrite orb_assoc.
      split_and!; [done|by eapply evolves_trans| | |by apply called_mutates].
      * rewrite (loop_drop _ w' _ _ Hp); [by apply calls_called|]. etrans; [apply H1|apply H2].
      * apply Forall_app. split; [apply called_ok|done].
    + exists w2, w', (called PreCommit p (Ok v) ++ evs), undo, ok, P, e.
      split_and!; [done|by eapply evolves_trans| |done..].
      rewrite (loop_drop _ w2 _ _ Hp) by (etrans; [apply H1|apply H2]).
      unfold called. destruct (has PreCommit p) eqn:Hh; [by apply stops_next|by apply stops_skip].
  - destruct (run_throws _ _ _ _ _ E) as [Hh He]. right.
    destruct (errorRollback_spec e w1) as (w' & P & undo & ok & e' & -> & Hrb & Hne & _);
      [apply H1|by rewrite (ev_status _ _ _ H1)|done|].
    exists w1, w', (called PreCommit p (Throw e)), undo, ok, P, e'. split_and!; [done..| |done|done].
    rewrite (loop_drop _ w1 _ _ Hp) by apply H1. unfold called. rewrite Hh. by apply stops_here.
Qed.

(** A commit that failed, whatever the number of chained cycles. *)
Definition fails_as (P0 : list Participant) (evs : list Event) (e : MatterError) : Prop :=
  e <> OutOfFuel /\ forall n, commit_trace P0 (S n) evs (Throw e).

Lemma preCommit_passes_spec Pi passes n w P0 before :
  (passes + n = 5)%nat -> (0 < passes)%nat -> roster w -> w_status w = Exclusive ->
  restless Pi n P0 before -> P0 `prefix_of` participants w ->
  (exists w' evs, preCommit_passes behaviour fuel0 passes new_cycle (Z.of_nat n + 1) w = (w', Ok tt) /\
     evolves w w' evs /\ converged Pi (participants w') (before ++ evs)) \/
  (exists w' evs e, preCommit_passes behaviour fuel0 passes new_cycle (Z.of_nat n + 1) w = (w', Throw e) /\
     events w' = events w ++ evs /\ w_status w' = Shared /\ fails_as Pi (before ++ evs) e).
Proof.
  revert n w P0 before. induction passes as [|passes IH]; intros n w P0 before Hn Hpos Hr Hs Hrest Hpre; [lia|].
  cbn [preCommit_passes].
  destruct (pass_spec fuel0 0 false w Hr Hs) as
    [(w1 & evs & m & -> & H1 & Hc & Hret & Hm)|(w1 & w' & evs & undo & ok & P & e & -> & H1 & Hst & Hrb & Hne)];
    [lia|lia| |].
  - rewrite drop_0 in Hc. cbn [orb]. assert (Hpre1 : P0 `prefix_of` participants w1) by (etrans; [done|apply H1]).
    destruct m.
    + assert (Hrest1 : restless Pi (S n) (participants w1) (before ++ evs)).
      { eapply restless_more; [done..|by apply Hm]. }
      unfold MAX_PRECOMMIT_CYCLES. destruct (Z.ltb_spec 5 (Z.of_nat n + 1 + 1)) as [Hgt|Hle].
      * assert (n = 4%nat) as -> by lia.
        destruct (errorRollback_spec UnsettledStateError w1) as (w' & P & undo & ok & e' & -> & Hrb & Hne & Hok);
          [apply H1|by rewrite (ev_status _ _ _ H1)|done|].
        destruct Hrb as (He & HP & Hrev & Hst & _). right. exists w', (evs ++ undo), e'.
        split_and!; [done| |done|].
        -- rewrite He, (ev_events _ _ _ H1). by rewrite app_assoc.
        -- split; [done|]. intros k. rewrite app_assoc. by eapply preCommit_unsettled.
      * replace (Z.of_nat n + 1 + 1) with (Z.of_nat (S n) + 1) by lia.
        destruct (IH (S n) w1 (participants w1) (before ++ evs)) as
          [(w' & more & -> & H2 & Hconv)|(w' & more & e & -> & He & Hst & Hfail)];
          [lia|lia|apply H1|by rewrite (ev_status _ _ _ H1)|done|done|left|right].
        -- exists w', (evs ++ more). split_and!; [done|by eapply evolves_trans|by rewrite app_assoc].
        -- exists w', (evs ++ more), e. split_and!; [done| |done|by rewrite app_assoc].
           rewrite He, (ev_events _ _ _ H1). by rewrite app_assoc.
    + left. exists w1, evs. split_and!; [done..|]. exists n, P0, before, evs. split_and!; [lia|done..| |done].
      intros Hx%Hm. done.
  - right. destruct Hrb as (He & HP & Hrev & Hst' & _). rewrite drop_0 in Hst. exists w', (evs ++ undo), e.
    split_and!; [done| |done|].
    + rewrite He, (ev_events _ _ _ H1). by rewrite app_assoc.
    + split; [done|]. intros k.
      eapply preCommit_failed; [done|lia|etrans; [done|apply H1]|done|done|done].
Qed.

(** ** Settled *)

Lemma notify_until_spec c ps w :
  w_status w = Settled ->
  exists w' evs, events w' = events w ++ evs /\ participants w' = participants w /\ w_status w' = Settled /\
    ((notify_until behaviour c ps w = (w', Ok tt) /\ calls c ps evs /\ Forall returned evs) \/
     exists e, notify_until behaviour c ps w = (w', Throw e) /\ stops c ps evs /\ e <> OutOfFuel).
Proof.
  revert w. induction ps as [|p ps IH]; intros w Hs; cbn [notify_until].
  { exists w, []. rewrite app_nil_r. split_and!; [done..|]. left. by split_and!; [|constructor|]. }
  destruct (run c p w) as [w1 r] eqn:E.
  destruct (run_refused _ _ _ _ _ (or_introl Hs) E) as [Hp Hst]. pose proof (run_ran _ _ _ _ _ E) as H1.
  destruct r as [v|e].
  - destruct (IH w1) as (w' & evs & He & Hp' & Hs' & Ho); [congruence|].
    exists w', (called c p (Ok v) ++ evs). split_and!; [|congruence|done|].
    { rewrite He, (ran_events _ _ _ _ _ H1). by rewrite app_assoc. }
    destruct Ho as [(-> & Hc & Hret)|(e & -> & Hst' & Hne)]; [left|right].
    + split_and!; [done|by apply calls_called|]. apply Forall_app. split; [apply called_ok|done].
    + exists e. split_and!; [done| |done]. unfold called.
      destruct (has c p) eqn:Hh; [by apply stops_next|by apply stops_skip].
  - destruct (run_throws _ _ _ _ _ E) as [Hh He]. exists w1, [Ran c p None].
    split_and!; [|congruence..|].
    + rewrite (ran_events _ _ _ _ _ H1). unfold called. by rewrite Hh.
    + right. exists e. split_and!; [done|by apply stops_here|done].
Qed.

Lemma executeSettled_spec w :
  roster w -> w_status w = Exclusive ->
  (exists w' told, executeSettled behaviour fuel0 new_cycle w = (w', Ok tt) /\ evolves w w' told /\
     participants w' = participants w /\ calls SettledCall (participants w) told /\ Forall returned told) \/
  (exists w' told undo ok P e, executeSettled behaviour fuel0 new_cycle w = (w', Throw e) /\
     events w' = events w ++ told ++ undo /\ w_status w' = Shared /\
     stops SettledCall (participants w) told /\ participants w `prefix_of` P /\ reverts P ok undo /\ e <> OutOfFuel).
Proof.
  intros Hr Hs. unfold executeSettled.
  destruct (filter (fun p => has SettledCall p = true) (participants w)) as [|q qs] eqn:Ef.
  - left. exists w, []. split_and!; [done|by apply evolves_refl|done| |done].
    apply calls_filter. rewrite Ef. constructor.
  - destruct (notify_until_spec SettledCall (q :: qs) (with_status Settled w) eq_refl)
      as (w1 & evs & He & Hp & Hs1 & Ho). cbn in He, Hp.
    assert (Hrs : forall w2, w2 = restore_settled w1 ->
      events w2 = events w ++ evs /\ participants w2 = participants w /\ w_status w2 = Exclusive).
    { intros w2 ->. unfold restore_settled. rewrite decide_True by done. by split_and!. }
    destruct (Hrs _ eq_refl) as (He2 & Hp2 & Hs2).
    assert (Hr2 : roster (restore_settled w1)) by (unfold roster; by rewrite Hp2).
    destruct Ho as [(-> & Hc & Hret)|(e & -> & Hst & Hne)]; [left|right].
    + exists (restore_settled w1), evs. split_and!; [done| |done| |done].
      * constructor; [done|by rewrite Hp2|done|congruence].
      * apply calls_filter. by rewrite Ef.
    + destruct (rollbackAndConclude_spec (restore_settled w1) Hr2)
        as (w' & cyc & P & undo & ok & r & -> & H1 & H2 & H3 & H4 & H5 & H6 & H7); [by right|].
      exists w', evs, undo, ok, P, e. cbn [fst]. split_and!; [done| |done| |congruence|done|done].
      * rewrite H1, He2. by rewrite app_assoc.
      * apply stops_filter. by rewrite Ef.
Qed.

(** ** The two phases *)

Lemma notify_all_shared c ps w :
  roster w -> w_status w = Shared \/ w_status w = Exclusive ->
  exists evs, calls c ps evs /\ events (notify_all behaviour c ps w) = events w ++ evs /\
    roster (notify_all behaviour c ps w) /\
    (w_status (notify_all behaviour c ps w) = Shared \/ w_status (notify_all behaviour c ps w) = Exclusive).
Proof.
  revert w. induction ps as [|p ps IH]; intros w Hr Hs; cbn [notify_all].
  { exists []. split_and!; [constructor|by rewrite app_nil_r|done..]. }
  destruct (run c p w) as [w1 r] eqn:E. cbn [fst]. apply run_ran in E.
  destruct (IH w1) as (evs & Hc & He & Hr' & Hs').
  - by apply E.
  - destruct Hs as [Hs|Hs]; [by apply E|right]. rewrite <- Hs. apply E. congruence.
  - exists (called c p r ++ evs). split_and!; [by apply calls_called| |done|done].
    rewrite He, (ran_events _ _ _ _ _ E). by rewrite app_assoc.
Qed.

(** The outcome of phases one and two, before the locks are released. *)
Inductive phases (w w' : World) : CommitCycle -> result unit -> list Event -> Prop :=
| phases_failed_one P1 P one undo (ok : bool) e :
    calls Commit1 P1 one -> Exists threw one ->
    (participants w `prefix_of` P1 \/ exists p, last one = Some (Ran Commit1 p None)) ->
    participants w `prefix_of` P -> P1 `prefix_of` P -> calls Rollback P undo ->
    (if ok then Forall returned undo /\ e = FinalizationError else Exists threw undo) -> e <> OutOfFuel ->
    phases w w' (mkCycle false (Some P) (Some (if ok then RolledBack else Inconsistent))) (Throw e) (one ++ undo)
| phases_failed_two P1 P one two e :
    participants w `prefix_of` P1 -> calls Commit1 P1 one -> Forall returned one ->
    P1 `prefix_of` P -> calls Commit2 P two -> Exists threw two -> e <> OutOfFuel ->
    phases w w' (mkCycle false (Some P) None) (Throw e) (one ++ two)
| phases_done P1 P one two :
    participants w `prefix_of` P1 -> calls Commit1 P1 one -> Forall returned one ->
    P1 `prefix_of` P -> calls Commit2 P two -> Forall returned two ->
    phases w w' (mkCycle false (Some P) None) (Ok tt) (one ++ two).

Lemma executePhases_spec w :
  roster w -> w_status w = CommittingPhaseOne ->
  exists w' cycle r evs, executePhases behaviour fuel0 new_cycle w = (w', cycle, r) /\
    events w' = events w ++ evs /\ phases w w' cycle r evs.
Proof.
  intros Hr Hs. unfold executePhases, executeCommit1.
  destruct (commit1_loop_spec fuel0 0 false w Hr) as (w1 & one & b & front & -> & H1 & Hc & Hpre & Ho);
    [congruence|lia|lia|]. rewrite drop_0 in *.
  destruct Ho as [(-> & Hret & ->)|(-> & Hthrew & Hcov)].
  - unfold executeCommit2.
    destruct (dispatch_spec fuel0 Commit2 0 [] (with_status CommittingPhaseTwo w1))
      as (w2 & two & errs & E & H2 & Hc2 & Hreal & Ho); [apply H1|done|cbn; lia|lia|].
    rewrite take_0 in E. rewrite E. cbn [app]. rewrite drop_0 in Hc2.
    destruct (throwIfErrored_spec errs Hreal) as [Hnf Hok].
    exists w2, (mkCycle false (Some (participants w2)) None), (throwIfErrored errs), (one ++ two).
    split_and!; [done| |].
    { rewrite (ev_events _ _ _ H2). cbn. rewrite (ev_events _ _ _ H1). by rewrite app_assoc. }
    destruct Ho as [[-> Ho]|[Hne Ho]].
    + eapply phases_done; [apply H1|done|done|apply (ev_joins _ _ _ H2)|done|done].
    + destruct (throwIfErrored errs) as [[]|e]; [by destruct Hne; apply Hok|].
      eapply phases_failed_two; [apply H1|done|done|apply (ev_joins _ _ _ H2)|done|done|congruence].
  - destruct (executeRollback_spec new_cycle w1 (ev_roster _ _ _ H1))
      as (w2 & P & undo & r & ok & -> & He & Hp & Hcr & Hnf & Hok). cbn [concluded new_cycle].
    exists w2, (mkCycle false (Some P) (Some (if ok then RolledBack else Inconsistent))),
      (let* _ := r in Throw FinalizationError), (one ++ undo).
    split_and!; [by destruct r| |].
    { rewrite He, (ev_events _ _ _ H1). by rewrite app_assoc. }
    assert (Hcov' : participants w `prefix_of` front \/ exists p, last one = Some (Ran Commit1 p None)).
    { destruct Hcov as [->|?]; [left; apply H1|by right]. }
    assert (HwP : participants w `prefix_of` P) by (etrans; [apply H1|done]).
    destruct r as [[]|e]; cbn [rbind].
    + apply (phases_failed_one _ _ front); [done|done|done|done|by etrans|done| |done].
      by destruct ok; destruct Hok.
    + apply (phases_failed_one _ _ front); [done|done|done|done|by etrans|done| |congruence].
      destruct ok; destruct Hok; [congruence|done].
Qed.

(** What follows [told] in the trace of a cycle. *)
Lemma executeCommit_spec w :
  roster w -> w_status w = Exclusive ->
  (exists w' P P1 one two post, executeCommit behaviour fuel0 new_cycle w =
       (w', mkCycle false (Some P) (Some Committed), Ok tt) /\
     events w' = events w ++ one ++ two ++ Unlocked :: post /\ roster w' /\
     (w_status w' = Shared \/ w_status w' = Exclusive) /\
     participants w `prefix_of` P1 /\ calls Commit1 P1 one /\ Forall returned one /\
     P1 `prefix_of` P /\ calls Commit2 P two /\ Forall returned two /\ calls PostCommit P post) \/
  (exists w' cycle evs e, executeCommit behaviour fuel0 new_cycle w = (w', cycle, Throw e) /\
     events w' = events w ++ evs /\ w_status w' = Shared /\ e <> OutOfFuel /\
     forall P0 n pre told, converged P0 (participants w) pre -> calls SettledCall (participants w) told ->
       Forall returned told -> commit_trace P0 (S n) (pre ++ told ++ evs) (Throw e)).
Proof.
  intros Hr Hs. unfold executeCommit, finalize_with. rewrite decide_True by auto.
  destruct (executePhases_spec (with_status CommittingPhaseOne w) Hr eq_refl)
    as (w1 & cycle & r & evs & -> & He & Hph). cbn in He.
  assert (Hreset : events (reset_cycle w1) = events w ++ evs ++ [Unlocked]) by (cbn; by rewrite He, app_assoc).
  assert (Hempty : roster (reset_cycle w1)) by (split; constructor).
  destruct Hph as [P1 P one undo ok e Hc1 Ht1 Hcov HwP Hp1 Hcr Hok Hne|P1 P one two e Hp1 Hc1 Hr1 Hp2 Hc2 Ht2 Hne|P1 P one two Hp1 Hc1 Hr1 Hp2 Hc2 Hr2].
  - right. cbn [reportees outcome concluded default].
    destruct (concludeCycle_spec P (if ok then RolledBack else Inconsistent) (reset_cycle w1)) as (rep & Hrep & H).
    destruct (concludeCycle behaviour _ (reset_cycle w1)) as [w' cycle']. cbn zeta in H. cbn [fst] in H.
    destruct H as (He' & _ & Hs').
    exists w', cycle', (one ++ undo ++ Unlocked :: rep), e. split_and!; [done| |by rewrite Hs'|done|].
    { rewrite He', Hreset. by rewrite <- !app_assoc. }
    intros P0 n pre told Hconv Hct Hrt. eapply (phase_one_failed P0 n _ P1 P _ _ _ _ ok); [done..| |].
    + exists undo, rep. split_and!; [done..|]. by destruct ok; [destruct Hok|].
    + intros ->. by destruct Hok.
  - right. cbn [reportees outcome concluded default].
    destruct (concludeCycle_spec P Inconsistent (reset_cycle w1)) as (rep & Hrep & H).
    destruct (concludeCycle behaviour _ (reset_cycle w1)) as [w' cycle']. cbn zeta in H. cbn [fst] in H.
    destruct H as (He' & _ & Hs').
    exists w', cycle', (one ++ two ++ Unlocked :: rep), e. split_and!; [done| |by rewrite Hs'|done|].
    { rewrite He', Hreset. by rewrite <- !app_assoc. }
    intros P0 n pre told Hconv Hct Hrt. by eapply (phase_two_failed P0 n _ P1 P).
  - left. cbn [reportees concluded default].
    destruct (notify_all_shared PostCommit P (reset_cycle w1) Hempty) as (post & Hcp & Hep & Hrp & Hsp); [by left|].
    exists (notify_all behaviour PostCommit P (reset_cycle w1)), P, P1, one, two, post.
    split_and!; try done. rewrite Hep, Hreset. by rewrite <- !app_assoc.
Qed.

(** ** The whole commit *)

Lemma executeCommitCycle_spec chain w :
  roster w -> w_status w = Exclusive ->
  exists w' evs r, executeCommitCycle behaviour fuel0 chain w = (w', r) /\ events w' = events w ++ evs /\
    commit_trace (participants w) chain evs r /\ r <> Throw OutOfFuel /\
    (w_status w' = Shared \/ r = Throw TransactionFlowError /\ w_status w' = Exclusive).
Proof.
  revert w. induction chain as [|chain IH]; intros w Hr Hs; cbn [executeCommitCycle].
  { exists w, [], (Throw TransactionFlowError). rewrite app_nil_r. split_and!; [done|done|constructor|done|by right]. }
  destruct (preCommit_passes_spec (participants w) 5 0 w (participants w) []) as [(w1 & pre & E1 & H1 & Hconv)|(w1 & evs & e & E1 & He & Hst & Hne & Hf)];
    [lia|lia|done|done|constructor|done| |];
    change (preCommit_passes behaviour fuel0 5 new_cycle (Z.of_nat 0 + 1) w)
      with (executePreCommit behaviour fuel0 new_cycle w) in E1; rewrite E1; cbn [app] in *.
  2:{ exists w1, evs, (Throw e). split_and!; [done|done|apply Hf|congruence|by left]. }
  assert (Hs1 : w_status w1 = Exclusive) by (by rewrite (ev_status _ _ _ H1)).
  destruct (executeSettled_spec w1 (ev_roster _ _ _ H1) Hs1) as
    [(w2 & told & -> & H2 & Hp2 & Hct & Hrt)|(w2 & told & undo & ok & P & e & -> & He & Hst & Hstop & HP & Hrev & Hne)].
  2:{ exists w2, (pre ++ told ++ undo), (Throw e). split_and!; [done| | |congruence|by left].
      - rewrite He, (ev_events _ _ _ H1). by rewrite <- !app_assoc.
      - by eapply settled_rejected. }
  rewrite <- Hp2 in Hconv, Hct.
  assert (Hs2 : w_status w2 = Exclusive) by (by rewrite (ev_status _ _ _ H2)).
  assert (He2 : events w2 = events w ++ pre ++ told).
  { rewrite (ev_events _ _ _ H2), (ev_events _ _ _ H1). by rewrite app_assoc. }
  destruct (executeCommit_spec w2 (ev_roster _ _ _ H2) Hs2) as
    [(w3 & P & P1 & one & two & post & -> & He3 & Hr3 & Hs3 & Hx1 & Hx2 & Hx3 & Hx4 & Hx5 & Hx6 & Hx7)
    |(w3 & cycle & evs & e & -> & He3 & Hst & Hne & Hf)].
  2:{ exists w3, (pre ++ told ++ evs), (Throw e). split_and!; [done| |by apply Hf|congruence|by left].
      rewrite He3, He2. by rewrite <- !app_assoc. }
  set (front := pre ++ told ++ one ++ two ++ Unlocked :: post).
  assert (Hw : writes (participants w) P front) by (exists (participants w2), P1, pre, told, one, two, post; by split_and!).
  assert (Hfront : events w3 = events w ++ front).
  { rewrite He3, He2. unfold front. by rewrite <- !app_assoc. }
  clearbody front. clear He3 He2 Hx1 Hx2 Hx3 Hx4 Hx5 Hx6 Hx7.
  case_decide as Hex.
  - destruct (IH w3 Hr3 Hex) as (w4 & more & r & -> & He4 & Htr & Hnf & Hs4).
    destruct (concludeCycle_spec P Committed w4) as (rep & Hrep & He5 & _ & Hs5). cbn zeta in He5, Hs5.
    eexists _, (front ++ more ++ rep), r. split_and!; [done| | |done|by rewrite Hs5].
    + rewrite He5, He4, Hfront. by rewrite <- !app_assoc.
    + by eapply committed_again.
  - destruct (concludeCycle_spec P Committed w3) as (rep & Hrep & He5 & _ & Hs5). cbn zeta in He5, Hs5.
    eexists _, (front ++ rep), (Ok tt). split_and!; [done| |by eapply committed|done|].
    + rewrite He5, Hfront. by rewrite <- !app_assoc.
    + left. rewrite Hs5. by destruct Hs3.
Qed.


(** A rollback reverts every participant, releases the locks and then reports,
    as inconsistent exactly when a participant failed to revert, which is also
    when it throws. *)
Theorem rollback_protocol w :
  roster w -> w_status w = Shared \/ w_status w = Exclusive ->
  exists w' P evs ok r, rollback behaviour fuel0 w = (w', r) /\ events w' = events w ++ evs /\
    participants w `prefix_of` P /\ reverts P ok evs /\ (ok = true <-> r = Ok tt) /\ r <> Throw OutOfFuel /\
    w_status w' = Shared /\ participants w' = [].
Proof.
  intros Hr Hs. unfold rollback.
  destruct (rollbackAndConclude_spec w Hr Hs) as (w' & cyc & P & undo & ok & r & -> & H1 & H2 & H3 & H4 & H5 & H6 & H7).
  exists w', P, undo, ok, r.
  replace (available w) with (@Ok unit tt) by (unfold available; by destruct Hs as [-> | ->]).
  split_and!; try done. by destruct ok.
Qed.

(** ** Atomicity *)

(** What a commit that succeeds consists of. *)
Definition succeeds (e : Event) : Prop :=
  match e with
  | Ran Rollback _ _ => False
  | Ran (Conclusion o) _ _ => o = Committed
  | Ran PostCommit _ _ => True
  | Ran _ _ settled => is_Some settled
  | Unlocked => True
  end.

Lemma calls_succeed c ps evs :
  calls c ps evs -> match c with PostCommit => True | Conclusion o => o = Committed | _ => False end ->
  Forall succeeds evs.
Proof. intros H Hc. induction H; [done|done|]. constructor; [|done]. by destruct c. Qed.

Lemma calls_returned c ps evs :
  calls c ps evs -> Forall returned evs ->
  match c with PreCommit | SettledCall | Commit1 | Commit2 => True | _ => False end -> Forall succeeds evs.
Proof.
  intros H Hr Hc. induction H as [|p ps evs Hh H IH|p ps evs v Hh H IH]; [done|auto|].
  inversion Hr; subst. constructor; [|auto]. destruct c, v; try done; by eexists.
Qed.

Lemma restless_succeeds P0 n P evs : restless P0 n P evs -> Forall succeeds evs.
Proof.
  induction 1 as [|n P P' evs pass H IH Hp Hc Hr Hm]; [done|]. apply Forall_app. split; [done|].
  by eapply calls_returned.
Qed.

Lemma writes_succeeds P0 P evs : writes P0 P evs -> Forall succeeds evs.
Proof.
  intros (Ps & P1 & pre & told & one & two & post & -> & Hconv & H1 & H2 & _ & H3 & H4 & _ & H5 & H6 & H7).
  destruct Hconv as (n & Pn & before & last & _ & Hb & _ & Hl & Hlr & _ & ->).
  rewrite !Forall_app, Forall_cons.
  split_and!; [by eapply restless_succeeds|by eapply (calls_returned PreCommit)|by eapply (calls_returned SettledCall)
    |by eapply (calls_returned Commit1)|by eapply (calls_returned Commit2)|done|by eapply (calls_succeed PostCommit)].
Qed.

Lemma commit_trace_ok P0 n evs r : commit_trace P0 n evs r -> r = Ok tt -> Forall succeeds evs.
Proof.
  induction 1; intros E; try done.
  - apply Forall_app. split; [by eapply writes_succeeds|by eapply calls_succeed].
  - rewrite !Forall_app. split_and!; [by eapply writes_succeeds|auto|by eapply calls_succeed].
Qed.

(** A commit that returns normally wrote everything: no hook of any participant
    before post-commit threw, none was rolled back, and every report says
    committed. *)
Theorem commit_success_atomic w w' :
  roster w -> w_status w = Exclusive -> commit behaviour fuel0 w = (w', Ok tt) ->
  exists evs, events w' = events w ++ evs /\ Forall succeeds evs.
Proof.
  intros Hr Hs E. destruct (executeCommitCycle_spec MAX_CHAINED_COMMITS w Hr Hs) as (w2 & evs & r & E2 & He & Ht & _).
  revert E. unfold commit. rewrite decide_False by congruence. unfold available. rewrite Hs. cbn [rbind throw_if bool_decide].
  rewrite !bool_decide_eq_false_2 by done. cbn [rbind throw_if]. rewrite E2. intros [= -> ->].
  exists evs. split; [done|]. by eapply commit_trace_ok.
Qed.

End Protocol.

(** ** The end of a transaction *)

(** Whatever the participants do, [resolve] ends the transaction: it is
    destroyed, has no participants left, and its last act was to release the
    locks.  Its result is that of the commit. *)
Theorem resolve_ends behaviour fuel w :
  let '(w', r) := resolve behaviour fuel w in
  w_status w' = Destroyed /\ participants w' = [] /\ last (events w') = Some Unlocked /\
  r = (commit behaviour fuel w).2.
Proof.
  unfold resolve. destruct (commit behaviour fuel w) as [w1 [[]|e]]; cbn [snd].
  - cbn. by rewrite last_snoc.
  - unfold reject. case_decide; cbn; by rewrite last_snoc.
Qed.

(** ** Examples *)

(** A participant that declares every hook, and a store that joins in the first
    phase of its commit. *)
Definition sample_store : Participant := mkParticipant 2 2 None [KCommit1; KCommit2; KRollback; KConclusion].
Definition sample_state : Participant :=
  mkParticipant 1 1 (Some 7) [KPreCommit; KSettled; KCommit1; KCommit2; KPostCommit; KRollback; KConclusion].

Definition sample_universe : list Participant := [sample_state; sample_store].

(** [preCommit] reports a mutation the first time. *)
Definition sample_behaviour (c : Call) (p : Participant) (evs : list Event) : Act :=
  match c with
  | PreCommit => mkAct [] false (Ok (bool_decide (length evs = 0%nat))) true
  | Commit1 => mkAct (if p_id p =? 1 then [sample_store] else []) false (Ok false) true
  | _ => mkAct [] false (Ok false) false
  end.

Definition sample_world (st : Status) (ps : list Participant) : World := mkWorld st ps [] [].

Lemma sample_joins c p evs q : q ∈ joins (sample_behaviour c p evs) -> q ∈ sample_universe.
Proof. unfold sample_universe. destruct c; cbn; [set_solver|set_solver| |set_solver..]. destruct (p_id p =? 1); set_solver. Qed.

Lemma sample_throws c p evs : returns (sample_behaviour c p evs) <> Throw OutOfFuel.
Proof. by destruct c. Qed.

Lemma sample_roster st : roster sample_universe (sample_world st [sample_state]).
Proof.
  split; cbn.
  - apply NoDup_singleton.
  - apply Forall_singleton. unfold sample_universe. set_solver.
Qed.

Example sample_commit_trace :
  events (commit sample_behaviour 3 (sample_world Exclusive [sample_state])).1 =
  [Ran PreCommit sample_state (Some true); Ran PreCommit sample_state (Some false);
   Ran SettledCall sample_state (Some false);
   Ran Commit1 sample_state (Some false); Ran Commit1 sample_store (Some false);
   Ran Commit2 sample_state (Some false); Ran Commit2 sample_store (Some false);
   Unlocked; Ran PostCommit sample_state (Some false);
   Ran (Conclusion Committed) sample_state (Some false); Ran (Conclusion Committed) sample_store (Some false)].
Proof. vm_compute. reflexivity. Qed.


Lemma rollback_protocol_witness :
  exists w' P evs ok r, rollback sample_behaviour 3 (sample_world Shared [sample_state]) = (w', r) /\
    events w' = [] ++ evs /\ [sample_state] `prefix_of` P /\ reverts P ok evs /\ (ok = true <-> r = Ok tt) /\
    r <> Throw OutOfFuel /\ w_status w' = Shared /\ participants w' = [].
Proof.
  apply (rollback_protocol sample_behaviour sample_universe sample_joins sample_throws
    (sample_world Shared [sample_state]) (sample_roster Shared)). left. reflexivity.
Defined.

Lemma commit_success_atomic_witness :
  exists evs, events (commit sample_behaviour 3 (sample_world Exclusive [sample_state])).1 = [] ++ evs /\
    Forall succeeds evs.
Proof.
  eapply (commit_success_atomic sample_behaviour sample_universe sample_joins sample_throws
    (sample_world Exclusive [sample_state]) _ (sample_roster Exclusive)); [reflexivity|].
  vm_compute. reflexivity.
Defined.

(** A commit that is called while [begin] still waits for the locks is refused,
    but not when a participant declares [settled]: its restore makes the
    transaction exclusive, and the commit writes without holding a lock. *)
Theorem waiting_commit_writes :
  let quiet := mkParticipant 1 1 None [KCommit2] in
  let inspecting := mkParticipant 1 1 None [KSettled; KCommit2] in
  commit sample_behaviour 3 (sample_world Waiting [quiet]) =
    (sample_world Waiting [quiet], Throw TransactionFlowError) /\
  (commit sample_behaviour 3 (sample_world Waiting [inspecting])).2 = Ok tt /\
  Ran Commit2 inspecting (Some false) ∈ events (commit sample_behaviour 3 (sample_world Waiting [inspecting])).1.
Proof. cbv zeta. split_and!; [vm_compute; reflexivity..|]. vm_compute. right. left. Qed.

(** A participant that writes again in every [postCommit]. *)
Definition restart : Participant := mkParticipant 3 3 None [KPostCommit; KConclusion].

Definition restart_behaviour (c : Call) (p : Participant) (evs : list Event) : Act :=
  match c with
  | PostCommit => mkAct [restart] true (Ok false) false
  | _ => mkAct [] false (Ok false) false
  end.

(** When post-commit handlers chain too many commits, the commit throws with the
    transaction still exclusive, and each of its cycles reports that it
    committed after the locks were taken again. *)
Theorem cascade_reports_while_locked :
  let '(w, r) := commit restart_behaviour 3 (sample_world Exclusive [restart]) in
  r = Throw TransactionFlowError /\ w_status w = Exclusive /\
  drop 10 (events w) = repeat (Ran (Conclusion Committed) restart (Some false)) 5 /\
  last (take 10 (events w)) = Some (Ran PostCommit restart (Some false)).
Proof. vm_compute. by split_and!. Qed.
