(* ===== verification/WalStore.v ===== *)
(** * Write-ahead log storage: the store and its operations

    Models the in-memory side of src/packages/general/src/storage/wal:
    WalCommit.ts (operations, commit identifiers, segment file names, context
    keys), [applyCommit] and [WalTransaction] of WalTransaction.ts, and the
    reads of WalStorageDriver.ts and WalSnapshot.ts.

    Strings are lists of UTF-16 code units.  An object used as a map is a
    [gmap]; names are taken not to be those of [Object.prototype].  The values
    kept in the store are of an arbitrary type. *)

From stdpp Require Import gmap sets list sorting.
From S2P Require Import Prelude.

Abbreviation Str := (list Z).

(** [Record<string, V>], and [StoreData]: one record per context. *)
Abbreviation Values V := (gmap (list Z) V).
Abbreviation StoreData V := (gmap (list Z) (gmap (list Z) V)).

(** ** Contexts *)

Definition dot : Z := 46.

(** [contexts.join(".")] *)
Fixpoint join (contexts : list Str) : Str :=
  match contexts with
  | [] => []
  | [c] => c
  | c :: cs => c ++ dot :: join cs
  end.

(** [#contextKey] *)
Definition contextKey (contexts : list Str) : result Str :=
  if existsb (fun ctx => bool_decide (ctx = []) || bool_decide (dot ∈ ctx)) contexts then Throw StorageError
  else Ok (join contexts).

(** [s.split(".")[0]] *)
Fixpoint first_part (s : Str) : Str :=
  match s with
  | [] => []
  | u :: s => if u =? dot then [] else u :: first_part s
  end.

(** [`${contextKey}.`], or nothing at the root. *)
Definition prefix_for (key : Str) : Str := if bool_decide (key = []) then [] else key ++ [dot].

(** The first part of [key] below [pre], when there is one. *)
Definition sub_context (pre key : Str) : option Str :=
  if decide (pre `prefix_of` key) then
    let sub := first_part (drop (length pre) key) in
    if bool_decide (sub = []) then None else Some sub
  else None.

Section Store.

Context {V : Type}.

Inductive WalOp :=
| Upd (key : Str) (values : Values V)
| Del (key : Str) (values : option (list Str)).

Record WalCommit := mkCommit {
  ts : Z;
  ops : list WalOp;
}.

(** ** Applying a commit *)

(** Whether clearing the context [key] removes the context [c]. *)
Definition clears (key c : Str) : bool :=
  bool_decide (key = []) || bool_decide (c = key) || bool_decide (key ++ [dot] `prefix_of` c).

Definition delete_all (m : Values V) (ks : list Str) : Values V := foldl (fun m k => delete k m) m ks.

(** The body of the loop of [applyCommit]. *)
Definition apply_op (store : StoreData V) (op : WalOp) : StoreData V :=
  match op with
  | Upd key values => <[key := values ∪ default ∅ (store !! key)]> store
  | Del key (Some ks) =>
      match store !! key with
      | Some m => <[key := delete_all m ks]> store
      | None => store
      end
  | Del key None =>
      if bool_decide (key = []) then ∅
      else filter (fun '(c, _) => c <> key /\ ~ key ++ [dot] `prefix_of` c) store
  end.

Definition apply_ops (store : StoreData V) (l : list WalOp) : StoreData V := foldl apply_op store l.

Definition applyCommit (store : StoreData V) (commit : WalCommit) : StoreData V := apply_ops store (ops commit).

Definition apply_all (store : StoreData V) (commits : list WalCommit) : StoreData V := foldl applyCommit store commits.

(** ** Reads of a store *)

Definition store_get (store : StoreData V) (contexts : list Str) (key : Str) : result (option V) :=
  let* c := contextKey contexts in
  Ok (store !! c ≫= (.!! key)).

Definition store_values (store : StoreData V) (contexts : list Str) : result (Values V) :=
  let* c := contextKey contexts in
  Ok (default ∅ (store !! c)).

Definition store_keys (store : StoreData V) (contexts : list Str) : result (gset Str) :=
  let* m := store_values store contexts in
  Ok (dom m).

Definition sub_contexts (store : StoreData V) (contexts : list Str) : gset Str :=
  list_to_set (omap (sub_context (prefix_for (join contexts))) (elements (dom store))).

(** ** The buffered transaction *)

Definition tx_set (buffer : list WalOp) (contexts : list Str) (values : Values V) : list WalOp :=
  buffer ++ [Upd (join contexts) values].
Definition tx_delete (buffer : list WalOp) (contexts : list Str) (key : Str) : list WalOp :=
  buffer ++ [Del (join contexts) (Some [key])].
Definition tx_clearAll (buffer : list WalOp) (contexts : list Str) : list WalOp :=
  buffer ++ [Del (join contexts) None].

(** The loop of [get]: the latest operation decides; [None] when no buffered
    operation does. *)
Fixpoint buffered_get (rev_ops : list WalOp) (c key : Str) : option (option V) :=
  match rev_ops with
  | [] => None
  | Upd k values :: rest =>
      if decide (k = c) then
        match values !! key with
        | Some v => Some (Some v)
        | None => buffered_get rest c key
        end
      else buffered_get rest c key
  | Del k values :: rest =>
      if decide (k = c) then
        if match values with None => true | Some ks => bool_decide (key ∈ ks) end then Some None
        else buffered_get rest c key
      else buffered_get rest c key
  end.

Definition tx_get (buffer : list WalOp) (store : StoreData V) (contexts : list Str) (key : Str) : result (option V) :=
  match buffered_get (rev buffer) (join contexts) key with
  | Some r => Ok r
  | None => store_get store contexts key
  end.

(** [applyBuffered] of [values]. *)
Definition buffer_values (c : Str) (m : Values V) (op : WalOp) : Values V :=
  match op with
  | Upd k values => if decide (k = c) then values ∪ m else m
  | Del k (Some ks) => if decide (k = c) then delete_all m ks else m
  | Del k None => if decide (k = c) then ∅ else m
  end.

Definition tx_values (buffer : list WalOp) (store : StoreData V) (contexts : list Str) : result (Values V) :=
  let* m := store_values store contexts in
  Ok (foldl (buffer_values (join contexts)) m buffer).

(** [applyBuffered] of [keys]. *)
Definition buffer_keys (c : Str) (s : gset Str) (op : WalOp) : gset Str :=
  match op with
  | Upd k values => if decide (k = c) then s ∪ dom values else s
  | Del k (Some ks) => if decide (k = c) then s ∖ list_to_set ks else s
  | Del k None => if decide (k = c) then ∅ else s
  end.

Definition tx_keys (buffer : list WalOp) (store : StoreData V) (contexts : list Str) : result (gset Str) :=
  let* s := store_keys store contexts in
  Ok (foldl (buffer_keys (join contexts)) s buffer).

(** [applyBuffered] of [contexts]. *)
Definition buffer_contexts (c : Str) (s : gset Str) (op : WalOp) : gset Str :=
  match op with
  | Upd k _ =>
      match sub_context (prefix_for c) k with
      | Some sub => s ∪ {[sub]}
      | None => s
      end
  | Del k (Some _) => s
  | Del k None =>
      if decide (k = c) then ∅
      else
        match sub_context (prefix_for c) k with
        | Some sub => s ∖ {[sub]}
        | None => s
        end
  end.

Definition tx_contexts (buffer : list WalOp) (store : StoreData V) (contexts : list Str) : gset Str :=
  foldl (buffer_contexts (join contexts)) (sub_contexts store contexts) buffer.

End Store.

Arguments WalOp : clear implicits.
Arguments WalCommit : clear implicits.

(** ** Commit identifiers *)

Record WalCommitId := mkId {
  segment : Z;
  offset : Z;
}.

#[global] Instance WalCommitId_eq_dec : EqDecision WalCommitId.
Proof. solve_decision. Defined.

Definition MAX_SEGMENT_LINES : Z := 0xffff.

Definition compareCommitIds (a b : WalCommitId) : Z :=
  if negb (segment a =? segment b) then segment a - segment b
  else offset a - offset b.

Definition commitIdToNumber (id : WalCommitId) : Z := segment id * 0x10000 + offset id.

(** ** Segment file names *)

Definition hex_digit (d : Z) : Z := if d <? 10 then 48 + d else 87 + d.

(** [segment.toString(16)]; 8 digits suffice for 32 bits. *)
Fixpoint to_hex (fuel : nat) (n : Z) : Str :=
  match fuel with
  | O => []
  | S fuel => (if n <? 16 then [] else to_hex fuel (n / 16)) ++ [hex_digit (n mod 16)]
  end.

Definition padStart (len : nat) (c : Z) (s : Str) : Str := repeat c (len - length s) ++ s.

Definition jsonl : Str := [46; 106; 115; 111; 110; 108].
Definition gz_suffix : Str := [46; 103; 122].

Definition segmentFilename (seg : Z) : Str := padStart 8 48 (to_hex 16 seg) ++ jsonl.
Definition compressedSegmentFilename (seg : Z) : Str := padStart 8 48 (to_hex 16 seg) ++ jsonl ++ gz_suffix.

(** A hexadecimal digit, in either case (the expression has the flag [i]). *)
Definition hex_value (u : Z) : option Z :=
  if (48 <=? u) && (u <=? 57) then Some (u - 48)
  else if (97 <=? u) && (u <=? 102) then Some (u - 87)
  else if (65 <=? u) && (u <=? 70) then Some (u - 55)
  else None.

Fixpoint parse_hex (acc : Z) (s : Str) : option Z :=
  match s with
  | [] => Some acc
  | u :: s => match hex_value u with Some d => parse_hex (16 * acc + d) s | None => None end
  end.

Definition lower (u : Z) : Z := if (65 <=? u) && (u <=? 90) then u + 32 else u.

Definition parseSegmentFilename (name : Str) : option Z :=
  let suffix := map lower (drop 8 name) in
  if decide (length (take 8 name) = 8%nat) then
    if decide (suffix = jsonl \/ suffix = jsonl ++ gz_suffix) then parse_hex 0 (take 8 name) else None
  else None.

Definition isCompressedSegmentFile (name : Str) : bool :=
  bool_decide (is_Some (parseSegmentFilename name)) && bool_decide (map lower (drop 8 name) = jsonl ++ gz_suffix).

(** ** Replaying commits again

    What a sequence of operations does to one context is either a constant
    (after a clear) or lays some values over the old ones.  Both are idempotent,
    so replaying a log over a state that already contains a prefix of it is
    harmless. *)

Section Replay.

Context {V : Type}.
Implicit Types (s : StoreData V) (m : Values V) (x : option (Values V)).

Lemma delete_all_lookup m ks k : delete_all m ks !! k = if decide (k ∈ ks) then None else m !! k.
Proof.
  unfold delete_all. revert m. induction ks as [|k' ks IH]; intros m; cbn [foldl]; [done|].
  rewrite IH. destruct (decide (k = k')) as [->|Hn].
  - rewrite lookup_delete_eq. by repeat case_decide; set_solver.
  - rewrite lookup_delete_ne by done. by repeat case_decide; set_solver.
Qed.

(** The effect of an operation on the context [c]. *)
Definition op_slot (c : Str) (op : WalOp V) x : option (Values V) :=
  match op with
  | Upd k values => if decide (k = c) then Some (values ∪ default ∅ x) else x
  | Del k (Some ks) => if decide (k = c) then (fun m => delete_all m ks) <$> x else x
  | Del k None => if clears k c then None else x
  end.

Lemma apply_op_lookup s op c : apply_op s op !! c = op_slot c op (s !! c).
Proof.
  destruct op as [k values|k [ks|]]; cbn [apply_op op_slot].
  - case_decide as H; [subst; by rewrite lookup_insert_eq|by rewrite lookup_insert_ne].
  - destruct (s !! k) as [m|] eqn:Hk; case_decide as H; subst.
    + by rewrite lookup_insert_eq, Hk.
    + by rewrite lookup_insert_ne.
    + by rewrite Hk.
    + done.
  - unfold clears. destruct (bool_decide_reflect (k = [])); [by rewrite lookup_empty|]. cbn [orb].
    rewrite map_lookup_filter.
    destruct (bool_decide_reflect (c = k)); [|destruct (bool_decide_reflect (k ++ [dot] `prefix_of` c))]; cbn [orb];
      destruct (s !! c) as [m|]; try done; cbn; try (by rewrite option_guard_False; naive_solver).
    by rewrite option_guard_True by naive_solver.
Qed.

Definition slot (c : Str) (l : list (WalOp V)) x : option (Values V) := foldl (fun x op => op_slot c op x) x l.

Lemma apply_ops_lookup s l c : apply_ops s l !! c = slot c l (s !! c).
Proof.
  unfold apply_ops, slot. revert s. induction l as [|op l IH]; intros s; cbn [foldl]; [done|].
  by rewrite IH, apply_op_lookup.
Qed.

(** Values [added] laid over what is left of [m] without [deleted]. *)
Definition overlay (added : Values V) (deleted : gset Str) m : Values V :=
  added ∪ filter (fun '(k, _) => k ∉ deleted) m.

Lemma overlay_lookup added deleted m k :
  overlay added deleted m !! k =
  match added !! k with Some v => Some v | None => if decide (k ∈ deleted) then None else m !! k end.
Proof.
  unfold overlay. rewrite lookup_union, map_lookup_filter.
  destruct (m !! k) as [w|]; cbn.
  - destruct (decide (k ∈ deleted)); [rewrite option_guard_False by naive_solver|rewrite option_guard_True by done];
      by destruct (added !! k).
  - destruct (added !! k); [done|]. by case_decide.
Qed.

Inductive effect :=
| Constant (o : option (Values V))
| Forced (added : Values V) (deleted : gset Str)
| Kept (deleted : gset Str).

Definition run_effect (e : effect) x : option (Values V) :=
  match e with
  | Constant o => o
  | Forced added deleted => Some (overlay added deleted (default ∅ x))
  | Kept deleted => overlay ∅ deleted <$> x
  end.

Lemma run_effect_idempotent e x : run_effect e (run_effect e x) = run_effect e x.
Proof.
  assert (H : forall a d m, overlay a d (overlay a d m) = overlay a d m).
  { intros a d m. apply map_eq. intros k. rewrite !overlay_lookup. by destruct (a !! k); [|case_decide]. }
  destruct e as [o|a d|d]; cbn; [done|by rewrite H|]. destruct x; cbn; [by rewrite H|done].
Qed.

Lemma effect_exists c l : exists e, forall x, slot c l x = run_effect e x.
Proof.
  unfold slot. induction l as [|op l IH] using rev_ind.
  { exists (Kept ∅). intros x. cbn. destruct x as [m|]; [|done]. cbn. f_equal.
    apply map_eq. intros k. rewrite overlay_lookup, lookup_empty. by rewrite decide_False by set_solver. }
  destruct IH as [e IH]. setoid_rewrite foldl_app. cbn [foldl]. setoid_rewrite IH.
  destruct op as [k values|k [ks|]]; cbn [op_slot].
  - destruct (decide (k = c)); [|by exists e]. destruct e as [o|a d|d].
    + exists (Constant (Some (values ∪ default ∅ o))). done.
    + exists (Forced (values ∪ a) d). intros x. cbn. f_equal. apply map_eq. intros k'.
      rewrite lookup_union, !overlay_lookup, lookup_union.
      destruct (values !! k'), (a !! k'); cbn; try done; case_decide; try done; by destruct (default ∅ x !! k').
    + exists (Forced values d). intros x. cbn. f_equal. apply map_eq. intros k'.
      rewrite lookup_union, overlay_lookup. destruct x as [m|]; cbn; rewrite ?overlay_lookup, ?lookup_empty;
        destruct (values !! k'); cbn; try done; case_decide; try done; by destruct (m !! k').
  - destruct (decide (k = c)); [|by exists e].
    assert (H : forall a d m, delete_all (overlay a d m) ks = overlay (delete_all a ks) (d ∪ list_to_set ks) m).
    { intros a d m. apply map_eq. intros k'. rewrite delete_all_lookup, !overlay_lookup, delete_all_lookup.
      destruct (decide (k' ∈ ks)); [rewrite decide_True by set_solver; done|].
      destruct (a !! k'); [done|]. by repeat case_decide; set_solver. }
    destruct e as [o|a d|d].
    + exists (Constant ((fun m => delete_all m ks) <$> o)). done.
    + exists (Forced (delete_all a ks) (d ∪ list_to_set ks)). intros x. cbn. by rewrite H.
    + exists (Kept (d ∪ list_to_set ks)). intros x. destruct x as [m|]; cbn; [|done]. rewrite H. do 2 f_equal.
      apply map_eq. intros k'. rewrite delete_all_lookup, lookup_empty. by case_decide.
  - destruct (clears k c); [by exists (Constant None)|by exists e].
Qed.

Lemma apply_ops_idempotent s l : apply_ops (apply_ops s l) l = apply_ops s l.
Proof.
  apply map_eq. intros c. rewrite !apply_ops_lookup. destruct (effect_exists c l) as [e He].
  rewrite !He. apply run_effect_idempotent.
Qed.

Lemma apply_ops_app s l1 l2 : apply_ops s (l1 ++ l2) = apply_ops (apply_ops s l1) l2.
Proof. apply foldl_app. Qed.

(** All operations of a sequence of commits. *)
Definition all_ops (commits : list (WalCommit V)) : list (WalOp V) := mjoin (ops <$> commits).

Lemma apply_all_ops s commits : apply_all s commits = apply_ops s (all_ops commits).
Proof.
  unfold apply_all, all_ops. revert s. induction commits as [|c cs IH]; intros s; [done|].
  rewrite fmap_cons. cbn [mjoin list_join foldl]. by rewrite IH, apply_ops_app.
Qed.

Lemma apply_all_app s l1 l2 : apply_all s (l1 ++ l2) = apply_all (apply_all s l1) l2.
Proof. apply foldl_app. Qed.

Lemma replay_prefix s done rest : apply_all (apply_all s done) (done ++ rest) = apply_all s (done ++ rest).
Proof. rewrite !apply_all_app. f_equal. rewrite !apply_all_ops. apply apply_ops_idempotent. Qed.

End Replay.

(** ** Reads inside a transaction *)

Section Reads.

Context {V : Type}.
Implicit Types (store : StoreData V) (buffer : list (WalOp V)).

(** No buffered operation clears a context above [c]. *)
Definition clears_only_itself (c : Str) (op : WalOp V) : Prop :=
  match op with Del k None => clears k c = true -> k = c | _ => True end.

Lemma buffer_values_slot c x op :
  clears_only_itself c op -> default ∅ (op_slot c op x) = buffer_values c (default ∅ x) op.
Proof.
  destruct op as [k values|k [ks|]]; cbn; intros H.
  - by case_decide.
  - case_decide; [|done]. destruct x as [m|]; cbn; [done|]. apply map_eq. intros k'.
    rewrite delete_all_lookup, lookup_empty. by case_decide.
  - destruct (clears k c) eqn:E.
    + rewrite decide_True by auto. done.
    + case_decide as Hk; [|done]. subst k. unfold clears in E. rewrite (bool_decide_eq_true_2 (c = c)) in E by done.
      by rewrite orb_true_r in E.
Qed.

Lemma buffer_values_slots c x buffer :
  Forall (clears_only_itself c) buffer ->
  default ∅ (slot c buffer x) = foldl (buffer_values c) (default ∅ x) buffer.
Proof.
  unfold slot. intros H. revert x. induction H as [|op l Hop _ IH]; intros x; cbn [foldl]; [done|].
  by rewrite IH, buffer_values_slot.
Qed.

Lemma buffered_get_values c key m buffer :
  match buffered_get (rev buffer) c key with
  | Some r => r
  | None => m !! key
  end = foldl (buffer_values c) m buffer !! key.
Proof.
  induction buffer as [|op buffer IH] using rev_ind; [done|].
  rewrite rev_unit, foldl_app. cbn [foldl buffered_get].
  destruct op as [k values|k values]; cbn [buffer_values].
  - case_decide; [|done]. rewrite lookup_union. destruct (values !! key) as [v|]; cbn.
    + by destruct (foldl _ _ _ !! key).
    + rewrite IH. by destruct (foldl _ _ _ !! key).
  - destruct values as [ks|]; (case_decide; [|done]).
    + rewrite delete_all_lookup. case_bool_decide; case_decide; done.
    + by rewrite lookup_empty.
Qed.

Lemma buffer_keys_values c m buffer :
  foldl (buffer_keys c) (dom m) buffer = dom (foldl (buffer_values c) m buffer).
Proof.
  revert m. induction buffer as [|op buffer IH]; intros m; cbn [foldl]; [done|]. rewrite <- IH. f_equal.
  destruct op as [k values|k [ks|]]; cbn; (case_decide; [|done]).
  - rewrite dom_union_L. set_solver.
  - apply set_eq. intros k'. rewrite elem_of_difference, elem_of_list_to_set, !elem_of_dom, delete_all_lookup.
    case_decide; [split; [naive_solver|by intros [? ?]]|naive_solver].
  - by rewrite dom_empty_L.
Qed.

(** Unless the transaction has cleared a context above the one that is read,
    what it reads is what can be read after its commit: values, keys and single
    entries. *)
Theorem tx_reads_own_writes buffer store contexts key commit_ts c :
  contextKey contexts = Ok c -> Forall (clears_only_itself c) buffer ->
  let committed := applyCommit store (mkCommit commit_ts buffer) in
  tx_get buffer store contexts key = store_get committed contexts key /\
  tx_values buffer store contexts = store_values committed contexts /\
  tx_keys buffer store contexts = store_keys committed contexts.
Proof.
  intros Hc Hb. cbn zeta. unfold applyCommit. cbn [ops].
  assert (Hj : join contexts = c) by (unfold contextKey in Hc; by destruct (existsb _ contexts); simplify_eq).
  unfold tx_get, store_get, tx_values, tx_keys, store_keys, store_values. rewrite Hc, Hj. cbn [rbind].
  assert (Hv : default ∅ (apply_ops store buffer !! c) = foldl (buffer_values c) (default ∅ (store !! c)) buffer).
  { by rewrite apply_ops_lookup, buffer_values_slots. }
  assert (Hg : forall s : StoreData V, (s !! c ≫= (.!! key)) = default ∅ (s !! c) !! key).
  { intros s. destruct (s !! c); [done|]. cbn. by rewrite lookup_empty. }
  split_and!.
  - rewrite !Hg, Hv, <- buffered_get_values. by destruct (buffered_get (rev buffer) c key).
  - by rewrite Hv.
  - by rewrite Hv, buffer_keys_values.
Qed.

End Reads.

Lemma tx_reads_own_writes_witness :
  let buffer := [Upd [97] {[ [1] := 5; [2] := 6 ]}; Del [97] (Some [[1]])] : list (WalOp Z) in
  tx_values buffer {[ [97] := {[ [1] := 4; [3] := 7 ]} ]} [[97]] = Ok {[ [2] := 6; [3] := 7 ]}.
Proof.
  cbn zeta.
  destruct (tx_reads_own_writes (V := Z) [Upd [97] {[ [1] := 5; [2] := 6 ]}; Del [97] (Some [[1]])]
    {[ [97] := {[ [1] := 4; [3] := 7 ]} ]} [[97]] [1] 0 [97]) as (_ & -> & _).
  - reflexivity.
  - repeat constructor.
  - vm_compute. reflexivity.
Defined.

(** A cleared parent context: the value can be read until the commit. *)
Example cleared_parent_still_read :
  let store : StoreData Z := {[ [97; 46; 98] := {[ [1] := 5 ]} ]} in
  tx_get [Del [97] None] store [[97]; [98]] [1] = Ok (Some 5) /\
  store_get (applyCommit store (mkCommit 0 [Del [97] None])) [[97]; [98]] [1] = Ok None.
Proof. split; vm_compute; reflexivity. Qed.

(** A cleared sub-context: its parent is no longer listed, though another of its
    sub-contexts remains. *)
Example cleared_child_hides_parent :
  let store : StoreData Z := {[ [97; 46; 98] := {[ [1] := 5 ]}; [97; 46; 99] := {[ [1] := 6 ]} ]} in
  tx_contexts [Del [97; 46; 98] None] store [] = ∅ /\
  sub_contexts (applyCommit store (mkCommit 0 [Del [97; 46; 98] None])) [] = {[ [97] ]}.
Proof. split; vm_compute; reflexivity. Qed.

(** ** Identifiers and file names *)

(** Commit identifiers are ordered as the 48-bit numbers they stand for, and
    equal identifiers have equal numbers. *)
Theorem commit_id_order a b :
  0 <= offset a <= MAX_SEGMENT_LINES -> 0 <= offset b <= MAX_SEGMENT_LINES ->
  (compareCommitIds a b < 0 <-> commitIdToNumber a < commitIdToNumber b) /\
  (compareCommitIds a b = 0 <-> a = b) /\
  (commitIdToNumber a = commitIdToNumber b <-> a = b).
Proof.
  unfold compareCommitIds, commitIdToNumber, MAX_SEGMENT_LINES. destruct a as [sa oa], b as [sb ob]. cbn.
  intros Ha Hb. destruct (Z.eqb_spec sa sb); cbn [negb].
  - subst. split_and!; split; try lia; try (intros; f_equal; lia); intros [= ->]; lia.
  - split_and!; split; try lia; try (intros [= ? ?]; lia); intros; exfalso; lia.
Qed.
