(* ===== verification/WalLog.v ===== *)
(** * Write-ahead log storage: the log on disk

    Models the disk side of src/packages/general/src/storage/wal:
    WalReader.ts, WalWriter.ts, WalSnapshot.ts ([save] and [load]),
    WalCleaner.ts and the parts of WalStorageDriver.ts that replay, reconstruct
    and compress.

    The disk keeps, for each segment number, the text of its plain and of its
    compressed file, and the snapshot in its two formats with their
    modification times.  (Segment numbers stand for file names: WalStore.v
    has the correspondence.)  Compression and decompression preserve the text,
    and a rename is atomic.  Text is a list of UTF-16 code units; a line of the
    log is the text of a commit and a newline, and what the JSON format of
    StringifyTools.ts promises about it is the class [CommitFormat]. *)

From stdpp Require Import gmap sets list sorting.
From S2P Require Import Prelude Text WalStore.

(** ** Lines *)

Definition newline : Z := 10.

(** [text.split("\n")] *)
Fixpoint split_lines (s : Str) : list Str :=
  match s with
  | [] => [[]]
  | u :: s =>
      if u =? newline then [] :: split_lines s
      else match split_lines s with l :: ls => (u :: l) :: ls | [] => [[u]] end
  end.

(** The characters [trim] removes. *)
Definition is_space (u : Z) : bool :=
  ((9 <=? u) && (u <=? 13)) || (u =? 32) || (u =? 160) || (u =? 0xFEFF) || (u =? 0x1680) ||
  ((0x2000 <=? u) && (u <=? 0x200A)) || (u =? 0x2028) || (u =? 0x2029) || (u =? 0x202F) ||
  (u =? 0x205F) || (u =? 0x3000).

(** [line.trim() === ""] *)
Definition blank (line : Str) : bool := forallb is_space line.

(** [new TextEncoder().encode(s).length] *)
Definition byte_length (s : Str) : Z := Z.of_nat (length (Utf8.encode s)).

(** What the log relies on of [serializeCommit] and [deserializeCommit], a JSON
    object on one line: it is read back; it holds no newline and starts
    with a brace; cut off anywhere it is no commit; and neither is a text that
    has another commit glued to a non-empty beginning of it. *)
Class CommitFormat (V : Type) := {
  serializeCommit : WalCommit V -> Str;
  deserializeCommit : Str -> option (WalCommit V);
  format_roundtrip c : deserializeCommit (serializeCommit c) = Some c;
  format_one_line c : newline ∉ serializeCommit c;
  format_not_blank c : blank (serializeCommit c) = false;
  format_cut c p : p `prefix_of` serializeCommit c -> p <> serializeCommit c -> deserializeCommit p = None;
  format_glued c d p : p `prefix_of` serializeCommit c -> p <> [] -> deserializeCommit (p ++ serializeCommit d) = None;
}.

Section Log.

Context {V : Type} `{CommitFormat V}.

(** ** The disk *)

Record SegmentFile := mkFile {
  plain : option Str;
  gz : option Str;
}.

Record WalSnapshot := mkSnapshot {
  commitId : WalCommitId;
  snap_ts : Z;
  data : StoreData V;
}.

Record Disk := mkDisk {
  segs : gmap Z SegmentFile;
  snap_gz : option (Z * WalSnapshot);
  snap_json : option (Z * WalSnapshot);
}.

Definition file_of (d : Disk) (n : Z) : SegmentFile := default (mkFile None None) (segs d !! n).

(** A segment exists while one of its files does. *)
Definition put_file (d : Disk) (n : Z) (f : SegmentFile) : Disk :=
  mkDisk
    match plain f, gz f with
    | None, None => delete n (segs d)
    | _, _ => <[n := f]> (segs d)
    end (snap_gz d) (snap_json d).

(** ** WalReader *)

Definition segments (d : Disk) : list Z := merge_sort Z.le (elements (dom (segs d))).

Definition readSegmentLines (d : Disk) (n : Z) : list Str :=
  match gz (file_of d n) with
  | Some text => split_lines text
  | None => split_lines (default [] (plain (file_of d n)))
  end.

(** The loop over the lines of a segment, from line [off]. *)
Fixpoint read_lines (seg : Z) (off : Z) (lines : list Str) (after : option WalCommitId)
    : list (WalCommitId * WalCommit V) :=
  match lines with
  | [] => []
  | line :: lines =>
      let rest := read_lines seg (off + 1) lines after in
      if blank line then rest
      else
        let id := mkId seg off in
        if match after with Some a => compareCommitIds id a <=? 0 | None => false end then rest
        else
          match deserializeCommit line with
          | Some commit => (id, commit) :: rest
          | None => rest
          end
  end.

Definition read (d : Disk) (after : option WalCommitId) : list (WalCommitId * WalCommit V) :=
  mjoin ((fun seg =>
    if match after with Some a => seg <? segment a | None => false end then []
    else read_lines seg 0 (readSegmentLines d seg) after) <$> segments d).

(** ** WalSnapshot *)

(** [load]: the newer of the two formats, the compressed one on a tie. *)
Definition load (d : Disk) : option WalSnapshot :=
  match snap_gz d, snap_json d with
  | Some (gzMtime, g), Some (jsonMtime, j) => Some (if jsonMtime <=? gzMtime then g else j)
  | Some (_, g), None => Some g
  | None, Some (_, j) => Some j
  | None, None => None
  end.

(** [save] renames the finished file, and then removes the other format. *)
Definition save_rename (d : Disk) (compress : bool) (mtime : Z) (s : WalSnapshot) : Disk :=
  if compress then mkDisk (segs d) (Some (mtime, s)) (snap_json d)
  else mkDisk (segs d) (snap_gz d) (Some (mtime, s)).

Definition save_cleanup (d : Disk) (compress : bool) : Disk :=
  if compress then mkDisk (segs d) (snap_gz d) None else mkDisk (segs d) None (snap_json d).

(** ** WalStorageDriver: replay *)

Record Loaded := mkLoaded {
  store : StoreData V;
  lastCommitId : option WalCommitId;
  lastSnapshotCommitId : option WalCommitId;
}.

(** [#doLoadCache] without commits that arrive meanwhile. *)
Definition doLoadCache (d : Disk) : Loaded :=
  let snap := load d in
  let after := commitId <$> snap in
  let replayed := read d after in
  mkLoaded (foldl (fun st p => applyCommit st p.2) (default ∅ (data <$> snap)) replayed)
    (match last replayed with Some p => Some p.1 | None => after end) after.

(** The loop of [#reconstruct], which stops at the first commit [shouldStop]
    accepts. *)
Fixpoint replay_until (shouldStop : WalCommitId -> Z -> bool) (l : list (WalCommitId * WalCommit V))
    (st : StoreData V) (lastId : option WalCommitId) (lastTs : Z) : StoreData V * option WalCommitId * Z :=
  match l with
  | [] => (st, lastId, lastTs)
  | (id, commit) :: l =>
      if shouldStop id (ts commit) then (st, lastId, lastTs)
      else replay_until shouldStop l (applyCommit st commit) (Some id)
             (if ts commit =? 0 then lastTs else ts commit)
  end.

Definition reconstruct (d : Disk) (shouldStop : WalCommitId -> Z -> bool) (validateBase : Z -> result unit)
    : result WalSnapshot :=
  let snap := load d in
  let* _ := validateBase (default 0 (snap_ts <$> snap)) in
  let after := commitId <$> snap in
  let '(st, lastId, lastTs) :=
    replay_until shouldStop (read d after) (default ∅ (data <$> snap)) after (default 0 (snap_ts <$> snap)) in
  match lastId with
  | Some id => Ok (mkSnapshot id lastTs st)
  | None => Throw StorageError
  end.

Definition snapshotAtCommit (d : Disk) (commitId : option WalCommitId) : result WalSnapshot :=
  reconstruct d
    (fun id _ => match commitId with Some c => 0 <? compareCommitIds id c | None => false end)
    (fun _ => Ok tt).

Definition snapshotAtTime (d : Disk) (now : Z) (asOf : option Z) : result WalSnapshot :=
  match asOf with
  | None => reconstruct d (fun _ _ => false) (fun _ => Ok tt)
  | Some t =>
      let* _ := throw_if (now <? t) StorageError in
      reconstruct d (fun _ commitTs => t <? commitTs)
        (fun baseTs => throw_if ((0 <? baseTs) && (t <? baseTs)) StorageError)
  end.

(** ** WalWriter *)

Record WalWriter := mkWriter {
  handle : bool;
  currentSegment : Z;
  currentOffset : Z;
  currentSize : Z;
}.

Definition new_writer : WalWriter := mkWriter false 0 0 0.

Context (maxSegmentSize : Z).

(** [file.open(purpose, "a")] creates a missing file. *)
Definition open_append (d : Disk) (n : Z) : Disk :=
  put_file d n (mkFile (Some (default [] (plain (file_of d n)))) (gz (file_of d n))).

Definition append (d : Disk) (n : Z) (text : Str) : Disk :=
  put_file d n (mkFile (Some (default [] (plain (file_of d n)) ++ text)) (gz (file_of d n))).

Definition start_segment (d : Disk) (n : Z) : Disk * WalWriter := (open_append d n, mkWriter true n 0 0).

Definition maxSegment (d : Disk) : Z := foldl Z.max 0 (elements (dom (segs d))).

Definition lineCount (text : Str) : Z := Z.of_nat (length (filter (fun l => blank l = false) (split_lines text))).

Definition byteSize (text : Str) : Z :=
  foldl (fun n l => n + byte_length (l ++ [newline])) 0 (split_lines text).

Definition openSegment (d : Disk) : Disk * WalWriter :=
  let n := maxSegment d in
  if 0 <? n then
    if bool_decide (is_Some (gz (file_of d n))) then start_segment d (n + 1)
    else
      let text := default [] (plain (file_of d n)) in
      if (byteSize text <? maxSegmentSize) && (lineCount text <? MAX_SEGMENT_LINES) then
        (open_append d n, mkWriter true n (lineCount text) (byteSize text))
      else start_segment d (n + 1)
  else start_segment d 1.

Definition rotate (d : Disk) (w : WalWriter) : Disk * WalWriter := start_segment d (currentSegment w + 1).

(** [write] up to the append: the segment is open and has room. *)
Definition prepare (d : Disk) (w : WalWriter) : Disk * WalWriter :=
  let '(d, w) := if handle w then (d, w) else openSegment d in
  if (0 <? currentSize w) && ((maxSegmentSize <=? currentSize w) || (MAX_SEGMENT_LINES <=? currentOffset w))
  then rotate d w else (d, w).

Definition commit_line (c : WalCommit V) : Str := serializeCommit c ++ [newline].

Definition write (d : Disk) (w : WalWriter) (c : WalCommit V) : Disk * WalWriter * WalCommitId :=
  let '(d, w) := prepare d w in
  (append d (currentSegment w) (commit_line c),
   mkWriter true (currentSegment w) (currentOffset w + 1) (currentSize w + byte_length (commit_line c)),
   mkId (currentSegment w) (currentOffset w)).

(** The process dies while it writes: only the first [n] characters of the line
    reach the disk. *)
Definition torn_write (d : Disk) (w : WalWriter) (c : WalCommit V) (n : nat) : Disk :=
  let '(d, w) := prepare d w in
  append d (currentSegment w) (take n (commit_line c)).

(** ** Compression and cleaning *)

(** One segment of [#compressRotatedSegments]: the compressed file appears by a
    rename, then the original is deleted. *)
Definition compress_segment (d : Disk) (n : Z) : Disk :=
  match gz (file_of d n) with
  | Some _ => d
  | None => put_file d n (mkFile (plain (file_of d n)) (plain (file_of d n)))
  end.

Definition delete_plain (d : Disk) (n : Z) : Disk := put_file d n (mkFile None (gz (file_of d n))).

Definition delete_gz (d : Disk) (n : Z) : Disk := put_file d n (mkFile (plain (file_of d n)) None).

(** The segments [WalCleaner.run] deletes, oldest first. *)
Definition to_delete (d : Disk) (lastSnapshot : WalCommitId) : list Z :=
  filter (fun n => n < segment lastSnapshot) (segments d).

(** [WalCleaner.run] without the head snapshot: both files of each of them. *)
Definition clean (d : Disk) (lastSnapshot : WalCommitId) : Disk :=
  foldl (fun d n => delete_gz (delete_plain d n) n) d (to_delete d lastSnapshot).

(** [#buildHeadSnapshot]: the commits of the segments about to be deleted, over
    the previous head snapshot. *)
Fixpoint replay_below (bound : Z) (l : list (WalCommitId * WalCommit V)) (st : StoreData V)
    (lastId : option WalCommitId) (lastTs : Z) : StoreData V * option WalCommitId * Z :=
  match l with
  | [] => (st, lastId, lastTs)
  | (id, commit) :: l =>
      if bound <=? segment id then (st, lastId, lastTs)
      else replay_below bound l (applyCommit st commit) (Some id) (if ts commit =? 0 then lastTs else ts commit)
  end.

Definition buildHeadSnapshot (d : Disk) (existing : option WalSnapshot) (lastSnapshot : WalCommitId)
    : option WalSnapshot :=
  let '(st, lastId, lastTs) :=
    replay_below (segment lastSnapshot) (read d (commitId <$> existing)) (default ∅ (data <$> existing))
      (commitId <$> existing) (default 0 (snap_ts <$> existing)) in
  (fun id => mkSnapshot id lastTs st) <$> lastId.

End Log.

Arguments WalSnapshot : clear implicits.
Arguments Disk : clear implicits.
