(* ===== verification/WalRecovery.v ===== *)
(** * Write-ahead log storage: recovery

    The log of WalLog.v as a transition system: commits, rotation, snapshots,
    compression, cleaning and crashes.  What a restart recovers is exactly what
    was committed; and what happens when a crash leaves half a line behind. *)

From stdpp Require Import gmap sets list sorting.
From S2P Require Import Prelude WalStore WalLog.

Section Recovery.

Context {V : Type} `{CommitFormat V}.
Implicit Types (d : Disk V) (c : WalCommit V) (cs : list (WalCommit V)).

(** ** The history *)

(** The commits of each segment, in the order of the segments. *)
Abbreviation History := (list (Z * list (WalCommit V))).
Implicit Types (hist : History).

Definition seg_text cs : Str := mjoin (commit_line <$> cs).

Definition entries_from (n off : Z) cs : list (WalCommitId * WalCommit V) :=
  imap (fun i c => (mkId n (off + Z.of_nat i), c)) cs.

Definition flat hist : list (WalCommitId * WalCommit V) :=
  mjoin ((fun p => entries_from p.1 0 p.2) <$> hist).

Definition commits hist : list (WalCommit V) := (flat hist).*2.

Lemma entries_cons n off c cs :
  entries_from n off (c :: cs) = (mkId n off, c) :: entries_from n (off + 1) cs.
Proof.
  unfold entries_from. rewrite imap_cons. f_equal; [by rewrite Z.add_0_r|].
  apply imap_ext. intros i x _. cbn. do 2 f_equal. lia.
Qed.

Lemma entries_snoc n off cs c :
  entries_from n off (cs ++ [c]) = entries_from n off cs ++ [(mkId n (off + Z.of_nat (length cs)), c)].
Proof. unfold entries_from. rewrite imap_app. cbn. by rewrite Nat.add_0_r. Qed.

Lemma flat_app h1 h2 : flat (h1 ++ h2) = flat h1 ++ flat h2.
Proof. unfold flat. by rewrite fmap_app, join_app. Qed.

Lemma flat_one n cs : flat [(n, cs)] = entries_from n 0 cs.
Proof. unfold flat. cbn. by rewrite app_nil_r. Qed.

Lemma entries_segment n off cs p : p ∈ entries_from n off cs -> segment p.1 = n /\ off <= offset p.1.
Proof.
  intros (i & Hi)%list_elem_of_lookup. unfold entries_from in Hi. rewrite list_lookup_imap in Hi.
  destruct (cs !! i); [|done]. cbn in Hi. injection Hi as <-. cbn. lia.
Qed.

(** ** Lines of a segment *)

Lemma split_lines_line l s : newline ∉ l -> split_lines (l ++ newline :: s) = l :: split_lines s.
Proof.
  induction l as [|u l IH]; intros Hn; cbn; [done|].
  destruct (Z.eqb_spec u newline); [set_solver|]. by rewrite IH by set_solver.
Qed.

Lemma split_lines_last l : newline ∉ l -> split_lines l = [l].
Proof.
  induction l as [|u l IH]; intros Hn; cbn; [done|].
  destruct (Z.eqb_spec u newline); [set_solver|]. by rewrite IH by set_solver.
Qed.

Lemma split_seg_text cs t : split_lines (seg_text cs ++ t) = (serializeCommit <$> cs) ++ split_lines t.
Proof.
  unfold seg_text. induction cs as [|c cs IH]; cbn; [done|]. unfold commit_line at 1.
  rewrite <- !app_assoc. cbn [app]. rewrite split_lines_line by apply format_one_line. by f_equal.
Qed.

Lemma lineCount_seg_text cs : lineCount (seg_text cs) = Z.of_nat (length cs).
Proof.
  unfold lineCount. rewrite <- (app_nil_r (seg_text cs)), split_seg_text. cbn [split_lines].
  rewrite filter_app, length_app. cbn. f_equal. rewrite Nat.add_0_r.
  induction cs as [|c cs IH]; [done|]. rewrite fmap_cons, filter_cons_True by apply format_not_blank. cbn. by f_equal.
Qed.

(** The commits the reader is asked for. *)
Definition newer (after : option WalCommitId) (p : WalCommitId * WalCommit V) : Prop :=
  match after with Some a => 0 < compareCommitIds p.1 a | None => True end.

#[local] Instance newer_dec after p : Decision (newer after p).
Proof. unfold newer. destruct after; apply _. Defined.

Lemma read_lines_entries n off cs rest after :
  read_lines n off ((serializeCommit <$> cs) ++ rest) after =
  filter (newer after) (entries_from n off cs) ++ read_lines n (off + Z.of_nat (length cs)) rest after.
Proof.
  revert off. induction cs as [|c cs IH]; intros off.
  { cbn. by rewrite Z.add_0_r. }
  rewrite entries_cons, fmap_cons. cbn [app read_lines length].
  rewrite format_not_blank, format_roundtrip, filter_cons.
  replace (off + Z.of_nat (S (length cs))) with (off + 1 + Z.of_nat (length cs)) by lia. rewrite IH.
  destruct after as [a|]; [|by rewrite decide_True].
  destruct (Z.leb_spec (compareCommitIds (mkId n off) a) 0).
  - rewrite decide_False; [done|]. cbn. lia.
  - rewrite decide_True; [done|]. cbn. lia.
Qed.

(** ** Order of the identifiers *)

Definition id_lt (p q : WalCommitId * WalCommit V) : Prop := compareCommitIds p.1 q.1 < 0.

Lemma compare_lt a b : compareCommitIds a b < 0 <-> segment a < segment b \/ segment a = segment b /\ offset a < offset b.
Proof. unfold compareCommitIds. destruct (Z.eqb_spec (segment a) (segment b)); cbn; lia. Qed.

Lemma compare_antisym a b : compareCommitIds a b = - compareCommitIds b a.
Proof.
  unfold compareCommitIds.
  destruct (Z.eqb_spec (segment a) (segment b)), (Z.eqb_spec (segment b) (segment a)); cbn; lia.
Qed.

Lemma entries_sorted n off cs : StronglySorted id_lt (entries_from n off cs).
Proof.
  revert off. induction cs as [|c cs IH]; intros off; [constructor|]. rewrite entries_cons. constructor; [apply IH|].
  apply Forall_forall. intros p [Hs Ho]%entries_segment. apply compare_lt. cbn. lia.
Qed.

Definition ascending hist : Prop := StronglySorted Z.lt hist.*1.

Lemma flat_elem hist p : p ∈ flat hist -> exists n cs, (n, cs) ∈ hist /\ p ∈ entries_from n 0 cs.
Proof.
  unfold flat. intros (l & Hp & Hl)%list_elem_of_join. apply list_elem_of_fmap in Hl as ([n cs] & -> & Hin). eauto.
Qed.

Lemma flat_sorted hist : ascending hist -> StronglySorted id_lt (flat hist).
Proof.
  unfold ascending. induction hist as [|[n cs] hist IH]; intros Hs; [constructor|].
  inversion Hs as [|? ? Hs' Hall]; subst. change ((n, cs) :: hist) with ([(n, cs)] ++ hist).
  rewrite flat_app, flat_one. apply StronglySorted_app. split_and!; [|apply entries_sorted|by apply IH].
  intros p q [Hp _]%entries_segment (n' & cs' & Hin & [Hq _]%entries_segment)%flat_elem.
  apply compare_lt. left. rewrite Hp, Hq. rewrite Forall_forall in Hall. apply Hall.
  apply list_elem_of_fmap. by exists (n', cs').
Qed.

(** What is newer than the [k]-th commit are the commits after it. *)
Lemma newer_drop (l : list (WalCommitId * WalCommit V)) k p :
  StronglySorted id_lt l -> l !! k = Some p -> filter (newer (Some p.1)) l = drop (S k) l.
Proof.
  intros Hs. revert k. induction Hs as [|q l Hs IH Hall]; intros k Hk; [done|].
  rewrite filter_cons. destruct k as [|k]; cbn in Hk.
  - injection Hk as ->. rewrite decide_False by (unfold newer, compareCommitIds; rewrite Z.eqb_refl; cbn; lia).
    cbn [drop]. rewrite drop_0. clear IH Hs. induction Hall as [|r l Hr Hall IH]; [done|].
    rewrite filter_cons, IH. rewrite decide_True; [done|]. unfold newer. unfold id_lt in Hr.
    rewrite compare_antisym. lia.
  - rewrite decide_False; [by rewrite (IH k Hk)|].
    rewrite Forall_forall in Hall. pose proof (Hall p (list_elem_of_lookup_2 _ _ _ Hk)) as Hlt.
    unfold newer. unfold id_lt in Hlt. lia.
Qed.

Lemma newer_all (l : list (WalCommitId * WalCommit V)) : filter (newer None) l = l.
Proof. induction l as [|p l IH]; [done|]. by rewrite filter_cons, decide_True, IH. Qed.

(** ** The state of the disk *)

(** The snapshots [load] can find. *)
Definition stored d (s : WalSnapshot V) : Prop :=
  (exists t, snap_gz d = Some (t, s)) \/ (exists t, snap_json d = Some (t, s)).

(** A snapshot holds the state after some commit that is not before the one it
    names. *)
Definition valid hist (s : WalSnapshot V) : Prop :=
  exists k j c, flat hist !! k = Some (commitId s, c) /\ (k < j <= length (flat hist))%nat /\
    data s = apply_all ∅ (take j (commits hist)).

Definition holds_text (o : option Str) (text : Str) : Prop := o = None \/ o = Some text.

Record wal_inv d hist : Prop := {
  inv_ascending : ascending hist;
  inv_positive : Forall (fun p => 0 < p.1) hist;
  inv_files : forall n f, segs d !! n = Some f -> exists cs, (n, cs) ∈ hist /\
    holds_text (plain f) (seg_text cs) /\ holds_text (gz f) (seg_text cs) /\ (plain f <> None \/ gz f <> None);
  inv_missing : forall n cs, (n, cs) ∈ hist -> segs d !! n = None ->
    exists s, load d = Some s /\ n < segment (commitId s);
  inv_snapshots : forall s, stored d s -> valid hist s;
}.

Lemma hist_functional hist n cs cs' : ascending hist -> (n, cs) ∈ hist -> (n, cs') ∈ hist -> cs = cs'.
Proof.
  unfold ascending. induction hist as [|[m ds] hist IH]; intros Hs H1 H2; [set_solver|].
  inversion Hs as [|? ? Hs' Hall]; subst. rewrite Forall_forall in Hall.
  assert (Hno : forall xs, (m, xs) ∈ hist -> False).
  { intros xs Hx. assert (m < m); [|lia]. apply Hall, list_elem_of_fmap. by exists (m, xs). }
  apply elem_of_cons in H1 as [[= -> ->]|H1]; apply elem_of_cons in H2 as [[= ]|H2]; subst; eauto; exfalso; eauto.
Qed.

Lemma file_of_Some d n f : segs d !! n = Some f -> file_of d n = f.
Proof. unfold file_of. by intros ->. Qed.

Lemma load_stored d s : load d = Some s -> stored d s.
Proof.
  unfold load, stored. destruct (snap_gz d) as [[tg g]|], (snap_json d) as [[tj j]|]; try done.
  - destruct (tj <=? tg); intros [= <-]; eauto.
  - intros [= <-]; eauto.
  - intros [= <-]; eauto.
Qed.

Lemma read_segment d hist n f cs after :
  wal_inv d hist -> segs d !! n = Some f -> (n, cs) ∈ hist ->
  read_lines n 0 (readSegmentLines d n) after = filter (newer after) (entries_from n 0 cs).
Proof.
  intros HI Hf Hin. destruct (inv_files _ _ HI n f Hf) as (cs' & Hin' & Hp & Hg & Hex).
  rewrite (hist_functional hist n cs' cs) in Hp, Hg by (done || apply HI).
  assert (E : readSegmentLines d n = split_lines (seg_text cs)).
  { unfold readSegmentLines, file_of. rewrite Hf. cbn.
    destruct Hg as [Hg|Hg]; rewrite Hg; [|done]. destruct Hp as [Hp|Hp]; rewrite Hp; [naive_solver|done]. }
  rewrite E, <- (app_nil_r (seg_text cs)), split_seg_text. cbn [split_lines].
  rewrite read_lines_entries. cbn. by rewrite app_nil_r.
Qed.

(** No commit of a segment before the asked one is newer. *)
Lemma old_segment n cs a : n < segment a -> filter (newer (Some a)) (entries_from n 0 cs) = [].
Proof.
  intros Hn. assert (Hall : Forall (fun p => ~ newer (Some a) p) (entries_from n 0 cs)).
  { apply Forall_forall. intros p [Hp _]%entries_segment. unfold newer.
    assert (compareCommitIds p.1 a < 0) by (apply compare_lt; lia). lia. }
  induction Hall as [|p l Hp _ IH]; [done|]. by rewrite filter_cons, decide_False.
Qed.

Lemma segments_hist d hist :
  wal_inv d hist -> segments d = filter (fun n => n ∈ dom (segs d)) hist.*1.
Proof.
  intros HI. pose proof (inv_ascending _ _ HI) as Hasc. unfold ascending in Hasc.
  assert (Hstr : StronglySorted Z.lt (filter (fun n => n ∈ dom (segs d)) hist.*1)).
  { clear HI. induction Hasc as [|n l Hs IH Hall]; [constructor|]. rewrite filter_cons. case_decide; [|done].
    constructor; [done|]. apply Forall_forall. intros m [_ Hm]%list_elem_of_filter.
    rewrite Forall_forall in Hall. auto. }
  apply (Sorted_unique Z.le).
  - apply Sorted_merge_sort. intros x y. lia.
  - apply StronglySorted_Sorted. clear -Hstr. induction Hstr as [|n l Hs IH Hall]; constructor; [done|].
    eapply Forall_impl; [done|]. intros; lia.
  - unfold segments. rewrite merge_sort_Permutation. apply NoDup_Permutation; [apply NoDup_elements| |].
    + clear -Hstr. induction Hstr as [|n l Hs IH Hall]; constructor; [|done].
      intros Hn. rewrite Forall_forall in Hall. specialize (Hall n Hn). lia.
    + intros n. rewrite elem_of_elements, list_elem_of_filter. split; [|tauto]. intros Hn. split; [done|].
      apply elem_of_dom in Hn as [f Hf]. destruct (inv_files _ _ HI n f Hf) as (cs & Hin & _).
      apply list_elem_of_fmap. by exists (n, cs).
Qed.

Lemma filter_join {A} (P : A -> Prop) `{forall x, Decision (P x)} (ls : list (list A)) :
  filter P (mjoin ls) = mjoin (filter P <$> ls).
Proof. induction ls as [|l ls IH]; [done|]. by rewrite fmap_cons, !join_cons, filter_app, IH. Qed.

(** The reader yields the commits after the given one, also when older segments
    are gone. *)
Lemma read_hist d hist after :
  wal_inv d hist ->
  (forall n cs, (n, cs) ∈ hist -> segs d !! n = None -> exists a, after = Some a /\ n < segment a) ->
  read d after = filter (newer after) (flat hist).
Proof.
  intros HI Hgone. unfold read. rewrite (segments_hist _ _ HI). unfold flat. rewrite filter_join, <- list_fmap_compose.
  assert (Hsub : forall p, p ∈ hist -> p ∈ hist) by done. revert Hsub. generalize hist at 1 3 4 as l.
  induction l as [|[n cs] l IH]; intros Hsub; [done|].
  assert (Hin : (n, cs) ∈ hist) by (apply Hsub; set_solver). specialize (IH ltac:(set_solver)).
  rewrite !fmap_cons, filter_cons. cbn [fst snd compose]. case_decide as Hd.
  - rewrite fmap_cons, !join_cons, IH. f_equal. apply elem_of_dom in Hd as [f Hf].
    destruct after as [a|]; [|by eapply read_segment].
    destruct (Z.ltb_spec n (segment a)) as [Hlt|_]; [by rewrite old_segment|]. by eapply read_segment.
  - rewrite !join_cons, IH. apply not_elem_of_dom in Hd.
    destruct (Hgone n cs Hin Hd) as (a & -> & Hlt). by rewrite old_segment.
Qed.

Lemma foldl_commits (l : list (WalCommitId * WalCommit V)) st :
  foldl (fun st p => applyCommit st p.2) st l = apply_all st l.*2.
Proof. unfold apply_all. revert st. induction l as [|p l IH]; intros st; [done|]. cbn. apply IH. Qed.

(** What a restart loads is what was committed. *)
Lemma recovery d hist : wal_inv d hist -> store (doLoadCache d) = apply_all ∅ (commits hist).
Proof.
  intros HI. unfold doLoadCache. cbn [store]. rewrite foldl_commits.
  destruct (load d) as [s|] eqn:El; cbn.
  - pose proof (load_stored _ _ El) as Hst. destruct (inv_snapshots _ _ HI s Hst) as (k & j & c & Hk & Hkj & Hdata).
    rewrite (read_hist d hist); [|done|].
    2:{ intros n cs Hin Hn. exists (commitId s). split; [done|].
        destruct (inv_missing _ _ HI n cs Hin Hn) as (s' & E & ?). congruence. }
    change (commitId s) with (commitId s, c).1.
    rewrite (newer_drop _ k) by (done || by apply flat_sorted, HI).
    rewrite fmap_drop. fold (commits hist). rewrite Hdata.
    assert (E : commits hist = take (S k) (commits hist) ++ drop (S k) (commits hist)) by (by rewrite take_drop).
    set (a := take (S k) (commits hist)) in *. set (b := drop (S k) (commits hist)) in *.
    assert (Hj : take j (commits hist) = a ++ take (j - S k) b).
    { unfold a, b. rewrite take_take_drop. f_equal. lia. }
    rewrite Hj, apply_all_app, E, apply_all_app.
    rewrite <- (take_drop (j - S k) b) at 2 3. apply replay_prefix.
  - rewrite (read_hist d hist); [|done|].
    2:{ intros n cs Hin Hn. destruct (inv_missing _ _ HI n cs Hin Hn) as (s & Hs & _). congruence. }
    by rewrite newer_all.
Qed.

(** ** Growing the history *)

Lemma commits_prefix hist hist' : flat hist `prefix_of` flat hist' -> commits hist `prefix_of` commits hist'.
Proof. intros [l E]. exists l.*2. unfold commits. by rewrite E, fmap_app. Qed.

Lemma valid_mono hist hist' s : flat hist `prefix_of` flat hist' -> valid hist s -> valid hist' s.
Proof.
  intros Hp (k & j & c & Hk & Hj & Hd). exists k, j, c. split_and!; [by eapply prefix_lookup_Some|lia| |].
  - apply prefix_length in Hp. lia.
  - rewrite Hd. f_equal. destruct (commits_prefix _ _ Hp) as [l ->]. rewrite take_app_le; [done|].
    unfold commits. rewrite length_fmap. lia.
Qed.

Lemma ascending_snoc hist n cs : ascending (hist ++ [(n, cs)]) <-> ascending hist /\ forall m cs', (m, cs') ∈ hist -> m < n.
Proof.
  unfold ascending. rewrite fmap_app. cbn. rewrite StronglySorted_app. split.
  - intros (H1 & H2 & _). split; [done|]. intros m cs' Hin. apply H1; [|set_solver].
    apply list_elem_of_fmap. by exists (m, cs').
  - intros [H1 H2]. split_and!; [|done|by repeat constructor].
    intros x y ([m cs'] & -> & Hin)%list_elem_of_fmap ->%list_elem_of_singleton. by eapply H2.
Qed.

(** The segment of a stored snapshot is one of the history. *)
Lemma valid_segment hist s : valid hist s -> exists cs, (segment (commitId s), cs) ∈ hist.
Proof.
  intros (k & j & c & Hk & _). apply list_elem_of_lookup_2, flat_elem in Hk as (n & cs & Hin & [Hs _]%entries_segment).
  cbn in Hs. subst n. eauto.
Qed.

(** The last segment is never deleted. *)
Lemma last_present d front n cs : wal_inv d (front ++ [(n, cs)]) -> is_Some (segs d !! n).
Proof.
  intros HI. destruct (segs d !! n) eqn:E; [by eexists|]. exfalso.
  destruct (inv_missing _ _ HI n cs) as (s & Hs%load_stored & Hlt); [set_solver|done|].
  destruct (valid_segment _ _ (inv_snapshots _ _ HI s Hs)) as [cs' Hin].
  pose proof (proj1 (ascending_snoc _ _ _) (inv_ascending _ _ HI)) as [_ Hasc].
  apply elem_of_app in Hin as [Hin|Hin]; [specialize (Hasc _ _ Hin); lia|].
  apply list_elem_of_singleton in Hin. injection Hin as E1 _. lia.
Qed.

(** A file of the last segment is written, and the history grows there. *)
Lemma last_file_inv d front n cs cs' f :
  wal_inv d (front ++ [(n, cs)]) -> cs `prefix_of` cs' ->
  holds_text (plain f) (seg_text cs') -> holds_text (gz f) (seg_text cs') -> (plain f <> None \/ gz f <> None) ->
  wal_inv (mkDisk (<[n := f]> (segs d)) (snap_gz d) (snap_json d)) (front ++ [(n, cs')]).
Proof.
  intros HI [more ->] Hp Hg Hex.
  assert (Hflat : flat (front ++ [(n, cs)]) `prefix_of` flat (front ++ [(n, cs ++ more)])).
  { rewrite !flat_app, !flat_one. unfold entries_from. rewrite imap_app, app_assoc. by apply prefix_app_r. }
  destruct HI as [Hasc Hpos Hfiles Hmiss Hsnap]. constructor.
  - by rewrite ascending_snoc in *.
  - by rewrite Forall_app, Forall_singleton in *.
  - intros m g Hm. cbn in Hm. apply lookup_insert_Some in Hm as [[-> <-]|[Hne Hm]].
    + exists (cs ++ more). split_and!; [set_solver|done..].
    + destruct (Hfiles m g Hm) as (ds & Hin & ?). exists ds. split; [|done].
      apply elem_of_app in Hin as [Hin|Hin]; [set_solver|]. apply list_elem_of_singleton in Hin. congruence.
  - intros m ds Hin Hm. cbn in Hm. apply lookup_insert_None in Hm as [Hm Hne].
    apply (Hmiss m ds); [|done]. apply elem_of_app in Hin as [Hin|Hin]; [set_solver|].
    apply list_elem_of_singleton in Hin. congruence.
  - intros s Hs. by eapply valid_mono, Hsnap.
Qed.

(** A new segment after all others. *)
Lemma new_segment_inv d hist n :
  wal_inv d hist -> 0 < n -> (forall m cs, (m, cs) ∈ hist -> m < n) ->
  segs d !! n = None /\
  wal_inv (mkDisk (<[n := mkFile (Some []) None]> (segs d)) (snap_gz d) (snap_json d)) (hist ++ [(n, [])]).
Proof.
  intros HI Hn Hlast. assert (Hnone : segs d !! n = None).
  { destruct (segs d !! n) as [f|] eqn:E; [|done]. destruct (inv_files _ _ HI n f E) as (cs & Hin & _).
    specialize (Hlast _ _ Hin). lia. }
  split; [done|]. destruct HI as [Hasc Hpos Hfiles Hmiss Hsnap]. constructor.
  - by rewrite ascending_snoc.
  - by rewrite Forall_app, Forall_singleton.
  - intros m g Hm. cbn in Hm. apply lookup_insert_Some in Hm as [[-> <-]|[Hne Hm]].
    + exists []. split_and!; [set_solver|by right|by left|by left].
    + destruct (Hfiles m g Hm) as (ds & Hin & ?). exists ds. split; [set_solver|done].
  - intros m ds Hin Hm. cbn in Hm. apply lookup_insert_None in Hm as [Hm Hne].
    apply (Hmiss m ds); [|done]. apply elem_of_app in Hin as [Hin|Hin]; [done|].
    apply list_elem_of_singleton in Hin. congruence.
  - intros s Hs. eapply valid_mono, Hsnap; [|done]. rewrite flat_app. by apply prefix_app_r.
Qed.

(** ** The writer *)

Context (maxSegmentSize : Z).

(** An open writer is at the end of the last segment. *)
Definition writer_ok d hist (w : WalWriter) : Prop :=
  handle w = true -> exists front cs, hist = front ++ [(currentSegment w, cs)] /\
    currentOffset w = Z.of_nat (length cs) /\
    segs d !! currentSegment w = Some (mkFile (Some (seg_text cs)) None).

Lemma start_segment_ok d hist n :
  wal_inv d hist -> 0 < n -> (forall m cs, (m, cs) ∈ hist -> m < n) ->
  let '(d', w') := start_segment d n in
  wal_inv d' (hist ++ [(n, [])]) /\ writer_ok d' (hist ++ [(n, [])]) w' /\ handle w' = true.
Proof.
  intros HI Hn Hlast. destruct (new_segment_inv d hist n HI Hn Hlast) as [Hnone HI'].
  unfold start_segment, open_append, put_file, file_of. rewrite Hnone. cbn [plain gz default].
  split_and!; [done| |done]. intros _. exists hist, []. cbn. split_and!; [done..|]. by rewrite lookup_insert_eq.
Qed.

Lemma foldl_max l a : a <= foldl Z.max a l /\ (forall x, x ∈ l -> x <= foldl Z.max a l) /\
  (foldl Z.max a l = a \/ foldl Z.max a l ∈ l).
Proof.
  revert a. induction l as [|y l IH]; intros a; cbn [foldl].
  - split_and!; [lia|set_solver|by left].
  - destruct (IH (Z.max a y)) as (H1 & H2 & H3). split_and!; [lia| |].
    + intros x [->|Hx]%elem_of_cons; [lia|auto].
    + destruct H3 as [H3|H3]; [|right; set_solver]. rewrite H3.
      destruct (Z.max_spec a y) as [[_ ->]|[_ ->]]; [right; set_solver|by left].
Qed.

Lemma maxSegment_last d front n cs : wal_inv d (front ++ [(n, cs)]) -> maxSegment d = n.
Proof.
  intros HI. unfold maxSegment. destruct (foldl_max (elements (dom (segs d))) 0) as (H1 & H2 & H3).
  pose proof (proj1 (ascending_snoc _ _ _) (inv_ascending _ _ HI)) as [_ Hasc].
  pose proof (inv_positive _ _ HI) as Hpos. rewrite Forall_app, Forall_singleton in Hpos. destruct Hpos as [_ Hpos].
  cbn in Hpos. pose proof (last_present _ _ _ _ HI) as Hp.
  assert (Hn : n <= foldl Z.max 0 (elements (dom (segs d)))) by (apply H2, elem_of_elements, elem_of_dom; done).
  destruct H3 as [H3|H3]; [lia|]. apply elem_of_elements, elem_of_dom in H3 as [f Hf].
  destruct (inv_files _ _ HI _ _ Hf) as (ds & Hin & _). apply elem_of_app in Hin as [Hin|Hin].
  - specialize (Hasc _ _ Hin). lia.
  - apply list_elem_of_singleton in Hin. congruence.
Qed.

Lemma after_last front n (cs : list (WalCommit V)) m ds :
  ascending (front ++ [(n, cs)]) -> (m, ds) ∈ front ++ [(n, cs)] -> m < n + 1.
Proof.
  intros [_ Hasc]%ascending_snoc Hin. apply elem_of_app in Hin as [Hin|Hin]; [specialize (Hasc _ _ Hin); lia|].
  apply list_elem_of_singleton in Hin. injection Hin as -> _. lia.
Qed.

Lemma openSegment_ok d hist :
  wal_inv d hist -> let '(d', w') := openSegment maxSegmentSize d in
  exists hist', wal_inv d' hist' /\ writer_ok d' hist' w' /\ handle w' = true /\ flat hist' = flat hist.
Proof.
  intros HI. unfold openSegment. destruct hist as [|p front _] using rev_ind.
  { assert (E : segs d = ∅).
    { apply map_empty. intros n. destruct (segs d !! n) as [f|] eqn:E; [|done].
      destruct (inv_files _ _ HI n f E) as (cs & Hin & _). set_solver. }
    unfold maxSegment. rewrite E, dom_empty_L, elements_empty. cbn.
    pose proof (start_segment_ok d [] 1 HI ltac:(lia) ltac:(set_solver)) as Hs.
    unfold start_segment in *. destruct Hs as (H1 & H2 & H3). exists ([] ++ [(1, [])]). by split_and!. }
  destruct p as [n cs]. pose proof (inv_positive _ _ HI) as Hpos. rewrite Forall_app, Forall_singleton in Hpos.
  destruct Hpos as [_ Hpos]. cbn in Hpos. rewrite (maxSegment_last _ _ _ _ HI).
  destruct (Z.ltb_spec 0 n) as [_|?]; [|lia].
  assert (Hnext : let '(d', w') := start_segment d (n + 1) in exists hist', wal_inv d' hist' /\ writer_ok d' hist' w' /\
    handle w' = true /\ flat hist' = flat (front ++ [(n, cs)])).
  { pose proof (start_segment_ok d (front ++ [(n, cs)]) (n + 1) HI ltac:(lia)) as Hs.
    unfold start_segment in *. destruct Hs as (H1 & H2 & H3).
    { intros m ds. apply after_last, HI. }
    exists ((front ++ [(n, cs)]) ++ [(n + 1, [])]). split_and!; [done..|]. by rewrite flat_app, app_nil_r. }
  destruct (last_present _ _ _ _ HI) as [f Hf]. rewrite (file_of_Some _ _ _ Hf).
  destruct (inv_files _ _ HI n f Hf) as (cs' & Hin & Hp & Hg & Hex).
  rewrite (hist_functional _ n cs' cs (inv_ascending _ _ HI) Hin) in Hp, Hg by set_solver.
  destruct (bool_decide_reflect (is_Some (gz f))) as [_|Hgz]; [done|].
  assert (Hgz' : gz f = None) by (by apply eq_None_not_Some). rewrite Hgz' in *.
  destruct Hp as [Hp|Hp]; rewrite Hp in *; [naive_solver|].
  change (default [] (Some (seg_text cs))) with (seg_text cs).
  destruct (_ && _); [|done]. rewrite lineCount_seg_text.
  exists (front ++ [(n, cs)]). unfold open_append, put_file. rewrite (file_of_Some _ _ _ Hf), Hp, Hgz'.
  cbn [plain gz]. split_and!; [|..|done|done].
  - eapply last_file_inv; [done|done|by right|by left|by left].
  - intros _. exists front, cs. cbn. split_and!; [done..|]. by rewrite lookup_insert_eq.
Qed.

Lemma prepare_ok d hist w :
  wal_inv d hist -> writer_ok d hist w -> let '(d', w') := prepare maxSegmentSize d w in
  exists hist', wal_inv d' hist' /\ writer_ok d' hist' w' /\ handle w' = true /\ flat hist' = flat hist.
Proof.
  intros HI Hw. unfold prepare.
  assert (Hopen : let '(d', w') := if handle w then (d, w) else openSegment maxSegmentSize d in
    exists hist', wal_inv d' hist' /\ writer_ok d' hist' w' /\ handle w' = true /\ flat hist' = flat hist).
  { destruct (handle w) eqn:E; [by exists hist|by apply openSegment_ok]. }
  destruct (if handle w then (d, w) else openSegment maxSegmentSize d) as [d1 w1].
  destruct Hopen as (h1 & H1 & Hw1 & Hh & Hf). destruct (_ && _); [|by exists h1]. unfold rotate.
  destruct (Hw1 Hh) as (front & cs & -> & _ & _).
  pose proof (inv_positive _ _ H1) as Hpos. rewrite Forall_app, Forall_singleton in Hpos. destruct Hpos as [_ Hpos]. cbn in Hpos.
  pose proof (start_segment_ok d1 _ (currentSegment w1 + 1) H1 ltac:(lia)) as Hs.
  unfold start_segment in *. destruct Hs as (H2 & H3 & H4); [intros m ds; apply after_last, H1|].
  eexists. split_and!; [done..|]. by rewrite flat_app, app_nil_r.
Qed.

(** The text that [prepare] and an append leave in the last segment. *)
Lemma append_last d front n cs t :
  wal_inv d (front ++ [(n, cs)]) -> segs d !! n = Some (mkFile (Some (seg_text cs)) None) ->
  append d n t = mkDisk (<[n := mkFile (Some (seg_text cs ++ t)) None]> (segs d)) (snap_gz d) (snap_json d).
Proof. intros HI E. unfold append, put_file, file_of. by rewrite E. Qed.

Lemma seg_text_snoc cs c : seg_text (cs ++ [c]) = seg_text cs ++ commit_line c.
Proof. unfold seg_text. rewrite fmap_app, join_app. cbn. by rewrite app_nil_r. Qed.

Lemma write_ok d hist w c :
  wal_inv d hist -> writer_ok d hist w -> let '(d', w', id) := write maxSegmentSize d w c in
  exists hist', wal_inv d' hist' /\ writer_ok d' hist' w' /\ flat hist' = flat hist ++ [(id, c)].
Proof.
  intros HI Hw. unfold write. pose proof (prepare_ok d hist w HI Hw) as Hp.
  destruct (prepare maxSegmentSize d w) as [d1 w1]. destruct Hp as (h1 & H1 & Hw1 & Hh & Hf).
  destruct (Hw1 Hh) as (front & cs & -> & Hoff & Hfile).
  exists (front ++ [(currentSegment w1, cs ++ [c])]). rewrite (append_last _ _ _ _ _ H1 Hfile).
  split_and!.
  - eapply last_file_inv; [done|by apply prefix_app_r|right; cbn; by rewrite seg_text_snoc|by left|by left].
  - intros _. exists front, (cs ++ [c]). cbn. split_and!; [done|rewrite length_app; cbn; lia|].
    by rewrite lookup_insert_eq, seg_text_snoc.
  - rewrite <- Hf, !flat_app, !flat_one, entries_snoc, Hoff. by rewrite app_assoc.
Qed.

(** ** Compression and cleaning *)

(** The segment may go: the snapshot that a restart loads is beyond it. *)
Definition covered d (n : Z) : Prop := exists s, load d = Some s /\ n < segment (commitId s).

Lemma put_file_inv d hist n f f' :
  wal_inv d hist -> segs d !! n = Some f ->
  (plain f' = None \/ plain f' = plain f \/ plain f' = gz f) -> (gz f' = None \/ gz f' = gz f \/ gz f' = plain f) ->
  (plain f' <> None \/ gz f' <> None \/ covered d n) -> wal_inv (put_file d n f') hist.
Proof.
  intros HI Hf Hp Hg Hex. destruct (inv_files _ _ HI n f Hf) as (cs & Hin & Hpf & Hgf & _).
  assert (Hp' : holds_text (plain f') (seg_text cs)) by (destruct Hp as [->|[->| ->]]; [by left|done..]).
  assert (Hg' : holds_text (gz f') (seg_text cs)) by (destruct Hg as [->|[->| ->]]; [by left|done..]).
  destruct HI as [Hasc Hpos Hfiles Hmiss Hsnap]. constructor; [done|done| | |done].
  - intros m g Hm. unfold put_file in Hm. cbn in Hm.
    assert (Hcases : m = n /\ g = f' /\ (plain f' <> None \/ gz f' <> None) \/ segs d !! m = Some g).
    { destruct (plain f') eqn:E1, (gz f') eqn:E2;
        try (apply lookup_insert_Some in Hm as [[<- <-]|[_ Hm]]; [left; split_and!; naive_solver|by right]).
      apply lookup_delete_Some in Hm as [_ Hm]. by right. }
    destruct Hcases as [(-> & -> & Hne)|Hm']; [exists cs; by split_and!|by apply Hfiles].
  - intros m ds Hm Hnone. unfold put_file in Hnone. cbn in Hnone.
    assert (Hcases : m = n /\ covered d n \/ segs d !! m = None).
    { destruct (plain f') eqn:E1, (gz f') eqn:E2; try (apply lookup_insert_None in Hnone as [Hnone _]; by right).
      apply lookup_delete_None in Hnone as [->|Hnone]; [left; naive_solver|by right]. }
    destruct Hcases as [[-> Hc]|Hm']; [apply Hc|by apply (Hmiss m ds)].
Qed.

Lemma put_file_other d n f m : m <> n -> segs (put_file d n f) !! m = segs d !! m.
Proof.
  intros Hne. unfold put_file. cbn.
  destruct (plain f), (gz f); by rewrite ?lookup_insert_ne, ?lookup_delete_ne by done.
Qed.

Lemma sorted_lookup_lt (l : list (WalCommitId * WalCommit V)) i j p q :
  StronglySorted id_lt l -> l !! i = Some p -> l !! j = Some q -> (i < j)%nat -> id_lt p q.
Proof.
  intros Hs. revert i j. induction Hs as [|x l _ IH Hall]; intros [|i] [|j] Hi Hj Hlt; try done; try lia; cbn in *.
  - simplify_eq. rewrite Forall_forall in Hall. by eapply Hall, list_elem_of_lookup_2.
  - apply (IH i j); [done..|lia].
Qed.

(** ** The transition system *)

(** A run of [snapshot.save]: the format, the snapshot, and whether the file has
    been renamed into place. *)
Record Saving := mkSaving {
  compressed : bool;
  snapshot : WalSnapshot V;
  renamed : bool;
}.

(** The disk; the members of the driver; the commits acknowledged so far; and
    whether a snapshot was noted after the log had gone on to a later segment. *)
Record System := mkSystem {
  disk : Disk V;
  writer : WalWriter;
  last_commit : option WalCommitId;
  last_snapshot : option WalCommitId;
  saving : option Saving;
  acked : list (WalCommitId * WalCommit V);
  raced : bool;
}.

Definition with_disk d (s : System) : System :=
  mkSystem d (writer s) (last_commit s) (last_snapshot s) (saving s) (acked s) (raced s).
Definition with_saving d (sv : option Saving) (s : System) : System :=
  mkSystem d (writer s) (last_commit s) (last_snapshot s) sv (acked s) (raced s).

(** The snapshot [#runSnapshot] takes: the commit it names is acknowledged, and
    its data may already contain later ones. *)
Definition snapshot_of (l : list (WalCommitId * WalCommit V)) (s : WalSnapshot V) : Prop :=
  exists k j c, l !! k = Some (commitId s, c) /\ (k < j <= length l)%nat /\
    data s = apply_all ∅ (take j l.*2).

Definition inactive (w : WalWriter) (n : Z) : Prop := handle w = true -> currentSegment w <> n.

(** [save] replaces the file of its own format; the other one is older. *)
Definition outdates (mtime : Z) (other : option (Z * WalSnapshot V)) : Prop :=
  forall t s, other = Some (t, s) -> t < mtime.

(** [#runSnapshot] after the save: [#lastSnapshotCommitId = #lastCommitId], the
    last commit now. *)
Definition note (s : System) (sn : WalSnapshot V) : System :=
  mkSystem (disk s) (writer s) (last_commit s) (last_commit s) None (acked s)
    (raced s || match last_commit s with Some id => segment (commitId sn) <? segment id | None => false end).

(** A restart: the members are those of [initialize]. *)
Definition restart (s : System) : System :=
  mkSystem (disk s) new_writer None None None (acked s) (raced s).

(** [#doLoadCache] *)
Definition load_cache (s : System) : System :=
  let l := doLoadCache (disk s) in
  mkSystem (disk s) (writer s) (match lastCommitId l with Some id => Some id | None => last_commit s end)
    (match lastSnapshotCommitId l with Some id => Some id | None => last_snapshot s end)
    (saving s) (acked s) (raced s).

Inductive wal_step (s : System) : System -> Prop :=
| wal_commit c d' w' id :
    write maxSegmentSize (disk s) (writer s) c = (d', w', id) ->
    wal_step s (mkSystem d' w' (Some id) (last_snapshot s) (saving s) (acked s ++ [(id, c)]) (raced s))
| wal_load : wal_step s (load_cache s)
| wal_snapshot compress sn :
    saving s = None -> last_commit s = Some (commitId sn) -> snapshot_of (acked s) sn ->
    wal_step s (with_saving (disk s) (Some (mkSaving compress sn false)) s)
| wal_snapshot_rename compress sn mtime :
    saving s = Some (mkSaving compress sn false) ->
    outdates mtime (if compress then snap_json (disk s) else snap_gz (disk s)) ->
    wal_step s (with_saving (save_rename (disk s) compress mtime sn) (Some (mkSaving compress sn true)) s)
| wal_snapshot_cleanup compress sn :
    saving s = Some (mkSaving compress sn true) ->
    wal_step s (with_disk (save_cleanup (disk s) compress) s)
| wal_snapshot_noted compress sn :
    saving s = Some (mkSaving compress sn true) -> wal_step s (note s sn)
| wal_snapshot_failed : wal_step s (with_saving (disk s) None s)
| wal_compress n :
    is_Some (segs (disk s) !! n) -> inactive (writer s) n ->
    wal_step s (with_disk (compress_segment (disk s) n) s)
| wal_compressed n :
    gz (file_of (disk s) n) <> None -> inactive (writer s) n ->
    wal_step s (with_disk (delete_plain (disk s) n) s)
| wal_clean_plain id n :
    last_snapshot s = Some id -> n < segment id -> wal_step s (with_disk (delete_plain (disk s) n) s)
| wal_clean_gz id n :
    last_snapshot s = Some id -> n < segment id -> wal_step s (with_disk (delete_gz (disk s) n) s)
| wal_crash : wal_step s (restart s).

Definition empty_disk : Disk V := mkDisk ∅ None None.
Definition empty_system : System := mkSystem empty_disk new_writer None None None [] false.

Definition wal_reachable (s : System) : Prop := rtc wal_step empty_system s.

(** The snapshot being saved is as recent as the one on disk, which it is once
    the file has been renamed. *)
Definition saving_ok d (l : list (WalCommitId * WalCommit V)) (sv : Saving) : Prop :=
  snapshot_of l (snapshot sv) /\
  (forall s0, load d = Some s0 -> segment (commitId s0) <= segment (commitId (snapshot sv))) /\
  (renamed sv = true -> load d = Some (snapshot sv) /\
     exists t, (if compressed sv then snap_gz d else snap_json d) = Some (t, snapshot sv)).

Record sys_inv (s : System) (hist : History) : Prop := {
  si_log : wal_inv (disk s) hist;
  si_writer : writer_ok (disk s) hist (writer s);
  si_acked : flat hist = acked s;
  si_commit : forall id, last_commit s = Some id -> exists c, last (acked s) = Some (id, c);
  si_snapshot : forall id, last_snapshot s = Some id ->
    exists s0, load (disk s) = Some s0 /\ segment id <= segment (commitId s0);
  si_saving : forall sv, saving s = Some sv -> saving_ok (disk s) (acked s) sv;
}.

Lemma snapshot_of_grow l l' sn : snapshot_of l sn -> snapshot_of (l ++ l') sn.
Proof.
  intros (k & j & c & Hk & Hj & Hd). exists k, j, c. rewrite length_app. split_and!; [by apply lookup_app_l_Some|lia|lia|].
  rewrite Hd, fmap_app, take_app_le; [done|]. rewrite length_fmap. lia.
Qed.

(** A commit named by a snapshot is not in a later segment than the last one. *)
Lemma snapshot_segment hist sn id c :
  ascending hist -> snapshot_of (flat hist) sn -> last (flat hist) = Some (id, c) -> segment (commitId sn) <= segment id.
Proof.
  intros Hasc (k & j & x & Hk & _) Hl. pose proof (lookup_lt_Some _ _ _ Hk). rewrite last_lookup in Hl.
  destruct (decide (k = pred (length (flat hist)))) as [->|Hne]; [rewrite Hk in Hl; by injection Hl as <- _|].
  pose proof (sorted_lookup_lt (flat hist) k _ _ _ (flat_sorted _ Hasc) Hk Hl ltac:(lia)) as Hlt.
  unfold id_lt in Hlt. cbn in Hlt. apply compare_lt in Hlt. lia.
Qed.

Lemma snapshots_inv d d' hist s :
  wal_inv d hist -> segs d' = segs d -> (forall s', stored d' s' -> valid hist s') -> load d' = Some s ->
  (forall s0, load d = Some s0 -> segment (commitId s0) <= segment (commitId s)) -> wal_inv d' hist.
Proof.
  intros [Hasc Hpos Hfiles Hmiss Hsnap] Hsegs Hst Hload Hmon. constructor; [done|done| | |done].
  - rewrite Hsegs. apply Hfiles.
  - intros n cs Hin Hn. rewrite Hsegs in Hn. destruct (Hmiss n cs Hin Hn) as (s0 & Hs0 & Hlt).
    exists s. split; [done|]. specialize (Hmon s0 Hs0). lia.
Qed.

Lemma writer_ok_other d d' hist w n :
  writer_ok d hist w -> inactive w n -> (forall m, m <> n -> segs d' !! m = segs d !! m) -> writer_ok d' hist w.
Proof.
  intros Hw Hi Hs Hh. destruct (Hw Hh) as (front & cs & H1 & H2 & H3). exists front, cs. split_and!; [done..|].
  rewrite Hs; [done|]. by apply Hi.
Qed.

Lemma covered_inactive d hist w n : wal_inv d hist -> writer_ok d hist w -> covered d n -> inactive w n.
Proof.
  intros HI Hw (s & Hs%load_stored & Hc) Hh <-. destruct (Hw Hh) as (front & cs & -> & _).
  destruct (valid_segment _ _ (inv_snapshots _ _ HI s Hs)) as [cs' Hin].
  pose proof (after_last _ _ _ _ _ (inv_ascending _ _ HI) Hin). lia.
Qed.

Lemma delete_file_inv d hist w n f' :
  wal_inv d hist -> writer_ok d hist w -> inactive w n ->
  (plain f' = None \/ plain f' = plain (file_of d n)) -> (gz f' = None \/ gz f' = gz (file_of d n)) ->
  (plain f' <> None \/ gz f' <> None \/ covered d n) ->
  wal_inv (put_file d n f') hist /\ writer_ok (put_file d n f') hist w.
Proof.
  intros HI Hw Hi Hp Hg Hex. split.
  - destruct (segs d !! n) as [f|] eqn:Hf.
    + rewrite (file_of_Some _ _ _ Hf) in *. apply (put_file_inv d hist n f f'); naive_solver.
    + unfold file_of in *. rewrite Hf in *. cbn in *.
      assert (plain f' = None) as E1 by naive_solver. assert (gz f' = None) as E2 by naive_solver.
      unfold put_file. rewrite E1, E2. rewrite delete_id by done. by destruct d.
  - eapply writer_ok_other; [done|done|]. intros m. apply put_file_other.
Qed.

(** What does not touch the snapshot files. *)
Definition same_snapshots d d' : Prop := snap_gz d' = snap_gz d /\ snap_json d' = snap_json d.

Lemma same_load d d' : same_snapshots d d' -> load d' = load d.
Proof. intros [E1 E2]. unfold load. by rewrite E1, E2. Qed.

Lemma saving_ok_same d d' l l' sv : same_snapshots d d' -> saving_ok d l sv -> saving_ok d' (l ++ l') sv.
Proof.
  intros Hs (H1 & H2 & H3). unfold saving_ok. rewrite (same_load d d' Hs). destruct Hs as [-> ->].
  split_and!; [by apply snapshot_of_grow|done..].
Qed.

Lemma prepare_snapshots d w : same_snapshots d (prepare maxSegmentSize d w).1.
Proof.
  unfold prepare, rotate. destruct (if handle w then (d, w) else openSegment maxSegmentSize d) as [d1 w1] eqn:E.
  assert (H1 : same_snapshots d d1).
  { revert E. destruct (handle w); [by intros [= <- <-]|]. unfold openSegment, start_segment. repeat case_match; by intros [= <- <-]. }
  by destruct (_ && _).
Qed.

Lemma write_snapshots d w c d' w' id : write maxSegmentSize d w c = (d', w', id) -> same_snapshots d d'.
Proof.
  unfold write. pose proof (prepare_snapshots d w) as Hp. destruct (prepare maxSegmentSize d w) as [d1 w1].
  by intros [= <- _ _].
Qed.

(** A step that only touches segments. *)
Lemma with_disk_inv s hist d' :
  sys_inv s hist -> same_snapshots (disk s) d' -> wal_inv d' hist -> writer_ok d' hist (writer s) -> sys_inv (with_disk d' s) hist.
Proof.
  intros [HI Hw Hf Hc Hs Hsv] Hd HI' Hw'. constructor; cbn; [done..| |].
  - rewrite (same_load _ _ Hd). exact Hs.
  - intros sv E. rewrite <- (app_nil_r (acked s)). by eapply saving_ok_same, Hsv.
Qed.

Lemma cleaned_inv s hist id n f' :
  sys_inv s hist -> last_snapshot s = Some id -> n < segment id ->
  (plain f' = None \/ plain f' = plain (file_of (disk s) n)) -> (gz f' = None \/ gz f' = gz (file_of (disk s) n)) ->
  sys_inv (with_disk (put_file (disk s) n f') s) hist.
Proof.
  intros Hi Hid Hn Hp Hg. assert (Hc : covered (disk s) n).
  { destruct (si_snapshot _ _ Hi id Hid) as (s0 & ? & ?). exists s0. split; [done|lia]. }
  destruct (delete_file_inv (disk s) hist (writer s) n f') as [? ?]; auto; [apply Hi..| |by apply with_disk_inv].
  by eapply covered_inactive; [apply Hi..|].
Qed.

(** What a restart takes for the last commit is the last one. *)
Lemma loaded_last d hist id :
  wal_inv d hist -> lastCommitId (doLoadCache d) = Some id -> exists c, last (flat hist) = Some (id, c).
Proof.
  intros HI. unfold doLoadCache. cbn [lastCommitId]. destruct (load d) as [s|] eqn:El; cbn.
  - destruct (inv_snapshots _ _ HI s (load_stored _ _ El)) as (k & j & c & Hk & Hkj & _).
    rewrite (read_hist d hist); [|done|].
    2:{ intros n cs Hin Hn. exists (commitId s). split; [done|].
        destruct (inv_missing _ _ HI n cs Hin Hn) as (s' & E & ?). congruence. }
    change (commitId s) with (commitId s, c).1 at 1.
    rewrite (newer_drop _ k) by (done || by apply flat_sorted, HI). pose proof (lookup_lt_Some _ _ _ Hk) as Hlen.
    destruct (last (drop (S k) (flat hist))) as [[x y]|] eqn:E.
    + intros [= <-]. exists y. rewrite <- (take_drop (S k) (flat hist)), last_app, E. done.
    + apply last_None in E. intros [= <-]. exists c. rewrite last_lookup, <- Hk. f_equal.
      apply (f_equal length) in E. rewrite length_drop in E. cbn in E. lia.
  - rewrite (read_hist d hist); [|done|].
    2:{ intros n cs Hin Hn. destruct (inv_missing _ _ HI n cs Hin Hn) as (s & Hs & _). congruence. }
    rewrite newer_all. destruct (last (flat hist)) as [[x y]|]; [intros [= <-]; by exists y|done].
Qed.

Lemma save_rename_load d compress mtime sn :
  outdates mtime (if compress : bool then snap_json d else snap_gz d) -> load (save_rename d compress mtime sn) = Some sn.
Proof.
  intros Ho. unfold load, save_rename. destruct compress; cbn.
  - destruct (snap_json d) as [[t s]|]; [|done]. specialize (Ho _ _ eq_refl). by destruct (Z.leb_spec t mtime); [|lia].
  - destruct (snap_gz d) as [[t s]|]; [|done]. specialize (Ho _ _ eq_refl). by destruct (Z.leb_spec mtime t); [lia|].
Qed.

Lemma rename_inv s hist compress sn mtime :
  sys_inv s hist -> saving s = Some (mkSaving compress sn false) ->
  outdates mtime (if compress then snap_json (disk s) else snap_gz (disk s)) ->
  sys_inv (with_saving (save_rename (disk s) compress mtime sn) (Some (mkSaving compress sn true)) s) hist.
Proof.
  intros [HI Hw Hf Hc Hs Hsv] E Ho. destruct (Hsv _ E) as (Hof & Hmon & _). cbn in Hof, Hmon.
  pose proof (save_rename_load _ _ _ sn Ho) as El. constructor; cbn; [|by destruct compress|done|done| |].
  - eapply (snapshots_inv (disk s) _ _ sn); [done|by destruct compress| |done|done].
    intros s' [[t Ht]|[t Ht]]; destruct compress; cbn in Ht; try (injection Ht as _ <-; unfold valid; rewrite <- Hf in Hof; exact Hof);
      apply (inv_snapshots _ _ HI); unfold stored; eauto.
  - rewrite El. intros id Hid. destruct (Hs id Hid) as (s0 & H0 & Hle). exists sn. split; [done|]. specialize (Hmon s0 H0). lia.
  - intros sv [= <-]. split_and!; cbn; [done| |].
    + intros s0. rewrite El. intros [= ->]. lia.
    + intros _. split; [done|]. exists mtime. by destruct compress.
Qed.

Lemma cleanup_inv s hist compress sn :
  sys_inv s hist -> saving s = Some (mkSaving compress sn true) -> sys_inv (with_disk (save_cleanup (disk s) compress) s) hist.
Proof.
  intros [HI Hw Hf Hc Hs Hsv] E. destruct (Hsv _ E) as (Hof & Hmon & Hr). destruct (Hr eq_refl) as [El [t Et]]. cbn in *.
  assert (El' : load (save_cleanup (disk s) compress) = Some sn) by (unfold load, save_cleanup; destruct compress; cbn; by rewrite Et).
  constructor; cbn; [|by destruct compress|done|done|by rewrite El', <- El|].
  - eapply (snapshots_inv (disk s) _ _ sn); [done|by destruct compress| |done|done].
    intros s' [[u Hu]|[u Hu]]; destruct compress; cbn in Hu; try done; apply (inv_snapshots _ _ HI); unfold stored; eauto.
  - intros sv Esv. rewrite E in Esv. injection Esv as <-. split_and!; cbn; [done|by rewrite El', <- El|].
    intros _. split; [done|]. exists t. by destruct compress.
Qed.

Lemma wal_step_inv s s' hist :
  sys_inv s hist -> wal_step s s' -> raced s' = false -> exists hist', sys_inv s' hist'.
Proof.
  intros Hi Hstep Hrace. pose proof Hi as [HI Hw Hf Hc Hs Hsv].
  destruct Hstep as [c d' w' id E| |comp sn E El Hsn|comp sn mt E Ho|comp sn E|comp sn E| |n Hn Hin|n Hg Hin|id n Hid Hn|id n Hid Hn|].
  - pose proof (write_ok (disk s) hist (writer s) c HI Hw) as Hwr. pose proof (write_snapshots _ _ _ _ _ _ E) as Hd.
    rewrite E in Hwr. destruct Hwr as (h' & ? & ? & Hf'). exists h'. constructor; cbn; [done|done|by rewrite Hf', Hf| | |].
    + intros x [= <-]. exists c. by rewrite last_snoc.
    + rewrite (same_load _ _ Hd). exact Hs.
    + intros sv Esv. by eapply saving_ok_same, Hsv.
  - exists hist. constructor; cbn [disk writer last_commit last_snapshot saving acked load_cache]; [done|done|done| | |done].
    + intros id. destruct (lastCommitId (doLoadCache (disk s))) as [x|] eqn:E; [|apply Hc]. intros [= <-].
      rewrite <- Hf. by eapply loaded_last.
    + intros id. unfold doLoadCache. cbn [lastSnapshotCommitId]. destruct (load (disk s)) as [s0|] eqn:E; cbn.
      * intros [= <-]. exists s0. split; [done|lia].
      * intros Hid. destruct (Hs id Hid) as (s0 & ? & _). done.
  - exists hist. constructor; cbn; [done..|]. intros sv [= <-]. split_and!; cbn; [done| |done].
    intros s0 H0. destruct (Hc _ El) as [c Hl]. rewrite <- Hf in Hl. eapply snapshot_segment; [apply HI| |done].
    exact (inv_snapshots _ _ HI s0 (load_stored _ _ H0)).
  - exists hist. by apply rename_inv.
  - exists hist. by eapply cleanup_inv.
  - exists hist. destruct (Hsv _ E) as (_ & _ & Hr). destruct (Hr eq_refl) as [El _]. cbn in El. constructor; cbn; [done..| |done].
    intros id Hid. exists sn. split; [done|]. cbn in Hrace. rewrite Hid in Hrace. apply orb_false_iff in Hrace as [_ Hrace]. lia.
  - exists hist. by constructor.
  - exists hist. apply with_disk_inv; [done|unfold compress_segment; by case_match|..]; unfold compress_segment;
      destruct Hn as [f Hn]; rewrite (file_of_Some _ _ _ Hn); destruct (gz f) as [g|] eqn:Eg; try done.
    + destruct (inv_files _ _ HI n f Hn) as (cs & _ & _ & _ & Hex). eapply put_file_inv; [done|done|cbn; auto|cbn; auto|].
      cbn. rewrite Eg in Hex. naive_solver.
    + eapply writer_ok_other; [done|done|apply put_file_other].
  - exists hist. destruct (delete_file_inv (disk s) hist (writer s) n (mkFile None (gz (file_of (disk s) n)))) as [? ?]; cbn; auto.
    by apply with_disk_inv.
  - exists hist. apply (cleaned_inv s hist id); cbn; auto.
  - exists hist. apply (cleaned_inv s hist id); cbn; auto.
  - exists hist. constructor; cbn; [done|by intros ?|done|done..].
Qed.

Lemma wal_step_raced s s' : wal_step s s' -> raced s' = false -> raced s = false.
Proof. intros []; cbn; try done. by intros [? _]%orb_false_iff. Qed.

Lemma wal_reachable_inv s : wal_reachable s -> raced s = false -> exists hist, sys_inv s hist.
Proof.
  intros Hr. pattern s. revert s Hr. apply rtc_ind_r.
  - intros _. exists []. constructor; cbn; [|by intros ?|done|done..].
    constructor; [constructor|done|by intros n f Hn|by intros n cs Hn%elem_of_nil|]. intros sn [[t Ht]|[t Ht]]; done.
  - intros a b _ Hstep IH Hb. destruct (IH (wal_step_raced _ _ Hstep Hb)) as [hist Hi]. by eapply wal_step_inv.
Qed.


(** ** Point-in-time snapshots *)

Lemma replay_until_app (stop : WalCommitId -> Z -> bool) (l1 l2 : list (WalCommitId * WalCommit V)) st lid lts :
  Forall (fun p => stop p.1 (ts p.2) = false) l1 -> (forall p, head l2 = Some p -> stop p.1 (ts p.2) = true) ->
  exists t, replay_until stop (l1 ++ l2) st lid lts =
    (apply_all st l1.*2, match last l1 with Some p => Some p.1 | None => lid end, t).
Proof.
  intros Hl1 Hl2. revert st lid lts. induction Hl1 as [|[id c] l1 Hid _ IH]; intros st lid lts; cbn [app].
  - exists lts. destruct l2 as [|[id c] l2]; [done|]. cbn in *. pose proof (Hl2 _ eq_refl) as E. cbn in E. by rewrite E.
  - cbn [replay_until]. cbn in Hid. rewrite Hid. destruct (IH (applyCommit st c) (Some id)
      (if ts c =? 0 then lts else ts c)) as [t ->]. exists t.
    rewrite last_cons. by destruct (last l1).
Qed.

Lemma compare_refl a : compareCommitIds a a = 0.
Proof. pose proof (compare_antisym a a). lia. Qed.

(** Replaying from the [b]-th commit up to the [i]-th. *)
Lemma replay_to (l : list (WalCommitId * WalCommit V)) b i id c st lid lts :
  StronglySorted id_lt l -> l !! i = Some (id, c) -> (b <= S i)%nat -> (b = S i -> lid = Some id) ->
  exists t, replay_until (fun x _ => 0 <? compareCommitIds x id) (drop b l) st lid lts =
    (apply_all st (drop b (take (S i) l)).*2, Some id, t).
Proof.
  intros Hs Hi Hb Hlid. pose proof (lookup_lt_Some _ _ _ Hi) as Hlen.
  assert (E : drop b l = drop b (take (S i) l) ++ drop (S i) l).
  { rewrite <- (take_drop (S i) l) at 1. apply drop_app_le. rewrite length_take. lia. }
  rewrite E. edestruct (replay_until_app (fun x _ => 0 <? compareCommitIds x id)) as [t ->].
  - apply Forall_forall. intros p (m & Hm)%list_elem_of_lookup. rewrite lookup_drop in Hm.
    pose proof (lookup_lt_Some _ _ _ Hm) as Hm'. rewrite length_take in Hm'. rewrite lookup_take_lt in Hm by lia.
    destruct (decide (b + m = i)%nat) as [Em|Em].
    + rewrite Em, Hi in Hm. injection Hm as <-. cbn. by rewrite compare_refl.
    + pose proof (sorted_lookup_lt l _ _ _ _ Hs Hm Hi ltac:(lia)) as Hlt. unfold id_lt in Hlt. cbn in *. lia.
  - intros p Hp. rewrite head_lookup, lookup_drop in Hp.
    pose proof (sorted_lookup_lt l _ _ _ _ Hs Hi Hp ltac:(lia)) as Hlt. unfold id_lt in Hlt. cbn in *.
    rewrite compare_antisym. lia.
  - exists t. f_equal. f_equal. destruct (decide (b = S i)) as [->|Hne].
    + rewrite drop_ge by (rewrite length_take; lia). by apply Hlid.
    + rewrite last_lookup, length_drop, length_take, lookup_drop.
      replace (b + pred (S i `min` length l - b))%nat with i by lia.
      by rewrite lookup_take_lt, Hi by lia.
Qed.

(** The snapshot a disk holds contains the commits up to the one it names. *)
Definition exact_snapshot (l : list (WalCommitId * WalCommit V)) (s : WalSnapshot V) : Prop :=
  forall k c, l !! k = Some (commitId s, c) -> data s = apply_all ∅ (take (S k) l.*2).

(** Reconstruction at an acknowledged commit yields the state after exactly the
    commits up to it, when the snapshot on disk is not newer.  When it is newer,
    the result is that snapshot, the state after later commits, and no error. *)
Theorem snapshotAtCommit_spec s i id c :
  wal_reachable s -> raced s = false -> acked s !! i = Some (id, c) ->
  (forall sn, load (disk s) = Some sn -> exact_snapshot (acked s) sn) ->
  match load (disk s) with
  | Some sn =>
      if 0 <? compareCommitIds (commitId sn) id then snapshotAtCommit (disk s) (Some id) = Ok sn
      else exists t, snapshotAtCommit (disk s) (Some id) = Ok (mkSnapshot id t (apply_all ∅ (take (S i) (acked s).*2)))
  | None => exists t, snapshotAtCommit (disk s) (Some id) = Ok (mkSnapshot id t (apply_all ∅ (take (S i) (acked s).*2)))
  end.
Proof.
  intros Hr Hnr Hi Hexact. destruct (wal_reachable_inv s Hr Hnr) as [hist [HI _ Hf _ _ _]]. rewrite <- Hf in *.
  pose proof (flat_sorted _ (inv_ascending _ _ HI)) as Hs.
  unfold snapshotAtCommit, reconstruct. destruct (load (disk s)) as [sn|] eqn:El; cbn [rbind fmap option_fmap option_map default].
  - pose proof (load_stored _ _ El) as Hst. destruct (inv_snapshots _ _ HI sn Hst) as (k & j & x & Hk & _ & _).
    rewrite (read_hist (disk s) hist); [|done|].
    2:{ intros n cs Hin Hn. exists (commitId sn). split; [done|].
        destruct (inv_missing _ _ HI n cs Hin Hn) as (s' & E & ?). congruence. }
    pose proof (newer_drop _ k (commitId sn, x) Hs Hk) as Hd. cbn [fst] in Hd. rewrite Hd.
    destruct (Z.ltb_spec 0 (compareCommitIds (commitId sn) id)) as [Hnew|Hold].
    + destruct (drop (S k) (flat hist)) as [|[y z] l] eqn:Ed; cbn [replay_until]; [by destruct sn|].
      assert (Hy : flat hist !! (S k) = Some (y, z)) by (rewrite <- (Nat.add_0_r (S k)), <- lookup_drop, Ed; done).
      pose proof (sorted_lookup_lt _ _ _ _ _ Hs Hk Hy ltac:(lia)) as Hlt. unfold id_lt in Hlt. cbn in Hlt.
      assert (Hyid : compareCommitIds id y < 0).
      { rewrite compare_antisym in Hnew. apply compare_lt. apply compare_lt in Hlt.
        assert (compareCommitIds id (commitId sn) < 0) as Hl by lia. apply compare_lt in Hl. lia. }
      rewrite (compare_antisym y id). destruct (Z.ltb_spec 0 (- compareCommitIds id y)); [|lia]. by destruct sn.
    + assert (Hki : (k <= i)%nat).
      { destruct (decide (k <= i)%nat); [done|]. exfalso.
        pose proof (sorted_lookup_lt _ _ _ _ _ Hs Hi Hk ltac:(lia)) as Hlt. unfold id_lt in Hlt. cbn in Hlt.
        rewrite compare_antisym in Hold. lia. }
      edestruct (replay_to (flat hist) (S k) i id c) as [t ->]; [done|done|lia| |].
      { intros [= ->]. by simplify_eq. }
      exists t. unfold Datatypes.id. rewrite (Hexact sn eq_refl k x Hk), <- apply_all_app, fmap_drop, fmap_take.
      do 3 f_equal. rewrite <- (take_drop (S k) (take (S i) (flat hist).*2)) at 2. by rewrite take_take, Nat.min_l by lia.
  - rewrite (read_hist (disk s) hist); [|done|].
    2:{ intros n cs Hin Hn. destruct (inv_missing _ _ HI n cs Hin Hn) as (x & Hx & _). congruence. }
    assert (E : filter (newer None) (flat hist) = drop 0 (flat hist)).
    { by rewrite drop_0, newer_all. }
    rewrite E. edestruct (replay_to (flat hist) 0 i id c) as [t ->]; [done|done|lia|done|].
    exists t. by rewrite drop_0, fmap_take.
Qed.

(** ** A crash in the middle of a write *)

(** The disk of [d] with more text at the end of segment [n]. *)
Definition with_tail d (n : Z) cs (t : Str) : Disk V :=
  mkDisk (<[n := mkFile (Some (seg_text cs ++ t)) None]> (segs d)) (snap_gz d) (snap_json d).

Lemma with_tail_dom d n cs t f : segs d !! n = Some f -> dom (segs (with_tail d n cs t)) = dom (segs d).
Proof. intros Hn. cbn. rewrite dom_insert_L. apply elem_of_dom_2 in Hn. set_solver. Qed.

Lemma readSegmentLines_other d n cs t m : m <> n -> readSegmentLines (with_tail d n cs t) m = readSegmentLines d m.
Proof. intros Hne. unfold readSegmentLines, file_of. cbn. by rewrite lookup_insert_ne. Qed.

Lemma filter_notin (l : list Z) (P : Z -> Prop) `{forall x, Decision (P x)} n : n ∉ l -> n ∉ filter P l.
Proof. intros Hn [_ Hin]%list_elem_of_filter. done. Qed.

(** The reader goes on into the tail. *)
Lemma read_tail d front n cs t after :
  wal_inv d (front ++ [(n, cs)]) -> segs d !! n = Some (mkFile (Some (seg_text cs)) None) ->
  (forall a, after = Some a -> segment a <= n) ->
  read (with_tail d n cs t) after =
  read d after ++ read_lines n (Z.of_nat (length cs)) (split_lines t) after.
Proof.
  intros HI Hfile Hafter. unfold read.
  assert (Hsegs : segments (with_tail d n cs t) = segments d) by (unfold segments; by erewrite with_tail_dom).
  rewrite Hsegs, (segments_hist _ _ HI), fmap_app, filter_app. cbn [fmap list_fmap fst].
  rewrite filter_cons_True by (by apply elem_of_dom_2 in Hfile). cbn [filter list_filter].
  rewrite !fmap_app, !join_app. cbn [fmap list_fmap]. rewrite !join_cons. cbn [mjoin list_join].
  assert (Hlt : match after with Some a => n <? segment a | None => false end = false).
  { destruct after as [a|]; [|done]. specialize (Hafter a eq_refl). lia. }
  rewrite Hlt, !app_nil_r, <- app_assoc. f_equal.
  - f_equal. apply list_fmap_ext. intros i m Hm. apply list_elem_of_lookup_2, list_elem_of_filter in Hm as [_ Hm].
    pose proof (proj1 (ascending_snoc _ _ _) (inv_ascending _ _ HI)) as [_ Hasc].
    apply list_elem_of_fmap in Hm as ([m' ds] & -> & Hin). specialize (Hasc _ _ Hin). cbn [fst].
    by rewrite readSegmentLines_other by lia.
  - assert (E : readSegmentLines (with_tail d n cs t) n = (serializeCommit <$> cs) ++ split_lines t).
    { unfold readSegmentLines, file_of. cbn. rewrite lookup_insert_eq. cbn. apply split_seg_text. }
    assert (E0 : readSegmentLines d n = (serializeCommit <$> cs) ++ [[]]).
    { unfold readSegmentLines. rewrite (file_of_Some _ _ _ Hfile). cbn.
      rewrite <- (app_nil_r (seg_text cs)), split_seg_text. done. }
    rewrite E, E0, !read_lines_entries, Z.add_0_l. cbn [read_lines blank forallb]. by rewrite app_nil_r.
Qed.

(** What is read from the tail is applied after everything else. *)
Lemma recovery_tail d front n cs t :
  wal_inv d (front ++ [(n, cs)]) -> segs d !! n = Some (mkFile (Some (seg_text cs)) None) ->
  exists after, store (doLoadCache (with_tail d n cs t)) =
    apply_all (apply_all ∅ (commits (front ++ [(n, cs)])))
      (read_lines n (Z.of_nat (length cs)) (split_lines t) after).*2 /\
    forall a i, after = Some a -> 0 <= i -> 0 < compareCommitIds (mkId n (Z.of_nat (length cs) + i)) a.
Proof.
  intros HI Hfile. set (after := commitId <$> load d).
  assert (Hold : forall a, after = Some a -> exists p, p ∈ flat (front ++ [(n, cs)]) /\ p.1 = a).
  { intros a Ha. unfold after in Ha. destruct (load d) as [s|] eqn:El; [|done]. injection Ha as <-.
    destruct (inv_snapshots _ _ HI s (load_stored _ _ El)) as (k & j & c & Hk & _).
    exists (commitId s, c). split; [by eapply list_elem_of_lookup_2|done]. }
  assert (Hseg : forall a, after = Some a -> segment a <= n /\ (segment a = n -> offset a < Z.of_nat (length cs))).
  { intros a (p & Hp & <-)%Hold. pose proof (inv_ascending _ _ HI) as Hasc.
    apply flat_elem in Hp as (m & ds & Hin & Hp). pose proof (after_last _ _ _ _ _ Hasc Hin).
    destruct (entries_segment _ _ _ _ Hp) as [Hs _]. split; [lia|]. intros E. assert (m = n) as Em by lia. rewrite Em in Hin, Hp.
    rewrite (hist_functional _ n ds cs Hasc Hin) in Hp by set_solver.
    apply list_elem_of_lookup in Hp as [i Hi]. unfold entries_from in Hi. rewrite list_lookup_imap in Hi.
    destruct (cs !! i) eqn:Ei; [|done]. cbn in Hi. injection Hi as <-. apply lookup_lt_Some in Ei. cbn. lia. }
  exists after. split.
  - pose proof (recovery _ _ HI) as Hrec. unfold doLoadCache in *. cbn [store] in *.
    change (load (with_tail d n cs t)) with (load d). fold after in Hrec |- *.
    rewrite (read_tail d front n cs t after HI Hfile) by (intros a Ha; by apply Hseg).
    rewrite foldl_app, Hrec. apply foldl_commits.
  - intros a i Ha Hi. destruct (Hseg a Ha) as [H1 H2]. rewrite compare_antisym.
    assert (compareCommitIds a (mkId n (Z.of_nat (length cs) + i)) < 0); [|lia].
    apply compare_lt. cbn. destruct (decide (segment a = n)); [right; split; [done|]|left; lia].
    specialize (H2 ltac:(done)). lia.
Qed.

(** A state a write starts from, once the segment is open. *)
Lemma torn_write_tail d hist w c m :
  wal_inv d hist -> writer_ok d hist w ->
  exists d1 front n cs, wal_inv d1 (front ++ [(n, cs)]) /\ flat (front ++ [(n, cs)]) = flat hist /\
    segs d1 !! n = Some (mkFile (Some (seg_text cs)) None) /\
    torn_write maxSegmentSize d w c m = with_tail d1 n cs (take m (commit_line c)).
Proof.
  intros HI Hw. unfold torn_write. pose proof (prepare_ok d hist w HI Hw) as Hp.
  destruct (prepare maxSegmentSize d w) as [d1 w1]. destruct Hp as (h1 & H1 & Hw1 & Hh & Hf).
  destruct (Hw1 Hh) as (front & cs & -> & Hoff & Hfile).
  exists d1, front, (currentSegment w1), cs. split_and!; [done..|]. by apply (append_last _ front).
Qed.

Lemma read_one n off l after :
  (forall a, after = Some a -> 0 < compareCommitIds (mkId n off) a) ->
  read_lines n off [l] after =
  if blank l then [] else match deserializeCommit l with Some c => [(mkId n off, c)] | None => [] end.
Proof.
  intros Ha. cbn. destruct (blank l); [done|].
  replace (match after with Some a => compareCommitIds (mkId n off) a <=? 0 | None => false end) with false; [done|].
  destruct after as [a|]; [|done]. specialize (Ha a eq_refl). lia.
Qed.

Lemma read_trailing n off l after : read_lines n off [l; []] after = read_lines n off [l] after.
Proof. cbn. by repeat case_match. Qed.

Lemma split_torn c m :
  split_lines (take m (commit_line c)) =
  if (length (serializeCommit c) <? m)%nat then [serializeCommit c; []] else [take m (serializeCommit c)].
Proof.
  unfold commit_line. destruct (Nat.ltb_spec (length (serializeCommit c)) m).
  - rewrite take_ge by (rewrite length_app; cbn; lia). by rewrite split_lines_line by apply format_one_line.
  - rewrite take_app_le by lia. apply split_lines_last. intros Hin%elem_of_take. destruct Hin as (i & Hi & _).
    apply list_elem_of_lookup_2 in Hi. by apply (format_one_line c).
Qed.

(** A crash at any point of a write loses no acknowledged commit and applies the
    one being written completely or not at all. *)
Theorem torn_write_atomic s c m :
  wal_reachable s -> raced s = false ->
  store (doLoadCache (torn_write maxSegmentSize (disk s) (writer s) c m)) =
  apply_all ∅ ((acked s).*2 ++ if (length (serializeCommit c) <=? m)%nat then [c] else []).
Proof.
  intros Hr Hnr. destruct (wal_reachable_inv s Hr Hnr) as [hist [HI Hw Hf _ _ _]].
  destruct (torn_write_tail _ _ _ c m HI Hw) as (d1 & front & n & cs & H1 & Hf1 & Hfile & ->).
  destruct (recovery_tail d1 front n cs (take m (commit_line c)) H1 Hfile) as (after & -> & Hafter).
  rewrite apply_all_app. unfold commits. rewrite Hf1, Hf. f_equal. rewrite split_torn.
  assert (Hnew : forall a, after = Some a -> 0 < compareCommitIds (mkId n (Z.of_nat (length cs))) a).
  { intros a Ha. pose proof (Hafter a 0 Ha ltac:(lia)) as Hc. by rewrite Z.add_0_r in Hc. }
  destruct (Nat.ltb_spec (length (serializeCommit c)) m).
  - rewrite read_trailing, read_one, format_not_blank, format_roundtrip by done.
    by destruct (Nat.leb_spec (length (serializeCommit c)) m); [|lia].
  - rewrite read_one by done. destruct (Nat.leb_spec (length (serializeCommit c)) m).
    + rewrite take_ge by lia. by rewrite format_not_blank, format_roundtrip.
    + destruct (blank _); [done|]. rewrite (format_cut c); [done|apply prefix_take|].
      intros E%(f_equal length). rewrite length_take in E. lia.
Qed.

Lemma blank_app l1 l2 : blank (l1 ++ l2) = blank l1 && blank l2.
Proof. apply forallb_app. Qed.

(** When a crash left part of a line, the next session appends its first commit
    to that very line: the commit is acknowledged, but a later restart does not
    find it, nor a commit that had been written except for its newline. *)
Theorem torn_line_swallows_commit s c e m :
  wal_reachable s -> raced s = false -> (0 < m <= length (serializeCommit c))%nat ->
  let d1 := torn_write maxSegmentSize (disk s) (writer s) c m in
  let '(d2, w2, id) := write maxSegmentSize d1 new_writer e in
  segment id = maxSegment d1 -> store (doLoadCache d2) = apply_all ∅ (acked s).*2.
Proof.
  intros Hr Hnr Hm. destruct (wal_reachable_inv s Hr Hnr) as [hist [HI Hw Hf _ _ _]]. cbn zeta.
  destruct (torn_write_tail _ _ _ c m HI Hw) as (d1 & front & n & cs & H1 & Hf1 & Hfile & ->).
  set (p := take m (commit_line c)). set (d2 := with_tail d1 n cs p).
  assert (Hp : p = take m (serializeCommit c)) by (unfold p, commit_line; by rewrite take_app_le by lia).
  assert (Hmax : maxSegment d2 = n).
  { unfold maxSegment. unfold d2. erewrite with_tail_dom by done. by apply (maxSegment_last d1 front n cs). }
  assert (Hpos : 0 < n).
  { pose proof (inv_positive _ _ H1) as Hpos. rewrite Forall_app, Forall_singleton in Hpos. by destruct Hpos. }
  assert (Hfile2 : file_of d2 n = mkFile (Some (seg_text cs ++ p)) None).
  { apply file_of_Some. cbn. by rewrite lookup_insert_eq. }
  unfold write, prepare. cbn [handle new_writer]. unfold openSegment. rewrite Hmax.
  destruct (Z.ltb_spec 0 n); [|lia]. rewrite Hfile2. cbn [gz plain].
  rewrite bool_decide_eq_false_2 by (by intros [? ?]).
  change (default [] (Some (seg_text cs ++ p))) with (seg_text cs ++ p).
  destruct ((byteSize (seg_text cs ++ p) <? maxSegmentSize) && (lineCount (seg_text cs ++ p) <? MAX_SEGMENT_LINES)) eqn:Efit.
  2:{ unfold start_segment. cbn [currentSize Z.ltb Z.compare andb currentSegment]. cbn. intros E. lia. }
  apply andb_true_iff in Efit as [Ef1 Ef2]. cbn [currentSize currentOffset currentSegment].
  replace ((maxSegmentSize <=? byteSize (seg_text cs ++ p)) || (MAX_SEGMENT_LINES <=? lineCount (seg_text cs ++ p)))
    with false by (symmetry; apply orb_false_iff; split; lia).
  rewrite andb_false_r. cbn [currentSegment]. intros _.
  assert (E : append (open_append d2 n) n (commit_line e) = with_tail d1 n cs (p ++ commit_line e)).
  { unfold append, open_append. rewrite Hfile2. unfold put_file at 2. cbn [plain gz].
    unfold put_file, file_of. cbn. rewrite !lookup_insert_eq. cbn. rewrite !insert_insert_eq.
    unfold with_tail. by rewrite <- app_assoc. }
  rewrite E. destruct (recovery_tail d1 front n cs (p ++ commit_line e) H1 Hfile) as (after & -> & Hafter).
  unfold commits. rewrite Hf1, Hf. unfold commit_line. rewrite Hp, app_assoc, split_lines_line.
  2:{ rewrite elem_of_app. intros [Hin|Hin]; [|by apply (format_one_line e)]. apply elem_of_take in Hin as (i & Hi & _).
      apply list_elem_of_lookup_2 in Hi. by apply (format_one_line c). }
  cbn [split_lines]. rewrite read_trailing, read_one.
  - rewrite blank_app, format_not_blank, andb_false_r. rewrite (format_glued c); [done|apply prefix_take|].
    intros E1%(f_equal length). rewrite length_take in E1. cbn in E1. lia.
  - intros a Ha. pose proof (Hafter a 0 Ha ltac:(lia)) as Hc. by rewrite Z.add_0_r in Hc.
Qed.

End Recovery.

(** ** A concrete format

    A commit as the binary digits of its number, between braces: it has every
    property the log needs of the JSON format, and can be evaluated. *)

Module Toy.

Section Toy.

Context {V : Type} `{Countable V}.

Definition op_sum (op : WalOp V) : (Str * Values V) + (Str * option (list Str)) :=
  match op with Upd k v => inl (k, v) | Del k ks => inr (k, ks) end.

Definition sum_op (x : (Str * Values V) + (Str * option (list Str))) : WalOp V :=
  match x with inl (k, v) => Upd k v | inr (k, ks) => Del k ks end.

#[global] Instance WalOp_eq_dec : EqDecision (WalOp V).
Proof. refine (inj_eq_dec op_sum). by intros [??|??] [??|??] [=]; subst. Defined.

#[global] Instance WalOp_countable : Countable (WalOp V).
Proof. apply (inj_countable' op_sum sum_op). by intros []. Defined.

#[global] Instance WalCommit_eq_dec : EqDecision (WalCommit V).
Proof. solve_decision. Defined.

#[global] Instance WalCommit_countable : Countable (WalCommit V).
Proof. apply (inj_countable' (fun c => (ts c, ops c)) (fun p => mkCommit p.1 p.2)). by intros []. Defined.

Fixpoint bits (p : positive) : Str :=
  match p with xH => [125] | xO p => 48 :: bits p | xI p => 49 :: bits p end.

Fixpoint number (s : Str) : option positive :=
  match s with
  | 125 :: [] => Some xH
  | 48 :: s => xO <$> number s
  | 49 :: s => xI <$> number s
  | _ => None
  end.

Definition show (c : WalCommit V) : Str := 123 :: bits (encode c).

Definition parse (s : Str) : option (WalCommit V) :=
  match s with 123 :: s => number s ≫= decode | _ => None end.

Lemma number_bits p : number (bits p) = Some p.
Proof. induction p as [p IH|p IH|]; cbn [bits number]; [by rewrite IH..|done]. Qed.

Lemma number_inv s p : number s = Some p -> s = bits p.
Proof.
  revert p. induction s as [|u s IH]; intros p; [done|]. cbn [number].
  repeat case_match; try done; intros Hs; simplify_option_eq; cbn; try done; f_equal; auto.
Qed.

Lemma parse_inv s c : parse s = Some c -> exists p, s = 123 :: bits p.
Proof.
  unfold parse. repeat case_match; try done. destruct (number _) as [q|] eqn:E; [|done].
  intros _. exists q. f_equal. by apply number_inv.
Qed.

Lemma bits_chars p u : u ∈ bits p -> u = 48 \/ u = 49 \/ u = 125.
Proof. induction p; cbn; rewrite ?list_elem_of_singleton, ?elem_of_cons; naive_solver. Qed.

Lemma bits_prefix p q : bits p `prefix_of` bits q -> bits p = bits q.
Proof.
  revert q. induction p as [p IH|p IH|]; intros [q|q|] Hp; cbn in *; try done;
    try (pose proof (prefix_cons_inv_1 _ _ _ _ Hp); discriminate); try (f_equal; apply IH; by eapply prefix_cons_inv_2).
Qed.

#[export, refine] Instance toy_format : CommitFormat V := {| serializeCommit := show; deserializeCommit := parse |}.
Proof.
  - intros c. unfold parse, show. rewrite number_bits. apply decode_encode.
  - intros c [Hn|Hn%bits_chars]%elem_of_cons; unfold newline in *; lia.
  - done.
  - intros c p Hp Hne. destruct (parse p) as [x|] eqn:E; [|done]. destruct (parse_inv _ _ E) as [q ->].
    destruct Hne. unfold show in *. f_equal. apply bits_prefix. by eapply prefix_cons_inv_2.
  - intros c d p Hp Hne. destruct (parse (p ++ show d)) as [x|] eqn:E; [|done].
    destruct (parse_inv _ _ E) as [q Hq]. destruct p as [|u p]; [done|]. injection Hq as _ Hq.
    assert (Hin : 123 ∈ bits q) by (rewrite <- Hq; unfold show; set_solver).
    apply bits_chars in Hin. lia.
Defined.

End Toy.

End Toy.

(** ** Witnesses *)

Section Witness.

#[local] Existing Instance Toy.toy_format.

(** Two commits on an empty disk, with segments that hold one commit each. *)
Definition put (k v : Z) : WalCommit Z := mkCommit 1 [Upd [97] {[ [k] := v ]}].

Definition committed (s : System) (c : WalCommit Z) : System :=
  let '(d, w, id) := write 8 (disk s) (writer s) c in
  mkSystem d w (Some id) (last_snapshot s) (saving s) (acked s ++ [(id, c)]) (raced s).

Lemma committed_step s c : wal_step 8 s (committed s c).
Proof. unfold committed. destruct (write _ _ _ _) as [[d w] id] eqn:E. by apply wal_commit. Defined.

Definition one_commit : System := committed empty_system (put 1 5).
Definition two_commits : System := committed one_commit (put 2 6).

Lemma one_commit_reachable : wal_reachable 8 one_commit.
Proof. apply rtc_once, committed_step. Defined.

Lemma two_commits_reachable : wal_reachable 8 two_commits.
Proof. eapply rtc_r; [apply one_commit_reachable|apply committed_step]. Defined.

(** A snapshot of both commits is saved, the cleaner deletes the first segment,
    and the process restarts. *)
Definition both : WalSnapshot Z := mkSnapshot (mkId 2 0) 1 (apply_all ∅ [put 1 5; put 2 6]).
Definition in_save : System := with_saving (disk two_commits) (Some (mkSaving true both false)) two_commits.
Definition saved : System := with_saving (save_rename (disk in_save) true 9 both) (Some (mkSaving true both true)) in_save.
Definition noted : System := note saved both.
Definition cleaned : System := with_disk (delete_plain (disk noted) 1) noted.

Lemma cleaned_reachable : wal_reachable 8 (restart cleaned).
Proof.
  eapply rtc_r; [|apply wal_crash]. eapply rtc_r; [|by apply (wal_clean_plain 8 noted (mkId 2 0) 1)].
  eapply rtc_r; [|by apply (wal_snapshot_noted 8 saved true both)].
  eapply rtc_r; [|by apply (wal_snapshot_rename 8 in_save true both 9)].
  eapply rtc_r; [apply two_commits_reachable|]. apply (wal_snapshot 8 two_commits true both); [done|done|].
  exists 1%nat, 2%nat, (put 2 6). split_and!; [vm_compute; reflexivity|vm_compute; lia|vm_compute; lia|vm_compute; reflexivity].
Defined.


Lemma torn_write_atomic_witness :
  store (doLoadCache (torn_write 8 (disk one_commit) (writer one_commit) (put 2 6) 3)) =
  {[ [97] := {[ [1] := 5 ]} ]}.
Proof. rewrite (torn_write_atomic 8 one_commit (put 2 6) 3 one_commit_reachable eq_refl). vm_compute. reflexivity. Defined.

(** The state after the first of two commits. *)
Lemma snapshotAtCommit_spec_witness :
  exists t, snapshotAtCommit (disk two_commits) (Some (mkId 1 0)) =
    Ok (mkSnapshot (mkId 1 0) t {[ [97] := {[ [1] := 5 ]} ]}).
Proof.
  pose proof (snapshotAtCommit_spec 8 two_commits 0 (mkId 1 0) (put 1 5) two_commits_reachable eq_refl) as Hs.
  assert (El : load (disk two_commits) = None) by (vm_compute; reflexivity). rewrite El in Hs.
  destruct Hs as [t Ht]; [vm_compute; reflexivity|done|]. exists t. rewrite Ht. vm_compute. reflexivity.
Defined.

(** With room in the segment, the commit after a torn one is lost. *)
Lemma torn_line_swallows_commit_witness :
  let d1 := torn_write 1000 empty_disk new_writer (put 1 5) 1 in
  let '(d2, w2, id) := write 1000 d1 new_writer (put 2 6) in store (doLoadCache d2) = ∅.
Proof.
  pose proof (torn_line_swallows_commit 1000 empty_system (put 1 5) (put 2 6) 1) as Ht.
  cbn zeta in Ht |- *. cbn [disk writer acked empty_system] in Ht.
  destruct (write 1000 (torn_write 1000 empty_disk new_writer (put 1 5) 1) new_writer (put 2 6)) as [[d2 w2] id] eqn:E.
  apply Ht; [apply rtc_refl|done|cbn; lia|].
  apply (f_equal snd) in E. cbn [snd] in E. subst id. vm_compute. reflexivity.
Defined.

(** [#runSnapshot] notes the last commit when the snapshot has been saved, not
    the one it holds.  Two more commits during the save, and the cleaner deletes
    the segment of the second one, which is in no snapshot: it is lost. *)
Definition first_only : WalSnapshot Z := mkSnapshot (mkId 1 0) 1 (apply_all ∅ [put 1 5]).
Definition race_save : System := with_saving (disk one_commit) (Some (mkSaving true first_only false)) one_commit.
Definition race_commits : System := committed (committed race_save (put 2 6)) (put 3 7).
Definition race_saved : System :=
  with_saving (save_rename (disk race_commits) true 9 first_only) (Some (mkSaving true first_only true)) race_commits.
Definition race_noted : System := note race_saved first_only.
Definition race_cleaned : System := with_disk (delete_plain (disk race_noted) 2) race_noted.

Example clean_after_racing_snapshot :
  wal_reachable 8 race_cleaned /\ raced race_cleaned = true /\
  apply_all ∅ (acked race_cleaned).*2 = {[ [97] := {[ [1] := 5; [2] := 6; [3] := 7 ]} ]} /\
  store (doLoadCache (disk race_cleaned)) = {[ [97] := {[ [1] := 5; [3] := 7 ]} ]}.
Proof.
  split; [|vm_compute; split_and!; reflexivity].
  eapply rtc_r; [|by apply (wal_clean_plain 8 race_noted (mkId 3 0) 2)].
  eapply rtc_r; [|by apply (wal_snapshot_noted 8 race_saved true first_only)].
  eapply rtc_r; [|by apply (wal_snapshot_rename 8 race_commits true first_only 9)].
  do 2 (eapply rtc_r; [|apply committed_step]).
  eapply rtc_r; [apply one_commit_reachable|]. apply (wal_snapshot 8 one_commit true first_only); [done|done|].
  exists 0%nat, 1%nat, (put 1 5). split_and!; [vm_compute; reflexivity|vm_compute; lia|vm_compute; lia|vm_compute; reflexivity].
Qed.

End Witness.
