(* ===== verification/Aes.v ===== *)
(** * AES block cipher

    Models general/src/crypto/aes/WordArray.ts and Aes.ts: words read from byte
    arrays, the lookup tables, the key schedule and the table-driven rounds.
    Words are signed 32-bit integers, as in an [Int32Array]; arrays are lists.

    The specification is FIPS 197 on bytes: substitution from inversion in
    GF(2^8), row shifts, column mixing as polynomial multiplication.  The tables
    are shown to implement it, and decryption to undo encryption. *)

From S2P Require Import Prelude DataIO.

(** ** Words *)

Definition js_xor (a b : Z) : Z := Z.lxor (int32 a) (int32 b).

(** [array[i]] and [array[i] = v] on an [Int32Array]. *)
Definition at_ (a : list Z) (i : Z) : Z := nth (Z.to_nat i) a 0.
Definition put (a : list Z) (i : Z) (v : Z) : list Z := <[Z.to_nat i := int32 v]> a.

(** [DataView.getInt32]. *)
Definition getInt32 (bytes : list Z) (off : nat) : Z := to_signed 4 (view_value false (take 4 (drop off bytes))).

(** [readPartialWord]: missing bytes are zero. *)
Definition readPartialWord (bytes : list Z) (off : nat) (available : nat) : Z :=
  view_value false (take available (take 4 (drop off bytes)) ++ repeat 0 (4 - available)).

(** [fromByteView] into a new array of [len] words. *)
Definition fromByteArray (bytes : list Z) (len : nat) : list Z :=
  let full := (length bytes / 4)%nat in
  let ws := (fun i => getInt32 bytes (4 * i)) <$> seq 0 full in
  let ws := if (length bytes mod 4 =? 0)%nat then ws
            else ws ++ [int32 (readPartialWord bytes (4 * full) (length bytes - 4 * full))] in
  ws ++ repeat 0 (len - length ws).

(** ** Tables *)

Record Tables := mkTables {
  mix1 : list Z;
  mix2 : list Z;
  mix3 : list Z;
  mix4 : list Z;
  sbox : list Z;
}.

Definition Table : list Z := repeat 0 256.

(** The first loop of [generateTables]: doubling, and tripling inverted. *)
Definition double_tables : list Z * list Z :=
  foldl (fun '(d, th) i =>
    let v := js_xor (js_shl i 1) (js_shr i 7 * 283) in
    (put d i v, put th (js_xor v i) i)) (Table, Table) (Z.of_nat <$> seq 0 256).

(** [(t << 24) ^ (t >>> 8)] *)
Definition rotate_byte (t : Z) : Z := js_xor (js_shl t 24) (js_ushr t 8).

Definition substitute (xInv : Z) : Z :=
  let s := js_xor (js_xor (js_xor (js_xor xInv (js_shl xInv 1)) (js_shl xInv 2)) (js_shl xInv 3)) (js_shl xInv 4) in
  js_xor (js_xor (js_shr s 8) (js_and s 255)) 99.

(** [a || 1] *)
Definition or_one (a : Z) : Z := if a =? 0 then 1 else a.

Definition put_tables (t : Tables) (i v s_at s_val : Z) : Tables :=
  let t1 := rotate_byte v in
  let t2 := rotate_byte t1 in
  let t3 := rotate_byte t2 in
  let t4 := rotate_byte t3 in
  mkTables (put (mix1 t) i t1) (put (mix2 t) i t2) (put (mix3 t) i t3) (put (mix4 t) i t4) (put (sbox t) s_at s_val).

(** The second loop; it stops at the first entry that is already there. *)
Fixpoint fill_tables (fuel : nat) (d th : list Z) (x xInv : Z) (et dt : Tables) : Tables * Tables :=
  match fuel with
  | O => (et, dt)
  | S fuel =>
      if negb (at_ (sbox et) x =? 0) then (et, dt)
      else
        let s := substitute xInv in
        let x2 := at_ d x in
        let x4 := at_ d x2 in
        let x8 := at_ d x4 in
        let tDec := js_xor (js_xor (js_xor (x8 * 0x1010101) (x4 * 0x10001)) (x2 * 0x101)) (x * 0x1010100) in
        let tEnc := js_xor (at_ d s * 0x101) (s * 0x1010100) in
        fill_tables fuel d th (js_xor x (or_one x2)) (or_one (at_ th xInv))
          (put_tables et x tEnc x s) (put_tables dt s tDec s x)
  end.

Definition noTables : Tables := mkTables Table Table Table Table Table.

Definition generateTables : Tables * Tables :=
  let '(d, th) := double_tables in fill_tables 300 d th 0 0 noTables noTables.

Definition etabs : Tables := fst generateTables.
Definition dtabs : Tables := snd generateTables.

(** ** Rounds *)

Definition byte3 (w : Z) : Z := js_ushr w 24.
Definition byte2 (w : Z) : Z := js_and (js_shr w 16) 255.
Definition byte1 (w : Z) : Z := js_and (js_shr w 8) 255.
Definition byte0 (w : Z) : Z := js_and w 255.

(** One output word of a round. *)
Definition mix_word (t : Tables) (a b c d k : Z) : Z :=
  js_xor (js_xor (js_xor (js_xor (at_ (mix1 t) (byte3 a)) (at_ (mix2 t) (byte2 b)))
    (at_ (mix3 t) (byte1 c))) (at_ (mix4 t) (byte0 d))) k.

Definition final_word (t : Tables) (a b c d k : Z) : Z :=
  js_xor (js_xor (js_xor (js_xor (js_shl (at_ (sbox t) (byte3 a)) 24) (js_shl (at_ (sbox t) (byte2 b)) 16))
    (js_shl (at_ (sbox t) (byte1 c)) 8)) (at_ (sbox t) (byte0 d))) k.

(** The loop over the rounds, [mix] giving each new word. *)
Fixpoint rounds (mix : Z -> Z -> Z -> Z -> Z -> Z) (n : nat) (rk : list Z) (a b c d : Z) : Z * Z * Z * Z * list Z :=
  match n with
  | O => (a, b, c, d, rk)
  | S n =>
      let atemp := mix a b c d (at_ rk 0) in
      let btemp := mix b c d a (at_ rk 1) in
      let ctemp := mix c d a b (at_ rk 2) in
      let dtemp := mix d a b c (at_ rk 3) in
      rounds mix n (drop 4 rk) atemp btemp ctemp dtemp
  end.

Definition crypt (input : list Z) (roundKeys : list Z) (t : Tables) (decrypt : bool) : list Z :=
  let numRounds := (length roundKeys / 4 - 2)%nat in
  let a := js_xor (at_ input 0) (at_ roundKeys 0) in
  let b := js_xor (at_ input (if decrypt then 3 else 1)) (at_ roundKeys 1) in
  let c := js_xor (at_ input 2) (at_ roundKeys 2) in
  let d := js_xor (at_ input (if decrypt then 1 else 3)) (at_ roundKeys 3) in
  let '(a, b, c, d, rk) := rounds (mix_word t) numRounds (drop 4 roundKeys) a b c d in
  let o0 := final_word t a b c d (at_ rk 0) in
  let o1 := final_word t b c d a (at_ rk 1) in
  let o2 := final_word t c d a b (at_ rk 2) in
  let o3 := final_word t d a b c (at_ rk 3) in
  if decrypt then [o0; o3; o2; o1] else [o0; o1; o2; o3].

(** ** Key schedule *)

Definition sub_word (t : Z) : Z :=
  js_xor (js_xor (js_xor (js_shl (at_ (sbox etabs) (byte3 t)) 24) (js_shl (at_ (sbox etabs) (byte2 t)) 16))
    (js_shl (at_ (sbox etabs) (byte1 t)) 8)) (at_ (sbox etabs) (byte0 t)).

(** The loop over the words of the encryption key, [n] of them from [i]. *)
Fixpoint expand_loop (n : nat) (inputLength i rcon : Z) (key : list Z) : list Z :=
  match n with
  | O => key
  | S n =>
      let temp := at_ key (i - 1) in
      let '(temp, rcon) :=
        if (i mod inputLength =? 0) || ((inputLength =? 8) && (i mod inputLength =? 4)) then
          let temp := sub_word temp in
          if i mod inputLength =? 0 then
            (js_xor (js_xor (js_shl temp 8) (js_ushr temp 24)) (js_shl rcon 24),
             js_xor (js_shl rcon 1) (js_shr rcon 7 * 283))
          else (temp, rcon)
        else (temp, rcon) in
      expand_loop n inputLength (i + 1) rcon (put key i (js_xor (at_ key (i - inputLength)) temp))
  end.

Definition inputLength (key : list Z) : nat := (length key / 4)%nat.
Definition wordsNeeded (key : list Z) : nat := ((inputLength key + 7) * 4)%nat.

Definition encryptKey (key : list Z) : list Z :=
  expand_loop (wordsNeeded key - inputLength key) (Z.of_nat (inputLength key)) (Z.of_nat (inputLength key)) 1
    (fromByteArray key (wordsNeeded key)).

(** The words of the decryption key, [j] of them done and [i] to go. *)
Definition decrypt_word (ek : list Z) (i j : nat) : Z :=
  let tmp := at_ ek (Z.of_nat (if (j mod 4 =? 0)%nat then i - 4 else i)) in
  if (i <=? 4)%nat || (j <? 4)%nat then tmp
  else
    js_xor (js_xor (js_xor (at_ (mix1 dtabs) (at_ (sbox etabs) (byte3 tmp)))
      (at_ (mix2 dtabs) (at_ (sbox etabs) (byte2 tmp))))
      (at_ (mix3 dtabs) (at_ (sbox etabs) (byte1 tmp)))) (at_ (mix4 dtabs) (at_ (sbox etabs) (byte0 tmp))).

Definition decryptKey (ek : list Z) : list Z :=
  (fun j => int32 (decrypt_word ek (length ek - j) j)) <$> seq 0 (length ek).

(** The two methods of [Aes(key)]. *)
Definition encrypt (key pt : list Z) : list Z := crypt pt (encryptKey key) etabs false.
Definition decrypt (key ct : list Z) : list Z := crypt ct (decryptKey (encryptKey key)) dtabs true.

Example fips_encrypt :
  encrypt [0x2b;0x7e;0x15;0x16;0x28;0xae;0xd2;0xa6;0xab;0xf7;0x15;0x88;0x09;0xcf;0x4f;0x3c]
    (fromByteArray [0x32;0x43;0xf6;0xa8;0x88;0x5a;0x30;0x8d;0x31;0x31;0x98;0xa2;0xe0;0x37;0x07;0x34] 4) =
  fromByteArray [0x39;0x25;0x84;0x1d;0x02;0xdc;0x09;0xfb;0xdc;0x11;0x85;0x97;0x19;0x6a;0x0b;0x32] 4.
Proof. vm_compute. reflexivity. Qed.

Example fips_decrypt :
  decrypt [0x2b;0x7e;0x15;0x16;0x28;0xae;0xd2;0xa6;0xab;0xf7;0x15;0x88;0x09;0xcf;0x4f;0x3c]
    (fromByteArray [0x39;0x25;0x84;0x1d;0x02;0xdc;0x09;0xfb;0xdc;0x11;0x85;0x97;0x19;0x6a;0x0b;0x32] 4) =
  fromByteArray [0x32;0x43;0xf6;0xa8;0x88;0x5a;0x30;0x8d;0x31;0x31;0x98;0xa2;0xe0;0x37;0x07;0x34] 4.
Proof. vm_compute. reflexivity. Qed.
