(* ===== verification/AesSpec.v ===== *)
(** * AES block cipher: FIPS 197

    The specification of the cipher on bytes, and that the table-driven code of
    Aes.v implements it: every key schedule and every block encrypts as FIPS 197
    says, and decryption undoes encryption. *)

From Stdlib Require Import Btauto.
From S2P Require Import Prelude DataIO Aes.

(** ** The specification *)

Module Fips.

(** Multiplication by x in GF(2^8), and by a polynomial of [n] bits. *)
Definition xtime (b : Z) : Z := if 128 <=? b then Z.lxor (2 * b) 0x11b else 2 * b.

Fixpoint gmul_bits (n : nat) (a b : Z) : Z :=
  match n with
  | O => 0
  | S n => Z.lxor (if Z.odd a then b else 0) (gmul_bits n (a / 2) (xtime b))
  end.

Definition gmul (a b : Z) : Z := gmul_bits 8 a b.

(** The inverse is the 254th power; zero is mapped to itself. *)
Definition inverse (b : Z) : Z := Nat.iter 253 (gmul b) b.

Definition affine_bit (b : Z) (i : Z) : bool :=
  xorb (xorb (xorb (xorb (xorb (Z.testbit b i) (Z.testbit b ((i + 4) mod 8))) (Z.testbit b ((i + 5) mod 8)))
    (Z.testbit b ((i + 6) mod 8))) (Z.testbit b ((i + 7) mod 8))) (Z.testbit 0x63 i).

Definition SBox (b : Z) : Z :=
  let inv := inverse b in
  foldr (fun i acc => acc + Z.b2z (affine_bit inv i) * 2 ^ i) 0 [0; 1; 2; 3; 4; 5; 6; 7].

(** The state: four columns of four bytes. *)
Definition SubBytes (s : list (list Z)) : list (list Z) := map (map SBox) s.

Definition cell (s : list (list Z)) (row col : nat) : Z := nth row (nth col s []) 0.

Definition ShiftRows (s : list (list Z)) : list (list Z) :=
  (fun col => (fun row => cell s row ((col + row) mod 4)) <$> [0; 1; 2; 3]%nat) <$> [0; 1; 2; 3]%nat.

Definition combine (m0 m1 m2 m3 : Z) (c : list Z) : Z :=
  Z.lxor (Z.lxor (Z.lxor (gmul m0 (nth 0 c 0)) (gmul m1 (nth 1 c 0))) (gmul m2 (nth 2 c 0))) (gmul m3 (nth 3 c 0)).

(** Multiplication of a column by the circulant matrix of [m0 m1 m2 m3]. *)
Definition circulant (m0 m1 m2 m3 : Z) (c : list Z) : list Z :=
  [combine m0 m1 m2 m3 c; combine m3 m0 m1 m2 c; combine m2 m3 m0 m1 c; combine m1 m2 m3 m0 c].

Definition MixColumn : list Z -> list Z := circulant 2 3 1 1.
Definition InvMixColumn : list Z -> list Z := circulant 14 11 13 9.

Definition xor_bytes (a b : list Z) : list Z := zip_with Z.lxor a b.

Definition AddRoundKey (s k : list (list Z)) : list (list Z) := zip_with xor_bytes s k.

(** [Cipher]: the round keys are four columns each. *)
Definition Cipher (s : list (list Z)) (first : list (list Z)) (keys : list (list (list Z))) (final : list (list Z))
    : list (list Z) :=
  let s := AddRoundKey s first in
  let s := foldl (fun s k => AddRoundKey (MixColumn <$> ShiftRows (SubBytes s)) k) s keys in
  AddRoundKey (ShiftRows (SubBytes s)) final.

(** [KeyExpansion] on words of four bytes: [w] holds the words so far, and [n]
    more follow. *)
Definition RotWord (w : list Z) : list Z := match w with a :: t => t ++ [a] | [] => [] end.
Definition Rcon (i : nat) : list Z := [Nat.iter (i - 1) xtime 1; 0; 0; 0].

Fixpoint expansion (Nk n : nat) (w : list (list Z)) : list (list Z) :=
  match n with
  | O => w
  | S n =>
      let i := length w in
      let temp := nth (i - 1) w [] in
      let temp :=
        if (i mod Nk =? 0)%nat then xor_bytes (SBox <$> RotWord temp) (Rcon (i / Nk))
        else if (6 <? Nk)%nat && (i mod Nk =? 4)%nat then SBox <$> temp else temp in
      expansion Nk n (w ++ [xor_bytes (nth (i - Nk) w []) temp])
  end.

(** Lists in groups of four. *)
Fixpoint fours {A} (l : list A) : list (list A) :=
  match l with a :: b :: c :: d :: l => [a; b; c; d] :: fours l | _ => [] end.

Definition KeyExpansion (key : list Z) : list (list Z) :=
  let Nk := (length key / 4)%nat in expansion Nk ((Nk + 7) * 4 - Nk) (fours key).

(** The cipher on 16 bytes. *)
Definition EncryptBlock (key block : list Z) : list Z :=
  match fours (KeyExpansion key) with
  | first :: rest => mjoin (Cipher (fours block) first (removelast rest) (List.last rest []))
  | [] => []
  end.

End Fips.

Import Fips.

(** ** Words and bytes *)

(** The bytes of a word, the most significant first. *)
Definition wb (w : Z) : list Z := view_bytes false 4 w.

Definition wordOf (bs : list Z) : Z := to_signed 4 (view_value false bs).

Lemma js_xor_int32 a b : is_int32 (js_xor a b).
Proof.
  pose proof (int32_range a). pose proof (int32_range b). unfold js_xor, is_int32.
  assert (E : forall x, - 2 ^ 31 <= x < 2 ^ 31 <-> Z.shiftr x 31 = 0 \/ Z.shiftr x 31 = -1).
  { intros x. rewrite Z.shiftr_div_pow2 by lia. split; intros.
    - destruct (decide (0 <= x)); [left; apply Z.div_small; lia|right].
      symmetry. apply (Z.div_unique _ _ _ (x + 2 ^ 31)); lia.
    - pose proof (Z.div_mod x (2 ^ 31)). pose proof (Z.mod_pos_bound x (2 ^ 31)). lia. }
  rewrite E, Z.shiftr_lxor. apply E in H as [-> | ->]; apply E in H0 as [-> | ->]; vm_compute; auto.
Qed.

Lemma lxor_mod_div a b :
  Z.lxor a b mod 256 = Z.lxor (a mod 256) (b mod 256) /\ Z.lxor a b / 256 = Z.lxor (a / 256) (b / 256).
Proof.
  change 256 with (2 ^ 8). split.
  - rewrite <- !Z.land_ones by lia. apply Z.bits_inj'. intros i Hi.
    rewrite !Z.land_spec, !Z.lxor_spec, !Z.land_spec. destruct (Z.testbit (Z.ones 8) i); btauto.
  - rewrite <- !Z.shiftr_div_pow2 by lia. apply Z.shiftr_lxor.
Qed.

Lemma le_bytes_lxor n a b : le_bytes n (Z.lxor a b) = zip_with Z.lxor (le_bytes n a) (le_bytes n b).
Proof.
  revert a b. induction n as [|n IH]; intros a b; [done|]. cbn [le_bytes zip_with].
  destruct (lxor_mod_div a b) as [-> ->]. by rewrite IH.
Qed.

Lemma wb_cases w : wb w = [w / 2 ^ 24 mod 256; w / 2 ^ 16 mod 256; w / 2 ^ 8 mod 256; w mod 256].
Proof. unfold wb, view_bytes. cbn. rewrite !Z.div_div by lia. reflexivity. Qed.

Lemma wb_int32 w : wb (int32 w) = wb w.
Proof.
  unfold wb, view_bytes. f_equal.
  assert (E : forall x, le_bytes 4 (uint32 x) = le_bytes 4 x).
  { intros x. unfold uint32. rewrite <- (le_bytes_value (le_bytes 4 x)) by apply le_bytes_ok.
    by rewrite le_bytes_length, le_value_bytes. }
  by rewrite <- (E (int32 w)), uint32_int32, E.
Qed.

Lemma wb_xor a b : wb (js_xor a b) = xor_bytes (wb a) (wb b).
Proof.
  unfold js_xor. rewrite <- (wb_int32 a), <- (wb_int32 b). generalize (int32 a), (int32 b). intros x y.
  unfold wb, view_bytes, xor_bytes. rewrite le_bytes_lxor.
  generalize (le_bytes_length 4 x), (le_bytes_length 4 y).
  destruct (le_bytes 4 x) as [|? [|? [|? [|? [|]]]]], (le_bytes 4 y) as [|? [|? [|? [|? [|]]]]]; done.
Qed.

Lemma lxor_byte a b : is_byte a -> is_byte b -> is_byte (Z.lxor a b).
Proof.
  intros Ha Hb. unfold is_byte in *. destruct (lxor_mod_div a b) as [E _].
  rewrite <- (Z.mod_small a 256), <- (Z.mod_small b 256), <- E by lia. apply Z.mod_pos_bound. lia.
Qed.

Lemma xor_cancel u v : length u = length v -> xor_bytes (xor_bytes u v) v = u.
Proof.
  unfold xor_bytes. revert v. induction u as [|x u IH]; intros [|y v] Hl; try done. cbn.
  rewrite Z.lxor_assoc, Z.lxor_nilpotent, Z.lxor_0_r. f_equal. apply IH. by injection Hl.
Qed.

Lemma wb_inj a b : is_int32 a -> is_int32 b -> wb a = wb b -> a = b.
Proof.
  unfold is_int32. rewrite !wb_cases. intros Ha Hb [= H3 H2 H1 H0].
  assert (E : forall w, w mod 2 ^ 32 = (w / 2 ^ 24 mod 256) * 2 ^ 24 + (w / 2 ^ 16 mod 256) * 2 ^ 16 +
    (w / 2 ^ 8 mod 256) * 2 ^ 8 + w mod 256).
  { intros w. Z.div_mod_to_equations. lia. }
  pose proof (E a) as Ea. pose proof (E b) as Eb. rewrite H3, H2, H1, H0, <- Eb in Ea.
  Z.div_mod_to_equations. lia.
Qed.

(** The four byte selections of the rounds. *)
Lemma byte3_wb w : byte3 w = nth 0 (wb w) 0.
Proof.
  rewrite wb_cases. cbn [nth]. unfold byte3, js_ushr. rewrite Z.mod_small, Z.shiftr_div_pow2 by lia.
  unfold uint32. Z.div_mod_to_equations. lia.
Qed.

Lemma and_255 w : js_and w 255 = w mod 256.
Proof.
  unfold js_and. change (int32 255) with (Z.ones 8). rewrite Z.land_ones by lia. change (2 ^ 8) with 256.
  unfold int32. Z.div_mod_to_equations. lia.
Qed.

Lemma byte_shr w n : 0 <= n <= 24 -> js_and (js_shr w n) 255 = w / 2 ^ n mod 256.
Proof.
  intros Hn. rewrite and_255. unfold js_shr. rewrite (Z.mod_small n 32), Z.shiftr_div_pow2 by lia.
  apply Z.bits_inj'. intros i Hi. change 256 with (2 ^ 8). rewrite <- !Z.shiftr_div_pow2 by lia.
  destruct (decide (i < 8)).
  - rewrite !Z.mod_pow2_bits_low, !Z.shiftr_spec by lia. apply int32_testbit. lia.
  - by rewrite !Z.mod_pow2_bits_high by lia.
Qed.

Lemma byte2_wb w : byte2 w = nth 1 (wb w) 0.
Proof. rewrite wb_cases. cbn [nth]. apply byte_shr. lia. Qed.

Lemma byte1_wb w : byte1 w = nth 2 (wb w) 0.
Proof. rewrite wb_cases. cbn [nth]. apply byte_shr. lia. Qed.

Lemma byte0_wb w : byte0 w = nth 3 (wb w) 0.
Proof. rewrite wb_cases. apply and_255. Qed.

Lemma wb_byte w i : is_byte (nth i (wb w) 0).
Proof.
  pose proof (view_bytes_ok false 4 w) as Hok. fold (wb w) in Hok. destruct (decide (i < length (wb w))%nat) as [Hi|Hi].
  - eapply Forall_nth; [exact Hok|lia].
  - rewrite nth_overflow by lia. unfold is_byte. lia.
Qed.

(** ** The tables *)

Lemma forall_byte (P : Z -> Prop) `{forall x, Decision (P x)} :
  forallb_below 256 (fun x => bool_decide (P x)) = true -> forall x, is_byte x -> P x.
Proof. intros Hall x Hx. apply (bool_decide_eq_true_1 _ (forallb_below_spec _ _ Hall x Hx)). Qed.

Lemma sbox_correct : forall x, is_byte x -> at_ (sbox etabs) x = SBox x.
Proof. refine (forall_byte (fun x => _ = _) _). vm_compute. reflexivity. Qed.

Lemma sbox_byte : forall x, is_byte x -> 0 <= at_ (sbox etabs) x < 256.
Proof. refine (forall_byte (fun x => _ <= _ < _) _). vm_compute. reflexivity. Qed.

Lemma sbox_inverse : forall x, is_byte x -> at_ (sbox dtabs) (at_ (sbox etabs) x) = x.
Proof. refine (forall_byte (fun x => _ = _) _). vm_compute. reflexivity. Qed.

Definition etable_ok (x : Z) : Prop :=
  let s := at_ (sbox etabs) x in
  wb (at_ (mix1 etabs) x) = [gmul 2 s; gmul 1 s; gmul 1 s; gmul 3 s] /\
  wb (at_ (mix2 etabs) x) = [gmul 3 s; gmul 2 s; gmul 1 s; gmul 1 s] /\
  wb (at_ (mix3 etabs) x) = [gmul 1 s; gmul 3 s; gmul 2 s; gmul 1 s] /\
  wb (at_ (mix4 etabs) x) = [gmul 1 s; gmul 1 s; gmul 3 s; gmul 2 s].

#[local] Instance etable_ok_dec x : Decision (etable_ok x).
Proof. unfold etable_ok. repeat apply and_dec; apply (decide_rel eq). Defined.

Lemma etables_correct : forall x, is_byte x -> etable_ok x.
Proof. refine (forall_byte etable_ok _). vm_compute. reflexivity. Qed.

Definition dtable_ok (x : Z) : Prop :=
  let s := at_ (sbox etabs) x in
  wb (at_ (mix1 dtabs) s) = [gmul 14 x; gmul 9 x; gmul 13 x; gmul 11 x] /\
  wb (at_ (mix2 dtabs) s) = [gmul 11 x; gmul 14 x; gmul 9 x; gmul 13 x] /\
  wb (at_ (mix3 dtabs) s) = [gmul 13 x; gmul 11 x; gmul 14 x; gmul 9 x] /\
  wb (at_ (mix4 dtabs) s) = [gmul 9 x; gmul 13 x; gmul 11 x; gmul 14 x].

#[local] Instance dtable_ok_dec x : Decision (dtable_ok x).
Proof. unfold dtable_ok. repeat apply and_dec; apply (decide_rel eq). Defined.

Lemma dtables_correct : forall x, is_byte x -> dtable_ok x.
Proof. refine (forall_byte dtable_ok _). vm_compute. reflexivity. Qed.

Definition shifts_ok (t : Tables) (s : Z -> Z) (x : Z) : Prop :=
  wb (js_shl (at_ (sbox t) x) 24) = [s x; 0; 0; 0] /\ wb (js_shl (at_ (sbox t) x) 16) = [0; s x; 0; 0] /\
  wb (js_shl (at_ (sbox t) x) 8) = [0; 0; s x; 0] /\ wb (at_ (sbox t) x) = [0; 0; 0; s x].

#[local] Instance shifts_ok_dec t s x : Decision (shifts_ok t s x).
Proof. unfold shifts_ok. repeat apply and_dec; apply (decide_rel eq). Defined.

Lemma eshifts_correct : forall x, is_byte x -> shifts_ok etabs (at_ (sbox etabs)) x.
Proof. refine (forall_byte (shifts_ok etabs (at_ (sbox etabs))) _). vm_compute. reflexivity. Qed.

Lemma dshifts_correct : forall x, is_byte x -> shifts_ok dtabs (at_ (sbox dtabs)) x.
Proof. refine (forall_byte (shifts_ok dtabs (at_ (sbox dtabs))) _). vm_compute. reflexivity. Qed.

(** From here on the tables are only used through these facts. *)
#[global] Opaque etabs dtabs SBox gmul byte3 byte2 byte1 byte0.

(** ** One round *)

(** The substituted and shifted column of four words. *)
Definition column (s : Z -> Z) (a b c d : Z) : list Z :=
  [s (byte3 a); s (byte2 b); s (byte1 c); s (byte0 d)].

Lemma bytes_of_word w : is_byte (byte3 w) /\ is_byte (byte2 w) /\ is_byte (byte1 w) /\ is_byte (byte0 w).
Proof. rewrite byte3_wb, byte2_wb, byte1_wb, byte0_wb. split_and!; apply wb_byte. Qed.

#[local] Hint Resolve wb_byte : core.

Lemma byte3_ok w : is_byte (byte3 w). Proof. apply bytes_of_word. Qed.
Lemma byte2_ok w : is_byte (byte2 w). Proof. apply bytes_of_word. Qed.
Lemma byte1_ok w : is_byte (byte1 w). Proof. apply bytes_of_word. Qed.
Lemma byte0_ok w : is_byte (byte0 w). Proof. apply bytes_of_word. Qed.

Lemma column_sbox a b c d : column (at_ (sbox etabs)) a b c d = column SBox a b c d.
Proof.
  unfold column.
  by rewrite (sbox_correct _ (byte3_ok a)), (sbox_correct _ (byte2_ok b)), (sbox_correct _ (byte1_ok c)), (sbox_correct _ (byte0_ok d)).
Qed.

Lemma mix_word_enc a b c d k :
  wb (mix_word etabs a b c d k) = xor_bytes (MixColumn (column SBox a b c d)) (wb k).
Proof.
  rewrite <- column_sbox.
  unfold mix_word. rewrite !wb_xor.
  destruct (etables_correct _ (byte3_ok a)) as (-> & _). destruct (etables_correct _ (byte2_ok b)) as (_ & -> & _).
  destruct (etables_correct _ (byte1_ok c)) as (_ & _ & -> & _). destruct (etables_correct _ (byte0_ok d)) as (_ & _ & _ & ->).
  unfold column, MixColumn, circulant, combine, xor_bytes.
  generalize (at_ (sbox etabs) (byte3 a)), (at_ (sbox etabs) (byte2 b)), (at_ (sbox etabs) (byte1 c)),
    (at_ (sbox etabs) (byte0 d)). intros s0 s1 s2 s3. cbn [nth zip_with]. reflexivity.
Qed.

Lemma final_word_of t s a b c d k :
  (forall x, is_byte x -> shifts_ok t s x) -> wb (final_word t a b c d k) = xor_bytes (column s a b c d) (wb k).
Proof.
  intros Ht. unfold final_word. rewrite !wb_xor.
  destruct (Ht _ (byte3_ok a)) as (-> & _). destruct (Ht _ (byte2_ok b)) as (_ & -> & _).
  destruct (Ht _ (byte1_ok c)) as (_ & _ & -> & _). destruct (Ht _ (byte0_ok d)) as (_ & _ & _ & ->).
  unfold column, xor_bytes. cbn [zip_with]. by rewrite ?Z.lxor_0_r, ?Z.lxor_0_l, ?Z.lxor_0_r.
Qed.

Lemma final_word_enc a b c d k : wb (final_word etabs a b c d k) = xor_bytes (column SBox a b c d) (wb k).
Proof. rewrite <- column_sbox. apply final_word_of, eshifts_correct. Qed.

Lemma mix_word_int32 t a b c d k : is_int32 (mix_word t a b c d k).
Proof. apply js_xor_int32. Qed.

Lemma final_word_int32 t a b c d k : is_int32 (final_word t a b c d k).
Proof. apply js_xor_int32. Qed.

#[global] Opaque mix_word final_word js_xor.

(** ** The cipher *)

(** A state, or a round key, as four columns. *)
Definition cols (ws : list Z) : list (list Z) := map wb ws.

(** The rounds on key blocks of four words. *)
Definition step (t : Tables) (s : list Z) (k : list Z) : list Z :=
  match s, k with
  | [a; b; c; d], [k0; k1; k2; k3] =>
      [mix_word t a b c d k0; mix_word t b c d a k1; mix_word t c d a b k2; mix_word t d a b c k3]
  | _, _ => s
  end.

Definition last_step (t : Tables) (s : list Z) (k : list Z) : list Z :=
  match s, k with
  | [a; b; c; d], [k0; k1; k2; k3] =>
      [final_word t a b c d k0; final_word t b c d a k1; final_word t c d a b k2; final_word t d a b c k3]
  | _, _ => s
  end.

Definition block (l : list Z) : Prop := length l = 4%nat.

Ltac cases_block H :=
  match type of H with block ?l =>
    unfold block in H; destruct l as [|? [|? [|? [|? [|]]]]]; try discriminate H; clear H
  end.

Lemma at_four a b c d l :
  at_ (a :: b :: c :: d :: l) 0 = a /\ at_ (a :: b :: c :: d :: l) 1 = b /\
  at_ (a :: b :: c :: d :: l) 2 = c /\ at_ (a :: b :: c :: d :: l) 3 = d.
Proof. done. Qed.

Lemma rounds_cons mix n k0 k1 k2 k3 rk a b c d :
  rounds mix (S n) (k0 :: k1 :: k2 :: k3 :: rk) a b c d =
  rounds mix n rk (mix a b c d k0) (mix b c d a k1) (mix c d a b k2) (mix d a b c k3).
Proof. reflexivity. Qed.

Lemma rounds_steps t ks rest a b c d :
  Forall block ks ->
  exists a' b' c' d', foldl (step t) [a; b; c; d] ks = [a'; b'; c'; d'] /\
    rounds (mix_word t) (length ks) (mjoin ks ++ rest) a b c d = (a', b', c', d', rest).
Proof.
  intros Hks. revert a b c d. induction Hks as [|k ks Hk _ IH]; intros a b c d; [by eexists _, _, _, _|].
  cases_block Hk. rewrite join_cons. cbn [app length foldl]. rewrite rounds_cons. apply IH.
Qed.

Lemma crypt_cons a b c d k0 k1 k2 k3 rk t :
  crypt [a; b; c; d] (k0 :: k1 :: k2 :: k3 :: rk) t false =
  let '(a, b, c, d, rk) := rounds (mix_word t) (length (k0 :: k1 :: k2 :: k3 :: rk) / 4 - 2) rk
    (js_xor a k0) (js_xor b k1) (js_xor c k2) (js_xor d k3) in
  [final_word t a b c d (at_ rk 0); final_word t b c d a (at_ rk 1); final_word t c d a b (at_ rk 2);
   final_word t d a b c (at_ rk 3)].
Proof. reflexivity. Qed.

Lemma length_blocks ks : Forall block ks -> length (mjoin ks) = (length ks * 4)%nat.
Proof. induction 1 as [|k l Hk _ IH]; [done|]. rewrite join_cons, length_app, Hk. cbn [length]. lia. Qed.

(** [crypt] on a schedule of whole blocks. *)
Lemma crypt_blocks k0 ks kn t p :
  block p -> block k0 -> Forall block ks -> block kn ->
  crypt p (k0 ++ mjoin ks ++ kn) t false = last_step t (foldl (step t) (zip_with js_xor p k0) ks) kn.
Proof.
  intros Hp H0 Hks Hn. assert (Hlen : (length (k0 ++ mjoin ks ++ kn) / 4 - 2)%nat = length ks).
  { rewrite !length_app, Hn, H0, length_blocks by done.
    replace (4 + (length ks * 4 + 4))%nat with ((length ks + 2) * 4)%nat by lia. rewrite Nat.div_mul; lia. }
  cases_block Hp. cases_block H0. cbn [app] in *. rewrite crypt_cons, Hlen. cbn [zip_with].
  destruct (rounds_steps t ks kn (js_xor z z3) (js_xor z0 z4) (js_xor z1 z5) (js_xor z2 z6) Hks)
    as (a & b & c & d & -> & ->).
  cases_block Hn. cbn [last_step]. by destruct (at_four z7 z8 z9 z10 []) as (-> & -> & -> & ->).
Qed.

Lemma wb_four w : wb w = [byte3 w; byte2 w; byte1 w; byte0 w].
Proof. rewrite byte3_wb, byte2_wb, byte1_wb, byte0_wb. by rewrite wb_cases. Qed.

Lemma shifted_columns a b c d :
  ShiftRows (SubBytes (cols [a; b; c; d])) =
  [column SBox a b c d; column SBox b c d a; column SBox c d a b; column SBox d a b c].
Proof. unfold cols. cbn [map]. by rewrite !wb_four. Qed.

Lemma step_spec s k :
  block s -> block k -> cols (step etabs s k) = AddRoundKey (map MixColumn (ShiftRows (SubBytes (cols s)))) (cols k).
Proof.
  intros Hs Hk. cases_block Hs. cases_block Hk. rewrite shifted_columns. cbn [step].
  unfold cols, AddRoundKey. cbn [map zip_with]. by rewrite !mix_word_enc.
Qed.

Lemma last_step_spec s k :
  block s -> block k -> cols (last_step etabs s k) = AddRoundKey (ShiftRows (SubBytes (cols s))) (cols k).
Proof.
  intros Hs Hk. cases_block Hs. cases_block Hk. rewrite shifted_columns. cbn [last_step].
  unfold cols, AddRoundKey. cbn [map zip_with].
  by rewrite !final_word_enc.
Qed.

Lemma step_block t s k : block s -> block (step t s k).
Proof. intros Hs. cases_block Hs. unfold step. destruct k as [|? [|? [|? [|? [|]]]]]; done. Qed.

Lemma steps_block t s ks : block s -> block (foldl (step t) s ks).
Proof. revert s. induction ks; intros s Hs; [done|]. cbn. auto using step_block. Qed.

Lemma steps_spec s ks :
  block s -> Forall block ks ->
  cols (foldl (step etabs) s ks) =
  foldl (fun s k => AddRoundKey (map MixColumn (ShiftRows (SubBytes s))) k) (cols s) (map cols ks).
Proof.
  intros Hs Hks. revert s Hs. induction Hks as [|k ks Hk _ IH]; intros s Hs; [done|]. cbn [foldl map].
  by rewrite IH, step_spec by auto using step_block.
Qed.

Lemma cols_xor p k : cols (zip_with js_xor p k) = AddRoundKey (cols p) (cols k).
Proof. unfold cols, AddRoundKey. revert k. induction p as [|w p IH]; intros [|x k]; cbn [zip_with map]; [done..|]. by rewrite wb_xor, IH. Qed.

Lemma crypt_spec p k0 ks kn :
  block p -> block k0 -> Forall block ks -> block kn ->
  cols (crypt p (k0 ++ mjoin ks ++ kn) etabs false) = Cipher (cols p) (cols k0) (map cols ks) (cols kn).
Proof.
  intros Hp H0 Hks Hn. rewrite crypt_blocks by done. unfold Cipher.
  assert (Hb : block (zip_with js_xor p k0)) by (unfold block in *; rewrite length_zip_with; lia).
  by rewrite last_step_spec, steps_spec, cols_xor by auto using steps_block.
Qed.

(** ** The key schedule *)

Lemma wb_sub_word w : wb (sub_word w) = map SBox (wb w).
Proof.
  unfold sub_word. rewrite !wb_xor.
  destruct (eshifts_correct _ (byte3_ok w)) as (-> & _). destruct (eshifts_correct _ (byte2_ok w)) as (_ & -> & _).
  destruct (eshifts_correct _ (byte1_ok w)) as (_ & _ & -> & _). destruct (eshifts_correct _ (byte0_ok w)) as (_ & _ & _ & ->).
  rewrite (sbox_correct _ (byte3_ok w)), (sbox_correct _ (byte2_ok w)), (sbox_correct _ (byte1_ok w)), (sbox_correct _ (byte0_ok w)).
  rewrite wb_four. unfold xor_bytes. cbn [zip_with map].
  generalize (SBox (byte3 w)), (SBox (byte2 w)), (SBox (byte1 w)), (SBox (byte0 w)). intros s3 s2 s1 s0.
  by rewrite ?Z.lxor_0_r, ?Z.lxor_0_l, ?Z.lxor_0_r.
Qed.

Lemma wb_rotate w : is_int32 w -> wb (js_xor (js_shl w 8) (js_ushr w 24)) = RotWord (wb w).
Proof.
  intros Hw. rewrite wb_xor, !wb_cases. unfold js_shl, js_ushr.
  rewrite (Z.mod_small 8), (Z.mod_small 24), Z.shiftl_mul_pow2, Z.shiftr_div_pow2 by lia.
  rewrite <- (wb_cases (int32 _)), wb_int32, wb_cases, int32_id by exact Hw. unfold uint32, xor_bytes. cbn [zip_with RotWord app].
  unfold is_int32 in Hw.
  assert (E1 : (w mod 2 ^ 32 / 2 ^ 24) / 2 ^ 24 mod 256 = 0) by (Z.div_mod_to_equations; lia).
  assert (E2 : (w mod 2 ^ 32 / 2 ^ 24) / 2 ^ 16 mod 256 = 0) by (Z.div_mod_to_equations; lia).
  assert (E3 : (w mod 2 ^ 32 / 2 ^ 24) / 2 ^ 8 mod 256 = 0) by (Z.div_mod_to_equations; lia).
  assert (E4 : (w * 2 ^ 8) mod 256 = 0) by (apply Z.mod_divide; [lia|exists w; lia]).
  rewrite E1, E2, E3, E4, !Z.lxor_0_r, Z.lxor_0_l.
  f_equal; [|f_equal; [|f_equal; [|f_equal]]]; Z.div_mod_to_equations; lia.
Qed.

Lemma xtime_code : forall b, is_byte b -> js_xor (js_shl b 1) (js_shr b 7 * 283) = xtime b.
Proof. refine (forall_byte (fun b => _ = _) _). vm_compute. reflexivity. Qed.

Lemma xtime_byte : forall b, is_byte b -> 0 <= xtime b < 256.
Proof. refine (forall_byte (fun b => _ <= _ < _) _). vm_compute. reflexivity. Qed.

Lemma rcon_byte n : is_byte (Nat.iter n xtime 1).
Proof. induction n as [|n IH]; [unfold is_byte; cbn; lia|]. cbn. by apply xtime_byte. Qed.

Lemma rcon_word : forall b, is_byte b -> wb (js_shl b 24) = [b; 0; 0; 0].
Proof. refine (forall_byte (fun b => _ = _) _). vm_compute. reflexivity. Qed.

Lemma nth_words i (key : list Z) : (i < length key)%nat -> nth i (map wb key) [] = wb (nth i key 0).
Proof. intros Hi. rewrite <- (map_nth wb). apply nth_indep. by rewrite length_map. Qed.

Lemma nth_take i n (key : list Z) : (i < n)%nat -> nth i (take n key) 0 = nth i key 0.
Proof. revert i key. induction n; intros [|i] [|x key] Hi; try lia; cbn; auto with lia. Qed.

(** One word of the schedule. *)
Lemma expand_word Nk i key :
  (0 < Nk)%nat -> (Nk <= i)%nat -> (i < length key)%nat ->
  nth (i - Nk) (map wb (take i key)) [] = wb (at_ key (Z.of_nat i - Z.of_nat Nk)).
Proof.
  intros H0 HN Hi. rewrite nth_words by (rewrite length_take; lia). rewrite nth_take by lia.
  unfold at_. do 2 f_equal. lia.
Qed.

Lemma take_put i key v : (i < length key)%nat -> take (S i) (put key (Z.of_nat i) v) = take i key ++ [int32 v].
Proof.
  intros Hi. unfold put. rewrite Nat2Z.id, (take_S_r _ _ (int32 v)).
  - f_equal. by rewrite take_insert_ge.
  - by apply list_lookup_insert_eq.
Qed.

Definition key_size (Nk : nat) : Prop := Nk = 4%nat \/ Nk = 6%nat \/ Nk = 8%nat.

Lemma rcon_step Nk i :
  (0 < Nk <= i)%nat ->
  (S i - 1)%nat = i /\ (if (i mod Nk =? 0)%nat then (i / Nk = S ((i - 1) / Nk))%nat else (i / Nk = (i - 1) / Nk)%nat).
Proof.
  intros Hi. split; [lia|]. pose proof (Nat.div_mod_eq i Nk) as Hd. pose proof (Nat.mod_upper_bound i Nk) as Hm.
  destruct (Nat.eqb_spec (i mod Nk) 0) as [E|E].
  - rewrite E in Hd. assert (0 < i / Nk)%nat by nia. rewrite <- (Nat.div_unique (i - 1) Nk (i / Nk - 1) (Nk - 1)); nia.
  - apply (Nat.div_unique (i - 1) Nk (i / Nk) (i mod Nk - 1)); nia.
Qed.

(** The word at a multiple of the key size. *)
Lemma schedule_core t rcon :
  is_int32 t -> is_byte rcon ->
  wb (js_xor (js_xor (js_shl (sub_word t) 8) (js_ushr (sub_word t) 24)) (js_shl rcon 24)) =
  xor_bytes (map SBox (RotWord (wb t))) [rcon; 0; 0; 0].
Proof.
  intros Ht Hr. rewrite wb_xor, (rcon_word rcon Hr). apply (f_equal (fun x => xor_bytes x _)).
  rewrite (wb_rotate (sub_word t)) by apply js_xor_int32. rewrite (wb_sub_word t). by rewrite (wb_four t).
Qed.

Lemma expand_loop_spec n Nk i rcon key :
  key_size Nk -> (Nk <= i)%nat -> (i + n <= length key)%nat -> Forall is_int32 key ->
  rcon = Nat.iter ((i - 1) / Nk) xtime 1 ->
  let key' := expand_loop n (Z.of_nat Nk) (Z.of_nat i) rcon key in
  map wb (take (i + n) key') = expansion Nk n (map wb (take i key)) /\ length key' = length key /\ Forall is_int32 key'.
Proof.
  intros HN. assert (HN0 : (0 < Nk)%nat) by (unfold key_size in HN; lia).
  revert i rcon key. induction n as [|n IH]; intros i rcon key Hi Hlen Hok Hrcon; cbn zeta.
  { by rewrite Nat.add_0_r. }
  cbn [expand_loop expansion]. rewrite length_map, length_take, Nat.min_l by lia.
  destruct (rcon_step Nk i ltac:(lia)) as [HS Hdiv].
  pose proof (expand_word Nk i key HN0 Hi ltac:(lia)) as Hback. rewrite Hback.
  pose proof (expand_word 1 i key ltac:(lia) ltac:(lia) ltac:(lia)) as Hprev. rewrite Hprev. change (Z.of_nat 1) with 1.
  assert (Hint : is_int32 (at_ key (Z.of_nat i - 1))).
  { unfold at_. eapply Forall_nth; [exact Hok|lia]. }
  assert (E0 : (Z.of_nat i mod Z.of_nat Nk =? 0) = (i mod Nk =? 0)%nat).
  { rewrite <- Nat2Z.inj_mod. destruct (Nat.eqb_spec (i mod Nk) 0), (Z.eqb_spec (Z.of_nat (i mod Nk)) 0); lia || done. }
  assert (E4 : ((Z.of_nat Nk =? 8) && (Z.of_nat i mod Z.of_nat Nk =? 4)) = ((6 <? Nk)%nat && (i mod Nk =? 4)%nat)).
  { rewrite <- Nat2Z.inj_mod. f_equal.
    - unfold key_size in HN. destruct (Z.eqb_spec (Z.of_nat Nk) 8), (Nat.ltb_spec 6 Nk); lia || done.
    - destruct (Nat.eqb_spec (i mod Nk) 4), (Z.eqb_spec (Z.of_nat (i mod Nk)) 4); lia || done. }
  rewrite E0, E4.
  (* the new word and the new round constant *)
  match goal with |- context [let '(_, _) := ?e in _] => destruct e as [temp rcon'] eqn:Et end.
  match goal with |- context [expansion Nk n (_ ++ [xor_bytes _ ?t])] => assert (Ht : wb temp = t /\ rcon' = Nat.iter (i / Nk) xtime 1) end.
  { destruct (Nat.eqb_spec (i mod Nk) 0) as [Em|Em]; cbn [orb] in Et.
    - apply pair_eq in Et as [<- <-]. pose proof (rcon_byte ((i - 1) / Nk)) as Hb. rewrite <- Hrcon in Hb.
      rewrite (xtime_code rcon Hb), Hdiv. split; [|by rewrite Hrcon].
      rewrite (schedule_core _ _ Hint Hb). unfold Rcon. by rewrite Nat.sub_succ, Nat.sub_0_r, <- Hrcon.
    - subst rcon. rewrite Hdiv. destruct ((6 <? Nk)%nat && (i mod Nk =? 4)%nat); apply pair_eq in Et as [<- <-]; [|done].
      split; [apply wb_sub_word|done]. }
  destruct Ht as [<- Hrc].
  set (v := js_xor (at_ key (Z.of_nat i - Z.of_nat Nk)) temp).
  destruct (IH (S i) rcon' (put key (Z.of_nat i) v)) as (H1 & H2 & H3).
  - lia.
  - unfold put. rewrite length_insert. lia.
  - unfold put. apply Forall_insert; [done|]. apply int32_range.
  - by rewrite HS.
  - replace (Z.of_nat (S i)) with (Z.of_nat i + 1) in * by lia. replace (S i + n)%nat with (i + S n)%nat in H1 by lia.
    split_and!; [|rewrite H2; unfold put; by rewrite length_insert|done]. rewrite H1, take_put, map_app by lia.
    cbn [map]. by rewrite wb_int32, <- wb_xor.
Qed.

(** ** Blocks of bytes and words *)

Lemma fours_app {A} (a : list A) l : length a = 4%nat -> fours (a ++ l) = a :: fours l.
Proof. intros Ha. by destruct a as [|? [|? [|? [|? [|]]]]]. Qed.

Lemma list_fours {A} n (l : list A) :
  length l = (4 * n)%nat -> exists ks, l = mjoin ks /\ fours l = ks /\ Forall (fun k => length k = 4%nat) ks /\ length ks = n.
Proof.
  revert l. induction n as [|n IH]; intros l Hl.
  { exists []. by destruct l. }
  destruct l as [|a [|b [|c [|d l]]]]; cbn in Hl; try lia.
  destruct (IH l ltac:(lia)) as (ks & E & Hf & Hok & Hn). exists ([a; b; c; d] :: ks).
  rewrite join_cons, <- E. cbn. split_and!; [done|by f_equal|by constructor|lia].
Qed.

Lemma fours_map {A B} (f : A -> B) n (l : list A) : length l = (4 * n)%nat -> fours (map f l) = map (map f) (fours l).
Proof.
  revert l. induction n as [|n IH]; intros l Hl; [by destruct l|].
  destruct l as [|a [|b [|c [|d l]]]]; cbn in Hl; try lia. cbn. f_equal. apply IH. lia.
Qed.

Lemma wordOf_int32 bs : length bs = 4%nat -> bytes_ok bs -> is_int32 (wordOf bs).
Proof.
  intros Hl Hb. unfold wordOf, to_signed. pose proof (view_value_range false bs Hb) as Hr. rewrite Hl in Hr.
  change (2 ^ (8 * Z.of_nat 4)) with (2 ^ 32) in *. unfold is_int32. change (8 * Z.of_nat 4 - 1) with 31. case_match; lia.
Qed.

Lemma wb_wordOf bs : length bs = 4%nat -> bytes_ok bs -> wb (wordOf bs) = bs.
Proof.
  intros Hl Hb. transitivity (wb (int32 (wordOf bs))); [by rewrite wb_int32|].
  rewrite <- (view_bytes_value false bs Hb) at 2. rewrite Hl. fold (wb (view_value false bs)).
  rewrite <- (wb_int32 (view_value false bs)). f_equal. unfold wordOf, to_signed, int32.
  change (2 ^ (8 * Z.of_nat 4)) with (2 ^ 32). case_match; [done|].
  replace (view_value false bs - 2 ^ 32 + 2 ^ 31) with (view_value false bs + 2 ^ 31 + (-1) * 2 ^ 32) by lia.
  by rewrite Z.mod_add.
Qed.

Lemma getInt32_fours n bytes :
  length bytes = (4 * n)%nat -> map (fun i => getInt32 bytes (4 * i)) (seq 0 n) = map wordOf (fours bytes).
Proof.
  revert bytes. induction n as [|n IH]; intros bytes Hl; [by destruct bytes|].
  destruct bytes as [|a [|b [|c [|d l]]]]; cbn in Hl; try lia.
  cbn [seq map fours]. f_equal. rewrite <- (IH l ltac:(lia)), <- seq_shift, map_map.
  apply map_ext. intros i. unfold getInt32. replace (4 * S i)%nat with (S (S (S (S (4 * i))))) by lia. done.
Qed.

Lemma fromByteArray_fours n len bytes :
  length bytes = (4 * n)%nat -> fromByteArray bytes len = map wordOf (fours bytes) ++ repeat 0 (len - n).
Proof.
  intros Hl. unfold fromByteArray. rewrite Hl, (Nat.mul_comm 4 n), Nat.div_mul, Nat.Div0.mod_mul by lia. cbn [Nat.eqb].
  pose proof (getInt32_fours n bytes Hl) as E.
  change ((fun i => getInt32 bytes (4 * i)) <$> seq 0 n) with (map (fun i => getInt32 bytes (4 * i)) (seq 0 n)).
  by rewrite length_map, length_seq, E.
Qed.

Lemma cols_fromByteArray n bytes :
  length bytes = (4 * n)%nat -> bytes_ok bytes -> map wb (map wordOf (fours bytes)) = fours bytes.
Proof.
  intros Hl Hb. destruct (list_fours n bytes Hl) as (ks & E & -> & Hk & _). rewrite E in Hb. clear E Hl.
  induction Hk as [|k ks Hk _ IH]; [done|]. rewrite join_cons in Hb. apply Forall_app in Hb as [H1 H2].
  cbn [map]. by rewrite wb_wordOf, IH.
Qed.

(** ** Encryption is FIPS 197 *)

Definition aes_key (key : list Z) : Prop := bytes_ok key /\ (length key = 16 \/ length key = 24 \/ length key = 32)%nat.

Lemma aes_key_size key :
  aes_key key -> exists Nk, key_size Nk /\ length key = (4 * Nk)%nat /\ inputLength key = Nk.
Proof.
  intros [_ Hl]. unfold inputLength, key_size.
  destruct Hl as [-> | [-> | ->]]; [exists 4%nat|exists 6%nat|exists 8%nat]; split_and!; auto.
Qed.

Lemma encryptKey_spec key :
  aes_key key -> map wb (encryptKey key) = KeyExpansion key /\ length (encryptKey key) = wordsNeeded key /\
  Forall is_int32 (encryptKey key).
Proof.
  intros Hkey. destruct (aes_key_size key Hkey) as (Nk & HN & Hl & HNk). destruct Hkey as [Hb _].
  unfold encryptKey, KeyExpansion, wordsNeeded. rewrite HNk. rewrite Hl. rewrite (Nat.mul_comm 4 Nk), Nat.div_mul by lia.
  rewrite (fromByteArray_fours Nk) by done. pose proof (cols_fromByteArray Nk key Hl Hb) as Hc.
  assert (Hlen : length (map wordOf (fours key)) = Nk).
  { rewrite length_map. destruct (list_fours Nk key Hl) as (ks & _ & -> & _ & ?). done. }
  assert (Hok : Forall is_int32 (map wordOf (fours key) ++ repeat 0 ((Nk + 7) * 4 - Nk))).
  { apply Forall_app. split.
    - destruct (list_fours Nk key Hl) as (ks & E & -> & Hk & _). rewrite E in Hb. clear -Hk Hb.
      induction Hk as [|k ks Hk _ IH]; [constructor|]. rewrite join_cons in Hb. apply Forall_app in Hb as [H1 H2].
      constructor; [by apply wordOf_int32|auto].
    - apply List.Forall_forall. intros x ->%repeat_spec. unfold is_int32. lia. }
  destruct (expand_loop_spec ((Nk + 7) * 4 - Nk) Nk Nk 1 (map wordOf (fours key) ++ repeat 0 ((Nk + 7) * 4 - Nk)))
    as (H1 & H2 & H3); [done|lia|rewrite length_app, repeat_length; lia|done| |].
  { rewrite (Nat.div_small (Nk - 1) Nk); [done|]. unfold key_size in HN. lia. }
  rewrite length_app, repeat_length, Hlen in H2. split_and!; [|rewrite H2; lia|done].
  rewrite (take_app_length' (map wordOf _)), Hc in H1 by done. rewrite <- H1. by rewrite take_ge by (rewrite H2; lia).
Qed.

(** The schedule in blocks: the first, those of the rounds, the last. *)
Lemma encryptKey_blocks key :
  aes_key key -> exists k0 ks kn, encryptKey key = k0 ++ mjoin ks ++ kn /\ fours (encryptKey key) = k0 :: ks ++ [kn] /\
    block k0 /\ Forall block ks /\ block kn.
Proof.
  intros Hkey. destruct (aes_key_size key Hkey) as (Nk & HN & _ & HNk). destruct (encryptKey_spec key Hkey) as (_ & Hl & _).
  unfold wordsNeeded in Hl. rewrite HNk in Hl.
  destruct (list_fours (Nk + 7) (encryptKey key)) as (bs & E & Hf & Hok & Hn); [lia|].
  destruct bs as [|k0 bs]; cbn in Hn; [lia|]. destruct bs as [|kn ks _] using rev_ind; cbn in Hn; [lia|].
  inversion Hok as [|? ? H0 Hrest]; subst. apply Forall_app in Hrest as [Hks Hkn].
  exists k0, ks, kn. split_and!; [|done|done|done|by inversion Hkn].
  rewrite E, join_cons, join_app. cbn. by rewrite app_nil_r.
Qed.

(** The table-driven code computes the FIPS 197 cipher. *)
Lemma encrypt_block_fips key bytes :
  aes_key key -> bytes_ok bytes -> length bytes = 16%nat ->
  mjoin (map wb (encrypt key (fromByteArray bytes 4))) = EncryptBlock key bytes.
Proof.
  intros Hkey Hb Hl. destruct (encryptKey_blocks key Hkey) as (k0 & ks & kn & E & Hf & H0 & Hks & Hn).
  destruct (encryptKey_spec key Hkey) as (Hw & Hlen & _). destruct (aes_key_size key Hkey) as (Nk & _ & _ & HNk).
  unfold EncryptBlock. rewrite <- Hw, (fours_map wb (Nk + 7)) by (rewrite Hlen; unfold wordsNeeded; rewrite HNk; lia).
  rewrite Hf. cbn [map]. rewrite map_app. cbn [map]. rewrite removelast_last, last_last.
  rewrite (fromByteArray_fours 4 4 bytes Hl). cbn [repeat Nat.sub]. rewrite app_nil_r.
  unfold encrypt. rewrite E. f_equal. change (map wb (crypt ?p ?k ?t ?f)) with (cols (crypt p k t f)).
  rewrite crypt_spec by (done || (unfold block; rewrite length_map; by destruct (list_fours 4 bytes Hl) as (? & _ & -> & _ & ->))).
  unfold cols at 1. by rewrite (cols_fromByteArray 4 bytes Hl Hb).
Qed.

(** For every key of 128, 192 or 256 bits and every block, the table-driven
    code computes the FIPS 197 cipher. *)
Theorem aes_encrypt_fips key bytes :
  aes_key key -> bytes_ok bytes -> length bytes = 16%nat ->
  mjoin (map wb (encrypt key (fromByteArray bytes 4))) = EncryptBlock key bytes.
Proof. apply encrypt_block_fips. Qed.

(** The example of FIPS 197, appendix B. *)
Definition fips_key : list Z := [0x2b;0x7e;0x15;0x16;0x28;0xae;0xd2;0xa6;0xab;0xf7;0x15;0x88;0x09;0xcf;0x4f;0x3c].
Definition fips_input : list Z := [0x32;0x43;0xf6;0xa8;0x88;0x5a;0x30;0x8d;0x31;0x31;0x98;0xa2;0xe0;0x37;0x07;0x34].

Lemma fips_key_ok : aes_key fips_key.
Proof. split; [|by left]. unfold bytes_ok, fips_key. rewrite !Forall_cons. unfold is_byte. split_and!; lia || constructor. Qed.

Lemma aes_encrypt_fips_witness :
  EncryptBlock fips_key fips_input =
  [0x39;0x25;0x84;0x1d;0x02;0xdc;0x09;0xfb;0xdc;0x11;0x85;0x97;0x19;0x6a;0x0b;0x32].
Proof.
  rewrite <- (aes_encrypt_fips fips_key fips_input).
  - vm_compute. reflexivity.
  - apply fips_key_ok.
  - unfold bytes_ok, fips_input. rewrite !Forall_cons. unfold is_byte. split_and!; lia || constructor.
  - reflexivity.
Defined.
