(* ===== verification/AesInverse.v ===== *)
(** * AES block cipher: decryption

    The decryption half of Aes.v uses tables and a key schedule of its own (the
    equivalent inverse cipher).  It undoes encryption, block by block. *)

From Stdlib Require Import Btauto.
From S2P Require Import Prelude DataIO Aes AesSpec.
Import Fips.

(** ** The columns as a vector space *)

Lemma xtime_xor a b : is_byte a -> is_byte b -> xtime (Z.lxor a b) = Z.lxor (xtime a) (xtime b).
Proof.
  assert (Hall : forallb_below 256 (fun a => forallb_below 256 (fun b =>
    xtime (Z.lxor a b) =? Z.lxor (xtime a) (xtime b))) = true) by (vm_compute; reflexivity).
  intros Ha Hb. apply Z.eqb_eq. by apply (forallb_below_spec _ _ (forallb_below_spec _ _ Hall a Ha) b).
Qed.

Lemma gmul_bits_xor n m a b :
  is_byte a -> is_byte b -> gmul_bits n m (Z.lxor a b) = Z.lxor (gmul_bits n m a) (gmul_bits n m b).
Proof.
  revert m a b. induction n as [|n IH]; intros m a b Ha Hb; [done|]. cbn [gmul_bits].
  rewrite xtime_xor, IH by (done || by apply xtime_byte). destruct (Z.odd m); apply Z.bits_inj'; intros i _;
    rewrite ?Z.lxor_spec, ?Z.testbit_0_l; btauto.
Qed.

Lemma gmul_bits_byte n m a : is_byte a -> is_byte (gmul_bits n m a).
Proof.
  revert m a. induction n as [|n IH]; intros m a Ha; cbn [gmul_bits]; [unfold is_byte; lia|].
  apply lxor_byte; [destruct (Z.odd m); [done|unfold is_byte; lia]|]. by apply IH, xtime_byte.
Qed.

Lemma gmul_xor m a b : is_byte a -> is_byte b -> gmul m (Z.lxor a b) = Z.lxor (gmul m a) (gmul m b).
Proof. exact (gmul_bits_xor 8 m a b). Qed.

Lemma gmul_byte m a : is_byte a -> is_byte (gmul m a).
Proof. exact (gmul_bits_byte 8 m a). Qed.

Definition is_column (c : list Z) : Prop := length c = 4%nat /\ bytes_ok c.

Ltac cases_column H :=
  let Hl := fresh in let Hb := fresh "Hb" in
  destruct H as [Hl Hb];
  match type of Hl with length ?c = _ => destruct c as [|? [|? [|? [|? [|]]]]]; try discriminate Hl end; clear Hl;
  unfold bytes_ok in Hb; rewrite !Forall_cons in Hb; destruct Hb as (? & ? & ? & ? & _).

Lemma column_of a b c d : is_byte a -> is_byte b -> is_byte c -> is_byte d -> is_column [a; b; c; d].
Proof. intros. split; [done|]. unfold bytes_ok. rewrite !Forall_cons. by split_and!. Qed.

Lemma xor_column u v : is_column u -> is_column v -> is_column (xor_bytes u v).
Proof.
  intros Hu Hv. cases_column Hu. cases_column Hv. apply column_of; by apply lxor_byte.
Qed.

Lemma wb_column w : is_column (wb w).
Proof. split; [apply view_bytes_length|apply view_bytes_ok]. Qed.

Lemma circulant_column m0 m1 m2 m3 c : is_column c -> is_column (circulant m0 m1 m2 m3 c).
Proof.
  intros Hc. cases_column Hc. unfold circulant, combine. cbn [nth].
  apply column_of; repeat apply lxor_byte; by apply gmul_byte.
Qed.

Lemma combine_xor m0 m1 m2 m3 u v :
  is_column u -> is_column v -> combine m0 m1 m2 m3 (xor_bytes u v) = Z.lxor (combine m0 m1 m2 m3 u) (combine m0 m1 m2 m3 v).
Proof.
  intros Hu Hv. cases_column Hu. cases_column Hv. unfold combine, xor_bytes. cbn [zip_with nth].
  rewrite !gmul_xor by done. apply Z.bits_inj'. intros i _. rewrite !Z.lxor_spec. btauto.
Qed.

Lemma circulant_xor m0 m1 m2 m3 u v :
  is_column u -> is_column v ->
  circulant m0 m1 m2 m3 (xor_bytes u v) = xor_bytes (circulant m0 m1 m2 m3 u) (circulant m0 m1 m2 m3 v).
Proof. intros Hu Hv. unfold circulant. by rewrite !combine_xor. Qed.

(** ** Column mixing and its inverse *)

Lemma unmix_units : forall x, is_byte x ->
  InvMixColumn (MixColumn [x; 0; 0; 0]) = [x; 0; 0; 0] /\ InvMixColumn (MixColumn [0; x; 0; 0]) = [0; x; 0; 0] /\
  InvMixColumn (MixColumn [0; 0; x; 0]) = [0; 0; x; 0] /\ InvMixColumn (MixColumn [0; 0; 0; x]) = [0; 0; 0; x].
Proof. refine (forall_byte (fun x => _ = _ /\ _ = _ /\ _ = _ /\ _ = _) _). vm_compute. reflexivity. Qed.

Lemma unmix c : is_column c -> InvMixColumn (MixColumn c) = c.
Proof.
  intros Hc. cases_column Hc.
  assert (E : [z; z0; z1; z2] = xor_bytes (xor_bytes [z; 0; 0; 0] [0; z0; 0; 0]) (xor_bytes [0; 0; z1; 0] [0; 0; 0; z2])).
  { unfold xor_bytes. cbn [zip_with]. by rewrite ?Z.lxor_0_r, ?Z.lxor_0_l, ?Z.lxor_0_r. }
  assert (Hzero : is_byte 0) by (unfold is_byte; lia).
  assert (C0 : is_column [z; 0; 0; 0]) by (by apply column_of).
  assert (C1 : is_column [0; z0; 0; 0]) by (by apply column_of).
  assert (C2 : is_column [0; 0; z1; 0]) by (by apply column_of).
  assert (C3 : is_column [0; 0; 0; z2]) by (by apply column_of).
  rewrite E. unfold MixColumn, InvMixColumn. rewrite !circulant_xor by auto using xor_column, circulant_column.
  fold MixColumn InvMixColumn.
  destruct (unmix_units z) as (-> & _); [done|]. destruct (unmix_units z0) as (_ & -> & _); [done|].
  destruct (unmix_units z1) as (_ & _ & -> & _); [done|]. by destruct (unmix_units z2) as (_ & _ & _ & ->).
Qed.

(** ** One round *)

(** The word of a substituted and shifted column. *)
Definition fw (a b c d : Z) : Z := wordOf (column (at_ (sbox etabs)) a b c d).

Lemma column_ok a b c d : is_column (column (at_ (sbox etabs)) a b c d).
Proof.
  apply column_of;
    [apply (sbox_byte _ (byte3_ok a))|apply (sbox_byte _ (byte2_ok b))|apply (sbox_byte _ (byte1_ok c))|
     apply (sbox_byte _ (byte0_ok d))].
Qed.

Lemma wb_fw a b c d : wb (fw a b c d) = column (at_ (sbox etabs)) a b c d.
Proof. destruct (column_ok a b c d). by apply wb_wordOf. Qed.

Lemma fw_int32 a b c d : is_int32 (fw a b c d).
Proof. destruct (column_ok a b c d). by apply wordOf_int32. Qed.

(** The round key words of decryption. *)
Definition imc (tmp : Z) : Z :=
  js_xor (js_xor (js_xor (at_ (mix1 dtabs) (at_ (sbox etabs) (byte3 tmp)))
    (at_ (mix2 dtabs) (at_ (sbox etabs) (byte2 tmp))))
    (at_ (mix3 dtabs) (at_ (sbox etabs) (byte1 tmp)))) (at_ (mix4 dtabs) (at_ (sbox etabs) (byte0 tmp))).

Lemma decrypt_word_imc ek i j :
  decrypt_word ek i j =
  let tmp := at_ ek (Z.of_nat (if (j mod 4 =? 0)%nat then i - 4 else i)) in
  if (i <=? 4)%nat || (j <? 4)%nat then tmp else imc tmp.
Proof. reflexivity. Qed.

Lemma imc_int32 tmp : is_int32 (imc tmp).
Proof. apply js_xor_int32. Qed.

Lemma wb_imc tmp : wb (imc tmp) = InvMixColumn (wb tmp).
Proof.
  unfold imc. rewrite !wb_xor, (wb_four tmp).
  destruct (dtables_correct _ (byte3_ok tmp)) as (-> & _). destruct (dtables_correct _ (byte2_ok tmp)) as (_ & -> & _).
  destruct (dtables_correct _ (byte1_ok tmp)) as (_ & _ & -> & _). destruct (dtables_correct _ (byte0_ok tmp)) as (_ & _ & _ & ->).
  unfold InvMixColumn, circulant, combine, xor_bytes. cbn [nth zip_with]. reflexivity.
Qed.

Lemma bytes_fw a b c d :
  byte3 (fw a b c d) = at_ (sbox etabs) (byte3 a) /\ byte2 (fw a b c d) = at_ (sbox etabs) (byte2 b) /\
  byte1 (fw a b c d) = at_ (sbox etabs) (byte1 c) /\ byte0 (fw a b c d) = at_ (sbox etabs) (byte0 d).
Proof. rewrite (byte3_wb (fw a b c d)), (byte2_wb (fw a b c d)), (byte1_wb (fw a b c d)), (byte0_wb (fw a b c d)), wb_fw. done. Qed.

Opaque fw imc wb circulant column.

(** The decryption tables undo substitution and shift, and mix back. *)
Lemma mix_word_dec a b c d k :
  mix_word dtabs (fw a b c d) (fw d a b c) (fw c d a b) (fw b c d a) k = js_xor (imc a) k.
Proof.
  Transparent mix_word imc. unfold mix_word, imc.
  destruct (bytes_fw a b c d) as (-> & _). destruct (bytes_fw d a b c) as (_ & -> & _).
  destruct (bytes_fw c d a b) as (_ & _ & -> & _). destruct (bytes_fw b c d a) as (_ & _ & _ & ->). reflexivity.
Qed.
Opaque mix_word imc.

Lemma round_inverse a b c d k B C D A :
  A = mix_word etabs a b c d k ->
  mix_word dtabs (fw A B C D) (fw D A B C) (fw C D A B) (fw B C D A) (imc k) = fw a b c d.
Proof.
  intros HA. rewrite (mix_word_dec A B C D). apply wb_inj; [apply js_xor_int32|apply fw_int32|].
  rewrite (wb_xor (imc A)), (wb_imc A), (wb_imc k), HA, (mix_word_enc a b c d k), <- (column_sbox a b c d), (wb_fw a b c d).
  pose proof (column_ok a b c d) as Hc. pose proof (wb_column k) as Hk. generalize dependent (column (at_ (sbox etabs)) a b c d).
  generalize dependent (wb k). clear. intros kb Hk col Hc. unfold InvMixColumn.
  rewrite (circulant_xor 14 11 13 9 (MixColumn col) kb) by (done || by apply circulant_column).
  fold InvMixColumn. rewrite (unmix col Hc). apply xor_cancel.
  unfold InvMixColumn. destruct Hc as [-> _]. by destruct (circulant_column 14 11 13 9 kb Hk) as [-> _].
Qed.

(** ** All rounds *)

(** Decryption works on the columns in the order 0, 3, 2, 1. *)
Definition swap (p : list Z) : list Z := match p with [a; b; c; d] => [a; d; c; b] | _ => p end.

Definition fwt (s : list Z) : list Z :=
  match s with [a; b; c; d] => [fw a b c d; fw d a b c; fw c d a b; fw b c d a] | _ => s end.

Definition dkey (k : list Z) : list Z := map imc (swap k).

Lemma swap_block p : block p -> block (swap p).
Proof. intros Hp. by cases_block Hp. Qed.

Lemma crypt_swap p rk t : block p -> crypt p rk t true = swap (crypt (swap p) rk t false).
Proof.
  intros Hp. cases_block Hp. unfold crypt. cbn [swap].
  destruct (at_four z z0 z1 z2 []) as (-> & -> & -> & ->). destruct (at_four z z2 z1 z0 []) as (-> & -> & -> & ->).
  by destruct (rounds _ _ _ _ _ _ _) as [[[[a b] c] d] rest].
Qed.

Lemma four_eq {A} {a b c d a' b' c' d' : A} :
  a = a' -> b = b' -> c = c' -> d = d' -> [a; b; c; d] = [a'; b'; c'; d'].
Proof. by intros -> -> -> ->. Qed.

Lemma step_back s k : block s -> block k -> step dtabs (fwt (step etabs s k)) (dkey k) = fwt s.
Proof.
  intros Hs Hk. cases_block Hs. cases_block Hk. unfold dkey. cbn [step fwt swap map].
  remember (mix_word etabs z z0 z1 z2 z3) as A eqn:HA. remember (mix_word etabs z0 z1 z2 z z4) as B eqn:HB.
  remember (mix_word etabs z1 z2 z z0 z5) as C eqn:HC. remember (mix_word etabs z2 z z0 z1 z6) as D eqn:HD.
  exact (four_eq (round_inverse z z0 z1 z2 z3 B C D A HA) (round_inverse z2 z z0 z1 z6 A B C D HD)
    (round_inverse z1 z2 z z0 z5 D A B C HC) (round_inverse z0 z1 z2 z z4 C D A B HB)).
Qed.

Lemma steps_back s ks :
  block s -> Forall block ks -> foldl (step dtabs) (fwt (foldl (step etabs) s ks)) (map dkey (rev ks)) = fwt s.
Proof.
  intros Hs. induction ks as [|k ks IH] using rev_ind; intros Hks; [done|].
  apply Forall_app in Hks as [Hks Hk]. inversion_clear Hk.
  rewrite rev_unit, foldl_app. cbn [map foldl]. rewrite step_back by auto using steps_block. by apply IH.
Qed.

Lemma xor_back a k : is_int32 a -> js_xor (js_xor a k) k = a.
Proof.
  intros Ha. apply wb_inj; [apply js_xor_int32|done|]. rewrite !wb_xor. apply xor_cancel.
  destruct (wb_column a) as [-> _]. by destruct (wb_column k) as [-> _].
Qed.

Lemma final_back a b c d k : js_xor (final_word etabs a b c d k) k = fw a b c d.
Proof.
  apply wb_inj; [apply js_xor_int32|apply fw_int32|].
  rewrite (wb_xor (final_word etabs a b c d k) k), (final_word_enc a b c d k), <- (column_sbox a b c d), (wb_fw a b c d). apply xor_cancel.
  destruct (column_ok a b c d) as [-> _]. by destruct (wb_column k) as [-> _].
Qed.

Lemma first_back a b c d k :
  final_word dtabs (fw a b c d) (fw d a b c) (fw c d a b) (fw b c d a) k = js_xor a k.
Proof.
  apply wb_inj; [apply final_word_int32|apply js_xor_int32|].
  rewrite (final_word_of dtabs (at_ (sbox dtabs))) by apply dshifts_correct.
  rewrite (wb_xor a k). apply (f_equal (fun x => xor_bytes x (wb k))).
  Transparent column. unfold column.
  destruct (bytes_fw a b c d) as (-> & _). destruct (bytes_fw d a b c) as (_ & -> & _).
  destruct (bytes_fw c d a b) as (_ & _ & -> & _). destruct (bytes_fw b c d a) as (_ & _ & _ & ->).
  rewrite (sbox_inverse _ (byte3_ok a)), (sbox_inverse _ (byte2_ok a)), (sbox_inverse _ (byte1_ok a)),
    (sbox_inverse _ (byte0_ok a)). by rewrite wb_four.
Qed.

Lemma crypt_inverse p k0 ks kn :
  block p -> Forall is_int32 p -> block k0 -> Forall block ks -> block kn ->
  crypt (crypt p (k0 ++ mjoin ks ++ kn) etabs false) (swap kn ++ mjoin (map dkey (rev ks)) ++ swap k0) dtabs true = p.
Proof.
  intros Hp Hint H0 Hks Hn. rewrite (crypt_blocks k0 ks kn etabs p) by done.
  set (s0 := zip_with js_xor p k0). assert (Hs0 : block s0) by (unfold s0, block in *; rewrite length_zip_with; lia).
  pose proof (steps_back s0 ks Hs0 Hks) as Hback. pose proof (steps_block etabs s0 ks Hs0) as Hs.
  assert (Hd : Forall block (map dkey (rev ks))).
  { apply Forall_map, Forall_rev. eapply Forall_impl; [exact Hks|]. intros k Hk.
    unfold dkey, block. cbn. rewrite length_map. by apply swap_block. }
  set (s := foldl (step etabs) s0 ks) in *.
  assert (Hl : block (last_step etabs s kn)) by (clear -Hs Hn; cases_block Hs; by cases_block Hn).
  rewrite crypt_swap, crypt_blocks by auto using swap_block.
  assert (E : zip_with js_xor (swap (last_step etabs s kn)) (swap kn) = fwt s).
  { clear -Hs Hn. generalize dependent s. intros s Hs. cases_block Hs. cases_block Hn. cbn [last_step swap zip_with fwt].
    exact (four_eq (final_back _ _ _ _ _) (final_back _ _ _ _ _) (final_back _ _ _ _ _) (final_back _ _ _ _ _)). }
  rewrite E, Hback. unfold s0. clear -Hp Hint H0. cases_block Hp. cases_block H0. cbn [zip_with fwt swap last_step].
  rewrite !Forall_cons in Hint. destruct Hint as (I0 & I1 & I2 & I3 & _).
  remember (js_xor z z3) as A eqn:HA. remember (js_xor z0 z4) as B eqn:HB.
  remember (js_xor z1 z5) as C eqn:HC. remember (js_xor z2 z6) as D eqn:HD.
  rewrite (four_eq (first_back A B C D z3) (first_back B C D A z4) (first_back C D A B z5) (first_back D A B C z6)).
  rewrite HA, HB, HC, HD. exact (four_eq (xor_back z z3 I0) (xor_back z0 z4 I1) (xor_back z1 z5 I2) (xor_back z2 z6 I3)).
Qed.

(** ** The key schedule of decryption *)

Lemma at_block bs q r :
  Forall block bs -> (q < length bs)%nat -> (r < 4)%nat ->
  at_ (mjoin bs) (Z.of_nat (4 * q + r)) = nth r (nth q bs []) 0.
Proof.
  intros Hbs. unfold at_. rewrite Nat2Z.id. revert q. induction Hbs as [|b bs Hb _ IH]; intros q Hq Hr; cbn [length] in Hq; [lia|].
  rewrite join_cons. unfold block in Hb. destruct q as [|q].
  - cbn [nth]. by rewrite app_nth1 by lia.
  - rewrite app_nth2 by lia. replace (4 * S q + r - length b)%nat with (4 * q + r)%nat by lia. apply IH; lia.
Qed.

Lemma map_seq_four {A} (f : nat -> A) s n :
  map f (seq (4 * s) (4 * n)) =
  mjoin (map (fun q => [f (4 * q); f (4 * q + 1); f (4 * q + 2); f (4 * q + 3)]%nat) (seq s n)).
Proof.
  revert s. induction n as [|n IH]; intros s; [done|]. replace (4 * S n)%nat with (4 + 4 * n)%nat by lia.
  rewrite seq_app, map_app. cbn [seq map]. rewrite join_cons.
  replace (4 * s + 4)%nat with (4 * S s)%nat by lia. rewrite IH. cbn [app]. repeat (f_equal; try lia).
Qed.

Lemma map_rev_nth {A} (h : list Z -> A) ks :
  map (fun q => h (nth (length ks - q) ks [])) (seq 1 (length ks)) = map h (rev ks).
Proof.
  induction ks as [|k ks IH] using rev_ind; [done|]. rewrite length_app, rev_unit. cbn [length].
  rewrite Nat.add_1_r. cbn [seq map]. f_equal.
  - rewrite app_nth2 by lia. by replace (S (length ks) - 1 - length ks)%nat with 0%nat by lia.
  - rewrite <- IH, <- seq_shift, map_map. apply map_ext_in. intros q Hq%in_seq.
    replace (S (length ks) - S q)%nat with (length ks - q)%nat by lia. by rewrite app_nth1 by lia.
Qed.

(** Four words of the decryption key come from one block of the encryption key. *)
Lemma decrypt_block bs q :
  Forall block bs -> (q < length bs)%nat ->
  let n := length bs in
  let f := fun j => decrypt_word (mjoin bs) (4 * n - j) j in
  [f (4 * q); f (4 * q + 1); f (4 * q + 2); f (4 * q + 3)]%nat =
  (if (q =? 0)%nat || (q =? n - 1)%nat then swap else dkey) (nth (n - 1 - q) bs []).
Proof.
  intros Hbs Hq. cbn zeta. set (n := length bs) in *.
  assert (Hat : forall r, (r < 4)%nat -> at_ (mjoin bs) (Z.of_nat (4 * (n - 1 - q) + r)) = nth r (nth (n - 1 - q) bs []) 0).
  { intros r Hr. apply at_block; [done|unfold n; lia|done]. }
  assert (Hb : block (nth (n - 1 - q) bs [])).
  { apply (proj1 (Forall_nth _ [] bs) Hbs). unfold n in *. lia. }
  assert (Hmod : forall r, (r < 4)%nat -> ((4 * q + r) mod 4)%nat = r).
  { intros r Hr. rewrite Nat.mul_comm, Nat.add_comm, Nat.Div0.mod_add. by apply Nat.mod_small. }
  assert (Hw : forall r, (r < 4)%nat -> decrypt_word (mjoin bs) (4 * n - (4 * q + r)) (4 * q + r) =
    (if (q =? 0)%nat || (q =? n - 1)%nat then fun x => x else imc) (nth (if (r =? 0)%nat then 0 else 4 - r)%nat (nth (n - 1 - q) bs []) 0)).
  { intros r Hr. rewrite decrypt_word_imc. cbn zeta. rewrite (Hmod r Hr).
    replace (if (r =? 0)%nat then _ else _) with (4 * (n - 1 - q) + (if (r =? 0)%nat then 0 else 4 - r))%nat
      by (destruct (Nat.eqb_spec r 0); lia).
    rewrite Hat by (destruct (Nat.eqb_spec r 0); lia).
    replace ((4 * n - (4 * q + r) <=? 4)%nat || (4 * q + r <? 4)%nat) with ((q =? 0)%nat || (q =? n - 1)%nat).
    - destruct ((q =? 0)%nat || (q =? n - 1)%nat); reflexivity.
    - destruct (Nat.eqb_spec q 0), (Nat.eqb_spec q (n - 1)), (Nat.leb_spec (4 * n - (4 * q + r)) 4), (Nat.ltb_spec (4 * q + r) 4);
        cbn; lia || done. }
  pose proof (Hw 0 ltac:(lia))%nat as H0. rewrite Nat.add_0_r in H0. cbv beta.
  rewrite H0, (Hw 1 ltac:(lia))%nat, (Hw 2 ltac:(lia))%nat, (Hw 3 ltac:(lia))%nat. cbn [Nat.eqb Nat.sub].
  generalize dependent (nth (n - 1 - q) bs []). intros k _ Hk _ _. cases_block Hk. by destruct (_ || _).
Qed.

Lemma decryptKey_blocks k0 ks kn :
  block k0 -> Forall block ks -> block kn -> Forall is_int32 (k0 ++ mjoin ks ++ kn) ->
  decryptKey (k0 ++ mjoin ks ++ kn) = swap kn ++ mjoin (map dkey (rev ks)) ++ swap k0.
Proof.
  intros H0 Hks Hn Hint. set (bs := k0 :: ks ++ [kn]).
  assert (E : k0 ++ mjoin ks ++ kn = mjoin bs) by (unfold bs; rewrite join_cons, join_app; cbn; by rewrite app_nil_r).
  assert (Hbs : Forall block bs) by (apply Forall_cons; split; [done|]; apply Forall_app; split; [done|by constructor]).
  assert (Hlen : length (mjoin bs) = (4 * length bs)%nat) by (rewrite length_blocks by done; lia).
  rewrite E in *. unfold decryptKey. rewrite Hlen.
  assert (Hw : forall i j, is_int32 (decrypt_word (mjoin bs) i j)).
  { intros i j. rewrite decrypt_word_imc. cbn zeta. destruct (_ || _); [|apply imc_int32].
    unfold at_. destruct (nth_in_or_default (Z.to_nat (Z.of_nat (if (j mod 4 =? 0)%nat then (i - 4)%nat else i))) (mjoin bs) 0) as [Hi| ->].
    - rewrite List.Forall_forall in Hint. by apply Hint.
    - unfold is_int32. lia. }
  transitivity (map (fun j => decrypt_word (mjoin bs) (4 * length bs - j) j) (seq (4 * 0) (4 * length bs))).
  { apply list_fmap_ext. intros i j _. by apply int32_id, Hw. }
  rewrite map_seq_four.
  transitivity (mjoin (map (fun q => (if (q =? 0)%nat || (q =? length bs - 1)%nat then swap else dkey)
    (nth (length bs - 1 - q) bs [])) (seq 0 (length bs)))).
  { f_equal. apply map_ext_in. intros q Hq%in_seq. apply (decrypt_block bs q Hbs). lia. }
  clear Hw Hint Hlen E. assert (Hl : length bs = S (length ks + 1)) by (unfold bs; cbn; rewrite length_app; cbn; lia).
  rewrite Hl. cbn [seq]. rewrite seq_app. cbn [map seq]. rewrite map_app. cbn [map]. rewrite join_cons, join_app. f_equal; [|f_equal].
  - cbn [Nat.eqb orb]. unfold bs. cbn [nth]. rewrite Nat.sub_succ, Nat.sub_0_r, Nat.sub_0_r, Nat.add_1_r. cbn [nth].
    by rewrite app_nth2, Nat.sub_diag by lia.
  - f_equal. rewrite <- map_rev_nth. apply map_ext_in. intros q Hq%in_seq. rewrite Nat.sub_succ, Nat.sub_0_r.
    replace (q =? 0)%nat with false by (symmetry; apply Nat.eqb_neq; lia).
    replace (q =? length ks + 1)%nat with false by (symmetry; apply Nat.eqb_neq; lia). cbn [orb].
    unfold bs. replace (length ks + 1 - q)%nat with (S (length ks - q)) by lia. cbn [nth]. by rewrite app_nth1 by lia.
  - rewrite Nat.sub_succ, Nat.sub_0_r. replace (1 + length ks)%nat with (length ks + 1)%nat by lia.
    rewrite Nat.eqb_refl, orb_true_r, Nat.sub_diag. cbn. by rewrite app_nil_r.
Qed.

(** C13: Decryption undoes encryption, for every key of 128, 192 or 256 bits. *)
Theorem aes_decrypt_encrypt key pt :
  aes_key key -> length pt = 4%nat -> Forall is_int32 pt -> Aes.decrypt key (Aes.encrypt key pt) = pt.
Proof.
  intros Hkey Hl Hint. destruct (encryptKey_blocks key Hkey) as (k0 & ks & kn & E & _ & H0 & Hks & Hn).
  destruct (encryptKey_spec key Hkey) as (_ & _ & Hok). unfold decrypt, encrypt. rewrite E in *.
  rewrite decryptKey_blocks by done. by apply crypt_inverse.
Qed.

Lemma aes_decrypt_encrypt_witness :
  decrypt fips_key (encrypt fips_key (fromByteArray fips_input 4)) = fromByteArray fips_input 4.
Proof.
  apply (aes_decrypt_encrypt fips_key (fromByteArray fips_input 4)).
  - apply fips_key_ok.
  - reflexivity.
  - let v := eval vm_compute in (fromByteArray fips_input 4) in
    change (fromByteArray fips_input 4) with v. rewrite !Forall_cons. unfold is_int32. split_and!; lia || constructor.
Defined.
