(* ===== verification/Ccm.v ===== *)
(** * AES-CCM

    Models general/src/crypto/aes/Ccm.ts: authenticated encryption of messages
    with CBC-MAC and counter mode.

    The five working buffers are module-level singletons, kept between calls:
    they are the state [Buffers], each of them 16 bytes of memory that the code
    accesses both as bytes and as four words in platform byte order.  [little]
    is that byte order, [aes] the block encryption of the key in place.

    The results are shown to depend neither on the byte order nor on what
    earlier calls left in the buffers (CcmSpec.v). *)

From S2P Require Import Prelude DataIO Aes.

Record Buffers := mkBuffers {
  computedMic : list Z;
  inputMic : list Z;
  ctrBlock : list Z;
  tempBlock1 : list Z;
  tempBlock2 : list Z;
}.

Definition zero_block : list Z := repeat 0 16.
Definition new_buffers : Buffers := mkBuffers zero_block zero_block zero_block zero_block zero_block.

Definition set_computedMic (b : list Z) (st : Buffers) : Buffers :=
  mkBuffers b (inputMic st) (ctrBlock st) (tempBlock1 st) (tempBlock2 st).
Definition set_inputMic (b : list Z) (st : Buffers) : Buffers :=
  mkBuffers (computedMic st) b (ctrBlock st) (tempBlock1 st) (tempBlock2 st).
Definition set_ctrBlock (b : list Z) (st : Buffers) : Buffers :=
  mkBuffers (computedMic st) (inputMic st) b (tempBlock1 st) (tempBlock2 st).
Definition set_tempBlock1 (b : list Z) (st : Buffers) : Buffers :=
  mkBuffers (computedMic st) (inputMic st) (ctrBlock st) b (tempBlock2 st).
Definition set_tempBlock2 (b : list Z) (st : Buffers) : Buffers :=
  mkBuffers (computedMic st) (inputMic st) (ctrBlock st) (tempBlock1 st) b.

(** [Ccm.Input] *)
Record Input := mkInput {
  nonce : list Z;
  adata : option (list Z);
  micLength : option Z;
}.

Definition CRYPTO_AEAD_MIC_LENGTH_BYTES : Z := 16.

(** Overwrite the bytes of [dst] from [off] on. *)
Definition splice (dst : list Z) (off : nat) (src : list Z) : list Z :=
  take off dst ++ src ++ drop (off + length src) dst.

(** The [micLength] bytes [writePartialWord] stores. *)
Definition writePartialWord (word : Z) (available : nat) : list Z :=
  take available [byte3 word; byte2 word; byte1 word; byte0 word].

(** ** Arguments *)

Definition validateNonceAndAdata (input : Input) : result unit :=
  let n := byteLength (nonce input) in
  let* _ := throw_if (negb (n =? 12) && negb (n =? 13)) CryptoInputError in
  let* _ :=
    match micLength input with
    | Some m => throw_if ((m <? 4) || (16 <? m) || negb (m mod 2 =? 0)) CryptoInputError
    | None => Ok tt
    end in
  match adata input with
  | Some a => throw_if (0xffff <? byteLength a) CryptoInputError
  | None => Ok tt
  end.

Definition bytesInLengthFor (nonceLength : Z) : result Z :=
  let L := 15 - nonceLength in
  let* _ := throw_if ((L <? 2) || (3 <? L)) CryptoInputError in Ok L.

Definition maxPlaintextForL (L mic : Z) : Z := 2 ^ (L * 8) - mic.

Section Ccm.

Context (little : bool) (aes : list Z -> list Z).

(** ** Views of a buffer *)

Definition get_word (b : list Z) (i : nat) : Z := to_signed 4 (view_value little (take 4 (drop (4 * i) b))).
Definition set_word (b : list Z) (i : nat) (v : Z) : list Z := splice b (4 * i) (view_bytes little 4 v).

Definition words (b : list Z) : list Z := map (get_word b) [0; 1; 2; 3]%nat.
Definition set_words (b : list Z) (ws : list Z) : list Z :=
  foldl (fun b p => set_word b p.1 p.2) b (zip [0; 1; 2; 3]%nat ws).

(** [bytesToBlock] from a buffer that is not the target. *)
Definition block_word (bytes : list Z) (off : nat) : Z :=
  if (off + 4 <=? length bytes)%nat then getInt32 bytes off
  else if (length bytes <=? off)%nat then 0
  else int32 (readPartialWord bytes off (length bytes - off)).

Definition bytesToBlock (bytes block : list Z) (off : nat) : list Z :=
  set_words block (map (fun i => block_word bytes (off + 4 * i)) [0; 1; 2; 3]%nat).

(** [bytesToBlock(b.view, b.words)]: the loop reads what it has not yet written. *)
Definition bytesToBlock_self (b : list Z) : list Z :=
  foldl (fun b i => set_word b i (block_word b (4 * i))) b [0; 1; 2; 3]%nat.

(** [serializeMic] *)
Definition serializeMic (b : list Z) : list Z :=
  foldl (fun b i => splice b (4 * i) (view_bytes false 4 (get_word b i))) b [0; 1; 2; 3]%nat.

(** [a.words[k] ^= b.words[k]] for all four words. *)
Definition xor_words (a b : list Z) : list Z := set_words a (zip_with js_xor (words a) (words b)).

(** [aes.encrypt(a.words, b.words)] *)
Definition aes_into (a b : list Z) : list Z := set_words b (aes (words a)).

(** The first byte, the nonce, and zeros up to the end of the block. *)
Definition header (b : list Z) (first : Z) (nonce : list Z) : list Z :=
  let b := splice b 0 [first mod 256] in
  let b := splice b 1 nonce in
  foldl (fun b i => splice b i [0]) b (seq (1 + length nonce) (15 - length nonce)).

(** ** CBC-MAC *)

Definition add (st : Buffers) : Buffers :=
  let b := xor_words (computedMic st) (tempBlock1 st) in set_computedMic (aes_into b b) st.

Fixpoint add_blocks (fuel : nat) (data : list Z) (i : nat) (st : Buffers) : Buffers :=
  match fuel with
  | O => st
  | S fuel =>
      if (i <? length data)%nat then
        add_blocks fuel data (i + 16) (add (set_tempBlock1 (bytesToBlock data (tempBlock1 st) i) st))
      else st
  end.

(** Length and first 14 bytes of the associated data. *)
Definition first_adata (b a : list Z) : list Z :=
  let b := splice b 0 (view_bytes false 2 (byteLength a)) in
  foldl (fun b i => splice b (i + 2) [if (i <? length a)%nat then nth i a 0 else 0]) b (seq 0 14).

Definition cbcMac (input : Input) (pt : list Z) (mic L : Z) (st : Buffers) : Buffers :=
  let a := default [] (adata input) in
  let hasAdata := negb (length a =? 0)%nat in
  let flags := js_or (js_or (if hasAdata then js_shl 1 6 else 0) (js_shl (mic - 2) 2)) (L - 1) in
  let b := bytesToBlock_self (header (computedMic st) flags (nonce input)) in
  let lengthMask := if L =? 2 then 0xffff0000 else 0xff000000 in
  let b := set_word b 3 (js_or (js_and (get_word b 3) lengthMask) (byteLength pt)) in
  let st := set_computedMic (aes_into b b) st in
  let st :=
    if hasAdata then
      let st := add (set_tempBlock1 (bytesToBlock_self (first_adata (tempBlock1 st) a)) st) in
      add_blocks (length a) a 14 st
    else st in
  add_blocks (length pt) pt 0 st.

(** ** Counter mode *)

(** The copy of one block: whole words, and the last one by bytes. *)
Fixpoint copy_words (from to : list Z) (ptLength i : nat) (ws : list Z) : nat * list Z :=
  match ws with
  | [] => (i, to)
  | w :: ws =>
      if (i <? ptLength)%nat then
        let to :=
          if (i + 4 <? ptLength)%nat then splice to i (view_bytes false 4 (js_xor (getInt32 from i) w))
          else
            let n := (ptLength - i)%nat in
            splice to i (writePartialWord (js_xor (readPartialWord from i n) w) n) in
        copy_words from to ptLength (i + 4) ws
      else (i, to)
  end.

Fixpoint ctr_loop (fuel : nat) (from to : list Z) (ptLength i : nat) (st : Buffers) : list Z * Buffers :=
  match fuel with
  | O => (to, st)
  | S fuel =>
      if (i <? ptLength)%nat then
        let c := set_word (ctrBlock st) 3 (get_word (ctrBlock st) 3 + 1) in
        let st := set_ctrBlock c st in
        let st := set_tempBlock1 (bytesToBlock from (tempBlock1 st) i) st in
        let st := set_tempBlock2 (aes_into c (tempBlock2 st)) st in
        let '(i, to) := copy_words from to ptLength i (words (tempBlock2 st)) in
        ctr_loop fuel from to ptLength i st
      else (to, st)
  end.

(** The counter block, and the tag buffer [mic] encrypted in place. *)
Definition ctr_start (input : Input) (L : Z) (mic : list Z) (st : Buffers) : list Z * Buffers :=
  let st := set_tempBlock1 (header (tempBlock1 st) (L - 1) (nonce input)) st in
  let st := set_ctrBlock (bytesToBlock (tempBlock1 st) (ctrBlock st) 0) st in
  let st := set_tempBlock1 (aes_into (ctrBlock st) (tempBlock1 st)) st in
  (xor_words mic (tempBlock1 st), st).

(** ** Encryption and decryption *)

Definition mic_length (input : Input) : Z := default CRYPTO_AEAD_MIC_LENGTH_BYTES (micLength input).

Definition encrypt (input : Input) (pt : list Z) (st : Buffers) : result (list Z) * Buffers :=
  match
    let* _ := validateNonceAndAdata input in
    let* L := bytesInLengthFor (byteLength (nonce input)) in
    let* _ := throw_if (maxPlaintextForL L (mic_length input) <? byteLength pt) CryptoInputError in
    Ok L
  with
  | Throw e => (Throw e, st)
  | Ok L =>
      let ptLength := length pt in
      let ct := repeat 0 (ptLength + Z.to_nat (mic_length input)) in
      let st := cbcMac input pt (mic_length input) L st in
      let '(mic, st) := ctr_start input L (computedMic st) st in
      let '(ct, st) := ctr_loop ptLength pt ct ptLength 0 (set_computedMic mic st) in
      let st := set_computedMic (serializeMic (computedMic st)) st in
      (Ok (splice ct ptLength (take (Z.to_nat (mic_length input)) (computedMic st))), st)
  end.

(** [micDiff]: the differences of the first [n] bytes, accumulated. *)
Definition mic_diff (a b : list Z) (n : nat) : Z :=
  foldl (fun d i => js_or d (js_xor (nth i a 0) (nth i b 0))) 0 (seq 0 n).

Definition decrypt (input : Input) (ct : list Z) (st : Buffers) : result (list Z) * Buffers :=
  let ptLength := byteLength ct - mic_length input in
  match
    let* _ := validateNonceAndAdata input in
    let* L := bytesInLengthFor (byteLength (nonce input)) in
    let* _ := throw_if (ptLength <? 0) CryptoInputError in
    let* _ := throw_if (maxPlaintextForL L (mic_length input) <? ptLength) CryptoInputError in
    Ok L
  with
  | Throw e => (Throw e, st)
  | Ok L =>
      let n := Z.to_nat ptLength in
      let from := take n ct in
      let st := set_inputMic (bytesToBlock (drop n ct) (inputMic st) 0) st in
      let '(mic, st) := ctr_start input L (inputMic st) st in
      let '(pt, st) := ctr_loop n from (repeat 0 n) n 0 (set_inputMic mic st) in
      let st := cbcMac input pt (mic_length input) L st in
      let st := set_computedMic (serializeMic (computedMic st)) st in
      let st := set_inputMic (serializeMic (inputMic st)) st in
      if mic_diff (computedMic st) (inputMic st) (Z.to_nat (mic_length input)) =? 0 then (Ok pt, st)
      else (Throw CryptoDecryptError, st)
  end.

End Ccm.

(** The methods of [Ccm(key)]. *)
Definition ccm_encrypt (little : bool) (key : list Z) := encrypt little (Aes.encrypt key).
Definition ccm_decrypt (little : bool) (key : list Z) := decrypt little (Aes.encrypt key).

(** Packet vector 1 of RFC 3610. *)
Example rfc3610_vector_1 :
  fst (ccm_encrypt true [0xC0;0xC1;0xC2;0xC3;0xC4;0xC5;0xC6;0xC7;0xC8;0xC9;0xCA;0xCB;0xCC;0xCD;0xCE;0xCF]
    (mkInput [0;0;0;3;2;1;0;0xA0;0xA1;0xA2;0xA3;0xA4;0xA5] (Some [0;1;2;3;4;5;6;7]) (Some 8))
    [8;9;0xA;0xB;0xC;0xD;0xE;0xF;0x10;0x11;0x12;0x13;0x14;0x15;0x16;0x17;0x18;0x19;0x1A;0x1B;0x1C;0x1D;0x1E]
    new_buffers) =
  Ok [0x58;0x8C;0x97;0x9A;0x61;0xC6;0x63;0xD2;0xF0;0x66;0xD0;0xC2;0xC0;0xF9;0x89;0x80;0x6D;0x5F;0x6B;0x61;0xDA;0xC3;0x84;
      0x17;0xE8;0xD1;0x2C;0xFD;0xF9;0x26;0xE0].
Proof. vm_compute. reflexivity. Qed.
