(* ===== verification/CcmSpec.v ===== *)
(** * AES-CCM: NIST SP 800-38C

    The specification of CCM on bytes, and that Ccm.v implements it whatever the
    byte order of the platform and the contents of the shared buffers. *)

From Stdlib Require Import Btauto.
From S2P Require Import Prelude DataIO Aes AesSpec Ccm.
Import Fips.

(** ** The specification *)

Module Nist.

Section Nist.

(** The block cipher on 16 bytes. *)
Context (E : list Z -> list Z).

Definition be (n : nat) (v : Z) : list Z := view_bytes false n v.

Definition pad16 (l : list Z) : list Z := l ++ repeat 0 ((16 - length l mod 16) mod 16).

Definition blocks (l : list Z) : list (list Z) :=
  map (fun k => take 16 (drop (16 * k) (pad16 l))) (seq 0 (length (pad16 l) / 16)).

Definition cbc_mac (x : list Z) (bs : list (list Z)) : list Z := foldl (fun x b => E (xor_bytes x b)) x bs.

(** Appendix A.2: the control information, the length of the associated data,
    and the blocks that are authenticated. *)
Definition flags (hasAdata : bool) (mic L : Z) : Z := (if hasAdata then 64 else 0) + 8 * ((mic - 2) / 2) + (L - 1).

Definition b0 (nonce : list Z) (hasAdata : bool) (mic L : Z) (len : Z) : list Z :=
  flags hasAdata mic L :: nonce ++ be (Z.to_nat L) len.

Definition adata_length (len : Z) : list Z := if len <? 0xff00 then be 2 len else [0xff; 0xfe] ++ be 4 len.

Definition ctr (nonce : list Z) (L i : Z) : list Z := (L - 1) :: nonce ++ be (Z.to_nat L) i.

(** The key stream for [n] bytes. *)
Definition keystream (nonce : list Z) (L : Z) (n : nat) : list Z :=
  mjoin (map (fun i => E (ctr nonce L (Z.of_nat i))) (seq 1 ((n + 15) / 16))).

(** The tag before encryption; [len_a] encodes the length of the data. *)
Definition tag (len_a : Z -> list Z) (nonce a : list Z) (mic L : Z) (pt : list Z) : list Z :=
  let hasAdata := negb (length a =? 0)%nat in
  cbc_mac (E (b0 nonce hasAdata mic L (byteLength pt)))
    ((if hasAdata then blocks (len_a (byteLength a) ++ a) else []) ++ blocks pt).

Definition ciphertext (nonce : list Z) (L : Z) (pt : list Z) : list Z :=
  xor_bytes pt (keystream nonce L (length pt)).

Definition encrypted_tag (len_a : Z -> list Z) (nonce a : list Z) (mic L : Z) (pt : list Z) : list Z :=
  take (Z.to_nat mic) (xor_bytes (tag len_a nonce a mic L pt) (E (ctr nonce L 0))).

(** Generation-encryption. *)
Definition encrypt_with (len_a : Z -> list Z) (nonce a : list Z) (mic : Z) (pt : list Z) : list Z :=
  let L := 15 - byteLength nonce in
  ciphertext nonce L pt ++ encrypted_tag len_a nonce a mic L pt.

Definition encrypt : list Z -> list Z -> Z -> list Z -> list Z := encrypt_with adata_length.

End Nist.

End Nist.

Import Nist.

(** ** Words and bytes of a block *)

Definition is_block (b : list Z) : Prop := length b = 16%nat /\ bytes_ok b.
Definition is_words (ws : list Z) : Prop := length ws = 4%nat /\ Forall is_int32 ws.

(** The words of 16 bytes, most significant byte first, and back. *)
Definition bw (b : list Z) : list Z := map wordOf (fours b).
Definition wbs (ws : list Z) : list Z := mjoin (map wb ws).

Lemma wordOf_wb w : is_int32 w -> wordOf (wb w) = w.
Proof.
  intros Hw. apply wb_inj; [apply wordOf_int32|done|apply wb_wordOf];
    (apply view_bytes_length || apply view_bytes_ok).
Qed.

Lemma wb_length w : length (wb w) = 4%nat.
Proof. apply view_bytes_length. Qed.

Ltac cases_words H :=
  let Hl := fresh in let Hi := fresh in
  destruct H as [Hl Hi];
  match type of Hl with length ?c = _ => destruct c as [|? [|? [|? [|? [|]]]]]; try discriminate Hl end; clear Hl;
  rewrite !Forall_cons in Hi; destruct Hi as (? & ? & ? & ? & _).

Lemma is_block_four a b c d :
  length a = 4%nat -> bytes_ok a -> length b = 4%nat -> bytes_ok b -> length c = 4%nat -> bytes_ok c ->
  length d = 4%nat -> bytes_ok d -> is_block (a ++ b ++ c ++ d).
Proof. intros. split; [rewrite !length_app; lia|]. unfold bytes_ok in *. by rewrite !Forall_app. Qed.

(** A block is four groups of four bytes. *)
Lemma block_cases b :
  is_block b -> exists p q r s, b = p ++ q ++ r ++ s /\
    length p = 4%nat /\ length q = 4%nat /\ length r = 4%nat /\ length s = 4%nat /\
    bytes_ok p /\ bytes_ok q /\ bytes_ok r /\ bytes_ok s.
Proof.
  intros [Hl Hb]. exists (take 4 b), (take 4 (drop 4 b)), (take 4 (drop 8 b)), (drop 12 b).
  assert (E : forall n, drop n b = take 4 (drop n b) ++ drop (n + 4) b).
  { intros n. by rewrite <- drop_drop, take_drop. }
  split; [rewrite <- (E 8%nat : drop 8 b = take 4 (drop 8 b) ++ drop 12 b);
    by rewrite <- (E 4%nat : drop 4 b = take 4 (drop 4 b) ++ drop 8 b), take_drop|].
  rewrite !length_take, !length_drop, Hl. unfold bytes_ok in *. split_and!; try done; auto using Forall_take, Forall_drop.
Qed.

Lemma bw_four p q r s :
  length p = 4%nat -> length q = 4%nat -> length r = 4%nat -> length s = 4%nat ->
  bw (p ++ q ++ r ++ s) = [wordOf p; wordOf q; wordOf r; wordOf s].
Proof.
  intros Hp Hq Hr Hs. unfold bw. rewrite !fours_app by done. rewrite <- (app_nil_r s), fours_app by done. cbn [fours map].
  by rewrite app_nil_r.
Qed.

Lemma bw_words b : is_block b -> is_words (bw b).
Proof.
  intros (p & q & r & s & -> & ? & ? & ? & ? & ? & ? & ? & ?)%block_cases. rewrite bw_four by done. split; [done|].
  rewrite !Forall_cons. split_and!; try apply Forall_nil_2; by apply wordOf_int32.
Qed.

Lemma wbs_bw b : is_block b -> wbs (bw b) = b.
Proof.
  intros (p & q & r & s & -> & ? & ? & ? & ? & ? & ? & ? & ?)%block_cases. rewrite bw_four by done.
  unfold wbs. cbn [map]. rewrite !wb_wordOf by done. rewrite !join_cons. cbn [mjoin list_join]. by rewrite app_nil_r.
Qed.

Lemma wbs_block ws : is_words ws -> is_block (wbs ws).
Proof.
  intros Hw. cases_words Hw. unfold wbs. cbn [map]. rewrite !join_cons. cbn [mjoin list_join]. rewrite app_nil_r.
  apply is_block_four; (apply view_bytes_length || apply view_bytes_ok).
Qed.

Lemma bw_wbs ws : is_words ws -> bw (wbs ws) = ws.
Proof.
  intros Hw. cases_words Hw. unfold wbs. cbn [map]. rewrite !join_cons. cbn [mjoin list_join]. rewrite app_nil_r.
  rewrite bw_four by apply view_bytes_length. by rewrite !wordOf_wb.
Qed.

Lemma bw_xor a b : is_block a -> is_block b -> zip_with js_xor (bw a) (bw b) = bw (xor_bytes a b).
Proof.
  intros Ha Hb.
  assert (Hw : is_words (zip_with js_xor (bw a) (bw b))).
  { pose proof (bw_words a Ha) as Hwa. pose proof (bw_words b Hb) as Hwb.
    generalize dependent (bw a). generalize dependent (bw b). intros v Hv u Hu. cases_words Hu. cases_words Hv.
    split; [done|]. cbn [zip_with]. rewrite !Forall_cons. split_and!; try apply Forall_nil_2; apply js_xor_int32. }
  rewrite <- (bw_wbs _ Hw). f_equal. rewrite <- (wbs_bw a Ha) at 2. rewrite <- (wbs_bw b Hb) at 2.
  pose proof (bw_words a Ha) as Hwa. pose proof (bw_words b Hb) as Hwb. clear Hw.
  generalize dependent (bw a). generalize dependent (bw b). intros v Hv u Hu. cases_words Hu. cases_words Hv.
  unfold wbs, xor_bytes. cbn [zip_with map]. rewrite !wb_xor, !join_cons. cbn [mjoin list_join]. unfold xor_bytes.
  rewrite !zip_with_app by (by rewrite !wb_length). done.
Qed.

(** ** Buffers *)

Lemma splice_at a m c m' : length m' = length m -> splice (a ++ m ++ c) (length a) m' = a ++ m' ++ c.
Proof.
  intros Hl. unfold splice. rewrite take_app_length, Hl, <- drop_drop, drop_app_length, drop_app_length. done.
Qed.

Lemma splice_is l n m' a m c :
  l = a ++ m ++ c -> n = length a -> length m' = length m -> splice l n m' = a ++ m' ++ c.
Proof. intros -> ->. apply splice_at. Qed.

Lemma splice_length b i v : (i + length v <= length b)%nat -> length (splice b i v) = length b.
Proof. intros Hi. unfold splice. rewrite !length_app, length_take, length_drop. lia. Qed.

Section Buffer.

Context (little : bool).

Definition mem (ws : list Z) : list Z := mjoin (map (view_bytes little 4) ws).

Lemma mem_four a b c d : mem [a; b; c; d] = view_bytes little 4 a ++ view_bytes little 4 b ++ view_bytes little 4 c ++ view_bytes little 4 d.
Proof. unfold mem. cbn [map]. rewrite !join_cons. cbn [mjoin list_join]. by rewrite app_nil_r. Qed.

(** A 16-byte buffer, whatever it holds. *)
Definition buf (b : list Z) : Prop := length b = 16%nat.

Lemma buf_cases b : buf b -> exists p q r s, b = p ++ q ++ r ++ s /\
  length p = 4%nat /\ length q = 4%nat /\ length r = 4%nat /\ length s = 4%nat.
Proof.
  intros Hl. unfold buf in Hl.
  do 16 (destruct b as [|? b]; [discriminate Hl|]). destruct b; [|discriminate Hl].
  eexists [_; _; _; _], [_; _; _; _], [_; _; _; _], [_; _; _; _]. done.
Qed.

Lemma splice_four p q r s v :
  length p = 4%nat -> length q = 4%nat -> length r = 4%nat -> length s = 4%nat -> length v = 4%nat ->
  splice (p ++ q ++ r ++ s) (4 * 0) v = v ++ q ++ r ++ s /\
  splice (p ++ q ++ r ++ s) (4 * 1) v = p ++ v ++ r ++ s /\
  splice (p ++ q ++ r ++ s) (4 * 2) v = p ++ q ++ v ++ s /\
  splice (p ++ q ++ r ++ s) (4 * 3) v = p ++ q ++ r ++ v.
Proof.
  intros Hp Hq Hr Hs Hv. split_and!.
  - apply (splice_at [] p (q ++ r ++ s)). lia.
  - replace (4 * 1)%nat with (length p) by lia. apply (splice_at p q (r ++ s)). lia.
  - rewrite (app_assoc p q). replace (4 * 2)%nat with (length (p ++ q)) by (rewrite length_app; lia).
    rewrite splice_at by lia. by rewrite <- app_assoc.
  - rewrite (app_assoc q r s), (app_assoc p). replace (4 * 3)%nat with (length (p ++ q ++ r)) by (rewrite !length_app; lia).
    pose proof (splice_at (p ++ q ++ r) s [] v ltac:(lia)) as E. rewrite !app_nil_r in E.
    rewrite E. by rewrite <- !app_assoc.
Qed.

Lemma set_word_four p q r s v :
  length p = 4%nat -> length q = 4%nat -> length r = 4%nat -> length s = 4%nat ->
  set_word little (p ++ q ++ r ++ s) 0 v = view_bytes little 4 v ++ q ++ r ++ s /\
  set_word little (p ++ q ++ r ++ s) 1 v = p ++ view_bytes little 4 v ++ r ++ s /\
  set_word little (p ++ q ++ r ++ s) 2 v = p ++ q ++ view_bytes little 4 v ++ s /\
  set_word little (p ++ q ++ r ++ s) 3 v = p ++ q ++ r ++ view_bytes little 4 v.
Proof. intros. unfold set_word. apply splice_four; [done..|apply view_bytes_length]. Qed.

(** The groups of four bytes a word access reads. *)
Lemma groups_four (p q r s : list Z) :
  length p = 4%nat -> length q = 4%nat -> length r = 4%nat -> length s = 4%nat ->
  take 4 (drop (4 * 0) (p ++ q ++ r ++ s)) = p /\ take 4 (drop (4 * 1) (p ++ q ++ r ++ s)) = q /\
  take 4 (drop (4 * 2) (p ++ q ++ r ++ s)) = r /\ take 4 (drop (4 * 3) (p ++ q ++ r ++ s)) = s.
Proof.
  intros Hp Hq Hr Hs. split_and!.
  - change (4 * 0)%nat with 0%nat. rewrite drop_0. by rewrite take_app_length'.
  - rewrite drop_app_length' by lia. by rewrite take_app_length'.
  - rewrite (app_assoc p q), drop_app_length' by (rewrite length_app; lia). by rewrite take_app_length'.
  - rewrite (app_assoc q r s), (app_assoc p), drop_app_length' by (rewrite !length_app; lia). by rewrite take_ge by lia.
Qed.

Lemma get_word_four p q r s :
  length p = 4%nat -> length q = 4%nat -> length r = 4%nat -> length s = 4%nat ->
  words little (p ++ q ++ r ++ s) = map (fun x => to_signed 4 (view_value little x)) [p; q; r; s].
Proof.
  intros Hp Hq Hr Hs. unfold words, get_word. cbn [map].
  by destruct (groups_four p q r s Hp Hq Hr Hs) as (-> & -> & -> & ->).
Qed.

Lemma set_words_mem b ws : buf b -> length ws = 4%nat -> set_words little b ws = mem ws.
Proof.
  intros (p & q & r & s & -> & Hp & Hq & Hr & Hs)%buf_cases Hw. destruct ws as [|w0 [|w1 [|w2 [|w3 [|]]]]]; try discriminate Hw.
  unfold set_words. cbn [zip zip_with foldl fst snd]. rewrite mem_four. pose proof (view_bytes_length little 4) as Hv.
  destruct (set_word_four p q r s w0) as (-> & _); [done..|].
  destruct (set_word_four (view_bytes little 4 w0) q r s w1) as (_ & -> & _); [done..|].
  destruct (set_word_four (view_bytes little 4 w0) (view_bytes little 4 w1) r s w2) as (_ & _ & -> & _); [done..|].
  by destruct (set_word_four (view_bytes little 4 w0) (view_bytes little 4 w1) (view_bytes little 4 w2) s w3) as (_ & _ & _ & ->).
Qed.

Lemma signed_bytes w : is_int32 w -> to_signed 4 (view_value little (view_bytes little 4 w)) = w.
Proof. intros Hw. rewrite view_value_bytes. apply to_signed_mod; [lia|]. exact Hw. Qed.

Lemma words_mem ws : is_words ws -> words little (mem ws) = ws.
Proof.
  intros Hw. cases_words Hw. rewrite mem_four, get_word_four by apply view_bytes_length. cbn [map].
  by rewrite !signed_bytes.
Qed.

Lemma mem_buf ws : length ws = 4%nat -> buf (mem ws).
Proof.
  intros Hw. destruct ws as [|w0 [|w1 [|w2 [|w3 [|]]]]]; try discriminate Hw. rewrite mem_four. unfold buf.
  by rewrite !length_app, !view_bytes_length.
Qed.

(** The 16 bytes of [data] from [off] on, filled up with zeros. *)
Definition blk (data : list Z) (off : nat) : list Z := map (fun i => nth (off + i) data 0) (seq 0 16).

Lemma nth_byte data i : bytes_ok data -> is_byte (nth i data 0).
Proof.
  intros Hb. destruct (nth_in_or_default i data 0) as [Hi| ->]; [|unfold is_byte; lia].
  unfold bytes_ok in Hb. rewrite List.Forall_forall in Hb. by apply Hb.
Qed.

Lemma blk_block data off : bytes_ok data -> is_block (blk data off).
Proof.
  intros Hb. split; [done|]. unfold blk, bytes_ok. apply List.Forall_forall.
  intros x (i & <- & _)%in_map_iff. by apply nth_byte.
Qed.

Lemma block_word_spec data o :
  bytes_ok data -> block_word data o = wordOf [nth o data 0; nth (o + 1) data 0; nth (o + 2) data 0; nth (o + 3) data 0].
Proof.
  intros Hb. rewrite <- (Nat.add_0_r o) at 2. rewrite <- !nth_skipn.
  assert (Hl : length data = (length (drop o data) + (length data - length (drop o data)))%nat) by (rewrite length_drop; lia).
  pose proof (length_drop data o) as Hd. pose proof (Forall_drop _ o _ Hb) as Hbd.
  assert (Hint : forall l, length l = 4%nat -> bytes_ok l -> int32 (view_value false l) = wordOf l).
  { intros l Hl4 Hbl. unfold wordOf, to_signed. pose proof (view_value_range false l Hbl) as Hr. rewrite Hl4 in Hr.
    change (2 ^ (8 * Z.of_nat 4)) with (2 ^ 32) in *. change (8 * Z.of_nat 4 - 1) with 31. unfold int32.
    destruct (Z.ltb_spec (view_value false l) (2 ^ 31)); [rewrite Z.mod_small; lia|].
    rewrite <- (Z.mod_add _ (-1) (2 ^ 32)) by lia. rewrite Z.mod_small; lia. }
  unfold block_word, getInt32, readPartialWord. destruct (Nat.leb_spec (o + 4) (length data)) as [H4|H4].
  - destruct (drop o data) as [|a [|b [|c [|d l]]]] eqn:E; cbn in Hd; try lia. done.
  - destruct (Nat.leb_spec (length data) o) as [H0|H0].
    + rewrite (skipn_all2 data) by lia. done.
    + rewrite Hint.
      * destruct (drop o data) as [|a [|b [|c [|d l]]]] eqn:E; cbn in Hd; try lia;
          [replace (length data - o)%nat with 1%nat by lia|replace (length data - o)%nat with 2%nat by lia|
           replace (length data - o)%nat with 3%nat by lia]; done.
      * rewrite length_app, repeat_length, !length_take, length_drop. lia.
      * apply Forall_app. split; [by do 2 apply Forall_take|]. apply List.Forall_forall. intros x ->%repeat_spec. unfold is_byte. lia.
Qed.

Lemma bytesToBlock_spec data b off :
  bytes_ok data -> buf b -> bytesToBlock little data b off = mem (bw (blk data off)).
Proof.
  intros Hd Hb. unfold bytesToBlock. rewrite set_words_mem by done. f_equal. cbn [map]. rewrite !block_word_spec by done.
  unfold bw, blk. cbn [seq map fours]. rewrite <- !Nat.add_assoc. reflexivity.
Qed.

Lemma blk_self b : buf b -> blk b 0 = b.
Proof.
  intros Hb. unfold buf in Hb. do 16 (destruct b as [|? b]; [discriminate Hb|]). by destruct b.
Qed.

Lemma block_word_full b i : (i < 4)%nat -> buf b -> block_word b (4 * i) = wordOf (take 4 (drop (4 * i) b)).
Proof. intros Hi Hb. unfold buf in Hb. unfold block_word. by destruct (Nat.leb_spec (4 * i + 4) (length b)); [|lia]. Qed.

Lemma bytesToBlock_self_spec b : buf b -> bytesToBlock_self little b = mem (bw b).
Proof.
  intros Hb. pose proof (view_bytes_length little 4) as Hv. destruct (buf_cases b Hb) as (p & q & r & s & -> & Hp & Hq & Hr & Hs).
  rewrite bw_four, mem_four by done. unfold bytesToBlock_self. cbn [foldl].
  assert (Hbuf : forall p q r s : list Z, length p = 4%nat -> length q = 4%nat -> length r = 4%nat -> length s = 4%nat -> buf (p ++ q ++ r ++ s)).
  { intros. unfold buf. rewrite !length_app. lia. }
  rewrite block_word_full by (lia || auto). destruct (groups_four p q r s) as (-> & _); [done..|].
  destruct (set_word_four p q r s (wordOf p)) as (-> & _); [done..|].
  rewrite block_word_full by (lia || auto). destruct (groups_four (view_bytes little 4 (wordOf p)) q r s) as (_ & -> & _); [done..|].
  destruct (set_word_four (view_bytes little 4 (wordOf p)) q r s (wordOf q)) as (_ & -> & _); [done..|].
  rewrite block_word_full by (lia || auto).
  destruct (groups_four (view_bytes little 4 (wordOf p)) (view_bytes little 4 (wordOf q)) r s) as (_ & _ & -> & _); [done..|].
  destruct (set_word_four (view_bytes little 4 (wordOf p)) (view_bytes little 4 (wordOf q)) r s (wordOf r)) as (_ & _ & -> & _); [done..|].
  rewrite block_word_full by (lia || auto).
  destruct (groups_four (view_bytes little 4 (wordOf p)) (view_bytes little 4 (wordOf q)) (view_bytes little 4 (wordOf r)) s) as (_ & _ & _ & ->); [done..|].
  by destruct (set_word_four (view_bytes little 4 (wordOf p)) (view_bytes little 4 (wordOf q)) (view_bytes little 4 (wordOf r)) s (wordOf s)) as (_ & _ & _ & ->).
Qed.

Lemma serializeMic_spec ws : is_words ws -> serializeMic little (mem ws) = wbs ws.
Proof.
  intros Hw. cases_words Hw. rewrite mem_four. unfold serializeMic, get_word. cbn [foldl].
  pose proof (view_bytes_length little 4) as Hv. pose proof (view_bytes_length false 4) as Hf.
  destruct (groups_four (view_bytes little 4 z) (view_bytes little 4 z0) (view_bytes little 4 z1) (view_bytes little 4 z2)) as (-> & _); [done..|].
  rewrite signed_bytes by done.
  destruct (splice_four (view_bytes little 4 z) (view_bytes little 4 z0) (view_bytes little 4 z1) (view_bytes little 4 z2) (view_bytes false 4 z)) as (-> & _); [done..|].
  destruct (groups_four (view_bytes false 4 z) (view_bytes little 4 z0) (view_bytes little 4 z1) (view_bytes little 4 z2)) as (_ & -> & _); [done..|].
  rewrite signed_bytes by done.
  destruct (splice_four (view_bytes false 4 z) (view_bytes little 4 z0) (view_bytes little 4 z1) (view_bytes little 4 z2) (view_bytes false 4 z0)) as (_ & -> & _); [done..|].
  destruct (groups_four (view_bytes false 4 z) (view_bytes false 4 z0) (view_bytes little 4 z1) (view_bytes little 4 z2)) as (_ & _ & -> & _); [done..|].
  rewrite signed_bytes by done.
  destruct (splice_four (view_bytes false 4 z) (view_bytes false 4 z0) (view_bytes little 4 z1) (view_bytes little 4 z2) (view_bytes false 4 z1)) as (_ & _ & -> & _); [done..|].
  destruct (groups_four (view_bytes false 4 z) (view_bytes false 4 z0) (view_bytes false 4 z1) (view_bytes little 4 z2)) as (_ & _ & _ & ->); [done..|].
  rewrite signed_bytes by done.
  destruct (splice_four (view_bytes false 4 z) (view_bytes false 4 z0) (view_bytes false 4 z1) (view_bytes little 4 z2) (view_bytes false 4 z2)) as (_ & _ & _ & ->); [done..|].
  unfold wbs, wb. cbn [map]. rewrite !join_cons. cbn [mjoin list_join]. by rewrite app_nil_r.
Qed.

(** ** Headers *)

(** A loop that stores one byte after the other. *)
Lemma fill_spec (f : nat -> Z) (g : nat -> nat) k s a c :
  (forall i, g i = (i + k)%nat) -> length a = (s + k)%nat ->
  foldl (fun b i => splice b (g i) [f i]) (a ++ c) (seq s (length c)) = a ++ map f (seq s (length c)).
Proof.
  intros Hg. revert s a. induction c as [|y c IH]; intros s a Ha; [done|]. cbn [length seq foldl map].
  rewrite Hg, <- Ha. change (y :: c) with ([y] ++ c). rewrite splice_at by done. rewrite app_assoc, IH.
  - by rewrite <- app_assoc.
  - rewrite length_app. cbn. lia.
Qed.

Lemma zeros_from n s : map (fun _ : nat => 0) (seq s n) = repeat 0 n.
Proof. revert s. induction n as [|n IH]; intros s; [done|]. cbn. by rewrite IH. Qed.

Lemma header_spec b first nonce :
  buf b -> (length nonce <= 15)%nat ->
  header b first nonce = (first mod 256) :: nonce ++ repeat 0 (15 - length nonce).
Proof.
  intros Hb Hn. unfold buf in Hb. unfold header. destruct b as [|y t]; [discriminate Hb|]. cbn in Hb.
  rewrite (splice_is (y :: t) 0 [first mod 256] [] [y] t) by done. cbn [app].
  rewrite (splice_is (first mod 256 :: t) 1 nonce [first mod 256] (take (length nonce) t) (drop (length nonce) t)).
  2:{ cbn [app]. by rewrite take_drop. }
  2:{ done. }
  2:{ rewrite length_take. lia. }
  rewrite app_assoc. replace (15 - length nonce)%nat with (length (drop (length nonce) t)) by (rewrite length_drop; lia).
  pose proof (fill_spec (fun _ => 0) (fun i => i) 0 (1 + length nonce) ([first mod 256] ++ nonce) (drop (length nonce) t)) as Hf.
  rewrite zeros_from in Hf. rewrite Hf; [done|intros; lia|rewrite length_app; cbn; lia].
Qed.

Lemma first_adata_spec b a :
  buf b -> first_adata b a = blk (view_bytes false 2 (byteLength a) ++ a) 0.
Proof.
  intros Hb. unfold buf in Hb. unfold first_adata. set (h := view_bytes false 2 (byteLength a)).
  assert (Hh : length h = 2%nat) by apply view_bytes_length.
  rewrite (splice_is b 0 h [] (take 2 b) (drop 2 b)) by (rewrite ?app_nil_l, ?take_drop, ?length_take; done || lia).
  rewrite app_nil_l.
  replace 14%nat with (length (drop 2 b)) by (rewrite length_drop; lia).
  rewrite (fill_spec (fun i => if (i <? length a)%nat then nth i a 0 else 0) (fun i => (i + 2)%nat) 2 0) by (done || lia).
  replace (length (drop 2 b)) with 14%nat by (rewrite length_drop; lia).
  destruct h as [|h0 [|h1 [|]]]; try discriminate Hh. unfold blk. cbn [app]. cbn [seq map Nat.add nth].
  repeat (f_equal; [try reflexivity|]).
  assert (Hn : forall i, (if (i <? length a)%nat then nth i a 0 else 0) = nth i a 0).
  { intros i. destruct (Nat.ltb_spec i (length a)); [done|]. by rewrite nth_overflow. }
  by rewrite !Hn.
Qed.

(** ** Blocks *)

Definition blocks_from (data : list Z) (i : nat) : list (list Z) :=
  map (fun k => blk data (i + 16 * k)) (seq 0 ((length data - i + 15) / 16)).

Lemma blocks_from_step data i :
  (i < length data)%nat -> blocks_from data i = blk data i :: blocks_from data (i + 16).
Proof.
  intros Hi. unfold blocks_from.
  assert (E : ((length data - i + 15) / 16 = S ((length data - (i + 16) + 15) / 16))%nat).
  { destruct (decide (length data < i + 16)%nat).
    - replace (length data - (i + 16) + 15)%nat with 15%nat by lia. rewrite (Nat.div_small 15) by lia.
      symmetry. apply (Nat.div_unique _ 16 1 (length data - i - 1)); lia.
    - replace (length data - i + 15)%nat with ((length data - (i + 16) + 15) + 1 * 16)%nat by lia. rewrite Nat.div_add; lia. }
  rewrite E. cbn [seq map]. rewrite Nat.mul_0_r, Nat.add_0_r. f_equal. rewrite <- seq_shift, map_map.
  apply map_ext. intros k. f_equal. lia.
Qed.

Lemma blocks_from_done data i : (length data <= i)%nat -> blocks_from data i = [].
Proof. intros Hi. unfold blocks_from. by replace (length data - i + 15)%nat with 15%nat by lia. Qed.

Lemma nth_pad data n i : nth i (data ++ repeat 0 n) 0 = nth i data 0.
Proof.
  destruct (decide (i < length data)%nat); [by rewrite app_nth1|].
  rewrite app_nth2, nth_repeat by lia. by rewrite nth_overflow by lia.
Qed.

Lemma take_nth n (l : list Z) : (n <= length l)%nat -> take n l = map (fun i => nth i l 0) (seq 0 n).
Proof.
  revert l. induction n as [|n IH]; intros [|x l] Hn; cbn in Hn; [done|done|lia|]. cbn [take seq map nth]. f_equal.
  rewrite (IH l) by lia. by rewrite <- seq_shift, map_map.
Qed.

Lemma blocks_spec l : blocks l = blocks_from l 0.
Proof.
  unfold blocks, blocks_from. rewrite Nat.sub_0_r.
  assert (Hl : (length (pad16 l) = 16 * ((length l + 15) / 16))%nat).
  { unfold pad16. rewrite length_app, repeat_length. pose proof (Nat.div_mod_eq (length l) 16) as H1.
    pose proof (Nat.mod_upper_bound (length l) 16 ltac:(lia)) as H2. set (q := (length l / 16)%nat) in *. set (r := (length l mod 16)%nat) in *.
    destruct (decide (r = 0%nat)) as [->|Hr].
    - replace ((16 - 0) mod 16)%nat with 0%nat by done. rewrite <- (Nat.div_unique (length l + 15) 16 q 15); lia.
    - rewrite (Nat.mod_small (16 - r)) by lia. rewrite <- (Nat.div_unique (length l + 15) 16 (q + 1) (r - 1)); lia. }
  rewrite Hl, (Nat.mul_comm 16), Nat.div_mul by lia. apply map_ext_in. intros k Hk%in_seq.
  rewrite take_nth by (rewrite length_drop, Hl; lia). unfold blk. apply map_ext_in. intros i Hi%in_seq.
  rewrite nth_skipn. unfold pad16. by rewrite nth_pad.
Qed.

Lemma blocks_adata a :
  a <> [] -> blocks (view_bytes false 2 (byteLength a) ++ a) = blk (view_bytes false 2 (byteLength a) ++ a) 0 :: blocks_from a 14.
Proof.
  intros Ha. set (h := view_bytes false 2 (byteLength a)). assert (Hh : length h = 2%nat) by apply view_bytes_length.
  rewrite blocks_spec, blocks_from_step by (rewrite length_app; destruct a; [done|cbn; lia]). f_equal.
Qed.

(** ** CBC-MAC *)

Context (aes : list Z -> list Z) (Haes : forall ws, is_words ws -> is_words (aes ws)).

(** The block cipher on bytes. *)
Definition ecb (b : list Z) : list Z := wbs (aes (bw b)).

Lemma ecb_block b : is_block b -> is_block (ecb b).
Proof. intros Hb. by apply wbs_block, Haes, bw_words. Qed.

Lemma bw_ecb b : is_block b -> bw (ecb b) = aes (bw b).
Proof. intros Hb. by apply bw_wbs, Haes, bw_words. Qed.

Lemma xor_bytes_ok a b : bytes_ok a -> bytes_ok b -> bytes_ok (xor_bytes a b).
Proof.
  intros Ha. revert b. induction Ha as [|x a Hx _ IH]; intros b Hb; [constructor|].
  destruct Hb as [|y b Hy Hb]; constructor; [by apply lxor_byte|by apply IH].
Qed.

Lemma xor_block a b : is_block a -> is_block b -> is_block (xor_bytes a b).
Proof.
  intros [Hla Ha] [Hlb Hb]. split; [|by apply xor_bytes_ok]. unfold xor_bytes. rewrite length_zip_with. lia.
Qed.

(** The buffer [b] holds the block [x], in platform byte order. *)
Definition holds (b x : list Z) : Prop := is_block x /\ b = mem (bw x).

Lemma holds_buf b x : holds b x -> buf b.
Proof. intros [Hx ->]. apply mem_buf. by destruct (bw_words x Hx). Qed.

Lemma holds_words b x : holds b x -> words little b = bw x.
Proof. intros [Hx ->]. by apply words_mem, bw_words. Qed.

Lemma xor_words_holds a x b y : holds a x -> holds b y -> holds (xor_words little a b) (xor_bytes x y).
Proof.
  intros Ha Hb. pose proof (holds_buf _ _ Ha) as Hbuf. pose proof (proj1 Ha) as Hx. pose proof (proj1 Hb) as Hy.
  split; [by apply xor_block|]. unfold xor_words. rewrite (holds_words a x Ha), (holds_words b y Hb), bw_xor by done.
  apply set_words_mem; [done|]. by destruct (bw_words (xor_bytes x y) (xor_block _ _ Hx Hy)).
Qed.

Lemma aes_into_holds a x b : holds a x -> buf b -> holds (aes_into little aes a b) (ecb x).
Proof.
  intros Ha Hb. pose proof (proj1 Ha) as Hx. split; [by apply ecb_block|]. unfold aes_into.
  rewrite (holds_words a x Ha), <- bw_ecb by done. apply set_words_mem; [done|].
  by destruct (bw_words (ecb x) (ecb_block x Hx)).
Qed.

(** All buffers have their 16 bytes. *)
Record wf (st : Buffers) : Prop := {
  wf_computedMic : buf (computedMic st);
  wf_inputMic : buf (inputMic st);
  wf_ctrBlock : buf (ctrBlock st);
  wf_tempBlock1 : buf (tempBlock1 st);
  wf_tempBlock2 : buf (tempBlock2 st);
}.

Lemma wf_computed b st : buf b -> wf st -> wf (set_computedMic b st).
Proof. intros Hb []. by constructor. Qed.

Lemma wf_input b st : buf b -> wf st -> wf (set_inputMic b st).
Proof. intros Hb []. by constructor. Qed.

Lemma wf_ctr b st : buf b -> wf st -> wf (set_ctrBlock b st).
Proof. intros Hb []. by constructor. Qed.

Lemma wf_temp1 b st : buf b -> wf st -> wf (set_tempBlock1 b st).
Proof. intros Hb []. by constructor. Qed.

Lemma wf_temp2 b st : buf b -> wf st -> wf (set_tempBlock2 b st).
Proof. intros Hb []. by constructor. Qed.

Lemma mac_add_spec st t x y :
  wf st -> holds (computedMic st) x -> holds t y ->
  let st' := add little aes (set_tempBlock1 t st) in
  wf st' /\ holds (computedMic st') (ecb (xor_bytes x y)) /\ inputMic st' = inputMic st.
Proof.
  intros Hwf Hx Ht. cbn zeta. pose proof (xor_words_holds _ _ _ _ Hx Ht) as Hxor.
  pose proof (aes_into_holds _ _ _ Hxor (holds_buf _ _ Hxor)) as Hc. split_and!; [|exact Hc|reflexivity].
  apply wf_computed; [exact (holds_buf _ _ Hc)|]. apply wf_temp1; [exact (holds_buf _ _ Ht)|done].
Qed.

Lemma add_blocks_spec fuel data i x st :
  wf st -> bytes_ok data -> (length data <= i + 16 * fuel)%nat -> holds (computedMic st) x ->
  let st' := add_blocks little aes fuel data i st in
  wf st' /\ holds (computedMic st') (cbc_mac ecb x (blocks_from data i)) /\ inputMic st' = inputMic st.
Proof.
  intros Hwf Hd. revert i x st Hwf. induction fuel as [|fuel IH]; intros i x st Hwf Hlen Hx; cbn [add_blocks].
  { rewrite blocks_from_done by lia. done. }
  destruct (Nat.ltb_spec i (length data)) as [Hi|Hi]; [|by rewrite blocks_from_done by lia].
  rewrite blocks_from_step by done. unfold cbc_mac. cbn [foldl].
  assert (Ht : holds (bytesToBlock little data (tempBlock1 st) i) (blk data i)).
  { split; [by apply blk_block|]. apply bytesToBlock_spec; [done|apply Hwf]. }
  destruct (mac_add_spec st _ _ _ Hwf Hx Ht) as (W & C & I).
  destruct (IH (i + 16)%nat _ _ W ltac:(lia) C) as (W' & C' & I'). split_and!; [done|done|]. by rewrite I'.
Qed.

(** ** The last word of a header *)

Lemma wb_view s : length s = 4%nat -> bytes_ok s -> wb (view_value false s) = s.
Proof. intros Hl Hb. unfold wb. rewrite <- Hl. by apply view_bytes_value. Qed.

Lemma view_tail (L : nat) hi c :
  0 <= c < 2 ^ (8 * Z.of_nat L) ->
  view_value false (hi ++ be L c) = c + 2 ^ (8 * Z.of_nat L) * view_value false hi.
Proof.
  intros Hc. unfold be, view_value, view_bytes. rewrite rev_app_distr, rev_involutive, le_value_app, le_value_bytes, le_bytes_length.
  rewrite Z.mod_small by lia. lia.
Qed.

Lemma be_ok n v : bytes_ok (be n v).
Proof. apply view_bytes_ok. Qed.

Lemma be_length n v : length (be n v) = n.
Proof. apply view_bytes_length. Qed.

Lemma be_zero n : be n 0 = repeat 0 n.
Proof.
  unfold be, view_bytes. assert (E : le_bytes n 0 = repeat 0 n) by (induction n as [|n IH]; [done|]; cbn [le_bytes repeat]; change (0 / 256) with 0; by rewrite IH).
  rewrite E. clear. induction n as [|n IH]; [done|]. cbn [repeat rev]. rewrite IH, <- repeat_cons. done.
Qed.

Lemma wb_int32_add a b : wb (int32 a + b) = wb (a + b).
Proof.
  rewrite <- (wb_int32 (int32 a + b)), <- (wb_int32 (a + b)). f_equal. unfold int32.
  replace ((a + 2 ^ 31) mod 2 ^ 32 - 2 ^ 31 + b + 2 ^ 31) with ((a + 2 ^ 31) mod 2 ^ 32 + b) by lia.
  rewrite Z.add_mod_idemp_l by lia. do 2 f_equal. lia.
Qed.

Lemma wordOf_view s : length s = 4%nat -> bytes_ok s -> wordOf s = int32 (view_value false s).
Proof.
  intros Hl Hb. apply wb_inj; [by apply wordOf_int32|apply int32_range|]. rewrite wb_wordOf, wb_int32 by done.
  by rewrite wb_view.
Qed.

(** Adding to the word that ends in an [L]-byte number. *)
Lemma wb_tail_add L hi c n :
  (length hi + L = 4)%nat -> bytes_ok hi -> 0 <= c -> 0 <= n -> c + n < 2 ^ (8 * Z.of_nat L) ->
  wb (wordOf (hi ++ be L c) + n) = hi ++ be L (c + n).
Proof.
  intros Hl Hb Hc Hn Hlt.
  assert (Hs : forall x, length (hi ++ be L x) = 4%nat /\ bytes_ok (hi ++ be L x)).
  { intros x. rewrite length_app, be_length. split; [lia|]. apply Forall_app. split; [done|apply be_ok]. }
  rewrite wordOf_view, wb_int32_add, view_tail by (apply Hs || lia).
  replace (c + 2 ^ (8 * Z.of_nat L) * view_value false hi + n) with (view_value false (hi ++ be L (c + n))) by (rewrite view_tail; lia).
  apply wb_view; apply Hs.
Qed.

(** [(word & mask) | length]: the length goes into the zero bytes. *)
Lemma length_word L hi len :
  L = 2 \/ L = 3 -> (length hi = 4 - Z.to_nat L)%nat -> bytes_ok hi -> 0 <= len < 2 ^ (8 * L) ->
  wb (js_or (js_and (wordOf (hi ++ repeat 0 (Z.to_nat L))) (if L =? 2 then 0xffff0000 else 0xff000000)) len) =
  hi ++ be (Z.to_nat L) len.
Proof.
  intros HL Hl Hb Hlen. set (s := hi ++ repeat 0 (Z.to_nat L)).
  assert (Hs : length s = 4%nat) by (unfold s; rewrite length_app, repeat_length; lia).
  assert (Hsb : bytes_ok s).
  { apply Forall_app. split; [done|]. apply List.Forall_forall. intros x ->%repeat_spec. unfold is_byte. lia. }
  pose proof (wordOf_int32 s Hs Hsb) as Hi.
  assert (Hdiv : exists h, wordOf s = h * 2 ^ (8 * L)).
  { rewrite wordOf_view by done. unfold s. rewrite <- be_zero, view_tail by (split; [lia|apply Z.pow_pos_nonneg; lia]).
    rewrite Z2Nat.id by lia. unfold int32. set (v := view_value false hi). set (x := 0 + 2 ^ (8 * L) * v + 2 ^ 31).
    exists (v - x / 2 ^ 32 * 2 ^ (32 - 8 * L)). pose proof (Z.div_mod x (2 ^ 32) ltac:(lia)) as Hd.
    destruct HL as [-> | ->]; cbn [Z.mul Z.sub Z.add Z.opp] in *; unfold x in *; lia. }
  destruct Hdiv as [h Hh].
  assert (Hmask : int32 (if L =? 2 then 0xffff0000 else 0xff000000) = - 2 ^ (8 * L)) by (destruct HL as [-> | ->]; done).
  assert (Hand : js_and (wordOf s) (if L =? 2 then 0xffff0000 else 0xff000000) = wordOf s).
  { unfold js_and. rewrite Hmask, int32_id by done. rewrite Hh.
    replace (- 2 ^ (8 * L)) with (Z.lnot (Z.ones (8 * L))) by (rewrite Z.ones_equiv; unfold Z.lnot; lia).
    rewrite <- Z.ldiff_land, Z.ldiff_ones_r, Z.shiftl_mul_pow2, Z.shiftr_div_pow2 by lia.
    rewrite Z.div_mul; [done|]. apply Z.pow_nonzero; lia. }
  rewrite Hand. unfold js_or. rewrite int32_id by done.
  assert (Hlen32 : int32 len = len) by (apply int32_id; destruct HL as [-> | ->]; cbn in Hlen; lia).
  rewrite Hlen32, Hh, Z.lor_comm, lor_add by lia. rewrite <- Hh, Z.add_comm. unfold s.
  rewrite <- be_zero, wb_tail_add; rewrite ?Z2Nat.id by lia; try lia; done.
Qed.

Lemma view_bytes_int32 v : view_bytes little 4 (int32 v) = view_bytes little 4 v.
Proof.
  pose proof (wb_int32 v) as E. unfold wb, view_bytes in *. destruct little; [|done].
  by rewrite <- (rev_involutive (le_bytes 4 (int32 v))), E, rev_involutive.
Qed.

(** Reading and writing the last word of a buffer. *)
Lemma last_word b x s v :
  length x = 12%nat -> length s = 4%nat -> holds b (x ++ s) ->
  get_word little b 3 = wordOf s /\ holds (set_word little b 3 v) (x ++ wb v).
Proof.
  intros Hx Hs [[_ Hok] ->].
  assert (Ex : exists p q r : list Z, x = p ++ q ++ r /\ length p = 4%nat /\ length q = 4%nat /\ length r = 4%nat).
  { do 12 (destruct x as [|? x]; [discriminate Hx|]). destruct x; [|discriminate Hx].
    by eexists [_; _; _; _], [_; _; _; _], [_; _; _; _]. }
  destruct Ex as (p & q & r & -> & Hp4 & Hq4 & Hr4). clear Hx. rewrite <- !app_assoc in Hok |- *.
  unfold bytes_ok in Hok. rewrite !Forall_app in Hok. destruct Hok as (Hp & Hq & Hr & Hsb).
  rewrite bw_four, mem_four by done. pose proof (view_bytes_length little 4) as Hv. split.
  - unfold get_word. destruct (groups_four (view_bytes little 4 (wordOf p)) (view_bytes little 4 (wordOf q))
      (view_bytes little 4 (wordOf r)) (view_bytes little 4 (wordOf s))) as (_ & _ & _ & ->); [done..|].
    by apply signed_bytes, wordOf_int32.
  - rewrite <- !app_assoc. split; [apply is_block_four; try done; (apply wb_length || apply view_bytes_ok)|].
    destruct (set_word_four (view_bytes little 4 (wordOf p)) (view_bytes little 4 (wordOf q))
      (view_bytes little 4 (wordOf r)) (view_bytes little 4 (wordOf s)) v) as (_ & _ & _ & ->); [done..|].
    rewrite bw_four, mem_four by (done || apply wb_length). do 3 f_equal. rewrite wordOf_view by (apply wb_length || apply view_bytes_ok).
    rewrite view_bytes_int32. unfold wb. rewrite view_value_bytes. change (2 ^ (8 * Z.of_nat 4)) with (2 ^ 32).
    rewrite <- (view_bytes_int32 v), <- (view_bytes_int32 (v mod 2 ^ 32)). f_equal. unfold int32.
    by rewrite Z.add_mod_idemp_l.
Qed.

(** ** The parameters of a call *)

Record params (input : Input) (L mic : Z) (a : list Z) : Prop := {
  par_L : L = 2 \/ L = 3;
  par_nonce : length (nonce input) = (15 - Z.to_nat L)%nat;
  par_nonce_ok : bytes_ok (nonce input);
  par_mic : 4 <= mic <= 16 /\ mic mod 2 = 0;
  par_adata : default [] (adata input) = a;
  par_adata_ok : bytes_ok a;
  par_adata_length : byteLength a <= 0xffff;
}.

(** A header block splits before its last word. *)
Lemma header_split input L mic a first :
  params input L mic a -> is_byte first ->
  exists x hi, length x = 12%nat /\ (length hi = 4 - Z.to_nat L)%nat /\ bytes_ok x /\ bytes_ok hi /\
    forall t, first :: nonce input ++ t = x ++ hi ++ t.
Proof.
  intros [HL Hn Hok _ _ _ _] Hf. exists (first :: take 11 (nonce input)), (drop 11 (nonce input)).
  split_and!.
  - cbn. rewrite length_take. lia.
  - rewrite length_drop. lia.
  - constructor; [done|]. by apply Forall_take.
  - by apply Forall_drop.
  - intros t. cbn. rewrite app_assoc, take_drop. done.
Qed.

Lemma flags_code (has : bool) mic L :
  L = 2 \/ L = 3 -> 4 <= mic <= 16 /\ mic mod 2 = 0 ->
  js_or (js_or (if has then js_shl 1 6 else 0) (js_shl (mic - 2) 2)) (L - 1) mod 256 = flags has mic L /\
  is_byte (flags has mic L).
Proof.
  intros HL [Hm Heven].
  assert (Hc : mic = 4 \/ mic = 6 \/ mic = 8 \/ mic = 10 \/ mic = 12 \/ mic = 14 \/ mic = 16).
  { pose proof (Z.div_mod mic 2 ltac:(lia)). lia. }
  destruct HL as [-> | ->], has, Hc as [-> | [-> | [-> | [-> | [-> | [-> | ->]]]]]]; vm_compute; intuition congruence.
Qed.

Lemma L_byte L : L = 2 \/ L = 3 -> (L - 1) mod 256 = L - 1 /\ is_byte (L - 1).
Proof. unfold is_byte. intros [-> | ->]; done. Qed.

Lemma cbcMac_spec input pt L mic a st :
  params input L mic a -> wf st -> bytes_ok pt -> byteLength pt < 2 ^ (8 * L) ->
  let st' := cbcMac little aes input pt mic L st in
  wf st' /\ holds (computedMic st') (tag ecb (be 2) (nonce input) a mic L pt) /\ inputMic st' = inputMic st.
Proof.
  intros Hpar Hwf Hpt Hlen. pose proof Hpar as [HL Hn Hnok Hmic Ha Haok Halen]. cbn zeta. unfold cbcMac. rewrite Ha.
  set (has := negb (length a =? 0)%nat). destruct (flags_code has mic L HL Hmic) as [Hfl Hflb].
  rewrite header_spec by (apply Hwf || lia). rewrite Hfl, Hn.
  destruct (header_split _ _ _ _ _ Hpar Hflb) as (x & hi & Hx & Hhi & Hxok & Hhok & Hsplit).
  replace (15 - (15 - Z.to_nat L))%nat with (Z.to_nat L) by lia. rewrite Hsplit.
  assert (Hs : length (hi ++ repeat 0 (Z.to_nat L)) = 4%nat) by (rewrite length_app, repeat_length; lia).
  rewrite (bytesToBlock_self_spec (x ++ hi ++ repeat 0 (Z.to_nat L))) by (unfold buf; rewrite length_app; lia).
  set (b := mem (bw (x ++ hi ++ repeat 0 (Z.to_nat L)))).
  assert (Hb : holds b (x ++ hi ++ repeat 0 (Z.to_nat L))).
  { split; [|done]. split; [rewrite length_app; lia|]. apply Forall_app. split; [done|]. apply Forall_app. split; [done|].
    apply List.Forall_forall. intros y ->%repeat_spec. unfold is_byte. lia. }
  assert (Hlen0 : 0 <= byteLength pt) by (unfold byteLength; lia).
  destruct (last_word b x _ (js_or (js_and (get_word little b 3) (if L =? 2 then 0xffff0000 else 0xff000000)) (byteLength pt)) Hx Hs Hb)
    as [Hget Hset].
  rewrite Hget in Hset |- *. rewrite length_word, <- Hsplit in Hset by (done || lia).
  set (b' := set_word little b 3 _) in *. fold (b0 (nonce input) has mic L (byteLength pt)) in Hset.
  pose proof (aes_into_holds b' _ b' Hset (holds_buf _ _ Hset)) as Hc.
  set (st1 := set_computedMic (aes_into little aes b' b') st).
  assert (Hwf1 : wf st1) by (apply wf_computed; [exact (holds_buf _ _ Hc)|done]).
  unfold tag. fold has. unfold cbc_mac. rewrite foldl_app. rewrite (blocks_spec pt).
  destruct has eqn:Ehas.
  - assert (Hne : a <> []) by (intros ->; done).
    set (t := bytesToBlock_self little (first_adata (tempBlock1 st1) a)).
    assert (Ht : holds t (blk (be 2 (byteLength a) ++ a) 0)).
    { split; [apply blk_block, Forall_app; split; [apply be_ok|done]|].
      unfold t. rewrite first_adata_spec by apply Hwf1. by apply bytesToBlock_self_spec. }
    destruct (mac_add_spec st1 t _ _ Hwf1 Hc Ht) as (W2 & C2 & I2).
    destruct (add_blocks_spec (length a) a 14 _ _ W2 Haok ltac:(lia) C2) as (W3 & C3 & I3).
    destruct (add_blocks_spec (length pt) pt 0 _ _ W3 Hpt ltac:(lia) C3) as (W4 & C4 & I4).
    split_and!; [done| |by rewrite I4, I3, I2]. rewrite (blocks_adata a Hne : blocks (be 2 (byteLength a) ++ a) = _). exact C4.
  - destruct (add_blocks_spec (length pt) pt 0 _ st1 Hwf1 Hpt ltac:(lia) Hc) as (W4 & C4 & I4). done.
Qed.

(** ** Counter mode *)

Lemma ctr_block input L mic a c : params input L mic a -> is_block (ctr (nonce input) L c).
Proof.
  intros [HL Hn Hok _ _ _ _]. unfold ctr. split.
  - cbn [length]. rewrite length_app, be_length. lia.
  - constructor; [apply (L_byte L HL)|]. apply Forall_app. split; [done|apply be_ok].
Qed.

Lemma ctr_start_spec input L mic a m x st :
  params input L mic a -> wf st -> holds m x ->
  let '(m', st') := ctr_start little aes input L m st in
  wf st' /\ holds m' (xor_bytes x (ecb (ctr (nonce input) L 0))) /\ holds (ctrBlock st') (ctr (nonce input) L 0) /\
  computedMic st' = computedMic st /\ inputMic st' = inputMic st.
Proof.
  intros Hpar Hwf Hm. pose proof (ctr_block _ _ _ _ 0 Hpar) as Hblock. pose proof Hpar as [HL Hn Hok _ _ _ _].
  unfold ctr_start. cbn [tempBlock1 ctrBlock set_tempBlock1 set_ctrBlock].
  rewrite header_spec by (apply Hwf || lia). destruct (L_byte L HL) as [-> HLb].
  replace (15 - length (nonce input))%nat with (Z.to_nat L) by lia. rewrite <- be_zero.
  fold (ctr (nonce input) L 0). set (h := ctr (nonce input) L 0) in *.
  assert (Hc : holds (bytesToBlock little h (ctrBlock st) 0) h).
  { split; [done|]. rewrite bytesToBlock_spec by (apply Hblock || apply Hwf). by rewrite blk_self by apply Hblock. }
  pose proof (holds_buf _ _ Hc) as Hcb. pose proof (aes_into_holds _ _ h Hc (proj1 Hblock)) as Ht.
  split_and!; [|by apply xor_words_holds|exact Hc|done|done].
  apply wf_temp1; [exact (holds_buf _ _ Ht)|]. apply wf_ctr; [done|]. apply wf_temp1; [exact (proj1 Hblock)|done].
Qed.

Lemma copy_done from to n i ws : (n <= i)%nat -> copy_words from to n i ws = (i, to).
Proof. intros Hi. destruct ws; [done|]. cbn [copy_words]. by destruct (Nat.ltb_spec i n); [lia|]. Qed.

Lemma getInt32_at fd f4 fr : length f4 = 4%nat -> getInt32 (fd ++ f4 ++ fr) (length fd) = wordOf f4.
Proof. intros H4. unfold getInt32, wordOf. by rewrite drop_app_length, take_app_length'. Qed.

Lemma xor_bytes_length a b : length (xor_bytes a b) = (length a `min` length b)%nat.
Proof. apply length_zip_with. Qed.

Lemma xor_bytes_app a b c d : length a = length b -> xor_bytes (a ++ c) (b ++ d) = xor_bytes a b ++ xor_bytes c d.
Proof. apply zip_with_app. Qed.

Lemma xor_bytes_short a b d : (length a <= length b)%nat -> xor_bytes a (b ++ d) = xor_bytes a b.
Proof. unfold xor_bytes. revert b. induction a as [|x a IH]; intros [|y b] Hl; cbn in *; try lia; [done..|]. rewrite IH; [done|lia]. Qed.

Lemma xor_bytes_take n a b : take n (xor_bytes a b) = xor_bytes (take n a) (take n b).
Proof. unfold xor_bytes. by rewrite zip_with_take. Qed.

(** The last word, of up to four bytes. *)
Lemma partial_word fd fr w :
  (length fr <= 4)%nat -> bytes_ok fr ->
  writePartialWord (js_xor (readPartialWord (fd ++ fr) (length fd) (length fr)) w) (length fr) = xor_bytes fr (wb w).
Proof.
  intros Hl Hb. unfold writePartialWord, readPartialWord. rewrite <- wb_four, wb_xor, drop_app_length.
  rewrite (take_ge fr 4) by lia. rewrite (take_ge fr (length fr)) by lia.
  rewrite wb_view.
  - rewrite xor_bytes_take, take_app_length. rewrite <- (take_drop (length fr) (wb w)) at 2.
    by rewrite xor_bytes_short by (rewrite length_take, wb_length; lia).
  - rewrite length_app, repeat_length. lia.
  - apply Forall_app. split; [done|]. apply List.Forall_forall. intros x ->%repeat_spec. unfold is_byte. lia.
Qed.

Lemma copy_words_spec ws fd fr td tr :
  Forall is_int32 ws -> bytes_ok fr -> length fd = length td -> (length fr <= length tr)%nat ->
  let '(i, to) := copy_words (fd ++ fr) (td ++ tr) (length (fd ++ fr)) (length fd) ws in
  to = td ++ xor_bytes fr (wbs ws) ++ drop (length (xor_bytes fr (wbs ws))) tr /\
  (4 * length ws <= length fr -> i = length fd + 4 * length ws)%nat /\
  (length fr <= 4 * length ws -> length (fd ++ fr) <= i)%nat.
Proof.
  intros Hws. revert fd fr td tr. induction Hws as [|w ws Hw _ IH]; intros fd fr td tr Hb Hlen Htr.
  { cbn [copy_words length]. unfold wbs. cbn [map mjoin list_join]. unfold xor_bytes. rewrite zip_with_nil_r. cbn.
    rewrite length_app. split_and!; [done|lia|lia]. }
  assert (Ewbs : wbs (w :: ws) = wb w ++ wbs ws) by done. cbn [copy_words length]. rewrite length_app.
  destruct (Nat.ltb_spec (length fd) (length fd + length fr)) as [Hi|Hi].
  2:{ assert (Hnil : fr = []) by (destruct fr; [done|cbn in Hi; lia]). subst fr. cbn in *. split_and!; [done|lia|lia]. }
  destruct (Nat.ltb_spec (length fd + 4) (length fd + length fr)) as [H4|H4].
  - destruct fr as [|f0 [|f1 [|f2 [|f3 fr]]]]; cbn in H4; try lia. destruct tr as [|t0 [|t1 [|t2 [|t3 tr]]]]; cbn in Htr; try lia.
    set (f := [f0; f1; f2; f3]). change (f0 :: f1 :: f2 :: f3 :: fr) with (f ++ fr) in *.
    change (t0 :: t1 :: t2 :: t3 :: tr) with ([t0; t1; t2; t3] ++ tr).
    rewrite getInt32_at by done. apply Forall_app in Hb as [Hf Hb].
    assert (Hx : view_bytes false 4 (js_xor (wordOf f) w) = xor_bytes f (wb w)).
    { fold (wb (js_xor (wordOf f) w)). by rewrite wb_xor, wb_wordOf. }
    rewrite Hx. set (x := xor_bytes f (wb w)). assert (Hxl : length x = 4%nat) by (unfold x; by rewrite xor_bytes_length, wb_length).
    rewrite (splice_is _ _ x td [t0; t1; t2; t3] tr) by done. rewrite (app_assoc fd), (app_assoc td).
    replace (length fd + 4)%nat with (length (fd ++ f)) by (rewrite length_app; done).
    replace (length fd + length (f ++ fr))%nat with (length ((fd ++ f) ++ fr)) by (rewrite !length_app; lia).
    specialize (IH (fd ++ f) fr (td ++ x) tr Hb ltac:(rewrite !length_app, Hxl, Hlen; done) ltac:(lia)).
    destruct (copy_words ((fd ++ f) ++ fr) ((td ++ x) ++ tr) _ _ ws) as [i to]. destruct IH as (-> & H1 & H2).
    rewrite Ewbs, xor_bytes_app by (by rewrite wb_length). fold x. rewrite !length_app, ?Hxl in *. cbn [length f] in *.
    split_and!; [|lia|lia]. by rewrite <- !app_assoc.
  - assert (Hfr : (length fr <= 4)%nat) by lia. replace (length fd + length fr - length fd)%nat with (length fr) by lia.
    rewrite partial_word by done. rewrite copy_done by lia.
    rewrite Ewbs, (xor_bytes_short fr (wb w)) by (rewrite wb_length; lia).
    assert (Hxl : length (xor_bytes fr (wb w)) = length fr) by (rewrite xor_bytes_length, wb_length; lia).
    rewrite (splice_is (td ++ tr) (length fd) (xor_bytes fr (wb w)) td (take (length fr) tr) (drop (length fr) tr))
      by (rewrite ?take_drop, ?length_take; done || lia).
    rewrite Hxl. split_and!; [done|lia|lia].
Qed.

(** The key stream after counter [c], for [n] bytes. *)
Definition stream (nonce : list Z) (L c : Z) (n : nat) : list Z :=
  mjoin (map (fun i => ecb (ctr nonce L (c + Z.of_nat i))) (seq 1 ((n + 15) / 16))).

Lemma stream_step nonce L c n :
  (0 < n)%nat -> stream nonce L c n = ecb (ctr nonce L (c + 1)) ++ stream nonce L (c + 1) (n - 16).
Proof.
  intros Hn. unfold stream.
  assert (E : ((n + 15) / 16 = S ((n - 16 + 15) / 16))%nat).
  { destruct (decide (n <= 16)%nat).
    - replace (n - 16 + 15)%nat with 15%nat by lia. rewrite (Nat.div_small 15) by lia.
      symmetry. apply (Nat.div_unique _ 16 1 (n - 1)); lia.
    - replace (n + 15)%nat with ((n - 16 + 15) + 1 * 16)%nat by lia. rewrite Nat.div_add; lia. }
  rewrite E. cbn [seq map]. rewrite join_cons. f_equal. f_equal. rewrite <- seq_shift, map_map.
  apply map_ext. intros i. do 2 f_equal. lia.
Qed.

Lemma stream_zero nonce L n : stream nonce L 0 n = keystream ecb nonce L n.
Proof. done. Qed.

(** Incrementing the last word increments the counter. *)
Lemma ctr_next input L mic a b c :
  params input L mic a -> holds b (ctr (nonce input) L c) -> 0 <= c -> c + 1 < 2 ^ (8 * L) ->
  holds (set_word little b 3 (get_word little b 3 + 1)) (ctr (nonce input) L (c + 1)).
Proof.
  intros Hpar Hb Hc Hlt. pose proof Hpar as [HL _ _ _ _ _ _]. destruct (L_byte L HL) as [_ HLb].
  destruct (header_split _ _ _ _ _ Hpar HLb) as (x & hi & Hx & Hhi & _ & Hhok & Hsplit).
  unfold ctr in *. rewrite Hsplit in Hb |- *.
  destruct (last_word b x (hi ++ be (Z.to_nat L) c) (get_word little b 3 + 1)) as [Hget Hset]; [done| |done|].
  { rewrite length_app, be_length. lia. }
  rewrite Hget in Hset |- *. rewrite wb_tail_add in Hset; [done|lia|done|lia|lia|]. rewrite Z2Nat.id; lia.
Qed.

Lemma ctr_loop_spec input L mic a fuel fd fr td tr c st :
  params input L mic a -> wf st -> bytes_ok (fd ++ fr) -> length fd = length td -> (length fr <= length tr)%nat ->
  (length fr <= 16 * fuel)%nat -> holds (ctrBlock st) (ctr (nonce input) L c) -> 0 <= c ->
  16 * c + Z.of_nat (length fr) + 16 <= 16 * 2 ^ (8 * L) ->
  let '(to, st') := ctr_loop little aes fuel (fd ++ fr) (td ++ tr) (length (fd ++ fr)) (length fd) st in
  to = td ++ xor_bytes fr (stream (nonce input) L c (length fr)) ++ drop (length fr) tr /\
  wf st' /\ computedMic st' = computedMic st /\ inputMic st' = inputMic st.
Proof.
  intros Hpar. revert fd fr td tr c st. induction fuel as [|fuel IH]; intros fd fr td tr c st Hwf Hb Hlen Htr Hfuel Hctr Hc Hmax.
  { assert (Hnil : fr = []) by (destruct fr; [done|cbn in Hfuel; lia]). subst fr. cbn. done. }
  cbn [ctr_loop]. rewrite length_app.
  destruct (Nat.ltb_spec (length fd) (length fd + length fr)) as [Hi|Hi].
  2:{ assert (Hnil : fr = []) by (destruct fr; [done|cbn in Hi; lia]). subst fr. done. }
  assert (Hn : (0 < length fr)%nat) by lia.
  assert (Hlt : c + 1 < 2 ^ (8 * L)) by lia.
  pose proof (ctr_next _ _ _ _ _ _ Hpar Hctr Hc Hlt) as Hctr'. set (cb := set_word little (ctrBlock st) 3 _) in *.
  pose proof (holds_buf _ _ Hctr') as Hcbuf. cbn [tempBlock1 tempBlock2 set_ctrBlock set_tempBlock1 set_tempBlock2].
  set (t1 := bytesToBlock little (fd ++ fr) (tempBlock1 st) (length fd)).
  assert (Ht1 : buf t1) by (unfold t1; rewrite bytesToBlock_spec by (done || apply Hwf); apply mem_buf; by destruct (bw_words _ (blk_block _ (length fd) Hb))).
  pose proof (aes_into_holds _ _ _ Hctr' (wf_tempBlock2 _ Hwf)) as Ht2. set (t2 := aes_into little aes cb (tempBlock2 st)) in *.
  rewrite (holds_words _ _ Ht2). set (e := ecb (ctr (nonce input) L (c + 1))) in *.
  pose proof (bw_words e (proj1 Ht2)) as [Hwl Hwi]. apply Forall_app in Hb as Hb'. destruct Hb' as [Hbd Hbr].
  rewrite <- length_app. pose proof (copy_words_spec (bw e) fd fr td tr Hwi Hbr Hlen Htr) as Hcopy.
  destruct (copy_words (fd ++ fr) (td ++ tr) (length (fd ++ fr)) (length fd) (bw e)) as [i to].
  destruct Hcopy as (-> & H1 & H2). rewrite wbs_bw by apply Ht2. rewrite Hwl in *.
  set (st2 := set_tempBlock2 t2 (set_tempBlock1 t1 (set_ctrBlock cb st))).
  assert (Hwf2 : wf st2).
  { apply wf_temp2; [exact (holds_buf _ _ Ht2)|]. apply wf_temp1; [done|]. by apply wf_ctr. }
  assert (He : length e = 16%nat) by apply Ht2.
  rewrite stream_step by done. fold e.
  destruct (decide (16 <= length fr)%nat) as [H16|H16].
  - rewrite (H1 ltac:(lia)). set (f := take 16 fr). set (g := drop 16 fr).
    assert (Efg : fr = f ++ g) by (unfold f, g; by rewrite take_drop).
    assert (Hf : length f = 16%nat) by (unfold f; rewrite length_take; lia).
    assert (Hg : (length fr = 16 + length g)%nat) by (rewrite Efg, length_app; lia).
    specialize (IH (fd ++ f) g (td ++ xor_bytes f e) (drop 16 tr) (c + 1) st2 Hwf2).
    rewrite <- !app_assoc, <- Efg in IH.
    assert (Ex : xor_bytes fr e = xor_bytes f e).
    { rewrite Efg. rewrite <- (app_nil_r e) at 1. rewrite xor_bytes_app by lia. unfold xor_bytes at 2. by rewrite zip_with_nil_r, app_nil_r. }
    rewrite Ex. assert (Hxl : length (xor_bytes f e) = 16%nat) by (rewrite xor_bytes_length; lia). rewrite Hxl.
    replace (length fd + 4 * 4)%nat with (length (fd ++ f)) by (rewrite length_app; lia).
    destruct (ctr_loop _ _ _ _ _ _ _ _) as [to st'].
    destruct IH as (-> & W & C & I); [done|rewrite !length_app; lia|rewrite length_drop; lia|lia|done|lia|lia|].
    split_and!; [|done|done|done]. rewrite Efg at 1. rewrite xor_bytes_app by lia. rewrite <- app_assoc.
    replace (length fr - 16)%nat with (length g) by lia. do 3 f_equal. rewrite drop_drop. f_equal. lia.
  - assert (Hdone : forall from to n i st, (n <= i)%nat -> ctr_loop little aes fuel from to n i st = (to, st)).
    { clear. intros from to n i st Hi. destruct fuel; [done|]. cbn [ctr_loop]. by destruct (Nat.ltb_spec i n); [lia|]. }
    rewrite Hdone by (apply H2; lia). rewrite xor_bytes_short by lia.
    rewrite xor_bytes_length, Nat.min_l by lia. done.
Qed.

(** ** Encryption *)

Definition valid_input (i : Input) : Prop :=
  bytes_ok (nonce i) /\ (length (nonce i) = 12 \/ length (nonce i) = 13)%nat /\
  (forall m, micLength i = Some m -> 4 <= m <= 16 /\ m mod 2 = 0) /\
  bytes_ok (default [] (adata i)) /\ byteLength (default [] (adata i)) <= 0xffff.

Lemma valid_params i : valid_input i -> params i (15 - byteLength (nonce i)) (mic_length i) (default [] (adata i)).
Proof.
  intros (Hn & Hl & Hm & Ha & Hal). unfold byteLength in *. constructor; try done; try lia.
  unfold mic_length, CRYPTO_AEAD_MIC_LENGTH_BYTES. destruct (micLength i) as [m|]; cbn; [by apply Hm|done].
Qed.

Lemma valid_checks i :
  valid_input i -> validateNonceAndAdata i = Ok tt /\ bytesInLengthFor (byteLength (nonce i)) = Ok (15 - byteLength (nonce i)).
Proof.
  intros (_ & Hl & Hm & _ & Hal). unfold validateNonceAndAdata, bytesInLengthFor, byteLength in *.
  assert (Hlen : Z.of_nat (length (nonce i)) = 12 \/ Z.of_nat (length (nonce i)) = 13) by lia. split.
  - replace (_ && _) with false by (destruct Hlen as [-> | ->]; done). cbn [throw_if rbind].
    assert (Ha : match adata i with Some a => throw_if (65535 <? Z.of_nat (length a)) CryptoInputError | None => Ok tt end = Ok tt).
    { destruct (adata i) as [a|]; [|done]. cbn in Hal. by destruct (Z.ltb_spec 65535 (Z.of_nat (length a))); [lia|]. }
    rewrite Ha. destruct (micLength i) as [m|]; [|done]. destruct (Hm m eq_refl) as [Hr He]. rewrite He.
    by destruct (Z.ltb_spec m 4), (Z.ltb_spec 16 m); try lia.
  - by destruct Hlen as [-> | ->].
Qed.

Lemma stream_long i L mic a n c : params i L mic a -> (n <= length (stream (nonce i) L c n))%nat.
Proof.
  intros Hpar. revert c. induction (lt_wf n) as [n _ IHn]. intros c. destruct n as [|n]; [lia|].
  rewrite stream_step, length_app by lia. destruct (ecb_block _ (ctr_block i L mic a (c + 1) Hpar)) as [-> _].
  destruct (decide (n < 16)%nat); [lia|]. specialize (IHn (S n - 16)%nat ltac:(lia) (c + 1)). lia.
Qed.

Lemma stream_ok i L mic a n c : params i L mic a -> bytes_ok (stream (nonce i) L c n).
Proof.
  intros Hpar. unfold stream. induction (seq 1 ((n + 15) / 16)) as [|k l IH]; [constructor|].
  cbn [map]. rewrite join_cons. apply Forall_app. split; [|done]. by apply ecb_block, (ctr_block i L mic a).
Qed.

Lemma ciphertext_length i L mic a pt : params i L mic a -> length (ciphertext ecb (nonce i) L pt) = length pt.
Proof.
  intros Hpar. unfold ciphertext. rewrite <- stream_zero, xor_bytes_length.
  pose proof (stream_long i L mic a (length pt) 0 Hpar). lia.
Qed.

(** Counter mode undoes itself. *)
Lemma ciphertext_twice i L mic a pt :
  params i L mic a -> ciphertext ecb (nonce i) L (ciphertext ecb (nonce i) L pt) = pt.
Proof.
  intros Hpar. unfold ciphertext at 1. rewrite (ciphertext_length i L mic a) by done. unfold ciphertext.
  rewrite <- stream_zero. pose proof (stream_long i L mic a (length pt) 0 Hpar) as Hl.
  set (k := stream (nonce i) L 0 (length pt)) in *. rewrite <- (take_drop (length pt) k).
  assert (Hk : length (take (length pt) k) = length pt) by (rewrite length_take; lia).
  rewrite (xor_bytes_short pt) by lia. rewrite xor_bytes_short by (rewrite xor_bytes_length; lia). by apply xor_cancel.
Qed.

Lemma encrypt_with_ref i pt st :
  valid_input i -> wf st -> bytes_ok pt -> byteLength pt <= maxPlaintextForL (15 - byteLength (nonce i)) (mic_length i) ->
  fst (Ccm.encrypt little aes i pt st) =
  Ok (encrypt_with ecb (be 2) (nonce i) (default [] (adata i)) (mic_length i) pt).
Proof.
  intros Hv Hwf Hpt Hmax. pose proof (valid_params i Hv) as Hpar. destruct (valid_checks i Hv) as [E1 E2].
  unfold Ccm.encrypt, encrypt_with. rewrite E1, E2. cbn [rbind]. set (L := 15 - byteLength (nonce i)) in *.
  set (mic := mic_length i) in *. set (a := default [] (adata i)) in *.
  destruct (Z.ltb_spec (maxPlaintextForL L mic) (byteLength pt)) as [|_]; [lia|]. cbn [throw_if rbind].
  pose proof (par_mic _ _ _ _ Hpar) as [Hmic _]. pose proof (par_L _ _ _ _ Hpar) as HL.
  assert (Hlt : byteLength pt < 2 ^ (8 * L)) by (unfold maxPlaintextForL in Hmax; rewrite Z.mul_comm in Hmax; lia).
  destruct (cbcMac_spec i pt L mic a st Hpar Hwf Hpt Hlt) as (W1 & C1 & _).
  set (st1 := cbcMac little aes i pt mic L st) in *. set (T := tag ecb (be 2) (nonce i) a mic L pt) in *.
  pose proof (ctr_start_spec i L mic a (computedMic st1) T st1 Hpar W1 C1) as Hs.
  destruct (ctr_start little aes i L (computedMic st1) st1) as [m st2]. destruct Hs as (W2 & M2 & Ctr2 & _ & _).
  set (st3 := set_computedMic m st2).
  assert (W3 : wf st3) by (apply wf_computed; [exact (holds_buf _ _ M2)|done]).
  set (to := repeat 0 (length pt + Z.to_nat mic)).
  pose proof (ctr_loop_spec i L mic a (length pt) [] pt [] to 0 st3 Hpar W3 Hpt eq_refl) as Hloop. cbn [app length] in Hloop.
  destruct (ctr_loop little aes (length pt) pt to (length pt) 0 st3) as [ct st4].
  destruct Hloop as (-> & W4 & C4 & _); [unfold to; rewrite repeat_length; lia|lia|exact Ctr2|lia|unfold byteLength in Hlt; lia|].
  cbn [fst computedMic set_computedMic]. rewrite C4. cbn [computedMic set_computedMic st3].
  rewrite (proj2 M2), serializeMic_spec, wbs_bw by (apply bw_words || idtac; apply M2).
  rewrite stream_zero. fold (ciphertext ecb (nonce i) L pt). f_equal.
  pose proof (ciphertext_length i L mic a pt Hpar) as Hks.
  unfold encrypted_tag. fold T. set (x := xor_bytes T (ecb (ctr (nonce i) L 0))) in *.
  assert (Hxl : length x = 16%nat) by apply M2.
  rewrite (splice_is _ _ (take (Z.to_nat mic) x) (ciphertext ecb (nonce i) L pt) (drop (length pt) to) []); [by rewrite app_nil_r|by rewrite app_nil_r|done|].
  unfold to. rewrite length_take, length_drop, repeat_length. lia.
Qed.

(** ** Decryption *)

Lemma js_or_zero a b : is_int32 a -> is_int32 b -> js_or a b = 0 <-> a = 0 /\ b = 0.
Proof. intros Ha Hb. rewrite js_or_plain by done. apply Z.lor_eq_0_iff. Qed.

Lemma js_or_int32 a b : is_int32 (js_or a b).
Proof.
  pose proof (int32_range a). pose proof (int32_range b). unfold js_or, is_int32.
  assert (E : forall x, - 2 ^ 31 <= x < 2 ^ 31 <-> Z.shiftr x 31 = 0 \/ Z.shiftr x 31 = -1).
  { intros x. rewrite Z.shiftr_div_pow2 by lia. split; intros.
    - destruct (decide (0 <= x)); [left; apply Z.div_small; lia|right].
      symmetry. apply (Z.div_unique _ _ _ (x + 2 ^ 31)); lia.
    - pose proof (Z.div_mod x (2 ^ 31)). pose proof (Z.mod_pos_bound x (2 ^ 31)). lia. }
  rewrite E, Z.shiftr_lor. apply E in H as [-> | ->]; apply E in H0 as [-> | ->]; vm_compute; auto.
Qed.

Lemma js_xor_zero a b : is_byte a -> is_byte b -> js_xor a b = 0 <-> a = b.
Proof.
  intros Ha Hb. assert (Hi : forall x, is_byte x -> int32 x = x) by (intros x Hx; apply int32_id; unfold is_byte in Hx; lia).
  Transparent js_xor. unfold js_xor. rewrite !Hi by done. apply Z.lxor_eq_0_iff.
Qed.
Opaque js_xor.

Lemma mic_diff_zero a b n : bytes_ok a -> bytes_ok b -> mic_diff a b n = 0 <-> forall i, (i < n)%nat -> nth i a 0 = nth i b 0.
Proof.
  intros Ha Hb. unfold mic_diff.
  assert (G : forall l d, is_int32 d -> foldl (fun d i => js_or d (js_xor (nth i a 0) (nth i b 0))) d l = 0 <->
    d = 0 /\ forall i, In i l -> nth i a 0 = nth i b 0).
  { induction l as [|i l IH]; intros d Hd; cbn [foldl].
    - split; [intros ->; split; [done|by intros i []]|by intros [-> _]].
    - rewrite IH by apply js_or_int32. rewrite js_or_zero by (done || apply js_xor_int32).
      rewrite js_xor_zero by (by apply nth_byte). cbn [In]. naive_solver. }
  rewrite G by (unfold is_int32; lia). setoid_rewrite in_seq. split.
  - intros [_ H] i Hi. apply H. lia.
  - intros H. split; [done|]. intros i Hi. apply H. lia.
Qed.

Lemma take_nth_eq n a b : (n <= length a)%nat -> (n <= length b)%nat ->
  (forall i, (i < n)%nat -> nth i a 0 = nth i b 0) <-> take n a = take n b.
Proof.
  intros Ha Hb. rewrite !take_nth by done. split.
  - intros H. apply map_ext_in. intros i Hi%in_seq. apply H. lia.
  - intros H i Hi. rewrite <- (nth_take i n a), <- (nth_take i n b), !take_nth by done. by rewrite H.
Qed.

(** The tags agree before the counter is removed exactly when they agree after. *)
Lemma tag_compare T S t n :
  length T = 16%nat -> length S = 16%nat -> length t = n -> (n <= 16)%nat ->
  take n T = take n (xor_bytes (blk t 0) S) <-> take n (xor_bytes T S) = t.
Proof.
  intros HT HS Ht Hn. rewrite !xor_bytes_take.
  assert (Hblk : take n (blk t 0) = t).
  { rewrite take_nth by (unfold blk; rewrite length_map, length_seq; lia). transitivity (take n t); [|by apply take_ge; lia].
    rewrite (take_nth n t) by lia. apply map_ext_in. intros i Hi%in_seq. unfold blk.
    rewrite (nth_indep _ 0 (nth 0 t 0)) by (rewrite length_map, length_seq; lia).
    pose proof (map_nth (fun i => nth (0 + i) t 0) (seq 0 16) 0%nat i) as E. cbn beta in E. cbn [Nat.add] in E |- *. rewrite E, seq_nth by lia. done. }
  rewrite Hblk. assert (HlS : length (take n S) = n) by (rewrite length_take; lia).
  assert (HlT : length (take n T) = n) by (rewrite length_take; lia). split.
  - intros ->. apply xor_cancel. lia.
  - intros <-. symmetry. apply xor_cancel. lia.
Qed.

Lemma decrypt_with_ref i ct st :
  valid_input i -> wf st -> bytes_ok ct ->
  0 <= byteLength ct - mic_length i <= maxPlaintextForL (15 - byteLength (nonce i)) (mic_length i) ->
  let L := 15 - byteLength (nonce i) in
  let n := Z.to_nat (byteLength ct - mic_length i) in
  let pt := ciphertext ecb (nonce i) L (take n ct) in
  bytes_ok pt /\
  fst (Ccm.decrypt little aes i ct st) =
  if bool_decide (encrypted_tag ecb (be 2) (nonce i) (default [] (adata i)) (mic_length i) L pt = drop n ct) then Ok pt
  else Throw CryptoDecryptError.
Proof.
  intros Hv Hwf Hct Hmax. pose proof (valid_params i Hv) as Hpar. destruct (valid_checks i Hv) as [E1 E2]. cbn zeta.
  set (L := 15 - byteLength (nonce i)) in *. set (mic := mic_length i) in *. set (a := default [] (adata i)) in *.
  pose proof (par_mic _ _ _ _ Hpar) as [Hmic _]. pose proof (par_L _ _ _ _ Hpar) as HL.
  assert (Hdec : bytes_ok (ciphertext ecb (nonce i) L (take (Z.to_nat (byteLength ct - mic)) ct))).
  { apply xor_bytes_ok; [by apply Forall_take|]. rewrite <- stream_zero. by apply (stream_ok i L mic a). }
  split; [done|]. unfold Ccm.decrypt. fold mic. rewrite E1, E2. cbn [rbind]. fold L.
  destruct (Z.ltb_spec (byteLength ct - mic) 0) as [|_]; [lia|].
  destruct (Z.ltb_spec (maxPlaintextForL L mic) (byteLength ct - mic)) as [|_]; [lia|]. cbn [throw_if rbind].
  set (n := Z.to_nat (byteLength ct - mic)) in *.
  assert (Hn : (n <= length ct)%nat) by (unfold n, byteLength in *; lia).
  assert (Hmax2 : Z.of_nat n < 2 ^ (8 * L)) by (unfold n, maxPlaintextForL in *; rewrite Z.mul_comm in Hmax; lia).
  set (from := take n ct) in *. set (t := drop n ct). assert (Hfl : length from = n) by (unfold from; rewrite length_take; lia).
  assert (Htl : length t = Z.to_nat mic) by (unfold t, n, byteLength in *; rewrite length_drop; lia).
  assert (Htok : bytes_ok t) by (by apply Forall_drop).
  assert (Hm1 : holds (bytesToBlock little t (inputMic st) 0) (blk t 0)).
  { split; [by apply blk_block|]. apply bytesToBlock_spec; [done|apply Hwf]. }
  set (m1 := bytesToBlock little t (inputMic st) 0) in *. set (st1 := set_inputMic m1 st).
  assert (W1 : wf st1) by (apply wf_input; [exact (holds_buf _ _ Hm1)|done]).
  pose proof (ctr_start_spec i L mic a (inputMic st1) _ st1 Hpar W1 Hm1) as Hs.
  destruct (ctr_start little aes i L (inputMic st1) st1) as [m st2]. destruct Hs as (W2 & M2 & Ctr2 & _ & _).
  set (st3 := set_inputMic m st2). assert (W3 : wf st3) by (apply wf_input; [exact (holds_buf _ _ M2)|done]).
  assert (Hfok : bytes_ok from) by (by apply Forall_take).
  pose proof (ctr_loop_spec i L mic a n [] from [] (repeat 0 n) 0 st3 Hpar W3 Hfok eq_refl) as Hloop. cbn [app length] in Hloop.
  rewrite Hfl in Hloop. destruct (ctr_loop little aes n from (repeat 0 n) n 0 st3) as [pt st4].
  destruct Hloop as (Hpt & W4 & _ & I4); [rewrite repeat_length; lia|lia|exact Ctr2|lia|lia|].
  rewrite (drop_ge (repeat 0 n)) in Hpt by (rewrite repeat_length; lia). rewrite app_nil_r, stream_zero in Hpt.
  assert (Ept : pt = ciphertext ecb (nonce i) L from) by (unfold ciphertext; by rewrite Hfl).
  rewrite <- Ept in *.
  assert (Hptl : byteLength pt < 2 ^ (8 * L)) by (rewrite Ept; unfold byteLength; rewrite (ciphertext_length i L mic a) by done; lia).
  destruct (cbcMac_spec i pt L mic a st4 Hpar W4 Hdec Hptl) as (W5 & C5 & I5).
  set (st5 := cbcMac little aes i pt mic L st4) in *. cbn [computedMic inputMic set_computedMic set_inputMic].
  rewrite I5, I4. cbn [inputMic set_inputMic st3]. set (T := tag ecb (be 2) (nonce i) a mic L pt) in *.
  rewrite (proj2 C5), (proj2 M2), !serializeMic_spec, !wbs_bw by (apply bw_words || idtac; (apply C5 || apply M2)).
  set (S0 := ecb (ctr (nonce i) L 0)) in *. unfold encrypted_tag. fold T S0.
  assert (Hiff : mic_diff T (xor_bytes (blk t 0) S0) (Z.to_nat mic) = 0 <-> take (Z.to_nat mic) (xor_bytes T S0) = t).
  { rewrite mic_diff_zero by (apply C5 || apply M2).
    rewrite take_nth_eq by (rewrite (proj1 (proj1 C5)) || rewrite (proj1 (proj1 M2)); lia).
    apply tag_compare; [apply C5|apply ecb_block, (ctr_block i L mic a 0 Hpar)|done|lia]. }
  destruct (Z.eqb_spec (mic_diff T (xor_bytes (blk t 0) S0) (Z.to_nat mic)) 0) as [E|E].
  - rewrite bool_decide_eq_true_2 by (by apply Hiff). done.
  - rewrite bool_decide_eq_false_2 by (by rewrite <- Hiff). done.
Qed.

End Buffer.
