(* ===== verification/CcmCorrect.v ===== *)
(** * AES-CCM: correctness

    The code of Ccm.v with the AES of Aes.v is CCM of NIST SP 800-38C over the
    cipher of FIPS 197, and decryption accepts exactly what encryption returns. *)

From S2P Require Import Prelude DataIO Aes AesSpec Ccm CcmSpec.
Import Fips Nist.

(** ** The block cipher of a key *)

Lemma aes_words key ws : is_words ws -> is_words (Aes.encrypt key ws).
Proof.
  intros _. unfold Aes.encrypt, crypt. destruct (rounds _ _ _ _ _ _ _) as [[[[a b] c] d] rk].
  cbn match. split; [done|]. repeat constructor; apply final_word_int32.
Qed.

Lemma ecb_fips key b : aes_key key -> is_block b -> ecb (Aes.encrypt key) b = EncryptBlock key b.
Proof.
  intros Hkey [Hl Hok]. rewrite <- encrypt_block_fips by done.
  by rewrite (fromByteArray_fours 4 4 b Hl), app_nil_r.
Qed.

(** ** Ciphers that agree on blocks *)

Lemma blocks_block l : bytes_ok l -> Forall is_block (blocks l).
Proof.
  intros Hl. rewrite blocks_spec. unfold blocks_from. apply List.Forall_forall.
  intros b (k & <- & _)%in_map_iff. by apply blk_block.
Qed.

Lemma b0_block i L mic a has len : params i L mic a -> is_block (b0 (nonce i) has mic L len).
Proof.
  intros [HL Hn Hok Hmic _ _ _]. destruct (flags_code has mic L HL Hmic) as [_ Hf]. split.
  - cbn [b0 length]. rewrite length_app, be_length. lia.
  - constructor; [done|]. apply Forall_app. split; [done|apply be_ok].
Qed.

Section Agree.

Context (E E' : list Z -> list Z).
Context (HE : forall b, is_block b -> is_block (E b)) (Hagree : forall b, is_block b -> E b = E' b).

Lemma cbc_mac_agree x bs : is_block x -> Forall is_block bs -> cbc_mac E x bs = cbc_mac E' x bs.
Proof.
  intros Hx Hbs. revert x Hx. induction Hbs as [|b bs Hb _ IH]; intros x Hx; [done|]. cbn [cbc_mac foldl].
  pose proof (xor_block x b Hx Hb) as Hxb. rewrite <- (Hagree _ Hxb). apply IH. by apply HE.
Qed.

Lemma keystream_agree i L mic a n : params i L mic a -> keystream E (nonce i) L n = keystream E' (nonce i) L n.
Proof. intros Hpar. unfold keystream. f_equal. apply map_ext. intros k. by apply Hagree, (ctr_block i L mic a). Qed.

Lemma tag_agree i L mic a len_a len_a' pt :
  params i L mic a -> bytes_ok pt -> bytes_ok (len_a (byteLength a)) -> len_a (byteLength a) = len_a' (byteLength a) ->
  tag E len_a (nonce i) a mic L pt = tag E' len_a' (nonce i) a mic L pt.
Proof.
  intros Hpar Hpt Hla Hlen. unfold tag. rewrite <- Hlen.
  pose proof (b0_block i L mic a (negb (length a =? 0)%nat) (byteLength pt) Hpar) as Hb0.
  rewrite <- (Hagree _ Hb0). apply cbc_mac_agree; [by apply HE|].
  apply Forall_app. split; [|by apply blocks_block]. case_match; [|done].
  apply blocks_block, Forall_app. split; [done|]. exact (par_adata_ok _ _ _ _ Hpar).
Qed.

Lemma encrypt_with_agree i len_a len_a' pt :
  valid_input i -> bytes_ok pt -> let a := default [] (adata i) in
  bytes_ok (len_a (byteLength a)) -> len_a (byteLength a) = len_a' (byteLength a) ->
  encrypt_with E len_a (nonce i) a (mic_length i) pt = encrypt_with E' len_a' (nonce i) a (mic_length i) pt.
Proof.
  intros Hv Hpt a Hla Hlen. pose proof (valid_params i Hv) as Hpar. fold a in Hpar.
  unfold encrypt_with, ciphertext, encrypted_tag. rewrite (keystream_agree i _ (mic_length i) a) by done.
  rewrite (tag_agree i _ _ a len_a len_a' pt Hpar Hpt Hla Hlen).
  by rewrite (Hagree _ (ctr_block i _ _ a 0 Hpar)).
Qed.

End Agree.

(** ** Encryption *)

Definition fits (i : Input) (pt : list Z) : Prop :=
  byteLength pt <= maxPlaintextForL (15 - byteLength (nonce i)) (mic_length i).

(** C11: For a key of AES and associated data of fewer than 65280 bytes, the code
    computes CCM of NIST SP 800-38C over the cipher of FIPS 197, on platforms of
    either byte order and whatever earlier calls left in the shared buffers. *)
Theorem ccm_encrypt_nist little key i pt st :
  aes_key key -> valid_input i -> byteLength (default [] (adata i)) < 0xff00 -> wf st -> bytes_ok pt -> fits i pt ->
  fst (ccm_encrypt little key i pt st) =
  Ok (Nist.encrypt (EncryptBlock key) (nonce i) (default [] (adata i)) (mic_length i) pt).
Proof.
  intros Hkey Hv Ha Hwf Hpt Hfit. unfold ccm_encrypt. rewrite encrypt_with_ref by (done || apply aes_words). f_equal.
  apply encrypt_with_agree; [|by intros b Hb; apply ecb_fips|done|done|apply be_ok|].
  - intros b Hb. apply ecb_block; [apply aes_words|done].
  - unfold adata_length. by rewrite (proj2 (Z.ltb_lt _ _) Ha).
Qed.

(** ** Decryption *)

Lemma encrypt_fits little aes i pt st ct :
  valid_input i -> fst (Ccm.encrypt little aes i pt st) = Ok ct -> fits i pt.
Proof.
  intros Hv. unfold Ccm.encrypt, fits. destruct (valid_checks i Hv) as [-> ->]. cbn [rbind].
  destruct (Z.ltb_spec (maxPlaintextForL (15 - byteLength (nonce i)) (mic_length i)) (byteLength pt)); [done|lia].
Qed.

Lemma encrypted_tag_length aes i len_a pt :
  (forall ws, is_words ws -> is_words (aes ws)) -> valid_input i -> bytes_ok pt -> let a := default [] (adata i) in
  bytes_ok (len_a (byteLength a)) ->
  length (encrypted_tag (ecb aes) len_a (nonce i) a (mic_length i) (15 - byteLength (nonce i)) pt) = Z.to_nat (mic_length i).
Proof.
  intros Haes Hv Hpt a Hla. pose proof (valid_params i Hv) as Hpar. fold a in Hpar. unfold encrypted_tag.
  rewrite length_take, xor_bytes_length. rewrite (proj1 (ecb_block _ Haes _ (ctr_block i _ _ a 0 Hpar))).
  assert (Ht : is_block (tag (ecb aes) len_a (nonce i) a (mic_length i) (15 - byteLength (nonce i)) pt)).
  { unfold tag. set (x := ecb aes (b0 _ _ _ _ _)). assert (Hx : is_block x) by (eapply ecb_block, b0_block; done).
    set (bs := _ ++ blocks pt). assert (Hbs : Forall is_block bs).
    { apply Forall_app. split; [|by apply blocks_block]. case_match; [|done]. apply blocks_block, Forall_app. split; [done|].
      exact (par_adata_ok _ _ _ _ Hpar). }
    clearbody x bs. revert x Hx. induction Hbs as [|b bs Hb _ IH]; intros x Hx; [done|]. cbn [cbc_mac foldl].
    apply IH, ecb_block, xor_block; done. }
  rewrite (proj1 Ht). pose proof (par_mic _ _ _ _ Hpar). lia.
Qed.

(** The length that a received message leaves for the plaintext. *)
Definition plain_length (i : Input) (ct : list Z) : Z := byteLength ct - mic_length i.
Definition length_ok (i : Input) (ct : list Z) : Prop :=
  0 <= plain_length i ct <= maxPlaintextForL (15 - byteLength (nonce i)) (mic_length i).

#[global] Instance length_ok_dec i ct : Decision (length_ok i ct).
Proof. unfold length_ok. apply _. Defined.

Lemma decrypt_bad_length little aes i ct st :
  valid_input i -> ~ length_ok i ct -> fst (Ccm.decrypt little aes i ct st) = Throw CryptoInputError.
Proof.
  intros Hv Hbad. unfold Ccm.decrypt, length_ok, plain_length in *. destruct (valid_checks i Hv) as [-> ->]. cbn [rbind].
  destruct (Z.ltb_spec (byteLength ct - mic_length i) 0); [done|]. cbn [throw_if rbind].
  destruct (Z.ltb_spec (maxPlaintextForL (15 - byteLength (nonce i)) (mic_length i)) (byteLength ct - mic_length i)); [done|lia].
Qed.

Section Cipher.

Context (aes : list Z -> list Z) (Haes : forall ws, is_words ws -> is_words (aes ws)).

Lemma ciphertext_split i pt ct :
  valid_input i -> bytes_ok pt -> let a := default [] (adata i) in
  encrypt_with (ecb aes) (be 2) (nonce i) a (mic_length i) pt = ct ->
  let L := 15 - byteLength (nonce i) in
  byteLength ct = byteLength pt + mic_length i /\
  take (length pt) ct = ciphertext (ecb aes) (nonce i) L pt /\
  drop (length pt) ct = encrypted_tag (ecb aes) (be 2) (nonce i) a (mic_length i) L pt.
Proof.
  intros Hv Hpt a <- L. pose proof (valid_params i Hv) as Hpar. unfold encrypt_with. fold L.
  assert (Hl : length (ciphertext (ecb aes) (nonce i) L pt) = length pt) by (by eapply ciphertext_length).
  pose proof (encrypted_tag_length aes i (be 2) pt Haes Hv Hpt (be_ok _ _)) as Ht. fold L a in Ht.
  pose proof (par_mic _ _ _ _ Hpar). unfold byteLength at 1 2. rewrite length_app, Hl, Ht, take_app_length', drop_app_length' by done.
  split_and!; [lia|done|done].
Qed.

Lemma decrypt_accepts little little' i ct pt st st' :
  valid_input i -> wf st -> wf st' -> bytes_ok ct ->
  fst (Ccm.decrypt little aes i ct st) = Ok pt <->
  bytes_ok pt /\ fst (Ccm.encrypt little' aes i pt st') = Ok ct.
Proof.
  intros Hv Hwf Hwf' Hct. pose proof (valid_params i Hv) as Hpar. set (a := default [] (adata i)) in *.
  set (L := 15 - byteLength (nonce i)) in *. split.
  - intros Hd. destruct (decide (length_ok i ct)) as [Hlen|Hlen].
    2: { by rewrite decrypt_bad_length in Hd. }
    destruct (decrypt_with_ref little aes Haes i ct st Hv Hwf Hct Hlen) as [Hok E]. rewrite E in Hd. clear E. fold a L in Hd, Hok.
    unfold length_ok, plain_length in Hlen. set (n := Z.to_nat (byteLength ct - mic_length i)) in *.
    assert (Hn : length (take n ct) = n) by (rewrite length_take; unfold n, byteLength in *; pose proof (par_mic _ _ _ _ Hpar); lia).
    case_bool_decide as Htag; [|done]. injection Hd as <-. split; [done|].
    rewrite encrypt_with_ref by (done || (unfold byteLength at 1; erewrite ciphertext_length by done; rewrite Hn; unfold n; lia)).
    unfold encrypt_with. fold L a. rewrite Htag. erewrite ciphertext_twice by done. by rewrite take_drop.
  - intros [Hpt Henc]. pose proof (encrypt_fits _ _ _ _ _ _ Hv Henc) as Hfit. rewrite encrypt_with_ref in Henc by done.
    injection Henc as Henc. destruct (ciphertext_split i pt ct Hv Hpt Henc) as (Hl & Htake & Hdrop). fold L a in Htake, Hdrop.
    assert (Hlen : length_ok i ct) by (unfold length_ok, plain_length, fits, byteLength in *; lia).
    destruct (decrypt_with_ref little aes Haes i ct st Hv Hwf Hct Hlen) as [_ ->]. fold a L.
    replace (Z.to_nat (byteLength ct - mic_length i)) with (length pt) by (unfold byteLength in *; lia).
    rewrite Htake. erewrite ciphertext_twice by done. by rewrite bool_decide_eq_true_2.
Qed.

Lemma decrypt_rejects little i ct st e :
  valid_input i -> wf st -> bytes_ok ct -> fst (Ccm.decrypt little aes i ct st) = Throw e ->
  e = if decide (length_ok i ct) then CryptoDecryptError else CryptoInputError.
Proof.
  intros Hv Hwf Hct Hd. destruct (decide (length_ok i ct)) as [Hlen|Hlen].
  - destruct (decrypt_with_ref little aes Haes i ct st Hv Hwf Hct Hlen) as [_ E]. rewrite E in Hd.
    by case_bool_decide; [|injection Hd as <-].
  - rewrite decrypt_bad_length in Hd by done. by injection Hd.
Qed.

End Cipher.

(** C12: Decryption returns a plaintext exactly when encrypting it gives the received
    message; every other message of a possible length is a [CryptoDecryptError],
    and one of an impossible length a [CryptoInputError].  Byte order and buffers
    may differ between the two ends. *)
Theorem ccm_decrypt_iff little little' key i ct st st' :
  valid_input i -> wf st -> wf st' -> bytes_ok ct ->
  (forall pt, fst (ccm_decrypt little key i ct st) = Ok pt <->
    bytes_ok pt /\ fst (ccm_encrypt little' key i pt st') = Ok ct) /\
  (forall e, fst (ccm_decrypt little key i ct st) = Throw e ->
    e = if decide (length_ok i ct) then CryptoDecryptError else CryptoInputError).
Proof.
  intros. split; [intros pt; by apply (decrypt_accepts _ (aes_words key))|].
  intros e. by apply (decrypt_rejects _ (aes_words key)).
Qed.

(** ** A concrete message *)

Definition toy_input : Input := mkInput [0;0;0;3;2;1;0;0xA0;0xA1;0xA2;0xA3;0xA4;0xA5] (Some [0;1;2;3;4;5;6;7]) (Some 8).
Definition toy_message : list Z := [0x48; 0x69].

Ltac bytes := unfold bytes_ok; repeat constructor; unfold is_byte; lia.

Lemma toy_valid : valid_input toy_input.
Proof.
  split_and!; [bytes|by right| |bytes|done]. intros m [= <-]. done.
Qed.

Lemma new_buffers_wf : wf new_buffers.
Proof. by constructor. Qed.

Lemma ccm_encrypt_nist_witness :
  Nist.encrypt (EncryptBlock fips_key) (nonce toy_input) [0;1;2;3;4;5;6;7] 8 toy_message =
  match fst (ccm_encrypt true fips_key toy_input toy_message new_buffers) with Ok ct => ct | Throw _ => [] end.
Proof.
  rewrite (ccm_encrypt_nist true fips_key toy_input toy_message new_buffers);
    [reflexivity|apply fips_key_ok|apply toy_valid|done|apply new_buffers_wf|bytes|done].
Defined.

Definition toy_ciphertext : list Z :=
  Eval vm_compute in match fst (ccm_encrypt true fips_key toy_input toy_message new_buffers) with Ok ct => ct | Throw _ => [] end.

Lemma ccm_decrypt_iff_witness :
  fst (ccm_decrypt false fips_key toy_input toy_ciphertext new_buffers) = Ok toy_message.
Proof.
  apply (ccm_decrypt_iff false true fips_key toy_input toy_ciphertext new_buffers new_buffers);
    [apply toy_valid|apply new_buffers_wf|apply new_buffers_wf|bytes|]. split; [bytes|]. vm_compute. reflexivity.
Defined.
