(* ===== verification/Exchange.v ===== *)
(** * Message exchanges and reliable messaging

    Models protocol/src/protocol/MessageExchange.ts on a unicast session, with
    the retransmission limits of MRP.ts and the dispatch of an incoming message
    to its exchange in ExchangeManager.ts.

    Every [await] ends a step.  What is suspended is a [Task]: a send that waits
    for the message counter, for the channel, or for its acknowledgement, and a
    retransmission that waits for the channel.  [Then] says what follows when a
    send ends: nothing more, the caller's own code, or the rest of the handler
    that sent an acknowledgement.  The continuation of a settled promise runs
    before the next event.

    Times come from the environment with each event ([Env]): the clock, the next
    back-off (which the code draws at random from the session parameters), the
    longest time for a response, and the session parameters.  Timers fire at any
    moment.  Messages the exchange sends carry a reference, since the code
    compares them by identity.

    Left out: group sessions, the timed-interaction timer, logging, lifetimes,
    activity time stamps, and observers of closing (they run at once). *)

From stdpp Require Import list gmap.
From S2P Require Import Prelude.

(** ** Messages *)

Record Message := mkMessage {
  messageId : Z;
  protocolId : Z;
  messageType : Z;
  isInitiatorMessage : bool;
  requiresAck : bool;
  ackedMessageId : option Z;
  payload : list Z;
}.

#[global] Instance Message_eq_dec : EqDecision Message.
Proof. solve_decision. Defined.

Definition SECURE_CHANNEL_PROTOCOL_ID : Z := 0.
Definition BDX_PROTOCOL_ID : Z := 2.
Definition StandaloneAck : Z := 0x10.
Definition StatusReport : Z := 0x40.

Definition isStandaloneAck (m : Message) : bool :=
  (protocolId m =? SECURE_CHANNEL_PROTOCOL_ID) && (messageType m =? StandaloneAck).
Definition isStatusReport (m : Message) : bool :=
  (protocolId m =? SECURE_CHANNEL_PROTOCOL_ID) && (messageType m =? StatusReport).

(** A message object of this exchange. *)
Record Sent := mkSent {
  ref : nat;
  msg : Message;
}.

(** ** Options, environment, configuration *)

Record Options := mkOptions {
  expectAckOnly : bool;
  expectedProcessingTime : option Z;
  suppressAck : bool;
  disableMrpLogic : bool;
  maxRetransmissions : option Z;
  suppressPeerLossForSend : bool;
}.

Definition no_options : Options := mkOptions false None false false None false.

Definition MAX_TRANSMISSIONS : Z := 5.
Definition DEFAULT_EXPECTED_PROCESSING_TIME : Z := 2000.

Definition transmissions (o : Options) : Z := default MAX_TRANSMISSIONS (maxRetransmissions o).
Definition processing_time (o : Options) : Z := default DEFAULT_EXPECTED_PROCESSING_TIME (expectedProcessingTime o).

Record Config := mkConfig {
  isInitiator : bool;
  usesMrp : bool;
  exchangeProtocol : Z;
  suppressPeerLoss : bool;
}.

Record Env := mkEnv {
  now : Z;
  backOff : Z;
  peerResponseTime : Z;
  activeInterval : Z;
  activeThreshold : Z;
  sendAdditionalDelay : Z;
}.

Record Timer := mkTimer {
  running : bool;
  interval : Z;
  timer_for : Sent;
  timer_processing : option Z;
}.

Definition stopped (t : Timer) : Timer := mkTimer false (interval t) (timer_for t) (timer_processing t).
Definition started (t : Timer) : Timer := mkTimer true (interval t) (timer_for t) (timer_processing t).

(** ** Suspended calls *)

Inductive Then :=
| ThenApp (call : nat)
| ThenNothing
| ThenKeep (m : Message)
| ThenIgnore
| ThenClose (cause : option MatterError)
| ThenDestroy.

Record Call := mkCall {
  c_then : Then;
  c_options : Options;
  c_type : Z;
  c_payload : list Z;
  c_standalone : bool;
  c_acked : option Z;
  c_requiresAck : bool;
}.

Inductive Task :=
| AwaitCounter (c : Call)
| AwaitChannel (c : Call) (ref : nat) (tracked : bool) (response : option (option Message))
| AwaitAck (c : Call) (ref : nat)
| AwaitRetransmit (s : Sent) (backoff : Z) (processing : option Z).

(** What can be observed from outside. [Transmit] carries the number reported
    to [onSend]; a repeated reply is not reported. *)
Inductive Out :=
| Transmit (m : Message) (number : option Z)
| Settled (call : nat) (r : result unit)
| PeerLost
| Deliver (m : Message)
| Refuse (m : Message) (e : MatterError)
| Ignore (m : Message)
| Closed.

Record Exchange := mkExchange {
  receivedMessageToAck : option Message; (* message whose acknowledgement is owed *)
  ackTimer : bool; (* [#receivedMessageAckTimer] is running *)
  closeTimer : option bool; (* undefined, or whether it is running *)
  closeCause : option MatterError;
  isDestroyed : bool;
  used : bool;
  closed : bool;
  closing : bool;
  sentMessageToAck : option Sent;
  sentMessageAckSuccess : option nat; (* resolver of the promise of that message *)
  sentMessageAckFailure : option nat;
  sendOptions : Options;
  retransmissionCounter : Z;
  retransmissionTimer : option Timer;
  strayTimers : list Timer; (* running timers the exchange no longer refers to *)
  lastTransmissionAt : option Z;
  messagesQueue : list Message;
  queueClosed : bool;
  messageReceivedCounter : Z;
  tasks : list Task; (* suspended calls *)
  nextRef : nat;
}.

Definition set_receivedMessageToAck (v : option Message) (st : Exchange) : Exchange :=
  mkExchange v (ackTimer st) (closeTimer st) (closeCause st) (isDestroyed st) (used st) (closed st) (closing st)
    (sentMessageToAck st) (sentMessageAckSuccess st) (sentMessageAckFailure st) (sendOptions st)
    (retransmissionCounter st) (retransmissionTimer st) (strayTimers st) (lastTransmissionAt st) (messagesQueue st)
    (queueClosed st) (messageReceivedCounter st) (tasks st) (nextRef st).
Definition set_ackTimer (v : bool) (st : Exchange) : Exchange :=
  mkExchange (receivedMessageToAck st) v (closeTimer st) (closeCause st) (isDestroyed st) (used st) (closed st)
    (closing st) (sentMessageToAck st) (sentMessageAckSuccess st) (sentMessageAckFailure st) (sendOptions st)
    (retransmissionCounter st) (retransmissionTimer st) (strayTimers st) (lastTransmissionAt st) (messagesQueue st)
    (queueClosed st) (messageReceivedCounter st) (tasks st) (nextRef st).
Definition set_closeTimer (v : option bool) (st : Exchange) : Exchange :=
  mkExchange (receivedMessageToAck st) (ackTimer st) v (closeCause st) (isDestroyed st) (used st) (closed st)
    (closing st) (sentMessageToAck st) (sentMessageAckSuccess st) (sentMessageAckFailure st) (sendOptions st)
    (retransmissionCounter st) (retransmissionTimer st) (strayTimers st) (lastTransmissionAt st) (messagesQueue st)
    (queueClosed st) (messageReceivedCounter st) (tasks st) (nextRef st).
Definition set_closeCause (v : option MatterError) (st : Exchange) : Exchange :=
  mkExchange (receivedMessageToAck st) (ackTimer st) (closeTimer st) v (isDestroyed st) (used st) (closed st)
    (closing st) (sentMessageToAck st) (sentMessageAckSuccess st) (sentMessageAckFailure st) (sendOptions st)
    (retransmissionCounter st) (retransmissionTimer st) (strayTimers st) (lastTransmissionAt st) (messagesQueue st)
    (queueClosed st) (messageReceivedCounter st) (tasks st) (nextRef st).
Definition set_isDestroyed (v : bool) (st : Exchange) : Exchange :=
  mkExchange (receivedMessageToAck st) (ackTimer st) (closeTimer st) (closeCause st) v (used st) (closed st)
    (closing st) (sentMessageToAck st) (sentMessageAckSuccess st) (sentMessageAckFailure st) (sendOptions st)
    (retransmissionCounter st) (retransmissionTimer st) (strayTimers st) (lastTransmissionAt st) (messagesQueue st)
    (queueClosed st) (messageReceivedCounter st) (tasks st) (nextRef st).
Definition set_used (v : bool) (st : Exchange) : Exchange :=
  mkExchange (receivedMessageToAck st) (ackTimer st) (closeTimer st) (closeCause st) (isDestroyed st) v (closed st)
    (closing st) (sentMessageToAck st) (sentMessageAckSuccess st) (sentMessageAckFailure st) (sendOptions st)
    (retransmissionCounter st) (retransmissionTimer st) (strayTimers st) (lastTransmissionAt st) (messagesQueue st)
    (queueClosed st) (messageReceivedCounter st) (tasks st) (nextRef st).
Definition set_closed (v : bool) (st : Exchange) : Exchange :=
  mkExchange (receivedMessageToAck st) (ackTimer st) (closeTimer st) (closeCause st) (isDestroyed st) (used st) v
    (closing st) (sentMessageToAck st) (sentMessageAckSuccess st) (sentMessageAckFailure st) (sendOptions st)
    (retransmissionCounter st) (retransmissionTimer st) (strayTimers st) (lastTransmissionAt st) (messagesQueue st)
    (queueClosed st) (messageReceivedCounter st) (tasks st) (nextRef st).
Definition set_closing (v : bool) (st : Exchange) : Exchange :=
  mkExchange (receivedMessageToAck st) (ackTimer st) (closeTimer st) (closeCause st) (isDestroyed st) (used st)
    (closed st) v (sentMessageToAck st) (sentMessageAckSuccess st) (sentMessageAckFailure st) (sendOptions st)
    (retransmissionCounter st) (retransmissionTimer st) (strayTimers st) (lastTransmissionAt st) (messagesQueue st)
    (queueClosed st) (messageReceivedCounter st) (tasks st) (nextRef st).
Definition set_sentMessageToAck (v : option Sent) (st : Exchange) : Exchange :=
  mkExchange (receivedMessageToAck st) (ackTimer st) (closeTimer st) (closeCause st) (isDestroyed st) (used st)
    (closed st) (closing st) v (sentMessageAckSuccess st) (sentMessageAckFailure st) (sendOptions st)
    (retransmissionCounter st) (retransmissionTimer st) (strayTimers st) (lastTransmissionAt st) (messagesQueue st)
    (queueClosed st) (messageReceivedCounter st) (tasks st) (nextRef st).
Definition set_sentMessageAckSuccess (v : option nat) (st : Exchange) : Exchange :=
  mkExchange (receivedMessageToAck st) (ackTimer st) (closeTimer st) (closeCause st) (isDestroyed st) (used st)
    (closed st) (closing st) (sentMessageToAck st) v (sentMessageAckFailure st) (sendOptions st)
    (retransmissionCounter st) (retransmissionTimer st) (strayTimers st) (lastTransmissionAt st) (messagesQueue st)
    (queueClosed st) (messageReceivedCounter st) (tasks st) (nextRef st).
Definition set_sentMessageAckFailure (v : option nat) (st : Exchange) : Exchange :=
  mkExchange (receivedMessageToAck st) (ackTimer st) (closeTimer st) (closeCause st) (isDestroyed st) (used st)
    (closed st) (closing st) (sentMessageToAck st) (sentMessageAckSuccess st) v (sendOptions st)
    (retransmissionCounter st) (retransmissionTimer st) (strayTimers st) (lastTransmissionAt st) (messagesQueue st)
    (queueClosed st) (messageReceivedCounter st) (tasks st) (nextRef st).
Definition set_sendOptions (v : Options) (st : Exchange) : Exchange :=
  mkExchange (receivedMessageToAck st) (ackTimer st) (closeTimer st) (closeCause st) (isDestroyed st) (used st)
    (closed st) (closing st) (sentMessageToAck st) (sentMessageAckSuccess st) (sentMessageAckFailure st) v
    (retransmissionCounter st) (retransmissionTimer st) (strayTimers st) (lastTransmissionAt st) (messagesQueue st)
    (queueClosed st) (messageReceivedCounter st) (tasks st) (nextRef st).
Definition set_retransmissionCounter (v : Z) (st : Exchange) : Exchange :=
  mkExchange (receivedMessageToAck st) (ackTimer st) (closeTimer st) (closeCause st) (isDestroyed st) (used st)
    (closed st) (closing st) (sentMessageToAck st) (sentMessageAckSuccess st) (sentMessageAckFailure st)
    (sendOptions st) v (retransmissionTimer st) (strayTimers st) (lastTransmissionAt st) (messagesQueue st)
    (queueClosed st) (messageReceivedCounter st) (tasks st) (nextRef st).
Definition set_retransmissionTimer (v : option Timer) (st : Exchange) : Exchange :=
  mkExchange (receivedMessageToAck st) (ackTimer st) (closeTimer st) (closeCause st) (isDestroyed st) (used st)
    (closed st) (closing st) (sentMessageToAck st) (sentMessageAckSuccess st) (sentMessageAckFailure st)
    (sendOptions st) (retransmissionCounter st) v (strayTimers st) (lastTransmissionAt st) (messagesQueue st)
    (queueClosed st) (messageReceivedCounter st) (tasks st) (nextRef st).
Definition set_strayTimers (v : list Timer) (st : Exchange) : Exchange :=
  mkExchange (receivedMessageToAck st) (ackTimer st) (closeTimer st) (closeCause st) (isDestroyed st) (used st)
    (closed st) (closing st) (sentMessageToAck st) (sentMessageAckSuccess st) (sentMessageAckFailure st)
    (sendOptions st) (retransmissionCounter st) (retransmissionTimer st) v (lastTransmissionAt st) (messagesQueue
    st) (queueClosed st) (messageReceivedCounter st) (tasks st) (nextRef st).
Definition set_lastTransmissionAt (v : option Z) (st : Exchange) : Exchange :=
  mkExchange (receivedMessageToAck st) (ackTimer st) (closeTimer st) (closeCause st) (isDestroyed st) (used st)
    (closed st) (closing st) (sentMessageToAck st) (sentMessageAckSuccess st) (sentMessageAckFailure st)
    (sendOptions st) (retransmissionCounter st) (retransmissionTimer st) (strayTimers st) v (messagesQueue st)
    (queueClosed st) (messageReceivedCounter st) (tasks st) (nextRef st).
Definition set_messagesQueue (v : list Message) (st : Exchange) : Exchange :=
  mkExchange (receivedMessageToAck st) (ackTimer st) (closeTimer st) (closeCause st) (isDestroyed st) (used st)
    (closed st) (closing st) (sentMessageToAck st) (sentMessageAckSuccess st) (sentMessageAckFailure st)
    (sendOptions st) (retransmissionCounter st) (retransmissionTimer st) (strayTimers st) (lastTransmissionAt st) v
    (queueClosed st) (messageReceivedCounter st) (tasks st) (nextRef st).
Definition set_queueClosed (v : bool) (st : Exchange) : Exchange :=
  mkExchange (receivedMessageToAck st) (ackTimer st) (closeTimer st) (closeCause st) (isDestroyed st) (used st)
    (closed st) (closing st) (sentMessageToAck st) (sentMessageAckSuccess st) (sentMessageAckFailure st)
    (sendOptions st) (retransmissionCounter st) (retransmissionTimer st) (strayTimers st) (lastTransmissionAt st)
    (messagesQueue st) v (messageReceivedCounter st) (tasks st) (nextRef st).
Definition set_messageReceivedCounter (v : Z) (st : Exchange) : Exchange :=
  mkExchange (receivedMessageToAck st) (ackTimer st) (closeTimer st) (closeCause st) (isDestroyed st) (used st)
    (closed st) (closing st) (sentMessageToAck st) (sentMessageAckSuccess st) (sentMessageAckFailure st)
    (sendOptions st) (retransmissionCounter st) (retransmissionTimer st) (strayTimers st) (lastTransmissionAt st)
    (messagesQueue st) (queueClosed st) v (tasks st) (nextRef st).
Definition set_tasks (v : list Task) (st : Exchange) : Exchange :=
  mkExchange (receivedMessageToAck st) (ackTimer st) (closeTimer st) (closeCause st) (isDestroyed st) (used st)
    (closed st) (closing st) (sentMessageToAck st) (sentMessageAckSuccess st) (sentMessageAckFailure st)
    (sendOptions st) (retransmissionCounter st) (retransmissionTimer st) (strayTimers st) (lastTransmissionAt st)
    (messagesQueue st) (queueClosed st) (messageReceivedCounter st) v (nextRef st).
Definition set_nextRef (v : nat) (st : Exchange) : Exchange :=
  mkExchange (receivedMessageToAck st) (ackTimer st) (closeTimer st) (closeCause st) (isDestroyed st) (used st)
    (closed st) (closing st) (sentMessageToAck st) (sentMessageAckSuccess st) (sentMessageAckFailure st)
    (sendOptions st) (retransmissionCounter st) (retransmissionTimer st) (strayTimers st) (lastTransmissionAt st)
    (messagesQueue st) (queueClosed st) (messageReceivedCounter st) (tasks st) v.

Definition newExchange (cfg : Config) : Exchange :=
  mkExchange None false None None false (negb (isInitiator cfg)) false false None None None no_options 0 None [] None
    [] false 0 [] 0.

(** ** Actions *)

Definition Act := Exchange -> Exchange * list Out.

Definition done : Act := fun st => (st, []).
Definition upd (f : Exchange -> Exchange) : Act := fun st => (f st, []).
Definition emit (o : Out) : Act := fun st => (st, [o]).
Definition andThen (a b : Act) : Act := fun st => let '(st, o1) := a st in let '(st, o2) := b st in (st, o1 ++ o2).
Definition look {A} (f : Exchange -> A) (k : A -> Act) : Act := fun st => k (f st) st.
Definition when (b : bool) (a : Act) : Act := if b then a else done.

Declare Scope act_scope.
Delimit Scope act_scope with act.
Bind Scope act_scope with Act.
Notation "a ;; b" := (andThen a b) : act_scope.
Local Open Scope act_scope.

Section Exchange.

Context (cfg : Config).

Definition considerClosed (st : Exchange) : bool := closed st || (isInitiator cfg && closing st).

Definition reportsPeerLoss (o : Options) (st : Exchange) : bool :=
  negb (suppressPeerLoss cfg) && negb (suppressPeerLossForSend o) && (messageReceivedCounter st =? 0).

(** The errors the caller of [send] takes for a lost peer. *)
Definition peer_loss (e : MatterError) : bool :=
  match e with PeerUnresponsiveError | NetworkError => true | _ => false end.

(** The end of [send]. *)
Definition app_done (k : nat) (o : Options) (r : result unit) : Act :=
  look (reportsPeerLoss o) (fun reports =>
    match r with
    | Throw e => when (reports && peer_loss e) (emit PeerLost)
    | Ok _ => done
    end ;; emit (Settled k r)).

(** ** Timers and tasks *)

Definition stop_timer : Act := upd (fun st => set_retransmissionTimer (stopped <$> retransmissionTimer st) st).

(** Assigning [#retransmissionTimer]; a running one it replaces goes on unreferenced. *)
Definition assign_timer (t : Timer) : Act := upd (fun st =>
  set_retransmissionTimer (Some t)
    match retransmissionTimer st with
    | Some old => if running old then set_strayTimers (old :: strayTimers st) st else st
    | None => st
    end).

Definition push_task (t : Task) : Act := upd (fun st => set_tasks (tasks st ++ [t]) st).
Definition drop_task (i : nat) : Act := upd (fun st => set_tasks (delete i (tasks st)) st).
Definition replace_task (i : nat) (t : Task) : Act := upd (fun st => set_tasks (<[i := t]> (tasks st)) st).

(** ** Settling the promise of a tracked message *)

Definition waits_for (r : nat) (t : Task) : bool :=
  match t with
  | AwaitChannel _ r' true None => bool_decide (r = r')
  | AwaitAck _ r' => bool_decide (r = r')
  | _ => false
  end.

Definition task_of (r : nat) (st : Exchange) : option (nat * Task) := list_find (fun t => waits_for r t = true) (tasks st).

(** After [abort.race(ackPromise)]. *)
Definition ack_received (c : Call) (response : option Message) : Act :=
  upd (set_sentMessageAckSuccess None) ;; upd (set_sentMessageAckFailure None) ;;
  match c_then c with
  | ThenApp k =>
      app_done k (c_options c)
        match response with
        | Some m => if expectAckOnly (c_options c) && negb (isStandaloneAck m) then Throw UnexpectedMessageError else Ok tt
        | None => Ok tt
        end
  | _ => done
  end.

(** [#sentMessageAckSuccess(response)] *)
Definition resolve (r : nat) (response : option Message) : Act :=
  look (task_of r) (fun t =>
    match t with
    | Some (i, AwaitAck c _) => drop_task i ;; ack_received c response
    | Some (i, AwaitChannel c r _ _) => replace_task i (AwaitChannel c r true (Some response))
    | _ => done
    end).

(** [#sentMessageAckFailure()]: the send is aborted. *)
Definition fail (r : nat) : Act :=
  look (task_of r) (fun t =>
    match t with
    | Some (i, AwaitAck c _) =>
        drop_task i ;; stop_timer ;;
        match c_then c with ThenApp k => app_done k (c_options c) (Throw PeerUnresponsiveError) | _ => done end
    | Some (i, AwaitChannel c _ _ _) =>
        drop_task i ;;
        match c_then c with ThenApp k => app_done k (c_options c) (Throw PeerUnresponsiveError) | _ => done end
    | _ => done
    end).

(** ** Closing *)

(** [#close] *)
Definition close_now (cause : option MatterError) : Act :=
  look closed (fun wasClosed =>
    upd (fun st => set_closeCause (match closeCause st with Some e => Some e | None => cause end) st) ;;
    stop_timer ;;
    upd (set_ackTimer false) ;;
    look sentMessageAckSuccess (fun s => match s with Some r => resolve r None | None => done end) ;;
    upd (fun st => set_closeTimer ((fun _ => false) <$> closeTimer st) st) ;;
    upd (set_queueClosed true) ;;
    upd (set_closed true) ;;
    when (negb wasClosed) (emit Closed)).

(** ** Sending *)

(** [#send] until it waits for the message counter. *)
Definition send_start (type : Z) (data : list Z) (standalone : option Z) (after : Then) (st : Exchange)
    : result Exchange :=
  let o := sendOptions st in
  let isAck := bool_decide (is_Some standalone) in
  let* _ := throw_if (isAck && negb (usesMrp cfg)) InternalError in
  let* _ := throw_if (isAck && negb (type =? StandaloneAck)) InternalError in
  let* _ := throw_if (bool_decide (is_Some (sentMessageToAck st)) && negb isAck) MatterFlowError in
  let st := set_used true st in
  let '(acked, st) :=
    match standalone with
    | Some id => (Some id, st)
    | None =>
        match (if usesMrp cfg then receivedMessageToAck st else None) with
        | Some m => (Some (messageId m), set_receivedMessageToAck None (set_ackTimer false st))
        | None => (None, st)
        end
    end in
  let c := mkCall after o type data isAck acked (negb (suppressAck o) && usesMrp cfg && negb isAck) in
  Ok (set_tasks (tasks st ++ [AwaitCounter c]) st).

(** [sendStandaloneAckForMessage], or [rest] at once when there is nothing to send. *)
Definition ack_message (m : Message) (after : Then) (rest : Act) : Act := fun st =>
  if requiresAck m && usesMrp cfg then
    match send_start StandaloneAck [] (Some (messageId m)) after st with
    | Ok st => (st, [])
    | Throw _ => rest st
    end
  else rest st.

(** The part of [close] after the acknowledgement that was owed. *)
Definition close_rest (cause : option MatterError) : Act :=
  look sentMessageToAck (fun p =>
    if bool_decide (is_Some cause) || bool_decide (p = None) then close_now cause
    else upd (set_closeTimer (Some true))).

Definition close (cause : option MatterError) : Act := fun st =>
  if isDestroyed st then (st, [])
  else if bool_decide (is_Some (closeTimer st)) then
    when (bool_decide (is_Some cause)) (upd (set_closeTimer (Some false)) ;; close_now cause) st
  else if negb (used st) then close_now cause st
  else
    (upd (fun st => if closed st then st else set_closing true st) ;;
     look closed (fun c => when (negb c) (look receivedMessageToAck (fun r =>
       match r with
       | Some m =>
           upd (set_ackTimer false) ;; upd (set_receivedMessageToAck None) ;;
           ack_message m (ThenClose cause) (close_rest cause)
       | None => close_rest cause
       end)))) st.

Definition destroy : Act := look isDestroyed (fun d => when (negb d)
  (upd (set_isDestroyed true) ;;
   look closeTimer (fun t => look receivedMessageToAck (fun r =>
     match t, r with
     | None, Some m =>
         upd (set_ackTimer false) ;; upd (set_receivedMessageToAck None) ;;
         ack_message m ThenDestroy (close_now None)
     | _, _ => close_now None
     end)))).

(** ** The end of a handler that received a message *)

(** [#messagesQueue.write] *)
Definition write_queue (m : Message) : Act :=
  look queueClosed (fun c =>
    if c then emit (Refuse m ClosedError)
    else upd (fun st => set_messagesQueue (messagesQueue st ++ [m]) st) ;; emit (Deliver m)).

Definition keep (m : Message) : Act :=
  upd (set_receivedMessageToAck (Some m)) ;; upd (set_ackTimer true) ;; write_queue m.

(** What follows when a send returns or throws. *)
Definition finish (c : Call) (r : result unit) : Act :=
  match c_then c with
  | ThenApp k => app_done k (c_options c) r
  | ThenNothing => done
  | ThenKeep m => match r with Ok _ => keep m | Throw e => emit (Refuse m e) end
  | ThenIgnore => close None
  | ThenClose cause => close_rest cause
  | ThenDestroy => close_now None
  end.

(** ** Retransmission *)

Definition same_sent (s : Sent) (p : option Sent) : bool :=
  match p with Some p => bool_decide (ref p = ref s) | None => false end.

(** The last wait is over: [#retransmitMessage] gives up. *)
Definition abandon : Act :=
  look sentMessageAckFailure (fun f =>
    match f with
    | Some r =>
        upd (set_receivedMessageToAck None) ;; fail r ;;
        upd (set_sentMessageAckFailure None) ;; upd (set_sentMessageAckSuccess None)
    | None => done
    end) ;;
  look closeTimer (fun t => when (bool_decide (is_Some t)) (close_now None)).

(** Whether [#retransmitMessage] returns true. *)
Definition retransmitted (s : Sent) (st : Exchange) : bool :=
  same_sent s (sentMessageToAck st) &&
  negb (considerClosed st || (transmissions (sendOptions st) <=? retransmissionCounter st + 1)).

(** The time the last transmission is still given. *)
Definition finalWaitTime (e : Env) (st : Exchange) : Z :=
  peerResponseTime e - match retransmissionTimer st with Some t => interval t | None => 0 end.

Definition retransmitMessage (e : Env) (s : Sent) (processing : option Z) : Act :=
  look (fun st => same_sent s (sentMessageToAck st)) (fun same => when same
    (look (fun st => retransmissionCounter st + 1) (fun n =>
     look considerClosed (fun isClosed =>
     look (fun st => transmissions (sendOptions st) <=? n) (fun spent =>
       if isClosed || spent then
         look (finalWaitTime e) (fun wait =>
           if negb (default 0 processing =? 0) && negb isClosed && (0 <? wait) then assign_timer (mkTimer true wait s None)
           else upd (set_retransmissionCounter n) ;; abandon)
       else
         upd (set_retransmissionCounter n) ;; upd (set_lastTransmissionAt (Some (now e))) ;;
         emit (Transmit (msg s) (Some n)) ;; push_task (AwaitRetransmit s (backOff e) processing)))))).

Definition initializeResubmission (s : Sent) (backoff : Z) (processing : option Z) : Act :=
  look sentMessageToAck (fun p => when (same_sent s p) (assign_timer (mkTimer true backoff s processing))).

(** The pending message and its running timer when a duplicate should trigger it. *)
Definition kick_target (e : Env) (m : Message) (st : Exchange) : option Sent :=
  if negb (exchangeProtocol cfg =? BDX_PROTOCOL_ID) || considerClosed st then None
  else
    match sentMessageToAck st, retransmissionTimer st with
    | Some p, Some t =>
        if negb (running t) then None
        else if negb (bool_decide (ackedMessageId (msg p) = Some (messageId m))) then None
        else if transmissions (sendOptions st) <=? retransmissionCounter st + 1 then None
        else
          let cadence := activeInterval e + sendAdditionalDelay e in
          match (match lastTransmissionAt st with Some at_ => Some (now e - at_) | None => None end) with
          | Some elapsed =>
              if elapsed <? cadence then None
              else if Z.max 0 (interval t - elapsed) <=? activeThreshold e then None
              else Some p
          | None => None
          end
    | _, _ => None
    end.

(** ** Receiving *)

Definition acked_by (m : Message) (p : Sent) : bool := bool_decide (ackedMessageId m = Some (messageId (msg p))).

Definition clear_requiresAck (m : Message) : Message :=
  mkMessage (messageId m) (protocolId m) (messageType m) (isInitiatorMessage m) (requiresAck m && usesMrp cfg)
    (ackedMessageId m) (payload m).

(** The acknowledgement of the pending message. *)
Definition pending_acked (m : Message) : Act :=
  stop_timer ;; upd (set_retransmissionCounter 0) ;;
  look sentMessageAckSuccess (fun s => match s with Some r => resolve r (Some m) | None => done end) ;;
  upd (set_sentMessageAckSuccess None) ;; upd (set_sentMessageAckFailure None) ;; upd (set_sentMessageToAck None).

(** From line 519 on: the message itself. *)
Definition accept (m : Message) : Act :=
  if isStandaloneAck m then done
  else if requiresAck m then
    look receivedMessageToAck (fun r =>
      match r with
      | Some old => upd (set_ackTimer false) ;; ack_message old (ThenKeep m) (keep m)
      | None => keep m
      end)
  else write_queue m.

(** A retransmission the exchange has already received. *)
Definition on_duplicate (e : Env) (m : Message) : Act :=
  when (requiresAck m)
    (look (kick_target e m) (fun target =>
       match target with
       | Some p =>
           look (retransmitted p) (fun sent =>
             look (fun st => processing_time (sendOptions st)) (fun processing =>
               stop_timer ;; retransmitMessage e p (Some processing) ;;
               when (negb sent) (ack_message m ThenNothing done)))
       | None => ack_message m ThenNothing done
       end)).

(** A new message while [p] waits for its acknowledgement. *)
Definition on_message_pending (e : Env) (m : Message) (p : Sent) : Act :=
  if bool_decide (ackedMessageId (msg p) = Some (messageId m)) then
    upd (set_lastTransmissionAt (Some (now e))) ;; emit (Transmit (msg p) None) ;; emit (Ignore m)
  else
    match ackedMessageId m with
    | None => emit (Refuse m MatterFlowError)
    | Some _ =>
        if acked_by m p then
          pending_acked m ;;
          look closeTimer (fun t => if isStandaloneAck m && bool_decide (is_Some t) then close_now None else accept m)
        else if isStandaloneAck m then accept m
        else emit (Refuse m MatterFlowError)
    end.

Definition onMessageReceived (e : Env) (message : Message) (duplicate : bool) : Act :=
  upd (fun st => set_messageReceivedCounter (messageReceivedCounter st + 1) st) ;;
  let m := clear_requiresAck message in
  if negb (protocolId m =? exchangeProtocol cfg) && negb (isStandaloneAck m) && negb (isStatusReport m) then
    emit (Refuse m MatterFlowError)
  else if duplicate then on_duplicate e m
  else look sentMessageToAck (fun p => match p with Some p => on_message_pending e m p | None => accept m end).

(** [ExchangeManager.#receiveMessage] for a message of this exchange. *)
Definition receiveMessage (e : Env) (m : Message) (duplicate : bool) : Act := look considerClosed (fun c =>
  if c && negb (isStandaloneAck m) then emit (Ignore m) ;; ack_message m ThenIgnore (close None)
  else onMessageReceived e m duplicate).

(** ** Events *)

Definition send (k : nat) (o : Options) (type : Z) (data : list Z) : Act := fun st =>
  if bool_decide (is_Some (closeCause st)) then (st, [Settled k (Throw ClosedError)])
  else
    let st := set_retransmissionCounter 0 (set_sendOptions o st) in
    match send_start type data None (ThenApp k) st with
    | Ok st => (st, [])
    | Throw e => app_done k o (Throw e) st
    end.

(** The counter is there: the message is built and handed to the channel. *)
Definition message_of (c : Call) (id : Z) : Message :=
  let proto :=
    if c_standalone c || (c_type c =? StatusReport) then SECURE_CHANNEL_PROTOCOL_ID else exchangeProtocol cfg in
  mkMessage id proto (c_type c) (isInitiator cfg) (c_requiresAck c) (c_acked c) (c_payload c).

Definition tracks (c : Call) : bool := usesMrp cfg && c_requiresAck c && negb (disableMrpLogic (c_options c)).

(** The message becomes the one that waits for its acknowledgement. *)
Definition track (e : Env) (c : Call) (s : Sent) : Act :=
  upd (set_sentMessageToAck (Some s)) ;;
  assign_timer (mkTimer false (backOff e) s (Some (processing_time (c_options c)))) ;;
  upd (set_sentMessageAckSuccess (Some (ref s))) ;; upd (set_sentMessageAckFailure (Some (ref s))).

Definition counter_ready (e : Env) (i : nat) (c : Call) (id : Z) : Act := look nextRef (fun r =>
  let s := mkSent r (message_of c id) in
  upd (set_nextRef (S r)) ;; when (tracks c) (track e c s) ;;
  emit (Transmit (msg s) (Some 0)) ;; replace_task i (AwaitChannel c r (tracks c) None)).

Definition start_timer : Act := upd (fun st => set_retransmissionTimer (started <$> retransmissionTimer st) st).

(** The channel took the message. *)
Definition channel_done (e : Env) (i : nat) (c : Call) (r : nat) (tracked : bool) (response : option (option Message)) : Act :=
  when (negb (c_standalone c)) (upd (set_lastTransmissionAt (Some (now e)))) ;;
  if tracked then
    upd (set_retransmissionCounter 0) ;; start_timer ;;
    match response with
    | Some response => drop_task i ;; ack_received c response
    | None => replace_task i (AwaitAck c r)
    end
  else drop_task i ;; finish c (Ok tt).

Inductive Event :=
| ESend (k : nat) (o : Options) (type : Z) (data : list Z)
| EAbort (i : nat)
| ECounter (i : nat) (r : result Z)
| EChannel (i : nat) (r : result unit)
| EReceive (m : Message) (duplicate : bool)
| EAckTimer
| ETimer
| EStrayTimer (i : nat)
| ECloseTimer
| EClose (cause : option MatterError)
| EDestroy
| ERead.

(** The caller's abort signal; [attempt] throws, [race] does not. *)
Definition abort (i : nat) (t : Task) : Act :=
  match t with
  | AwaitCounter c | AwaitChannel c _ _ _ =>
      match c_then c with ThenApp k => drop_task i ;; app_done k (c_options c) (Throw AbortedError) | _ => done end
  | AwaitAck c _ =>
      match c_then c with ThenApp k => drop_task i ;; stop_timer ;; app_done k (c_options c) (Ok tt) | _ => done end
  | AwaitRetransmit _ _ _ => done
  end.

Definition resume_counter (e : Env) (i : nat) (t : Task) (r : result Z) : Act :=
  match t, r with
  | AwaitCounter c, Ok id => counter_ready e i c id
  | AwaitCounter c, Throw err => drop_task i ;; finish c (Throw err)
  | _, _ => done
  end.

Definition resume_channel (e : Env) (i : nat) (t : Task) (r : result unit) : Act :=
  match t, r with
  | AwaitChannel c n tracked response, Ok _ => channel_done e i c n tracked response
  | AwaitChannel c _ _ _, Throw err => drop_task i ;; finish c (Throw err)
  | AwaitRetransmit s backoff processing, Throw SessionClosedError => drop_task i ;; close_now None
  | AwaitRetransmit s backoff processing, _ => drop_task i ;; initializeResubmission s backoff processing
  | _, _ => done
  end.

Definition at_task (i : nat) (k : Task -> Act) : Act :=
  look (fun st => tasks st !! i) (fun t => match t with Some t => k t | None => done end).

(** The timer that acknowledges a message nothing was sent in answer to. *)
Definition ack_timeout : Act :=
  upd (set_ackTimer false) ;;
  look receivedMessageToAck (fun r =>
    match r with
    | Some m => upd (set_receivedMessageToAck None) ;; ack_message m ThenNothing done
    | None => done
    end).

Definition fire (e : Env) (t : Timer) : Act := retransmitMessage e (timer_for t) (timer_processing t).

Definition step (e : Env) (ev : Event) : Act :=
  match ev with
  | ESend k o type data => send k o type data
  | EAbort i => at_task i (abort i)
  | ECounter i r => at_task i (fun t => resume_counter e i t r)
  | EChannel i r => at_task i (fun t => resume_channel e i t r)
  | EReceive m duplicate => receiveMessage e m duplicate
  | EAckTimer => look ackTimer (fun b => when b ack_timeout)
  | ETimer =>
      look retransmissionTimer (fun t =>
        match t with Some t => when (running t) (stop_timer ;; fire e t) | None => done end)
  | EStrayTimer i =>
      look (fun st => strayTimers st !! i) (fun t =>
        match t with
        | Some t => upd (fun st => set_strayTimers (delete i (strayTimers st)) st) ;; fire e t
        | None => done
        end)
  | ECloseTimer =>
      look closeTimer (fun t => when (bool_decide (t = Some true)) (upd (set_closeTimer (Some false)) ;; close_now None))
  | EClose cause => close cause
  | EDestroy => destroy
  | ERead => upd (fun st => set_messagesQueue (tail (messagesQueue st)) st)
  end.

End Exchange.
