(* ===== verification/ExchangeLink.v ===== *)
(** * Two message exchanges over an unreliable network

    The two ends of an exchange, each with what it has transmitted and received,
    and the invariants that tie acknowledgements to messages that arrived. *)

From stdpp Require Import list gmap.
From S2P Require Import Prelude Exchange.

Local Open Scope act_scope.

(** ** One end and its history *)

Record End := mkEnd {
  ex : Exchange;
  log : list Out;
  sent : list Message;
  arrived : list Message;
}.

Definition transmit_of (o : Out) : option Message := match o with Transmit m _ => Some m | _ => None end.
Definition deliver_of (o : Out) : option Message := match o with Deliver m => Some m | _ => None end.
Definition fate_of (o : Out) : option Message :=
  match o with Deliver m | Refuse m _ | Ignore m => Some m | _ => None end.

Definition kept_by (c : Call) : option Message := match c_then c with ThenKeep m => Some m | _ => None end.
Definition kept_of (t : Task) : option Message :=
  match t with AwaitCounter c | AwaitChannel c _ _ _ => kept_by c | _ => None end.

Definition delivered (x : End) : list Message := omap deliver_of (log x).
Definition fates (x : End) : list Message := omap fate_of (log x).
Definition kept (x : End) : list Message := omap kept_of (tasks (ex x)).

Definition run (a : Act) (x : End) : End :=
  let '(st, o) := a (ex x) in mkEnd st (log x ++ o) (sent x ++ omap transmit_of o) (arrived x).

Lemma run_seq a b x : run (a ;; b) x = run b (run a x).
Proof.
  unfold run, andThen. destruct (a (ex x)) as [st o]. cbn. destruct (b st) as [st' o']. cbn.
  by rewrite omap_app, !app_assoc.
Qed.

Lemma run_done x : run done x = x.
Proof. unfold run, done. destruct x. cbn. by rewrite !app_nil_r. Qed.

Lemma run_upd f x : run (upd f) x = mkEnd (f (ex x)) (log x) (sent x) (arrived x).
Proof. unfold run, upd. cbn. by rewrite !app_nil_r. Qed.

Lemma run_emit o x : run (emit o) x = mkEnd (ex x) (log x ++ [o]) (sent x ++ omap transmit_of [o]) (arrived x).
Proof. done. Qed.

Lemma run_look {A} (f : Exchange -> A) k x : run (look f k) x = run (k (f (ex x))) x.
Proof. done. Qed.

Lemma run_eq (a : Act) b x : a (ex x) = b (ex x) -> run a x = run b x.
Proof. unfold run. by intros ->. Qed.

(** Hoare triples over actions. *)
Definition triple (P : End -> Prop) (a : Act) (Q : End -> Prop) : Prop := forall x, P x -> Q (run a x).
Abbreviation keeps P a := (triple P a P).

Lemma triple_seq P Q R a b : triple P a Q -> triple Q b R -> triple P (a ;; b) R.
Proof. intros Ha Hb x Hx. rewrite run_seq. by apply Hb, Ha. Qed.

Lemma triple_done P : keeps P done.
Proof. intros x Hx. by rewrite run_done. Qed.

Lemma triple_look {A} P Q (f : Exchange -> A) k :
  (forall v, triple (fun x => P x /\ f (ex x) = v) (k v) Q) -> triple P (look f k) Q.
Proof. intros H x Hx. rewrite run_look. by apply (H (f (ex x))). Qed.

Lemma triple_pre P P' a Q : (forall x, P x -> P' x) -> triple P' a Q -> triple P a Q.
Proof. intros H Ht x Hx. by apply Ht, H. Qed.

Lemma triple_pure (A : Prop) P a Q : (A -> triple P a Q) -> triple (fun x => P x /\ A) a Q.
Proof. intros H x [Hx Ha]. by apply H. Qed.

Lemma keeps_look {A} P (f : Exchange -> A) k : (forall v, keeps P (k v)) -> keeps P (look f k).
Proof. intros H x Hx. rewrite run_look. by apply H. Qed.

Lemma keeps_seq P a b : keeps P a -> keeps P b -> keeps P (a ;; b).
Proof. apply triple_seq. Qed.

Lemma run_arrived a x : arrived (run a x) = arrived x.
Proof. unfold run. by destruct (a (ex x)). Qed.

Lemma triple_arrived (R : list Message -> Prop) P a Q :
  triple P a Q -> triple (fun x => P x /\ R (arrived x)) a (fun x => Q x /\ R (arrived x)).
Proof. intros H x [Hx Hr]. split; [by apply H|by rewrite run_arrived]. Qed.

Lemma triple_when P b a : keeps P a -> keeps P (when b a).
Proof. intros H. destruct b; [done|apply triple_done]. Qed.

Lemma triple_if P Q (f : Exchange -> bool) (a b : Act) :
  triple (fun x => P x /\ f (ex x) = true) a Q -> triple (fun x => P x /\ f (ex x) = false) b Q ->
  triple P (fun st => if f st then a st else b st) Q.
Proof.
  intros Ha Hb x Hx. specialize (Ha x). specialize (Hb x). unfold run in *. destruct (f (ex x)); [by apply Ha|by apply Hb].
Qed.

(** ** What acknowledgements and deliveries refer to *)

Section Content.

Context (cfg : Config) (Hmrp : usesMrp cfg = true).

Definition has_id (l : list Message) (a : Z) : Prop := exists m, m ∈ l /\ messageId m = a.

Definition call_ok (x : End) (c : Call) : Prop :=
  (forall a, c_acked c = Some a -> has_id (arrived x) a) /\ (forall m, c_then c = ThenKeep m -> m ∈ arrived x) /\
  (c_requiresAck c = true -> kept_by c = None).

Definition task_ok (x : End) (t : Task) : Prop :=
  match t with
  | AwaitCounter c => call_ok x c
  | AwaitChannel c _ tracked _ => call_ok x c /\ (tracked = true -> kept_by c = None)
  | AwaitAck _ _ => True
  | AwaitRetransmit s _ _ => msg s ∈ sent x
  end.

Definition timer_ok (x : End) (t : Timer) : Prop := msg (timer_for t) ∈ sent x.

Record content (x : End) : Prop := {
  ct_received : forall m, receivedMessageToAck (ex x) = Some m -> m ∈ arrived x;
  ct_pending : forall s, sentMessageToAck (ex x) = Some s -> msg s ∈ sent x;
  ct_timer : forall t, retransmissionTimer (ex x) = Some t -> timer_ok x t;
  ct_stray : Forall (timer_ok x) (strayTimers (ex x));
  ct_tasks : Forall (task_ok x) (tasks (ex x));
  ct_acks : forall m a, m ∈ sent x -> ackedMessageId m = Some a -> has_id (arrived x) a;
}.

(** The messages of [owed] still need a place. *)
Record placed (owed : list Message) (x : End) : Prop := {
  pl_once : delivered x ++ kept x ++ owed ⊆+ arrived x;
  pl_all : forall m, m ∈ arrived x -> isStandaloneAck m = true \/ m ∈ fates x \/ m ∈ kept x \/ m ∈ owed;
}.

Definition sound (owed : list Message) (x : End) : Prop := content x /\ placed owed x.

(** *** Updates that touch neither *)

Definition neutral (f : Exchange -> Exchange) : Prop := forall st,
  (receivedMessageToAck (f st) = receivedMessageToAck st \/ receivedMessageToAck (f st) = None) /\
  (sentMessageToAck (f st) = sentMessageToAck st \/ sentMessageToAck (f st) = None) /\
  (retransmissionTimer (f st) = retransmissionTimer st \/
   retransmissionTimer (f st) = stopped <$> retransmissionTimer st \/
   retransmissionTimer (f st) = started <$> retransmissionTimer st) /\
  (strayTimers (f st) = strayTimers st \/ exists i, strayTimers (f st) = delete i (strayTimers st)) /\
  tasks (f st) = tasks st.

Lemma neutral_sound f owed : neutral f -> keeps (sound owed) (upd f).
Proof.
  intros Hf x [C [H1 H2]]. rewrite run_upd. destruct (Hf (ex x)) as (Hr & Hs & Ht & Hst & Hta).
  split; [destruct C as [C1 C2 C3 C4 C5 C6]|]; constructor; cbn.
  - intros m Hm. destruct Hr as [E|E]; rewrite E in Hm; [by apply C1|done].
  - intros s Hm. destruct Hs as [E|E]; rewrite E in Hm; [by apply C2|done].
  - intros t Hm. destruct Ht as [E|[E|E]]; rewrite E in Hm; [by apply C3| |];
      (destruct (retransmissionTimer (ex x)) as [t'|] eqn:E'; [|done]); injection Hm as <-; exact (C3 _ eq_refl).
  - destruct Hst as [->|[i ->]]; [exact C4|by apply Forall_delete].
  - rewrite Hta. exact C5.
  - exact C6.
  - unfold kept. cbn. rewrite Hta. exact H1.
  - unfold kept. cbn. rewrite Hta. exact H2.
Qed.

(** *** Growing histories *)

Lemma content_grow st o1 o2 s1 s2 (ar : list Message) :
  content (mkEnd st o1 s1 ar) -> (forall m a, m ∈ s2 -> ackedMessageId m = Some a -> has_id ar a) ->
  content (mkEnd st o2 (s1 ++ s2) ar).
Proof.
  intros [C1 C2 C3 C4 C5 C6] H2. cbn in *. constructor; cbn.
  - done.
  - intros s Hs. apply elem_of_app. left. by apply C2.
  - intros t Ht. unfold timer_ok. cbn. apply elem_of_app. left. exact (C3 t Ht).
  - eapply Forall_impl; [exact C4|]. intros t Ht. unfold timer_ok in *. cbn in *. apply elem_of_app. by left.
  - eapply Forall_impl; [exact C5|]. intros [c|c r tr rs|c r|t b pr] Ht; cbn in *; try exact Ht. apply elem_of_app. by left.
  - intros m a [Hm|Hm]%elem_of_app Ha; [by apply (C6 m)|by apply (H2 m)].
Qed.

Lemma emit_sound o owed :
  transmit_of o = None -> deliver_of o = None -> keeps (sound owed) (emit o).
Proof.
  intros Ht Hd x [C [H1 H2]]. rewrite run_emit. cbn [omap list_omap]. rewrite Ht. split.
  - destruct x as [st lg se ar]. apply (content_grow _ lg); [done|]. by intros ? ? ?%not_elem_of_nil.
  - constructor; unfold delivered, fates, kept in *; cbn.
    + rewrite omap_app. cbn. rewrite Hd, app_nil_r. exact H1.
    + intros m Hm. rewrite omap_app, elem_of_app. destruct (H2 m Hm) as [?|[?|[?|?]]]; auto.
Qed.

(** A refused or ignored message has found its place. *)
Lemma emit_places o m owed :
  transmit_of o = None -> deliver_of o = None -> fate_of o = Some m -> triple (sound (m :: owed)) (emit o) (sound owed).
Proof.
  intros Ht Hd Hf x [C [H1 H2]]. rewrite run_emit. cbn [omap list_omap]. rewrite Ht. split.
  - destruct x as [st lg se ar]. apply (content_grow _ lg); [done|]. by intros ? ? ?%not_elem_of_nil.
  - constructor; unfold delivered, fates, kept in *; cbn.
    + rewrite omap_app. cbn. rewrite Hd, app_nil_r. etransitivity; [|exact H1].
      apply submseteq_app; [done|]. apply submseteq_app; [done|]. by apply submseteq_cons.
    + intros m' Hm. rewrite omap_app, elem_of_app. cbn. rewrite Hf.
      destruct (H2 m' Hm) as [?|[?|[?|[->|?]%elem_of_cons]]]; auto. right. left. right. by apply elem_of_cons; left.
Qed.

Lemma transmit_sound m n owed :
  triple (fun x => sound owed x /\ forall a, ackedMessageId m = Some a -> has_id (arrived x) a) (emit (Transmit m n)) (sound owed).
Proof.
  intros x [[C [H1 H2]] Ha]. rewrite run_emit. cbn [omap list_omap transmit_of]. split.
  - destruct x as [st lg se ar]. apply (content_grow _ lg); [done|]. intros m' a ->%list_elem_of_singleton. apply Ha.
  - constructor; unfold delivered, fates, kept in *; cbn.
    + rewrite omap_app. cbn. by rewrite app_nil_r.
    + intros m' Hm. rewrite omap_app. cbn. rewrite app_nil_r. by apply H2.
Qed.

(** *** The task list *)

Lemma omap_insert {A B} (f : A -> option B) (l : list A) i x y :
  l !! i = Some x -> f y = f x -> omap f (<[i := y]> l) = omap f l.
Proof.
  revert i. induction l as [|z l IH]; intros [|i] Hi Hf; cbn in *; [done|done| |].
  - injection Hi as ->. by rewrite Hf.
  - by rewrite IH.
Qed.

Lemma omap_delete {A B} (f : A -> option B) (l : list A) i x :
  l !! i = Some x -> omap f l ≡ₚ option_list (f x) ++ omap f (delete i l).
Proof. intros Hi. rewrite (delete_Permutation l i x Hi) at 1. cbn. by destruct (f x). Qed.

Lemma set_tasks_sound (l : list Task) owed owed' x :
  sound owed x -> Forall (task_ok x) l -> omap kept_of l ++ owed' ≡ₚ kept x ++ owed ->
  sound owed' (run (upd (set_tasks l)) x).
Proof.
  intros [[C1 C2 C3 C4 C5 C6] [H1 H2]] Hl Hp. rewrite run_upd. split; constructor; cbn; try done.
  - unfold delivered, kept in *. cbn. by rewrite Hp.
  - intros m Hm. unfold fates, kept in *. cbn. assert (Hm' : m ∈ omap kept_of l ++ owed' <-> m ∈ omap kept_of (tasks (ex x)) ++ owed).
    { by rewrite Hp. }
    rewrite !elem_of_app in Hm'. destruct (H2 m Hm) as [?|[?|?]]; [by auto..|]. tauto.
Qed.

Lemma push_task_sound t owed : triple (fun x => sound owed x /\ task_ok x t /\ kept_of t = None) (push_task t) (sound owed).
Proof.
  intros x (Hs & Ht & Hk). unfold push_task. apply (set_tasks_sound (tasks (ex x) ++ [t]) owed owed x Hs).
  - apply Forall_app. split; [apply Hs|by constructor].
  - rewrite omap_app. cbn. by rewrite Hk, app_nil_r.
Qed.

Lemma drop_task_sound i t owed :
  triple (fun x => sound owed x /\ tasks (ex x) !! i = Some t) (drop_task i) (sound (option_list (kept_of t) ++ owed)).
Proof.
  intros x (Hs & Hi). unfold drop_task. apply (set_tasks_sound (delete i (tasks (ex x))) owed _ x Hs).
  - by apply Forall_delete, Hs.
  - unfold kept. rewrite (omap_delete kept_of _ i t Hi), <- app_assoc, app_assoc, (Permutation_app_comm (omap _ _)), <- app_assoc. done.
Qed.

Lemma replace_task_sound i t t' owed :
  triple (fun x => sound owed x /\ tasks (ex x) !! i = Some t /\ task_ok x t' /\ kept_of t' = kept_of t) (replace_task i t') (sound owed).
Proof.
  intros x (Hs & Hi & Ht & Hk). unfold replace_task. apply (set_tasks_sound (<[i := t']> (tasks (ex x))) owed owed x Hs).
  - apply Forall_insert; [apply Hs|done].
  - unfold kept. by rewrite (omap_insert kept_of _ i t t').
Qed.

(** *** Timers, the pending message, the message to acknowledge *)

Lemma assign_timer_sound t owed : triple (fun x => sound owed x /\ msg (timer_for t) ∈ sent x) (assign_timer t) (sound owed).
Proof.
  intros x ([[C1 C2 C3 C4 C5 C6] [H1 H2]] & Ht). unfold assign_timer. rewrite run_upd.
  destruct (retransmissionTimer (ex x)) as [old|] eqn:E; [destruct (running old)|]; split; constructor; cbn; try done;
    try (intros t' [= <-]; exact Ht); constructor; [by apply C3|done].
Qed.

Lemma set_pending_sound s owed : triple (fun x => sound owed x /\ msg s ∈ sent x) (upd (set_sentMessageToAck (Some s))) (sound owed).
Proof.
  intros x ([[C1 C2 C3 C4 C5 C6] [H1 H2]] & Ht). rewrite run_upd. split; constructor; cbn; try done. by intros s' [= <-].
Qed.

Lemma set_received_sound m owed : triple (fun x => sound owed x /\ m ∈ arrived x) (upd (set_receivedMessageToAck (Some m))) (sound owed).
Proof.
  intros x ([[C1 C2 C3 C4 C5 C6] [H1 H2]] & Ht). rewrite run_upd. split; constructor; cbn; try done. by intros s' [= <-].
Qed.

(** *** The actions of an exchange *)

Ltac neutral := apply neutral_sound; intros [ ]; cbn; split_and!; eauto.

Lemma stop_timer_sound owed : keeps (sound owed) stop_timer.
Proof. neutral. Qed.

Lemma start_timer_sound owed : keeps (sound owed) start_timer.
Proof. neutral. Qed.

Lemma app_done_sound k o r owed : keeps (sound owed) (app_done cfg k o r).
Proof.
  apply keeps_look. intros v. apply keeps_seq; [|by apply emit_sound].
  destruct r; [apply triple_done|by apply triple_when, emit_sound].
Qed.

Lemma ack_received_sound c response owed : keeps (sound owed) (ack_received cfg c response).
Proof.
  apply keeps_seq; [neutral|]. apply keeps_seq; [neutral|].
  destruct (c_then c); try apply triple_done. apply app_done_sound.
Qed.

Lemma task_of_Some r st i t : task_of r st = Some (i, t) -> tasks st !! i = Some t /\ waits_for r t = true.
Proof. unfold task_of. intros (? & ? & _)%list_find_Some. done. Qed.

Lemma drop_app_sound i t a owed :
  kept_of t = None -> keeps (sound owed) a -> triple (fun x => sound owed x /\ tasks (ex x) !! i = Some t) (drop_task i ;; a) (sound owed).
Proof.
  intros Hk Ha. apply triple_seq with (sound owed); [|done]. pose proof (drop_task_sound i t owed) as H. by rewrite Hk in H.
Qed.

Lemma resolve_sound r response owed : keeps (sound owed) (resolve cfg r response).
Proof.
  apply triple_look. intros [[i t]|]; [|apply triple_pre with (sound owed); [by intros ? []|apply triple_done]].
  intros x [Hx Ht]. apply task_of_Some in Ht as [Hi Hw].
  destruct t as [c|c r' tr rs|c r'|s b pr]; try (by rewrite run_done).
  - apply (replace_task_sound i (AwaitChannel c r' tr rs) (AwaitChannel c r' true (Some response)) owed x).
    assert (tr = true) as -> by (by destruct tr, rs).
    split_and!; [done|done| |done]. exact (proj1 (Forall_lookup _ _) (ct_tasks _ (proj1 Hx)) _ _ Hi).
  - by apply (drop_app_sound i (AwaitAck c r') _ owed eq_refl (ack_received_sound c response owed)).
Qed.

Lemma fail_sound r owed : keeps (sound owed) (fail cfg r).
Proof.
  apply triple_look. intros [[i t]|]; [|apply triple_pre with (sound owed); [by intros ? []|apply triple_done]].
  intros x [Hx Ht]. apply task_of_Some in Ht as [Hi Hw].
  pose proof (proj1 (Forall_lookup _ _) (ct_tasks _ (proj1 Hx)) _ _ Hi) as Hok.
  destruct t as [c|c r' tr rs|c r'|s b pr]; try (by rewrite run_done).
  - apply (drop_app_sound i (AwaitChannel c r' tr rs)); [|by destruct (c_then c); apply triple_done || apply app_done_sound|done].
    cbn. apply Hok. by destruct tr, rs.
  - apply (drop_app_sound i (AwaitAck c r')); [done| |done]. apply keeps_seq; [apply stop_timer_sound|].
    destruct (c_then c); apply triple_done || apply app_done_sound.
Qed.

Lemma close_now_sound cause owed : keeps (sound owed) (close_now cfg cause).
Proof.
  apply keeps_look. intros was. apply keeps_seq; [neutral|]. apply keeps_seq; [apply stop_timer_sound|].
  apply keeps_seq; [neutral|]. apply keeps_seq.
  { apply keeps_look. intros [r|]; [apply resolve_sound|apply triple_done]. }
  apply keeps_seq; [neutral|]. apply keeps_seq; [neutral|]. apply keeps_seq; [neutral|].
  by apply triple_when, emit_sound.
Qed.

Definition then_kept (t : Then) : list Message := match t with ThenKeep m => [m] | _ => [] end.

Lemma ack_message_sound m after rest owed :
  triple (sound (then_kept after ++ owed)) rest (sound owed) ->
  triple (fun x => sound (then_kept after ++ owed) x /\ (has_id (arrived x) (messageId m) /\ forall m', after = ThenKeep m' -> m' ∈ arrived x))
    (ack_message cfg m after rest) (sound owed).
Proof.
  intros Hrest x (Hx & Hm & Hafter). destruct (requiresAck m) eqn:Er.
  2: { rewrite (run_eq _ rest); [by apply Hrest|]. unfold ack_message. by rewrite Er. }
  set (c := mkCall after (sendOptions (ex x)) StandaloneAck [] true (Some (messageId m)) false).
  rewrite (run_eq _ (upd (set_used true) ;; upd (set_tasks (tasks (ex x) ++ [AwaitCounter c])))).
  - rewrite run_seq. assert (Hu : sound (then_kept after ++ owed) (run (upd (set_used true)) x)) by (revert Hx; apply neutral_sound; intros []; cbn; split_and!; eauto).
    apply (set_tasks_sound _ (then_kept after ++ owed)); [done| |].
    + apply Forall_app. split; [apply Hu|]. constructor; [|done]. rewrite run_upd. cbn. split_and!; [|done|done].
      by intros a [= <-].
    + rewrite run_upd. unfold kept. cbn. rewrite omap_app, <- app_assoc. f_equiv. unfold kept_of, kept_by. cbn.
      by destruct after.
  - unfold ack_message, send_start, andThen, upd. rewrite Er, Hmrp. cbn. by rewrite !andb_false_r.
Qed.

Lemma close_rest_sound cause owed : keeps (sound owed) (close_rest cfg cause).
Proof. apply keeps_look. intros p. case_match; [apply close_now_sound|neutral]. Qed.

Lemma received_arrived m owed x : sound owed x -> receivedMessageToAck (ex x) = Some m -> m ∈ arrived x.
Proof. intros [C _]. apply C. Qed.

(** Acknowledging the message that waits for it. *)
Lemma ack_owed_sound m after rest owed x :
  then_kept after = [] -> keeps (sound owed) rest -> sound owed x -> m ∈ arrived x ->
  sound owed (run (upd (set_ackTimer false) ;; upd (set_receivedMessageToAck None) ;; ack_message cfg m after rest) x).
Proof.
  intros Hk Hrest Hx Hm. rewrite !run_seq. apply (ack_message_sound m after rest owed); [by rewrite Hk|].
  rewrite Hk. rewrite !run_arrived. split; [|split; [by exists m|by intros m' ->]].
  cut (keeps (sound owed) (upd (set_ackTimer false) ;; upd (set_receivedMessageToAck None))).
  { intros H. specialize (H x Hx). by rewrite run_seq in H. }
  apply keeps_seq; neutral.
Qed.

Lemma close_sound cause owed : keeps (sound owed) (close cfg cause).
Proof.
  apply triple_if; [|apply triple_if; [|apply triple_if]].
  - apply (triple_pre _ (sound owed)); [tauto|apply triple_done].
  - apply (triple_pre _ (sound owed)); [tauto|]. apply triple_when. apply keeps_seq; [neutral|apply close_now_sound].
  - apply (triple_pre _ (sound owed)); [tauto|apply close_now_sound].
  - apply (triple_pre _ (sound owed)); [tauto|]. apply keeps_seq.
    + apply neutral_sound. intros st. destruct (closed st); destruct st; cbn; split_and!; eauto.
    + apply keeps_look. intros c. apply triple_when. apply triple_look. intros [m|].
      * intros x [Hx Hm]. apply ack_owed_sound; [done|apply close_rest_sound|done|by apply (received_arrived m owed)].
      * apply (triple_pre _ (sound owed)); [tauto|apply close_rest_sound].
Qed.

Lemma destroy_sound owed : keeps (sound owed) (destroy cfg).
Proof.
  apply keeps_look. intros d. apply triple_when, keeps_seq; [neutral|]. apply keeps_look. intros t. apply triple_look.
  intros r x [Hx Hr]. destruct t, r as [m|]; try (by apply close_now_sound).
  apply ack_owed_sound; [done|apply close_now_sound|done|by apply (received_arrived m owed)].
Qed.

Lemma owed_arrived m owed x : sound (m :: owed) x -> m ∈ arrived x.
Proof.
  intros [_ [H _]]. eapply elem_of_submseteq; [|exact H]. rewrite !elem_of_app. right. right. apply elem_of_cons. by left.
Qed.

Lemma write_queue_sound m owed : triple (sound (m :: owed)) (write_queue m) (sound owed).
Proof.
  apply triple_look. intros [|]; [apply (triple_pre _ (sound (m :: owed))); [tauto|by apply emit_places]|].
  apply (triple_pre _ (sound (m :: owed))); [tauto|]. apply triple_seq with (sound (m :: owed)); [neutral|].
  intros x [C [H1 H2]]. rewrite run_emit. cbn [omap list_omap transmit_of]. split.
  - destruct x as [st lg se ar]. apply (content_grow _ lg); [done|]. by intros ? ? ?%not_elem_of_nil.
  - constructor; unfold delivered, fates, kept in *; cbn.
    + rewrite omap_app, <- app_assoc. cbn. etransitivity; [|exact H1]. apply submseteq_app; [done|]. cbn.
      rewrite Permutation_middle. done.
    + intros m' Hm. rewrite omap_app, elem_of_app. cbn. rewrite list_elem_of_singleton.
      destruct (H2 m' Hm) as [?|[?|[?|[->|?]%elem_of_cons]]]; auto.
Qed.

Lemma keep_sound m owed : triple (sound (m :: owed)) (keep m) (sound owed).
Proof.
  apply triple_seq with (sound (m :: owed)).
  - intros x Hx. apply set_received_sound. split; [done|by apply (owed_arrived m owed)].
  - apply triple_seq with (sound (m :: owed)); [neutral|apply write_queue_sound].
Qed.

Lemma finish_sound c r owed : triple (sound (option_list (kept_by c) ++ owed)) (finish cfg c r) (sound owed).
Proof.
  unfold finish, kept_by. destruct (c_then c) as [k| |m| |cause|]; cbn.
  - apply app_done_sound.
  - apply triple_done.
  - destruct r; [apply keep_sound|by apply emit_places].
  - apply close_sound.
  - apply close_rest_sound.
  - apply close_now_sound.
Qed.

Lemma abandon_sound owed : keeps (sound owed) (abandon cfg).
Proof.
  apply keeps_seq; apply keeps_look; intros v.
  - destruct v as [r|]; [|apply triple_done]. apply keeps_seq; [neutral|]. apply keeps_seq; [apply fail_sound|].
    apply keeps_seq; neutral.
  - apply triple_when, close_now_sound.
Qed.

Lemma keeps_sent (R : Prop) owed a : keeps (sound owed) a -> keeps (fun x => sound owed x /\ R) a.
Proof. intros H x [Hx Hr]. split; [by apply H|done]. Qed.

Lemma run_sent a x m : m ∈ sent x -> m ∈ sent (run a x).
Proof. intros Hm. unfold run. destruct (a (ex x)). cbn. apply elem_of_app. by left. Qed.

(** Carrying along that [m] was sent. *)
Lemma with_sent m P a Q :
  triple P a Q -> triple (fun x => P x /\ m ∈ sent x) a (fun x => Q x /\ m ∈ sent x).
Proof. intros H x [Hx Hm]. split; [by apply H|by apply run_sent]. Qed.

Lemma retransmit_sound e t pr owed : triple (fun x => sound owed x /\ msg t ∈ sent x) (retransmitMessage cfg e t pr) (sound owed).
Proof.
  set (P := fun x => sound owed x /\ msg t ∈ sent x). intros x Hx.
  unfold retransmitMessage. rewrite run_look. destruct (same_sent _ _); cbn [when]; [|rewrite run_done; apply Hx].
  rewrite !run_look. destruct (_ || _).
  - rewrite run_look. destruct (_ && _); [by apply assign_timer_sound|]. destruct Hx as [Hx _].
    assert (K : keeps (sound owed) (upd (set_retransmissionCounter (retransmissionCounter (ex x) + 1)) ;; abandon cfg)).
    { apply keeps_seq; [neutral|apply abandon_sound]. }
    by apply K.
  - assert (K : triple P (upd (set_retransmissionCounter (retransmissionCounter (ex x) + 1)) ;;
      upd (set_lastTransmissionAt (Some (now e))) ;; emit (Transmit (msg t) (Some (retransmissionCounter (ex x) + 1))) ;;
      push_task (AwaitRetransmit t (backOff e) pr)) (sound owed)); [|by apply K].
    apply triple_seq with P; [apply with_sent; neutral|]. apply triple_seq with P; [apply with_sent; neutral|].
    apply triple_seq with P.
    + intros y [Hy Hm]. split; [|by apply run_sent]. apply transmit_sound. split; [done|]. intros a Ha. exact (ct_acks _ (proj1 Hy) _ _ Hm Ha).
    + intros y [Hy Hm]. by apply push_task_sound.
Qed.

Lemma fire_sound e t owed : triple (fun x => sound owed x /\ timer_ok x t) (fire cfg e t) (sound owed).
Proof. apply retransmit_sound. Qed.

Lemma initializeResubmission_sound t b pr owed :
  triple (fun x => sound owed x /\ msg t ∈ sent x) (initializeResubmission t b pr) (sound owed).
Proof.
  intros x Hx. unfold initializeResubmission. rewrite run_look. destruct (same_sent _ _); [by apply assign_timer_sound|].
  rewrite run_done. apply Hx.
Qed.

Lemma pending_acked_sound m owed : keeps (sound owed) (pending_acked cfg m).
Proof.
  apply keeps_seq; [apply stop_timer_sound|]. apply keeps_seq; [neutral|]. apply keeps_seq.
  { apply keeps_look. intros [r|]; [apply resolve_sound|apply triple_done]. }
  apply keeps_seq; [neutral|]. apply keeps_seq; neutral.
Qed.

(** An acknowledgement on its own needs no place. *)
Lemma ack_placed m owed x : isStandaloneAck m = true -> sound (m :: owed) x -> sound owed x.
Proof.
  intros Ha [C [H1 H2]]. split; [done|]. constructor.
  - etransitivity; [|exact H1]. do 2 (apply submseteq_app; [done|]). by apply submseteq_cons.
  - intros m' Hm. destruct (H2 m' Hm) as [?|[?|[?|[->|?]%elem_of_cons]]]; auto.
Qed.

Lemma accept_sound m owed : triple (sound (m :: owed)) (accept cfg m) (sound owed).
Proof.
  unfold accept. destruct (isStandaloneAck m) eqn:Ea; [intros x Hx; rewrite run_done; by apply (ack_placed m)|].
  destruct (requiresAck m); [|apply write_queue_sound]. apply triple_look. intros [old|].
  - intros x [Hx Ho]. rewrite run_seq. apply (ack_message_sound old (ThenKeep m) (keep m) owed); [apply keep_sound|].
    rewrite run_arrived. split; [|split].
    + revert Hx. apply neutral_sound. intros []; cbn; split_and!; eauto.
    + exists old. split; [by apply (received_arrived old (m :: owed))|done].
    + intros m' [= <-]. by apply (owed_arrived m owed).
  - apply (triple_pre _ (sound (m :: owed))); [tauto|apply keep_sound].
Qed.

Lemma on_duplicate_sound e m owed :
  triple (fun x => sound owed x /\ has_id (arrived x) (messageId m)) (on_duplicate cfg e m) (sound owed).
Proof.
  assert (Hack : triple (fun x => sound owed x /\ has_id (arrived x) (messageId m)) (ack_message cfg m ThenNothing done) (sound owed)).
  { intros x [Hx Hm]. by apply (ack_message_sound m ThenNothing done owed (triple_done _)). }
  intros x [Hx Hm]. unfold on_duplicate. destruct (requiresAck m); cbn [when]; [|by rewrite run_done].
  rewrite run_look. destruct (kick_target cfg e m (ex x)) as [p|] eqn:Ek; [|by apply Hack]. rewrite !run_look.
  assert (Hp : msg p ∈ sent x).
  { apply (ct_pending _ (proj1 Hx)). unfold kick_target in Ek. repeat (case_match; try done); by simplify_eq. }
  rewrite !run_seq. assert (H1 : sound owed (run (retransmitMessage cfg e p (Some (processing_time (sendOptions (ex x))))) (run stop_timer x))).
  { apply retransmit_sound. split; [by apply stop_timer_sound|by apply run_sent]. }
  destruct (negb _); [|by rewrite run_done]. apply Hack. by rewrite !run_arrived.
Qed.

Lemma on_message_pending_sound e m p owed :
  triple (fun x => sound (m :: owed) x /\ sentMessageToAck (ex x) = Some p) (on_message_pending cfg e m p) (sound owed).
Proof.
  intros x [Hx Hp]. unfold on_message_pending. case_bool_decide.
  - rewrite !run_seq. apply (emit_places (Ignore m) m owed); [done..|]. apply transmit_sound. split.
    + revert Hx. apply neutral_sound. intros []; cbn; split_and!; eauto.
    + rewrite run_arrived. intros a Ha. refine (ct_acks _ (proj1 Hx) _ _ _ Ha). by apply (ct_pending _ (proj1 Hx)).
  - destruct (ackedMessageId m); [|by apply (emit_places _ m owed)]. destruct (acked_by m p).
    + rewrite run_seq, run_look. pose proof (pending_acked_sound m (m :: owed) x Hx) as Hy. case_match; [|by apply accept_sound].
      apply (close_now_sound None) in Hy. apply (ack_placed m); [|done]. by apply andb_true_iff in H0 as [].
    + destruct (isStandaloneAck m); [by apply accept_sound|by apply (emit_places _ m owed)].
Qed.

Lemma clear_requiresAck_id m : clear_requiresAck cfg m = m.
Proof. unfold clear_requiresAck. rewrite Hmrp, andb_true_r. by destruct m. Qed.

(** A message comes in; a new one is already among those that arrived. *)
Lemma receive_sound e m (duplicate : bool) owed :
  triple (fun x => if duplicate then sound owed x /\ has_id (arrived x) (messageId m) else sound (m :: owed) x)
    (receiveMessage cfg e m duplicate) (sound owed).
Proof.
  intros x Hx. unfold receiveMessage. rewrite run_look. destruct (_ && _).
  - rewrite run_seq. apply (ack_message_sound m ThenIgnore (close cfg None) owed); [apply close_sound|]. rewrite run_arrived.
    destruct duplicate.
    + split; [apply (emit_sound (Ignore m) owed); [done..|apply Hx]|]. split; [apply Hx|done].
    + split; [by apply (emit_places _ m owed)|]. split; [|done]. exists m. split; [by apply (owed_arrived m owed)|done].
  - unfold onMessageReceived. rewrite clear_requiresAck_id, run_seq. set (y := run (upd _) x).
    assert (Hy : forall l, sound l x -> sound l y) by (intros l; apply neutral_sound; intros []; cbn; split_and!; eauto).
    assert (Ha : arrived y = arrived x) by apply run_arrived.
    destruct (_ && _).
    + destruct duplicate; [apply (emit_sound _ owed); [done..|apply Hy, Hx]|by apply (emit_places _ m owed), Hy].
    + destruct duplicate.
      * apply on_duplicate_sound. rewrite Ha. split; [apply Hy, Hx|apply Hx].
      * rewrite run_look. destruct (sentMessageToAck (ex y)) as [p|] eqn:Ep.
        -- apply on_message_pending_sound. split; [by apply Hy|done].
        -- by apply accept_sound, Hy.
Qed.

Lemma send_sound k o type data owed : keeps (sound owed) (send cfg k o type data).
Proof.
  intros x Hx. unfold run, send. destruct (bool_decide (is_Some (closeCause (ex x)))) eqn:Ec.
  { apply (emit_sound (Settled k (Throw ClosedError)) owed); done. }
  set (y := run (upd (fun st => set_retransmissionCounter 0 (set_sendOptions o st))) x).
  assert (Hy : sound owed y) by (revert Hx; apply neutral_sound; intros []; cbn; split_and!; eauto).
  change (set_retransmissionCounter 0 (set_sendOptions o (ex x))) with (ex y).
  replace (log x) with (log y) by (unfold y; by rewrite run_upd). replace (sent x) with (sent y) by (unfold y; by rewrite run_upd).
  replace (arrived x) with (arrived y) by (unfold y; by rewrite run_upd). clearbody y. clear x Hx Ec.
  unfold send_start. cbn [is_Some]. rewrite (bool_decide_eq_false_2 (is_Some None)) by (by intros []). cbn [andb throw_if rbind negb].
  rewrite andb_true_r. destruct (bool_decide (is_Some (sentMessageToAck (ex y)))) eqn:Ep; cbn [throw_if rbind].
  { exact (app_done_sound k o (Throw MatterFlowError) owed y Hy). }
  rewrite Hmrp. set (f := fun st => match receivedMessageToAck st with
    | Some m => set_receivedMessageToAck None (set_ackTimer false (set_used true st)) | None => set_used true st end).
  set (z := run (upd f) y). assert (Hz : sound owed z).
  { revert Hy. apply neutral_sound. intros st. unfold f. destruct (receivedMessageToAck st) eqn:E; destruct st; cbn in *; split_and!; eauto. }
  set (acked := messageId <$> receivedMessageToAck (ex y)).
  set (c := mkCall (ThenApp k) (sendOptions (ex y)) type data false acked (negb (suppressAck (sendOptions (ex y))) && true && true)).
  assert (Hc : task_ok z (AwaitCounter c)).
  { unfold z. rewrite run_upd. split_and!; cbn; [|done|done]. intros a Ha. unfold acked in Ha.
    destruct (receivedMessageToAck (ex y)) as [m|] eqn:Er; [|done]. injection Ha as <-. exists m. split; [|done].
    by apply (received_arrived m owed). }
  pose proof (push_task_sound (AwaitCounter c) owed z (conj Hz (conj Hc eq_refl))) as Hfin.
  unfold z, push_task in Hfin. rewrite !run_upd in Hfin. cbn in Hfin. unfold f, c, acked in Hfin. cbn.
  destruct (receivedMessageToAck (ex y)); cbn; rewrite !app_nil_r; exact Hfin.
Qed.

Lemma run_silent a o b x :
  (forall st, snd (a st) = []) -> run (a ;; emit o ;; b) x = run (emit o ;; a ;; b) x.
Proof.
  intros Ha. rewrite !run_seq. f_equal. rewrite !run_emit. unfold run. cbn. destruct (a (ex x)) as [st l] eqn:E.
  pose proof (Ha (ex x)) as Hl. rewrite E in Hl. cbn in *. subst l. cbn. by rewrite !app_nil_r.
Qed.

Lemma track_silent e c t st : snd (track e c t st) = [].
Proof. done. Qed.

Lemma track_sound e c t owed : triple (fun x => sound owed x /\ msg t ∈ sent x) (track e c t) (sound owed).
Proof.
  set (P := fun x => sound owed x /\ msg t ∈ sent x). apply triple_seq with P.
  { intros x [Hx Hm]. split; [by apply set_pending_sound|by apply run_sent]. }
  apply triple_seq with (sound owed); [intros x Hx; by apply assign_timer_sound|]. apply keeps_seq; neutral.
Qed.

Lemma counter_ready_sound e i c id owed :
  triple (fun x => sound owed x /\ tasks (ex x) !! i = Some (AwaitCounter c)) (counter_ready cfg e i c id) (sound owed).
Proof.
  intros x [Hx Hi]. unfold counter_ready. rewrite run_look. cbn zeta. rewrite run_seq.
  set (r := nextRef (ex x)). set (y := run (upd (set_nextRef (S r))) x).
  assert (Hy : sound owed y) by (revert Hx; apply neutral_sound; intros []; cbn; split_and!; eauto).
  assert (Hiy : tasks (ex y) !! i = Some (AwaitCounter c)) by (unfold y; by rewrite run_upd). clearbody y r. clear x Hx Hi.
  set (t := mkSent r (message_of cfg c id)). pose proof (proj1 (Forall_lookup _ _) (ct_tasks _ (proj1 Hy)) _ _ Hiy) as (Hack & Hkeep & Hreq).
  rewrite run_silent by (intros st; by destruct (tracks cfg c)). rewrite run_seq.
  set (z := run (emit (Transmit (msg t) (Some 0))) y).
  assert (Hz : sound owed z) by (apply transmit_sound; split; [done|exact Hack]).
  assert (Hm : msg t ∈ sent z) by (unfold z; rewrite run_emit; cbn; apply elem_of_app; right; by apply elem_of_cons; left).
  assert (Hiz : tasks (ex z) !! i = Some (AwaitCounter c)) by done.
  assert (Haz : arrived z = arrived y) by done. clearbody z. rewrite run_seq.
  apply (replace_task_sound i (AwaitCounter c) (AwaitChannel c r (tracks cfg c) None) owed). split_and!.
  - destruct (tracks cfg c); cbn [when]; [by apply track_sound|by rewrite run_done].
  - destruct (tracks cfg c); cbn [when]; [|by rewrite run_done]. unfold track, assign_timer.
    rewrite !run_seq, !run_upd. cbn. destruct (retransmissionTimer (ex z)) as [old|]; [destruct (running old)|]; done.
  - assert (Hc : call_ok z c) by (split_and!; [rewrite Haz; exact Hack|rewrite Haz; exact Hkeep|exact Hreq]).
    split; [split_and!; rewrite ?run_arrived; apply Hc|]. intros Ht. apply Hreq. unfold tracks in Ht. by destruct (c_requiresAck c); [|rewrite andb_false_r in Ht].
  - done.
Qed.

Lemma channel_done_sound e i c r tracked response owed :
  triple (fun x => sound owed x /\ tasks (ex x) !! i = Some (AwaitChannel c r tracked response))
    (channel_done cfg e i c r tracked response) (sound owed).
Proof.
  set (t := AwaitChannel c r tracked response). set (P := fun x => sound owed x /\ tasks (ex x) !! i = Some t).
  assert (Hup : forall f, neutral f -> keeps P (upd f)).
  { intros f Hf x [Hx Hi]. split; [by apply neutral_sound|]. rewrite run_upd. cbn. destruct (Hf (ex x)) as (_ & _ & _ & _ & ->). done. }
  apply triple_seq with P. { apply triple_when, Hup. intros []; cbn; split_and!; eauto. }
  destruct tracked.
  - apply triple_seq with P; [apply Hup; intros []; cbn; split_and!; eauto|].
    apply triple_seq with P; [apply Hup; intros []; cbn; split_and!; eauto|]. intros x [Hx Hi].
    pose proof (proj1 (Forall_lookup _ _) (ct_tasks _ (proj1 Hx)) _ _ Hi) as [Hok Hk]. specialize (Hk eq_refl).
    destruct response as [response|].
    + by apply (drop_app_sound i t _ owed Hk (ack_received_sound c response owed)).
    + by apply (replace_task_sound i t (AwaitAck c r) owed).
  - apply triple_seq with (sound (option_list (kept_by c) ++ owed)); [apply (drop_task_sound i t)|apply finish_sound].
Qed.

Lemma at_task_sound i k owed :
  (forall t, triple (fun x => sound owed x /\ tasks (ex x) !! i = Some t) (k t) (sound owed)) -> keeps (sound owed) (at_task i k).
Proof.
  intros H. apply triple_look. intros [t|]; [apply H|]. apply (triple_pre _ (sound owed)); [tauto|apply triple_done].
Qed.

Lemma skip_sound (R : End -> Prop) owed : triple (fun x => sound owed x /\ R x) done (sound owed).
Proof. intros x [Hx _]. by rewrite run_done. Qed.

Ltac skip := apply (skip_sound (fun x => _)).

Lemma abort_sound i t owed : triple (fun x => sound owed x /\ tasks (ex x) !! i = Some t) (abort cfg i t) (sound owed).
Proof.
  destruct t as [c|c r tr rs|c r|t b pr]; cbn [abort]; [| | |skip]; destruct (c_then c) eqn:E; try skip;
    apply drop_app_sound; try done; try (cbn; unfold kept_by; by rewrite E); try apply app_done_sound.
  apply keeps_seq; [apply stop_timer_sound|apply app_done_sound].
Qed.

Lemma resume_counter_sound e i t r owed :
  triple (fun x => sound owed x /\ tasks (ex x) !! i = Some t) (resume_counter cfg e i t r) (sound owed).
Proof.
  destruct t as [c|c n tr rs|c n|t b pr], r as [id|err]; cbn [resume_counter]; try skip; [apply counter_ready_sound|].
  apply triple_seq with (sound (option_list (kept_by c) ++ owed)); [apply (drop_task_sound i (AwaitCounter c))|apply finish_sound].
Qed.

Lemma resume_channel_sound e i t r owed :
  triple (fun x => sound owed x /\ tasks (ex x) !! i = Some t) (resume_channel cfg e i t r) (sound owed).
Proof.
  destruct t as [c|c n tr rs|c n|t b pr]; cbn [resume_channel]; try (by destruct r; skip).
  - destruct r as [u|err]; [apply channel_done_sound|].
    apply triple_seq with (sound (option_list (kept_by c) ++ owed)); [apply (drop_task_sound i (AwaitChannel c n tr rs))|apply finish_sound].
  - assert (Hd : triple (fun x => sound owed x /\ tasks (ex x) !! i = Some (AwaitRetransmit t b pr)) (drop_task i)
      (fun x => sound owed x /\ msg t ∈ sent x)).
    { intros x [Hx Hi]. split; [by apply (drop_task_sound i (AwaitRetransmit t b pr) owed)|].
      apply run_sent. exact (proj1 (Forall_lookup _ _) (ct_tasks _ (proj1 Hx)) _ _ Hi). }
    assert (Hi : triple (fun x => sound owed x /\ tasks (ex x) !! i = Some (AwaitRetransmit t b pr))
      (drop_task i ;; initializeResubmission t b pr) (sound owed)).
    { eapply triple_seq; [exact Hd|apply initializeResubmission_sound]. }
    destruct r as [u|err]; [exact Hi|]. destruct err; try exact Hi.
    eapply triple_seq; [exact Hd|]. apply (triple_pre _ (sound owed)); [by intros ? []|apply close_now_sound].
Qed.

(** Every step keeps the invariant; a new message arrives before it is handled. *)
Lemma step_sound e ev owed :
  match ev with EReceive _ _ => True | _ => keeps (sound owed) (step cfg e ev) end.
Proof.
  destruct ev as [k o type data|i|i r|i r|m d| | |i| |cause| |]; try exact I; cbn [step].
  - apply send_sound.
  - apply at_task_sound. intros t. apply abort_sound.
  - apply at_task_sound. intros t. apply resume_counter_sound.
  - apply at_task_sound. intros t. apply resume_channel_sound.
  - apply keeps_look. intros b. apply triple_when. apply keeps_seq; [neutral|]. apply triple_look. intros [m|]; [|skip].
    intros x [Hx Hm]. rewrite run_seq. apply (ack_message_sound m ThenNothing done owed (triple_done _)). rewrite run_arrived.
    split; [revert Hx; apply neutral_sound; intros []; cbn; split_and!; eauto|]. split; [|done].
    exists m. split; [by apply (received_arrived m owed)|done].
  - apply triple_look. intros [t|]; [|skip]. intros x [Hx Ht]. destruct (running t); cbn [when]; [|by rewrite run_done].
    rewrite run_seq. apply fire_sound. split; [by apply stop_timer_sound|]. apply run_sent. exact (ct_timer _ (proj1 Hx) t Ht).
  - apply triple_look. intros [t|]; [|skip]. intros x [Hx Ht]. rewrite run_seq. apply fire_sound. split.
    + revert Hx. apply neutral_sound. intros []; cbn; split_and!; eauto.
    + apply run_sent. exact (proj1 (Forall_lookup _ _) (ct_stray _ (proj1 Hx)) _ _ Ht).
  - apply keeps_look. intros t. apply triple_when. apply keeps_seq; [neutral|apply close_now_sound].
  - apply close_sound.
  - apply destroy_sound.
  - neutral.
Qed.

End Content.
