(* ===== verification/ExchangeCalls.v ===== *)
(** * The calls of [send] on an exchange

    An application that waits for each of its sends has at most one suspended
    call.  Its stages tie it to the message that waits for an acknowledgement,
    so that a call that returns normally was acknowledged. *)

From stdpp Require Import list gmap.
From S2P Require Import Prelude Exchange ExchangeLink.

Local Open Scope act_scope.

Lemma delete_app_lt {A} (l k : list A) i : (i < length l)%nat -> delete i (l ++ k) = delete i l ++ k.
Proof. revert i. induction l as [|a l IH]; intros [|i] Hi; cbn in *; [lia|lia|done|]. f_equal. apply IH. lia. Qed.

Lemma delete_app_ge {A} (l k : list A) i : (length l <= i)%nat -> delete i (l ++ k) = l ++ delete (i - length l)%nat k.
Proof. revert i. induction l as [|a l IH]; intros [|i] Hi; cbn in *; [done|done|lia|]. f_equal. apply IH. lia. Qed.

(** The caller's view of a call: its number, options, message type and payload. *)
Record Request := mkRequest {
  rq_call : nat;
  rq_options : Options;
  rq_type : Z;
  rq_payload : list Z;
}.

Definition app_call (c : Call) : option nat := match c_then c with ThenApp k => Some k | _ => None end.

(** The tasks of the exchange's own acknowledgements and retransmissions. *)
Definition plain (t : Task) : Prop :=
  match t with
  | AwaitCounter c => app_call c = None /\ c_requiresAck c = false
  | AwaitChannel c _ tracked _ => app_call c = None /\ tracked = false
  | AwaitAck _ _ => False
  | AwaitRetransmit _ _ _ => True
  end.

Section Calls.

Context (cfg : Config) (Hmrp : usesMrp cfg = true).
Context (reached : Z -> Prop) (requests : list Request).
(** True while the exchange is being closed, and the log does not show it yet. *)
Context (excuse : Prop).

Definition requested (c : Call) : Prop :=
  exists k, c_then c = ThenApp k /\ mkRequest k (c_options c) (c_type c) (c_payload c) ∈ requests.

Definition untracked (o : Options) : Prop := suppressAck o = true \/ disableMrpLogic o = true.

Definition ended (x : End) : Prop := Closed ∈ log x \/ excuse.

(** A message with the content of the call reached the peer. *)
Definition arrived_at_peer (x : End) (type : Z) (data : list Z) : Prop :=
  exists m, m ∈ sent x /\ messageType m = type /\ payload m = data /\ reached (messageId m).

(** The call owns the message that waits for an acknowledgement. *)
Definition waiting (x : End) (c : Call) (r : nat) : Prop :=
  exists s, sentMessageToAck (ex x) = Some s /\ ref s = r /\ msg s ∈ sent x /\
    messageType (msg s) = c_type c /\ payload (msg s) = c_payload c /\
    sentMessageAckSuccess (ex x) = Some r /\ sentMessageAckFailure (ex x) = Some r.

Definition busy (x : End) (t : Task) : Prop :=
  match t with
  | AwaitCounter c =>
      requested c /\ sentMessageToAck (ex x) = None /\ (c_requiresAck c = false -> untracked (c_options c))
  | AwaitChannel c r true None => requested c /\ waiting x c r
  | AwaitChannel c r true (Some (Some _)) => requested c /\ arrived_at_peer x (c_type c) (c_payload c)
  | AwaitChannel c r true (Some None) => requested c /\ ended x
  | AwaitChannel c r false _ => requested c /\ untracked (c_options c)
  | AwaitAck c r => requested c /\ waiting x c r
  | AwaitRetransmit _ _ _ => False
  end.

Inductive phase (x : End) : Prop :=
| Idle : Forall plain (tasks (ex x)) -> phase x
| Busy l1 t l2 : tasks (ex x) = l1 ++ t :: l2 -> Forall plain l1 -> Forall plain l2 -> busy x t -> phase x.

(** What a call that returned normally tells its caller. *)
Definition justified (x : End) (k : nat) : Prop :=
  exists q, q ∈ requests /\ rq_call q = k /\
    (untracked (rq_options q) \/ ended x \/ arrived_at_peer x (rq_type q) (rq_payload q)).

Record orderly (x : End) : Prop := {
  or_phase : phase x;
  or_settled : forall k, Settled k (Ok tt) ∈ log x -> justified x k;
  or_closed : closed (ex x) = true -> Closed ∈ log x;
}.

(** ** Steps that leave the calls alone *)

Lemma arrived_grow x y type data :
  (forall m, m ∈ sent x -> m ∈ sent y) -> arrived_at_peer x type data -> arrived_at_peer y type data.
Proof. intros H (m & Hm & ?). exists m. split; [by apply H|done]. Qed.

Lemma run_log a x o : o ∈ log x -> o ∈ log (run a x).
Proof. intros H. unfold run. destruct (a (ex x)). cbn. apply elem_of_app. by left. Qed.

Lemma ended_grow x y : (Closed ∈ log x -> Closed ∈ log y) -> ended x -> ended y.
Proof. intros H [?|?]; [left; auto|by right]. Qed.

Lemma justified_grow x y k :
  (forall m, m ∈ sent x -> m ∈ sent y) -> (Closed ∈ log x -> Closed ∈ log y) -> justified x k -> justified y k.
Proof.
  intros Hs Hl (q & Hq & Hk & H). exists q. split_and!; [done|done|]. destruct H as [?|[?|?]]; eauto using arrived_grow, ended_grow.
Qed.

Record same_calls (x y : End) : Prop := {
  sc_pending : sentMessageToAck (ex y) = sentMessageToAck (ex x);
  sc_success : sentMessageAckSuccess (ex y) = sentMessageAckSuccess (ex x);
  sc_failure : sentMessageAckFailure (ex y) = sentMessageAckFailure (ex x);
  sc_sent : forall m, m ∈ sent x -> m ∈ sent y;
  sc_log : Closed ∈ log x -> Closed ∈ log y;
}.

Lemma busy_same x y t : same_calls x y -> busy x t -> busy y t.
Proof.
  intros [Hp Hs Hf Hse Hl]. assert (Hw : forall c r, waiting x c r -> waiting y c r).
  { intros c r (s & ? & ? & ? & ?). exists s. rewrite Hp, Hs, Hf. split_and!; eauto; naive_solver. }
  destruct t as [c|c r [|] [[m|]|]|c r|s b pr]; cbn; rewrite ?Hp; try done; intros [Hr Hrest]; split; eauto using arrived_grow, ended_grow.
Qed.

Lemma phase_same x y : same_calls x y -> tasks (ex y) = tasks (ex x) -> phase x -> phase y.
Proof.
  intros Hsame Ht [H|l1 t l2 E H1 H2 Hb]; [apply Idle; by rewrite Ht|].
  apply (Busy y l1 t l2); [by rewrite Ht|done|done|by apply (busy_same x)].
Qed.

Definition inert (f : Exchange -> Exchange) : Prop := forall st,
  sentMessageToAck (f st) = sentMessageToAck st /\ sentMessageAckSuccess (f st) = sentMessageAckSuccess st /\
  sentMessageAckFailure (f st) = sentMessageAckFailure st /\ tasks (f st) = tasks st /\ closed (f st) = closed st.

Lemma inert_orderly f : inert f -> keeps orderly (upd f).
Proof.
  intros Hf x [Hp Hs Hc]. rewrite run_upd. destruct (Hf (ex x)) as (E1 & E2 & E3 & E4 & E5).
  constructor; cbn; [|exact Hs|by rewrite E5]. apply (phase_same x); [by constructor|done|done].
Qed.

Ltac inert := apply inert_orderly; intros [ ]; cbn; split_and!; eauto.

Lemma emit_orderly o : (forall k, o <> Settled k (Ok tt)) -> keeps orderly (emit o).
Proof.
  intros Ho x [Hp Hs Hc]. pose proof (run_sent (emit o) x) as Hse. pose proof (run_log (emit o) x Closed) as Hl.
  constructor.
  - apply (phase_same x); [by constructor|done|done].
  - intros k Hk. rewrite run_emit in Hk. cbn in Hk. apply elem_of_app in Hk as [Hk|Hk%list_elem_of_singleton].
    + eapply justified_grow; [..|by apply Hs]; eauto.
    + by destruct (Ho k).
  - intros H. by apply Hl, Hc.
Qed.

Lemma push_plain_orderly t : plain t -> keeps orderly (push_task t).
Proof.
  intros Ht x [Hp Hs Hc]. unfold push_task. rewrite run_upd. constructor; cbn; [|exact Hs|exact Hc].
  destruct Hp as [H|l1 t' l2 E H1 H2 Hb].
  - apply Idle. cbn. apply Forall_app. split; [done|by constructor].
  - apply (Busy _ l1 t' (l2 ++ [t])); cbn; [by rewrite E, <- app_assoc|done|apply Forall_app; split; [done|by constructor]|].
    by apply (busy_same x).
Qed.

Lemma drop_plain_orderly i t : plain t -> triple (fun x => orderly x /\ tasks (ex x) !! i = Some t) (drop_task i) orderly.
Proof.
  intros Ht x [[Hp Hs Hc] Hi]. unfold drop_task. rewrite run_upd. constructor; cbn; [|exact Hs|exact Hc].
  destruct Hp as [H|l1 t' l2 E H1 H2 Hb].
  - apply Idle. cbn. by apply Forall_delete.
  - rewrite E in Hi |- *. destruct (decide (i < length l1)%nat) as [Hlt|Hge].
    + apply (Busy _ (delete i l1) t' l2); cbn; [by rewrite delete_app_lt|by apply Forall_delete|done|by apply (busy_same x)].
    + rewrite lookup_app_r in Hi by lia. destruct (i - length l1)%nat as [|j] eqn:Ej; cbn in Hi.
      * injection Hi as ->. exfalso. destruct t as [c|c r tr rs|c r|s b pr]; cbn in Ht, Hb; [| |done|done].
        -- destruct Hb as [(k & Hk & _) _]. destruct Ht as [Ht _]. unfold app_call in Ht. by rewrite Hk in Ht.
        -- destruct Ht as [Ht ->]. destruct Hb as [(k & Hk & _) _]. unfold app_call in Ht. by rewrite Hk in Ht.
      * apply (Busy _ l1 t' (delete j l2)); cbn; [|done|by apply Forall_delete|by apply (busy_same x)].
        rewrite delete_app_ge by lia. by rewrite Ej.
Qed.

(** ** Settling a call *)

Lemma plain_busy x t : plain t -> busy x t -> False.
Proof.
  destruct t as [c|c r tr rs|c r|s b pr]; cbn; [| |done|done].
  - intros [Ht _] [(k & Hk & _) _]. unfold app_call in Ht. by rewrite Hk in Ht.
  - intros [Ht ->] [(k & Hk & _) _]. unfold app_call in Ht. by rewrite Hk in Ht.
Qed.

Lemma plain_waits r t : plain t -> waits_for r t = false.
Proof. destruct t as [c|c r' tr rs|c r'|s b pr]; cbn; [done| |done|done]. by intros [_ ->]. Qed.

(** Where a task sits while a call is suspended. *)
Lemma task_cases x i t :
  phase x -> tasks (ex x) !! i = Some t ->
  plain t \/ exists l1 l2, tasks (ex x) = l1 ++ t :: l2 /\ i = length l1 /\ Forall plain l1 /\ Forall plain l2 /\ busy x t.
Proof.
  intros [H|l1 t' l2 E H1 H2 Hb] Hi; [left; by apply (proj1 (Forall_lookup _ _) H i)|].
  rewrite E in Hi. apply lookup_app_Some in Hi as [Hi|[Hge Hi]]; [left; by apply (proj1 (Forall_lookup _ _) H1 i)|].
  destruct (i - length l1)%nat as [|j] eqn:Ej; cbn in Hi; [|left; by apply (proj1 (Forall_lookup _ _) H2 j)].
  injection Hi as <-. right. exists l1, l2. split_and!; [done|lia|done|done|done].
Qed.

(** Dropping the suspended call leaves the exchange idle. *)
Lemma drop_busy_idle x l1 t l2 :
  tasks (ex x) = l1 ++ t :: l2 -> Forall plain l1 -> Forall plain l2 -> Forall plain (tasks (ex (run (drop_task (length l1)) x))).
Proof.
  intros E H1 H2. unfold drop_task. rewrite run_upd. cbn. rewrite E, delete_app_ge, Nat.sub_diag by lia. cbn.
  apply Forall_app. done.
Qed.

Definition idle (x : End) : Prop := Forall plain (tasks (ex x)) /\ orderly x.

Lemma drop_busy x l1 t l2 :
  orderly x -> tasks (ex x) = l1 ++ t :: l2 -> Forall plain l1 -> Forall plain l2 -> idle (run (drop_task (length l1)) x).
Proof.
  intros [Hp Hs Hc] E H1 H2. pose proof (drop_busy_idle x l1 t l2 E H1 H2) as Hi. split; [done|].
  constructor; [by apply Idle|..]; unfold drop_task; rewrite run_upd; [exact Hs|exact Hc].
Qed.

(** An idle exchange may change what belongs to a call. *)
Lemma idle_upd f : (forall st, tasks (f st) = tasks st /\ closed (f st) = closed st) -> keeps idle (upd f).
Proof.
  intros Hf x [Hi [_ Hs Hc]]. rewrite run_upd. destruct (Hf (ex x)) as [E1 E2].
  split; [cbn; by rewrite E1|]. constructor; cbn; [apply Idle; cbn; by rewrite E1|exact Hs|by rewrite E2].
Qed.

Lemma idle_emit o : (forall k, o <> Settled k (Ok tt)) -> keeps idle (emit o).
Proof. intros Ho x [Hi Hx]. split; [done|by apply emit_orderly]. Qed.

Lemma idle_settled k o r :
  triple (fun x => idle x /\ (r = Ok tt -> justified x k)) (app_done cfg k o r) idle.
Proof.
  intros x [Hx Hj]. unfold app_done. rewrite run_look, run_seq.
  set (y := run _ x). assert (Hy : idle y /\ (r = Ok tt -> justified y k)).
  { unfold y. destruct r as [u|e]; [by rewrite run_done|]. split; [|done]. destruct (_ && _); cbn [when]; [|by rewrite run_done].
    by apply idle_emit. }
  clearbody y. destruct Hy as [[Hi [_ Hs Hc]] Hjy]. rewrite run_emit. split; [done|]. constructor.
  - by apply Idle.
  - intros k' Hk. cbn in Hk.
    apply elem_of_app in Hk as [Hk|Hk%list_elem_of_singleton].
    + eapply justified_grow; [..|by apply Hs]; cbn; intros; apply elem_of_app; by left.
    + injection Hk as -> <-. eapply justified_grow; [..|by apply Hjy]; cbn; intros; apply elem_of_app; by left.
  - cbn. intros H. apply elem_of_app. left. by apply Hc.
Qed.

Lemma idle_orderly x : idle x -> orderly x.
Proof. by intros [_ H]. Qed.

(** The result of an acknowledged call. *)
Lemma idle_ack_received c response :
  triple (fun x => idle x /\ requested c /\ (ended x \/ arrived_at_peer x (c_type c) (c_payload c)))
    (ack_received cfg c response) idle.
Proof.
  intros x (Hx & (k & Hk & Hq) & Hj). unfold ack_received. rewrite !run_seq, Hk.
  set (y := run _ (run _ x)). assert (Hy : idle y).
  { unfold y. apply idle_upd; [done|]. by apply idle_upd. }
  assert (Hjy : justified y k).
  { exists (mkRequest k (c_options c) (c_type c) (c_payload c)). split_and!; [done|done|]. right.
    destruct Hj as [Hj|Hj]; [left; eapply ended_grow; [|exact Hj]; intros; by do 2 apply run_log|right].
    eapply arrived_grow; [|exact Hj]. intros m Hm. by do 2 apply run_sent. }
  by apply idle_settled.
Qed.

(** The busy task is the one that waits. *)
Lemma task_of_busy x r : phase x -> match task_of r (ex x) with
  | Some (i, t) => waits_for r t = true /\ exists l1 l2, tasks (ex x) = l1 ++ t :: l2 /\ i = length l1 /\ Forall plain l1 /\ Forall plain l2 /\ busy x t
  | None => forall t, t ∈ tasks (ex x) -> waits_for r t = false
  end.
Proof.
  intros Hp. destruct (task_of r (ex x)) as [[i t]|] eqn:E.
  - apply task_of_Some in E as [Hi Hw]. split; [done|]. destruct (task_cases x i t Hp Hi) as [Ht|H]; [|done].
    rewrite (plain_waits r t Ht) in Hw. done.
  - intros t Ht. unfold task_of in E. pose proof (proj1 (list_find_None _ _) E) as H.
    rewrite Forall_forall in H. specialize (H t Ht). by destruct (waits_for r t).
Qed.

(** ** Exchanges on which nothing waits for an acknowledgement *)

Definition detached (t : Task) : Prop :=
  match t with
  | AwaitChannel _ _ true (Some _) | AwaitChannel _ _ false _ => True
  | _ => plain t
  end.

Definition calm (x : End) : Prop := Forall detached (tasks (ex x)) /\ orderly x.

Lemma plain_detached t : plain t -> detached t.
Proof. destruct t as [c|c r [|] rs|c r|s b pr]; cbn; try done. by intros [_ ?]. Qed.

Lemma idle_calm x : idle x -> calm x.
Proof. intros [Hi Hx]. split; [|done]. eapply Forall_impl; [exact Hi|]. apply plain_detached. Qed.

Lemma calm_orderly x : calm x -> orderly x.
Proof. by intros [_ H]. Qed.

Lemma detached_busy x y t :
  (forall m, m ∈ sent x -> m ∈ sent y) -> (Closed ∈ log x -> Closed ∈ log y) -> detached t -> busy x t -> busy y t.
Proof.
  intros Hs Hl. destruct t as [c|c r [|] [[m|]|]|c r|s b pr]; cbn; try done.
  - intros [Ha _] [(k & Hk & _) _]. unfold app_call in Ha. by rewrite Hk in Ha.
  - intros _ [Hr Hrest]. eauto using arrived_grow.
  - intros _ [Hr Hrest]. eauto using ended_grow.
  - intros [_ ?]. done.
Qed.

Lemma calm_upd f : (forall st, tasks (f st) = tasks st /\ closed (f st) = closed st) -> keeps calm (upd f).
Proof.
  intros Hf x [Hd [Hp Hs Hc]]. rewrite run_upd. destruct (Hf (ex x)) as [E1 E2].
  split; [cbn; by rewrite E1|]. constructor; cbn; [|exact Hs|by rewrite E2].
  destruct Hp as [H|l1 t l2 E H1 H2 Hb]; [apply Idle; cbn; by rewrite E1|].
  apply (Busy _ l1 t l2); cbn; [by rewrite E1|done|done|]. apply (detached_busy x); [done|done| |done].
  rewrite E in Hd. apply Forall_app in Hd as [_ Hd]. by inversion Hd.
Qed.

(** The tasks of an orderly exchange with nothing waiting. *)
Lemma orderly_calm x :
  orderly x -> (forall l1 t l2, tasks (ex x) = l1 ++ t :: l2 -> busy x t -> detached t) -> calm x.
Proof.
  intros Hx Hd. split; [|done]. destruct (or_phase x Hx) as [H|l1 t l2 E H1 H2 Hb].
  - eapply Forall_impl; [exact H|]. apply plain_detached.
  - rewrite E. apply Forall_app. split; [eapply Forall_impl; [exact H1|]; apply plain_detached|].
    constructor; [by apply (Hd l1 t l2)|eapply Forall_impl; [exact H2|]; apply plain_detached].
Qed.

Lemma waiting_tasks x t :
  busy x t -> (forall r, sentMessageAckSuccess (ex x) = Some r -> waits_for r t = false) ->
  is_Some (sentMessageToAck (ex x)) -> detached t.
Proof.
  intros Hb Hw [s Hs]. destruct t as [c|c r [|] [rs|]|c r|s' b pr]; cbn in *; try done.
  - destruct Hb as (_ & Hb & _). by rewrite Hs in Hb.
  - destruct Hb as [_ (s' & _ & _ & _ & _ & _ & Hr & _)]. specialize (Hw r Hr). by rewrite bool_decide_eq_true_2 in Hw.
  - destruct Hb as [_ (s' & _ & _ & _ & _ & _ & Hr & _)]. specialize (Hw r Hr). by rewrite bool_decide_eq_true_2 in Hw.
Qed.

(** [resolve] with the resolver of the pending message settles its call. *)
Lemma resolve_orderly response x :
  orderly x -> (forall c r, waiting x c r ->
    match response with Some _ => arrived_at_peer x (c_type c) (c_payload c) | None => ended x end) ->
  let y := run (match sentMessageAckSuccess (ex x) with Some r => resolve cfg r response | None => done end) x in
  orderly y /\ (is_Some (sentMessageToAck (ex x)) -> calm y).
Proof.
  intros Hx Hresp. cbn zeta.
  assert (Hstay : (forall t r, t ∈ tasks (ex x) -> sentMessageAckSuccess (ex x) = Some r -> waits_for r t = false) ->
    orderly x /\ (is_Some (sentMessageToAck (ex x)) -> calm x)).
  { intros Hw. split; [done|]. intros Hs. apply orderly_calm; [done|]. intros l1 t l2 E Hb.
    apply (waiting_tasks x); [done| |done]. intros r Hr. apply Hw; [|done]. rewrite E, elem_of_app, elem_of_cons. auto. }
  destruct (sentMessageAckSuccess (ex x)) as [r|] eqn:Es; [|rewrite run_done; by apply Hstay].
  unfold resolve. rewrite run_look. pose proof (task_of_busy x r (or_phase x Hx)) as Ht.
  destruct (task_of r (ex x)) as [[i t]|] eqn:Et; [|rewrite run_done; apply Hstay; intros t r' Hin [= <-]; by apply Ht].
  clear Hstay. destruct Ht as (Hw & l1 & l2 & E & -> & H1 & H2 & Hb).
  destruct t as [c|c r' tr rs|c r'|s b pr]; cbn in Hw; try done.
  - destruct tr, rs as [rs|]; try done. apply bool_decide_eq_true in Hw as <-. destruct Hb as [Hreq Hwait].
    set (t' := AwaitChannel c r true (Some response)).
    assert (Hcalm : calm (run (replace_task (length l1) t') x)).
    { unfold replace_task. rewrite run_upd.
      assert (Etasks : <[length l1 := t']> (tasks (ex x)) = l1 ++ t' :: l2).
      { rewrite E. by rewrite (insert_app_r_alt _ _ (length l1)), Nat.sub_diag by lia. }
      split; cbn; rewrite Etasks.
      - apply Forall_app. split; [eapply Forall_impl; [exact H1|]; apply plain_detached|].
        constructor; [done|eapply Forall_impl; [exact H2|]; apply plain_detached].
      - destruct Hx as [_ Hs Hc]. constructor; cbn; [|exact Hs|exact Hc].
        apply (Busy _ l1 t' l2); [done|done|done|]. specialize (Hresp c r Hwait).
        destruct response; cbn; split; done. }
    split; [by apply calm_orderly|done].
  - apply bool_decide_eq_true in Hw as <-. destruct Hb as [Hreq Hwait]. rewrite run_seq.
    assert (Hidle : idle (run (ack_received cfg c response) (run (drop_task (length l1)) x))).
    { apply idle_ack_received. split_and!; [by eapply drop_busy|done|]. specialize (Hresp c r Hwait).
      destruct response; [right|left]; [eapply arrived_grow|eapply ended_grow]; try exact Hresp; intros; [by apply run_sent|by apply run_log]. }
    split; [by apply idle_orderly|intros _; by apply idle_calm].
Qed.

(** Giving up on the pending message. *)
Lemma fail_calm x :
  orderly x -> is_Some (sentMessageToAck (ex x)) ->
  calm (run (match sentMessageAckFailure (ex x) with Some r => fail cfg r | None => done end) x).
Proof.
  intros Hx Hs.
  assert (Hstay : (forall t r, t ∈ tasks (ex x) -> sentMessageAckFailure (ex x) = Some r -> waits_for r t = false) -> calm x).
  { intros Hw. apply orderly_calm; [done|]. intros l1 t l2 E Hb. apply (waiting_tasks x); [done| |done].
    intros r Hr. assert (Hin : t ∈ tasks (ex x)) by (rewrite E, elem_of_app, elem_of_cons; auto).
    destruct t as [c|c r' [|] [rs|]|c r'|s' b pr]; try done; cbn in Hb |- *; destruct Hb as [_ (s & _ & _ & _ & _ & _ & Hsu & Hfa)];
      rewrite Hr in Hsu; injection Hsu as <-; specialize (Hw _ r Hin Hfa); exact Hw. }
  destruct (sentMessageAckFailure (ex x)) as [r|] eqn:Es; [|rewrite run_done; by apply Hstay].
  unfold fail. rewrite run_look. pose proof (task_of_busy x r (or_phase x Hx)) as Ht.
  destruct (task_of r (ex x)) as [[i t]|] eqn:Et; [|rewrite run_done; apply Hstay; intros t r' Hin [= <-]; by apply Ht].
  destruct Ht as (Hw & l1 & l2 & E & -> & H1 & H2 & Hb). pose proof (drop_busy x l1 t l2 Hx E H1 H2) as Hd.
  apply idle_calm. destruct t as [c|c r' tr rs|c r'|s b pr]; cbn in Hw; try done.
  - rewrite run_seq. destruct tr, rs; try done. destruct Hb as [(k & -> & _) _]. by apply idle_settled.
  - rewrite !run_seq. destruct Hb as [(k & -> & _) _]. apply idle_settled. split; [|done]. by apply idle_upd.
Qed.

End Calls.

(** ** The actions of an exchange *)

Section Steps.

Context (cfg : Config) (Hmrp : usesMrp cfg = true) (reached : Z -> Prop) (requests : list Request).

Abbreviation ordered := (orderly reached requests False).

Ltac inert := apply inert_orderly; intros [ ]; cbn; split_and!; eauto.

Lemma busy_change E E' x t : (ended E x -> ended E' x) -> busy reached requests E x t -> busy reached requests E' x t.
Proof. intros H. destruct t as [c|c r [|] [[m|]|]|c r|s b pr]; cbn; try done. intros [? ?]. auto. Qed.

Lemma phase_change E E' x : (ended E x -> ended E' x) -> phase reached requests E x -> phase reached requests E' x.
Proof.
  intros H [Hi|l1 t l2 Et H1 H2 Hb]; [by apply Idle|]. apply (Busy _ _ _ x l1 t l2); try done. by apply (busy_change E).
Qed.

Lemma orderly_change E E' x : (ended E x -> ended E' x) -> orderly reached requests E x -> orderly reached requests E' x.
Proof.
  intros H [Hp Hs Hc]. constructor; [by apply (phase_change E)| |done].
  intros k Hk. destruct (Hs k Hk) as (q & Hq & Hqk & Hj). exists q. split_and!; [done|done|]. tauto.
Qed.

Lemma closed_orderly was x :
  orderly reached requests True x -> (was = true -> Closed ∈ log x) ->
  ordered (run (upd (set_closed true) ;; when (negb was) (emit Closed)) x).
Proof.
  intros Hx Hwas. rewrite run_seq. set (y := run (upd (set_closed true)) x).
  assert (Hy : phase reached requests True y /\ (forall k, Settled k (Ok tt) ∈ log y -> justified reached requests True y k)).
  { destruct Hx as [Hp Hs _]. unfold y. rewrite run_upd. split; [|exact Hs]. by apply (phase_same _ _ _ x). }
  set (z := run _ y). assert (Hl : Closed ∈ log z).
  { unfold z. destruct was; cbn [negb when]; [rewrite run_done; by apply run_log, Hwas|].
    rewrite run_emit. cbn. apply elem_of_app. right. by apply elem_of_cons; left. }
  apply (orderly_change True); [intros _; by left|]. destruct Hy as [Hp Hs].
  assert (Hsent : forall m, m ∈ sent y -> m ∈ sent z) by (intros m; apply run_sent).
  constructor; [|intros k Hk|done].
  - apply (phase_same _ _ _ y); [|by unfold z; destruct was|done]. constructor; try done; by unfold z; destruct was.
  - eapply justified_grow; [exact Hsent|by intros|]. apply Hs. unfold z in Hk. destruct was; cbn [negb when] in Hk.
    + by rewrite run_done in Hk.
    + rewrite run_emit in Hk. cbn in Hk. apply elem_of_app in Hk as [Hk|Hk%list_elem_of_singleton]; done.
Qed.

Lemma close_now_orderly cause : keeps ordered (close_now cfg cause).
Proof.
  intros x Hx. unfold close_now. rewrite run_look.
  assert (Hwas : closed (ex x) = true -> Closed ∈ log x) by apply (or_closed _ _ _ _ Hx).
  set (was := closed (ex x)) in *. clearbody was. apply (orderly_change False True) in Hx; [|intros; by right].
  rewrite run_seq. set (x1 := run _ x). assert (H1 : orderly reached requests True x1) by (revert Hx; inert).
  assert (W1 : was = true -> Closed ∈ log x1) by (intros; by apply run_log, Hwas). clearbody x1. clear x Hx Hwas.
  rewrite run_seq. set (x2 := run _ x1). assert (H2 : orderly reached requests True x2) by (revert H1; inert).
  assert (W2 : was = true -> Closed ∈ log x2) by (intros; by apply run_log, W1). clearbody x2. clear x1 H1 W1.
  rewrite run_seq. set (x3 := run _ x2). assert (H3 : orderly reached requests True x3) by (revert H2; inert).
  assert (W3 : was = true -> Closed ∈ log x3) by (intros; by apply run_log, W2). clearbody x3. clear x2 H2 W2.
  rewrite run_seq, run_look. set (x4 := run _ x3). assert (H4 : orderly reached requests True x4).
  { destruct (resolve_orderly cfg reached requests True None x3 H3) as [H _]; [intros; by right|exact H]. }
  assert (W4 : was = true -> Closed ∈ log x4) by (intros; by apply run_log, W3). clearbody x4. clear x3 H3 W3.
  rewrite run_seq. set (x5 := run _ x4). assert (H5 : orderly reached requests True x5) by (revert H4; inert).
  assert (W5 : was = true -> Closed ∈ log x5) by (intros; by apply run_log, W4). clearbody x5. clear x4 H4 W4.
  rewrite run_seq. set (x6 := run _ x5). assert (H6 : orderly reached requests True x6) by (revert H5; inert).
  assert (W6 : was = true -> Closed ∈ log x6) by (intros; by apply run_log, W5). clearbody x6. clear x5 H5 W5.
  by apply closed_orderly.
Qed.

Lemma stop_timer_orderly : keeps ordered stop_timer.
Proof. inert. Qed.

Lemma assign_timer_orderly t : keeps ordered (assign_timer t).
Proof.
  apply inert_orderly. intros st. destruct (retransmissionTimer st) as [old|] eqn:E; [destruct (running old)|]; destruct st; done.
Qed.

(** Acknowledgements are the exchange's own business. *)
Lemma ack_message_orderly m after rest :
  app_call (mkCall after no_options 0 [] true None false) = None -> keeps ordered rest -> keeps ordered (ack_message cfg m after rest).
Proof.
  intros Ha Hrest x Hx. destruct (requiresAck m) eqn:Er.
  2: { rewrite (run_eq _ rest); [by apply Hrest|]. unfold ack_message. by rewrite Er. }
  set (c := mkCall after (sendOptions (ex x)) StandaloneAck [] true (Some (messageId m)) false).
  rewrite (run_eq _ (upd (set_used true) ;; push_task (AwaitCounter c))).
  - rewrite run_seq. apply push_plain_orderly; [done|]. revert Hx. inert.
  - unfold ack_message, send_start, andThen, upd, push_task, upd. rewrite Er, Hmrp. cbn. by rewrite !andb_false_r.
Qed.

Lemma close_rest_orderly cause : keeps ordered (close_rest cfg cause).
Proof. apply keeps_look. intros p. case_match; [apply close_now_orderly|inert]. Qed.

Lemma close_orderly cause : keeps ordered (close cfg cause).
Proof.
  apply triple_if; [|apply triple_if; [|apply triple_if]]; apply (triple_pre _ ordered); try tauto.
  - apply triple_done.
  - apply triple_when. apply keeps_seq; [inert|apply close_now_orderly].
  - apply close_now_orderly.
  - apply keeps_seq.
    + apply inert_orderly. intros st. destruct (closed st) eqn:E; destruct st; done.
    + apply keeps_look. intros c. apply triple_when, keeps_look. intros [m|]; [|apply close_rest_orderly].
      apply keeps_seq; [inert|]. apply keeps_seq; [inert|]. apply ack_message_orderly; [done|apply close_rest_orderly].
Qed.

Lemma destroy_orderly : keeps ordered (destroy cfg).
Proof.
  apply keeps_look. intros d. apply triple_when, keeps_seq; [inert|]. apply keeps_look. intros t. apply keeps_look. intros r.
  destruct t, r; try apply close_now_orderly. apply keeps_seq; [inert|]. apply keeps_seq; [inert|].
  apply ack_message_orderly; [done|apply close_now_orderly].
Qed.

Lemma write_queue_orderly m : keeps ordered (write_queue m).
Proof. apply keeps_look. intros [|]; [by apply emit_orderly|]. apply keeps_seq; [inert|by apply emit_orderly]. Qed.

Lemma keep_orderly m : keeps ordered (keep m).
Proof. apply keeps_seq; [inert|]. apply keeps_seq; [inert|apply write_queue_orderly]. Qed.

(** The end of an acknowledgement. *)
Lemma finish_plain_orderly c r : app_call c = None -> keeps ordered (finish cfg c r).
Proof.
  unfold finish, app_call. destruct (c_then c) as [k| |m| |cause|]; intros H; try done.
  - apply triple_done.
  - destruct r; [apply keep_orderly|by apply emit_orderly].
  - apply close_orderly.
  - apply close_rest_orderly.
  - apply close_now_orderly.
Qed.

Lemma abandon_orderly : triple (fun x => ordered x /\ is_Some (sentMessageToAck (ex x))) (abandon cfg) ordered.
Proof.
  apply triple_seq with ordered; [|apply keeps_look; intros t; apply triple_when, close_now_orderly].
  intros x [Hx Hs]. rewrite run_look. destruct (sentMessageAckFailure (ex x)) as [r|] eqn:Ef; [|by rewrite run_done].
  rewrite run_seq. set (y := run _ x). assert (Hy : ordered y) by (revert Hx; inert).
  assert (Ey : sentMessageAckFailure (ex y) = Some r) by done. assert (Hsy : is_Some (sentMessageToAck (ex y))) by done.
  clearbody y. rewrite !run_seq. pose proof (fail_calm cfg reached requests False y Hy Hsy) as Hc. rewrite Ey in Hc.
  eapply calm_orderly. apply calm_upd; [done|]. apply calm_upd; [done|exact Hc].
Qed.

Lemma retransmit_orderly e s pr : keeps ordered (retransmitMessage cfg e s pr).
Proof.
  intros x Hx. unfold retransmitMessage. rewrite run_look. destruct (same_sent _ _) eqn:Es; cbn [when]; [|by rewrite run_done].
  assert (Hp : is_Some (sentMessageToAck (ex x))) by (destruct (sentMessageToAck (ex x)); [eauto|done]).
  rewrite !run_look. destruct (_ || _).
  - rewrite run_look. destruct (_ && _); [by apply assign_timer_orderly|]. rewrite run_seq. apply abandon_orderly.
    split; [|exact Hp]. revert Hx. inert.
  - generalize (retransmissionCounter (ex x) + 1). intros n. clear Es Hp. revert x Hx.
    change (keeps ordered (upd (set_retransmissionCounter n) ;; upd (set_lastTransmissionAt (Some (now e))) ;;
      emit (Transmit (msg s) (Some n)) ;; push_task (AwaitRetransmit s (backOff e) pr))).
    apply keeps_seq; [inert|]. apply keeps_seq; [inert|]. apply keeps_seq; [by apply emit_orderly|by apply push_plain_orderly].
Qed.

(** The acknowledgement of the pending message settles the call that sent it. *)
Lemma pending_acked_orderly m p :
  triple (fun x => ordered x /\ sentMessageToAck (ex x) = Some p /\ reached (messageId (msg p))) (pending_acked cfg m) ordered.
Proof.
  intros x (Hx & Hp & Hr). unfold pending_acked. rewrite run_seq. set (y := run _ x).
  assert (Hy : ordered y) by (revert Hx; inert). assert (Ey : sentMessageToAck (ex y) = Some p) by done. clearbody y.
  rewrite run_seq. set (z := run _ y). assert (Hz : ordered z) by (revert Hy; inert).
  assert (Ez : sentMessageToAck (ex z) = Some p) by done. clearbody z. clear x Hx Hp y Hy Ey.
  rewrite run_seq, run_look. destruct (resolve_orderly cfg reached requests False (Some m) z Hz) as [_ Hcalm].
  { intros c r (s & Hs & _ & Hin & Ht & Hd & _). rewrite Ez in Hs. injection Hs as <-. by exists (msg p). }
  rewrite Ez in Hcalm. specialize (Hcalm ltac:(eauto)). rewrite !run_seq. eapply calm_orderly.
  apply calm_upd; [done|]. apply calm_upd; [done|]. by apply calm_upd.
Qed.

Lemma accept_orderly m : keeps ordered (accept cfg m).
Proof.
  unfold accept. destruct (isStandaloneAck m); [apply triple_done|]. destruct (requiresAck m); [|apply write_queue_orderly].
  apply keeps_look. intros [old|]; [|apply keep_orderly]. apply keeps_seq; [inert|]. apply ack_message_orderly; [done|apply keep_orderly].
Qed.

(** A message comes in whose acknowledgement, if it has one, the peer sent for
    a message that arrived there. *)
Lemma receive_orderly e m duplicate :
  (forall a, ackedMessageId m = Some a -> reached a) -> keeps ordered (receiveMessage cfg e m duplicate).
Proof.
  intros Ha. apply keeps_look. intros c. destruct (_ && _).
  { apply keeps_seq; [by apply emit_orderly|]. apply ack_message_orderly; [done|apply close_orderly]. }
  unfold onMessageReceived. rewrite (clear_requiresAck_id cfg Hmrp). apply keeps_seq; [inert|]. cbn zeta.
  destruct (_ && _); [by apply emit_orderly|]. destruct duplicate.
  - unfold on_duplicate. apply triple_when, keeps_look. intros [p|].
    + apply keeps_look. intros b. apply keeps_look. intros pr. apply keeps_seq; [apply stop_timer_orderly|].
      apply keeps_seq; [apply retransmit_orderly|]. apply triple_when. apply ack_message_orderly; [done|apply triple_done].
    + apply ack_message_orderly; [done|apply triple_done].
  - apply triple_look. intros [p|]; [|apply (triple_pre _ ordered); [tauto|apply accept_orderly]].
    intros x [Hx Hp]. unfold on_message_pending. case_bool_decide.
    + revert x Hx Hp. intros x Hx _. rewrite !run_seq. apply emit_orderly; [done|]. apply emit_orderly; [done|]. revert Hx. inert.
    + destruct (ackedMessageId m) as [a|] eqn:Ea; [|by apply emit_orderly]. destruct (acked_by m p) eqn:Eb.
      * rewrite run_seq, run_look. assert (Hy : ordered (run (pending_acked cfg m) x)).
        { apply (pending_acked_orderly m p). split_and!; [done|done|]. apply Ha. unfold acked_by in Eb.
          apply bool_decide_eq_true in Eb. by rewrite Ea in Eb. }
        destruct (_ && _); [by apply close_now_orderly|by apply accept_orderly].
      * destruct (isStandaloneAck m); [by apply accept_orderly|by apply emit_orderly].
Qed.

(** *** Sending *)

Lemma send_orderly k o type data :
  mkRequest k o type data ∈ requests ->
  triple (fun x => ordered x /\ Forall plain (tasks (ex x))) (send cfg k o type data) ordered.
Proof.
  intros Hq x [Hx Hi]. unfold run, send. destruct (bool_decide (is_Some (closeCause (ex x)))) eqn:Ec.
  { by apply (emit_orderly reached requests False (Settled k (Throw ClosedError))). }
  set (y := run (upd (fun st => set_retransmissionCounter 0 (set_sendOptions o st))) x).
  assert (Hy : ordered y) by (revert Hx; inert). assert (Hiy : Forall plain (tasks (ex y))) by done.
  change (set_retransmissionCounter 0 (set_sendOptions o (ex x))) with (ex y).
  replace (log x) with (log y) by (unfold y; by rewrite run_upd). replace (sent x) with (sent y) by (unfold y; by rewrite run_upd).
  replace (arrived x) with (arrived y) by (unfold y; by rewrite run_upd).
  assert (Ho : sendOptions (ex y) = o) by done. clearbody y. clear x Hx Hi Ec.
  unfold send_start. rewrite (bool_decide_eq_false_2 (is_Some None)) by (by intros []). cbn [andb throw_if rbind negb].
  rewrite andb_true_r. destruct (bool_decide (is_Some (sentMessageToAck (ex y)))) eqn:Ep; cbn [throw_if rbind].
  { apply (idle_orderly reached requests False). by apply (idle_settled cfg reached requests False k o (Throw MatterFlowError) y). }
  apply bool_decide_eq_false, eq_None_not_Some in Ep. rewrite Hmrp, Ho.
  set (f := fun st => match receivedMessageToAck st with
    | Some m => set_receivedMessageToAck None (set_ackTimer false (set_used true st)) | None => set_used true st end).
  set (z := run (upd f) y). assert (Hz : ordered z).
  { revert Hy. apply inert_orderly. intros st. unfold f. destruct (receivedMessageToAck st) eqn:E; destruct st; done. }
  assert (Ezt : tasks (ex z) = tasks (ex y)) by (unfold z; rewrite run_upd; unfold f; cbn; by destruct (receivedMessageToAck (ex y))).
  assert (Ezp : sentMessageToAck (ex z) = None) by (unfold z; rewrite run_upd; unfold f; cbn; by destruct (receivedMessageToAck (ex y))).
  set (c := mkCall (ThenApp k) o type data false (messageId <$> receivedMessageToAck (ex y)) (negb (suppressAck o) && true && true)).
  assert (Hiz : Forall plain (tasks (ex z))) by (by rewrite Ezt).
  assert (Hfin : ordered (run (push_task (AwaitCounter c)) z)).
  { clearbody z. destruct Hz as [_ Hs Hc]. unfold push_task. rewrite run_upd. constructor; cbn; [|exact Hs|exact Hc].
    apply (Busy _ _ _ _ (tasks (ex z)) (AwaitCounter c) []); cbn; [done|done|done|]. split_and!; [by exists k|done|].
    intros Hr. left. by destruct (suppressAck o). }
  unfold z, push_task in Hfin. rewrite !run_upd in Hfin. unfold f in Hfin. cbn in Hfin. cbn. unfold c in Hfin.
  destruct (receivedMessageToAck (ex y)); cbn in *; rewrite !app_nil_r; exact Hfin.
Qed.

Lemma replace_plain_orderly i t t' :
  plain t -> plain t' -> triple (fun x => ordered x /\ tasks (ex x) !! i = Some t) (replace_task i t') ordered.
Proof.
  intros Ht Ht' x [[Hp Hs Hc] Hi]. unfold replace_task. rewrite run_upd. constructor; cbn; [|exact Hs|exact Hc].
  destruct Hp as [H|l1 t0 l2 E H1 H2 Hb]; [apply Idle; cbn; by apply Forall_insert|].
  rewrite E in Hi |- *. destruct (decide (i < length l1)%nat) as [Hlt|Hge].
  - apply (Busy _ _ _ _ (<[i := t']> l1) t0 l2); cbn; [by rewrite insert_app_l|by apply Forall_insert|done|by apply (busy_same _ _ _ x)].
  - rewrite lookup_app_r in Hi by lia. destruct (i - length l1)%nat as [|j] eqn:Ej; cbn in Hi.
    + injection Hi as ->. by destruct (plain_busy reached requests False x t).
    + apply (Busy _ _ _ _ l1 t0 (<[j := t']> l2)); cbn; [|done|by apply Forall_insert|by apply (busy_same _ _ _ x)].
      rewrite insert_app_r_alt by lia. by rewrite Ej.
Qed.

(** The suspended call moves on. *)
Lemma replace_busy_orderly x l1 t l2 t' :
  (forall k, Settled k (Ok tt) ∈ log x -> justified reached requests False x k) -> (closed (ex x) = true -> Closed ∈ log x) ->
  tasks (ex x) = l1 ++ t :: l2 -> Forall plain l1 -> Forall plain l2 -> busy reached requests False x t' ->
  ordered (run (replace_task (length l1) t') x).
Proof.
  intros Hs Hc E H1 H2 Hb. unfold replace_task. rewrite run_upd. constructor; cbn; [|exact Hs|exact Hc].
  apply (Busy _ _ _ _ l1 t' l2); cbn; [|done|done|by apply (busy_same _ _ _ x)].
  by rewrite E, (insert_app_r_alt _ _ (length l1)), Nat.sub_diag by lia.
Qed.

Lemma counter_ready_orderly e i c id :
  triple (fun x => ordered x /\ tasks (ex x) !! i = Some (AwaitCounter c)) (counter_ready cfg e i c id) ordered.
Proof.
  intros x [Hx Hi]. unfold counter_ready. rewrite run_look. cbn zeta. rewrite run_seq.
  set (r := nextRef (ex x)). set (y := run (upd (set_nextRef (S r))) x).
  assert (Hy : ordered y) by (revert Hx; inert).
  assert (Hiy : tasks (ex y) !! i = Some (AwaitCounter c)) by (unfold y; by rewrite run_upd). clearbody y r. clear x Hx Hi.
  set (t := mkSent r (message_of cfg c id)).
  rewrite run_silent by (intros st; by destruct (tracks cfg c)). rewrite run_seq.
  set (z := run (emit (Transmit (msg t) (Some 0))) y). assert (Hz : ordered z) by (by apply emit_orderly).
  assert (Hm : msg t ∈ sent z) by (unfold z; rewrite run_emit; cbn; apply elem_of_app; right; by apply elem_of_cons; left).
  assert (Hiz : tasks (ex z) !! i = Some (AwaitCounter c)) by done. clearbody z. clear y Hy Hiy. rewrite run_seq.
  destruct (task_cases reached requests False z i _ (or_phase _ _ _ _ Hz) Hiz) as [Hpl|(l1 & l2 & E & -> & H1 & H2 & Hb)].
  - assert (tracks cfg c = false) as -> by (unfold tracks; destruct Hpl as [_ ->]; by rewrite andb_false_r).
    cbn [when]. rewrite run_done. by apply (replace_plain_orderly i (AwaitCounter c)); [done|by destruct Hpl|].
  - destruct Hb as (Hreq & Hpend & Hun). destruct Hz as [_ Hs Hc]. destruct (tracks cfg c) eqn:Et; cbn [when].
    + unfold track, assign_timer. rewrite !run_seq, !run_upd.
      match goal with |- ordered (run _ ?w) => set (w' := w) end.
      apply (replace_busy_orderly w' l1 (AwaitCounter c) l2).
      * exact Hs.
      * unfold w'. cbn. destruct (retransmissionTimer (ex z)) as [old|]; [destruct (running old)|]; exact Hc.
      * unfold w'. cbn. destruct (retransmissionTimer (ex z)) as [old|]; [destruct (running old)|]; exact E.
      * done.
      * done.
      * split; [done|]. exists t. unfold w'. cbn. by destruct (retransmissionTimer (ex z)) as [old|]; [destruct (running old)|].
    + rewrite run_done. apply (replace_busy_orderly z l1 (AwaitCounter c) l2); try done. split; [done|].
      unfold tracks in Et. rewrite Hmrp in Et. cbn in Et. destruct (c_requiresAck c); [|by apply Hun].
      right. by destruct (disableMrpLogic (c_options c)).
Qed.

Lemma channel_done_orderly e i c r tracked response :
  triple (fun x => ordered x /\ tasks (ex x) !! i = Some (AwaitChannel c r tracked response))
    (channel_done cfg e i c r tracked response) ordered.
Proof.
  set (t := AwaitChannel c r tracked response). set (P := fun x => ordered x /\ tasks (ex x) !! i = Some t).
  assert (Hup : forall f, inert f -> keeps P (upd f)).
  { intros f Hf x [Hx Hi]. split; [by apply inert_orderly|]. rewrite run_upd. cbn. destruct (Hf (ex x)) as (_ & _ & _ & -> & _). done. }
  apply triple_seq with P. { apply triple_when, Hup. intros []; cbn; split_and!; eauto. }
  destruct tracked.
  - apply triple_seq with P; [apply Hup; intros []; cbn; split_and!; eauto|].
    apply triple_seq with P; [apply Hup; intros []; cbn; split_and!; eauto|]. intros x [Hx Hi].
    destruct (task_cases reached requests False x i t (or_phase _ _ _ _ Hx) Hi) as [[_ Hpl]|(l1 & l2 & E & -> & H1 & H2 & Hb)]; [done|].
    destruct response as [response|].
    + rewrite run_seq. apply (idle_orderly reached requests False). apply idle_ack_received.
      assert (Hd : idle reached requests False (run (drop_task (length l1)) x)) by (by eapply drop_busy).
      cbn in Hb. destruct response as [m|]; destruct Hb as [Hr Hb]; (split_and!; [done|done|]).
      * right. eapply arrived_grow; [|exact Hb]. intros m' Hm'. by apply run_sent.
      * left. eapply ended_grow; [|exact Hb]. intros. by apply run_log.
    + destruct Hx as [_ Hs Hc]. by apply (replace_busy_orderly x l1 t l2).
  - intros x [Hx Hi]. rewrite run_seq.
    destruct (task_cases reached requests False x i t (or_phase _ _ _ _ Hx) Hi) as [Hpl|(l1 & l2 & E & -> & H1 & H2 & Hb)].
    + apply finish_plain_orderly; [by destruct Hpl|]. by apply (drop_plain_orderly _ _ _ i t).
    + destruct Hb as [(k & Hk & Hq) Hun]. unfold finish. rewrite Hk. apply (idle_orderly reached requests False).
      apply idle_settled. split; [by eapply drop_busy|]. intros _. eexists. split_and!; [exact Hq|done|]. by left.
Qed.

(** A call ends with an error. *)
Lemma failed_orderly i t c err :
  (t = AwaitCounter c \/ exists r tr rs, t = AwaitChannel c r tr rs) ->
  triple (fun x => ordered x /\ tasks (ex x) !! i = Some t) (drop_task i ;; finish cfg c (Throw err)) ordered.
Proof.
  intros Ht x [Hx Hi]. rewrite run_seq.
  destruct (task_cases reached requests False x i t (or_phase _ _ _ _ Hx) Hi) as [Hpl|(l1 & l2 & E & -> & H1 & H2 & Hb)].
  - apply finish_plain_orderly; [|by apply (drop_plain_orderly _ _ _ i t)]. destruct Ht as [->|(r & tr & rs & ->)]; apply Hpl.
  - assert (exists k, c_then c = ThenApp k) as [k Hk].
    { destruct Ht as [->|(r & tr & rs & ->)]; cbn in Hb; [|destruct tr, rs as [[m|]|]]; destruct Hb as [(k & Hk & _) _]; eauto. }
    unfold finish. rewrite Hk. apply (idle_orderly reached requests False). apply idle_settled. split; [by eapply drop_busy|done].
Qed.

Lemma at_task_orderly i k :
  (forall t, triple (fun x => ordered x /\ tasks (ex x) !! i = Some t) (k t) ordered) -> keeps ordered (at_task i k).
Proof. intros H. apply triple_look. intros [t|]; [apply H|]. apply (triple_pre _ ordered); [tauto|apply triple_done]. Qed.

Lemma skip_orderly (R : End -> Prop) : triple (fun x => ordered x /\ R x) done ordered.
Proof. intros x [Hx _]. by rewrite run_done. Qed.

Lemma resume_channel_orderly e i t r :
  triple (fun x => ordered x /\ tasks (ex x) !! i = Some t) (resume_channel cfg e i t r) ordered.
Proof.
  destruct t as [c|c n tr rs|c n|s b pr]; cbn [resume_channel]; try (by destruct r; apply (skip_orderly (fun x => _))).
  - destruct r as [u|err]; [apply channel_done_orderly|]. apply failed_orderly. right. eauto.
  - assert (Hi : triple (fun x => ordered x /\ tasks (ex x) !! i = Some (AwaitRetransmit s b pr))
      (drop_task i ;; initializeResubmission s b pr) ordered).
    { apply triple_seq with ordered; [by apply drop_plain_orderly|]. apply keeps_look. intros p. apply triple_when, assign_timer_orderly. }
    destruct r as [u|err]; [exact Hi|]. destruct err; try exact Hi.
    apply triple_seq with ordered; [by apply drop_plain_orderly|apply close_now_orderly].
Qed.

Lemma step_orderly e ev :
  match ev with EReceive _ _ | ESend _ _ _ _ | EAbort _ => True | _ => keeps ordered (step cfg e ev) end.
Proof.
  destruct ev as [k o type data|i|i r|i r|m d| | |i| |cause| |]; try exact I; cbn [step].
  - apply at_task_orderly. intros [c|c n tr rs|c n|s b pr]; destruct r as [id|err]; cbn [resume_counter];
      try apply (skip_orderly (fun x => _)); [apply counter_ready_orderly|apply failed_orderly; by left].
  - apply at_task_orderly. intros t. apply resume_channel_orderly.
  - apply keeps_look. intros b. apply triple_when. apply keeps_seq; [inert|]. apply keeps_look. intros [m|]; [|apply triple_done].
    apply keeps_seq; [inert|]. apply ack_message_orderly; [done|apply triple_done].
  - apply keeps_look. intros [t|]; [|apply triple_done]. apply triple_when, keeps_seq; [apply stop_timer_orderly|apply retransmit_orderly].
  - apply keeps_look. intros [t|]; [|apply triple_done]. apply keeps_seq; [inert|apply retransmit_orderly].
  - apply keeps_look. intros t. apply triple_when, keeps_seq; [inert|apply close_now_orderly].
  - apply close_orderly.
  - apply destroy_orderly.
  - inert.
Qed.

End Steps.
