(* ===== verification/ExchangeReliable.v ===== *)
(** * Reliable messaging between the two ends of an exchange

    Two exchanges of a secure session and a network that loses, repeats and
    reorders messages.  The session below each end tells duplicates apart with
    the 32-message window of [MessageReceptionState] (NodeSession.ts creates it
    without rollover, at counter 0), which it shares with the other exchanges of
    the session, and hands out counters that are fresh. *)

From stdpp Require Import list gmap.
From S2P Require Import Prelude MessageReception Exchange ExchangeLink ExchangeCalls.

Local Open Scope act_scope.

(** ** The session *)

(** The reception state of a session, with the counters it has accepted. *)
Record Session := mkSession {
  reception : MessageReceptionState;
  accepted : list Z;
}.

Definition newSession : Session := mkSession (new EncryptedWithoutRollover (Some 0)) [].

(** [Session.updateMessageCounter]. *)
Definition counted (c : Z) (s : Session) : result Session :=
  match updateMessageCounter EncryptedWithoutRollover (reception s) c with
  | Ok st => Ok (mkSession st (accepted s ++ [c]))
  | Throw e => Throw e
  end.

(** The session has accepted a counter more than a window ahead. *)
Definition overtaken (s : Session) (c : Z) : Prop :=
  exists c', c' ∈ accepted s /\ c + MSG_COUNTER_WINDOW_SIZE < c'.

Definition session_ok (s : Session) : Prop :=
  exists w, represents (reception s) w /\ 0 <= w_max w < 2 ^ 32 /\ w_floor w = Some 0 /\
    forall c, c ∈ w_seen w <-> c = 0 \/ c ∈ accepted s.

Lemma newSession_ok : session_ok newSession.
Proof.
  exists (w_init EncryptedWithoutRollover 0). split_and!; [apply init_represents; [by left|lia]|cbn; lia|cbn; lia|done|].
  intros c. cbn. rewrite elem_of_singleton, elem_of_nil. tauto.
Qed.

(** A counter is accepted exactly when it was not accepted before and has not
    been overtaken. *)
Lemma counted_spec s c :
  session_ok s -> 0 < c < 2 ^ 32 ->
  match counted c s with
  | Ok s' => session_ok s' /\ accepted s' = accepted s ++ [c] /\ ~ (c ∈ accepted s \/ overtaken s c)
  | Throw e => e = DuplicateMessageError /\ (c ∈ accepted s \/ overtaken s c)
  end.
Proof.
  intros (w & Hrep & Hm & Hf & Hseen) Hc. unfold counted.
  pose proof (update_refines _ (reception s) w c kind_ok_without Hrep ltac:(lia)) as H. cbn zeta in H.
  rewrite (without_rollover_diff _ _ _ Hrep) in H. unfold same_cycle in H. rewrite Z.div_small, Z.mul_0_l, Z.add_0_l in H by lia.
  pose proof Hrep as (_ & _ & Hmax & Hle & _).
  destruct (updateMessageCounter _ _ _) as [st|e].
  - destruct H as [Hn Hrep']. split_and!; [|done|intros [Ha|(c' & Ha & Hlt)]].
    + exists (w_accept w c). split_and!; [done|cbn; lia..|done|]. intros d. cbn.
      rewrite elem_of_union, elem_of_singleton, elem_of_app, list_elem_of_singleton, Hseen. tauto.
    + apply (w_new_fresh _ _ _ Hrep Hn), Hseen. by right.
    + assert (c' <= w_max w) by (apply Hle, Hseen; by right). unfold w_new in Hn.
      destruct (Z.ltb_spec (w_max w) c); [unfold MSG_COUNTER_WINDOW_SIZE in *; lia|].
      destruct (Z.leb_spec (w_max w - MSG_COUNTER_WINDOW_SIZE) c); [lia|done].
  - destruct H as [-> Hn]. split; [done|]. unfold w_new, w_known in Hn. rewrite Hf in Hn.
    destruct (Z.ltb_spec (w_max w) c); [done|]. destruct (Z.leb_spec (w_max w - MSG_COUNTER_WINDOW_SIZE) c).
    + destruct (Z.ltb_spec c 0); [lia|]. rewrite orb_false_r in Hn. cbn in Hn. apply negb_false_iff, bool_decide_eq_true in Hn.
      apply Hseen in Hn as [?|?]; [lia|by left].
    + right. exists (w_max w). split; [|lia]. apply Hseen in Hmax as [?|?]; [|done]. unfold MSG_COUNTER_WINDOW_SIZE in *. lia.
Qed.

(** ** The network *)

(** The number of the application's call a task belongs to. *)
Definition task_call (t : Task) : option nat :=
  match t with AwaitCounter c | AwaitChannel c _ _ _ | AwaitAck c _ => app_call c | AwaitRetransmit _ _ _ => None end.

(** A message that reaches the end, for the first time or again. *)
Definition here_before (m : Message) (x : End) : bool := bool_decide (messageId m ∈ messageId <$> arrived x).

Definition arrive (m : Message) (x : End) : End :=
  if here_before m x then x else mkEnd (ex x) (log x) (sent x) (arrived x ++ [m]).

(** One end: the calls its application has made, its session, the counters the
    session used for other exchanges, and the messages that reached the end only
    when the session's window had moved past them. *)
Record Side := mkSide {
  point : End;
  calls : list Request;
  session : Session;
  others : list Z;
  stale : list Message;
}.

Definition set_point (x : End) (s : Side) : Side := mkSide x (calls s) (session s) (others s) (stale s).

(** A counter the session has not used. *)
Definition unused (s : Side) (id : Z) : Prop := 0 < id < 2 ^ 32 /\ ~ has_id (sent (point s)) id /\ id ∉ others s.

(** Events of an end that come neither from its peer nor from its application's
    calls. *)
Definition local (s : Side) (ev : Event) : Prop :=
  match ev with
  | ESend _ _ _ _ | EReceive _ _ | EAbort _ => False
  | ECounter _ (Ok id) => unused s id
  | _ => True
  end.

Definition occurs (cfg : Config) (e : Env) (ev : Event) (s : Side) : Side :=
  set_point (run (step cfg e ev) (point s)) s.
Definition sends (cfg : Config) (e : Env) (k : nat) (o : Options) (type : Z) (data : list Z) (s : Side) : Side :=
  mkSide (run (step cfg e (ESend k o type data)) (point s)) (calls s ++ [mkRequest k o type data])
    (session s) (others s) (stale s).

(** The session's counter is updated before the exchange sees the message; only
    [DuplicateMessageError] is caught. *)
Definition receives (cfg : Config) (e : Env) (m : Message) (s : Side) : Side :=
  match counted (messageId m) (session s) with
  | Ok ss =>
      mkSide (run (step cfg e (EReceive m false)) (arrive m (point s))) (calls s) ss (others s) (stale s)
  | Throw DuplicateMessageError =>
      mkSide (run (step cfg e (EReceive m true)) (arrive m (point s))) (calls s) (session s) (others s)
        (if here_before m (point s) then stale s else m :: stale s)
  | Throw _ => s
  end.

(** The session serves another exchange. *)
Definition uses (id : Z) (s : Side) : Side :=
  mkSide (point s) (calls s) (session s) (others s ++ [id]) (stale s).
Definition overhears (c : Z) (s : Side) : Side :=
  mkSide (point s) (calls s) (match counted c (session s) with Ok ss => ss | Throw _ => session s end) (others s) (stale s).

(** With [awaits] the application waits for each of its calls and aborts none. *)
Inductive move (awaits : bool) (cfg : Config) (peer : Side) (s : Side) : Side -> Prop :=
| MLocal e ev : local s ev -> move awaits cfg peer s (occurs cfg e ev s)
| MSend e k o type data :
    (awaits = true -> Forall (fun t => task_call t = None) (tasks (ex (point s)))) -> k ∉ rq_call <$> calls s ->
    move awaits cfg peer s (sends cfg e k o type data s)
| MAbort e i : awaits = false -> move awaits cfg peer s (occurs cfg e (EAbort i) s)
| MReceive e m :
    m ∈ sent (point peer) -> closed (ex (point s)) = false -> move awaits cfg peer s (receives cfg e m s)
| MOther id : unused s id -> move awaits cfg peer s (uses id s)
| MOverhear c : c ∈ others peer -> move awaits cfg peer s (overhears c s).

Inductive link_step (awaits : bool) (a b : Config) : Side * Side -> Side * Side -> Prop :=
| LinkLeft x x' y : move awaits a y x x' -> link_step awaits a b (x, y) (x', y)
| LinkRight x y y' : move awaits b x y y' -> link_step awaits a b (x, y) (x, y').

Definition fresh_side (cfg : Config) : Side := mkSide (mkEnd (newExchange cfg) [] [] []) [] newSession [] [].

Definition reachable (awaits : bool) (a b : Config) (x y : Side) : Prop :=
  rtc (link_step awaits a b) (fresh_side a, fresh_side b) (x, y).

(** ** What an end transmits *)

Section Transmits.

Context (cfg : Config) (Hmrp : usesMrp cfg = true) (L : list Message).

Definition within (x : End) : Prop := forall m, m ∈ sent x -> m ∈ L.

Lemma upd_within f : keeps within (upd f).
Proof. intros x Hx. by rewrite run_upd. Qed.

Lemma emit_within o : transmit_of o = None -> keeps within (emit o).
Proof. intros Ho x Hx. rewrite run_emit. intros m. cbn. rewrite Ho, app_nil_r. apply Hx. Qed.

Lemma transmit_within m n : m ∈ L -> keeps within (emit (Transmit m n)).
Proof. intros Hm x Hx m'. rewrite run_emit. cbn. rewrite elem_of_app, list_elem_of_singleton. intros [?| ->]; [by apply Hx|done]. Qed.

Lemma if_within (f : Exchange -> bool) (a b : Act) :
  keeps within a -> keeps within b -> keeps within (fun st => if f st then a st else b st).
Proof. intros Ha Hb. apply triple_if; (apply (triple_pre _ within); [tauto|done]). Qed.

Lemma ack_message_within m after rest : keeps within rest -> keeps within (ack_message cfg m after rest).
Proof.
  intros Hr x Hx. unfold run, ack_message. destruct (_ && _); [|by apply Hr].
  destruct (send_start _ _ _ _ _ _) as [st|err]; [|by apply Hr]. intros m'. cbn. rewrite app_nil_r. apply Hx.
Qed.

Ltac head_of t := lazymatch t with ?f _ => head_of f | _ => t end.

(** Walks through an action that transmits nothing. *)
Ltac within :=
  repeat lazymatch goal with
  | |- triple _ done _ => apply triple_done
  | |- triple _ (upd _) _ => apply upd_within
  | |- triple _ (emit (Transmit _ _)) _ => apply transmit_within
  | |- triple _ (emit _) _ => apply emit_within; reflexivity
  | |- triple _ (_ ;; _) _ => apply keeps_seq
  | |- triple _ (ack_message _ _ _ _) _ => apply ack_message_within
  | |- triple _ (when _ _) _ => apply triple_when
  | |- triple _ (look _ _) _ => apply keeps_look; intros ?
  | |- triple _ (match ?t with _ => _ end) _ => destruct t
  | |- triple _ ?a _ => solve [auto with within] || (let h := head_of a in unfold h)
  end.

(** The same for the action just run. *)
Ltac within_run :=
  lazymatch goal with H : within ?x |- within (run ?a ?x) => generalize x H; change (keeps within a); within end.

Create HintDb within.
Hint Extern 1 (triple _ _ _) => assumption : within.


Lemma close_rest_within cause : keeps within (close_rest cfg cause).
Proof. within. Qed.
Hint Resolve close_rest_within : within.

Lemma close_within cause : keeps within (close cfg cause).
Proof. apply if_within; [apply triple_done|apply if_within; [|apply if_within; within]]. apply triple_when. within. Qed.
Hint Resolve close_within : within.

Lemma finish_within c r : keeps within (finish cfg c r).
Proof. within. Qed.
Hint Resolve finish_within : within.

Lemma app_done_within k o r : keeps within (app_done cfg k o r).
Proof. within. Qed.

Lemma send_within k o type data : keeps within (send cfg k o type data).
Proof.
  unfold send. apply if_within; [by apply (emit_within (Settled k (Throw ClosedError)))|]. intros x Hx. unfold run.
  destruct (send_start _ _ _ _ _ _) as [st|err]; [intros m; cbn; rewrite app_nil_r; apply Hx|].
  by apply (app_done_within k o (Throw err) (mkEnd _ (log x) (sent x) (arrived x))).
Qed.

Lemma retransmit_within e t pr : msg t ∈ L -> keeps within (retransmitMessage cfg e t pr).
Proof. intros Ht. within. done. Qed.

Lemma kick_target_pending e m st p : kick_target cfg e m st = Some p -> sentMessageToAck st = Some p.
Proof. unfold kick_target. repeat case_match; congruence. Qed.

Lemma accept_within m : keeps within (accept cfg m).
Proof. within. Qed.
Hint Resolve accept_within retransmit_within : within.

Lemma receive_within e m duplicate :
  triple (fun x => within x /\ forall p, sentMessageToAck (ex x) = Some p -> msg p ∈ L) (receiveMessage cfg e m duplicate) within.
Proof.
  apply triple_look. intros c. destruct (_ && _); [apply (triple_pre _ within); [by intros ? [[] _]|within]|].
  intros x [[Hx Hp] _]. unfold onMessageReceived. rewrite run_seq. set (y := run _ x).
  assert (Hy : within y) by (by apply upd_within).
  assert (Hpy : forall p, sentMessageToAck (ex y) = Some p -> msg p ∈ L) by (unfold y; by rewrite run_upd). clearbody y.
  destruct (_ && _); [within_run|]. destruct duplicate.
  - unfold on_duplicate. destruct (requiresAck _); cbn [when]; [|by rewrite run_done]. rewrite run_look.
    destruct (kick_target _ _ _ _) as [p|] eqn:Ek; [|by apply ack_message_within; [apply triple_done|]].
    apply kick_target_pending, Hpy in Ek. within_run.
  - rewrite run_look. destruct (sentMessageToAck (ex y)) as [p|] eqn:Ep; [|by apply accept_within].
    specialize (Hpy p eq_refl). within_run; done.
Qed.

Hint Resolve send_within app_done_within : within.

Lemma step_within e ev :
  triple (fun x => within x /\ content x /\ (forall m, m ∈ sent x -> m ∈ L) /\ match ev with ECounter _ (Ok _) => False | _ => True end)
    (step cfg e ev) within.
Proof.
  intros x (Hx & C & HL & Hev). destruct ev as [k o type data|i|i r|i r|m d| | |i| |cause| |]; cbn [step]; try solve [within_run].
  - destruct r as [id|err]; [done|]. within_run.
  - apply receive_within. split; [done|]. intros p Hp. by apply HL, (ct_pending _ C).
  - rewrite run_look. destruct (retransmissionTimer (ex x)) as [t|] eqn:Et; [|by rewrite run_done].
    assert (msg (timer_for t) ∈ L) by (by apply HL, (ct_timer _ C)). within_run.
  - rewrite run_look. destruct (strayTimers (ex x) !! i) as [t|] eqn:Et; [|by rewrite run_done].
    assert (msg (timer_for t) ∈ L) by (apply HL; exact (proj1 (Forall_lookup _ _) (ct_stray _ C) _ _ Et)). within_run.
Qed.

End Transmits.

(** Only a counter brings a new message. *)
Lemma step_transmits cfg e ev x m :
  content x -> m ∈ sent (run (step cfg e ev) x) ->
  m ∈ sent x \/ exists i id c, ev = ECounter i (Ok id) /\ tasks (ex x) !! i = Some (AwaitCounter c) /\ m = message_of cfg c id.
Proof.
  intros C Hm. assert (Decision (match ev with ECounter _ (Ok _) => False | _ => True end)) by (repeat case_match; apply _).
  destruct (decide (match ev with ECounter _ (Ok _) => False | _ => True end)) as [Hev|Hev].
  { left. apply (step_within cfg (sent x) e ev x); [|done]. split_and!; [by intros ?|done|done|done]. }
  destruct ev as [| |i [id|]| | | | | | | | |]; try done. cbn [step] in Hm. unfold at_task in Hm. rewrite run_look in Hm.
  destruct (tasks (ex x) !! i) as [[c|c n tr rs|c n|t b pr]|] eqn:Hi; cbn [resume_counter] in Hm; try (rewrite run_done in Hm; by left).
  unfold counter_ready in Hm. rewrite run_look in Hm. cbn zeta in Hm. rewrite run_seq, run_silent, !run_seq in Hm
    by (intros st; by destruct (tracks cfg c)).
  assert (Hin : m ∈ sent x \/ m = message_of cfg c id).
  { destruct (tracks cfg c); cbn [when] in Hm; unfold track, assign_timer, replace_task in Hm;
      rewrite ?run_seq, ?run_done, ?run_upd, ?run_emit in Hm; cbn in Hm; apply elem_of_app in Hm as [?|?%list_elem_of_singleton]; auto. }
  destruct Hin as [?| ->]; [by left|]. right. by exists i, id, c.
Qed.

(** ** The invariant of the link *)

Definition distinct (l : list Message) : Prop := forall m m', m ∈ l -> m' ∈ l -> messageId m = messageId m' -> m = m'.

Record joined (awaits : bool) (x y : Side) : Prop := {
  jo_sound : sound (stale x) (point x);
  jo_calls : awaits = true -> orderly (has_id (arrived (point y))) (calls x) False (point x);
  jo_distinct : distinct (sent (point x));
  jo_arrived : forall m, m ∈ arrived (point x) -> m ∈ sent (point y);
  jo_once : NoDup (messageId <$> arrived (point x));
  jo_requests : NoDup (rq_call <$> calls x);
  jo_session : session_ok (session x);
  jo_known : forall m, m ∈ arrived (point x) -> messageId m ∈ accepted (session x) \/ m ∈ stale x;
  jo_stale : forall m, m ∈ stale x -> overtaken (session x) (messageId m);
  jo_accepted : forall c, c ∈ accepted (session x) -> has_id (arrived (point x)) c \/ c ∈ others y;
  jo_range : forall m, m ∈ sent (point x) -> 0 < messageId m < 2 ^ 32;
  jo_apart : forall c, c ∈ others x -> 0 < c < 2 ^ 32 /\ ~ has_id (sent (point x)) c;
}.

Lemma orderly_mono (R R' : Z -> Prop) q q' x :
  (forall a, R a -> R' a) -> (forall r, r ∈ q -> r ∈ q') -> orderly R q False x -> orderly R' q' False x.
Proof.
  intros HR Hq [Hp Hs Hc].
  assert (Ha : forall ty d, arrived_at_peer R x ty d -> arrived_at_peer R' x ty d) by (intros ty d (m & ? & ? & ? & ?); exists m; auto).
  assert (Hr : forall c, requested q c -> requested q' c) by (intros c (k & ? & ?); exists k; auto).
  constructor; [|intros k Hk|done].
  - destruct Hp as [H|l1 t l2 E H1 H2 Hb]; [by apply Idle|]. apply (Busy _ _ _ _ l1 t l2); [done..|].
    destruct t as [c|c r [|] [[m|]|]|c r|s b pr]; cbn in *; destruct_and?; split_and?; auto.
  - destruct (Hs k Hk) as (r & Hrq & Hrk & H). exists r. split_and!; [auto|done|]. destruct H as [?|[?|?]]; auto.
Qed.

Lemma serial_plain R q x : orderly R q False x -> Forall (fun t => task_call t = None) (tasks (ex x)) -> Forall plain (tasks (ex x)).
Proof.
  intros [[H|l1 t l2 E H1 H2 Hb] _ _] Hs; [done|]. rewrite E in Hs. apply Forall_app in Hs as [_ Hs]. inversion Hs as [|? ? Ht].
  assert (Hr : forall c, app_call c = None -> requested q c -> False).
  { intros c Hc (k & Hk & _). unfold app_call in Hc. by rewrite Hk in Hc. }
  destruct t as [c|c r [|] [[m|]|]|c r|s b pr]; cbn in *; destruct_and?; by try destruct (Hr c).
Qed.

(** The message is here for the first time: its place is still owed. *)
Lemma arrive_sound m l x : sound l x -> sound (m :: l) (mkEnd (ex x) (log x) (sent x) (arrived x ++ [m])).
Proof.
  intros [C [H1 H2]]. assert (Hh : forall a, has_id (arrived x) a -> has_id (arrived x ++ [m]) a).
  { intros a (m' & ? & ?). exists m'. split; [apply elem_of_app; by left|done]. }
  split; constructor; cbn.
  - intros m' Hm. apply elem_of_app. left. by apply (ct_received _ C).
  - apply (ct_pending _ C).
  - apply (ct_timer _ C).
  - apply (ct_stray _ C).
  - eapply Forall_impl; [apply (ct_tasks _ C)|]. assert (Hc : forall c, call_ok x c -> call_ok (mkEnd (ex x) (log x) (sent x) (arrived x ++ [m])) c).
    { intros c (Ha & Hb & Hc). split_and!; cbn; [auto| |done]. intros m' Hm'. apply elem_of_app. left. by apply Hb. }
    intros [c|c r tr rs|c r|t b pr] Ht; cbn in *; [auto| |done|done]. destruct Ht. split; [auto|done].
  - intros m' a Hm Ha. by apply Hh, (ct_acks _ C m').
  - unfold delivered, kept in *. cbn. rewrite (Permutation_app_comm (arrived x)). cbn. etransitivity; [|by apply submseteq_skip].
    apply Permutation_submseteq. symmetry. rewrite !(assoc_L (++)). apply Permutation_middle.
  - intros m' [Hm|Hm%list_elem_of_singleton]%elem_of_app; [|subst; set_solver]. unfold fates, kept in *. cbn.
    destruct (H2 m' Hm) as [?|[?|[?|?]]]; set_solver.
Qed.

Lemma overtaken_mono s s' c : (forall d, d ∈ accepted s -> d ∈ accepted s') -> overtaken s c -> overtaken s' c.
Proof. intros H (c' & Hc & Hl). exists c'. auto. Qed.

(** A step that brings no message of its own. *)
Lemma distinct_step cfg e ev x :
  content x -> (forall i id, ev <> ECounter i (Ok id)) -> distinct (sent x) -> distinct (sent (run (step cfg e ev) x)).
Proof.
  intros C He Hd m1 m2 H1 H2. apply step_transmits in H1 as [H1|(i & id & ? & E & _)]; [|by destruct (He i id)|done].
  apply step_transmits in H2 as [H2|(i & id & ? & E & _)]; [|by destruct (He i id)|done]. by apply Hd.
Qed.

Lemma old_messages cfg e ev x m :
  content x -> (forall i id, ev <> ECounter i (Ok id)) -> m ∈ sent (run (step cfg e ev) x) -> m ∈ sent x.
Proof. intros C He [H|(i & id & ? & E & _)]%step_transmits; [done|by destruct (He i id)|done]. Qed.

Lemma old_ids cfg e ev x c :
  content x -> (forall i id, ev <> ECounter i (Ok id)) -> has_id (sent (run (step cfg e ev) x)) c -> has_id (sent x) c.
Proof. intros C He (m & Hm & E). exists m. split; [by eapply old_messages|done]. Qed.

(** What a message that comes in finds: it is new to the session exactly when it
    has not been here, and otherwise it was here or has been overtaken. *)
Lemma counted_joined awaits x y m :
  joined awaits x y -> joined awaits y x -> m ∈ sent (point y) ->
  match counted (messageId m) (session x) with
  | Ok ss => here_before m (point x) = false /\ session_ok ss /\ accepted ss = accepted (session x) ++ [messageId m]
  | Throw e => e = DuplicateMessageError /\ (here_before m (point x) = false -> overtaken (session x) (messageId m))
  end.
Proof.
  intros Hx Hy Hm. pose proof (counted_spec (session x) (messageId m) (jo_session _ _ _ Hx) (jo_range _ _ _ Hy m Hm)) as H.
  destruct (counted _ _) as [ss|e].
  - destruct H as (Hok & Ea & Hn). split_and!; [|done..]. apply bool_decide_eq_false. intros (m' & E & Hm')%list_elem_of_fmap.
    apply Hn. rewrite E.
    destruct (jo_known _ _ _ Hx m' Hm'); [by left|right; by apply (jo_stale _ _ _ Hx)].
  - destruct H as [-> H]. split; [done|]. intros Hh%bool_decide_eq_false. destruct H as [H|H]; [|done].
    destruct (jo_accepted _ _ _ Hx _ H) as [(m' & Hm' & E)|Ho]; exfalso.
    + apply Hh. rewrite <- E. by apply list_elem_of_fmap_2.
    + destruct (jo_apart _ _ _ Hy _ Ho) as [_ Hno]. apply Hno. by exists m.
Qed.

Lemma arrive_elem m m' x : m' ∈ arrived (arrive m x) -> m' ∈ arrived x \/ m' = m.
Proof. unfold arrive. destruct (here_before m x); [by left|]. cbn. rewrite elem_of_app, list_elem_of_singleton. tauto. Qed.

Lemma arrive_keeps m m' x : m' ∈ arrived x -> m' ∈ arrived (arrive m x).
Proof. unfold arrive. destruct (here_before m x); [done|]. cbn. rewrite elem_of_app. by left. Qed.

Lemma arrive_here m x : has_id (arrived (arrive m x)) (messageId m).
Proof.
  unfold arrive, here_before. case_bool_decide as H.
  - apply list_elem_of_fmap in H as (m' & E & Hm'). by exists m'.
  - exists m. split; [|done]. cbn. rewrite elem_of_app, list_elem_of_singleton. by right.
Qed.

Lemma arrive_once m x : NoDup (messageId <$> arrived x) -> NoDup (messageId <$> arrived (arrive m x)).
Proof.
  intros Hn. unfold arrive, here_before. case_bool_decide as H; [done|]. cbn. rewrite fmap_app. cbn. apply NoDup_app.
  split_and!; [done| |apply NoDup_singleton]. intros a H1 H2%list_elem_of_singleton. by subst.
Qed.

Lemma arrive_same m x : ex (arrive m x) = ex x /\ log (arrive m x) = log x /\ sent (arrive m x) = sent x.
Proof. unfold arrive. by destruct (here_before m x). Qed.

Lemma arrive_orderly m x R q : orderly R q False x -> orderly R q False (arrive m x).
Proof.
  unfold arrive. destruct (here_before m x); [done|]. intros [Hp Hse Hc]. constructor; [|done|done]. by apply (phase_same _ _ _ x).
Qed.

Lemma receive_joined awaits cfg e m x y :
  usesMrp cfg = true -> joined awaits x y -> joined awaits y x -> m ∈ sent (point y) -> joined awaits (receives cfg e m x) y.
Proof.
  intros Hmrp Hx Hy Hm. pose proof (counted_joined _ _ _ _ Hx Hy Hm) as Hcount. unfold receives.
  assert (Hack : forall a, ackedMessageId m = Some a -> has_id (arrived (point y)) a).
  { intros a. by apply (ct_acks _ (proj1 (jo_sound _ _ _ Hy))). }
  assert (Hord : forall d, awaits = true -> orderly (has_id (arrived (point y))) (calls x) False
      (run (receiveMessage cfg e m d) (arrive m (point x)))).
  { intros d Ha. apply (receive_orderly cfg Hmrp _ _ e m d Hack), arrive_orderly. by apply (jo_calls _ _ _ Hx). }
  destruct (arrive_same m (point x)) as (_ & _ & Es). pose proof Hx as [Hs Ho Hd Ha Hn Hr Hse Hk Hst Hac Hra Hap].
  assert (Hpre : forall (d : bool) (l : list Message), (if d then sound l (arrive m (point x)) else sound (m :: l) (arrive m (point x))) ->
    sound l (run (receiveMessage cfg e m d) (arrive m (point x))) /\ content (arrive m (point x))).
  { intros d l H. split; [apply receive_sound; [done|]; destruct d; [split; [done|apply arrive_here]|done]|]. by destruct d; apply H. }
  assert (Hnew : forall i id d, EReceive m d <> ECounter i (Ok id)) by done.
  destruct (counted (messageId m) (session x)) as [ss|err].
  - destruct Hcount as (Hh & Hok & Eacc). destruct (Hpre false (stale x)) as [H1 C].
    { unfold arrive. rewrite Hh. by apply arrive_sound. }
    assert (Hgrow : forall c, c ∈ accepted (session x) -> c ∈ accepted ss) by (intros c; rewrite Eacc, elem_of_app; by left).
    constructor; cbn [point calls session others stale]; rewrite ?run_arrived; try done.
    + by apply Hord.
    + apply (distinct_step cfg e (EReceive m false)); [done..|by rewrite Es].
    + intros m' [?| ->]%arrive_elem; [by apply Ha|done].
    + by apply arrive_once.
    + intros m' [Hm'| ->]%arrive_elem; [|left; rewrite Eacc, elem_of_app, list_elem_of_singleton; by right].
      destruct (Hk m' Hm') as [?|?]; [left; auto|by right].
    + intros m' Hm'. by eapply overtaken_mono; [|apply Hst].
    + rewrite Eacc. intros c [Hc| ->%list_elem_of_singleton]%elem_of_app; [|left; apply arrive_here].
      destruct (Hac c Hc) as [(m' & ? & ?)|?]; [left; exists m'; split; [by apply arrive_keeps|done]|by right].
    + intros m' Hm'. apply (old_messages cfg e (EReceive m false)) in Hm'; [|done..]. rewrite Es in Hm'. by apply Hra.
    + intros c Hc. destruct (Hap c Hc) as [? Hno]. split; [done|]. intros Hid. apply (old_ids cfg e (EReceive m false)) in Hid; [|done..].
      by rewrite Es in Hid.
  - destruct Hcount as [-> Hover]. set (l := if here_before m (point x) then stale x else m :: stale x).
    destruct (Hpre true l) as [H1 C].
    { unfold arrive, l. destruct (here_before m (point x)); [done|by apply arrive_sound]. }
    constructor; cbn [point calls session others stale]; rewrite ?run_arrived; try done.
    + by apply Hord.
    + apply (distinct_step cfg e (EReceive m true)); [done..|by rewrite Es].
    + intros m' [?| ->]%arrive_elem; [by apply Ha|done].
    + by apply arrive_once.
    + unfold arrive, l. destruct (here_before m (point x)); [done|]. cbn. intros m' [Hm'| ->%list_elem_of_singleton]%elem_of_app.
      * destruct (Hk m' Hm'); [by left|right; apply elem_of_cons; by right].
      * right. apply elem_of_cons. by left.
    + unfold l. destruct (here_before m (point x)); [done|]. intros m' [->|?]%elem_of_cons; auto.
    + intros c Hc. destruct (Hac c Hc) as [(m' & ? & ?)|?]; [left; exists m'; split; [by apply arrive_keeps|done]|by right].
    + intros m' Hm'. apply (old_messages cfg e (EReceive m true)) in Hm'; [|done..]. rewrite Es in Hm'. by apply Hra.
    + intros c Hc. destruct (Hap c Hc) as [? Hno]. split; [done|]. intros Hid. apply (old_ids cfg e (EReceive m true)) in Hid; [|done..].
      by rewrite Es in Hid.
Qed.

(** A counter that the session has not used brings at most one message. *)
Lemma counter_sent cfg e ev (s : Side) m :
  content (point s) -> local s ev -> m ∈ sent (run (step cfg e ev) (point s)) -> m ∈ sent (point s) \/ unused s (messageId m).
Proof. intros C Hl [?|(i & id & c & -> & _ & ->)]%step_transmits; [by left|by right|done]. Qed.

Lemma local_distinct cfg e ev s :
  content (point s) -> local s ev -> distinct (sent (point s)) -> distinct (sent (run (step cfg e ev) (point s))).
Proof.
  intros C Hl Hd m1 m2 H1 H2 E. apply step_transmits in H1 as [H1|(i & id & c & -> & Hi & E1)]; [..|done].
  - apply step_transmits in H2 as [H2|(i & id & c & -> & Hi & ->)]; [by apply Hd| |done]. destruct Hl as (_ & [] & _). by exists m1.
  - apply step_transmits in H2 as [H2|(i' & id' & c' & [= <- <-] & Hi' & ->)]; [| |done].
    + destruct Hl as (_ & [] & _). exists m2. split; [done|]. by rewrite <- E, E1.
    + rewrite Hi in Hi'. injection Hi' as <-. done.
Qed.

Lemma local_joined awaits cfg e ev x y :
  usesMrp cfg = true -> joined awaits x y -> local x ev -> joined awaits (occurs cfg e ev x) y.
Proof.
  intros Hmrp [Hs Ho Hd Ha Hn Hr Hse Hk Hst Hac Hra Hap] Hl. pose proof (step_sound cfg Hmrp e ev (stale x)) as Hsound.
  pose proof (step_orderly cfg Hmrp (has_id (arrived (point y))) (calls x) e ev) as Hord. pose proof (proj1 Hs) as C.
  constructor; cbn [point calls session others stale occurs set_point]; rewrite ?run_arrived; try done.
  - destruct ev; try done; by apply Hsound.
  - intros Haw. destruct ev; try done; by apply Hord, Ho.
  - by apply local_distinct.
  - intros m [?|[? _]]%(counter_sent cfg e ev x); [by apply Hra|done..].
  - intros c Hc. destruct (Hap c Hc) as [? Hno]. split; [done|]. intros (m & Hm & <-).
    apply (counter_sent cfg e ev x) in Hm as [Hm|(_ & _ & Hm)]; [|done..]. apply Hno. by exists m.
Qed.

Lemma abort_joined awaits cfg e i x y :
  usesMrp cfg = true -> joined awaits x y -> awaits = false -> joined awaits (occurs cfg e (EAbort i) x) y.
Proof.
  intros Hmrp [Hs Ho Hd Ha Hn Hr Hse Hk Hst Hac Hra Hap] ->. pose proof (proj1 Hs) as C.
  constructor; cbn [point calls session others stale occurs set_point]; rewrite ?run_arrived; try done.
  - by apply (step_sound cfg Hmrp e (EAbort i)).
  - by apply distinct_step.
  - intros m Hm%old_messages; [by apply Hra|done..].
  - intros c Hc. destruct (Hap c Hc) as [? Hno]. split; [done|]. intros ?%old_ids; done.
Qed.

Lemma send_joined awaits cfg e k o type data x y :
  usesMrp cfg = true -> joined awaits x y -> (awaits = true -> Forall (fun t => task_call t = None) (tasks (ex (point x)))) ->
  k ∉ rq_call <$> calls x -> joined awaits (sends cfg e k o type data x) y.
Proof.
  intros Hmrp [Hs Ho Hd Ha Hn Hr Hse Hk Hst Hac Hra Hap] Hi Hf. pose proof (proj1 Hs) as C.
  constructor; cbn [point calls session others stale sends]; rewrite ?run_arrived; try done.
  - by apply send_sound.
  - intros Haw. apply send_orderly; [done|apply elem_of_app; right; by apply elem_of_cons; left|]. split; [|by eapply serial_plain; auto].
    eapply orderly_mono; [..|by apply Ho]; [done|]. intros. apply elem_of_app. by left.
  - by apply distinct_step.
  - rewrite fmap_app. cbn. apply NoDup_app. split_and!; [done| |apply NoDup_singleton].
    intros a H1 H2%list_elem_of_singleton. by subst.
  - intros m Hm%old_messages; [by apply Hra|done..].
  - intros c Hc. destruct (Hap c Hc) as [? Hno]. split; [done|]. intros ?%old_ids; done.
Qed.

Lemma uses_joined awaits id x y : joined awaits x y -> unused x id -> joined awaits (uses id x) y.
Proof.
  intros [Hs Ho Hd Ha Hn Hr Hse Hk Hst Hac Hra Hap] (Hi & Hu & _). constructor; cbn [point calls session others stale uses]; try done.
  intros c [?| ->%list_elem_of_singleton]%elem_of_app; [by apply Hap|done].
Qed.

Lemma overhears_joined awaits c x y : joined awaits x y -> joined awaits y x -> c ∈ others y -> joined awaits (overhears c x) y.
Proof.
  intros Hx Hy Hc. pose proof (counted_spec (session x) c (jo_session _ _ _ Hx) (proj1 (jo_apart _ _ _ Hy c Hc))) as H.
  unfold overhears. destruct (counted c (session x)) as [ss|]; [|by destruct x]. destruct H as (Hok & Eacc & _).
  destruct Hx as [Hs Ho Hd Ha Hn Hr Hse Hk Hst Hac Hra Hap].
  assert (Hgrow : forall d, d ∈ accepted (session x) -> d ∈ accepted ss) by (intros d; rewrite Eacc, elem_of_app; by left).
  constructor; cbn [point calls session others stale]; try done.
  - intros m Hm. destruct (Hk m Hm) as [?|?]; [left; auto|by right].
  - intros m Hm. by eapply overtaken_mono; [|apply Hst].
  - rewrite Eacc. intros d [?| ->%list_elem_of_singleton]%elem_of_app; [by apply Hac|by right].
Qed.

Lemma move_joined awaits cfg x x' y :
  usesMrp cfg = true -> joined awaits x y -> joined awaits y x -> move awaits cfg y x x' -> joined awaits x' y.
Proof.
  intros Hmrp Hx Hy [];
    [by apply local_joined|by apply send_joined|by apply abort_joined|by apply receive_joined|by apply uses_joined|by apply overhears_joined].
Qed.

(** What a side has sent, received and used stays so; what it takes for other
    exchanges is not among what it has sent. *)
Definition grows (x x' : Side) : Prop :=
  (forall m, m ∈ sent (point x) -> m ∈ sent (point x')) /\ (forall m, m ∈ arrived (point x) -> m ∈ arrived (point x')) /\
  (forall c, c ∈ others x -> c ∈ others x').

Lemma move_grows awaits cfg x x' y : move awaits cfg y x x' -> grows x x'.
Proof.
  intros [| | |e m| |]; split_and!; cbn [point others occurs set_point sends uses overhears]; rewrite ?run_arrived; try done;
    try (intros; by apply run_sent); try (intros; apply elem_of_app; by left);
    unfold receives; intros m' Hm'; destruct (arrive_same m (point x)) as (_ & _ & Es);
    destruct (counted _ _) as [|[]]; cbn [point others]; try done;
    try (apply run_sent; by rewrite Es); rewrite run_arrived; by apply arrive_keeps.
Qed.

Lemma peer_joined awaits x x' y : grows x x' -> joined awaits y x -> joined awaits y x'.
Proof.
  intros (Hgs & Hga & Hgo) [Hs Ho Hd Ha Hn Hr Hse Hk Hst Hac Hra Hap]. constructor; try done.
  - intros Haw. eapply orderly_mono; [..|by apply Ho]; [|done]. intros a (m & ? & ?). exists m. split; [by apply Hga|done].
  - intros m Hm. by apply Hgs, Ha.
  - intros c Hc. destruct (Hac c Hc); [by left|right; by apply Hgo].
Qed.

Lemma fresh_joined awaits cfg y : joined awaits (fresh_side cfg) y.
Proof.
  constructor; cbn; try (by intros ? ?%not_elem_of_nil); try apply NoDup_nil_2; try apply newSession_ok.
  - split; constructor; cbn; try done; by intros ? *; intros ?%not_elem_of_nil.
  - intros _. constructor; cbn; [by apply Idle|intros ? ?%not_elem_of_nil; done|done].
  - intros ? ? ?%not_elem_of_nil. done.
Qed.

Section Link.

Context (awaits : bool) (a b : Config) (Ha : usesMrp a = true) (Hb : usesMrp b = true).

Lemma reachable_joined x y : reachable awaits a b x y -> joined awaits x y /\ joined awaits y x.
Proof.
  unfold reachable. intros H. remember (x, y) as xy eqn:E. revert x y E.
  pattern xy. revert xy H. apply rtc_ind_r; [intros ? ? [= <- <-]; split; apply fresh_joined|].
  intros [x y] xy' _ Hstep IH x' y' ->. destruct (IH x y eq_refl) as [Hx Hy]. inversion Hstep as [? ? ? Hm|? ? ? Hm]; subst.
  - split; [eapply move_joined; [exact Ha|exact Hx|exact Hy|exact Hm]|]. eapply peer_joined; [by eapply move_grows|exact Hy].
  - split; [|eapply move_joined; [exact Hb|exact Hy|exact Hx|exact Hm]]. eapply peer_joined; [by eapply move_grows|exact Hx].
Qed.

(** C4: However the applications of the two ends overlap and abort their calls,
    the application of an end is handed each message at most once, and only
    messages that its peer transmitted and whose counter its session's window
    accepted. *)
Theorem delivered_at_most_once x y :
  reachable awaits a b x y ->
  NoDup (messageId <$> delivered (point y)) /\
  forall m, m ∈ delivered (point y) -> m ∈ sent (point x) /\ messageId m ∈ accepted (session y).
Proof.
  intros [_ [[_ [H _]] _ _ Har Hn _ _ Hk _ _ _ _]]%reachable_joined. pose proof Hn as Hn'.
  apply submseteq_Permutation in H as [l E]. rewrite E, !fmap_app in Hn'. apply NoDup_app in Hn' as [(Hd & Hno & _)%NoDup_app _].
  split; [done|]. intros m Hm. assert (Hm' : m ∈ arrived (point y)) by (rewrite E; do 2 (apply elem_of_app; left); done).
  split; [by apply Har|]. destruct (Hk m Hm') as [?|Hs]; [done|]. destruct (Hno (messageId m)); [by apply list_elem_of_fmap_2|].
  apply elem_of_app. right. by apply list_elem_of_fmap_2.
Qed.

(** C14: Every acknowledgement an end transmits is for a message that its peer
    transmitted and that arrived. *)
Theorem acks_truthful x y m id :
  reachable awaits a b x y -> m ∈ sent (point y) -> ackedMessageId m = Some id ->
  exists m', m' ∈ arrived (point y) /\ m' ∈ sent (point x) /\ messageId m' = id.
Proof.
  intros [_ Hy]%reachable_joined Hm Hi. destruct (ct_acks _ (proj1 (jo_sound _ _ _ Hy)) m id Hm Hi) as (m' & Hm' & E).
  exists m'. split_and!; [done|by apply (jo_arrived _ _ _ Hy)|done].
Qed.

End Link.


(** ** A run *)

Definition demo_a : Config := mkConfig true true 1 false.
Definition demo_b : Config := mkConfig false true 1 false.
Definition demo_env : Env := mkEnv 0 400 5000 300 4000 0.

Definition a1 : Side := sends demo_a demo_env 0 no_options 2 [7] (fresh_side demo_a).
Definition a2 : Side := occurs demo_a demo_env (ECounter 0 (Ok 100)) a1.
Definition a3 : Side := occurs demo_a demo_env (EChannel 0 (Ok tt)) a2.
Definition question : Message := mkMessage 100 1 2 true true None [7].
Definition b1 : Side := receives demo_b demo_env question (fresh_side demo_b).
Definition b2 : Side := occurs demo_b demo_env EAckTimer b1.
Definition b3 : Side := occurs demo_b demo_env (ECounter 0 (Ok 500)) b2.
Definition ack : Message := mkMessage 500 0 16 false false (Some 100) [].
Definition a4 : Side := receives demo_a demo_env ack a3.
Definition b4 : Side := receives demo_b demo_env question b3.

(** A step to the given state, and the moves of a run with the states evaluated. *)
Ltac to_left x y := apply (rtc_l _ _ (x, y)); [apply LinkLeft|].
Ltac to_right x y := apply (rtc_l _ _ (x, y)); [apply LinkRight|].
Ltac unlisted := intros Hk; vm_compute in Hk; repeat (apply elem_of_cons in Hk as [[=]|Hk]); by apply not_elem_of_nil in Hk.
Ltac fresh_counter :=
  split_and!; [done|done| |unlisted];
  intros (m & Hm & E); vm_compute in Hm;
  repeat (apply elem_of_cons in Hm as [->|Hm]; [vm_compute in E; discriminate E|]); by apply not_elem_of_nil in Hm.
Ltac counted_as n id := apply (MLocal _ _ _ _ _ (ECounter n (Ok id))); fresh_counter.
Ltac listed := vm_compute; repeat (first [left|right]).
Ltac received := apply MReceive; [listed|vm_compute; reflexivity].
Ltac called := apply MSend; [intros _; vm_compute; constructor|unlisted].
Ltac happened := apply MLocal; exact I.

Lemma demo_reachable : reachable true demo_a demo_b a4 b4.
Proof.
  unfold reachable.
  to_left a1 (fresh_side demo_b); [called|]. to_left a2 (fresh_side demo_b); [counted_as 0%nat 100|].
  to_left a3 (fresh_side demo_b); [happened|]. to_right a3 b1; [received|].
  to_right a3 b2; [happened|]. to_right a3 b3; [counted_as 0%nat 500|].
  to_left a4 b3; [received|]. to_right a4 b4; [received|]. apply rtc_refl.
Qed.

Lemma delivered_at_most_once_witness :
  delivered (point b4) = [question] /\ NoDup (messageId <$> delivered (point b4)).
Proof. split; [reflexivity|]. exact (proj1 (delivered_at_most_once true demo_a demo_b eq_refl eq_refl a4 b4 demo_reachable)). Defined.


Lemma acks_truthful_witness :
  exists m', m' ∈ arrived (point b4) /\ m' ∈ sent (point a4) /\ messageId m' = 100.
Proof. apply (acks_truthful true demo_a demo_b eq_refl eq_refl a4 b4 ack 100 demo_reachable); [vm_compute; left|reflexivity]. Defined.

(** A message that the network holds back while the session accepts a counter 34
    ahead, of another exchange: it is acknowledged and not handed on. *)
Definition late_b : Side := receives demo_b demo_env question (overhears 134 (fresh_side demo_b)).

Example overtaken_message_acknowledged :
  question ∈ stale late_b /\ delivered (point late_b) = [] /\
  tasks (ex (point late_b)) = [AwaitCounter (mkCall ThenNothing no_options 16 [] true (Some 100) false)].
Proof. vm_compute. split_and!; [left|reflexivity..]. Qed.
