(* ===== verification/ExchangeCases.v ===== *)
(** * Runs of an exchange

    What the caller of [send] sees when the peer never answers, and runs in
    which the guarantees of the link stop short of delivery. *)

From stdpp Require Import list gmap.
From S2P Require Import Prelude Exchange ExchangeLink ExchangeCalls ExchangeReliable.

(** Events one after the other, with what is observed. *)
Fixpoint play (cfg : Config) (evs : list (Env * Event)) (st : Exchange) : Exchange * list Out :=
  match evs with
  | [] => (st, [])
  | (e, ev) :: evs =>
      let '(st, o) := step cfg e ev st in
      let '(st, os) := play cfg evs st in (st, o ++ os)
  end.

Lemma play_app cfg xs ys st :
  play cfg (xs ++ ys) st =
  let '(st1, o1) := play cfg xs st in let '(st2, o2) := play cfg ys st1 in (st2, o1 ++ o2).
Proof.
  revert st. induction xs as [|[e ev] xs IH]; intros st; cbn; [by destruct (play cfg ys st)|].
  destruct (step cfg e ev st) as [st1 o1]. rewrite IH. destruct (play cfg xs st1) as [st2 o2].
  destruct (play cfg ys st2). by rewrite app_assoc.
Qed.

(** ** A peer that never answers *)

Section Silence.

Context (cfg : Config) (k : nat) (o : Options) (type : Z) (data : list Z) (id : Z).

Definition silent_call : Call := mkCall (ThenApp k) o type data false None true.
Definition silent_sent : Sent := mkSent 0 (message_of cfg silent_call id).

(** The call waits after [n] retransmissions. *)
Record waits (n : Z) (st : Exchange) : Prop := {
  wt_tasks : tasks st = [AwaitAck silent_call 0];
  wt_pending : sentMessageToAck st = Some silent_sent;
  wt_failure : sentMessageAckFailure st = Some 0%nat;
  wt_options : sendOptions st = o;
  wt_counter : retransmissionCounter st = n;
  wt_open : closed st = false /\ closing st = false /\ closeTimer st = None;
  wt_heard : messageReceivedCounter st = 0;
  wt_timer : exists i, retransmissionTimer st = Some (mkTimer true i silent_sent (Some (processing_time o)));
}.

Definition start (e : Env) : list (Env * Event) := [(e, ESend k o type data); (e, ECounter 0 (Ok id)); (e, EChannel 0 (Ok tt))].

End Silence.

Lemma start_waits cfg k o type data id e :
  usesMrp cfg = true -> suppressAck o = false -> disableMrpLogic o = false ->
  exists st, play cfg (start k o type data id e) (newExchange cfg) =
      (st, [Transmit (msg (silent_sent cfg k o type data id)) (Some 0)]) /\
    waits cfg k o type data id 0 st.
Proof.
  intros Hmrp Hack Hlogic. exists (fst (play cfg (start k o type data id e) (newExchange cfg))).
  destruct cfg as [ini mrp proto spl], o as [ea ep su di mx sp], e. cbn in Hmrp, Hack, Hlogic. subst.
  split; [|constructor; try (vm_compute; reflexivity)].
  - apply injective_projections; vm_compute; reflexivity.
  - vm_compute. auto.
  - eexists. vm_compute. reflexivity.
Qed.

(** A retransmission, and the end of the last wait. *)
Lemma retransmits cfg e s pr st :
  same_sent s (sentMessageToAck st) = true -> considerClosed cfg st = false ->
  (transmissions (sendOptions st) <=? retransmissionCounter st + 1) = false ->
  retransmitMessage cfg e s pr st =
  (set_tasks (tasks st ++ [AwaitRetransmit s (backOff e) pr])
     (set_lastTransmissionAt (Some (now e)) (set_retransmissionCounter (retransmissionCounter st + 1) st)),
   [Transmit (msg s) (Some (retransmissionCounter st + 1))]).
Proof. intros H1 H2 H3. unfold retransmitMessage, look. rewrite H1. cbn [when]. by rewrite H2, H3. Qed.

Lemma gives_up cfg e s pr st :
  same_sent s (sentMessageToAck st) = true -> considerClosed cfg st = false ->
  (transmissions (sendOptions st) <=? retransmissionCounter st + 1) = true ->
  retransmitMessage cfg e s pr st =
  if negb (default 0 pr =? 0) && (0 <? finalWaitTime e st) then assign_timer (mkTimer true (finalWaitTime e st) s None) st
  else abandon cfg (set_retransmissionCounter (retransmissionCounter st + 1) st).
Proof.
  intros H1 H2 H3. unfold retransmitMessage, look. rewrite H1. cbn [when]. rewrite H2, H3. cbn [orb negb]. rewrite andb_true_r.
  destruct (_ && _); [done|]. unfold andThen, upd. by destruct (abandon _ _).
Qed.

Section Rounds.

Context (cfg : Config) (k : nat) (o : Options) (type : Z) (data : list Z) (id : Z).

Let s := silent_sent cfg k o type data id.

Lemma round_waits e e' n st :
  waits cfg k o type data id n st -> n + 1 < transmissions o ->
  exists st', play cfg [(e, ETimer); (e', EChannel 1 (Ok tt))] st = (st', [Transmit (msg s) (Some (n + 1))]) /\
    waits cfg k o type data id (n + 1) st'.
Proof.
  intros [Ht Hp Hf Ho Hc (H1 & H2 & H3) Hh [i Hi]] Hn. fold s in Hp, Hi. cbn [play step].
  unfold look at 1. rewrite Hi. cbn [when running]. unfold andThen, stop_timer, upd, fire. cbn [timer_for timer_processing].
  rewrite retransmits; [|by cbn; rewrite Hp|by unfold considerClosed; cbn; rewrite H1, H2, andb_false_r|cbn; rewrite Ho, Hc; lia].
  destruct st. cbn in *. subst. cbn -[transmissions processing_time]. eexists. split; [reflexivity|]. constructor; cbn; eauto.
Qed.

End Rounds.

(** The give-up settles the call. *)
Lemma abandon_settles cfg c k st :
  tasks st = [AwaitAck c 0] -> c_then c = ThenApp k -> sentMessageAckFailure st = Some 0%nat -> closeTimer st = None ->
  exists st', abandon cfg st =
      (st', (if reportsPeerLoss cfg (c_options c) st then [PeerLost] else []) ++ [Settled k (Throw PeerUnresponsiveError)]) /\
    tasks st' = [] /\ retransmissionTimer st' = stopped <$> retransmissionTimer st.
Proof.
  intros Ht Hk Hf Hc. unfold abandon, andThen, look at 1. rewrite Hf. unfold upd at 1. unfold fail, look at 1.
  unfold task_of. cbn [tasks set_receivedMessageToAck]. rewrite Ht.
  cbn [list_find waits_for]. rewrite decide_True by (by apply bool_decide_eq_true). rewrite Hk.
  unfold andThen, drop_task, stop_timer, upd, app_done, look, when.
  assert (reportsPeerLoss cfg (c_options c)
    (set_retransmissionTimer (stopped <$> retransmissionTimer (set_tasks (delete 0%nat (tasks (set_receivedMessageToAck None st))) (set_receivedMessageToAck None st)))
       (set_tasks (delete 0%nat (tasks (set_receivedMessageToAck None st))) (set_receivedMessageToAck None st))) = reportsPeerLoss cfg (c_options c) st) as -> by done.
  unfold peer_loss. rewrite andb_true_r. destruct (reportsPeerLoss cfg (c_options c) st); destruct st; cbn in *; subst; cbn;
    eexists; split_and!; reflexivity.
Qed.

Section Silent.

Context (cfg : Config) (k : nat) (o : Options) (type : Z) (data : list Z) (id : Z).

Let s := silent_sent cfg k o type data id.

Definition round (es : Env * Env) : list (Env * Event) := [(fst es, ETimer); (snd es, EChannel 1 (Ok tt))].

Lemma rounds_wait rounds n st :
  waits cfg k o type data id (Z.of_nat n) st -> Z.of_nat (n + length rounds) < transmissions o ->
  exists st', play cfg (rounds ≫= round) st = (st', (fun i => Transmit (msg s) (Some (Z.of_nat i))) <$> seq (S n) (length rounds)) /\
    waits cfg k o type data id (Z.of_nat (n + length rounds)) st'.
Proof.
  revert n st. induction rounds as [|[e e'] rounds IH]; intros n st Hw Hn; cbn [length] in *.
  { exists st. rewrite Nat.add_0_r. done. }
  destruct (round_waits cfg k o type data id e e' _ _ Hw ltac:(lia)) as (st1 & E1 & Hw1).
  replace (Z.of_nat n + 1) with (Z.of_nat (S n)) in * by lia. destruct (IH (S n) st1 Hw1 ltac:(lia)) as (st2 & E2 & Hw2).
  exists st2. split; [|by rewrite Nat.add_succ_r].
  change (((e, e') :: rounds) ≫= round) with (round (e, e') ++ (rounds ≫= round)). rewrite play_app.
  unfold round at 1. cbn [fst snd]. rewrite E1, E2. done.
Qed.

(** The last wait of an exchange that has used up its transmissions. *)
Lemma last_waits e1 e2 n st :
  waits cfg k o type data id n st -> transmissions o <= n + 1 -> exists st',
    play cfg [(e1, ETimer); (e2, ETimer)] st =
      (st', (if reportsPeerLoss cfg o (newExchange cfg) then [PeerLost] else []) ++ [Settled k (Throw PeerUnresponsiveError)]) /\
    tasks st' = [].
Proof.
  intros [Ht Hp Hf Ho Hc (H1 & H2 & H3) Hh [i Hi]] Hn. fold s in Hp, Hi.
  assert (Hrep : forall st', messageReceivedCounter st' = 0 -> reportsPeerLoss cfg o st' = reportsPeerLoss cfg o (newExchange cfg)).
  { intros st' E. unfold reportsPeerLoss. by rewrite E. }
  set (c := silent_call k o type data). assert (Hk : c_then c = ThenApp k) by done.
  cbn [play step]. unfold look at 1. rewrite Hi. cbn [when running]. unfold andThen, stop_timer, upd, fire. cbn [timer_for timer_processing].
  rewrite gives_up; [|by cbn; rewrite Hp|by unfold considerClosed; cbn; rewrite H1, H2, andb_false_r|cbn; rewrite Ho, Hc; lia].
  destruct (_ && _).
  - set (w := finalWaitTime e1 _). unfold assign_timer, upd. cbn [retransmissionTimer set_retransmissionTimer]. rewrite Hi. cbn [fmap option_fmap option_map stopped running].
    unfold look at 1. cbn [retransmissionTimer set_retransmissionTimer when running timer_for timer_processing].
    rewrite gives_up; [|by cbn; rewrite Hp|by unfold considerClosed; cbn; rewrite H1, H2, andb_false_r|cbn; rewrite Ho, Hc; lia].
    cbn [default negb andb Z.eqb]. match goal with |- context [abandon cfg ?z] => destruct (abandon_settles cfg c k z) as (st' & -> & Et & _) end; [done..|].
    exists st'. change (c_options c) with o. rewrite Hrep by exact Hh. cbn [app]. by rewrite app_nil_r.
  - match goal with |- context [abandon cfg ?z] => destruct (abandon_settles cfg c k z) as (st' & -> & Et & Etm) end; [done..|].
    unfold look. rewrite Etm. cbn [retransmissionTimer set_retransmissionTimer set_retransmissionCounter]. rewrite Hi. cbn.
    exists st'. change (c_options c) with o. rewrite Hrep by exact Hh. cbn [app]. by rewrite !app_nil_r.
Qed.

End Silent.

(** C15: A peer that never answers: the message is transmitted exactly as often as
    the options allow, numbered from 0, then the call fails with
    PeerUnresponsiveError, the peer is reported as lost unless that is
    suppressed, and nothing stays suspended. *)
Theorem unanswered_send_fails cfg k o type data id e rounds e1 e2 :
  usesMrp cfg = true -> suppressAck o = false -> disableMrpLogic o = false ->
  transmissions o = Z.of_nat (S (length rounds)) ->
  exists st, play cfg (start k o type data id e ++ (rounds ≫= round) ++ [(e1, ETimer); (e2, ETimer)]) (newExchange cfg) =
    (st, ((fun i => Transmit (msg (silent_sent cfg k o type data id)) (Some (Z.of_nat i))) <$> seq 0 (S (length rounds))) ++
         (if reportsPeerLoss cfg o (newExchange cfg) then [PeerLost] else []) ++ [Settled k (Throw PeerUnresponsiveError)]) /\
    tasks st = [].
Proof.
  intros Hmrp Hack Hlogic Ht. destruct (start_waits cfg k o type data id e Hmrp Hack Hlogic) as (st0 & E0 & H0).
  destruct (rounds_wait cfg k o type data id rounds 0 st0 H0 ltac:(lia)) as (st1 & E1 & H1).
  destruct (last_waits cfg k o type data id e1 e2 _ st1 H1 ltac:(lia)) as (st2 & E2 & H2).
  exists st2. split; [|done]. rewrite play_app, E0, play_app, E1, E2. done.
Qed.

Lemma unanswered_send_fails_witness :
  exists st, play demo_a (start 0 no_options 2 [7] 100 demo_env ++ (replicate 4 (demo_env, demo_env) ≫= round) ++
      [(demo_env, ETimer); (demo_env, ETimer)]) (newExchange demo_a) =
    (st, ((fun i => Transmit question (Some (Z.of_nat i))) <$> [0; 1; 2; 3; 4]%nat) ++
         [PeerLost; Settled 0 (Throw PeerUnresponsiveError)]) /\
    tasks st = [].
Proof. exact (unanswered_send_fails demo_a 0 no_options 2 [7] 100 demo_env (replicate 4 (demo_env, demo_env)) demo_env demo_env eq_refl eq_refl eq_refl eq_refl). Defined.

(** ** Runs that stop short of delivery *)

(** The acknowledgement an end sends on its own. *)
Definition ack_for (cfg : Config) (id acked : Z) : Message :=
  mkMessage id SECURE_CHANNEL_PROTOCOL_ID StandaloneAck (isInitiator cfg) false (Some acked) [].


(** A message of the peer is answered by an acknowledgement that gets lost. *)
Module LostAck.

Definition tick := demo_env.
Definition reply : Message := mkMessage 500 1 3 false true (Some 100) [8].
Definition second : Message := mkMessage 102 1 2 true true None [9].
Definition second_ack : Message := mkMessage 501 0 16 false false (Some 102) [].

Definition y1 : Side := sends demo_b tick 0 no_options 3 [8] b1.
Definition y2 : Side := occurs demo_b tick (ECounter 0 (Ok 500)) y1.
Definition y3 : Side := occurs demo_b tick (EChannel 0 (Ok tt)) y2.
Definition x1 : Side := receives demo_a tick reply a3.
Definition x2 : Side := occurs demo_a tick EAckTimer x1.
Definition x3 : Side := occurs demo_a tick (ECounter 0 (Ok 101)) x2.
Definition x4 : Side := occurs demo_a tick (EChannel 0 (Ok tt)) x3.
Definition x5 : Side := sends demo_a tick 1 no_options 2 [9] x4.
Definition x6 : Side := occurs demo_a tick (ECounter 0 (Ok 102)) x5.
Definition x7 : Side := occurs demo_a tick (EChannel 0 (Ok tt)) x6.
Definition y4 : Side := receives demo_b tick second y3.
Definition y5 : Side := receives demo_b tick second y4.
Definition y6 : Side := occurs demo_b tick (ECounter 1 (Ok 501)) y5.
Definition x8 : Side := receives demo_a tick second_ack x7.

Lemma lost_ack_reachable : reachable true demo_a demo_b x8 y6.
Proof.
  unfold reachable.
  to_left a1 (fresh_side demo_b); [called|]. to_left a2 (fresh_side demo_b); [counted_as 0%nat 100|].
  to_left a3 (fresh_side demo_b); [happened|]. to_right a3 b1; [received|].
  to_right a3 y1; [called|]. to_right a3 y2; [counted_as 0%nat 500|]. to_right a3 y3; [happened|].
  to_left x1 y3; [received|]. to_left x2 y3; [happened|]. to_left x3 y3; [counted_as 0%nat 101|]. to_left x4 y3; [happened|].
  to_left x5 y3; [called|]. to_left x6 y3; [counted_as 0%nat 102|]. to_left x7 y3; [happened|].
  to_right x7 y4; [received|]. to_right x7 y5; [received|]. to_right x7 y6; [counted_as 1%nat 501|].
  to_left x8 y6; [received|]. apply rtc_refl.
Qed.

(** The lost acknowledgement of a reply costs the next message: the peer
    refuses it, then acknowledges its repetition, and [send] returns. *)
Example confirmed_but_refused : exists x y,
  reachable true demo_a demo_b x y /\ Settled 1 (Ok tt) ∈ log (point x) /\ mkRequest 1 no_options 2 [9] ∈ calls x /\
  (Closed ∉ log (point x)) /\ (Closed ∉ log (point y)) /\
  Refuse second MatterFlowError ∈ log (point y) /\ payload second = [9] /\
  forall m, m ∈ delivered (point y) -> payload m <> [9].
Proof.
  exists x8, y6. split; [exact lost_ack_reachable|].
  assert (Hno : forall l, Forall (fun out => match out with Closed => False | _ => True end) l -> Closed ∉ l).
  { intros l Hl Hc. exact (proj1 (Forall_forall _ _) Hl _ Hc). }
  split_and!; [listed|listed|apply Hno; vm_compute; repeat constructor..|listed|reflexivity|].
  intros m Hm. vm_compute in Hm. apply list_elem_of_singleton in Hm as ->. discriminate.
Qed.

End LostAck.


Definition settled_of (os : list Out) : list (nat * result unit) :=
  omap (fun o => match o with Settled k r => Some (k, r) | _ => None end) os.

Definition at_env (evs : list Event) : list (Env * Event) := (fun ev => (demo_env, ev)) <$> evs.

Definition ack_of (own acked : Z) : Message := mkMessage own 0 16 false false (Some acked) [].

(** Two calls that both pass the check for an unacknowledged message before
    either has its counter. *)
Definition two_calls : list Event :=
  [ESend 0 no_options 2 [1]; ESend 1 no_options 2 [2]; ECounter 0 (Ok 100); ECounter 1 (Ok 101);
   EChannel 0 (Ok tt); EChannel 1 (Ok tt); EReceive (ack_of 500 100) false; EReceive (ack_of 501 101) false;
   EClose None; EDestroy].

(** Both messages are acknowledged and the exchange is closed; the first call
    is still suspended, and nothing refers to it any more. *)
Theorem concurrent_sends_hang :
  let '(st, os) := play demo_a (at_env two_calls) (newExchange demo_a) in
  settled_of os = [(1%nat, Ok tt)] /\ closed st = true /\
  tasks st = [AwaitAck (mkCall (ThenApp 0) no_options 2 [1] false None true) 0] /\
  sentMessageAckSuccess st = None /\ sentMessageAckFailure st = None /\ sentMessageToAck st = None.
Proof. vm_compute. split_and!; reflexivity. Qed.

(** A send the exchange refuses still resets the pending message's retransmissions. *)
Definition lasting : Options := mkOptions false None false false (Some 100) false.

Theorem refused_send_extends :
  let before := [ESend 0 no_options 2 [1]; ECounter 0 (Ok 100); EChannel 0 (Ok tt);
    ETimer; EChannel 1 (Ok tt); ETimer; EChannel 1 (Ok tt); ETimer; EChannel 1 (Ok tt); ETimer; EChannel 1 (Ok tt)] in
  let '(st, _) := play demo_a (at_env before) (newExchange demo_a) in
  let '(st', os) := play demo_a (at_env [ESend 1 lasting 2 [2]]) st in
  retransmissionCounter st = 4 /\ transmissions (sendOptions st) = 5 /\
  settled_of os = [(1%nat, Throw MatterFlowError)] /\ sentMessageToAck st' = sentMessageToAck st /\
  retransmissionCounter st' = 0 /\ transmissions (sendOptions st') = 100.
Proof. vm_compute. split_and!; reflexivity. Qed.

(** After the channel refuses a message the exchange refuses every other one. *)
Theorem channel_failure_blocks :
  let '(st, os) := play demo_a (at_env [ESend 0 no_options 2 [1]; ECounter 0 (Ok 100); EChannel 0 (Throw NetworkError)]) (newExchange demo_a) in
  settled_of os = [(0%nat, Throw NetworkError)] /\ tasks st = [] /\ running <$> retransmissionTimer st = Some false /\
  closed st = false /\
  forall e k o type data, settled_of (snd (step demo_a e (ESend k o type data) st)) = [(k, Throw MatterFlowError)].
Proof. vm_compute. split_and!; try reflexivity. intros e k o type data. by destruct o as [? ? ? ? ? []]. Qed.
