(* ===== verification/BigEndian.v ===== *)
(** * Big-endian readers and writers

    What the reads and writes of a big-endian [DataReader] and [DataWriter] do
    with the bytes in front of them: shared by the DER and the DNS codecs. *)

From stdpp Require Import list.
From S2P Require Import Prelude DataIO Text.

(** ** Reading *)

Definition at_be (pre post : list Z) : Reader.DataReader := Reader.mkReader false (pre ++ post) (byteLength pre).

Definition reads_be {A} (m : Reader.read A) (img : list Z) (v : A) : Prop :=
  forall pre post, m (at_be pre (img ++ post)) = Ok (v, at_be (pre ++ img) post).

Lemma advance_be pre mid post :
  Reader.getOffsetAndAdvance (byteLength mid) (at_be pre (mid ++ post)) = Ok (byteLength pre, at_be (pre ++ mid) post).
Proof.
  unfold Reader.getOffsetAndAdvance, at_be, byteLength. cbn. rewrite !length_app.
  destruct (Z.ltb_spec (Z.of_nat (length mid)) 0); [lia|].
  destruct (Z.ltb_spec (Z.of_nat (length pre + (length mid + length post))) (Z.of_nat (length pre) + Z.of_nat (length mid))); [lia|].
  by rewrite <- app_assoc, Nat2Z.inj_add.
Qed.

Lemma reads_be_bind {A B} (m : Reader.read A) (k : A -> Reader.read B) i j a b :
  reads_be m i a -> reads_be (k a) j b -> reads_be (Reader.bind m k) (i ++ j) b.
Proof.
  intros Hm Hk pre post. unfold Reader.bind. rewrite <- app_assoc, Hm. cbn. rewrite Hk. by rewrite app_assoc.
Qed.

Lemma reads_be_ret {A} (a : A) : reads_be (Reader.ret a) [] a.
Proof. intros pre post. cbn. by rewrite app_nil_r. Qed.

Lemma reads_be_bytes bs n : n = byteLength bs -> reads_be (Reader.readByteArray n) bs bs.
Proof.
  intros -> pre post. unfold Reader.readByteArray. rewrite advance_be. cbn [rbind]. do 2 f_equal.
  unfold at_be; cbn [Reader.buffer]. by apply Reader.subarray_at.
Qed.

Lemma reads_be_byte b : reads_be Reader.readUInt8 [b] b.
Proof.
  intros pre post. unfold Reader.readUInt8, Reader.readUnsigned. rewrite (advance_be pre [b] post : _ (Z.of_nat 1) _ = _). cbn [rbind].
  do 2 f_equal. unfold at_be; cbn [Reader.buffer Reader.littleEndian view_value]. change (Z.of_nat 1) with (byteLength [b]).
  rewrite (Reader.subarray_at pre [b] post) by done. cbn. lia.
Qed.

Lemma view_be_bytes n v : 0 <= v < 2 ^ (8 * Z.of_nat n) -> view_value false (view_bytes false n v) = v.
Proof. intros H. rewrite view_value_bytes. by apply Z.mod_small. Qed.

Lemma reads_be_unsigned n v : 0 <= v < 2 ^ (8 * Z.of_nat n) -> reads_be (Reader.readUnsigned n) (view_bytes false n v) v.
Proof.
  intros H pre post. unfold Reader.readUnsigned. rewrite (Writer.view_bytes_byteLength false n v), advance_be. cbn [rbind].
  do 2 f_equal. unfold at_be; cbn [Reader.buffer Reader.littleEndian]. rewrite Reader.subarray_at by done. by apply view_be_bytes.
Qed.

Lemma reads_be_utf8 bs n : n = byteLength bs -> reads_be (readUtf8String n) bs (Utf8.decode bs).
Proof.
  intros -> pre post. unfold readUtf8String. rewrite advance_be. cbn [rbind]. do 2 f_equal.
  unfold at_be; cbn [Reader.buffer]. by rewrite Reader.subarray_at.
Qed.

Lemma reads_be_map {A B} (m : Reader.read A) (f : A -> B) i a :
  reads_be m i a -> reads_be (Reader.bind m (fun x => Reader.ret (f x))) i (f a).
Proof. intros H. rewrite <- (app_nil_r i). eapply reads_be_bind; [exact H|apply reads_be_ret]. Qed.

Lemma remaining_be pre post : Reader.remainingBytesCount (at_be pre post) = byteLength post.
Proof. unfold Reader.remainingBytesCount, at_be, byteLength. cbn. rewrite length_app. lia. Qed.

Lemma size_be pre post : Reader.size (at_be pre post) = length post.
Proof. unfold Reader.size. rewrite remaining_be. unfold byteLength. lia. Qed.

Lemma sound_readUtf8String n : Reader.sound (readUtf8String n).
Proof. apply Reader.sound_advance_map. Qed.

Lemma sound_remaining : Reader.sound Reader.remaining.
Proof. intros r. cbn. split; [done|lia]. Qed.

Lemma sound_lift {A} (m : result A) : m <> Throw OutOfFuel -> Reader.sound (Reader.lift m).
Proof. intros H r. unfold Reader.lift. destruct m as [a|e]; cbn; [split; [done|lia]|congruence]. Qed.

#[export] Hint Resolve sound_readUtf8String sound_remaining : reader.

(** ** Writing *)

(** [new DataWriter()], what is written, [toByteArray()]. *)
Definition run_be (f : Writer.DataWriter -> Writer.DataWriter) : result (list Z) :=
  let* (bs, _) := Writer.toByteArray (f (Writer.new false)) in Ok bs.

Definition written_be (w : Writer.DataWriter) (bs : list Z) : Prop :=
  Writer.littleEndian w = false /\ Writer.wf w /\ Writer.contents w = bs.

Lemma written_be_new : written_be (Writer.new false) [].
Proof. done. Qed.

Lemma written_be_push c n w bs : written_be w bs -> n = byteLength c -> written_be (Writer.push c n w) (bs ++ c).
Proof.
  intros (He & Hw & <-) Hn. split; [done|]. split; [by apply Writer.push_wf|apply Writer.contents_push].
Qed.

Lemma written_be_view n v w bs :
  written_be w bs -> written_be (Writer.push (view_bytes (Writer.littleEndian w) n v) (Z.of_nat n) w) (bs ++ view_bytes false n v).
Proof.
  intros H. pose proof H as (E & _ & _). rewrite E. apply written_be_push; [done|apply Writer.view_bytes_byteLength].
Qed.

Lemma written_be_UInt8 v w bs : written_be w bs -> written_be (Writer.writeUInt8 v w) (bs ++ [v mod 256]).
Proof. intros H. by apply written_be_push. Qed.
Lemma written_be_UInt16 v w bs : written_be w bs -> written_be (Writer.writeUInt16 v w) (bs ++ view_bytes false 2 v).
Proof. apply (written_be_view 2). Qed.
Lemma written_be_UInt32 v w bs : written_be w bs -> written_be (Writer.writeUInt32 v w) (bs ++ view_bytes false 4 v).
Proof. apply (written_be_view 4). Qed.
Lemma written_be_ByteArray b w bs : written_be w bs -> written_be (Writer.writeByteArray b w) (bs ++ b).
Proof. intros H. by apply written_be_push. Qed.

Lemma run_be_written f bs bs' : written_be (f (Writer.new false)) bs -> bs = bs' -> run_be f = Ok bs'.
Proof.
  intros (_ & Hw & <-) <-. unfold run_be. by destruct (Writer.toByteArray_contents _ Hw) as (w' & -> & _).
Qed.

#[export] Hint Resolve written_be_new written_be_UInt8 written_be_UInt16 written_be_UInt32 written_be_ByteArray : writer.
