(* ===== verification/Der.v ===== *)
(** * DER codec and ECDSA signatures

    Models general/src/codec/DerCodec.ts and the use crypto/EcdsaSignature.ts
    makes of it.  A value to encode is one of the cases [encode] tells apart; an
    object's fields are the list of its values in order.  A [Date] is what the
    code asks of it: its local year and its ISO string. *)

From stdpp Require Import list.
From S2P Require Import Prelude DataIO Text.

(** ** Tags *)

Definition MAX_LENGTH_BYTES : Z := 6.

Definition TagBoolean : Z := 0x01.
Definition TagInteger : Z := 0x02.
Definition TagBitString : Z := 0x03.
Definition TagOctetString : Z := 0x04.
Definition TagObjectIdentifier : Z := 0x06.
Definition TagUTF8String : Z := 0x0c.
Definition TagPrintableString : Z := 0x13.
Definition TagIA5String : Z := 0x16.
Definition TagUtcDate : Z := 0x17.
Definition TagGeneralizedTime : Z := 0x18.
Definition CONSTRUCTED : Z := 0x20.
Definition ContextSpecific : Z := 0x80.

(** [DerTag] *)
Definition TagSequence : Z := js_or 0x10 CONSTRUCTED.
Definition TagSet : Z := js_or 0x11 CONSTRUCTED.

(** ** Values *)

Record JsDate := mkDate {
  fullYear : Z;
  isoString : list Z;
}.

(** [DerNodeDefinition], one constructor for each case of [encode]. *)
Inductive DerValue :=
| VArray (elements : list DerValue)
| VBytes (bytes : list Z)
| VDate (date : JsDate)
| VString (s : list Z)
| VInteger (n : Z)
| VBoolean (b : bool)
| VUndefined
| VTagged (tag : Z) (padding : option Z) (bytes : list Z)
| VIntegerBytes (bytes : list Z)
| VBits (n : Z)
| VPrintable (s : list Z)
| VIA5 (s : list Z)
| VRaw (bytes : list Z)
| VSequence (fields : list DerValue).

Inductive DerNode := mkNode {
  n_tag : Z;
  n_bytes : list Z;
  n_elements : option (list DerNode);
  n_padding : option Z;
}.

(** ** Encoding *)

(** [Bytes.concat] of several arrays. *)
Definition concat_all (parts : list (list Z)) : result (list Z) :=
  match Bytes.concat parts with Some b => Ok b | None => Throw RangeError end.

(** The first nonzero byte of the view from [start], or index 4. *)
Fixpoint length_start (fuel : nat) (bytes : list Z) (start : nat) : nat :=
  match fuel with
  | O => start
  | S fuel =>
      if negb (nth start bytes 0 =? 0) then start
      else if decide (S start = 4%nat) then S start else length_start fuel bytes (S start)
  end.

Definition encodeLengthBytes (value : Z) : list Z :=
  let byteArray := 0 :: view_bytes false 4 (value mod 2 ^ 32) in
  let start := length_start 5 byteArray 0 in
  let lengthLength := Z.of_nat (length byteArray - start) in
  let '(start, byteArray) :=
    if (1 <? lengthLength) || (0x80 <=? nth start byteArray 0) then
      ((start - 1)%nat, <[(start - 1)%nat := (0x80 + lengthLength) mod 256]> byteArray)
    else (start, byteArray) in
  drop start byteArray.

Definition encodeAsn1 (tag : Z) (data : list Z) : result (list Z) :=
  concat_all [[tag mod 256]; encodeLengthBytes (byteLength data); data].

(** [toHex]: the digits of a number, lower case, of even length. *)
Definition hex_char (d : Z) : Z := if d <? 10 then 48 + d else 87 + d.

Fixpoint hex_digits (fuel : nat) (n : Z) : list Z :=
  match fuel with
  | O => []
  | S fuel => (if n <? 16 then [] else hex_digits fuel (n / 16)) ++ [hex_char (n mod 16)]
  end.

(** [value.toString(16)]; as many digits as bits are enough. *)
Definition to_string16 (n : Z) : list Z :=
  (if n <? 0 then [45] else []) ++ hex_digits (S (Z.to_nat (Z.log2 (Z.abs n)))) (Z.abs n).

Definition toHex (n : Z) : list Z :=
  let hex := to_string16 n in
  if Nat.even (length hex) then hex else 48 :: hex.

Definition hex_value (u : Z) : option Z :=
  if (48 <=? u) && (u <=? 57) then Some (u - 48)
  else if (97 <=? u) && (u <=? 102) then Some (u - 87)
  else if (65 <=? u) && (u <=? 70) then Some (u - 55)
  else None.

(** [parseInt(pair, 16)] as it is stored in a byte; what does not parse is 0. *)
Definition parse_pair (a b : Z) : Z :=
  match hex_value a, hex_value b with
  | Some x, Some y => 16 * x + y
  | Some x, None => x
  | None, Some y => if a =? 45 then (- y) mod 256 else if a =? 43 then y else 0
  | None, None => 0
  end.

Fixpoint fromHex (s : list Z) : result (list Z) :=
  match s with
  | [] => Ok []
  | [_] => Throw UnexpectedDataError
  | a :: b :: s => let* bytes := fromHex s in Ok (parse_pair a b :: bytes)
  end.

(** The loop of [#encodeInteger]; reading past the end is a [RangeError]. *)
Fixpoint integer_start (fuel : nat) (bytes : list Z) (start : nat) : result nat :=
  match fuel with
  | O => Throw OutOfFuel
  | S fuel =>
      match bytes !! start with
      | None => Throw RangeError
      | Some b =>
          if negb (b =? 0) then Ok start
          else
            match bytes !! S start with
            | None => Throw RangeError
            | Some b' =>
                if 0x80 <=? b' then Ok start
                else if decide (S start = length bytes - 1)%nat then Ok (S start)
                else integer_start fuel bytes (S start)
            end
      end
  end.

Definition encodeIntegerBytes (valueBytes : list Z) : result (list Z) :=
  let* byteArray := concat_all [[0]; valueBytes] in
  let* start := integer_start (length byteArray) byteArray 0 in
  encodeAsn1 TagInteger (if decide (start = 0%nat) then byteArray else drop start byteArray).

Definition encodeInteger (value : Z) : result (list Z) :=
  let* valueBytes := fromHex (toHex value) in encodeIntegerBytes valueBytes.

(** [value.toString(2)] *)
Fixpoint bin_digits (fuel : nat) (n : Z) : list Z :=
  match fuel with
  | O => []
  | S fuel => (if n <? 2 then [] else bin_digits fuel (n / 2)) ++ [48 + n mod 2]
  end.

Fixpoint parse_binary (acc : Z) (s : list Z) : Z :=
  match s with [] => acc | u :: s => parse_binary (2 * acc + (u - 48)) s end.

Definition padStart (len : nat) (c : Z) (s : list Z) : list Z := repeat c (len - length s) ++ s.

Fixpoint indexOf_one (s : list Z) : option Z :=
  match s with
  | [] => None
  | u :: s => if u =? 49 then Some 0 else (fun i => i + 1) <$> indexOf_one s
  end.

Definition encodeTagged (tag : Z) (padding : option Z) (bytes : list Z) : result (list Z) :=
  match padding with
  | None => encodeAsn1 tag bytes
  | Some p => let* data := concat_all [[p mod 256]; bytes] in encodeAsn1 tag data
  end.

(** The number is not negative: its digits are binary digits. *)
Definition encodeBitString (value : Z) : result (list Z) :=
  let reversedBits := padStart 8 48 (bin_digits (S (Z.to_nat (Z.log2 value))) value) in
  let unusedBits := indexOf_one reversedBits in
  encodeTagged TagBitString (Some (default 8 unusedBits)) [parse_binary 0 (rev reversedBits) mod 256].

Definition printable_char (u : Z) : bool :=
  ((97 <=? u) && (u <=? 122)) || ((65 <=? u) && (u <=? 90)) || ((48 <=? u) && (u <=? 57)) ||
  bool_decide (u ∈ [32; 39; 40; 41; 43; 44; 45; 46; 47; 58; 61; 63]).

Definition encodePrintableString (s : list Z) : result (list Z) :=
  let* _ := throw_if (negb (forallb printable_char s)) DerError in encodeAsn1 TagPrintableString (Utf8.encode s).

Definition encodeIA5String (s : list Z) : result (list Z) :=
  let* _ := throw_if (negb (forallb (fun u => (0 <=? u) && (u <=? 0x7f)) s)) DerError in encodeAsn1 TagIA5String (Utf8.encode s).

(** [toISOString().replace(/[-:.T]/g, "")] *)
Definition iso_digits (d : JsDate) : list Z := List.filter (fun u => negb (bool_decide (u ∈ [45; 58; 46; 84]))) (isoString d).

Definition encodeDate (d : JsDate) : result (list Z) :=
  if 2049 <? fullYear d then encodeAsn1 TagGeneralizedTime (Utf8.encode (take 14 (iso_digits d) ++ [90]))
  else encodeAsn1 TagUtcDate (Utf8.encode (drop 2 (take 14 (iso_digits d)) ++ [90])).

Definition encodeBoolean (b : bool) : result (list Z) := encodeAsn1 TagBoolean [if b then 0xff else 0].
Definition encodeOctetString (bytes : list Z) : result (list Z) := encodeAsn1 TagOctetString bytes.
Definition encodeString (s : list Z) : result (list Z) := encodeAsn1 TagUTF8String (Utf8.encode s).

Fixpoint encode (value : DerValue) : result (list Z) :=
  let encode_all := fix encode_all (vs : list DerValue) : result (list (list Z)) :=
    match vs with
    | [] => Ok []
    | v :: vs => let* b := encode v in let* bs := encode_all vs in Ok (b :: bs)
    end in
  match value with
  | VArray elements => let* parts := encode_all elements in let* data := concat_all parts in encodeAsn1 TagSet data
  | VBytes bytes => encodeOctetString bytes
  | VDate date => encodeDate date
  | VString s => encodeString s
  | VInteger n => encodeInteger n
  | VBoolean b => encodeBoolean b
  | VUndefined => Ok []
  | VTagged tag padding bytes => encodeTagged tag padding bytes
  | VIntegerBytes bytes => encodeIntegerBytes bytes
  | VBits n => encodeBitString n
  | VPrintable s => encodePrintableString s
  | VIA5 s => encodeIA5String s
  | VRaw bytes => Ok bytes
  | VSequence fields => let* parts := encode_all fields in let* data := concat_all parts in encodeAsn1 TagSequence data
  end.

Fixpoint encode_all (vs : list DerValue) : result (list (list Z)) :=
  match vs with
  | [] => Ok []
  | v :: vs => let* b := encode v in let* bs := encode_all vs in Ok (b :: bs)
  end.

(** ** The helpers that build values *)

Definition ObjectId (hex : list Z) : result DerValue :=
  let* bytes := fromHex hex in Ok (VTagged TagObjectIdentifier None bytes).
Definition DerBitString (data : list Z) (padding : Z) : DerValue := VTagged TagBitString (Some padding) data.

Definition ContextTagged (tagId : Z) (value : option DerValue) : result DerValue :=
  let* bytes := match value with Some v => encode v | None => Ok [] end in
  Ok (VTagged (js_or (js_or tagId ContextSpecific) CONSTRUCTED) None bytes).

Definition ContextTaggedBytes (tagId : Z) (value : list Z) : DerValue := VTagged (js_or tagId ContextSpecific) None value.

(** The loop of [DerRawUint]: the zero bytes to drop. *)
Fixpoint uint_start (fuel : nat) (data : list Z) (firstByte : nat) : nat :=
  match fuel with
  | O => firstByte
  | S fuel =>
      if (firstByte <? length data - 1)%nat then
        if negb (nth firstByte data 0 =? 0) || negb (js_and (nth (S firstByte) data 0) 0x80 =? 0) then firstByte
        else uint_start fuel data (S firstByte)
      else firstByte
  end.

Definition DerRawUint (number : list Z) : result DerValue :=
  let* bytes :=
    if negb (js_and (nth 0 number 0) 0x80 =? 0) then concat_all [[0]; number]
    else Ok (drop (uint_start (length number) number 0) number) in
  Ok (VTagged TagInteger None bytes).

(** ** Decoding *)

Fixpoint read_length (lengthLength : nat) (length : Z) : Reader.read Z :=
  match lengthLength with
  | O => Reader.ret length
  | S n => Reader.bind Reader.readUInt8 (fun b => read_length n (length * 0x100 + b))
  end.

Definition decodeAsn1 : Reader.read (Z * list Z) :=
  Reader.bind Reader.readUInt8 (fun tag =>
  Reader.bind Reader.readUInt8 (fun length =>
  Reader.bind
    (if negb (js_and length 0x80 =? 0) then
       let lengthLength := js_and length 0x7f in
       if lengthLength =? 0 then Reader.throw DerError
       else if MAX_LENGTH_BYTES <? lengthLength then Reader.throw DerError
       else read_length (Z.to_nat lengthLength) 0
     else Reader.ret length)
    (fun length =>
  Reader.bind (Reader.readByteArray length) (fun bytes => Reader.ret (tag, bytes))))).

Fixpoint decodeRec (fuel : nat) (r : Reader.DataReader) : result (DerNode * Reader.DataReader) :=
  match fuel with
  | O => Throw OutOfFuel
  | S fuel =>
      let* (tag, bytes, r) := decodeAsn1 r in
      if tag =? TagBitString then Ok (mkNode tag (drop 1 bytes) None (bytes !! 0%nat), r)
      else if js_and tag CONSTRUCTED =? 0 then Ok (mkNode tag bytes None None, r)
      else
        let* elements := decode_elements fuel (Reader.new bytes false) in
        Ok (mkNode tag bytes (Some elements) None, r)
  end
with decode_elements (fuel : nat) (r : Reader.DataReader) : result (list DerNode) :=
  match fuel with
  | O => Throw OutOfFuel
  | S fuel =>
      if 0 <? Reader.remainingBytesCount r then
        let* (n, r) := decodeRec fuel r in
        let* ns := decode_elements fuel r in Ok (n :: ns)
      else Ok []
  end.

Definition decode (data : list Z) : result DerNode :=
  match decodeRec (S (2 * length data)) (Reader.new data false) with
  | Ok (n, _) => Ok n
  | Throw DataReadError => Throw DerError
  | Throw e => Throw e
  end.

Definition decodeBigUint (value : option DerNode) (len : nat) : result (list Z) :=
  match value with
  | None => Throw DerError
  | Some node =>
      if negb (n_tag node =? TagInteger) then Throw DerError
      else
        let bytes := n_bytes node in
        if decide (length bytes = len) then Ok bytes
        else if decide (length bytes = S len /\ nth 0 bytes 0 = 0) then Ok (drop 1 bytes)
        else if (length bytes <? len)%nat then concat_all [repeat 0 (len - length bytes); bytes]
        else Throw DerError
  end.

(** ** ECDSA signatures *)

Definition signature_of_bytes (bytes : list Z) : result (list Z) :=
  if decide (length bytes = 64%nat) then Ok bytes else Throw SignatureEncodingError.

Definition signature_of_der (bytes : list Z) : result (list Z) :=
  match
    let* decoded := decode bytes in
    let* r := decodeBigUint (es ← n_elements decoded; es !! 0%nat) 32 in
    let* s := decodeBigUint (es ← n_elements decoded; es !! 1%nat) 32 in
    concat_all [r; s]
  with
  | Throw DerError => Throw SignatureEncodingError
  | x => x
  end.

Definition signature_der (bytes : list Z) : result (list Z) :=
  let bytesPerComponent := (length bytes / 2)%nat in
  let* r := DerRawUint (take bytesPerComponent bytes) in
  let* s := DerRawUint (drop bytesPerComponent bytes) in
  encode (VSequence [r; s]).
