(* ===== verification/DerCorrect.v ===== *)
(** * The DER codec against the encoding rules

    Length octets, minimal integers, the tree a decoded node stands for, and the
    round trip of ECDSA signatures through their DER form. *)

From stdpp Require Import list.
From S2P Require Import Prelude DataIO Text BigEndian Der.

(** ** Length octets *)

(** X.690: one octet below 128, else the number of the octets that follow. *)
Inductive der_length : Z -> list Z -> Prop :=
| LengthShort n : 0 <= n < 128 -> der_length n [n]
| LengthLong b bs :
    (length bs < 6)%nat -> bytes_ok (b :: bs) -> b <> 0 -> 128 <= be_value (b :: bs) ->
    der_length (be_value (b :: bs)) (128 + Z.of_nat (length (b :: bs)) :: b :: bs).

Lemma view4 v : 0 <= v < 2 ^ 32 -> exists b3 b2 b1 b0,
  view_bytes false 4 (v mod 2 ^ 32) = [b3; b2; b1; b0] /\ bytes_ok [b3; b2; b1; b0] /\
  v = b3 * 2 ^ 24 + b2 * 2 ^ 16 + b1 * 2 ^ 8 + b0.
Proof.
  intros Hv. rewrite Z.mod_small by done. unfold view_bytes. cbn [le_bytes rev app].
  exists (v / 256 / 256 / 256 mod 256), (v / 256 / 256 mod 256), (v / 256 mod 256), (v mod 256). split; [done|].
  split; [repeat constructor; unfold is_byte; apply Z.mod_pos_bound; lia|].
  pose proof (Z.div_mod v 256). pose proof (Z.div_mod (v / 256) 256). pose proof (Z.div_mod (v / 256 / 256) 256).
  pose proof (Z.div_mod (v / 256 / 256 / 256) 256).
  assert (v / 256 / 256 / 256 / 256 = 0) by (rewrite !Z.div_div by lia; apply Z.div_small; lia). lia.
Qed.

Lemma encodeLengthBytes_der v : 0 <= v < 2 ^ 32 -> der_length v (encodeLengthBytes v).
Proof.
  intros Hv. destruct (view4 v Hv) as (b3 & b2 & b1 & b0 & E & Hok & Ev). unfold encodeLengthBytes. rewrite E.
  apply Forall_cons in Hok as [H3 Hok]. apply Forall_cons in Hok as [H2 Hok]. apply Forall_cons in Hok as [H1 Hok].
  apply Forall_cons in Hok as [H0 _]. unfold is_byte in *.
  assert (Hlong : forall b bs, (length bs < 6)%nat -> bytes_ok (b :: bs) -> b <> 0 -> v = be_value (b :: bs) -> 128 <= v ->
    der_length v (128 + Z.of_nat (length (b :: bs)) :: b :: bs)) by (intros b bs ? ? ? -> ?; by constructor).
  cbn [length_start nth negb Z.eqb length]. rewrite !decide_False by lia.
  destruct (Z.eqb_spec b3 0) as [->|N3]; cbn [negb].
  2: { apply (Hlong b3 [b2; b1; b0]); [cbn; lia|repeat constructor; unfold is_byte; lia|done|cbn; lia|lia]. }
  destruct (Z.eqb_spec b2 0) as [->|N2]; cbn [negb].
  2: { apply (Hlong b2 [b1; b0]); [cbn; lia|repeat constructor; unfold is_byte; lia|done|cbn; lia|lia]. }
  destruct (Z.eqb_spec b1 0) as [->|N1]; cbn [negb].
  2: { apply (Hlong b1 [b0]); [cbn; lia|repeat constructor; unfold is_byte; lia|done|cbn; lia|lia]. }
  rewrite decide_True by lia. cbn [Nat.sub Z.of_nat Z.ltb Z.compare orb nth]. change (1 <? Z.of_nat 1) with false. cbn [orb].
  destruct (Z.leb_spec 128 b0).
  - apply (Hlong b0 []); [cbn; lia|repeat constructor; unfold is_byte; lia|lia|cbn; lia|lia].
  - assert (v = b0) as -> by lia. constructor. lia.
Qed.

(** ** Reading *)

Lemma reads_be_length n acc bs :
  length bs = n -> reads_be (read_length n acc) bs (foldl (fun a b => a * 256 + b) acc bs).
Proof.
  intros <-. revert acc. induction bs as [|b bs IH]; intros acc; cbn [read_length length foldl]; [apply reads_be_ret|].
  apply (reads_be_bind _ _ [b] bs b); [apply reads_be_byte|apply IH].
Qed.

Lemma high_bit b : is_byte b -> (js_and b 0x80 =? 0) = (b <? 128).
Proof.
  intros H. assert (Hall : forallb_below 256 (fun b => Bool.eqb (js_and b 0x80 =? 0) (b <? 128)) = true) by (vm_compute; reflexivity).
  pose proof (forallb_below_spec _ _ Hall b) as Hb. apply Bool.eqb_prop, Hb. unfold is_byte in H. lia.
Qed.

Lemma low_bits b : 128 <= b < 256 -> js_and b 0x7f = b - 128.
Proof.
  intros H. assert (Hall : forallb_below 256 (fun b => (b <? 128) || (js_and b 0x7f =? b - 128)) = true) by (vm_compute; reflexivity).
  pose proof (forallb_below_spec _ _ Hall b ltac:(lia)) as Hb. cbn beta in Hb.
  destruct (Z.ltb_spec b 128); [lia|]. cbn in Hb. lia.
Qed.

Lemma reads_be_content m i (tag : Z) (data : list Z) :
  reads_be m i (byteLength data) ->
  reads_be (Reader.bind m (fun length => Reader.bind (Reader.readByteArray length) (fun bytes => Reader.ret (tag, bytes)))) (i ++ data) (tag, data).
Proof.
  intros Hm. eapply reads_be_bind; [exact Hm|]. replace (reads_be _ data) with (reads_be (Reader.bind (Reader.readByteArray (byteLength data)) (fun bytes => Reader.ret (tag, bytes))) (data ++ []))
    by (by rewrite app_nil_r). eapply reads_be_bind; [by apply reads_be_bytes|apply reads_be_ret].
Qed.

(** Minimal length octets are read back. *)
Lemma decodeAsn1_reads tag len data :
  der_length (byteLength data) len -> reads_be decodeAsn1 (tag :: len ++ data) (tag, data).
Proof.
  intros Hl. change (tag :: len ++ data) with ([tag] ++ len ++ data). unfold decodeAsn1.
  eapply reads_be_bind; [apply reads_be_byte|]. inversion Hl as [n Hn E|b bs Hb Hok Hnz Hv E]; subst len.
  - eapply reads_be_bind; [apply reads_be_byte|]. apply (reads_be_content _ []).
    rewrite high_bit by (unfold is_byte; lia). destruct (Z.ltb_spec (byteLength data) 128); [|lia]. apply reads_be_ret.
  - change ((128 + Z.of_nat (length (b :: bs)) :: b :: bs) ++ data) with ([128 + Z.of_nat (length (b :: bs))] ++ (b :: bs) ++ data).
    eapply reads_be_bind; [apply reads_be_byte|]. apply reads_be_content.
    cbn [length]. rewrite high_bit by (unfold is_byte; lia). destruct (Z.ltb_spec (128 + Z.of_nat (S (length bs))) 128); [lia|]. cbn [negb].
    rewrite low_bits by lia. replace (128 + Z.of_nat (S (length bs)) - 128) with (Z.of_nat (S (length bs))) by lia.
    destruct (Z.eqb_spec (Z.of_nat (S (length bs))) 0); [lia|]. unfold MAX_LENGTH_BYTES.
    destruct (Z.ltb_spec 6 (Z.of_nat (S (length bs)))); [lia|]. rewrite Nat2Z.id, <- E. unfold be_value. by apply reads_be_length.
Qed.

(** ** Nodes and their encodings *)

(** X.690: the octets of a node.  Bit 5 of the tag marks a constructed node,
    whose content is the octets of its elements. *)
Inductive der : DerNode -> list Z -> Prop :=
| DerPrimitive tag bytes len :
    is_byte tag -> tag <> TagBitString -> Z.testbit tag 5 = false -> der_length (byteLength bytes) len ->
    der (mkNode tag bytes None None) (tag :: len ++ bytes)
| DerBits padding bytes len :
    der_length (byteLength (padding :: bytes)) len ->
    der (mkNode TagBitString bytes None (Some padding)) (TagBitString :: len ++ padding :: bytes)
| DerConstructed tag ns bytes len :
    is_byte tag -> Z.testbit tag 5 = true -> der_list ns bytes -> der_length (byteLength bytes) len ->
    der (mkNode tag bytes (Some ns) None) (tag :: len ++ bytes)
with der_list : list DerNode -> list Z -> Prop :=
| DerNil : der_list [] []
| DerCons n ns b bs : der n b -> der_list ns bs -> der_list (n :: ns) (b ++ bs).

Scheme der_mut := Minimality for der Sort Prop
with der_list_mut := Minimality for der_list Sort Prop.
Combined Scheme der_both from der_mut, der_list_mut.

Lemma constructed_bit b : is_byte b -> (js_and b CONSTRUCTED =? 0) = negb (Z.testbit b 5).
Proof.
  intros H. assert (Hall : forallb_below 256 (fun b => Bool.eqb (js_and b CONSTRUCTED =? 0) (negb (Z.testbit b 5))) = true) by (vm_compute; reflexivity).
  apply Bool.eqb_prop, (forallb_below_spec _ _ Hall b). unfold is_byte in H. lia.
Qed.

Lemma decodeRec_step F tag len data pre post :
  der_length (byteLength data) len ->
  decodeRec (S F) (at_be pre ((tag :: len ++ data) ++ post)) =
    let r := at_be (pre ++ tag :: len ++ data) post in
    if tag =? TagBitString then Ok (mkNode tag (drop 1 data) None (data !! 0%nat), r)
    else if js_and tag CONSTRUCTED =? 0 then Ok (mkNode tag data None None, r)
    else let* elements := decode_elements F (Reader.new data false) in Ok (mkNode tag data (Some elements) None, r).
Proof. intros Hl. cbn [decodeRec]. by rewrite (decodeAsn1_reads tag len data Hl pre post). Qed.

Lemma decode_der_both :
  (forall n bs, der n bs -> forall F, (2 * length bs < F)%nat -> reads_be (decodeRec F) bs n) /\
  (forall ns bs, der_list ns bs -> forall F pre, (2 * length bs + 1 < F)%nat -> decode_elements F (at_be pre bs) = Ok ns).
Proof.
  apply der_both.
  - intros tag bytes len Hb Hn Ht Hl [|F] HF pre post; [lia|]. rewrite decodeRec_step by done. cbn zeta.
    destruct (Z.eqb_spec tag TagBitString); [done|]. by rewrite constructed_bit, Ht.
  - intros p bytes len Hl [|F] HF pre post; [lia|]. by rewrite decodeRec_step.
  - intros tag ns bytes len Hb Ht _ IH Hl [|F] HF pre post; [lia|]. rewrite decodeRec_step by done. cbn zeta.
    destruct (Z.eqb_spec tag TagBitString) as [->|]; [done|]. rewrite constructed_bit, Ht by done. cbn [negb].
    cbn [length] in HF. rewrite length_app in HF. change (Reader.new bytes false) with (at_be [] bytes). rewrite IH by lia. done.
  - intros [|F] pre HF; [lia|]. cbn [decode_elements]. unfold Reader.remainingBytesCount, at_be, byteLength. cbn. rewrite app_nil_r, Z.sub_diag. done.
  - intros n ns b bs Hn IHn _ IHns [|F] pre HF; [lia|]. cbn [decode_elements]. rewrite length_app in HF.
    assert (0 < length b)%nat by (inversion Hn; cbn; lia).
    assert (0 <? Reader.remainingBytesCount (at_be pre (b ++ bs)) = true) as ->.
    { unfold Reader.remainingBytesCount, at_be, byteLength. cbn [Reader.buffer Reader.offset]. rewrite !length_app. apply Z.ltb_lt. lia. }
    rewrite (IHn F ltac:(lia) pre bs). cbn [rbind]. rewrite IHns by lia. done.
Qed.

Lemma decode_der n bs : der n bs -> decode bs = Ok n.
Proof.
  intros H. unfold decode. change (Reader.new bs false) with (at_be [] bs).
  pose proof (proj1 decode_der_both n bs H (S (2 * length bs)) ltac:(lia) [] []) as Hd. rewrite app_nil_r in Hd. by rewrite Hd.
Qed.

(** ** Integers *)

(** No octet could be dropped, and the number is not negative. *)
Definition minimal (bs : list Z) : Prop :=
  bytes_ok bs /\ match bs with
  | [] => False
  | [b] => b < 128
  | b :: b' :: _ => b < 128 /\ (b <> 0 \/ 128 <= b')
  end.

Lemma minimal_unique a b : minimal a -> minimal b -> be_value a = be_value b -> a = b.
Proof.
  assert (Hlen : forall a b, minimal a -> minimal b -> be_value a = be_value b -> (length a <= length b)%nat).
  { intros a' b' [Ha Ma] [Hb Mb] Hv. destruct (decide (length a' <= length b')%nat) as [|Hn]; [done|exfalso].
    destruct a' as [|x [|y l]]; [done|destruct b'; cbn in *; [done|lia]|]. destruct Ma as [_ Mx].
    apply Forall_cons in Ha as [Hx Ha]. apply Forall_cons in Ha as [Hy Ha]. unfold is_byte in *.
    pose proof (be_value_range _ Ha) as Hr. pose proof (be_value_range _ Hb) as Hrb. rewrite !be_value_cons in Hv.
    cbn [length] in *. destruct b' as [|z l']; [done|]. cbn [length] in *.
    assert (Hz : z < 128) by (destruct l'; tauto).
    assert (Hub : be_value (z :: l') < 128 * 256 ^ Z.of_nat (length l')).
    { rewrite be_value_cons. apply Forall_cons in Hb as [Hbz Hb]. pose proof (be_value_range _ Hb). unfold is_byte in *. nia. }
    assert (Hlb : 128 * 256 ^ Z.of_nat (length l) <= x * 256 ^ Z.of_nat (S (length l)) + (y * 256 ^ Z.of_nat (length l) + be_value l)).
    { rewrite Nat2Z.inj_succ, Z.pow_succ_r by lia. pose proof (Z.pow_pos_nonneg 256 (Z.of_nat (length l)) ltac:(lia) ltac:(lia)). nia. }
    assert (256 ^ Z.of_nat (length l') <= 256 ^ Z.of_nat (length l)) by (apply Z.pow_le_mono_r; lia).
    lia. }
  intros Ha Hb Hv. apply be_value_inj; [apply Ha|apply Hb| |done]. apply Nat.le_antisymm; auto.
Qed.

Lemma integer_start_minimal fuel bs start :
  (length bs - start <= fuel)%nat -> (start + 2 <= length bs)%nat -> bytes_ok bs ->
  (forall b, bs !! start = Some b -> b < 128) ->
  exists s, integer_start fuel bs start = Ok s /\ minimal (drop s bs) /\ be_value (drop s bs) = be_value (drop start bs).
Proof.
  revert start. induction fuel as [|fuel IH]; intros start Hf Hl Hok Hb; [lia|]. cbn [integer_start].
  destruct (lookup_lt_is_Some_2 bs start ltac:(lia)) as [b Eb]. destruct (lookup_lt_is_Some_2 bs (S start) ltac:(lia)) as [b' Eb'].
  rewrite Eb, Eb'. specialize (Hb b Eb). pose proof (drop_S _ _ _ Eb) as D. pose proof (drop_S _ _ _ Eb') as D'.
  assert (Hd : bytes_ok (drop start bs)) by (by apply Forall_drop).
  destruct (Z.eqb_spec b 0) as [->|Hn]; cbn [negb].
  - destruct (Z.leb_spec 0x80 b').
    + exists start. split_and!; [done| |done]. split; [done|]. rewrite D, D'. split; [lia|by right].
    + destruct (decide _) as [El|El].
      * exists (S start). assert (drop (S (S start)) bs = []) as E0 by (apply drop_ge; lia).
        split_and!; [done| |]. { split; [by apply Forall_drop|]. by rewrite D', E0. }
        rewrite D, be_value_cons. lia.
      * destruct (IH (S start)) as (s & Es & Hm & Hv); [lia|lia|done|intros ? E; rewrite Eb' in E; by injection E as <-|].
        exists s. split_and!; [done|done|]. rewrite Hv, D, be_value_cons. lia.
  - exists start. split_and!; [done| |done]. split; [done|]. rewrite D, D'. split; [lia|by left].
Qed.

Lemma concat_all_join parts : concat_all parts = Ok (mjoin parts).
Proof. unfold concat_all. by rewrite Bytes.concat_correct. Qed.

Lemma encodeAsn1_ok tag data : encodeAsn1 tag data = Ok (tag mod 256 :: encodeLengthBytes (byteLength data) ++ data).
Proof. unfold encodeAsn1. rewrite concat_all_join. cbn. by rewrite app_nil_r. Qed.

(** The octets the encoder chooses for a number given by its bytes. *)
Lemma encodeIntegerBytes_minimal raw bs :
  raw <> [] -> bytes_ok raw -> minimal bs -> be_value bs = be_value raw ->
  encodeIntegerBytes raw = encodeAsn1 TagInteger bs.
Proof.
  intros Hn Hok Hm Hv. unfold encodeIntegerBytes. rewrite concat_all_join. cbn [rbind]. change (mjoin [[0]; raw]) with (0 :: raw ++ []).
  rewrite app_nil_r. destruct (integer_start_minimal (length (0 :: raw)) (0 :: raw) 0) as (s & Es & Hs & Hvs).
  - lia.
  - destruct raw; [done|cbn; lia].
  - constructor; [by unfold is_byte|done].
  - by intros b [= <-].
  - rewrite Es. cbn [rbind]. replace (if decide (s = 0%nat) then _ else _) with (drop s (0 :: raw)) by (case_decide; by subst).
    f_equal. apply minimal_unique; [done|done|]. rewrite Hvs, Hv, drop_0, be_value_cons. lia.
Qed.

(** The bytes of a number's hexadecimal digits. *)
Definition is_hex (u : Z) : Prop := exists d, hex_value u = Some d /\ 0 <= d < 16.
Definition hex_fold (a : Z) (s : list Z) : Z := foldl (fun a u => a * 16 + default 0 (hex_value u)) a s.

Lemma hex_char_value d : 0 <= d < 16 -> hex_value (hex_char d) = Some d.
Proof.
  intros H. assert (Hall : forallb_below 16 (fun d => bool_decide (hex_value (hex_char d) = Some d)) = true) by (vm_compute; reflexivity).
  pose proof (forallb_below_spec _ _ Hall d ltac:(lia)) as Hd. by apply bool_decide_eq_true in Hd.
Qed.

Lemma hex_digits_value fuel n :
  0 <= n < 16 ^ Z.of_nat fuel -> (0 < fuel)%nat ->
  Forall is_hex (hex_digits fuel n) /\ hex_fold 0 (hex_digits fuel n) = n /\ (0 < length (hex_digits fuel n))%nat.
Proof.
  revert n. induction fuel as [|fuel IH]; intros n Hn Hf; [lia|]. cbn [hex_digits].
  assert (Hm : 0 <= n mod 16 < 16) by (apply Z.mod_pos_bound; lia). pose proof (hex_char_value _ Hm) as Hc.
  assert (Hlast : is_hex (hex_char (n mod 16))) by (by exists (n mod 16)).
  destruct (Z.ltb_spec n 16) as [Hlt|Hge].
  - cbn [app]. split_and!; [by constructor| |cbn; lia]. unfold hex_fold. cbn. rewrite Hc. cbn. rewrite Z.mod_small; lia.
  - rewrite Nat2Z.inj_succ, Z.pow_succ_r in Hn by lia.
    destruct (IH (n / 16)) as (H1 & H2 & H3).
    + split; [apply Z.div_pos; lia|]. apply Z.div_lt_upper_bound; lia.
    + destruct fuel; [cbn in Hn; lia|lia].
    + split_and!; [apply Forall_app; split; [done|by constructor]| |rewrite length_app; lia].
      unfold hex_fold in *. rewrite foldl_app, H2. cbn. rewrite Hc. cbn. pose proof (Z.div_mod n 16 ltac:(lia)). lia.
Qed.

Lemma fromHex_value s :
  Forall is_hex s -> Nat.even (length s) = true ->
  exists bs, fromHex s = Ok bs /\ bytes_ok bs /\ (length s = 2 * length bs)%nat /\
    forall a, foldl (fun a b => a * 256 + b) a bs = hex_fold a s.
Proof.
  remember (length s) as n eqn:En. revert s En. induction n as [n IH] using (well_founded_ind lt_wf). intros s En Hs He.
  destruct s as [|x [|y s]]; cbn in En.
  - exists []. split_and!; [done|constructor|by subst|done].
  - by subst.
  - apply Forall_cons in Hs as [[dx [Ex Hx]] Hs]. apply Forall_cons in Hs as [[dy [Ey Hy]] Hs].
    destruct (IH (length s) ltac:(lia) s eq_refl Hs) as (bs & Eb & Hb & Hl & Hv); [by subst|].
    exists (16 * dx + dy :: bs). cbn [fromHex]. unfold parse_pair. rewrite Ex, Ey, Eb. split_and!; [done| |cbn; lia|].
    + constructor; [unfold is_byte; lia|done].
    + intros a. cbn [foldl]. rewrite Hv. unfold hex_fold at 2. cbn [foldl]. rewrite Ex, Ey. unfold hex_fold. f_equal. cbn. ring.
Qed.

Lemma toHex_bytes z :
  0 <= z -> exists raw, fromHex (toHex z) = Ok raw /\ bytes_ok raw /\ raw <> [] /\ be_value raw = z.
Proof.
  intros Hz. unfold toHex, to_string16. destruct (Z.ltb_spec z 0); [lia|]. cbn [app]. rewrite Z.abs_eq by done.
  set (fuel := S (Z.to_nat (Z.log2 z))). destruct (hex_digits_value fuel z) as (H1 & H2 & H3).
  - split; [done|]. unfold fuel. destruct (decide (z = 0)) as [->|Hn]; [done|].
    rewrite Nat2Z.inj_succ, Z2Nat.id by apply Z.log2_nonneg. pose proof (Z.log2_spec z ltac:(lia)) as [_ Hl].
    eapply Z.lt_le_trans; [exact Hl|]. apply Z.pow_le_mono_l. lia.
  - lia.
  - set (s := hex_digits fuel z) in *. clearbody s.
    assert (H0 : is_hex 48) by (by exists 0).
    destruct (Nat.even (length s)) eqn:Ee.
    + destruct (fromHex_value s H1 Ee) as (raw & E & Hok & Hl & Hv). exists raw. split_and!; [done|done| |].
      * intros ->. cbn in Hl. lia.
      * unfold be_value. by rewrite Hv.
    + destruct (fromHex_value (48 :: s)) as (raw & E & Hok & Hl & Hv); [by constructor| |].
      { cbn [length]. by rewrite Nat.even_succ, <- Nat.negb_even, Ee. }
      exists raw. split_and!; [done|done| |].
      * intros ->. cbn in Hl. lia.
      * unfold be_value. rewrite Hv. unfold hex_fold. cbn [foldl]. change (0 * 16 + default 0 (hex_value 48)) with 0. exact H2.
Qed.

Lemma encodeInteger_minimal z bs :
  0 <= z -> minimal bs -> be_value bs = z -> encodeInteger z = encodeAsn1 TagInteger bs.
Proof.
  intros Hz Hm Hv. unfold encodeInteger. destruct (toHex_bytes z Hz) as (raw & -> & Hok & Hn & Er). cbn [rbind].
  apply encodeIntegerBytes_minimal; [done..|]. by rewrite Hv, Er.
Qed.

(** ** What a value stands for *)

(** The unused bits and the octet of a bit string of eight named bits. *)
Definition unused_bits (n : Z) : Z := if n =? 0 then 8 else 7 - Z.log2 n.
Definition bits_octet (n : Z) : Z :=
  foldl (fun a i => a + (if Z.testbit n i then 2 ^ (7 - i) else 0)) 0 [0; 1; 2; 3; 4; 5; 6; 7].

Lemma encodeBitString_octet n :
  0 <= n < 256 -> encodeBitString n = Ok (TagBitString :: [2] ++ [unused_bits n; bits_octet n]).
Proof.
  intros H. assert (Hall : forallb_below 256 (fun n => bool_decide
    (encodeBitString n = Ok (TagBitString :: [2] ++ [unused_bits n; bits_octet n]))) = true) by (vm_compute; reflexivity).
  pose proof (forallb_below_spec _ _ Hall n ltac:(lia)) as Hn. by apply bool_decide_eq_true in Hn.
Qed.

Definition leaf (tag : Z) (bytes : list Z) : DerNode := mkNode tag bytes None None.

(** The year a date is in, in UTC: the first four digits of its ISO text. *)
Definition utc_year (d : JsDate) : Z := foldl (fun n u => n * 10 + (u - 48)) 0 (take 4 (isoString d)).

(** The node a value stands for.  Undefined fields are left out; the content of
    a constructed node is the encoding of its elements; a date is a UTCTime
    from 1950 to 2049 and a GeneralizedTime from 2050 to 9999, as in RFC 5280.

    Some values stand for no node.  A negative integer and a bit number from
    256 on are encoded as other values ([negative_integer_corrupted],
    [wide_bits_corrupted]); so is a date whose year in local time is on the
    other side of 2050 than its UTC year ([local_year_date]).  Empty integer
    octets and characters outside the alphabet of a printable or IA5 string
    are refused ([refused_values]); unused bits under another tag than BIT
    STRING become content; an undefined value alone has no octets. *)
Inductive represents : DerValue -> DerNode -> Prop :=
| RepArray vs ns parts :
    represents_all vs ns -> encode_all vs = Ok parts -> represents (VArray vs) (mkNode TagSet (mjoin parts) (Some ns) None)
| RepSequence vs ns parts :
    represents_all vs ns -> encode_all vs = Ok parts ->
    represents (VSequence vs) (mkNode TagSequence (mjoin parts) (Some ns) None)
| RepExplicit tag vs ns parts :
    is_byte tag -> Z.testbit tag 5 = true -> represents_all vs ns -> encode_all vs = Ok parts ->
    represents (VTagged tag None (mjoin parts)) (mkNode tag (mjoin parts) (Some ns) None)
| RepBytes bytes : represents (VBytes bytes) (leaf TagOctetString bytes)
| RepString s : represents (VString s) (leaf TagUTF8String (Utf8.encode s))
| RepPrintable s : forallb printable_char s = true -> represents (VPrintable s) (leaf TagPrintableString (Utf8.encode s))
| RepIA5 s : Forall (fun u => 0 <= u < 128) s -> represents (VIA5 s) (leaf TagIA5String (Utf8.encode s))
| RepInteger z bs : 0 <= z -> minimal bs -> be_value bs = z -> represents (VInteger z) (leaf TagInteger bs)
| RepIntegerBytes raw bs :
    raw <> [] -> bytes_ok raw -> minimal bs -> be_value bs = be_value raw -> represents (VIntegerBytes raw) (leaf TagInteger bs)
| RepBoolean b : represents (VBoolean b) (leaf TagBoolean [if b then 0xff else 0])
| RepUtcDate d :
    1950 <= utc_year d <= 2049 -> fullYear d <= 2049 ->
    represents (VDate d) (leaf TagUtcDate (Utf8.encode (drop 2 (take 14 (iso_digits d)) ++ [90])))
| RepGeneralizedTime d :
    2050 <= utc_year d <= 9999 -> 2050 <= fullYear d ->
    represents (VDate d) (leaf TagGeneralizedTime (Utf8.encode (take 14 (iso_digits d) ++ [90])))
| RepTagged tag bytes :
    is_byte tag -> tag <> TagBitString -> Z.testbit tag 5 = false -> represents (VTagged tag None bytes) (leaf tag bytes)
| RepBitString padding bytes :
    is_byte padding -> represents (VTagged TagBitString (Some padding) bytes) (mkNode TagBitString bytes None (Some padding))
| RepBits n : 0 <= n < 256 -> represents (VBits n) (mkNode TagBitString [bits_octet n] None (Some (unused_bits n)))
| RepRaw n bytes : der n bytes -> represents (VRaw bytes) n
with represents_all : list DerValue -> list DerNode -> Prop :=
| RepNil : represents_all [] []
| RepUndefined vs ns : represents_all vs ns -> represents_all (VUndefined :: vs) ns
| RepCons v n vs ns : represents v n -> represents_all vs ns -> represents_all (v :: vs) (n :: ns).

Scheme represents_mut := Minimality for represents Sort Prop
with represents_all_mut := Minimality for represents_all Sort Prop.
Combined Scheme represents_both from represents_mut, represents_all_mut.

Lemma encode_array vs : encode (VArray vs) =
  let* parts := encode_all vs in let* data := concat_all parts in encodeAsn1 TagSet data.
Proof. reflexivity. Qed.

Lemma encode_sequence vs : encode (VSequence vs) =
  let* parts := encode_all vs in let* data := concat_all parts in encodeAsn1 TagSequence data.
Proof. reflexivity. Qed.

Definition encodes (v : DerValue) (n : DerNode) : Prop :=
  exists bs, encode v = Ok bs /\ (byteLength bs < 2 ^ 32 -> der n bs).

Lemma asn1_length tag data : byteLength (tag :: encodeLengthBytes (byteLength data) ++ data) < 2 ^ 32 ->
  der_length (byteLength data) (encodeLengthBytes (byteLength data)).
Proof.
  intros H. apply encodeLengthBytes_der. unfold byteLength in *. cbn [length] in H. rewrite length_app in H. lia.
Qed.

Lemma leaf_encodes v tag bytes :
  encode v = encodeAsn1 tag bytes -> is_byte tag -> tag <> TagBitString -> Z.testbit tag 5 = false -> encodes v (leaf tag bytes).
Proof.
  intros E Hb Hn Ht. eexists. rewrite E, encodeAsn1_ok. split; [reflexivity|]. rewrite Z.mod_small by exact Hb.
  intros Hl. constructor; [done..|by eapply asn1_length].
Qed.

Lemma constructed_encodes v tag parts ns :
  encode v = encodeAsn1 tag (mjoin parts) -> is_byte tag -> Z.testbit tag 5 = true ->
  (byteLength (mjoin parts) < 2 ^ 32 -> der_list ns (mjoin parts)) ->
  encodes v (mkNode tag (mjoin parts) (Some ns) None).
Proof.
  intros E Hb Ht Hns. eexists. rewrite E, encodeAsn1_ok. split; [reflexivity|]. rewrite Z.mod_small by exact Hb.
  intros Hl. constructor; [done..| |by eapply asn1_length]. apply Hns.
  unfold byteLength in *. cbn [length] in Hl. rewrite length_app in Hl. lia.
Qed.

Lemma bits_encodes v padding bytes :
  encode v = encodeTagged TagBitString (Some padding) bytes -> is_byte padding ->
  encodes v (mkNode TagBitString bytes None (Some padding)).
Proof.
  intros E Hb. eexists. rewrite E. unfold encodeTagged. rewrite concat_all_join. cbn [rbind]. rewrite encodeAsn1_ok.
  split; [reflexivity|]. change (mjoin [[padding mod 256]; bytes]) with (padding mod 256 :: bytes ++ []). rewrite app_nil_r, (Z.mod_small padding) by exact Hb.
  intros Hl. apply (DerBits padding bytes). by eapply asn1_length.
Qed.

Ltac leaf := apply leaf_encodes; [try reflexivity|vm_compute; split; congruence|done|done].

Lemma represents_encodes :
  (forall v n, represents v n -> encodes v n) /\
  (forall vs ns, represents_all vs ns -> exists parts, encode_all vs = Ok parts /\
    (byteLength (mjoin parts) < 2 ^ 32 -> der_list ns (mjoin parts))).
Proof.
  assert (Hbyte : is_byte TagSet /\ is_byte TagSequence) by (vm_compute; split; split; congruence).
  apply represents_both; try (intros; by leaf).
  - intros vs ns parts _ (parts' & E & Hns) Ep. rewrite Ep in E. injection E as <-. apply constructed_encodes; [|apply Hbyte|done|done].
    by rewrite encode_array, Ep; cbn [rbind]; rewrite concat_all_join.
  - intros vs ns parts _ (parts' & E & Hns) Ep. rewrite Ep in E. injection E as <-. apply constructed_encodes; [|apply Hbyte|done|done].
    by rewrite encode_sequence, Ep; cbn [rbind]; rewrite concat_all_join.
  - intros tag vs ns parts Hb Ht _ (parts' & E & Hns) Ep. rewrite Ep in E. injection E as <-. by apply constructed_encodes.
  - intros s Hs. leaf. cbn. unfold encodePrintableString. by rewrite Hs.
  - intros s Hs. leaf. cbn. unfold encodeIA5String.
    assert (forallb (fun u => (0 <=? u) && (u <=? 0x7f)) s = true) as ->; [|done].
    apply forallb_forall. intros u Hu. apply list_elem_of_In in Hu. pose proof (proj1 (Forall_forall _ _) Hs u Hu) as Hr. cbn beta in Hr. lia.
  - intros z bs Hz Hm Hv. leaf. by apply encodeInteger_minimal.
  - intros raw bs Hn Hok Hm Hv. leaf. by apply encodeIntegerBytes_minimal.
  - intros d _ Hy. leaf. cbn. unfold encodeDate. by destruct (Z.ltb_spec 2049 (fullYear d)); [lia|].
  - intros d _ Hy. leaf. cbn. unfold encodeDate. by destruct (Z.ltb_spec 2049 (fullYear d)); [|lia].
  - intros tag bytes Hb Hn Ht. by apply leaf_encodes.
  - intros padding bytes Hb. by apply bits_encodes.
  - intros n Hn. eexists. cbn [encode]. split; [by apply encodeBitString_octet|]. intros _.
    apply (DerBits (unused_bits n) [bits_octet n] [2]). constructor. cbn. lia.
  - intros n bytes Hd. eexists. split; [reflexivity|done].
  - exists []. split; [done|]. constructor.
  - intros vs ns _ (parts & E & H). exists ([] :: parts). cbn. by rewrite E.
  - intros v n vs ns _ (b & Eb & Hb) _ (parts & E & H). exists (b :: parts). cbn [encode_all]. rewrite Eb, E. split; [done|].
    rewrite join_cons. intros Hl. unfold byteLength in *. rewrite length_app in Hl. constructor; [apply Hb|apply H]; lia.
Qed.


(** ** Decoding any bytes *)

(** A node as the decoder is typed to return it: octets and tag in range,
    unused bits on bit strings only, elements exactly on constructed tags. *)
Inductive typed : DerNode -> Prop :=
| TypedLeaf tag bytes :
    is_byte tag -> tag <> TagBitString -> Z.testbit tag 5 = false -> bytes_ok bytes -> typed (mkNode tag bytes None None)
| TypedBits bytes padding :
    bytes_ok bytes -> match padding with Some p => is_byte p | None => bytes = [] end -> typed (mkNode TagBitString bytes None padding)
| TypedConstructed tag bytes ns :
    is_byte tag -> Z.testbit tag 5 = true -> bytes_ok bytes -> Forall typed ns -> typed (mkNode tag bytes (Some ns) None).

(** A read of a byte buffer: it ends with a value, further on, or with an error
    of the data. *)
Definition good (r : Reader.DataReader) : Prop := Reader.wf r /\ bytes_ok (Reader.buffer r).

Definition outcome {A} (r : Reader.DataReader) (Q : A -> nat -> Prop) (x : result (A * Reader.DataReader)) : Prop :=
  match x with
  | Ok (a, r') => good r' /\ exists k, Reader.size r = (k + Reader.size r')%nat /\ Q a k
  | Throw e => e = DataReadError \/ e = DerError
  end.

Lemma outcome_bind {A B} (m : Reader.read A) (k : A -> Reader.read B) Q Q' r :
  outcome r Q (m r) -> (forall a i r', good r' -> Q a i -> outcome r' (fun b j => Q' b (i + j)%nat) (k a r')) ->
  outcome r Q' (Reader.bind m k r).
Proof.
  intros Hm Hk. unfold Reader.bind. destruct (m r) as [[a r']|e]; cbn in *; [|done]. destruct Hm as (Hg & i & Ei & HQ).
  specialize (Hk a i r' Hg HQ). destruct (k a r') as [[b r'']|e]; cbn in *; [|done]. destruct Hk as (Hg' & j & Ej & HQ').
  split; [done|]. exists (i + j)%nat. split; [lia|done].
Qed.

Lemma outcome_read n r :
  good r -> (exists r', Reader.getOffsetAndAdvance (Z.of_nat n) r = Ok (Reader.offset r, r') /\ good r' /\ Reader.size r = (n + Reader.size r')%nat /\
     bytes_ok (Reader.subarray (Reader.buffer r) (Reader.offset r) (Z.of_nat n)) /\
     length (Reader.subarray (Reader.buffer r) (Reader.offset r) (Z.of_nat n)) = n) \/
  Reader.getOffsetAndAdvance (Z.of_nat n) r = Throw DataReadError.
Proof.
  intros [Hw Hb]. unfold Reader.getOffsetAndAdvance. unfold Reader.wf in Hw. destruct (Z.ltb_spec (Z.of_nat n) 0); [lia|].
  destruct (Z.ltb_spec (byteLength (Reader.buffer r)) (Reader.offset r + Z.of_nat n)); [by right|]. left. eexists. split; [reflexivity|].
  unfold good, Reader.wf, Reader.size, Reader.remainingBytesCount, Reader.subarray, byteLength in *. cbn.
  split_and!; [lia|lia|done|lia| |].
  - by apply Forall_take, Forall_drop.
  - rewrite length_take, length_drop. lia.
Qed.

Lemma outcome_byte r : good r -> outcome r (fun b k => is_byte b /\ k = 1%nat) (Reader.readUInt8 r).
Proof.
  intros Hg. unfold Reader.readUInt8, Reader.readUnsigned. destruct (outcome_read 1 r Hg) as [(r' & E & Hg' & Hs & Hb & Hl)|E]; rewrite E; cbn; [|by left].
  split; [done|]. exists 1%nat. split_and!; [done| |done]. set (l := Reader.subarray _ _ _) in *. change (Z.of_nat 1) with 1 in *. fold l.
  destruct l as [|b [|]]; try done. apply Forall_cons in Hb as [Hb _]. unfold view_value. destruct (Reader.littleEndian r); cbn; unfold is_byte in *; lia.
Qed.

Lemma outcome_bytes n r :
  0 <= n -> good r -> outcome r (fun bs k => bytes_ok bs /\ k = length bs) (Reader.readByteArray n r).
Proof.
  intros Hn Hg. unfold Reader.readByteArray. rewrite <- (Z2Nat.id n Hn).
  destruct (outcome_read (Z.to_nat n) r Hg) as [(r' & E & Hg' & Hs & Hb & Hl)|E]; rewrite E; cbn [rbind outcome]; [|by left].
  split; [done|]. exists (Z.to_nat n). by rewrite Hl.
Qed.

Lemma outcome_ret {A} (a : A) Q r : good r -> Q a 0%nat -> outcome r Q (Reader.ret a r).
Proof. intros Hg HQ. split; [done|]. by exists 0%nat. Qed.

Lemma outcome_length n acc r : 0 <= acc -> good r -> outcome r (fun v k => 0 <= v) (read_length n acc r).
Proof.
  revert acc r. induction n as [|n IH]; intros acc r Ha Hg; cbn [read_length]; [by apply outcome_ret|].
  eapply outcome_bind; [by apply outcome_byte|]. intros b i r' Hg' [Hb ->]. apply IH; [unfold is_byte in Hb; lia|done].
Qed.

Lemma outcome_asn1 r :
  good r -> outcome r (fun x k => is_byte x.1 /\ bytes_ok x.2 /\ (2 + length x.2 <= k)%nat) (decodeAsn1 r).
Proof.
  intros Hg. unfold decodeAsn1. eapply outcome_bind; [by apply outcome_byte|]. intros tag ? r1 Hg1 [Ht ->].
  eapply outcome_bind; [by apply outcome_byte|]. intros len ? r2 Hg2 [Hlen ->].
  eapply (outcome_bind _ _ (fun v _ => 0 <= v)).
  - destruct (negb _); [|apply outcome_ret; [done|unfold is_byte in Hlen; lia]].
    destruct (_ =? 0); [by right|]. destruct (_ <? _); [by right|]. by apply outcome_length.
  - intros v j r3 Hg3 Hv. eapply outcome_bind; [by apply outcome_bytes|]. intros bs ? r4 Hg4 [Hb ->].
    apply outcome_ret; [done|]. cbn. split_and!; [done|done|lia].
Qed.

Lemma decode_outcome F : forall r, good r ->
  ((2 * Reader.size r < F)%nat -> outcome r (fun n k => typed n /\ (0 < k)%nat) (decodeRec F r)) /\
  ((2 * Reader.size r + 1 < F)%nat ->
    match decode_elements F r with Ok ns => Forall typed ns | Throw e => e = DataReadError \/ e = DerError end).
Proof.
  induction F as [|F IH]; intros r Hg; [split; lia|]. split; intros HF.
  - cbn [decodeRec]. pose proof (outcome_asn1 r Hg) as Ha. destruct (decodeAsn1 r) as [[[tag bytes] r']|e]; cbn [rbind outcome fst snd] in *; [|done].
    destruct Ha as (Hg' & k & Ek & Ht & Hb & Hk). destruct (Z.eqb_spec tag TagBitString) as [->|Hn].
    { split; [done|]. exists k. split_and!; [done| |lia]. apply TypedBits; [by apply Forall_drop|].
      destruct bytes as [|p bytes]; [done|]. by apply Forall_cons in Hb as [? _]. }
    rewrite constructed_bit by done. destruct (Z.testbit tag 5) eqn:E5; cbn [negb].
    + assert (Hgb : good (Reader.new bytes false)).
      { split; [unfold Reader.wf, Reader.new, byteLength; cbn; lia|done]. }
      assert (Hsz : Reader.size (Reader.new bytes false) = length bytes).
      { unfold Reader.size, Reader.remainingBytesCount, Reader.new, byteLength. cbn. lia. }
      destruct (IH _ Hgb) as [_ He]. specialize (He ltac:(lia)).
      destruct (decode_elements F _) as [ns|e]; cbn [rbind outcome]; [|done].
      split; [done|]. exists k. split_and!; [done|by constructor|lia].
    + split; [done|]. exists k. split_and!; [done|by constructor|lia].
  - cbn [decode_elements]. destruct (Z.ltb_spec 0 (Reader.remainingBytesCount r)); [|constructor].
    destruct (IH r Hg) as [Hd _]. specialize (Hd ltac:(lia)). destruct (decodeRec F r) as [[n r']|e]; cbn [rbind outcome] in *; [|done].
    destruct Hd as (Hg' & k & Ek & Hn & Hk). destruct (IH r' Hg') as [_ He]. specialize (He ltac:(lia)).
    destruct (decode_elements F r') as [ns|e]; cbn [rbind]; [by constructor|done].
Qed.

(** C17: Whatever bytes are decoded, the decoder ends, with a node of its type or
    with a DerError. *)
Theorem decode_typed bs : bytes_ok bs -> match decode bs with Ok n => typed n | Throw e => e = DerError end.
Proof.
  intros Hb. unfold decode. assert (Hg : good (Reader.new bs false)).
  { split; [unfold Reader.wf, Reader.new, byteLength; cbn; lia|done]. }
  assert (Hs : Reader.size (Reader.new bs false) = length bs).
  { unfold Reader.size, Reader.remainingBytesCount, Reader.new, byteLength. cbn. lia. }
  pose proof (proj1 (decode_outcome (S (2 * length bs)) _ Hg) ltac:(lia)) as Hd.
  destruct (decodeRec _ _) as [[n r']|e]; cbn in Hd; [destruct Hd as (_ & k & _ & Hn & _); exact Hn|]. by destruct Hd as [->| ->].
Qed.

Lemma decode_typed_witness :
  typed (mkNode TagSequence [2; 1; 5] (Some [leaf TagInteger [5]]) None).
Proof.
  assert (Hb : bytes_ok [0x30; 3; 2; 1; 5]) by (repeat constructor; unfold is_byte; lia).
  exact (decode_typed [0x30; 3; 2; 1; 5] Hb).
Defined.

(** ** Signatures *)

Lemma uint_start_minimal fuel data i :
  (length data - i <= fuel)%nat -> (i < length data)%nat -> bytes_ok data -> (forall b, data !! i = Some b -> b < 128) ->
  minimal (drop (uint_start fuel data i) data) /\ be_value (drop (uint_start fuel data i) data) = be_value (drop i data).
Proof.
  revert i. induction fuel as [|fuel IH]; intros i Hf Hi Hok Hb; [lia|]. cbn [uint_start].
  destruct (lookup_lt_is_Some_2 data i Hi) as [b Eb]. pose proof (drop_S _ _ _ Eb) as D. specialize (Hb b Eb).
  assert (Hd : bytes_ok (drop i data)) by (by apply Forall_drop).
  destruct (Nat.ltb_spec i (length data - 1)) as [Hlt|Hge].
  - destruct (lookup_lt_is_Some_2 data (S i) ltac:(lia)) as [b' Eb']. pose proof (drop_S _ _ _ Eb') as D'.
    rewrite (nth_lookup_Some data i 0 b Eb), (nth_lookup_Some data (S i) 0 b' Eb').
    assert (Hb' : is_byte b') by (exact (proj1 (Forall_lookup _ _) Hok _ _ Eb')). rewrite high_bit by done.
    destruct (Z.eqb_spec b 0) as [->|Hn]; cbn [negb orb].
    + destruct (Z.ltb_spec b' 128); cbn [negb].
      * destruct (IH (S i)) as [Hm Hv]; [lia|lia|done|intros ? E; rewrite Eb' in E; by injection E as <-|]. split; [done|]. rewrite Hv, D, be_value_cons. lia.
      * split; [|done]. split; [done|]. rewrite D, D'. split; [lia|by right].
    + split; [|done]. split; [done|]. rewrite D, D'. split; [lia|by left].
  - split; [|done]. split; [done|]. rewrite D. rewrite drop_ge by lia. done.
Qed.

Lemma DerRawUint_minimal number :
  number <> [] -> bytes_ok number ->
  exists bs, DerRawUint number = Ok (VTagged TagInteger None bs) /\ minimal bs /\ be_value bs = be_value number /\ (length bs <= S (length number))%nat.
Proof.
  intros Hn Hok. destruct number as [|b l]; [done|]. pose proof Hok as Hok'. apply Forall_cons in Hok' as [Hb _].
  unfold DerRawUint. cbn [nth]. rewrite high_bit by done. destruct (Z.ltb_spec b 128); cbn [negb].
  - cbn [rbind]. eexists. split; [reflexivity|]. destruct (uint_start_minimal (length (b :: l)) (b :: l) 0) as [Hm Hv]; [lia|cbn; lia|done|by intros ? [= <-]|].
    split_and!; [done|by rewrite Hv|]. rewrite length_drop. lia.
  - rewrite concat_all_join. cbn [rbind]. change (mjoin [[0]; b :: l]) with (0 :: (b :: l) ++ []). rewrite app_nil_r.
    eexists. split; [reflexivity|]. split_and!; [|rewrite be_value_cons; lia|done].
    split; [by constructor|]. split; [lia|by right].
Qed.

Lemma decodeBigUint_value n len bs :
  n_tag n = TagInteger -> n_bytes n = bs -> minimal bs -> be_value bs < 256 ^ Z.of_nat len ->
  exists out, decodeBigUint (Some n) len = Ok out /\ length out = len /\ bytes_ok out /\ be_value out = be_value bs.
Proof.
  intros Ht Hb Hm Hv. unfold decodeBigUint. rewrite Ht, Hb. cbn [negb Z.eqb TagInteger]. destruct Hm as [Hok Hm].
  destruct (decide (length bs = len)) as [El|Hl]; [by exists bs|]. destruct (decide _) as [[El E0]|Hn].
  - destruct bs as [|b bs]; [done|]. cbn in E0. subst b. exists bs. apply Forall_cons in Hok as [_ Hok].
    split_and!; [done|by injection El|done|]. rewrite be_value_cons. lia.
  - destruct (Nat.ltb_spec (length bs) len).
    + rewrite concat_all_join. eexists. split; [reflexivity|]. change (mjoin [?a; bs]) with (a ++ bs ++ []).
      cbn [mjoin list_join]. rewrite app_nil_r. split_and!.
      * rewrite length_app, repeat_length. lia.
      * apply Forall_app. split; [|done]. apply Forall_forall. intros x Hx%list_elem_of_In%repeat_spec. subst. by unfold is_byte.
      * apply be_value_zeros.
    + exfalso. destruct bs as [|b [|b' l]]; cbn [length nth] in *; [done| |].
      * assert (len = 0%nat) as -> by lia. unfold be_value in Hv. cbn in Hv. apply Forall_cons in Hok as [Hb0 _]. unfold is_byte in *.
        apply Hn. split; [done|lia].
      * apply Forall_cons in Hok as [Hb0 Hok]. apply Forall_cons in Hok as [Hb1 Hok]. unfold is_byte in *.
        pose proof (be_value_range l Hok) as Hr. rewrite !be_value_cons in Hv. cbn [length] in Hv.
        destruct (decide (b = 0)) as [->|Hb2].
        -- assert (len < S (length l))%nat by (destruct (decide (len = S (length l))); [exfalso; apply Hn; by subst|lia]).
           assert (256 ^ Z.of_nat len <= 256 ^ Z.of_nat (length l)) by (apply Z.pow_le_mono_r; lia).
           pose proof (Z.pow_pos_nonneg 256 (Z.of_nat (length l)) ltac:(lia) ltac:(lia)). nia.
        -- assert (256 ^ Z.of_nat len <= 256 ^ Z.of_nat (S (length l))) by (apply Z.pow_le_mono_r; lia).
           pose proof (Z.pow_pos_nonneg 256 (Z.of_nat (length l)) ltac:(lia) ltac:(lia)).
           pose proof (Z.pow_pos_nonneg 256 (Z.of_nat (S (length l))) ltac:(lia) ltac:(lia)). nia.
Qed.

Lemma encodeLengthBytes_short v : (length (encodeLengthBytes v) <= 5)%nat.
Proof.
  unfold encodeLengthBytes. destruct (_ || _); rewrite length_drop; [rewrite length_insert|]; cbn [length]; rewrite view_bytes_length; lia.
Qed.

Lemma signature_component number v :
  length number = 32%nat -> bytes_ok number -> DerRawUint number = Ok v ->
  exists n, represents v n /\ decodeBigUint (Some n) 32 = Ok number /\
    (exists bs, encode v = Ok bs /\ (length bs <= 200)%nat).
Proof.
  intros Hl Hok E. destruct (DerRawUint_minimal number) as (bs & Er & Hm & Hv & Hlen); [by destruct number|done|].
  rewrite Er in E. injection E as <-. exists (leaf TagInteger bs). split_and!.
  - apply RepTagged; [by vm_compute; split; congruence|done|done].
  - destruct (decodeBigUint_value (leaf TagInteger bs) 32 bs) as (out & -> & Ho & Hob & Hov); [done|done|done| |].
    + rewrite Hv, <- Hl. by apply be_value_range.
    + f_equal. apply be_value_inj; [done|done|lia|]. by rewrite Hov, Hv.
  - eexists. cbn [encode encodeTagged]. rewrite encodeAsn1_ok. split; [reflexivity|]. cbn [length]. rewrite length_app.
    pose proof (encodeLengthBytes_short (byteLength bs)). lia.
Qed.

(** C18: An ECDSA signature survives its DER form, byte for byte. *)
Theorem signature_roundtrip bytes :
  length bytes = 64%nat -> bytes_ok bytes ->
  exists d, signature_der bytes = Ok d /\ signature_of_der d = Ok bytes.
Proof.
  intros Hl Hok. unfold signature_der. rewrite Hl. change (64 / 2)%nat with 32%nat. set (r := take 32 bytes). set (s := drop 32 bytes).
  assert (Hr : length r = 32%nat) by (unfold r; rewrite length_take; lia). assert (Hs : length s = 32%nat) by (unfold s; rewrite length_drop; lia).
  assert (Hrok : bytes_ok r) by (by apply Forall_take). assert (Hsok : bytes_ok s) by (by apply Forall_drop).
  destruct (DerRawUint_minimal r) as (br & Er & _); [by destruct r|done|]. destruct (DerRawUint_minimal s) as (bs & Es & _); [by destruct s|done|].
  rewrite Er, Es. cbn [rbind].
  destruct (signature_component r _ Hr Hrok Er) as (nr & Rr & Dr & pr & Epr & Lr).
  destruct (signature_component s _ Hs Hsok Es) as (ns & Rs & Ds & ps & Eps & Ls).
  assert (Hall : encode_all [VTagged TagInteger None br; VTagged TagInteger None bs] = Ok [pr; ps]) by (cbn [encode_all]; by rewrite Epr, Eps).
  pose proof (RepSequence _ [nr; ns] [pr; ps] (RepCons _ _ _ _ Rr (RepCons _ _ _ _ Rs RepNil)) Hall) as Hrep.
  destruct (proj1 represents_encodes _ _ Hrep) as (d & Ed & Hd). exists d. split; [done|].
  assert (Hlen : byteLength d < 2 ^ 32).
  { rewrite encode_sequence, Hall in Ed. cbn [rbind] in Ed. rewrite concat_all_join in Ed. cbn [rbind] in Ed. rewrite encodeAsn1_ok in Ed.
    injection Ed as <-. unfold byteLength at 1. cbn [length]. rewrite length_app.
    pose proof (encodeLengthBytes_short (byteLength (mjoin [pr; ps]))).
    cbn [mjoin list_join] in *. rewrite !length_app. cbn [length] in *. lia. }
  unfold signature_of_der. rewrite (decode_der _ _ (Hd Hlen)). cbn [rbind n_elements mbind option_bind lookup list_lookup].
  rewrite Dr, Ds. cbn [rbind]. rewrite concat_all_join. cbn [mjoin list_join]. rewrite app_nil_r. unfold r, s. by rewrite take_drop.
Qed.


Lemma signature_roundtrip_witness :
  exists d, signature_der (repeat 0 31 ++ [200] ++ repeat 255 32) = Ok d /\
    signature_of_der d = Ok (repeat 0 31 ++ [200] ++ repeat 255 32).
Proof.
  apply signature_roundtrip; [reflexivity|]. apply Forall_forall. intros x Hx. vm_compute in Hx.
  repeat (apply elem_of_cons in Hx as [->|Hx]; [unfold is_byte; lia|]). by apply not_elem_of_nil in Hx.
Defined.

(** ** Values that are encoded as others *)

(** Negative numbers lose their sign, or become another number. *)
Theorem negative_integer_corrupted :
  encode (VInteger (-16)) = encode (VInteger 16) /\ encode (VInteger (-1)) = encode (VInteger 255).
Proof. split; vm_compute; reflexivity. Qed.

(** Values without an encoding are refused. *)
Theorem refused_values :
  (exists e, encode (VIntegerBytes []) = Throw e) /\
  (forall s, forallb printable_char s = false -> exists e, encode (VPrintable s) = Throw e) /\
  (forall s, forallb (fun u => (0 <=? u) && (u <=? 0x7f)) s = false -> exists e, encode (VIA5 s) = Throw e).
Proof.
  split; [eexists; vm_compute; reflexivity|]. split; intros s Hs; cbn [encode].
  - unfold encodePrintableString. rewrite Hs. by eexists.
  - unfold encodeIA5String. rewrite Hs. by eexists.
Qed.

(** A bit string of more than eight bits keeps eight of them. *)
Theorem wide_bits_corrupted : encode (VBits 256) = encode (VBits 128).
Proof. vm_compute. reflexivity. Qed.

(** 2050-01-01T00:30:00.000Z where the local year is still 2049. *)
Definition new_year : JsDate :=
  mkDate 2049 [50; 48; 53; 48; 45; 48; 49; 45; 48; 49; 84; 48; 48; 58; 51; 48; 58; 48; 48; 46; 48; 48; 48; 90].

(** The form of a date follows the local year: this one gets the two-digit
    year of 1950. *)
Theorem local_year_date :
  encode (VDate new_year) = Ok ([TagUtcDate; 13] ++ [53; 48; 48; 49; 48; 49; 48; 48; 51; 48; 48; 48; 90]).
Proof. vm_compute. reflexivity. Qed.
