(* ===== verification/JsText.v ===== *)
(** * Text operations of the language

    The string methods and number conversions the address and DNS code uses: a
    string is the list of its UTF-16 code units. *)

From stdpp Require Import list.
From S2P Require Import Prelude DataIO Text Der.

(** ** Definitions *)

(** [s.split(sep)] for a separator of one code unit. *)
Fixpoint split (sep : Z) (s : list Z) : list (list Z) :=
  match s with
  | [] => [[]]
  | u :: s =>
      if u =? sep then [] :: split sep s
      else match split sep s with p :: ps => (u :: p) :: ps | [] => [[u]] end
  end.

(** [parts.join(sep)] *)
Fixpoint join (sep : Z) (parts : list (list Z)) : list Z :=
  match parts with
  | [] => []
  | [p] => p
  | p :: ps => p ++ sep :: join sep ps
  end.

(** [s.includes(c)] *)
Definition includes (c : Z) (s : list Z) : bool := existsb (Z.eqb c) s.

(** [s.replace(pattern, replacement)] for strings: the first occurrence. *)
Fixpoint replace (pattern replacement s : list Z) : list Z :=
  if bool_decide (pattern `prefix_of` s) then replacement ++ drop (length pattern) s
  else match s with [] => [] | u :: s => u :: replace pattern replacement s end.

(** [s.padEnd(targetLength, filler)] for a filler that is not empty. *)
Definition padEnd (s : list Z) (targetLength : Z) (filler : list Z) : list Z :=
  s ++ take (Z.to_nat (targetLength - byteLength s)) (mjoin (repeat filler (Z.to_nat targetLength))).

(** [s.toLowerCase()] on ASCII text. *)
Definition toLowerCase (s : list Z) : list Z := (fun u => if (65 <=? u) && (u <=? 90) then u + 32 else u) <$> s.

(** [n.toString(radix)] of a natural number; as many digits as bits are enough. *)
Fixpoint digits (radix : Z) (fuel : nat) (n : Z) : list Z :=
  match fuel with
  | O => []
  | S fuel => (if n <? radix then [] else digits radix fuel (n / radix)) ++ [hex_char (n mod radix)]
  end.

Definition toString (radix n : Z) : list Z := digits radix (S (Z.to_nat (Z.log2 n))) n.

(** The white space [parseInt] skips. *)
Definition is_space (u : Z) : bool :=
  ((9 <=? u) && (u <=? 13)) || ((0x2000 <=? u) && (u <=? 0x200a)) ||
  bool_decide (u ∈ [32; 0xa0; 0x1680; 0x2028; 0x2029; 0x202f; 0x205f; 0x3000; 0xfeff]).

Fixpoint trim_start (s : list Z) : list Z :=
  match s with u :: s' => if is_space u then trim_start s' else s | [] => [] end.

Definition digit_of (radix u : Z) : option Z :=
  match hex_value u with Some d => if d <? radix then Some d else None | None => None end.

(** The value of the longest prefix of digits; none is NaN. *)
Fixpoint parse_digits (radix : Z) (acc : option Z) (s : list Z) : option Z :=
  match s with
  | [] => acc
  | u :: s =>
      match digit_of radix u with
      | Some d => parse_digits radix (Some (default 0 acc * radix + d)) s
      | None => acc
      end
  end.

(** The double next to a natural number.  From 2^1024 on it is Infinity, which an
    integer array stores as 0 like the multiple of 2^971 computed here. *)
Definition to_double (v : Z) : Z :=
  if v <? 2 ^ 53 then v else let k := Z.log2 v - 52 in Float.round_even v k * 2 ^ k.

(** [parseInt(s)] and [parseInt(s, radix)] for radix 10 and 16. *)
Definition parseInt (s : list Z) (radix : option Z) : option Z :=
  let s := trim_start s in
  let '(sign, s) :=
    match s with
    | u :: s' => if u =? 45 then (-1, s') else if u =? 43 then (1, s') else (1, s)
    | [] => (1, s)
    end in
  let hex := match radix with None => true | Some r => r =? 16 end in
  let '(radix, s) :=
    match s with
    | a :: b :: s' => if hex && (a =? 48) && ((b =? 120) || (b =? 88)) then (16, s') else (default 10 radix, s)
    | _ => (default 10 radix, s)
    end in
  (fun v => sign * to_double v) <$> parse_digits radix None s.

(** A number stored in an array of unsigned integers of [n] bits. *)
Definition to_uint (n : Z) (v : option Z) : Z := match v with Some v => v mod 2 ^ n | None => 0 end.

(** ** Splitting and joining *)

Definition no_sep (sep : Z) (p : list Z) : Prop := Forall (fun u => u <> sep) p.

Lemma split_some_part sep s : split sep s <> [].
Proof. destruct s as [|u s]; cbn; [done|]. case_match; [done|]. by case_match. Qed.

Lemma split_piece sep p : no_sep sep p -> split sep p = [p].
Proof. induction 1 as [|u p Hu _ IH]; cbn; [done|]. rewrite (proj2 (Z.eqb_neq u sep) Hu). by rewrite IH. Qed.

Lemma split_app sep p s : no_sep sep p -> split sep (p ++ sep :: s) = p :: split sep s.
Proof.
  induction 1 as [|u p Hu _ IH]; cbn; [by rewrite Z.eqb_refl|]. rewrite (proj2 (Z.eqb_neq u sep) Hu). by rewrite IH.
Qed.

Lemma join_cons_app sep p ps : ps <> [] -> join sep (p :: ps) = p ++ sep :: join sep ps.
Proof. by destruct ps. Qed.

Lemma split_of_join sep ps : ps <> [] -> Forall (no_sep sep) ps -> split sep (join sep ps) = ps.
Proof.
  intros Hn H. induction H as [|p ps Hp H IH]; [done|]. destruct ps as [|q ps]; [by apply split_piece|].
  rewrite join_cons_app, split_app, IH by done. done.
Qed.

Lemma join_split sep s : join sep (split sep s) = s.
Proof.
  induction s as [|u s IH]; cbn [split]; [done|]. pose proof (split_some_part sep s) as Hn.
  destruct (Z.eqb_spec u sep) as [->|Hu]; [by rewrite join_cons_app, IH|].
  destruct (split sep s) as [|p [|q ps]]; [done|cbn in *; by rewrite IH|]. cbn [join app] in *. by rewrite IH.
Qed.

Lemma split_no_sep sep s : Forall (no_sep sep) (split sep s).
Proof.
  induction s as [|u s IH]; cbn [split]; [repeat constructor|].
  destruct (Z.eqb_spec u sep) as [->|Hu]; [constructor; [constructor|done]|].
  destruct IH as [|p ps Hp IH]; [repeat constructor; done|]. by repeat constructor.
Qed.

Lemma join_parts_app sep ps qs : ps <> [] -> qs <> [] -> join sep (ps ++ qs) = join sep ps ++ sep :: join sep qs.
Proof.
  intros Hp Hq. induction ps as [|p ps IH]; [done|]. destruct ps as [|p' ps]; [by apply join_cons_app|].
  change ((p :: p' :: ps) ++ qs) with (p :: (p' :: ps) ++ qs). rewrite join_cons_app by done. rewrite IH by done.
  rewrite (join_cons_app sep p (p' :: ps)) by done. by rewrite <- app_assoc.
Qed.

Lemma elem_of_join sep ps c : c ∈ join sep ps -> c = sep \/ exists p, p ∈ ps /\ c ∈ p.
Proof.
  induction ps as [|p ps IH]; cbn; [by intros ?%elem_of_nil|]. destruct ps as [|q ps].
  - intros H. right. exists p. split; [constructor|done].
  - rewrite elem_of_app, elem_of_cons. intros [H|[->|H]]; [|by left|].
    + right. exists p. split; [constructor|done].
    + destruct (IH H) as [->|(r & Hr & Hc)]; [by left|]. right. exists r. split; [by constructor|done].
Qed.

Lemma includes_spec c s : includes c s = true <-> c ∈ s.
Proof.
  unfold includes. rewrite existsb_exists. split.
  - intros (u & Hu & E). apply Z.eqb_eq in E. subst u. by apply list_elem_of_In.
  - intros H. exists c. split; [by apply list_elem_of_In|apply Z.eqb_refl].
Qed.

(** ** Digits *)

(** The text of a number in a radix: digits, the first of them not 0 unless it is
    the only one. *)
Definition fold_digits (radix a : Z) (s : list Z) : Z := foldl (fun a u => a * radix + default 0 (digit_of radix u)) a s.

Definition numeral (radix : Z) (s : list Z) (n : Z) : Prop :=
  Forall (fun u => exists d, u = hex_char d /\ 0 <= d < radix) s /\ fold_digits radix 0 s = n /\
  match s with [] => False | [_] => True | u :: _ => u <> 48 end.

Lemma hex_char_digit radix d : radix <= 16 -> 0 <= d < radix -> digit_of radix (hex_char d) = Some d.
Proof.
  intros Hr Hd. unfold digit_of.
  assert (Hall : forallb_below 16 (fun d => bool_decide (hex_value (hex_char d) = Some d)) = true) by (vm_compute; reflexivity).
  pose proof (forallb_below_spec _ _ Hall d ltac:(lia)) as E. apply bool_decide_eq_true in E. rewrite E.
  by destruct (Z.ltb_spec d radix); [|lia].
Qed.

Lemma digits_numeral radix fuel n :
  2 <= radix <= 16 -> 0 <= n < radix ^ Z.of_nat fuel -> (0 < fuel)%nat -> numeral radix (digits radix fuel n) n.
Proof.
  intros Hr. revert n. induction fuel as [|fuel IH]; intros n Hn Hf; [lia|]. cbn [digits].
  assert (Hm : 0 <= n mod radix < radix) by (apply Z.mod_pos_bound; lia).
  assert (Hlast : exists d, hex_char (n mod radix) = hex_char d /\ 0 <= d < radix) by (by exists (n mod radix)).
  pose proof (hex_char_digit radix _ (proj2 Hr) Hm) as Hc. destruct (Z.ltb_spec n radix) as [Hlt|Hge].
  - cbn [app]. split_and!; [by constructor| |done]. unfold fold_digits. cbn. rewrite Hc. cbn. rewrite Z.mod_small; lia.
  - rewrite Nat2Z.inj_succ, Z.pow_succ_r in Hn by lia. destruct (IH (n / radix)) as (H1 & H2 & H3).
    + split; [apply Z.div_pos; lia|]. apply Z.div_lt_upper_bound; lia.
    + destruct fuel; [cbn in Hn; lia|lia].
    + split_and!; [apply Forall_app; split; [done|by constructor]| |].
      * unfold fold_digits in *. rewrite foldl_app, H2. cbn. rewrite Hc. cbn. pose proof (Z.div_mod n radix ltac:(lia)). lia.
      * destruct (digits radix fuel (n / radix)) as [|u [|u' s]] eqn:Ed; [done| |done]. cbn [app]. intros ->.
        unfold fold_digits in H2. cbn in H2. assert (1 <= n / radix) by (apply Z.div_le_lower_bound; lia).
        unfold digit_of in H2. cbn in H2. destruct (_ <? radix); cbn in H2; lia.
Qed.

Lemma toString_numeral radix n : 2 <= radix <= 16 -> 0 <= n -> numeral radix (toString radix n) n.
Proof.
  intros Hr Hn. apply digits_numeral; [done| |lia]. split; [done|]. destruct (decide (n = 0)) as [->|H0]; [cbn; lia|].
  rewrite Nat2Z.inj_succ, Z2Nat.id by apply Z.log2_nonneg. pose proof (Z.log2_spec n ltac:(lia)) as [_ Hl].
  eapply Z.lt_le_trans; [exact Hl|]. apply Z.pow_le_mono_l. lia.
Qed.

Lemma numeral_zero radix s n : 2 <= radix <= 16 -> numeral radix s n -> (s = [48] <-> n = 0).
Proof.
  intros Hr (Hd & <- & Hh). split.
  - intros ->. unfold fold_digits, digit_of. cbn. destruct (_ <? radix); cbn; lia.
  - intros H0. destruct s as [|u s]; [done|].
    assert (Hmono : forall s a, Forall (fun u => exists d, u = hex_char d /\ 0 <= d < radix) s -> 0 <= a -> a <= fold_digits radix a s).
    { clear. intros s. induction s as [|u s IH]; intros a Hs Ha; [cbn; lia|]. apply Forall_cons in Hs as [(d & -> & Hd) Hs].
      unfold fold_digits. cbn [foldl]. fold (fold_digits radix (a * radix + default 0 (digit_of radix (hex_char d))) s).
      assert (0 <= default 0 (digit_of radix (hex_char d))).
      { destruct (decide (radix <= 16)); [rewrite hex_char_digit by lia; cbn; lia|]. unfold digit_of. destruct (hex_value _) eqn:E; [|done].
        unfold hex_value in E. repeat case_match; simplify_eq; cbn; try done; lia. }
      specialize (IH (a * radix + default 0 (digit_of radix (hex_char d))) Hs ltac:(nia)). nia. }
    apply Forall_cons in Hd as [(d & -> & Hd) Hs]. unfold fold_digits in H0. cbn [foldl] in H0. rewrite hex_char_digit in H0 by lia. cbn in H0.
    specialize (Hmono s (0 * radix + d) Hs ltac:(lia)). unfold fold_digits in Hmono. assert (d = 0) as -> by lia. destruct s; [done|]. by cbn in Hh.
Qed.

(** Any spelling of a number, in either case and with leading zeros. *)
Definition spelled (radix : Z) (s : list Z) (n : Z) : Prop :=
  s <> [] /\ Forall (fun u => is_Some (digit_of radix u)) s /\ fold_digits radix 0 s = n.

Lemma numeral_spelled radix s n : radix <= 16 -> numeral radix s n -> spelled radix s n.
Proof.
  intros Hr (Hd & Hv & Hh). split_and!; [by destruct s| |done].
  eapply Forall_impl; [exact Hd|]. intros u (d & -> & H). by rewrite hex_char_digit.
Qed.

Lemma parse_digits_fold radix s a :
  Forall (fun u => is_Some (digit_of radix u)) s -> parse_digits radix (Some a) s = Some (fold_digits radix a s).
Proof.
  intros Hs. revert a. induction Hs as [|u s [d Hd] _ IH]; intros a; [done|]. cbn [parse_digits].
  unfold fold_digits. cbn [foldl]. rewrite Hd. cbn [default]. apply IH.
Qed.

Lemma digit_plain radix u : is_Some (digit_of radix u) ->
  is_space u = false /\ (u ∉ [45; 43; 120; 88; 46; 58]) /\ 0 <= u < 128.
Proof.
  intros [d Hd]. assert (Hv : is_Some (hex_value u)) by (unfold digit_of in Hd; by destruct (hex_value u)).
  assert (Hu : 0 <= u < 128).
  { destruct Hv as [v Hv]. unfold hex_value in Hv. destruct ((48 <=? u) && (u <=? 57)) eqn:E1; [lia|].
    destruct ((97 <=? u) && (u <=? 102)) eqn:E2; [lia|]. destruct ((65 <=? u) && (u <=? 70)) eqn:E3; [lia|done]. }
  assert (Hall : forallb_below 128 (fun u => match hex_value u with
    | Some _ => negb (is_space u) && bool_decide (u ∉ [45; 43; 120; 88; 46; 58]) | None => true end) = true) by (vm_compute; reflexivity).
  pose proof (forallb_below_spec _ _ Hall u ltac:(lia)) as H. cbn beta in H. destruct Hv as [v Hv]. rewrite Hv in H.
  apply andb_prop in H as [H1 H2]. apply bool_decide_eq_true in H2. apply negb_true_iff in H1. exact (conj H1 (conj H2 Hu)).
Qed.

(** Reading a number back. *)
Lemma parseInt_spelled radix s n :
  spelled radix s n -> n < 2 ^ 53 -> parseInt s (Some radix) = Some n /\ (radix = 10 -> parseInt s None = Some n).
Proof.
  intros (Hn & Hall & Hv) Hb. destruct s as [|u s]; [done|]. pose proof Hall as Hd.
  apply Forall_cons in Hd as [Hu Hs]. destruct (digit_plain radix u Hu) as (Hsp & Hne & _).
  rewrite !not_elem_of_cons in Hne. destruct Hne as (N1 & N2 & _).
  assert (Hdig : parse_digits radix None (u :: s) = Some n).
  { cbn [parse_digits]. destruct Hu as [d Hd]. rewrite Hd. cbn [default]. rewrite parse_digits_fold by done. rewrite <- Hv.
    unfold fold_digits. cbn [foldl]. by rewrite Hd. }
  assert (Hx : forall (b : bool), match u :: s with
    | a :: b' :: s' => if b && (a =? 48) && ((b' =? 120) || (b' =? 88)) then (16, s') else (radix, u :: s)
    | _ => (radix, u :: s) end = (radix, u :: s)).
  { intros b. destruct s as [|c s]; [done|]. apply Forall_cons in Hs as [Hc _].
    destruct (digit_plain radix c Hc) as (_ & Hne & _). rewrite !not_elem_of_cons in Hne. destruct Hne as (_ & _ & M1 & M2 & _).
    rewrite (proj2 (Z.eqb_neq _ _) M1), (proj2 (Z.eqb_neq _ _) M2). by rewrite andb_false_r. }
  assert (Hto : (fun v : Z => 1 * to_double v) <$> Some n = Some n).
  { cbn [fmap option_fmap option_map]. f_equal. unfold to_double. destruct (Z.ltb_spec n (2 ^ 53)); lia. }
  unfold parseInt. cbn [trim_start]. rewrite Hsp, (proj2 (Z.eqb_neq _ _) N1), (proj2 (Z.eqb_neq _ _) N2). cbn [default]. split.
  - rewrite Hx, Hdig. exact Hto.
  - intros ->. cbn [default]. rewrite (Hx true), Hdig. exact Hto.
Qed.

Lemma spelled_no_sep radix s n sep : (sep = 46 \/ sep = 58) -> spelled radix s n -> no_sep sep s.
Proof.
  intros Hsep (_ & Hd & _). eapply Forall_impl; [exact Hd|]. intros u Hu. destruct (digit_plain radix u Hu) as (_ & Hne & _).
  rewrite !not_elem_of_cons in Hne. destruct Hne as (_ & _ & _ & _ & ? & ? & _). destruct Hsep; by subst.
Qed.

Lemma numeral_lower radix s n : radix <= 16 -> numeral radix s n -> toLowerCase s = s.
Proof.
  intros Hr (Hd & _ & _). unfold toLowerCase. induction Hd as [|u s (d & -> & H) _ IH]; [done|]. cbn. rewrite IH. f_equal.
  assert (Hall : forallb_below 16 (fun d => negb ((65 <=? hex_char d) && (hex_char d <=? 90))) = true) by (vm_compute; reflexivity).
  pose proof (forallb_below_spec _ _ Hall d ltac:(lia)) as E. cbn beta in E. apply negb_true_iff in E. by rewrite E.
Qed.
