(* ===== verification/Ip.v ===== *)
(** * IP addresses as text

    Models general/src/util/Ip.ts: the conversions between the text and the bytes
    of IPv4 and IPv6 addresses, and the test whether two addresses are on one
    network. *)

From stdpp Require Import list sets.
From S2P Require Import Prelude DataIO Text Der JsText.

Definition dot : Z := 46.
Definition colon : Z := 58.

(** ** Definitions *)

Definition isIPv4 (ip : list Z) : bool := includes dot ip && negb (includes colon ip).
Definition isIPv6 (ip : list Z) : bool := includes colon ip.

(** A part that is missing is parsed as the text "undefined", which is no number. *)
Definition ipv4ToBytes (ip : list Z) : list Z :=
  let ipParts := split dot ip in
  (fun i => to_uint 8 (match ipParts !! i with Some part => parseInt part None | None => None end)) <$> [0; 1; 2; 3]%nat.

Definition ipv4ToNumber (ip : list Z) : Z := view_value false (ipv4ToBytes ip).

(** Parts that do not fit the array are not stored. *)
Fixpoint store_parts (parts : list (list Z)) (index : nat) (array : list Z) : list Z :=
  match parts with
  | [] => array
  | part :: parts =>
      if bool_decide (part = []) then store_parts parts index array
      else store_parts parts (S index) (<[index := to_uint 16 (parseInt part (Some 16))]> array)
  end.

Definition ipv6ToArray (ip : list Z) : list Z :=
  let ipParts := split colon ip in
  let valueCount := Z.of_nat (length (filter (fun value => value <> []) ipParts)) in
  let ipParts :=
    if negb (valueCount =? 8) then
      split colon (replace [colon; colon] (padEnd [colon] ((8 - valueCount) * 2 + 1) [48; colon]) ip)
    else ipParts in
  store_parts ipParts 0 (repeat 0 8).

Definition ipv6ToBytes (ip : list Z) : list Z :=
  (fun v => v mod 256) <$> mjoin ((fun value => [js_shr value 8; js_and value 0xff]) <$> ipv6ToArray ip).

Definition ipv4BytesToString (bytes : list Z) : result (list Z) :=
  if decide (length bytes = 4%nat) then Ok (join dot (toString 10 <$> bytes)) else Throw UnexpectedDataError.

(** The blocks of two bytes each. *)
Fixpoint hex_blocks (bytes : list Z) : list (list Z) :=
  match bytes with
  | a :: b :: bytes => toString 16 (js_or (js_shl a 8) b) :: hex_blocks bytes
  | _ => []
  end.

(** The best and the current run of zero blocks: starts and lengths. *)
Definition runs : Type := Z * Z * Z * Z.

Definition run_step (i : Z) (block : list Z) (st : runs) : runs :=
  let '(bestStart, bestLen, currStart, currLen) := st in
  if bool_decide (block = [48]) then
    if currStart =? -1 then (bestStart, bestLen, i, 1) else (bestStart, bestLen, currStart, currLen + 1)
  else
    let '(bestStart, bestLen) := if bestLen <? currLen then (currStart, currLen) else (bestStart, bestLen) in
    (bestStart, bestLen, -1, 0).

Fixpoint run_loop (i : Z) (blocks : list (list Z)) (st : runs) : runs :=
  match blocks with [] => st | block :: blocks => run_loop (i + 1) blocks (run_step i block st) end.

Definition best_run (blocks : list (list Z)) : Z * Z :=
  let '(bestStart, bestLen, currStart, currLen) := run_loop 0 blocks (-1, 0, -1, 0) in
  if bestLen <? currLen then (currStart, currLen) else (bestStart, bestLen).

(** [blocks.splice(bestStart, bestLen, "")] and the empty blocks at the ends. *)
Definition compress (bestStart bestLen : Z) (blocks : list (list Z)) : list (list Z) :=
  if 1 <? bestLen then
    let blocks := take (Z.to_nat bestStart) blocks ++ [[]] ++ drop (Z.to_nat (bestStart + bestLen)) blocks in
    let blocks := if bestStart =? 0 then [] :: blocks else blocks in
    if bestStart + bestLen =? 8 then blocks ++ [[]] else blocks
  else blocks.

Fixpoint leading_colons (s : list Z) : nat :=
  match s with u :: s => if u =? colon then S (leading_colons s) else O | [] => O end.

(** [replace(/:{3,}/, "::")] *)
Fixpoint collapse_colons (s : list Z) : list Z :=
  if (3 <=? leading_colons s)%nat then [colon; colon] ++ drop (leading_colons s) s
  else match s with [] => [] | u :: s => u :: collapse_colons s end.

Definition ipv6BytesToString (bytes : list Z) : result (list Z) :=
  if decide (length bytes = 16%nat) then
    let blocks := hex_blocks bytes in
    let '(bestStart, bestLen) := best_run blocks in
    Ok (toLowerCase (collapse_colons (join colon (compress bestStart bestLen blocks))))
  else Throw UnexpectedDataError.

(** The loop of [onSameNetwork]: an element past the end of an array is undefined,
    which is 0 for [&] and different from 0 for [===]. *)
Fixpoint network_loop (n : nat) (i : nat) (ip1Array ip2Array maskArray : list Z) : option bool :=
  match n with
  | O => None
  | S n =>
      if bool_decide (maskArray !! i = Some 0) then Some true
      else
        let mask := default 0 (maskArray !! i) in
        if negb (js_and (default 0 (ip1Array !! i)) mask =? js_and (default 0 (ip2Array !! i)) mask) then Some false
        else network_loop n (S i) ip1Array ip2Array maskArray
  end.

(** [None] is undefined. *)
Definition onSameNetwork (ip1 ip2 mask : list Z) : option bool :=
  if isIPv4 ip1 then
    if negb (isIPv4 ip2) || negb (isIPv4 mask) then Some false
    else
      let ip1Number := ipv4ToNumber ip1 in
      let ip2Number := ipv4ToNumber ip2 in
      let maskNumber := ipv4ToNumber mask in
      Some (js_and ip1Number maskNumber =? js_and ip2Number maskNumber)
  else if isIPv4 ip2 || isIPv4 mask then Some false
  else network_loop 16 0 (ipv6ToArray ip1) (ipv6ToArray ip2) (ipv6ToArray mask).
