(* ===== verification/IpCorrect.v ===== *)
(** * IP addresses: the text forms of RFC 4291 and RFC 5952

    Every text of an IPv6 address is read as its eight groups, the text written
    for an address is the canonical one, and addresses are compared under a
    prefix mask. *)

From stdpp Require Import list sets.
From S2P Require Import Prelude DataIO Text Der JsText Ip.

(** ** IPv4 *)

Lemma ipv4_text a b c d :
  bytes_ok [a; b; c; d] -> exists text, ipv4BytesToString [a; b; c; d] = Ok text /\
    split dot text = toString 10 <$> [a; b; c; d] /\ ipv4ToBytes text = [a; b; c; d] /\ isIPv4 text = true.
Proof.
  intros Hb. assert (Hnum : Forall (fun v => numeral 10 (toString 10 v) v) [a; b; c; d]).
  { eapply Forall_impl; [exact Hb|]. intros v Hv. unfold is_byte in Hv. apply toString_numeral; lia. }
  eexists. split; [reflexivity|].
  assert (Hs : Forall (no_sep dot) (toString 10 <$> [a; b; c; d])).
  { apply Forall_fmap. eapply Forall_impl; [exact Hnum|]. intros v Hv. eapply spelled_no_sep; [by left|]. by apply numeral_spelled in Hv. }
  assert (Es : split dot (join dot (toString 10 <$> [a; b; c; d])) = toString 10 <$> [a; b; c; d]) by (by apply split_of_join).
  split_and!; [exact Es| |].
  - unfold ipv4ToBytes. rewrite Es. cbn [fmap list_fmap lookup list_lookup].
    assert (Hp : forall v, v ∈ [a; b; c; d] -> to_uint 8 (parseInt (toString 10 v) None) = v).
    { intros v Hv. unfold bytes_ok in Hb. rewrite Forall_forall in Hnum, Hb. specialize (Hnum v Hv). specialize (Hb v Hv). unfold is_byte in Hb.
      destruct (parseInt_spelled 10 _ v (numeral_spelled 10 _ _ ltac:(lia) Hnum) ltac:(lia)) as [_ E]. rewrite E by done. apply Z.mod_small. lia. }
    by rewrite !Hp by set_solver.
  - unfold isIPv4. apply andb_true_intro. split.
    + apply includes_spec. cbn [fmap list_fmap join]. apply elem_of_app. right. constructor.
    + apply negb_true_iff. destruct (includes colon _) eqn:E; [|done]. exfalso. apply includes_spec in E.
      assert (Hc : Forall (no_sep colon) (toString 10 <$> [a; b; c; d])).
      { apply Forall_fmap. eapply Forall_impl; [exact Hnum|]. intros v Hv. eapply spelled_no_sep; [by right|]. by apply numeral_spelled in Hv. }
      apply elem_of_join in E as [E|(p & Hp & E)]; [done|]. rewrite Forall_forall in Hc. specialize (Hc p Hp).
      unfold no_sep in Hc. rewrite Forall_forall in Hc. by apply (Hc colon E).
Qed.

Lemma ipv4ToBytes_ok ip : bytes_ok (ipv4ToBytes ip) /\ length (ipv4ToBytes ip) = 4%nat.
Proof.
  split; [|done]. unfold ipv4ToBytes. apply Forall_fmap, Forall_forall. intros i _. unfold compose, to_uint, is_byte.
  case_match; [|lia]. apply Z.mod_pos_bound. lia.
Qed.

(** ** Reading IPv6 addresses *)

(** The hexadecimal texts of an address, forms 1 and 2 of RFC 4291, section 2.2:
    eight groups, or fewer around a double colon that stands for at least one
    group of zeros.  Form 3, which ends in a dotted quad, is not read by the
    code (see [dotted_quad_lost]). *)
Inductive ipv6_hex_text : list Z -> list Z -> Prop :=
| TextFull gs parts : Forall2 (spelled 16) parts gs -> ipv6_hex_text gs (join colon parts)
| TextShort pre n post parts parts' :
    (1 <= n)%nat -> Forall2 (spelled 16) parts pre -> Forall2 (spelled 16) parts' post ->
    ipv6_hex_text (pre ++ repeat 0 n ++ post) (join colon parts ++ [colon; colon] ++ join colon parts').

Definition is_group (g : Z) : Prop := 0 <= g < 2 ^ 16.
Definition address (gs : list Z) : Prop := length gs = 8%nat /\ Forall is_group gs.

(** What [split] makes of joined parts. *)
Definition pieces (parts : list (list Z)) : list (list Z) := match parts with [] => [[]] | _ => parts end.

Definition filled (parts : list (list Z)) : list (list Z) := filter (fun value => value <> []) parts.

Lemma spelled_parts parts gs :
  Forall2 (spelled 16) parts gs -> Forall (no_sep colon) parts /\ Forall (fun p => p <> []) parts.
Proof.
  induction 1 as [|p g ps gs H _ [IH1 IH2]]; [done|]. split; constructor; try done.
  - eapply spelled_no_sep; [by right|exact H].
  - by destruct H.
Qed.

Lemma split_pieces parts : Forall (no_sep colon) parts -> split colon (join colon parts) = pieces parts.
Proof. intros H. destruct parts as [|p ps]; [done|]. by apply split_of_join. Qed.

Lemma filled_id parts : Forall (fun p => p <> []) parts -> filled parts = parts.
Proof. induction 1 as [|p ps Hp _ IH]; [done|]. unfold filled in *. rewrite filter_cons_True by done. by rewrite IH. Qed.

Lemma filled_pieces parts : Forall (fun p => p <> []) parts -> filled (pieces parts) = parts.
Proof. intros H. destruct parts as [|p ps]; [done|]. by apply filled_id. Qed.

Lemma store_parts_filled parts gs done rest :
  Forall2 (spelled 16) (filled parts) gs -> Forall is_group gs -> length rest = length gs ->
  store_parts parts (length done) (done ++ rest) = done ++ gs.
Proof.
  revert gs done rest. induction parts as [|p parts IH]; intros gs done rest H Hg Hl.
  - inversion H; subst. by destruct rest.
  - cbn [store_parts]. destruct (decide (p = [])) as [->|Hp].
    + rewrite bool_decide_eq_true_2 by done. by apply IH.
    + rewrite bool_decide_eq_false_2 by done. unfold filled in H. rewrite filter_cons_True in H by done.
      inversion H as [|? g ? gs' Hs Hgs']; subst. apply Forall_cons in Hg as [Hg Hgs]. destruct rest as [|x rest]; [done|].
      unfold is_group in Hg. destruct (parseInt_spelled 16 p g Hs ltac:(lia)) as [-> _]. cbn [to_uint].
      rewrite Z.mod_small by lia. replace (length done) with (length done + 0)%nat at 2 by lia. rewrite insert_app_r. cbn [insert list_insert].
      replace (S (length done)) with (length (done ++ [g])) by (rewrite length_app; cbn; lia).
      replace (done ++ g :: rest) with ((done ++ [g]) ++ rest) by (by rewrite <- app_assoc).
      rewrite (IH gs') by (done || (cbn in Hl; lia)). by rewrite <- app_assoc.
Qed.

(** The first double colon is the one between the two halves. *)
Lemma replace_other pat rep u s : u <> colon -> replace (colon :: pat) rep (u :: s) = u :: replace (colon :: pat) rep s.
Proof.
  intros Hu. cbn [replace]. rewrite bool_decide_eq_false_2; [done|]. intros [k E]. by injection E as ->.
Qed.

Lemma replace_single pat rep u s :
  u <> colon -> replace (colon :: colon :: pat) rep (colon :: u :: s) = colon :: u :: replace (colon :: colon :: pat) rep s.
Proof.
  intros Hu. rewrite <- replace_other by done. cbn [replace]. rewrite bool_decide_eq_false_2; [done|]. intros [k E]. by injection E as -> _.
Qed.

Lemma replace_piece pat rep p s : no_sep colon p -> replace (colon :: pat) rep (p ++ s) = p ++ replace (colon :: pat) rep s.
Proof. induction 1 as [|u p Hu _ IH]; [done|]. cbn [app]. rewrite replace_other by done. by rewrite IH. Qed.

Lemma replace_join parts rep s :
  Forall (no_sep colon) parts -> Forall (fun p => p <> []) parts ->
  replace [colon; colon] rep (join colon parts ++ [colon; colon] ++ s) = join colon parts ++ rep ++ s.
Proof.
  assert (Hhit : forall s, replace [colon; colon] rep ([colon; colon] ++ s) = rep ++ s).
  { intros s'. cbn [app replace]. rewrite bool_decide_eq_true_2; [done|]. by exists s'. }
  induction parts as [|p parts IH]; intros Hs Hne; [apply Hhit|]. apply Forall_cons in Hs as [Hp Hs]. apply Forall_cons in Hne as [Hpn Hne].
  destruct parts as [|q parts]; [cbn [join]; by rewrite replace_piece, Hhit|].
  rewrite join_cons_app by done. rewrite <- !app_assoc. cbn [app]. rewrite replace_piece by done. f_equal.
  specialize (IH Hs Hne). apply Forall_cons in Hs as [Hq _]. apply Forall_cons in Hne as [Hqn _]. cbn [app] in IH.
  destruct q as [|u q]; [done|]. apply Forall_cons in Hq as [Hu _]. cbn [join] in *.
  destruct parts; cbn [app] in *; rewrite replace_other in IH by done; rewrite replace_single by done; f_equal; exact IH.
Qed.

Lemma split_app_any sep a b : split sep (a ++ sep :: b) = split sep a ++ split sep b.
Proof.
  induction a as [|u a IH]; cbn [app split]; [by rewrite Z.eqb_refl|]. rewrite IH. destruct (u =? sep); [done|].
  pose proof (split_some_part sep a). by destruct (split sep a).
Qed.

Lemma split_zeros n s : split colon (mjoin (repeat [48; colon] n) ++ s) = repeat [48] n ++ split colon s.
Proof. induction n as [|n IH]; [done|]. cbn [repeat]. rewrite join_cons, <- app_assoc. cbn. by rewrite IH. Qed.

Lemma padding n : (n <= 8)%nat -> padEnd [colon] (Z.of_nat n * 2 + 1) [48; colon] = colon :: mjoin (repeat [48; colon] n).
Proof. intros H. do 9 (destruct n as [|n]; [reflexivity|]). lia. Qed.

Lemma spelled_zeros n : Forall2 (spelled 16) (repeat [48] n) (repeat 0 n).
Proof. induction n as [|n IH]; constructor; [|done]. split_and!; [done| |done]. constructor; [by exists 0|constructor]. Qed.

Lemma filled_app a b : filled (a ++ b) = filled a ++ filled b.
Proof. apply filter_app. Qed.

(** Every text of an address is read as its groups. *)
Lemma ipv6ToArray_text gs text : ipv6_hex_text gs text -> address gs -> ipv6ToArray text = gs.
Proof.
  intros Ht [Hl Hg]. unfold ipv6ToArray.
  assert (Hend : forall parts, Forall2 (spelled 16) (filled parts) gs -> store_parts parts 0 (repeat 0 8) = gs).
  { intros parts H. apply (store_parts_filled parts gs [] (repeat 0 8)); [done|done|by rewrite Hl]. }
  destruct Ht as [gs parts H|pre n post parts parts' Hn H H'].
  - destruct (spelled_parts _ _ H) as [Hs Hne]. rewrite split_pieces by done. fold (filled (pieces parts)). rewrite filled_pieces by done.
    rewrite (Forall2_length _ _ _ H), Hl. change (negb (Z.of_nat 8 =? 8)) with false. cbv iota. apply Hend. by rewrite filled_pieces.
  - destruct (spelled_parts _ _ H) as [Hs Hne]. destruct (spelled_parts _ _ H') as [Hs' Hne'].
    cbn [app] in *. rewrite split_app_any. change (colon :: join colon parts') with ([] ++ colon :: join colon parts'). rewrite split_app_any.
    rewrite !split_pieces by done. change (split colon []) with [@nil Z]. fold (filled (pieces parts ++ [[]] ++ pieces parts')).
    rewrite !filled_app, !filled_pieces by done. change (filled [[]]) with (@nil (list Z)). cbn [app].
    rewrite !length_app, repeat_length in Hl. rewrite length_app, (Forall2_length _ _ _ H), (Forall2_length _ _ _ H').
    destruct (Z.eqb_spec (Z.of_nat (length pre + length post)) 8); [lia|]. cbn [negb].
    replace (8 - Z.of_nat (length pre + length post)) with (Z.of_nat n) by lia. rewrite padding by lia.
    change (colon :: colon :: join colon parts') with ([colon; colon] ++ join colon parts'). rewrite replace_join by done. cbn [app].
    apply Hend. rewrite split_app_any, split_zeros, !split_pieces, !filled_app, !filled_pieces by done.
    apply Forall2_app; [done|]. apply Forall2_app; [|done]. rewrite filled_id; [apply spelled_zeros|].
    apply Forall_forall. intros p Hp. apply list_elem_of_In, repeat_spec in Hp. by subst.
Qed.

(** ** Writing IPv6 addresses *)

Fixpoint groups (bs : list Z) : list Z :=
  match bs with a :: b :: bs => a * 256 + b :: groups bs | _ => [] end.

(** RFC 5952, section 4: lower case, no leading zeros, the first of the longest
    runs of zero groups shortened, a single zero group never. *)
Inductive rfc5952 (gs : list Z) : list Z -> Prop :=
| CanonicalFull parts :
    Forall2 (numeral 16) parts gs -> (forall p q, gs <> p ++ [0; 0] ++ q) -> rfc5952 gs (join colon parts)
| CanonicalShort pre n post parts parts' :
    gs = pre ++ repeat 0 n ++ post -> (2 <= n)%nat ->
    (forall p m q, gs = p ++ repeat 0 m ++ q -> (m <= n)%nat /\ (m = n -> (length pre <= length p)%nat)) ->
    Forall2 (numeral 16) parts pre -> Forall2 (numeral 16) parts' post ->
    rfc5952 gs (join colon parts ++ [colon; colon] ++ join colon parts').

Lemma numeral_spelled_all parts gs : Forall2 (numeral 16) parts gs -> Forall2 (spelled 16) parts gs.
Proof. intros H. eapply Forall2_impl; [exact H|]. intros. by apply numeral_spelled. Qed.

Lemma rfc5952_text gs text : rfc5952 gs text -> ipv6_hex_text gs text.
Proof.
  intros [parts H _|pre n post parts parts' -> Hn _ H H'].
  - constructor. by apply numeral_spelled_all.
  - constructor; [lia|by apply numeral_spelled_all..].
Qed.

(** Two bytes are a group and back. *)
Lemma group_of a b : is_byte a -> is_byte b -> js_or (js_shl a 8) b = a * 256 + b.
Proof.
  unfold is_byte. intros Ha Hb. assert (E : js_shl a 8 = a * 2 ^ 8).
  { unfold js_shl. change (8 mod 32) with 8. rewrite (int32_id a) by lia. rewrite Z.shiftl_mul_pow2 by lia. apply int32_id. lia. }
  rewrite E, js_or_plain by (unfold is_int32; lia). rewrite Z.lor_comm, lor_add by lia. lia.
Qed.

Lemma group_bytes a b : is_byte a -> is_byte b ->
  js_shr (a * 256 + b) 8 mod 256 = a /\ js_and (a * 256 + b) 0xff mod 256 = b.
Proof.
  unfold is_byte. intros Ha Hb. split.
  - unfold js_shr. change (8 mod 32) with 8. rewrite int32_id by lia. rewrite Z.shiftr_div_pow2 by lia.
    rewrite Z.add_comm, Z.div_add, Z.div_small by lia. rewrite Z.add_0_l. apply Z.mod_small. lia.
  - rewrite js_and_plain by (unfold is_int32; lia). rewrite (Z.land_ones _ 8 ltac:(lia)). change (2 ^ 8) with 256.
    rewrite Z.mod_mod by lia. rewrite Z.add_comm, Z.mod_add by lia. apply Z.mod_small. lia.
Qed.

Lemma bytes_pairs (P : list Z -> Prop) :
  P [] -> (forall a, P [a]) -> (forall a b bs, P bs -> P (a :: b :: bs)) -> forall bs, P bs.
Proof. intros H0 H1 H2. fix IH 1. intros [|a [|b bs]]; [exact H0|apply H1|]. apply H2, IH. Qed.

Lemma hex_blocks_groups bs : bytes_ok bs ->
  hex_blocks bs = toString 16 <$> groups bs /\ Forall is_group (groups bs) /\ length (groups bs) = (length bs / 2)%nat.
Proof.
  induction bs as [|a|a b bs IH] using bytes_pairs; intros Hb; [done|done|].
  apply Forall_cons in Hb as [Ha Hb]. apply Forall_cons in Hb as [Hb Hbs]. destruct (IH Hbs) as (E & Hg & Hl).
  cbn [hex_blocks groups fmap list_fmap length]. rewrite group_of by done. split_and!.
  - f_equal. exact E.
  - constructor; [unfold is_group, is_byte in *; lia|done].
  - rewrite Hl. change (S (S (length bs))) with (2 + length bs)%nat. rewrite (Nat.add_comm 2).
    replace (length bs + 2)%nat with (length bs + 1 * 2)%nat by lia. rewrite Nat.div_add by lia. lia.
Qed.

Lemma groups_bytes bs : bytes_ok bs -> Nat.even (length bs) = true ->
  (fun v => v mod 256) <$> mjoin ((fun value => [js_shr value 8; js_and value 0xff]) <$> groups bs) = bs.
Proof.
  induction bs as [|a|a b bs IH] using bytes_pairs; intros Hb He; [done|done|].
  apply Forall_cons in Hb as [Ha Hb]. apply Forall_cons in Hb as [Hb Hbs]. cbn [groups fmap list_fmap].
  rewrite join_cons, fmap_app. cbn [fmap list_fmap app]. destruct (group_bytes a b Ha Hb) as [-> ->]. do 2 f_equal. by apply IH.
Qed.

(** *** The longest run *)

(** [best_run] looks only at which blocks are zero. *)
Definition block_of (zero : bool) : list Z := if zero then [48] else [].

Lemma best_run_zeros gs : Forall is_group gs ->
  best_run (toString 16 <$> gs) = best_run (block_of <$> ((fun g => g =? 0) <$> gs)).
Proof.
  intros Hg. unfold best_run. assert (E : forall i st,
    run_loop i (toString 16 <$> gs) st = run_loop i (block_of <$> ((fun g => g =? 0) <$> gs)) st); [|by rewrite E].
  induction Hg as [|g gs Hg _ IH]; intros i st; [done|]. cbn [fmap list_fmap run_loop]. rewrite <- IH. f_equal.
  unfold run_step. destruct st as [[[bs bl] cs] cl].
  replace (bool_decide (toString 16 g = [48])) with (bool_decide (block_of (g =? 0) = [48])); [done|].
  apply bool_decide_ext. rewrite (numeral_zero 16 _ g ltac:(lia) (toString_numeral 16 g ltac:(lia) (proj1 Hg))).
  destruct (Z.eqb_spec g 0); cbn; split; intros; done || congruence.
Qed.

Definition run_at (z : list bool) (p m : nat) : bool := forallb (fun i => nth i z false) (seq p m).

Definition longest_ok (z : list bool) : bool :=
  let '(s, l) := best_run (block_of <$> z) in
  (0 <=? l) && ((l =? 0) || (0 <=? s)) && (l <=? 8) && run_at z (Z.to_nat s) (Z.to_nat l) &&
  forallb (fun p => forallb (fun m => negb (run_at z p m) || (Z.of_nat m <? l) || ((Z.of_nat m =? l) && (s <=? Z.of_nat p))) (seq 1 8)) (seq 0 8).

Fixpoint all_bools (n : nat) : list (list bool) :=
  match n with O => [[]] | S n => (cons true <$> all_bools n) ++ (cons false <$> all_bools n) end.

Lemma all_bools_complete z : z ∈ all_bools (length z).
Proof.
  induction z as [|b z IH]; [constructor|]. cbn [all_bools length]. rewrite elem_of_app, !list_elem_of_fmap.
  destruct b; [left|right]; by exists z.
Qed.

Lemma longest_run z : length z = 8%nat -> longest_ok z = true.
Proof.
  intros Hl. assert (Hall : forallb longest_ok (all_bools 8) = true) by (vm_compute; reflexivity).
  rewrite forallb_forall in Hall. apply Hall, list_elem_of_In. rewrite <- Hl. apply all_bools_complete.
Qed.

Definition zeros (gs : list Z) : list bool := (fun g => g =? 0) <$> gs.

Lemma run_at_drop gs s l : run_at (zeros gs) s l = true -> drop s gs = repeat 0 l ++ drop (s + l) gs.
Proof.
  revert s. induction l as [|l IH]; intros s H; [cbn; by rewrite Nat.add_0_r|].
  unfold run_at in H. cbn [seq forallb] in H. apply andb_prop in H as [H0 H]. specialize (IH (S s) H).
  destruct (gs !! s) as [g|] eqn:E.
  - rewrite (nth_lookup_Some _ _ _ (g =? 0)) in H0 by (unfold zeros; by rewrite list_lookup_fmap, E).
    apply Z.eqb_eq in H0. subst g. rewrite (drop_S _ _ _ E), IH. cbn [repeat app]. by rewrite Nat.add_succ_comm.
  - rewrite nth_overflow in H0; [done|]. unfold zeros. rewrite length_fmap. by apply lookup_ge_None.
Qed.

Lemma run_at_zeros p m q : run_at (zeros (p ++ repeat 0 m ++ q)) (length p) m = true.
Proof.
  unfold run_at. apply forallb_forall. intros i Hi. apply in_seq in Hi. erewrite nth_lookup_Some; [reflexivity|].
  unfold zeros. rewrite list_lookup_fmap, lookup_app_r by lia. rewrite lookup_app_l by (rewrite repeat_length; lia).
  replace (repeat 0 m) with (replicate m 0) by (clear; induction m; cbn; congruence). rewrite lookup_replicate_2 by lia. done.
Qed.

(** The run that is chosen: the first of the longest. *)
Lemma best_run_spec gs s l : Forall is_group gs -> length gs = 8%nat -> best_run (toString 16 <$> gs) = (s, l) ->
  0 <= l /\
  (1 < l -> 0 <= s /\ s + l <= 8 /\ gs = take (Z.to_nat s) gs ++ repeat 0 (Z.to_nat l) ++ drop (Z.to_nat (s + l)) gs) /\
  (forall p m q, gs = p ++ repeat 0 m ++ q -> (1 <= m)%nat -> Z.of_nat m <= l /\ (Z.of_nat m = l -> s <= Z.of_nat (length p))).
Proof.
  intros Hg Hl E. rewrite best_run_zeros in E by done. fold (zeros gs) in E.
  pose proof (longest_run (zeros gs) ltac:(unfold zeros; by rewrite length_fmap)) as H. unfold longest_ok in H. rewrite E in H.
  apply andb_prop in H as [H Hmax]. apply andb_prop in H as [H Hrun]. apply andb_prop in H as [H Hl8]. apply andb_prop in H as [H0 Hs].
  apply Z.leb_le in H0, Hl8. split_and!; [done| |].
  - intros H1. destruct (Z.eqb_spec l 0); [lia|]. cbn [orb] in Hs. apply Z.leb_le in Hs. apply run_at_drop in Hrun.
    pose proof (f_equal length Hrun) as Hlen. rewrite length_app, !length_drop, repeat_length in Hlen.
    rewrite Z2Nat.inj_add by lia. rewrite <- Hrun, take_drop. split_and!; [done|lia|done].
  - intros p m q Eg Hm. pose proof (f_equal length Eg) as Hlen. rewrite !length_app, repeat_length in Hlen.
    rewrite forallb_forall in Hmax. specialize (Hmax (length p) ltac:(apply in_seq; lia)). rewrite forallb_forall in Hmax.
    specialize (Hmax m ltac:(apply in_seq; lia)). rewrite Eg in Hmax at 1. rewrite run_at_zeros in Hmax. cbn [negb orb] in Hmax.
    apply orb_prop in Hmax as [Hm'|Hm']; [apply Z.ltb_lt in Hm'; lia|]. apply andb_prop in Hm' as [E1 E2]. lia.
Qed.

(** *** The text *)

Definition plain_parts (parts : list (list Z)) : Prop := Forall (no_sep colon) parts /\ Forall (fun p => p <> []) parts.

Lemma leading_join parts t : plain_parts parts -> parts <> [] -> leading_colons (join colon parts ++ t) = 0%nat.
Proof.
  intros [Hs Hne] Hn. destruct parts as [|p ps]; [done|]. apply Forall_cons in Hs as [Hp _]. apply Forall_cons in Hne as [Hpn _].
  destruct p as [|u p]; [done|]. apply Forall_cons in Hp as [Hu _].
  destruct ps; cbn [join app leading_colons]; by rewrite (proj2 (Z.eqb_neq _ _) Hu).
Qed.

Lemma collapse_colon s : (leading_colons s <= 1)%nat -> collapse_colons (colon :: s) = colon :: collapse_colons s.
Proof. intros H. cbn [collapse_colons leading_colons]. rewrite Z.eqb_refl. by destruct (Nat.leb_spec 3 (S (leading_colons s))); [lia|]. Qed.

Lemma collapse_piece p s : no_sep colon p -> collapse_colons (p ++ s) = p ++ collapse_colons s.
Proof.
  induction 1 as [|u p Hu _ IH]; [done|]. cbn [app collapse_colons leading_colons]. rewrite (proj2 (Z.eqb_neq _ _) Hu). cbn. by rewrite IH.
Qed.

Lemma collapse_join parts t : plain_parts parts -> collapse_colons (join colon parts ++ t) = join colon parts ++ collapse_colons t.
Proof.
  induction parts as [|p parts IH]; intros H; [done|]. pose proof H as [Hs Hne]. apply Forall_cons in Hs as [Hp Hs]. apply Forall_cons in Hne as [_ Hne].
  destruct parts as [|q parts]; [by apply collapse_piece|]. rewrite join_cons_app by done. rewrite <- !app_assoc. cbn [app].
  rewrite collapse_piece by done. f_equal. rewrite collapse_colon; [|rewrite leading_join; [lia|by split|done]]. f_equal. by apply IH.
Qed.

Lemma leading_join_end parts : plain_parts parts -> leading_colons (join colon parts) = 0%nat.
Proof. intros H. destruct parts as [|p ps] eqn:E; [done|]. rewrite <- (app_nil_r (join _ _)). by apply leading_join. Qed.

Lemma collapse_id parts : plain_parts parts -> collapse_colons (join colon parts) = join colon parts.
Proof. intros H. rewrite <- (app_nil_r (join colon parts)) at 1. rewrite collapse_join by done. cbn. by rewrite app_nil_r. Qed.

Lemma collapse_text parts parts' : plain_parts parts -> plain_parts parts' ->
  collapse_colons (join colon parts ++ [colon; colon] ++ join colon parts') = join colon parts ++ [colon; colon] ++ join colon parts'.
Proof.
  intros H H'. rewrite collapse_join by done. cbn [app]. f_equal. pose proof (leading_join_end _ H') as E.
  rewrite collapse_colon by (cbn [leading_colons]; rewrite Z.eqb_refl, E; lia). by rewrite collapse_colon, collapse_id by (done || lia).
Qed.

Lemma numerals gs : Forall is_group gs -> Forall2 (numeral 16) (toString 16 <$> gs) gs.
Proof. induction 1 as [|g gs Hg _ IH]; constructor; [|done]. apply toString_numeral; [lia|]. by destruct Hg. Qed.

Lemma numerals_plain gs : Forall is_group gs -> plain_parts (toString 16 <$> gs).
Proof. intros H. eapply spelled_parts, numeral_spelled_all. by apply numerals. Qed.

Lemma lower_app a b : toLowerCase (a ++ b) = toLowerCase a ++ toLowerCase b.
Proof. apply fmap_app. Qed.

Lemma lower_join gs : Forall is_group gs -> toLowerCase (join colon (toString 16 <$> gs)) = join colon (toString 16 <$> gs).
Proof.
  induction 1 as [|g gs Hg Hgs IH]; [done|].
  assert (E : toLowerCase (toString 16 g) = toString 16 g) by (eapply (numeral_lower 16); [lia|apply toString_numeral; [lia|by destruct Hg]]).
  destruct gs as [|g' gs]; [exact E|]. cbn [fmap list_fmap]. rewrite join_cons_app by done. rewrite lower_app, E. f_equal.
  change (toLowerCase (colon :: ?s)) with (colon :: toLowerCase s). f_equal. exact IH.
Qed.

Lemma join_compress gs s l :
  1 < l -> 0 <= s -> s + l <= 8 -> length gs = 8%nat ->
  join colon (compress s l (toString 16 <$> gs)) =
  join colon (toString 16 <$> take (Z.to_nat s) gs) ++ [colon; colon] ++ join colon (toString 16 <$> drop (Z.to_nat (s + l)) gs).
Proof.
  intros H1 H0 H8 Hl. unfold compress. destruct (Z.ltb_spec 1 l); [|lia]. rewrite !fmap_take, !fmap_drop.
  set (A := take (Z.to_nat s) (toString 16 <$> gs)). set (B := drop (Z.to_nat (s + l)) (toString 16 <$> gs)).
  assert (HA : length A = Z.to_nat s) by (unfold A; rewrite length_take, length_fmap; lia).
  assert (HB : length B = (8 - Z.to_nat (s + l))%nat) by (unfold B; rewrite length_drop, length_fmap; lia). clearbody A B.
  destruct (Z.eqb_spec (s + l) 8) as [E8|N8]; destruct (Z.eqb_spec s 0) as [->|Hs].
  - destruct A; [|done]. destruct B; [done|cbn in HB; lia].
  - destruct B; [|cbn in HB; lia]. destruct A as [|a A]; [cbn in HA; lia|]. rewrite <- app_assoc. change (([[]] ++ []) ++ [[]]) with [@nil Z; []]. by rewrite join_parts_app.
  - destruct A; [|done]. destruct B; [cbn in HB; lia|]. cbn [app]. rewrite !join_cons_app by done. done.
  - destruct A as [|a A]; [cbn in HA; lia|]. destruct B as [|b B]; [cbn in HB; lia|].
    rewrite (join_parts_app colon (a :: A) ([[]] ++ b :: B)) by done. cbn [app]. by rewrite (join_cons_app colon [] (b :: B)).
Qed.

Lemma ipv6BytesToString_canonical bs : bytes_ok bs -> length bs = 16%nat ->
  exists text, ipv6BytesToString bs = Ok text /\ rfc5952 (groups bs) text.
Proof.
  intros Hb Hl. destruct (hex_blocks_groups bs Hb) as (Eh & Hg & Hgl). rewrite Hl in Hgl. change (16 / 2)%nat with 8%nat in Hgl.
  unfold ipv6BytesToString. rewrite decide_True by done. rewrite Eh. destruct (best_run _) as [s l] eqn:Er.
  destruct (best_run_spec _ s l Hg Hgl Er) as (Hl0 & Hrun & Hmax). eexists. split; [reflexivity|].
  destruct (Z.ltb_spec 1 l) as [H1|H1].
  - destruct (Hrun H1) as (Hs & H8 & Eg). rewrite join_compress by done.
    set (pre := take (Z.to_nat s) (groups bs)) in *. set (post := drop (Z.to_nat (s + l)) (groups bs)) in *.
    assert (Hpre : Forall is_group pre) by (by apply Forall_take). assert (Hpost : Forall is_group post) by (by apply Forall_drop).
    assert (Hlp : length pre = Z.to_nat s) by (unfold pre; rewrite length_take; lia).
    rewrite collapse_text, !lower_app, !lower_join by (done || by apply numerals_plain).
    apply (CanonicalShort _ pre (Z.to_nat l) post); [done|lia| |by apply numerals..].
    intros p m q E. destruct m as [|m]; [lia|]. specialize (Hmax p (S m) q E ltac:(lia)). lia.
  - unfold compress. destruct (Z.ltb_spec 1 l); [lia|]. rewrite collapse_id, lower_join by (done || by apply numerals_plain).
    constructor; [by apply numerals|]. intros p q E. specialize (Hmax p 2%nat q E ltac:(lia)). lia.
Qed.

(** C23: Every hexadecimal text of an IPv6 address (forms 1 and 2 of RFC 4291,
    section 2.2; not the form that ends in a dotted quad, which the code
    misreads) is read as its groups; the text written for an address is the
    canonical one of RFC 5952 and reads back as the same bytes. *)
Theorem ipv6_canonical :
  (forall gs text, ipv6_hex_text gs text -> address gs -> ipv6ToArray text = gs) /\
  (forall bs, bytes_ok bs -> length bs = 16%nat ->
    exists text, ipv6BytesToString bs = Ok text /\ rfc5952 (groups bs) text /\ ipv6ToBytes text = bs).
Proof.
  split; [exact ipv6ToArray_text|]. intros bs Hb Hl. destruct (ipv6BytesToString_canonical bs Hb Hl) as (text & E & Hc).
  exists text. split_and!; [done|done|]. destruct (hex_blocks_groups bs Hb) as (_ & Hg & Hgl). rewrite Hl in Hgl.
  unfold ipv6ToBytes. rewrite (ipv6ToArray_text (groups bs)); [|by apply rfc5952_text|by split]. apply groups_bytes; [done|by rewrite Hl].
Qed.

Definition sample_bytes : list Z := [0x20; 1; 0x0d; 0xb8; 0; 0; 0; 0; 0; 1; 0; 0; 0; 0; 0; 1].
(** 2001:db8::1:0:0:1 *)
Definition sample_text : list Z := [50; 48; 48; 49; 58; 100; 98; 56; 58; 58; 49; 58; 48; 58; 48; 58; 49].

Lemma ipv6_canonical_witness : ipv6BytesToString sample_bytes = Ok sample_text /\ ipv6ToBytes sample_text = sample_bytes.
Proof.
  assert (Hb : bytes_ok sample_bytes) by (repeat constructor; unfold is_byte; lia).
  destruct (proj2 ipv6_canonical sample_bytes Hb eq_refl) as (text & E & _ & Er).
  assert (E' : ipv6BytesToString sample_bytes = Ok sample_text) by (vm_compute; reflexivity).
  rewrite E' in E. injection E as <-. exact (conj E' Er).
Defined.

(** ** Networks *)

(** The mask of a prefix length, and whether two addresses agree on the prefix. *)
Fixpoint mask_groups (n : nat) (p : Z) : list Z :=
  match n with O => [] | S n => 2 ^ 16 - 2 ^ (16 - Z.max 0 (Z.min 16 p)) :: mask_groups n (p - 16) end.

Fixpoint same_prefix (p : Z) (a b : list Z) : bool :=
  match a, b with
  | x :: a, y :: b => if 16 <=? p then (x =? y) && same_prefix (p - 16) a b else x / 2 ^ (16 - p) =? y / 2 ^ (16 - p)
  | _, _ => true
  end.

Lemma masked x k : is_group x -> 0 <= k <= 16 -> js_and x (2 ^ 16 - 2 ^ (16 - k)) = x / 2 ^ (16 - k) * 2 ^ (16 - k).
Proof.
  intros Hx Hk. unfold is_group in Hx. set (j := 16 - k) in *. assert (Hj : 0 <= j <= 16) by lia.
  assert (Hp : 0 < 2 ^ j) by (apply Z.pow_pos_nonneg; lia). assert (2 ^ j <= 2 ^ 16) by (apply Z.pow_le_mono_r; lia).
  rewrite js_and_plain by (unfold is_int32; lia).
  replace (2 ^ 16 - 2 ^ j) with (Z.shiftl (Z.ones (16 - j)) j).
  2: { rewrite Z.shiftl_mul_pow2, Z.ones_equiv by lia. replace (2 ^ 16) with (2 ^ (16 - j) * 2 ^ j) by (rewrite <- Z.pow_add_r by lia; f_equal; lia). lia. }
  rewrite <- Z.shiftr_div_pow2, <- Z.shiftl_mul_pow2 by lia. apply Z.bits_inj'. intros i Hi.
  rewrite Z.land_spec, !Z.shiftl_spec by lia. destruct (Z.ltb_spec i j).
  - rewrite !(Z.testbit_neg_r _ (i - j)) by lia. apply andb_false_r.
  - rewrite Z.shiftr_spec by lia. replace (i - j + j) with i by lia. rewrite Z.testbit_ones_nonneg by lia.
    destruct (Z.ltb_spec (i - j) (16 - j)); [by rewrite andb_true_r|]. rewrite andb_false_r. symmetry. apply (testbit_above x 16); lia.
Qed.

Lemma masked_eq x y k : is_group x -> is_group y -> 0 <= k <= 16 ->
  (js_and x (2 ^ 16 - 2 ^ (16 - k)) =? js_and y (2 ^ 16 - 2 ^ (16 - k))) = (x / 2 ^ (16 - k) =? y / 2 ^ (16 - k)).
Proof.
  intros Hx Hy Hk. rewrite !masked by done. assert (0 < 2 ^ (16 - k)) by (apply Z.pow_pos_nonneg; lia).
  destruct (Z.eqb_spec (x / 2 ^ (16 - k)) (y / 2 ^ (16 - k))) as [->|Hn]; [apply Z.eqb_refl|]. apply Z.eqb_neq. nia.
Qed.

Lemma same_prefix_none p a b : p <= 0 -> Forall is_group a -> Forall is_group b -> same_prefix p a b = true.
Proof.
  intros Hp Ha Hb. destruct a as [|x a], b as [|y b]; try done. apply Forall_cons in Ha as [Hx _]. apply Forall_cons in Hb as [Hy _].
  cbn [same_prefix]. destruct (Z.leb_spec 16 p); [lia|]. assert (2 ^ 16 <= 2 ^ (16 - p)) by (apply Z.pow_le_mono_r; lia).
  unfold is_group in *. by rewrite !Z.div_small by lia.
Qed.

(** Past the end of the arrays nothing differs. *)
Lemma network_loop_end n i a b m :
  (length a <= i)%nat -> (length b <= i)%nat -> (length m <= i)%nat -> network_loop n i a b m = None.
Proof.
  revert i. induction n as [|n IH]; intros i Ha Hb Hm; [done|]. cbn [network_loop].
  rewrite !lookup_ge_None_2 by done. cbn. apply IH; lia.
Qed.

Lemma lookup_middle_eq {A} (l k : list A) x i : i = length l -> (l ++ x :: k) !! i = Some x.
Proof. intros ->. by apply list_lookup_middle. Qed.

Lemma network_loop_prefix k n i p pa pb pm a b :
  length pa = i -> length pb = i -> length pm = i -> length a = k -> length b = k ->
  Forall is_group a -> Forall is_group b -> - 16 < p ->
  network_loop (k + n) i (pa ++ a) (pb ++ b) (pm ++ mask_groups k p) =
  if same_prefix p a b then (if p <=? 16 * (Z.of_nat k - 1) then Some true else None) else Some false.
Proof.
  revert i p pa pb pm a b. induction k as [|k IH]; intros i p pa pb pm a b Hpa Hpb Hpm Hla Hlb Ha Hb Hp.
  { destruct a; [|done]. destruct b; [|done]. cbn [same_prefix]. destruct (Z.leb_spec p (16 * (Z.of_nat 0 - 1))); [lia|].
    apply network_loop_end; cbn [mask_groups]; rewrite length_app; cbn; lia. }
  destruct a as [|x a]; [done|]. destruct b as [|y b]; [done|].
  pose proof (same_prefix_none (p - 16) a b) as Hnone.
  apply Forall_cons in Ha as [Hx Ha]. apply Forall_cons in Hb as [Hy Hb]. cbn [Nat.add network_loop mask_groups].
  rewrite !lookup_middle_eq by done. cbn [default id]. set (k' := Z.max 0 (Z.min 16 p)).
  assert (Hk : 0 <= k' <= 16) by lia. assert (Hpow : 2 ^ (16 - k') <= 2 ^ 16) by (apply Z.pow_le_mono_r; lia).
  assert (Hrest : 0 < p -> network_loop (k + n) (S i) (pa ++ x :: a) (pb ++ y :: b) (pm ++ (2 ^ 16 - 2 ^ (16 - k')) :: mask_groups k (p - 16)) =
    if same_prefix (p - 16) a b then (if p - 16 <=? 16 * (Z.of_nat k - 1) then Some true else None) else Some false).
  { intros H0.
    rewrite !(cons_middle _ _ a), !(cons_middle _ _ b), !(cons_middle _ _ (mask_groups k (p - 16))), !app_assoc.
    apply IH; try (rewrite length_app; cbn; lia); cbn in *; try done; lia. }
  destruct (Z.leb_spec p 0) as [H0|H0].
  - assert (k' = 0) as -> by lia. rewrite bool_decide_eq_true_2 by done.
    rewrite (same_prefix_none p (x :: a) (y :: b)) by (done || by constructor). by destruct (Z.leb_spec p (16 * (Z.of_nat (S k) - 1))); [|lia].
  - specialize (Hrest H0). assert (2 ^ (16 - k') < 2 ^ 16) by (apply Z.pow_lt_mono_r; lia).
    rewrite bool_decide_eq_false_2 by (intros [= E]; lia). rewrite masked_eq by done. rewrite Hrest.
    replace (p - 16 <=? 16 * (Z.of_nat k - 1)) with (p <=? 16 * (Z.of_nat (S k) - 1)) by (apply eq_bool_prop_intro; rewrite !Is_true_true, !Z.leb_le; lia). cbn [same_prefix].
    destruct (Z.leb_spec 16 p).
    + assert (k' = 16) as -> by lia. rewrite !Z.div_1_r. by destruct (x =? y).
    + assert (k' = p) as -> by lia. rewrite Hnone by (done || lia). by destruct (_ =? _).
Qed.

Lemma mask_address p : address (mask_groups 8 p).
Proof.
  assert (H : forall n p, length (mask_groups n p) = n /\ Forall is_group (mask_groups n p)).
  { intros n. induction n as [|n IH]; intros q; [done|]. cbn [mask_groups]. destruct (IH (q - 16)) as [Hl Hg]. split; [cbn; lia|].
    constructor; [|done]. unfold is_group. set (k := Z.max 0 (Z.min 16 q)). assert (0 <= k <= 16) by lia.
    assert (0 < 2 ^ (16 - k)) by (apply Z.pow_pos_nonneg; lia). assert (2 ^ (16 - k) <= 2 ^ 16) by (apply Z.pow_le_mono_r; lia). lia. }
  apply H.
Qed.

Lemma ipv6_hex_text_isIPv4 gs text : ipv6_hex_text gs text -> length gs = 8%nat -> isIPv4 text = false.
Proof.
  intros Ht Hl. assert (Hc : colon ∈ text).
  { destruct Ht as [gs parts H|pre n post parts parts' Hn H H'].
    - apply Forall2_length in H. rewrite Hl in H. destruct parts as [|p [|q ps]]; [done..|]. rewrite join_cons_app by done.
      apply elem_of_app. right. constructor.
    - apply elem_of_app. right. constructor. }
  apply includes_spec in Hc. unfold isIPv4. rewrite Hc. apply andb_false_r.
Qed.

(** C24: Under the mask of a prefix of up to 112 bits two IPv6 addresses are on
    one network exactly when they agree on the prefix.  Under a longer prefix the
    answer for addresses that agree on it is undefined. *)
Theorem same_network_prefix p a b ip1 ip2 mask :
  0 <= p <= 128 -> address a -> address b ->
  ipv6_hex_text a ip1 -> ipv6_hex_text b ip2 -> ipv6_hex_text (mask_groups 8 p) mask ->
  onSameNetwork ip1 ip2 mask =
  if same_prefix p a b then (if p <=? 112 then Some true else None) else Some false.
Proof.
  intros Hp Ha Hb H1 H2 Hm. pose proof (mask_address p) as Hma. unfold onSameNetwork.
  rewrite (ipv6_hex_text_isIPv4 _ _ H1 (proj1 Ha)), (ipv6_hex_text_isIPv4 _ _ H2 (proj1 Hb)), (ipv6_hex_text_isIPv4 _ _ Hm (proj1 Hma)). cbn [orb].
  rewrite (ipv6ToArray_text _ _ H1 Ha), (ipv6ToArray_text _ _ H2 Hb), (ipv6ToArray_text _ _ Hm Hma).
  destruct Ha as [Hla Ha], Hb as [Hlb Hb]. exact (network_loop_prefix 8 8 0 p [] [] [] a b eq_refl eq_refl eq_refl Hla Hlb Ha Hb ltac:(lia)).
Qed.

(** The loopback address 0:0:0:0:0:0:0:1 under its own mask of 128 bits. *)
Lemma same_network_prefix_witness :
  let ip := join colon (toString 16 <$> [0; 0; 0; 0; 0; 0; 0; 1]) in
  onSameNetwork ip ip (join colon (toString 16 <$> mask_groups 8 128)) = None.
Proof.
  assert (Ha : address [0; 0; 0; 0; 0; 0; 0; 1]) by (split; [done|repeat constructor; unfold is_group; lia]).
  refine (same_network_prefix 128 _ _ _ _ _ ltac:(lia) Ha Ha _ _ _).
  all: apply TextFull, numeral_spelled_all, numerals; first [apply Ha | apply mask_address].
Defined.

(** An address that ends with a dotted quad, ::ffff:1.2.3.4, loses its last bytes. *)
Example dotted_quad_lost :
  ipv6ToBytes [58; 58; 102; 102; 102; 102; 58; 49; 46; 50; 46; 51; 46; 52] = [0; 0; 0; 0; 0; 0; 0; 0; 0; 0; 0; 0; 0xff; 0xff; 0; 1].
Proof. vm_compute. reflexivity. Qed.
