(* ===== verification/Dns.v ===== *)
(** * DNS messages

    Models general/src/codec/DnsCodec.ts: the messages of multicast DNS and their
    wire format.  An error value stands for the exception the code throws; a
    property that may be absent is an option.  The casts of [encodeRecordValue]
    are taken to hold: a value of another shape than its record type asks for is
    a type error here. *)

From stdpp Require Import list.
From S2P Require Import Prelude DataIO Text BigEndian JsText Ip.

(** ** Data *)

(** A [Duration] is its number of milliseconds. *)
Definition Seconds (scale : Z) : Z := scale * 1000.
Definition Seconds_of (duration : Z) : Z := duration / 1000.

Definition DEFAULT_MDNS_TTL : Z := Seconds 120.
Definition MAX_MDNS_MESSAGE_SIZE : Z := 1232.

Record SrvRecordValue := mkSrv {
  priority : Z;
  weight : Z;
  port : Z;
  target : list Z;
}.

Record DnsQuery := mkQuery {
  q_name : list Z;
  q_recordType : Z;
  q_recordClass : Z;
  uniCastResponse : option bool;
}.

(** An entry of a TXT record: bytes, or a string to be encoded. *)
Inductive TxtEntry := EBytes (bytes : list Z) | EString (s : list Z).

Inductive DnsValue :=
| VText (s : list Z)
| VSrv (srv : SrvRecordValue)
| VTxt (entries : list TxtEntry)
| VRaw (bytes : list Z).

Record DnsRecord := mkRecord {
  name : list Z;
  recordType : option Z;
  recordClass : Z;
  flushCache : option bool;
  ttl : Z;
  value : option DnsValue;
}.

Record DnsMessage := mkMessage {
  transactionId : Z;
  messageType : Z;
  queries : list DnsQuery;
  answers : list DnsRecord;
  authorities : list DnsRecord;
  additionalRecords : list DnsRecord;
}.

(** What an answer to encode may be: bytes encoded before, a record, or an empty
    object or something that is no object. *)
Inductive RecordItem := PreEncoded (bytes : list Z) | Item (r : DnsRecord) | NoRecord.

(** [Partial<DnsMessagePartiallyPreEncoded>]; absent lists are empty. *)
Record MessageParts := mkParts {
  p_messageType : option Z;
  p_transactionId : option Z;
  p_queries : list DnsQuery;
  p_answers : list RecordItem;
  p_authorities : list RecordItem;
  p_additionalRecords : list RecordItem;
}.

(** [DnsMessageTypeFlag] and [DnsMessageType] *)
Definition FlagQR : Z := 0x8000.
Definition FlagAA : Z := 0x0400.
Definition TypeQuery : Z := 0.
Definition TypeResponse : Z := js_or FlagQR FlagAA.

Definition isQuery (type : Z) : bool := js_and type FlagQR =? 0.
Definition isResponse (type : Z) : bool := negb (js_and type FlagQR =? 0).

(** [DnsRecordType] and [DnsRecordClass] *)
Definition RecordA : Z := 0x01.
Definition RecordPTR : Z := 0x0c.
Definition RecordTXT : Z := 0x10.
Definition RecordAAAA : Z := 0x1c.
Definition RecordSRV : Z := 0x21.
Definition RecordNSEC : Z := 0x2f.
Definition RecordANY : Z := 0xff.
Definition ClassIN : Z := 0x01.
Definition ClassANY : Z := 0xff.

Definition isUnique (recordType : Z) : bool := bool_decide (recordType ∈ [RecordSRV; RecordTXT; RecordA; RecordAAAA]).

(** The functions that build records. *)
Definition in_record (name : list Z) (type : Z) (value : DnsValue) (ttl : option Z) (flushCache : option bool) : DnsRecord :=
  mkRecord name (Some type) ClassIN (Some (default false flushCache)) (default DEFAULT_MDNS_TTL ttl) (Some value).

Definition PtrRecord (name ptr : list Z) := in_record name RecordPTR (VText ptr).
Definition ARecord (name ip : list Z) := in_record name RecordA (VText ip).
Definition AAAARecord (name ip : list Z) := in_record name RecordAAAA (VText ip).
Definition SrvRecord (name : list Z) (srv : SrvRecordValue) := in_record name RecordSRV (VSrv srv).

Definition entry_bytes (e : TxtEntry) : list Z := match e with EBytes b => b | EString s => Utf8.encode s end.
Definition TxtRecord (name : list Z) (entries : list TxtEntry) :=
  in_record name RecordTXT (VTxt ((fun e => EBytes (entry_bytes e)) <$> entries)).

(** ** Decoding *)

(** The loop of [decodeQName].  [follow] decodes the name at an index of the
    message, and [size] is the length of the message. *)
Fixpoint read_labels (fuel : nat) (size : Z) (follow : Z -> result (list Z)) : Reader.read (list (list Z)) :=
  match fuel with
  | O => Reader.throw OutOfFuel
  | S fuel =>
      let! itemLength := Reader.readUInt8 in
      if itemLength =? 0 then Reader.ret []
      else if negb (js_and itemLength 0xc0 =? 0) then
        let! remaining := Reader.remaining in
        if remaining <? 1 then Reader.throw UnexpectedDataError
        else
          let! low := Reader.readUInt8 in
          let indexInMessage := js_or low (js_shl (js_and itemLength 0x3f) 8) in
          if size <=? indexInMessage then Reader.throw UnexpectedDataError
          else let! s := Reader.lift (follow indexInMessage) in Reader.ret [s]
      else
        let! remaining := Reader.remaining in
        if remaining <? itemLength + 1 then Reader.throw UnexpectedDataError
        else
          let! s := readUtf8String itemLength in
          let! items := read_labels fuel size follow in
          Reader.ret (s :: items)
  end.

(** [depth] bounds the pointers followed; the offsets visited are shared by the
    nested calls. *)
Fixpoint decodeQName_at (depth : nat) (message : list Z) (visited : list Z) : Reader.read (list Z) := fun reader =>
  match depth with
  | O => Throw OutOfFuel
  | S depth =>
      if bool_decide (Reader.offset reader ∈ visited) then Throw UnexpectedDataError
      else
        let visited := Reader.offset reader :: visited in
        let follow index :=
          let* messageReader := Reader.set_offset index (Reader.new message false) in
          let* (s, _) := decodeQName_at depth message visited messageReader in Ok s in
        let* (items, reader) := read_labels (S (Reader.size reader)) (byteLength message) follow reader in
        Ok (join dot items, reader)
  end.

Definition decodeQName (message : list Z) : Reader.read (list Z) := decodeQName_at (length message + 2) message [].

Definition decodeQuery (message : list Z) : Reader.read DnsQuery :=
  let! name := decodeQName message in
  let! recordType := Reader.readUInt16 in
  let! classInt := Reader.readUInt16 in
  let uniCastResponse := negb (js_and classInt 0x8000 =? 0) in
  let recordClass := js_and classInt 0x7fff in
  Reader.ret (mkQuery name recordType recordClass (Some uniCastResponse)).

(** A decoder run on a reader of its own. *)
Definition over {A} (bytes : list Z) (m : Reader.read A) : result A :=
  let* (a, _) := m (Reader.new bytes false) in Ok a.

Definition decodeSrvRecord (valueBytes message : list Z) : result SrvRecordValue :=
  over valueBytes
    (let! priority := Reader.readUInt16 in
     let! weight := Reader.readUInt16 in
     let! port := Reader.readUInt16 in
     let! target := decodeQName message in
     Reader.ret (mkSrv priority weight port target)).

Fixpoint txt_loop (fuel : nat) (byteLen bytesRead : Z) : Reader.read (list (list Z)) :=
  match fuel with
  | O => Reader.throw OutOfFuel
  | S fuel =>
      if bytesRead <? byteLen then
        let! length := Reader.readUInt8 in
        let! entry := Reader.readByteArray length in
        let! result := txt_loop fuel byteLen (bytesRead + (length + 1)) in
        Reader.ret (entry :: result)
      else Reader.ret []
  end.

Definition decodeTxtRecord (valueBytes : list Z) : result (list (list Z)) :=
  over valueBytes (txt_loop (S (length valueBytes)) (byteLength valueBytes) 0).

Definition decodeAaaaRecord (valueBytes : list Z) : result (list Z) :=
  let* bytes := over valueBytes (Reader.readByteArray 16) in ipv6BytesToString bytes.

Definition decodeARecord (valueBytes : list Z) : result (list Z) :=
  let* bytes := over valueBytes (Reader.readByteArray 4) in ipv4BytesToString bytes.

Definition decodeRecordValue (valueBytes : list Z) (recordType : Z) (message : list Z) : result DnsValue :=
  if recordType =? RecordPTR then let* s := over valueBytes (decodeQName message) in Ok (VText s)
  else if recordType =? RecordSRV then let* srv := decodeSrvRecord valueBytes message in Ok (VSrv srv)
  else if recordType =? RecordTXT then let* entries := decodeTxtRecord valueBytes in Ok (VTxt (EBytes <$> entries))
  else if recordType =? RecordAAAA then let* s := decodeAaaaRecord valueBytes in Ok (VText s)
  else if recordType =? RecordA then let* s := decodeARecord valueBytes in Ok (VText s)
  else Ok (VRaw valueBytes).

(** [UnexpectedDataError.accept]: the error and its subclass [DataReadError]. *)
Definition is_unexpected_data (e : MatterError) : bool :=
  match e with UnexpectedDataError | DataReadError => true | _ => false end.

(** [None] is a record that could not be read. *)
Definition decodeRecord (message : list Z) : Reader.read (option DnsRecord) :=
  let! name := decodeQName message in
  let! recordType := Reader.readUInt16 in
  let! classInt := Reader.readUInt16 in
  let flushCache := negb (js_and classInt 0x8000 =? 0) in
  let recordClass := js_and classInt 0x7fff in
  let! seconds := Reader.readUInt32 in
  let ttl := Seconds seconds in
  let! valueLength := Reader.readUInt16 in
  let! valueBytes := Reader.readByteArray valueLength in
  match decodeRecordValue valueBytes recordType message with
  | Ok value => Reader.ret (Some (mkRecord name (Some recordType) recordClass (Some flushCache) ttl (Some value)))
  | Throw e => if is_unexpected_data e then Reader.ret None else Reader.throw e
  end.

Fixpoint decode_queries (n : nat) (message : list Z) : Reader.read (list DnsQuery) :=
  match n with
  | O => Reader.ret []
  | S n =>
      let! q := decodeQuery message in
      let! qs := decode_queries n message in Reader.ret (q :: qs)
  end.

Fixpoint decode_records (n : nat) (message : list Z) : Reader.read (list DnsRecord) :=
  match n with
  | O => Reader.ret []
  | S n =>
      let! record := decodeRecord message in
      let! rs := decode_records n message in
      Reader.ret (match record with Some r => r :: rs | None => rs end)
  end.

Definition decode_message (message : list Z) : result DnsMessage :=
  over message
    (let! transactionId := Reader.readUInt16 in
     let! messageType := Reader.readUInt16 in
     let! queriesCount := Reader.readUInt16 in
     let! answersCount := Reader.readUInt16 in
     let! authoritiesCount := Reader.readUInt16 in
     let! additionalRecordsCount := Reader.readUInt16 in
     let! queries := decode_queries (Z.to_nat queriesCount) message in
     let! answers := decode_records (Z.to_nat answersCount) message in
     let! authorities := decode_records (Z.to_nat authoritiesCount) message in
     let! additionalRecords := decode_records (Z.to_nat additionalRecordsCount) message in
     Reader.ret (mkMessage transactionId messageType queries answers authorities additionalRecords)).

(** Any exception makes [decode] return undefined. *)
Definition decode (message : list Z) : option DnsMessage :=
  match decode_message message with Ok m => Some m | Throw _ => None end.

(** ** Encoding *)

Definition write_label (w : Writer.DataWriter) (label : list Z) : Writer.DataWriter :=
  let labelData := Utf8.encode label in
  w |> Writer.writeUInt8 (byteLength labelData) |> Writer.writeByteArray labelData.

Definition encodeQName (qname : list Z) : result (list Z) :=
  run_be (fun w =>
    let w := if negb (bool_decide (qname = [])) then foldl write_label w (split dot qname) else w in
    w |> Writer.writeUInt8 0).

Definition encodeSrvRecord (srv : SrvRecordValue) : result (list Z) :=
  let* name := encodeQName (target srv) in
  run_be (fun w =>
    w |> Writer.writeUInt16 (priority srv) |> Writer.writeUInt16 (weight srv) |> Writer.writeUInt16 (port srv)
      |> Writer.writeByteArray name).

Definition write_entry (w : Writer.DataWriter) (entry : TxtEntry) : Writer.DataWriter :=
  let bytes := entry_bytes entry in
  let bytes := if 0xff <? byteLength bytes then take 0xff bytes else bytes in
  w |> Writer.writeUInt8 (byteLength bytes) |> Writer.writeByteArray bytes.

Definition encodeTxtRecord (entries : list TxtEntry) : result (list Z) :=
  run_be (fun w => if bool_decide (length entries = 0%nat) then Writer.writeUInt8 0 w else foldl write_entry w entries).

Definition encodeAaaaRecord (ip : list Z) : result (list Z) :=
  if negb (isIPv6 ip) then Throw UnexpectedDataError else Ok (ipv6ToBytes ip).

Definition encodeARecord (ip : list Z) : result (list Z) :=
  if negb (isIPv4 ip) then Throw UnexpectedDataError else Ok (ipv4ToBytes ip).

Definition encodeRecordValue (value : DnsValue) (recordType : Z) : result (list Z) :=
  if recordType =? RecordPTR then match value with VText s => encodeQName s | _ => Throw TypeError end
  else if recordType =? RecordSRV then match value with VSrv srv => encodeSrvRecord srv | _ => Throw TypeError end
  else if recordType =? RecordTXT then match value with VTxt entries => encodeTxtRecord entries | _ => Throw TypeError end
  else if recordType =? RecordAAAA then match value with VText ip => encodeAaaaRecord ip | _ => Throw TypeError end
  else if recordType =? RecordA then match value with VText ip => encodeARecord ip | _ => Throw TypeError end
  else match value with VRaw bytes => Ok bytes | _ => Throw UnexpectedDataError end.

(** The class with the bit of the cache flush or of the unicast response. *)
Definition class_bits (recordClass : Z) (top : option bool) : Z :=
  js_or recordClass (if default false top then 0x8000 else 0).

(** [None] is an empty object or no object. *)
Definition encodeRecord (record : option DnsRecord) : result (list Z) :=
  match record with
  | None => Ok []
  | Some r =>
      match recordType r, value r with
      | Some recordType, Some value =>
          let* name := encodeQName (name r) in
          let* encodedValue := encodeRecordValue value recordType in
          run_be (fun w =>
            w |> Writer.writeByteArray name
              |> Writer.writeUInt16 recordType
              |> Writer.writeUInt16 (class_bits (recordClass r) (flushCache r))
              |> Writer.writeUInt32 (Seconds_of (ttl r))
              |> Writer.writeUInt16 (byteLength encodedValue)
              |> Writer.writeByteArray encodedValue)
      | _, _ => Ok []
      end
  end.

Definition encodeQuery (query : DnsQuery) : result (list Z) :=
  let* name := encodeQName (q_name query) in
  run_be (fun w =>
    w |> Writer.writeByteArray name
      |> Writer.writeUInt16 (q_recordType query)
      |> Writer.writeUInt16 (class_bits (q_recordClass query) (uniCastResponse query))).

Fixpoint write_queries (queries : list DnsQuery) (w : Writer.DataWriter) : result Writer.DataWriter :=
  match queries with
  | [] => Ok w
  | q :: queries =>
      let* name := encodeQName (q_name q) in
      write_queries queries
        (w |> Writer.writeByteArray name
           |> Writer.writeUInt16 (q_recordType q)
           |> Writer.writeUInt16 (class_bits (q_recordClass q) (uniCastResponse q)))
  end.

Fixpoint write_records (records : list RecordItem) (w : Writer.DataWriter) : result Writer.DataWriter :=
  match records with
  | [] => Ok w
  | record :: records =>
      let* bytes :=
        match record with PreEncoded bytes => Ok bytes | Item r => encodeRecord (Some r) | NoRecord => encodeRecord None end in
      write_records records (w |> Writer.writeByteArray bytes)
  end.

Definition encode (parts : MessageParts) : result (list Z) :=
  match p_messageType parts with
  | None => Throw InternalError
  | Some messageType =>
      let queries := p_queries parts in
      let answers := p_answers parts in
      let authorities := p_authorities parts in
      let additionalRecords := p_additionalRecords parts in
      let* _ := throw_if ((0 <? length queries)%nat && negb (isQuery messageType)) InternalError in
      let* _ := throw_if (0 <? length authorities)%nat NotImplementedError in
      let w := Writer.new false
        |> Writer.writeUInt16 (default 0 (p_transactionId parts))
        |> Writer.writeUInt16 messageType
        |> Writer.writeUInt16 (Z.of_nat (length queries))
        |> Writer.writeUInt16 (Z.of_nat (length answers))
        |> Writer.writeUInt16 (Z.of_nat (length authorities))
        |> Writer.writeUInt16 (Z.of_nat (length additionalRecords)) in
      let* w := write_queries queries w in
      let* w := write_records (answers ++ authorities ++ additionalRecords) w in
      let* (bytes, _) := Writer.toByteArray w in Ok bytes
  end.
