(* ===== verification/DnsCorrect.v ===== *)
(** * The DNS codec against the wire format of RFC 1035

    Decoding ends on every message, pointer loops included; messages in wire
    format, with compressed names, are decoded to what they say; encoded messages
    are in wire format; and what happens outside of these conditions. *)

From stdpp Require Import list.
From S2P Require Import Prelude DataIO Text BigEndian JsText Ip IpCorrect Dns.

(** ** Termination *)

Definition total {A} (r : Reader.DataReader) (x : result (A * Reader.DataReader)) : Prop :=
  match x with
  | Ok (_, r') => Reader.buffer r' = Reader.buffer r /\ Reader.offset r <= Reader.offset r'
  | Throw e => e <> OutOfFuel
  end.

Lemma total_bind {A B} (m : Reader.read A) (k : A -> Reader.read B) r :
  total r (m r) -> (forall a r', m r = Ok (a, r') -> total r' (k a r')) -> total r (Reader.bind m k r).
Proof.
  intros Hm Hk. unfold Reader.bind. destruct (m r) as [[a r']|e]; cbn in *; [|done]. specialize (Hk a r' eq_refl).
  destruct (k a r') as [[b r'']|e]; cbn in *; [|done]. destruct Hm as [Eb Ho], Hk as [Eb' Ho']. split; [congruence|lia].
Qed.

Lemma sound_total {A} (m : Reader.read A) r : Reader.sound m -> total r (m r).
Proof. intros H. apply H. Qed.

Lemma read_labels_total fuel size follow r :
  (Reader.size r < fuel)%nat -> (forall i, i < size -> follow i <> Throw OutOfFuel) -> total r (read_labels fuel size follow r).
Proof.
  intros Hf Hfol. revert r Hf. induction fuel as [|fuel IH]; intros r Hf; [lia|]. cbn [read_labels].
  apply total_bind; [apply Reader.sound_readUnsigned|]. intros n r1 E1. pose proof (Reader.readUInt8_size r n r1 E1) as H1.
  destruct (n =? 0); [apply sound_total, Reader.sound_ret|]. destruct (negb _).
  - apply total_bind; [apply sound_remaining|]. intros k r2 _. destruct (k <? 1); [done|].
    apply total_bind; [apply Reader.sound_readUnsigned|]. intros low r3 _. destruct (Z.leb_spec size (js_or low (js_shl (js_and n 63) 8))); [done|].
    apply total_bind; [by apply sound_lift, Hfol|]. intros s r4 _. apply sound_total, Reader.sound_ret.
  - apply total_bind; [apply sound_remaining|]. intros k r2 [= <- <-]. destruct (_ <? n + 1); [done|].
    apply total_bind; [apply sound_readUtf8String|]. intros s r3 E3.
    pose proof (Reader.sound_size _ _ _ _ (sound_readUtf8String n) E3) as H3.
    apply total_bind; [apply IH; lia|]. intros items r4 _. apply sound_total, Reader.sound_ret.
Qed.

(** The offsets of the message that were not visited yet. *)
Definition fresh (size : Z) (visited : list Z) : nat := length (filter (fun i => i ∉ visited) (seqZ 0 size)).

Lemma filter_length_mono (P Q : Z -> Prop) `{!forall x, Decision (P x), !forall x, Decision (Q x)} (l : list Z) :
  (forall x, P x -> Q x) -> (length (filter P l) <= length (filter Q l))%nat /\
  (forall x, x ∈ l -> Q x -> ~ P x -> (length (filter P l) < length (filter Q l))%nat).
Proof.
  intros HPQ. induction l as [|y l [IH1 IH2]]; [split; [done|by intros x ?%elem_of_nil]|]. split.
  - rewrite !filter_cons. destruct (decide (P y)) as [Hy|Hy]; [rewrite decide_True by auto; cbn; lia|]. destruct (decide (Q y)); cbn; lia.
  - intros x Hx HQ HP. apply elem_of_cons in Hx as [->|Hx].
    + rewrite filter_cons_False, filter_cons_True by done. cbn. lia.
    + specialize (IH2 x Hx HQ HP). rewrite !filter_cons. destruct (decide (P y)) as [Hy|Hy]; [rewrite decide_True by auto; cbn; lia|].
      destruct (decide (Q y)); cbn; lia.
Qed.

Lemma fresh_visit size visited o : 0 <= o < size -> o ∉ visited -> (fresh size (o :: visited) < fresh size visited)%nat.
Proof.
  intros Ho Hv. unfold fresh. eapply (filter_length_mono (fun i => i ∉ o :: visited) (fun i => i ∉ visited)) with (x := o); [|apply elem_of_seqZ; lia|done|].
  - intros x Hx Hin. apply Hx. by constructor.
  - intros Hn. apply Hn. constructor.
Qed.

Lemma fresh_le size visited : 0 <= size -> (fresh size visited <= Z.to_nat size)%nat.
Proof. intros H. unfold fresh. etrans; [apply length_filter|]. by rewrite length_seqZ. Qed.

(** One call, given the calls it may make. *)
Lemma decodeQName_frame depth message visited r :
  (forall o, 0 <= o < byteLength message ->
     decodeQName_at depth message (Reader.offset r :: visited) (Reader.mkReader false message o) <> Throw OutOfFuel) ->
  total r (decodeQName_at (S depth) message visited r).
Proof.
  intros Hn. cbn [decodeQName_at]. case_bool_decide; [done|].
  pose proof (read_labels_total (S (Reader.size r)) (byteLength message) (fun index =>
    let* messageReader := Reader.set_offset index (Reader.new message false) in
    let* (s, _) := decodeQName_at depth message (Reader.offset r :: visited) messageReader in Ok s) r ltac:(lia)) as Ht.
  cbn zeta. destruct (read_labels _ _ _ r) as [[items r']|e]; cbn [rbind]; [apply Ht|apply Ht].
  all: intros i Hi; unfold Reader.set_offset, Reader.new; cbn [Reader.buffer Reader.littleEndian].
  all: destruct (Z.ltb_spec i 0); [done|]; destruct (Z.ltb_spec (byteLength message) i); [done|]; cbn [orb rbind].
  all: specialize (Hn i ltac:(lia)); destruct (decodeQName_at _ _ _ _) as [[s ?]|e']; cbn; congruence.
Qed.

Lemma decodeQName_at_total depth message visited o :
  0 <= o < byteLength message -> (fresh (byteLength message) visited < depth)%nat ->
  decodeQName_at depth message visited (Reader.mkReader false message o) <> Throw OutOfFuel.
Proof.
  revert visited o. induction depth as [|depth IH]; intros visited o Ho Hd; [lia|].
  destruct (decide (o ∈ visited)) as [Hv|Hv].
  { cbn [decodeQName_at Reader.offset]. by rewrite bool_decide_eq_true_2. }
  pose proof (decodeQName_frame depth message visited (Reader.mkReader false message o)) as Hf. intros E. rewrite E in Hf. apply Hf; [|done].
  intros o' Ho'. apply IH; [done|]. cbn [Reader.offset]. pose proof (fresh_visit _ visited o Ho Hv). lia.
Qed.

Lemma sound_decodeQName message : Reader.sound (decodeQName message).
Proof.
  intros r. unfold decodeQName. rewrite Nat.add_comm. cbn [Nat.add]. apply decodeQName_frame. intros o Ho.
  apply decodeQName_at_total; [done|]. pose proof (fresh_le (byteLength message) [Reader.offset r]). unfold byteLength in *. lia.
Qed.
#[export] Hint Resolve sound_decodeQName : reader.

Lemma over_total {A} bytes (m : Reader.read A) : total (Reader.new bytes false) (m (Reader.new bytes false)) -> over bytes m <> Throw OutOfFuel.
Proof. unfold over. destruct (m _) as [[a r']|e]; cbn; [done|congruence]. Qed.

Lemma txt_loop_total fuel n k r : (Reader.size r < fuel)%nat -> total r (txt_loop fuel n k r).
Proof.
  revert k r. induction fuel as [|fuel IH]; intros k r Hf; [lia|]. cbn [txt_loop]. destruct (k <? n); [|apply sound_total, Reader.sound_ret].
  apply total_bind; [apply Reader.sound_readUnsigned|]. intros len r1 E1. pose proof (Reader.readUInt8_size r len r1 E1).
  apply total_bind; [apply Reader.sound_readByteArray|]. intros entry r2 E2.
  pose proof (Reader.sound_size _ _ _ _ (Reader.sound_readByteArray len) E2).
  apply total_bind; [apply IH; lia|]. intros es r3 _. apply sound_total, Reader.sound_ret.
Qed.

Lemma decodeRecordValue_total bytes type message : decodeRecordValue bytes type message <> Throw OutOfFuel.
Proof.
  unfold decodeRecordValue.
  assert (Hmap : forall {A B} (x : result A) (f : A -> B), x <> Throw OutOfFuel -> (let* a := x in Ok (f a)) <> Throw OutOfFuel).
  { intros A B [a|e] f H; cbn; congruence. }
  repeat case_match; try apply Hmap; try done.
  - apply over_total, sound_decodeQName.
  - apply over_total. apply sound_total. unfold Reader.readUInt16. auto 20 with reader.
  - apply over_total, txt_loop_total. unfold Reader.size, Reader.remainingBytesCount, Reader.new, byteLength. cbn. lia.
  - unfold decodeAaaaRecord. pose proof (over_total bytes (Reader.readByteArray 16) (Reader.sound_readByteArray 16 _)) as Ho.
    destruct (over _ _) as [b|e]; cbn; [|congruence]. unfold ipv6BytesToString. case_decide; [|done]. by destruct (best_run _).
  - unfold decodeARecord. pose proof (over_total bytes (Reader.readByteArray 4) (Reader.sound_readByteArray 4 _)) as Ho.
    destruct (over _ _) as [b|e]; cbn; [|congruence]. unfold ipv4BytesToString. by case_decide.
Qed.

Lemma sound_decodeRecord message : Reader.sound (decodeRecord message).
Proof.
  unfold decodeRecord, Reader.readUInt16, Reader.readUInt32. repeat (apply Reader.sound_bind; [auto with reader|intros ?]).
  pose proof (decodeRecordValue_total a4 a0 message) as H. destruct (decodeRecordValue _ _ _) as [v|e]; [auto with reader|].
  destruct (is_unexpected_data e); [auto with reader|]. apply Reader.sound_throw. congruence.
Qed.

Lemma sound_decodeQuery message : Reader.sound (decodeQuery message).
Proof. unfold decodeQuery, Reader.readUInt16. auto 10 with reader. Qed.
#[export] Hint Resolve sound_decodeRecord sound_decodeQuery : reader.

Lemma sound_decode_queries n message : Reader.sound (decode_queries n message).
Proof. induction n as [|n IH]; cbn; auto with reader. Qed.
Lemma sound_decode_records n message : Reader.sound (decode_records n message).
Proof. induction n as [|n IH]; cbn; auto with reader. Qed.

(** C22: Decoding ends on every sequence of bytes: the offsets visited stop names
    whose pointers form a loop. *)
Theorem dns_decode_total message : decode_message message <> Throw OutOfFuel.
Proof.
  unfold decode_message, Reader.readUInt16. apply over_total, sound_total.
  repeat (apply Reader.sound_bind; [auto using sound_decode_queries, sound_decode_records with reader|intros ?]). auto with reader.
Qed.

(** ** Names *)

(** The labels behind a pointer.  A pointer to the root name counts as an empty
    last label: the decoder writes the name with a dot at its end. *)
Definition pointed (labels : list (list Z)) : list (list Z) :=
  match labels with [] => [[]] | _ => labels end.

(** RFC 1035, section 4.1.4: the bytes of a name, its labels, and how many
    pointers are followed.  A pointer leads to a name behind the header. *)
Inductive name_bytes (message : list Z) : nat -> list Z -> list (list Z) -> Prop :=
| NameEnd : name_bytes message 0 [0] []
| NameLabel k label img labels :
    0 < byteLength label < 64 -> name_bytes message k img labels ->
    name_bytes message k (byteLength label :: label ++ img) (Utf8.decode label :: labels)
| NamePointer k hi lo pre img post labels :
    192 <= hi < 256 -> is_byte lo -> message = pre ++ img ++ post ->
    byteLength pre = (hi - 192) * 256 + lo -> 12 <= byteLength pre ->
    name_bytes message k img labels -> name_bytes message (S k) [hi; lo] (pointed labels).

Lemma name_bytes_cons message k img labels : name_bytes message k img labels -> exists b img', img = b :: img'.
Proof. destruct 1; eauto. Qed.

(** The bytes determine where a name ends and the pointers it follows. *)
Lemma name_bytes_det message k img labels k' img' labels' post post' :
  name_bytes message k img labels -> name_bytes message k' img' labels' -> img ++ post = img' ++ post' -> k = k'.
Proof.
  intros H. revert k' img' labels' post post'. induction H as [|k label img labels Hl H IH|k hi lo pre img post0 labels Hh Hlo Em Ep H12 H IH];
    intros k' img' labels' post post' H' E; destruct H' as [|k' label' img' labels' Hl' H'|k' hi' lo' pre' img' post0' labels' Hh' Hlo' Em' Ep' H12' H'];
    cbn [app] in E; try done; injection E as E0 E; try lia.
  - rewrite <- !app_assoc in E. apply app_inj_1 in E as [-> E]; [by eapply IH|]. unfold byteLength in E0. lia.
  - f_equal. subst hi' lo'. eapply IH; [exact H'|]. assert (Epre : length pre = length pre') by (unfold byteLength in *; lia).
    rewrite Em in Em'. by apply app_inj_1 in Em' as [_ Em'].
Qed.

Lemma pointer_bits hi lo : 192 <= hi < 256 -> is_byte lo ->
  (js_and hi 0xc0 =? 0) = false /\ js_or lo (js_shl (js_and hi 0x3f) 8) = (hi - 192) * 256 + lo.
Proof.
  intros Hh Hlo. assert (Hall : forallb_below 256 (fun hi => (hi <? 192) ||
    (negb (js_and hi 0xc0 =? 0) && (js_and hi 0x3f =? hi - 192))) = true) by (vm_compute; reflexivity).
  pose proof (forallb_below_spec _ _ Hall hi ltac:(lia)) as H. cbn beta in H. destruct (Z.ltb_spec hi 192); [lia|]. cbn [orb] in H.
  apply andb_prop in H as [H1 H2]. apply negb_true_iff in H1. apply Z.eqb_eq in H2. split; [done|]. rewrite H2.
  rewrite <- (group_of (hi - 192) lo) by (unfold is_byte; lia || done). unfold js_or. apply Z.lor_comm.
Qed.

Lemma label_bits n : 0 < n < 64 -> (js_and n 0xc0 =? 0) = true.
Proof.
  intros Hn. assert (Hall : forallb_below 64 (fun n => js_and n 0xc0 =? 0) = true) by (vm_compute; reflexivity).
  apply (forallb_below_spec _ _ Hall n). lia.
Qed.

(** Items that spell a name, or too little fuel. *)
Definition spells (r : Reader.DataReader) (labels : list (list Z)) (x : result (list (list Z) * Reader.DataReader)) : Prop :=
  (exists items, x = Ok (items, r) /\ join dot items = join dot labels /\ (items = [] <-> labels = [])) \/ x = Throw OutOfFuel.

(** Reading the labels, given what the pointer leads to. *)
Lemma read_labels_name message k img labels follow :
  name_bytes message k img labels ->
  (forall k' pre img post labels, k = S k' -> message = pre ++ img ++ post -> 12 <= byteLength pre -> name_bytes message k' img labels ->
     follow (byteLength pre) = Ok (join dot labels) \/ follow (byteLength pre) = Throw OutOfFuel) ->
  forall fuel pre post, (length img <= fuel)%nat ->
  spells (at_be (pre ++ img) post) labels (read_labels fuel (byteLength message) follow (at_be pre (img ++ post))).
Proof.
  intros H Hfol. induction H as [|k label img labels Hl H IH|k hi lo pre0 img post0 labels Hh Hlo Em Ep H12 H _]; intros [|fuel] pre post Hf; try (cbn in Hf; lia).
  - left. exists []. split; [|done]. cbn [read_labels]. unfold Reader.bind. by rewrite (reads_be_byte 0 pre post).
  - cbn [read_labels]. unfold Reader.bind at 1. rewrite (reads_be_byte (byteLength label) pre ((label ++ img) ++ post) : Reader.readUInt8 (at_be pre ((byteLength label :: label ++ img) ++ post)) = _).
    cbn [rbind]. destruct (Z.eqb_spec (byteLength label) 0); [lia|]. rewrite label_bits by lia. cbn [negb].
    unfold Reader.bind at 1. cbn [Reader.remaining rbind]. rewrite remaining_be.
    destruct (name_bytes_cons _ _ _ _ H) as (b & img' & Ei).
    destruct (Z.ltb_spec (byteLength ((label ++ img) ++ post)) (byteLength label + 1)) as [Hlt|_].
    { rewrite Ei in Hlt. unfold byteLength in Hlt. rewrite !length_app in Hlt. cbn in Hlt. lia. }
    unfold Reader.bind at 1. rewrite <- (app_assoc label img post), (reads_be_utf8 label (byteLength label) eq_refl _ (img ++ post)). cbn [rbind].
    destruct (IH Hfol fuel ((pre ++ [byteLength label]) ++ label) post) as [(items & E & Ej & Hi)|E].
    { cbn in Hf. rewrite length_app in Hf. lia. }
    + left. exists (Utf8.decode label :: items). unfold Reader.bind. rewrite E. cbn [rbind]. split_and!.
      * unfold Reader.ret. do 3 f_equal. rewrite <- !app_assoc. done.
      * destruct items as [|i items], labels as [|l ls]; [done|by destruct (proj1 Hi eq_refl)|by destruct (proj2 Hi eq_refl)|].
        rewrite !join_cons_app by done. by rewrite Ej.
      * done.
    + right. unfold Reader.bind. by rewrite E.
  - cbn [read_labels]. destruct (pointer_bits hi lo Hh Hlo) as [Eb Ei]. unfold Reader.bind at 1.
    rewrite (reads_be_byte hi pre ([lo] ++ post) : Reader.readUInt8 (at_be pre ([hi; lo] ++ post)) = _). cbn [rbind].
    destruct (Z.eqb_spec hi 0); [lia|]. rewrite Eb. cbn [negb]. unfold Reader.bind at 1. cbn [Reader.remaining rbind]. rewrite remaining_be.
    destruct (Z.ltb_spec (byteLength ([lo] ++ post)) 1) as [Hlt|_]; [unfold byteLength in Hlt; cbn in Hlt; lia|].
    unfold Reader.bind at 1. rewrite (reads_be_byte lo _ post). cbn [rbind]. rewrite Ei, <- Ep.
    destruct (Z.leb_spec (byteLength message) (byteLength pre0)) as [Hle|_].
    { destruct (name_bytes_cons _ _ _ _ H) as (b & img' & Eimg). rewrite Em, Eimg in Hle. unfold byteLength in Hle. rewrite !length_app in Hle. cbn in Hle. lia. }
    unfold Reader.bind, Reader.lift, Reader.ret. destruct (Hfol k pre0 img post0 labels eq_refl Em H12 H) as [->| ->]; cbn [rbind]; [left|by right].
    exists [join dot labels]. split_and!; [by rewrite <- app_assoc|by destruct labels|]. by destruct labels.
Qed.

(** The offsets visited before a name that follows [k] pointers. *)
Definition visited_ok (message : list Z) (k : nat) (v : Z) : Prop :=
  v < 12 \/ exists k' pre img post labels,
    (k < k')%nat /\ v = byteLength pre /\ message = pre ++ img ++ post /\ name_bytes message k' img labels.

Lemma visited_fresh message k pre img post labels visited :
  message = pre ++ img ++ post -> 12 <= byteLength pre -> name_bytes message k img labels ->
  Forall (visited_ok message k) visited -> byteLength pre ∉ visited.
Proof.
  intros Em H12 H Hv Hin. rewrite Forall_forall in Hv. destruct (Hv _ Hin) as [|(k' & pre' & img' & post' & labels' & Hk & El & Em' & H')]; [lia|].
  rewrite Em in Em'. apply app_inj_1 in Em' as [_ E]; [|unfold byteLength in El; lia].
  pose proof (name_bytes_det _ _ _ _ _ _ _ _ _ H H' E). lia.
Qed.

Lemma decodeQName_at_name message depth : forall k pre img post labels visited,
  name_bytes message k img labels -> message = pre ++ img ++ post \/ byteLength pre < 12 ->
  byteLength pre ∉ visited -> Forall (visited_ok message k) visited ->
  decodeQName_at depth message visited (at_be pre (img ++ post)) = Ok (join dot labels, at_be (pre ++ img) post) \/
  decodeQName_at depth message visited (at_be pre (img ++ post)) = Throw OutOfFuel.
Proof.
  induction depth as [|depth IH]; intros k pre img post labels visited H Hpre Hnew Hv; [by right|].
  cbn [decodeQName_at]. change (Reader.offset (at_be pre (img ++ post))) with (byteLength pre). rewrite bool_decide_eq_false_2 by done. cbn zeta.
  match goal with |- context [read_labels _ _ ?f _] => set (follow := f) end.
  destruct (read_labels_name message k img labels follow H) with (fuel := S (Reader.size (at_be pre (img ++ post)))) (pre := pre) (post := post)
    as [(items & E & Ej & _)|E].
  - intros k' pre' img' post' labels' -> Em H12 H'. unfold follow. unfold Reader.set_offset, Reader.new. cbn [Reader.buffer Reader.littleEndian].
    assert (Hlen : byteLength pre' <= byteLength message) by (rewrite Em; unfold byteLength; rewrite length_app; lia).
    destruct (Z.ltb_spec (byteLength pre') 0); [lia|]. destruct (Z.ltb_spec (byteLength message) (byteLength pre')); [lia|]. cbn [orb rbind].
    assert (Hv' : Forall (visited_ok message k') (byteLength pre :: visited)).
    { constructor.
      - destruct Hpre as [Hpre|Hpre]; [|by left]. right. exists (S k'), pre, img, post, labels. split_and!; [lia|done..].
      - eapply Forall_impl; [exact Hv|]. intros v [Hv12|(k'' & ? & ? & ? & ? & ? & ?)]; [by left|]. right. exists k''. do 4 eexists. split; [|done]. lia. }
    replace (Reader.mkReader false message (byteLength pre')) with (at_be pre' (img' ++ post')) by (unfold at_be; by rewrite <- Em).
    destruct (IH k' pre' img' post' labels' (byteLength pre :: visited) H') as [->| ->]; [by left|by eapply visited_fresh|done|by left|by right].
  - rewrite size_be, length_app. lia.
  - left. rewrite E. cbn [rbind]. by rewrite Ej.
  - right. by rewrite E.
Qed.

(** A name in wire format is read, in the message or at the start of a value. *)
Lemma decodeQName_name message k pre img post labels :
  name_bytes message k img labels -> message = pre ++ img ++ post \/ byteLength pre < 12 ->
  decodeQName message (at_be pre (img ++ post)) = Ok (join dot labels, at_be (pre ++ img) post).
Proof.
  intros H Hpre. pose proof (sound_decodeQName message (at_be pre (img ++ post))) as Hs. unfold decodeQName in *.
  destruct (decodeQName_at_name message (length message + 2) k pre img post labels [] H Hpre) as [E|E]; [apply not_elem_of_nil|constructor|done|].
  rewrite E in Hs. done.
Qed.

(** ** Messages in wire format *)

#[local] Abbreviation u16 := (view_bytes false 2).
#[local] Abbreviation u32 := (view_bytes false 4).

Definition in16 (v : Z) : Prop := 0 <= v < 2 ^ 16.

(** The class of a record or a query with its top bit. *)
Definition class_word (c : Z) (top : bool) : Z := c + (if top then 0x8000 else 0).

(** A string of a TXT record with its length. *)
Definition entry_image (e : list Z) : list Z := byteLength e :: e.

(** The values of the record types that are decoded. *)
Inductive wire_value (message : list Z) : Z -> list Z -> DnsValue -> Prop :=
| WirePtr k img labels : name_bytes message k img labels -> wire_value message RecordPTR img (VText (join dot labels))
| WireSrv p w o k img labels :
    in16 p -> in16 w -> in16 o -> name_bytes message k img labels ->
    wire_value message RecordSRV (u16 p ++ u16 w ++ u16 o ++ img) (VSrv (mkSrv p w o (join dot labels)))
| WireTxt entries :
    Forall (fun e => byteLength e < 256) entries ->
    wire_value message RecordTXT (mjoin (entry_image <$> entries)) (VTxt (EBytes <$> entries))
| WireAaaa bytes text : ipv6BytesToString bytes = Ok text -> wire_value message RecordAAAA bytes (VText text)
| WireA a b c d : wire_value message RecordA [a; b; c; d] (VText (join dot (toString 10 <$> [a; b; c; d])))
| WireOther type bytes :
    type ∉ [RecordPTR; RecordSRV; RecordTXT; RecordAAAA; RecordA] -> wire_value message type bytes (VRaw bytes).

(** Values that cannot be read: they end too early. *)
Inductive truncated : Z -> list Z -> Prop :=
| TruncatedPtr : truncated RecordPTR []
| TruncatedSrv bytes : byteLength bytes < 6 -> truncated RecordSRV bytes
| TruncatedTxt entries n rest :
    Forall (fun e => byteLength e < 256) entries -> byteLength rest < n < 256 ->
    truncated RecordTXT (mjoin (entry_image <$> entries) ++ n :: rest)
| TruncatedAaaa bytes : byteLength bytes < 16 -> truncated RecordAAAA bytes
| TruncatedA bytes : byteLength bytes < 4 -> truncated RecordA bytes.

Inductive wire_query (message : list Z) : list Z -> DnsQuery -> Prop :=
| WireQuery k img labels type class top :
    name_bytes message k img labels -> in16 type -> 0 <= class < 0x8000 ->
    wire_query message (img ++ u16 type ++ u16 (class_word class top)) (mkQuery (join dot labels) type class (Some top)).

(** A record in wire format, and the record it is unless its value is truncated. *)
Inductive wire_record (message : list Z) : list Z -> option DnsRecord -> Prop :=
| WireRecord k img labels type class top seconds bytes v :
    name_bytes message k img labels -> in16 type -> 0 <= class < 0x8000 -> 0 <= seconds < 2 ^ 32 -> byteLength bytes < 2 ^ 16 ->
    wire_value message type bytes v ->
    wire_record message (img ++ u16 type ++ u16 (class_word class top) ++ u32 seconds ++ u16 (byteLength bytes) ++ bytes)
      (Some (mkRecord (join dot labels) (Some type) class (Some top) (seconds * 1000) (Some v)))
| WireTruncated k img labels type class top seconds bytes :
    name_bytes message k img labels -> in16 type -> 0 <= class < 0x8000 -> 0 <= seconds < 2 ^ 32 -> byteLength bytes < 2 ^ 16 ->
    truncated type bytes ->
    wire_record message (img ++ u16 type ++ u16 (class_word class top) ++ u32 seconds ++ u16 (byteLength bytes) ++ bytes) None.

Definition count {A} (l : list A) : Z := Z.of_nat (length l).

(** RFC 1035, section 4.1: the header with the number of entries of the four
    sections, then the sections. *)
Inductive wire_message (message : list Z) : DnsMessage -> Prop :=
| WireMessage tid type qs answers authorities additional qi ai ui di :
    in16 tid -> in16 type -> in16 (count qi) -> in16 (count ai) -> in16 (count ui) -> in16 (count di) ->
    Forall2 (wire_query message) qi qs -> Forall2 (wire_record message) ai answers ->
    Forall2 (wire_record message) ui authorities -> Forall2 (wire_record message) di additional ->
    message = (u16 tid ++ u16 type ++ u16 (count qi) ++ u16 (count ai) ++ u16 (count ui) ++ u16 (count di)) ++
      mjoin qi ++ mjoin ai ++ mjoin ui ++ mjoin di ->
    wire_message message (mkMessage tid type qs (omap id answers) (omap id authorities) (omap id additional)).

(** Reading at a place of the message itself. *)
Definition reads_in {A} (message : list Z) (m : Reader.read A) (img : list Z) (v : A) : Prop :=
  forall pre post, message = pre ++ img ++ post -> m (at_be pre (img ++ post)) = Ok (v, at_be (pre ++ img) post).

Lemma reads_in_be {A} message (m : Reader.read A) img v : reads_be m img v -> reads_in message m img v.
Proof. intros H pre post _. apply H. Qed.

Lemma reads_in_bind {A B} message (m : Reader.read A) (k : A -> Reader.read B) i j a b :
  reads_in message m i a -> reads_in message (k a) j b -> reads_in message (Reader.bind m k) (i ++ j) b.
Proof.
  intros Hm Hk pre post E. rewrite <- app_assoc in *. unfold Reader.bind. rewrite Hm by done. cbn [rbind].
  rewrite Hk by (by rewrite <- app_assoc). by rewrite <- app_assoc.
Qed.

Lemma reads_in_map {A B} message (m : Reader.read A) (f : A -> B) i a :
  reads_in message m i a -> reads_in message (Reader.bind m (fun x => Reader.ret (f x))) i (f a).
Proof. intros H. rewrite <- (app_nil_r i). eapply reads_in_bind; [exact H|]. apply reads_in_be, reads_be_ret. Qed.

Lemma reads_in16 message v : in16 v -> reads_in message Reader.readUInt16 (u16 v) v.
Proof. intros H. by apply reads_in_be, (reads_be_unsigned 2). Qed.

Lemma reads_in_name message k img labels : name_bytes message k img labels -> reads_in message (decodeQName message) img (join dot labels).
Proof. intros H pre post E. by eapply decodeQName_name; [|left]. Qed.

Lemma class_word_bits c top : 0 <= c < 0x8000 ->
  in16 (class_word c top) /\ negb (js_and (class_word c top) 0x8000 =? 0) = top /\ js_and (class_word c top) 0x7fff = c /\
  class_bits c (Some top) = class_word c top.
Proof.
  intros Hc. assert (Hw : in16 (class_word c top)) by (unfold in16, class_word; destruct top; lia).
  set (t := if top then 1 else 0). assert (Ht : class_word c top = Z.lor c (t * 2 ^ 15)).
  { rewrite lor_add by lia. unfold class_word, t. by destruct top. }
  assert (E0 : Z.land c (2 ^ 15) = 0).
  { apply Z.bits_inj'. intros i Hi. rewrite Z.land_spec, Z.pow2_bits_eqb, Z.bits_0 by lia.
    destruct (Z.eqb_spec 15 i) as [<-|]; [|apply andb_false_r]. by rewrite (testbit_above c 15) by lia. }
  split; [done|]. unfold in16 in Hw. split_and!.
  - rewrite js_and_plain by (unfold is_int32; lia). rewrite Ht. change 0x8000 with (2 ^ 15). rewrite Z.land_lor_distr_l, E0.
    unfold t. by destruct top.
  - rewrite js_and_plain by (unfold is_int32; lia). rewrite (Z.land_ones _ 15 ltac:(lia)). unfold class_word.
    destruct top; [|rewrite Z.add_0_r; by apply Z.mod_small]. change 32768 with (1 * 2 ^ 15). rewrite Z.mod_add by lia. by apply Z.mod_small.
  - unfold class_bits. rewrite Ht. cbn [default]. unfold t. rewrite js_or_plain by (unfold is_int32; destruct top; cbn; lia). by destruct top.
Qed.

Lemma reads_over {A} (m : Reader.read A) bytes v : reads_be m bytes v -> over bytes m = Ok v.
Proof.
  intros H. unfold over. change (Reader.new bytes false) with (at_be [] bytes). specialize (H [] []). rewrite app_nil_r in H. by rewrite H.
Qed.

Lemma over_name message k img labels : name_bytes message k img labels -> over img (decodeQName message) = Ok (join dot labels).
Proof.
  intros H. unfold over. change (Reader.new img false) with (at_be [] img).
  pose proof (decodeQName_name message k [] img [] labels H (or_intror eq_refl)) as E. rewrite app_nil_r in E. by rewrite E.
Qed.

Lemma decodeSrvRecord_wire message p w o k img labels :
  in16 p -> in16 w -> in16 o -> name_bytes message k img labels ->
  decodeSrvRecord (u16 p ++ u16 w ++ u16 o ++ img) message = Ok (mkSrv p w o (join dot labels)).
Proof.
  intros Hp Hw Ho H. unfold decodeSrvRecord, over. change (Reader.new ?b false) with (at_be [] b). unfold Reader.bind, Reader.readUInt16.
  rewrite (reads_be_unsigned 2 p Hp [] _). cbn [rbind]. rewrite (reads_be_unsigned 2 w Hw _ _). cbn [rbind].
  rewrite (reads_be_unsigned 2 o Ho _ _). cbn [rbind]. rewrite <- (app_nil_r img).
  rewrite (decodeQName_name message k _ img [] labels H); [done|]. right. unfold byteLength. cbn [app]. by rewrite !length_app, !view_bytes_length.
Qed.

(** Reading the entries that are there, one by one. *)
Lemma txt_loop_step fuel n k e pre post :
  k < n -> txt_loop (S fuel) n k (at_be pre (entry_image e ++ post)) =
  (let* (es, r) := txt_loop fuel n (k + (byteLength e + 1)) (at_be (pre ++ entry_image e) post) in Ok (e :: es, r)).
Proof.
  intros Hk. cbn [txt_loop]. destruct (Z.ltb_spec k n); [|lia]. unfold Reader.bind.
  rewrite (reads_be_byte (byteLength e) pre (e ++ post) : Reader.readUInt8 (at_be pre (entry_image e ++ post)) = _). cbn [rbind].
  rewrite (reads_be_bytes e (byteLength e) eq_refl _ post). cbn [rbind]. by rewrite <- app_assoc.
Qed.

Lemma entries_length entries : (length entries <= length (mjoin (entry_image <$> entries)))%nat.
Proof. induction entries as [|e es IH]; [done|]. cbn [fmap list_fmap]. rewrite join_cons, length_app. cbn. lia. Qed.

Lemma txt_loop_entries fuel entries rest n k pre :
  n = k + byteLength (mjoin (entry_image <$> entries)) + byteLength rest ->
  txt_loop (length entries + fuel) n k (at_be pre (mjoin (entry_image <$> entries) ++ rest)) =
  (let* (es, r) := txt_loop fuel n (n - byteLength rest) (at_be (pre ++ mjoin (entry_image <$> entries)) rest) in Ok (entries ++ es, r)).
Proof.
  revert k pre. induction entries as [|e es IH]; intros k pre En.
  - cbn. rewrite app_nil_r. replace (n - byteLength rest) with k by (rewrite En; unfold byteLength; cbn; lia).
    by destruct (txt_loop _ _ _ _) as [[? ?]|].
  - cbn [fmap list_fmap length Nat.add] in *. rewrite join_cons in *. rewrite <- app_assoc.
    unfold byteLength in En. rewrite length_app in En. cbn [entry_image length] in En.
    rewrite txt_loop_step by lia. rewrite IH by (unfold byteLength; lia). rewrite <- app_assoc. by destruct (txt_loop _ _ _ _) as [[? ?]|].
Qed.

Lemma decodeTxtRecord_wire entries : decodeTxtRecord (mjoin (entry_image <$> entries)) = Ok entries.
Proof.
  set (bytes := mjoin (entry_image <$> entries)). unfold decodeTxtRecord, over. change (Reader.new bytes false) with (at_be [] bytes).
  pose proof (entries_length entries) as Hl. fold bytes in Hl.
  replace (S (length bytes)) with (length entries + S (length bytes - length entries))%nat by lia.
  pose proof (txt_loop_entries (S (length bytes - length entries)) entries [] (byteLength bytes) 0 []) as E. fold bytes in E.
  rewrite app_nil_r in E. rewrite E by (unfold byteLength; cbn; lia). cbn [txt_loop].
  destruct (Z.ltb_spec (byteLength bytes - byteLength []) (byteLength bytes)) as [Hlt|_]; [unfold byteLength in Hlt; cbn in Hlt; lia|].
  cbn. by rewrite app_nil_r.
Qed.

(** Reading past the end. *)
Lemma read_short n pre post : byteLength post < n -> Reader.readByteArray n (at_be pre post) = Throw DataReadError.
Proof.
  intros H. unfold Reader.readByteArray, Reader.getOffsetAndAdvance, at_be. cbn [Reader.buffer Reader.offset].
  destruct (Z.ltb_spec n 0); [done|]. unfold byteLength in *. rewrite length_app.
  by destruct (Z.ltb_spec (Z.of_nat (length pre + length post)) (Z.of_nat (length pre) + n)); [|lia].
Qed.

Lemma over_short n bytes : byteLength bytes < n -> over bytes (Reader.readByteArray n) = Throw DataReadError.
Proof. intros H. unfold over. change (Reader.new bytes false) with (at_be [] bytes). by rewrite read_short. Qed.

Lemma decodeTxtRecord_truncated entries n rest :
  byteLength rest < n -> decodeTxtRecord (mjoin (entry_image <$> entries) ++ n :: rest) = Throw DataReadError.
Proof.
  intros H. set (bytes := mjoin (entry_image <$> entries) ++ n :: rest). unfold decodeTxtRecord, over.
  change (Reader.new bytes false) with (at_be [] bytes). pose proof (entries_length entries) as Hl.
  assert (Hlen : length bytes = (length (mjoin (entry_image <$> entries)) + S (length rest))%nat) by (unfold bytes; by rewrite length_app).
  replace (S (length bytes)) with (length entries + S (length bytes - length entries))%nat by lia.
  unfold bytes at 3. rewrite txt_loop_entries; [|unfold byteLength; cbn [length]; lia]. cbn [txt_loop].
  destruct (Z.ltb_spec (byteLength bytes - byteLength (n :: rest)) (byteLength bytes)) as [_|Hge]; [|unfold byteLength in Hge; cbn in Hge; lia].
  unfold Reader.bind. rewrite (reads_be_byte n _ rest : Reader.readUInt8 (at_be _ (n :: rest)) = _). cbn [rbind]. by rewrite read_short.
Qed.

Lemma truncated_value message type bytes : truncated type bytes -> decodeRecordValue bytes type message = Throw DataReadError.
Proof.
  intros [|b Hb|entries n rest _ Hn|b Hb|b Hb]; unfold decodeRecordValue; cbn [Z.eqb Pos.eqb RecordPTR RecordSRV RecordTXT RecordAAAA RecordA].
  - unfold over, decodeQName. rewrite Nat.add_comm. done.
  - unfold byteLength in Hb. do 6 (destruct b as [|? b]; [reflexivity|]). cbn in Hb. lia.
  - rewrite decodeTxtRecord_truncated by lia. done.
  - unfold decodeAaaaRecord. by rewrite over_short.
  - unfold decodeARecord. by rewrite over_short.
Qed.

Lemma wire_value_decoded message type bytes v : wire_value message type bytes v -> decodeRecordValue bytes type message = Ok v.
Proof.
  intros [k img labels H|p w o k img labels Hp Hw Ho H|entries _|b text H|a b c d|t b Hn]; unfold decodeRecordValue;
    cbn [Z.eqb Pos.eqb RecordPTR RecordSRV RecordTXT RecordAAAA RecordA].
  - by rewrite (over_name message k img labels H).
  - by rewrite (decodeSrvRecord_wire message p w o k img labels).
  - by rewrite decodeTxtRecord_wire.
  - unfold decodeAaaaRecord. assert (Hl : length b = 16%nat) by (unfold ipv6BytesToString in H; by case_decide).
    rewrite (reads_over (Reader.readByteArray 16) b b) by (apply reads_be_bytes; unfold byteLength; lia). cbn [rbind]. by rewrite H.
  - unfold decodeARecord. by rewrite (reads_over (Reader.readByteArray 4) [a; b; c; d] [a; b; c; d]) by (by apply reads_be_bytes).
  - rewrite !not_elem_of_cons in Hn. destruct Hn as (N1 & N2 & N3 & N4 & N5 & _). unfold RecordPTR, RecordSRV, RecordTXT, RecordAAAA, RecordA in *.
    by rewrite (proj2 (Z.eqb_neq _ _) N1), (proj2 (Z.eqb_neq _ _) N2), (proj2 (Z.eqb_neq _ _) N3), (proj2 (Z.eqb_neq _ _) N4), (proj2 (Z.eqb_neq _ _) N5).
Qed.

Lemma decodeQuery_wire message img q : wire_query message img q -> reads_in message (decodeQuery message) img q.
Proof.
  intros [k nimg labels type class top H Ht Hc]. destruct (class_word_bits class top Hc) as (Hw & Etop & Ec & _). unfold decodeQuery.
  eapply reads_in_bind; [by eapply reads_in_name|]. eapply reads_in_bind; [by apply reads_in16|]. cbn zeta.
  rewrite <- (app_nil_r (u16 (class_word class top))). eapply reads_in_bind; [by apply reads_in16|]. rewrite Etop, Ec. apply reads_in_be, reads_be_ret.
Qed.

(** The fixed part of a record. *)
Lemma decodeRecord_frame message k img labels type class top seconds bytes o :
  name_bytes message k img labels -> in16 type -> 0 <= class < 0x8000 -> 0 <= seconds < 2 ^ 32 -> byteLength bytes < 2 ^ 16 ->
  match decodeRecordValue bytes type message with
  | Ok v => o = Some (mkRecord (join dot labels) (Some type) class (Some top) (seconds * 1000) (Some v))
  | Throw e => is_unexpected_data e = true /\ o = None
  end ->
  reads_in message (decodeRecord message) (img ++ u16 type ++ u16 (class_word class top) ++ u32 seconds ++ u16 (byteLength bytes) ++ bytes) o.
Proof.
  intros H Ht Hc Hs Hb Ho. destruct (class_word_bits class top Hc) as (Hw & Etop & Ec & _). unfold decodeRecord.
  eapply reads_in_bind; [by eapply reads_in_name|]. eapply reads_in_bind; [by apply reads_in16|].
  eapply reads_in_bind; [by apply reads_in16|]. rewrite Etop, Ec. cbn zeta.
  eapply reads_in_bind; [by apply reads_in_be, (reads_be_unsigned 4)|]. eapply reads_in_bind; [apply reads_in16; unfold in16, byteLength in *; lia|].
  rewrite <- (app_nil_r bytes) at 2. eapply reads_in_bind; [by apply reads_in_be, reads_be_bytes|].
  destruct (decodeRecordValue bytes type message) as [v|e]; [subst o; apply reads_in_be, reads_be_ret|].
  destruct Ho as [-> ->]. apply reads_in_be, reads_be_ret.
Qed.

Lemma decodeRecord_wire message img o : wire_record message img o -> reads_in message (decodeRecord message) img o.
Proof.
  intros [k nimg labels type class top seconds bytes v H Ht Hc Hs Hb Hv|k nimg labels type class top seconds bytes H Ht Hc Hs Hb Hv].
  - eapply decodeRecord_frame; [done..|]. by rewrite (wire_value_decoded _ _ _ _ Hv).
  - eapply decodeRecord_frame; [done..|]. by rewrite (truncated_value _ _ _ Hv).
Qed.

Lemma decode_queries_wire message imgs qs :
  Forall2 (wire_query message) imgs qs -> reads_in message (decode_queries (length imgs) message) (mjoin imgs) qs.
Proof.
  induction 1 as [|img q imgs qs Hq H IH]; [apply reads_in_be, reads_be_ret|]. cbn [length decode_queries]. rewrite join_cons.
  eapply reads_in_bind; [by apply decodeQuery_wire|]. by apply reads_in_map.
Qed.

Lemma decode_records_wire message imgs os :
  Forall2 (wire_record message) imgs os -> reads_in message (decode_records (length imgs) message) (mjoin imgs) (omap id os).
Proof.
  induction 1 as [|img o imgs os Ho H IH]; [apply reads_in_be, reads_be_ret|]. cbn [length decode_records]. rewrite join_cons.
  eapply reads_in_bind; [by apply decodeRecord_wire|]. pose proof (reads_in_map message _ (fun rs => match o with Some r => r :: rs | None => rs end) _ _ IH) as E.
  cbn [omap list_omap]. by destruct o.
Qed.

Lemma decode_wire message m : wire_message message m -> decode message = Some m.
Proof.
  intros [tid type qs answers authorities additional qi ai ui di H1 H2 H3 H4 H5 H6 Hq Ha Hu Hd Em].
  assert (H : decode_message message = Ok (mkMessage tid type qs (omap id answers) (omap id authorities) (omap id additional))); [|unfold decode; by rewrite H].
  unfold decode_message, over. change (Reader.new message false) with (at_be [] message).
  match goal with |- (let* (a, _) := ?m _ in _) = Ok ?v => assert (Hr : forall i, i = message -> reads_in message m i v) end.
  { intros i Ei. rewrite Em in Ei. subst i. rewrite <- !app_assoc.
    do 6 (eapply reads_in_bind; [by apply reads_in16|]). unfold count. rewrite !Nat2Z.id.
    eapply reads_in_bind; [by apply decode_queries_wire|]. eapply reads_in_bind; [by apply decode_records_wire|].
    eapply reads_in_bind; [by apply decode_records_wire|]. rewrite <- (app_nil_r (mjoin di)).
    eapply reads_in_bind; [by apply decode_records_wire|]. apply reads_in_be, reads_be_ret. }
  specialize (Hr message eq_refl [] []). rewrite app_nil_r in Hr. by rewrite Hr.
Qed.
