(* ===== verification/DnsRoundTrip.v ===== *)
(** * DNS messages that are encoded

    What the encoder writes is in wire format and is decoded to the message it was
    given, with default flags filled in, TTLs in whole seconds, TXT entries cut to
    255 bytes and addresses in canonical form; and the messages for which it does
    not hold. *)

From stdpp Require Import list.
From S2P Require Import Prelude DataIO Text BigEndian JsText Ip IpCorrect Dns DnsCorrect.

#[local] Abbreviation u16 := (view_bytes false 2).
#[local] Abbreviation u32 := (view_bytes false 4).

(** ** What can be sent, and what arrives *)

(** Labels that are not empty, of at most 63 bytes, in well-formed text without a
    byte order mark in front. *)
Definition label_ok (l : list Z) : Prop := l <> [] /\ Utf8.representable l = true /\ byteLength (Utf8.encode l) < 64.
Definition name_ok (n : list Z) : Prop := n = [] \/ Forall label_ok (split dot n).

Definition txt_received (entries : list TxtEntry) : list (list Z) :=
  match entries with [] => [[]] | _ => (fun e => take 255 (entry_bytes e)) <$> entries end.

Inductive value_sent : Z -> DnsValue -> DnsValue -> Prop :=
| SentPtr s : name_ok s -> value_sent RecordPTR (VText s) (VText s)
| SentSrv p w o s : in16 p -> in16 w -> in16 o -> name_ok s -> value_sent RecordSRV (VSrv (mkSrv p w o s)) (VSrv (mkSrv p w o s))
| SentTxt entries : value_sent RecordTXT (VTxt entries) (VTxt (EBytes <$> txt_received entries))
| SentAaaa ip text :
    isIPv6 ip = true -> ipv6BytesToString (ipv6ToBytes ip) = Ok text -> value_sent RecordAAAA (VText ip) (VText text)
| SentA ip text :
    isIPv4 ip = true -> ipv4BytesToString (ipv4ToBytes ip) = Ok text -> value_sent RecordA (VText ip) (VText text)
| SentOther type bytes :
    type ∉ [RecordPTR; RecordSRV; RecordTXT; RecordAAAA; RecordA] -> value_sent type (VRaw bytes) (VRaw bytes).

Inductive record_sent : DnsRecord -> DnsRecord -> Prop :=
| RecordSent n type class top duration v v' :
    name_ok n -> in16 type -> 0 <= class < 0x8000 -> 0 <= Seconds_of duration < 2 ^ 32 -> value_sent type v v' ->
    (forall bytes, encodeRecordValue v type = Ok bytes -> byteLength bytes < 2 ^ 16) ->
    record_sent (mkRecord n (Some type) class top duration (Some v))
      (mkRecord n (Some type) class (Some (default false top)) (Seconds (Seconds_of duration)) (Some v')).

(** A record, or the bytes it was encoded to before. *)
Inductive item_sent : RecordItem -> DnsRecord -> Prop :=
| ItemSent r r' : record_sent r r' -> item_sent (Item r) r'
| PreEncodedSent r bytes r' : record_sent r r' -> encodeRecord (Some r) = Ok bytes -> item_sent (PreEncoded bytes) r'.

Definition query_ok (q : DnsQuery) : Prop := name_ok (q_name q) /\ in16 (q_recordType q) /\ 0 <= q_recordClass q < 0x8000.
Definition query_received (q : DnsQuery) : DnsQuery :=
  mkQuery (q_name q) (q_recordType q) (q_recordClass q) (Some (default false (uniCastResponse q))).

(** ** Names *)

Definition label_image (l : list Z) : list Z := entry_image (Utf8.encode l).

Lemma label_encoded l : label_ok l -> 0 < byteLength (Utf8.encode l) < 64 /\ Utf8.decode (Utf8.encode l) = l.
Proof.
  intros (Hn & Hr & Hl). pose proof (Utf8.decode_encode l Hr) as E. split; [|done]. split; [|done].
  unfold byteLength. destruct (Utf8.encode l) as [|b bs]; [|cbn; lia]. by rewrite <- E in Hn.
Qed.

Lemma written_labels labels w bs :
  Forall label_ok labels -> written_be w bs -> written_be (foldl write_label w labels) (bs ++ mjoin (label_image <$> labels)).
Proof.
  intros H. revert w bs. induction H as [|l labels Hl _ IH]; intros w bs Hw; cbn [foldl fmap list_fmap]; [by rewrite app_nil_r|].
  rewrite join_cons, app_assoc. apply IH. destruct (label_encoded l Hl) as [Hb _]. unfold write_label.
  unfold label_image, entry_image. rewrite <- (Z.mod_small (byteLength (Utf8.encode l)) 256) at 2 by lia.
  change (?b :: ?l) with ([b] ++ l). rewrite app_assoc. auto with writer.
Qed.

Lemma name_bytes_labels message labels : Forall label_ok labels -> name_bytes message 0 (mjoin (label_image <$> labels) ++ [0]) labels.
Proof.
  induction 1 as [|l labels Hl _ IH]; [constructor|]. cbn [fmap list_fmap]. rewrite join_cons. destruct (label_encoded l Hl) as [Hb Ed].
  unfold label_image at 1, entry_image. rewrite <- app_assoc. cbn [app]. rewrite <- Ed at 3. by constructor.
Qed.

Lemma encodeQName_sent n : name_ok n ->
  exists img labels, encodeQName n = Ok img /\ join dot labels = n /\ forall message, name_bytes message 0 img labels.
Proof.
  intros [->|H].
  - exists [0], []. split_and!; [done|done|]. intros message. constructor.
  - destruct (decide (n = [])) as [->|Hn]; [exists [0], []; split_and!; [done..|]; intros; constructor|].
    exists (mjoin (label_image <$> split dot n) ++ [0]), (split dot n). split_and!; [|apply join_split|intros; by apply name_bytes_labels].
    unfold encodeQName. rewrite bool_decide_eq_false_2 by done. cbn [negb]. eapply run_be_written; [|reflexivity].
    apply written_be_UInt8. exact (written_labels (split dot n) (Writer.new false) [] H written_be_new).
Qed.

(** ** Values *)

Lemma written_entries entries w bs :
  written_be w bs -> written_be (foldl write_entry w entries) (bs ++ mjoin (entry_image <$> ((fun e => take 255 (entry_bytes e)) <$> entries))).
Proof.
  revert w bs. induction entries as [|e entries IH]; intros w bs Hw; cbn [foldl fmap list_fmap]; [by rewrite app_nil_r|].
  rewrite join_cons, app_assoc. apply IH. unfold write_entry.
  replace (if 255 <? byteLength (entry_bytes e) then take 255 (entry_bytes e) else entry_bytes e) with (take 255 (entry_bytes e)).
  2: { unfold byteLength. destruct (Z.ltb_spec 255 (Z.of_nat (length (entry_bytes e)))); [done|]. by rewrite take_ge by lia. }
  set (b := take 255 (entry_bytes e)). assert (Hb : 0 <= byteLength b < 256) by (unfold b, byteLength; rewrite length_take; lia).
  unfold entry_image. rewrite <- (Z.mod_small (byteLength b) 256) at 2 by lia.
  change (?x :: ?l) with ([x] ++ l). rewrite app_assoc. auto with writer.
Qed.

Lemma encodeTxtRecord_sent entries : encodeTxtRecord entries = Ok (mjoin (entry_image <$> txt_received entries)).
Proof.
  unfold encodeTxtRecord. destruct entries as [|e entries]; [done|]. rewrite bool_decide_eq_false_2 by done.
  eapply run_be_written; [exact (written_entries (e :: entries) (Writer.new false) [] written_be_new)|reflexivity].
Qed.

Lemma txt_received_short entries : Forall (fun e => byteLength e < 256) (txt_received entries).
Proof.
  destruct entries as [|e es]; [by repeat constructor|]. cbn [txt_received]. apply Forall_fmap, Forall_forall. intros x _. unfold compose, byteLength.
  rewrite length_take. lia.
Qed.

Lemma encodeRecordValue_sent type v v' : value_sent type v v' ->
  exists bytes, encodeRecordValue v type = Ok bytes /\ forall message, wire_value message type bytes v'.
Proof.
  intros [s Hs|p w o s Hp Hw Ho Hs|entries|ip text Hi E|ip text Hi E|t b Hn]; unfold encodeRecordValue;
    cbn [Z.eqb Pos.eqb RecordPTR RecordSRV RecordTXT RecordAAAA RecordA].
  - destruct (encodeQName_sent s Hs) as (img & labels & E & Ej & Hb). exists img. split; [done|]. intros message. rewrite <- Ej. by econstructor.
  - destruct (encodeQName_sent s Hs) as (img & labels & E & Ej & Hb). exists (u16 p ++ u16 w ++ u16 o ++ img). split.
    + unfold encodeSrvRecord. cbn [target priority weight port]. rewrite E. cbn [rbind]. eapply run_be_written; [auto with writer|]. cbn [app]. by rewrite <- !app_assoc.
    + intros message. rewrite <- Ej. by econstructor.
  - exists (mjoin (entry_image <$> txt_received entries)). split; [apply encodeTxtRecord_sent|]. intros message. constructor. apply txt_received_short.
  - exists (ipv6ToBytes ip). unfold encodeAaaaRecord. rewrite Hi. split; [done|]. intros message. by constructor.
  - exists (ipv4ToBytes ip). unfold encodeARecord. rewrite Hi. split; [done|]. intros message.
    destruct (ipv4ToBytes_ok ip) as [_ Hl]. destruct (ipv4ToBytes ip) as [|a [|b [|c [|d [|]]]]]; try done. injection E as <-. constructor.
  - exists b. pose proof Hn as Hn'. rewrite !not_elem_of_cons in Hn. destruct Hn as (N1 & N2 & N3 & N4 & N5 & _).
    unfold RecordPTR, RecordSRV, RecordTXT, RecordAAAA, RecordA in *.
    rewrite (proj2 (Z.eqb_neq _ _) N1), (proj2 (Z.eqb_neq _ _) N2), (proj2 (Z.eqb_neq _ _) N3), (proj2 (Z.eqb_neq _ _) N4), (proj2 (Z.eqb_neq _ _) N5).
    split; [done|]. intros message. by constructor.
Qed.

(** ** Records and queries *)

Lemma class_bits_word c top : 0 <= c < 0x8000 -> class_bits c top = class_word c (default false top).
Proof. intros Hc. destruct (class_word_bits c (default false top) Hc) as (_ & _ & _ & <-). by destruct top. Qed.

Lemma encodeRecord_sent r r' : record_sent r r' ->
  exists img, encodeRecord (Some r) = Ok img /\ forall message, wire_record message img (Some r').
Proof.
  intros [n type class top duration v v' Hn Ht Hc Hd Hv Hlen]. destruct (encodeQName_sent n Hn) as (nimg & labels & En & Ej & Hb).
  destruct (encodeRecordValue_sent type v v' Hv) as (bytes & Ev & Hw).
  exists (nimg ++ u16 type ++ u16 (class_word class (default false top)) ++ u32 (Seconds_of duration) ++ u16 (byteLength bytes) ++ bytes). split.
  - unfold encodeRecord. cbn [recordType value name recordClass flushCache ttl]. rewrite En, Ev. cbn [rbind]. rewrite class_bits_word by done.
    eapply run_be_written; [auto 10 with writer|]. cbn [app]. by rewrite <- !app_assoc.
  - intros message. rewrite <- Ej. econstructor; [apply Hb|done..|by apply Hlen|apply Hw].
Qed.

Lemma write_records_sent items rs w bs :
  Forall2 item_sent items rs -> written_be w bs ->
  exists imgs w', write_records items w = Ok w' /\ written_be w' (bs ++ mjoin imgs) /\ length imgs = length items /\
    forall message, Forall2 (wire_record message) imgs (Some <$> rs).
Proof.
  intros H. revert w bs. induction H as [|i r items rs Hi _ IH]; intros w bs Hw.
  { exists [], w. cbn. rewrite app_nil_r. split_and!; [done..|]. intros. constructor. }
  assert (Hone : exists img, (match i with PreEncoded bytes => Ok bytes | Item r => encodeRecord (Some r) | NoRecord => encodeRecord None end) = Ok img /\
    forall message, wire_record message img (Some r)).
  { destruct Hi as [r0 r Hr|r0 bytes r Hr E]; [by apply encodeRecord_sent|]. destruct (encodeRecord_sent _ _ Hr) as (img & E' & Hi).
    exists bytes. split; [done|]. rewrite E in E'. by injection E' as ->. }
  destruct Hone as (img & E & Himg). destruct (IH (Writer.writeByteArray img w) (bs ++ img)) as (imgs & w' & Ew & Hw' & Hl & Hall); [auto with writer|].
  exists (img :: imgs), w'. cbn [write_records]. rewrite E. cbn [rbind]. split_and!; [done|by rewrite join_cons, app_assoc|cbn; lia|].
  intros message. constructor; [apply Himg|apply Hall].
Qed.

Lemma write_queries_sent qs w bs :
  Forall query_ok qs -> written_be w bs ->
  exists imgs w', write_queries qs w = Ok w' /\ written_be w' (bs ++ mjoin imgs) /\ length imgs = length qs /\
    forall message, Forall2 (wire_query message) imgs (query_received <$> qs).
Proof.
  intros H. revert w bs. induction H as [|q qs (Hn & Ht & Hc) _ IH]; intros w bs Hw.
  { exists [], w. cbn. rewrite app_nil_r. split_and!; [done..|]. intros. constructor. }
  destruct (encodeQName_sent _ Hn) as (nimg & labels & En & Ej & Hb). cbn [write_queries]. rewrite En. cbn [rbind]. rewrite class_bits_word by done.
  set (img := nimg ++ u16 (q_recordType q) ++ u16 (class_word (q_recordClass q) (default false (uniCastResponse q)))).
  edestruct (IH) as (imgs & w' & Ew & Hw' & Hl & Hall); [apply written_be_UInt16, written_be_UInt16, written_be_ByteArray, Hw|].
  exists (img :: imgs), w'. split_and!; [exact Ew| |cbn; lia|].
  - rewrite join_cons. unfold img. by rewrite <- !app_assoc in *.
  - intros message. cbn [fmap list_fmap]. constructor; [|apply Hall]. unfold query_received, img. rewrite <- Ej. by econstructor.
Qed.

Lemma omap_some {A} (l : list A) : omap id (Some <$> l) = l.
Proof. induction l as [|x l IH]; [done|]. cbn. by rewrite IH. Qed.


(** A query for _m._udp.local with a known answer and two additional records. *)
Definition service : list Z := [95; 109; 46; 95; 117; 100; 112; 46; 108; 111; 99; 97; 108].
Definition instance : list Z := [65; 49; 46] ++ service.

Definition sample_parts : MessageParts :=
  mkParts (Some TypeQuery) None [mkQuery service RecordPTR ClassIN None] [Item (PtrRecord service instance None None)] []
    [Item (SrvRecord instance (mkSrv 0 0 5540 service) (Some 120500) (Some true)); Item (TxtRecord instance [] None None)].

Lemma service_ok : name_ok service /\ name_ok instance.
Proof.
  assert (H : forall n, forallb (fun l => negb (bool_decide (l = [])) && Utf8.representable l && (byteLength (Utf8.encode l) <? 64)) (split dot n) = true -> name_ok n).
  { intros n H. right. apply Forall_forall. intros l Hl. rewrite forallb_forall in H. specialize (H l (proj1 (list_elem_of_In _ _) Hl)).
    apply andb_prop in H as [H H3]. apply andb_prop in H as [H1 H2]. apply Z.ltb_lt in H3. apply negb_true_iff, bool_decide_eq_false in H1. by split_and!. }
  split; apply H; vm_compute; reflexivity.
Qed.


(** ** Compressed messages *)

(** C20: Every message in the wire format of RFC 1035 (labels of 1 to 63 bytes,
    names compressed by pointers to names behind the header, the root name
    included) is decoded to what it says, each name as its labels with dots
    between them, after a pointer to the root with a dot at the end; records whose
    value is truncated are left out and cost only themselves. *)
Theorem dns_decode_wire message m : wire_message message m -> decode message = Some m.
Proof. apply decode_wire. Qed.

(** A query for "a", its name used again by an answer and by the value of another,
    and an address record of two bytes. *)
Definition compressed : list Z :=
  [0; 7; 0; 0; 0; 1; 0; 2; 0; 0; 0; 1] ++ [1; 97; 0; 0; 12; 0; 1] ++
  ([0xc0; 12; 0; 1; 0x80; 1; 0; 0; 0; 9; 0; 4; 10; 0; 0; 1] ++ [0; 0; 12; 0; 1; 0; 0; 0; 9; 0; 4; 1; 98; 0xc0; 12]) ++
  [0; 0; 1; 0; 1; 0; 0; 0; 9; 0; 2; 10; 0].

Lemma dns_decode_wire_witness :
  decode compressed = Some (mkMessage 7 TypeQuery [mkQuery [97] RecordPTR ClassIN (Some false)]
    [mkRecord [97] (Some RecordA) ClassIN (Some true) 9000 (Some (VText [49; 48; 46; 48; 46; 48; 46; 49]));
     mkRecord [] (Some RecordPTR) ClassIN (Some false) 9000 (Some (VText [98; 46; 97]))] [] []).
Proof.
  assert (H16 : forall v, (0 <=? v) && (v <? 65536) = true -> in16 v) by (unfold in16; intros; lia).
  assert (Hclass : 0 <= ClassIN < 0x8000) by (unfold ClassIN; lia).
  assert (Ha : name_bytes compressed 0 [1; 97; 0] [[97]]) by (exact (NameLabel _ 0 [97] [0] [] ltac:(unfold byteLength; cbn; lia) (NameEnd _))).
  assert (Hp : name_bytes compressed 1 [0xc0; 12] [[97]]).
  { exact (NamePointer compressed 0 0xc0 12 (take 12 compressed) [1; 97; 0] (drop 15 compressed) [[97]] ltac:(lia) ltac:(unfold is_byte; lia) eq_refl eq_refl ltac:(vm_compute; congruence) Ha). }
  assert (Hb : name_bytes compressed 1 [1; 98; 0xc0; 12] [[98]; [97]]) by (exact (NameLabel _ 1 [98] _ _ ltac:(unfold byteLength; cbn; lia) Hp)).
  apply (dns_decode_wire compressed). apply (WireMessage compressed 7 TypeQuery _
    [Some (mkRecord [97] (Some RecordA) ClassIN (Some true) 9000 (Some (VText [49; 48; 46; 48; 46; 48; 46; 49])));
     Some (mkRecord [] (Some RecordPTR) ClassIN (Some false) 9000 (Some (VText [98; 46; 97])))] [] [None]
    [[1; 97; 0; 0; 12; 0; 1]]
    [[0xc0; 12; 0; 1; 0x80; 1; 0; 0; 0; 9; 0; 4; 10; 0; 0; 1]; [0; 0; 12; 0; 1; 0; 0; 0; 9; 0; 4; 1; 98; 0xc0; 12]] []
    [[0; 0; 1; 0; 1; 0; 0; 0; 9; 0; 2; 10; 0]]); try (by apply H16).
  - constructor; [|constructor]. apply (WireQuery compressed 0 [1; 97; 0] [[97]] RecordPTR ClassIN false Ha); [by apply H16|exact Hclass].
  - constructor; [|constructor; [|constructor]].
    + apply (WireRecord compressed 1 _ _ RecordA ClassIN true 9 [10; 0; 0; 1] _ Hp); [by apply H16|exact Hclass|lia|vm_compute; congruence|apply WireA].
    + apply (WireRecord compressed 0 [0] [] RecordPTR ClassIN false 9 [1; 98; 0xc0; 12] _ (NameEnd _)); [by apply H16|exact Hclass|lia|vm_compute; congruence|exact (WirePtr _ _ _ _ Hb)].
  - constructor.
  - constructor; [|constructor]. apply (WireTruncated compressed 0 [0] [] RecordA ClassIN false 9 [10; 0] (NameEnd _)); [by apply H16|exact Hclass|lia|vm_compute; congruence|].
    apply TruncatedA. vm_compute. congruence.
  - reflexivity.
Defined.

(** ** Messages that are lost *)

(** Records the encoder skips: no object, an empty one, or one without a type or a
    value. *)
Inductive skipped : RecordItem -> Prop :=
| SkippedNone : skipped NoRecord
| SkippedType r : recordType r = None -> skipped (Item r)
| SkippedValue r : value r = None -> skipped (Item r).

Lemma skipped_bytes item : skipped item ->
  (match item with PreEncoded bytes => Ok bytes | Item r => encodeRecord (Some r) | NoRecord => encodeRecord None end) = Ok [].
Proof. intros [|r E|r E]; unfold encodeRecord; [done|by rewrite E|rewrite E; by destruct (recordType r)]. Qed.

Lemma write_records_app a b w : write_records (a ++ b) w = let* w := write_records a w in write_records b w.
Proof.
  revert w. induction a as [|i a IH]; intros w; [done|]. cbn [app write_records].
  destruct (match i with PreEncoded bytes => Ok bytes | Item r => encodeRecord (Some r) | NoRecord => encodeRecord None end); cbn [rbind]; [apply IH|done].
Qed.

Lemma decode_records_short message imgs os pre :
  Forall2 (wire_record message) imgs os -> message = pre ++ mjoin imgs ->
  decode_records (length imgs + 1) message (at_be pre (mjoin imgs)) = Throw DataReadError.
Proof.
  intros H. revert pre. induction H as [|img o imgs os Ho _ IH]; intros pre E.
  - cbn [length Nat.add decode_records mjoin list_join]. unfold Reader.bind at 1, decodeRecord. unfold Reader.bind at 1, decodeQName.
    rewrite Nat.add_comm. cbn [Nat.add decodeQName_at]. rewrite bool_decide_eq_false_2 by apply not_elem_of_nil. cbn zeta. rewrite size_be. cbn [length read_labels].
    unfold Reader.bind at 1. unfold Reader.readUInt8, Reader.readUnsigned, Reader.getOffsetAndAdvance, at_be. cbn [Reader.buffer Reader.offset].
    destruct (Z.ltb_spec (Z.of_nat 1) 0); [done|]. unfold byteLength. rewrite length_app. cbn [length].
    by destruct (Z.ltb_spec (Z.of_nat (length pre + 0)) (Z.of_nat (length pre) + Z.of_nat 1)); [|lia].
  - cbn [length Nat.add decode_records]. rewrite join_cons in *. unfold Reader.bind at 1. rewrite (decodeRecord_wire message img o Ho pre (mjoin imgs) E). cbn [rbind].
    unfold Reader.bind. rewrite IH by (by rewrite <- app_assoc). done.
Qed.

(** C35: A record that the encoder skips is still counted in the header: with such
    a record behind the others the whole message is unreadable. *)
Theorem skipped_record_unreadable type id items answers item :
  in16 type -> in16 id -> in16 (count items + 1) -> Forall2 item_sent items answers -> skipped item ->
  exists bytes, encode (mkParts (Some type) (Some id) [] (items ++ [item]) [] []) = Ok bytes /\ decode bytes = None.
Proof.
  intros Ht Hid Hc Hi Hs. unfold encode. cbn [p_messageType p_queries p_answers p_authorities p_additionalRecords p_transactionId length default].
  cbn [Nat.ltb Nat.leb andb throw_if rbind write_queries app]. rewrite app_nil_r, write_records_app.
  match goal with |- context [write_records items ?w] => set (w0 := w) end.
  assert (Hw0 : written_be w0 (u16 id ++ u16 type ++ u16 0 ++ u16 (count items + 1) ++ u16 0 ++ u16 0)).
  { unfold w0, count. rewrite length_app, Nat2Z.inj_add. rewrite !app_assoc. repeat apply written_be_UInt16. change (u16 id) with ([] ++ u16 id).
    apply written_be_UInt16, written_be_new. }
  destruct (write_records_sent _ _ w0 _ Hi Hw0) as (imgs & w1 & -> & Hw1 & Hl & Himgs). cbn [rbind write_records]. rewrite skipped_bytes by done. cbn [rbind].
  apply (written_be_ByteArray []) in Hw1. destruct Hw1 as (_ & Hwf & Hc1). destruct (Writer.toByteArray_contents _ Hwf) as (w3 & -> & _). cbn [rbind].
  eexists. split; [reflexivity|]. rewrite Hc1, app_nil_r. set (hdr := u16 id ++ u16 type ++ u16 0 ++ u16 (count items + 1) ++ u16 0 ++ u16 0).
  specialize (Himgs (hdr ++ mjoin imgs)). pose proof (decode_records_short _ _ _ hdr Himgs eq_refl) as Hshort.
  set (message := hdr ++ mjoin imgs) in *. unfold decode, decode_message, over. change (Reader.new message false) with (at_be [] message).
  replace (at_be [] message) with (at_be [] (u16 id ++ u16 type ++ u16 0 ++ u16 (count items + 1) ++ u16 0 ++ u16 0 ++ mjoin imgs))
    by (unfold message, hdr; by rewrite <- !app_assoc).
  assert (Hu : forall v pre post, in16 v -> Reader.readUInt16 (at_be pre (u16 v ++ post)) = Ok (v, at_be (pre ++ u16 v) post)) by (intros; by apply (reads_be_unsigned 2)).
  unfold Reader.bind. rewrite Hu by done. cbn [rbind]. rewrite Hu by done. cbn [rbind]. rewrite (Hu 0) by done. cbn [rbind]. rewrite Hu by done. cbn [rbind].
  rewrite (Hu 0) by done. cbn [rbind]. rewrite (Hu 0) by done. change (Z.to_nat 0) with 0%nat. cbn [rbind decode_queries]. unfold Reader.ret at 1. cbn [rbind].
  replace (Z.to_nat (count items + 1)) with (length imgs + 1)%nat by (unfold count; lia). match goal with |- context [at_be ?p (mjoin imgs)] => replace p with hdr by (unfold hdr; by rewrite <- !app_assoc) end.
  by rewrite Hshort.
Qed.

Lemma skipped_record_unreadable_witness :
  exists bytes, encode (mkParts (Some TypeResponse) (Some 0) [] [NoRecord] [] []) = Ok bytes /\ decode bytes = None.
Proof.
  refine (skipped_record_unreadable TypeResponse 0 [] [] NoRecord _ _ _ _ SkippedNone);
    [unfold in16; vm_compute; split; congruence..|constructor].
Defined.

Definition ask (n : list Z) : MessageParts := mkParts (Some TypeQuery) None [mkQuery n RecordPTR ClassIN None] [] [] [].

(** The length byte of a label of 64 bytes is read as a pointer. *)
Example long_label_lost : exists bytes, encode (ask (repeat 97 64)) = Ok bytes /\ decode bytes = None.
Proof. eexists. split; [vm_compute; reflexivity|vm_compute; reflexivity]. Qed.

(** The empty label of a trailing dot ends the name: the type and class are read
    from one byte too early. *)
Example trailing_dot_shifts : exists bytes, encode (ask [97; 46]) = Ok bytes /\
  decode bytes = Some (mkMessage 0 TypeQuery [mkQuery [97] 0 0x0c00 (Some false)] [] [] []).
Proof. eexists. split; [vm_compute; reflexivity|vm_compute; reflexivity]. Qed.

(** A name whose last labels are a pointer to the root gains a trailing dot. *)
Example pointer_to_root : decode ([0; 0; 0; 0; 0; 1; 0; 0; 0; 0; 0; 0] ++ [1; 97; 0xc0; 1; 0; 12; 0; 1]) =
  Some (mkMessage 0 TypeQuery [mkQuery [97; 46] RecordPTR ClassIN (Some false)] [] [] []).
Proof. vm_compute. reflexivity. Qed.
