(* ===== verification/Cmac.v ===== *)
(** * AES-CMAC

    Models general/src/crypto/aes/Cmac.ts on top of the block cipher, and the
    algorithm of RFC 4493 on 128 bit numbers, which it is shown to compute. *)

From stdpp Require Import list.
From S2P Require Import Prelude DataIO Aes AesSpec CcmSpec CcmCorrect.
Import Fips.

(** ** The code *)

Definition BLOCK_SIZE : nat := 16.
Definition RB : Z := 0x87.
Definition ZERO_BLOCK : list Z := repeat 0 16.

(** [Uint8Array] elements assigned by index, and [set]. *)
Definition store (l : list Z) (i : nat) (v : Z) : list Z := <[i := v mod 256]> l.
Definition set_from (dst src : list Z) : list Z := src ++ drop (length src) dst.

Definition aesEcbEncryptBlock (key block : list Z) : list Z :=
  mjoin (map (view_bytes false 4) (Aes.encrypt key (fromByteArray block 4))).

(** The loop runs from the last byte to the first. *)
Fixpoint shift_loop (input : list Z) : list Z * Z :=
  match input with
  | [] => ([], 0)
  | b :: input =>
      let '(out, carry) := shift_loop input in
      (js_or (js_and (js_shl b 1) 0xff) carry mod 256 :: out, js_shr (js_and b 0x80) 7)
  end.

Definition leftShift1 (input : list Z) : list Z := fst (shift_loop input).

Definition xorInto (target source : list Z) (offset : nat) : list Z :=
  foldl (fun t i => store t i (js_xor (nth i t 0) (nth (offset + i) source 0))) target (seq 0 BLOCK_SIZE).

Definition reduce (shifted l : list Z) : list Z :=
  if negb (js_and (nth 0 l 0) 0x80 =? 0) then store shifted (BLOCK_SIZE - 1) (js_xor (nth (BLOCK_SIZE - 1) shifted 0) RB)
  else shifted.

Definition generateSubkeys (key : list Z) : list Z * list Z :=
  let l := aesEcbEncryptBlock key ZERO_BLOCK in
  let k1 := reduce (leftShift1 l) l in
  let k2 := reduce (leftShift1 k1) k1 in
  (k1, k2).

Definition cmac (key message : list Z) : result (list Z) :=
  if negb (length key =? 16)%nat then Throw CryptoInputError
  else
    let '(k1, k2) := generateSubkeys key in
    let numBlocks := Nat.max 1 ((length message + 15) / BLOCK_SIZE) in
    let lastBlockComplete := ((0 <? length message) && (length message mod BLOCK_SIZE =? 0))%nat in
    let lastBlockOffset := ((numBlocks - 1) * BLOCK_SIZE)%nat in
    let lastBlock := repeat 0 BLOCK_SIZE in
    let lastBlock :=
      if lastBlockComplete then
        xorInto (set_from lastBlock (take BLOCK_SIZE (drop lastBlockOffset message))) k1 0
      else
        let remaining := (length message - lastBlockOffset)%nat in
        xorInto (store (set_from lastBlock (take remaining (drop lastBlockOffset message))) remaining 0x80) k2 0 in
    let x := foldl (fun x i => set_from x (aesEcbEncryptBlock key (xorInto x message (i * BLOCK_SIZE))))
      (repeat 0 BLOCK_SIZE) (seq 0 (numBlocks - 1)) in
    Ok (aesEcbEncryptBlock key (xorInto x lastBlock 0)).

(** ** RFC 4493 *)

Module Rfc4493.

Section Cmac.

Context (E : list Z -> list Z).

(** Doubling in GF(2^128). *)
Definition dbl (x : Z) : Z := Z.lxor (2 * x mod 2 ^ 128) (if Z.testbit x 127 then 0x87 else 0).

Definition double (b : list Z) : list Z := view_bytes false 16 (dbl (be_value b)).

Definition K1 : list Z := double (E (repeat 0 16)).
Definition K2 : list Z := double K1.

Definition padding (b : list Z) : list Z := b ++ [0x80] ++ repeat 0 (15 - length b).

(** The last block, and the chain of the blocks before it. *)
Definition last_block (b : list Z) : list Z :=
  if (length b =? 16)%nat then xor_bytes b K1 else xor_bytes (padding b) K2.

Fixpoint chain (fuel : nat) (x message : list Z) : list Z :=
  match fuel with
  | O => []
  | S fuel =>
      if (length message <=? 16)%nat then E (xor_bytes x (last_block message))
      else chain fuel (E (xor_bytes x (take 16 message))) (drop 16 message)
  end.

Definition AES_CMAC (message : list Z) : list Z := chain (S (length message)) (repeat 0 16) message.

End Cmac.

End Rfc4493.

(** ** Bytes *)

Lemma shift_byte b c : is_byte b -> 0 <= c <= 1 -> js_or (js_and (js_shl b 1) 0xff) c mod 256 = 2 * b mod 256 + c.
Proof.
  intros Hb Hc. assert (Hall : forallb_below 256 (fun b => forallb_below 2 (fun c =>
    js_or (js_and (js_shl b 1) 0xff) c mod 256 =? 2 * b mod 256 + c)) = true) by (vm_compute; reflexivity).
  unfold is_byte in Hb. pose proof (forallb_below_spec _ _ (forallb_below_spec _ _ Hall b ltac:(lia)) c ltac:(lia)) as H. cbn beta in H. lia.
Qed.

Lemma carry_byte b : is_byte b -> js_shr (js_and b 0x80) 7 = b / 128.
Proof.
  intros Hb. assert (Hall : forallb_below 256 (fun b => js_shr (js_and b 0x80) 7 =? b / 128) = true) by (vm_compute; reflexivity).
  unfold is_byte in Hb. pose proof (forallb_below_spec _ _ Hall b ltac:(lia)) as H. cbn beta in H. lia.
Qed.

Lemma top_bit b : is_byte b -> negb (js_and b 0x80 =? 0) = (128 <=? b).
Proof.
  intros Hb. assert (Hall : forallb_below 256 (fun b => Bool.eqb (negb (js_and b 0x80 =? 0)) (128 <=? b)) = true) by (vm_compute; reflexivity).
  unfold is_byte in Hb. apply Bool.eqb_prop, (forallb_below_spec _ _ Hall b). lia.
Qed.

Lemma shift_loop_value l :
  bytes_ok l -> let '(out, carry) := shift_loop l in
  bytes_ok out /\ length out = length l /\ 0 <= carry <= 1 /\
  2 * be_value l = carry * 256 ^ Z.of_nat (length l) + be_value out.
Proof.
  induction l as [|b l IH]; intros Hok; cbn [shift_loop]; [done|]. apply Forall_cons in Hok as [Hb Hok]. specialize (IH Hok).
  destruct (shift_loop l) as [out carry]. destruct IH as (Ho & Hl & Hc & Hv). rewrite shift_byte, carry_byte by done.
  assert (Hm : 2 * b = 256 * (b / 128) + 2 * b mod 256).
  { replace (b / 128) with (2 * b / 256); [apply Z.div_mod; lia|]. replace 256 with (2 * 128) by done. rewrite Z.div_mul_cancel_l by lia. done. }
  assert (Heven : 2 * b mod 256 <= 254).
  { pose proof (Z.mod_pos_bound (2 * b) 256 ltac:(lia)). assert (2 * b mod 256 <> 255) by (intros E; lia). lia. }
  pose proof (Z.mod_pos_bound (2 * b) 256 ltac:(lia)). unfold is_byte in *. split_and!.
  - constructor; [unfold is_byte; lia|done].
  - cbn. lia.
  - apply Z.div_pos; lia.
  - enough (b / 128 < 2) by lia. apply Z.div_lt_upper_bound; lia.
  - rewrite !be_value_cons, Hl. cbn [length]. rewrite Nat2Z.inj_succ, Z.pow_succ_r by lia. nia.
Qed.

(** ** The subkeys *)

Lemma lxor_low p b r : 0 <= b < 256 -> 0 <= r < 256 -> Z.lxor (p * 256 + b) r = p * 256 + Z.lxor b r.
Proof.
  intros Hb Hr. assert (Hdis : forall c, 0 <= c < 256 -> Z.land (p * 256) c = 0).
  { intros c Hc. apply Z.bits_inj'. intros i Hi. rewrite Z.land_spec, Z.bits_0. change 256 with (2 ^ 8).
    destruct (Z.lt_ge_cases i 8); [by rewrite Z.mul_pow2_bits_low|]. rewrite (testbit_above c 8 i); [apply andb_false_r|change (2 ^ 8) with 256; lia|lia]. }
  assert (Hx : 0 <= Z.lxor b r < 256).
  { split; [by apply Z.lxor_nonneg; lia|]. apply Z.log2_lt_cancel. change (Z.log2 256) with 8.
    eapply Z.le_lt_trans; [apply Z.log2_lxor; lia|]. apply Z.max_lub_lt; (destruct (decide (b = 0)), (decide (r = 0)); subst; try done; apply Z.log2_lt_pow2; lia). }
  rewrite !Z.add_nocarry_lxor by auto. by rewrite Z.lxor_assoc.
Qed.

Lemma view_be n v bs : bytes_ok bs -> length bs = n -> be_value bs = v -> view_bytes false n v = bs.
Proof.
  intros Hok Hl Hv. pose proof (view_bytes_value false bs Hok) as H. rewrite Hl in H. rewrite <- H. f_equal.
  unfold view_value. by rewrite <- be_value_rev.
Qed.

#[local] Transparent js_xor.

Lemma js_xor_byte a b : is_byte a -> is_byte b -> js_xor a b = Z.lxor a b.
Proof. unfold is_byte. intros Ha Hb. unfold js_xor. by rewrite !int32_id by lia. Qed.

Lemma reduce_double l : is_block l -> reduce (leftShift1 l) l = Rfc4493.double l.
Proof.
  intros [Hl Hok]. pose proof (shift_loop_value l Hok) as Hs. unfold leftShift1. destruct (shift_loop l) as [out carry]. cbn [fst].
  destruct Hs as (Ho & Hlo & Hc & Hv). rewrite Hl in *. change (256 ^ Z.of_nat 16) with (2 ^ 128) in Hv.
  pose proof (be_value_range out Ho) as Hr. rewrite Hlo in Hr. change (256 ^ Z.of_nat 16) with (2 ^ 128) in Hr.
  assert (Hmod : 2 * be_value l mod 2 ^ 128 = be_value out).
  { rewrite Hv, Z.add_comm, Z.mod_add by lia. by apply Z.mod_small. }
  pose proof (be_value_range l Hok) as Hrl. rewrite Hl in Hrl. change (256 ^ Z.of_nat 16) with (2 ^ 128) in Hrl.
  assert (Htop : Z.testbit (be_value l) 127 = (128 <=? nth 0 l 0)).
  { destruct l as [|b l]; [done|]. cbn [nth]. rewrite be_value_cons in *. injection Hl as Hl. rewrite Hl in *.
    apply Forall_cons in Hok as [Hb Hok]. pose proof (be_value_range l Hok) as Hr'. rewrite Hl in Hr'.
    change (256 ^ Z.of_nat 15) with (2 ^ 120) in *. rewrite Z.testbit_eqb by lia. unfold is_byte in Hb.
    assert (Hdiv : (b * 2 ^ 120 + be_value l) / 2 ^ 127 = b / 128).
    { replace (2 ^ 127) with (2 ^ 120 * 128) by done. rewrite <- Z.div_div by lia. by rewrite Z.div_add_l, (Z.div_small (be_value l)), Z.add_0_r by lia. }
    rewrite Hdiv. destruct (Z.leb_spec 128 b).
    - replace (b / 128) with 1; [done|]. apply (Z.div_unique b 128 1 (b - 128)); lia.
    - rewrite Z.div_small by lia. done. }
  unfold reduce, Rfc4493.double, Rfc4493.dbl. rewrite Hmod, Htop.
  assert (Hb0 : is_byte (nth 0 l 0)) by (destruct l; [done|by apply Forall_cons in Hok as [? _]]).
  rewrite top_bit by done. destruct (128 <=? nth 0 l 0).
  - symmetry. destruct (list_lookup_lookup_total_lt out 15 ltac:(lia)). unfold store, BLOCK_SIZE. cbn [Nat.sub].
    destruct out as [|z out'] using rev_ind; [done|]. clear IHout'. rewrite length_app in Hlo. cbn in Hlo.
    assert (Hl15 : length out' = 15%nat) by lia. apply Forall_app in Ho as [Ho Hz]. apply Forall_cons in Hz as [Hz _].
    rewrite app_nth2, Hl15, Nat.sub_diag by lia. cbn [nth]. rewrite insert_app_r_alt, Hl15, Nat.sub_diag by lia. cbn [insert list_insert].
    rewrite js_xor_byte by (done || by unfold is_byte, RB).
    rewrite (Z.mod_small (Z.lxor z RB)) by (apply lxor_byte; [done|by unfold is_byte, RB]).
    apply view_be; [apply Forall_app; split; [done|]; constructor; [apply lxor_byte; [done|by unfold is_byte, RB]|constructor]|rewrite length_app; cbn; lia|].
    rewrite !be_value_app. cbn [length]. change (256 ^ Z.of_nat 1) with 256. unfold be_value at 2 4. cbn [foldl].
    rewrite lxor_low; [|exact Hz|unfold RB; lia]. f_equal.
  - rewrite Z.lxor_0_r. symmetry. by apply view_be.
Qed.

Lemma double_block b : is_block (Rfc4493.double b).
Proof. split; [apply view_bytes_length|apply view_bytes_ok]. Qed.

(** ** Blocks *)

Lemma xorInto_bytes target source offset :
  is_block target -> bytes_ok source ->
  xorInto target source offset = map (fun i => Z.lxor (nth i target 0) (nth (offset + i) source 0)) (seq 0 16).
Proof.
  intros [Hl Hok] Hs. unfold xorInto. set (f := fun t i => _).
  assert (Hn : forall i, is_byte (nth i source 0)).
  { intros i. destruct (nth_in_or_default i source 0) as [Hi| ->]; [|by unfold is_byte]. exact (proj1 (List.Forall_forall _ _) Hs _ Hi). }
  assert (Hgen : forall n, (n <= 16)%nat -> foldl f target (seq 0 n) =
    map (fun i => Z.lxor (nth i target 0) (nth (offset + i) source 0)) (seq 0 n) ++ drop n target).
  { induction n as [|n IH]; intros Hle; [done|]. rewrite seq_S, foldl_app, IH, map_app by lia. cbn [foldl map Nat.add]. unfold f at 1, store.
    destruct (lookup_lt_is_Some_2 target n ltac:(lia)) as [b Eb]. rewrite (drop_S _ _ _ Eb).
    assert (Hlen : length (map (fun i => Z.lxor (nth i target 0) (nth (offset + i) source 0)) (seq 0 n)) = n) by (by rewrite length_map, length_seq).
    rewrite insert_app_r_alt, Hlen, Nat.sub_diag by lia. cbn [insert list_insert]. rewrite app_nth2, Hlen, Nat.sub_diag by lia. cbn [nth].
    assert (Hb : is_byte b) by (exact (proj1 (Forall_lookup _ _) Hok _ _ Eb)).
    rewrite js_xor_byte, Z.mod_small by (done || by apply lxor_byte). rewrite <- app_assoc. cbn [app]. by rewrite (nth_lookup_Some target n 0 b Eb). }
  unfold BLOCK_SIZE. rewrite Hgen, drop_ge, app_nil_r by lia. done.
Qed.

Lemma xor_bytes_map a b : length a = 16%nat -> length b = 16%nat ->
  xor_bytes a b = map (fun i => Z.lxor (nth i a 0) (nth i b 0)) (seq 0 16).
Proof.
  intros Ha Hb. do 17 (destruct a as [|? a]; try done). do 17 (destruct b as [|? b]; try done).
Qed.

Lemma xorInto_block target source : is_block target -> is_block source -> xorInto target source 0 = xor_bytes target source.
Proof. intros Ht [Hl Hs]. rewrite xorInto_bytes by done. rewrite xor_bytes_map; [done|apply Ht|done]. Qed.

Lemma xorInto_offset target source off :
  is_block target -> bytes_ok source -> (off + 16 <= length source)%nat ->
  xorInto target source off = xor_bytes target (take 16 (drop off source)).
Proof.
  intros Ht Hs Hl. rewrite xorInto_bytes by done. rewrite xor_bytes_map; [|apply Ht|rewrite length_take, length_drop; lia].
  apply map_ext_in. intros i [_ Hi]%in_seq. f_equal. by rewrite !nth_lookup, lookup_take_lt, lookup_drop by lia.
Qed.

Section Correct.

Context (key : list Z) (Hkey : bytes_ok key) (Hlen : length key = 16%nat).

Abbreviation E := (EncryptBlock key).

Lemma ecb_E b : is_block b -> aesEcbEncryptBlock key b = E b.
Proof. intros [Hl Hok]. apply encrypt_block_fips; [|done|done]. split; [done|by left]. Qed.

Lemma E_block b : is_block b -> is_block (E b).
Proof.
  intros Hb. rewrite <- ecb_fips; [|split; [done|by left]|done]. apply ecb_block; [apply aes_words|done].
Qed.

Lemma zero_is_block : is_block (repeat 0 16).
Proof. split; [done|]. repeat constructor; by unfold is_byte. Qed.

Lemma subkeys_rfc : generateSubkeys key = (Rfc4493.K1 E, Rfc4493.K2 E).
Proof.
  unfold generateSubkeys, ZERO_BLOCK. rewrite ecb_E by apply zero_is_block. pose proof (E_block _ zero_is_block) as Hb.
  rewrite (reduce_double (E (repeat 0 16))) by done. fold (Rfc4493.K1 E). by rewrite (reduce_double (Rfc4493.K1 E)) by apply double_block.
Qed.

(** The last block as the code fills it. *)
Lemma set_zeros t : (length t <= 16)%nat -> set_from (repeat 0 16) t = t ++ repeat 0 (16 - length t).
Proof.
  intros Hl. unfold set_from. f_equal. replace 16%nat with (length t + (16 - length t))%nat at 1 by lia.
  rewrite repeat_app, drop_app_length'; [done|by rewrite repeat_length].
Qed.

Lemma padded_block t : (length t < 16)%nat -> store (set_from (repeat 0 16) t) (length t) 0x80 = Rfc4493.padding t.
Proof.
  intros Hl. rewrite set_zeros by lia. unfold store, Rfc4493.padding. rewrite insert_app_r_alt, Nat.sub_diag by lia.
  destruct (16 - length t)%nat as [|n] eqn:E; [lia|]. cbn [repeat insert list_insert app]. replace (15 - length t)%nat with n by lia. done.
Qed.

Lemma padding_block t : (length t < 16)%nat -> bytes_ok t -> is_block (Rfc4493.padding t).
Proof.
  intros Hl Hok. unfold Rfc4493.padding. split; [rewrite !length_app, repeat_length; cbn; lia|].
  apply Forall_app. split; [done|]. apply Forall_app. split; [repeat constructor; by unfold is_byte|].
  apply List.Forall_forall. intros x Hx%repeat_spec. subst. by unfold is_byte.
Qed.

Lemma foldl_pointwise {A B} (f g : A -> B -> A) l x : (forall y i, f y i = g y i) -> foldl f x l = foldl g x l.
Proof. intros H. revert x. induction l as [|i l IH]; intros x; [done|]. cbn. by rewrite H, IH. Qed.

(** The chain, block by block. *)
Lemma chain_blocks n fuel x m :
  (n < fuel)%nat -> (n * 16 < length m \/ n = 0)%nat -> (length m <= n * 16 + 16)%nat ->
  Rfc4493.chain E fuel x m =
  E (xor_bytes (foldl (fun x i => E (xor_bytes x (take 16 (drop (i * 16) m)))) x (seq 0 n)) (Rfc4493.last_block E (drop (n * 16) m))).
Proof.
  revert fuel x m. induction n as [|n IH]; intros [|fuel] x m Hf Hl Hu; try lia; cbn [Rfc4493.chain].
  - destruct (Nat.leb_spec (length m) 16); [done|lia].
  - destruct (Nat.leb_spec (length m) 16); [lia|]. rewrite IH by (rewrite ?length_drop; lia). f_equal.
    cbn [seq foldl]. rewrite <- seq_shift, foldl_fmap, drop_drop. cbn [Nat.mul Nat.add drop].
    f_equal. apply foldl_pointwise. intros y i. by rewrite drop_drop.
Qed.

(** The loop of the code, block by block. *)
Lemma loop_blocks n m x :
  bytes_ok m -> (n * 16 <= length m)%nat -> is_block x ->
  let y := foldl (fun x i => E (xor_bytes x (take 16 (drop (i * 16) m)))) x (seq 0 n) in
  is_block y /\ foldl (fun x i => set_from x (aesEcbEncryptBlock key (xorInto x m (i * BLOCK_SIZE)))) x (seq 0 n) = y.
Proof.
  intros Hok Hl Hx. induction n as [|n IH]; [done|]. rewrite seq_S, !foldl_app. cbn [foldl Nat.add].
  destruct (IH ltac:(lia)) as [Hy ->]. set (y := foldl _ x (seq 0 n)) in *. clearbody y.
  assert (Hb : is_block (take 16 (drop (n * 16) m))).
  { split; [rewrite length_take, length_drop; lia|by apply Forall_take, Forall_drop]. }
  assert (Hxor : is_block (xor_bytes y (take 16 (drop (n * 16) m)))) by (by apply xor_block).
  pose proof (E_block _ Hxor) as HE. split; [done|]. unfold BLOCK_SIZE. rewrite xorInto_offset, ecb_E by (done || lia).
  unfold set_from. rewrite (drop_ge y); [apply app_nil_r|]. destruct Hy as [-> _], HE as [-> _]. done.
Qed.

Lemma last_block_rfc t :
  bytes_ok t -> (length t <= 16)%nat ->
  is_block (Rfc4493.last_block E t) /\
  (if (length t =? 16)%nat then xorInto (set_from (repeat 0 16) t) (Rfc4493.K1 E) 0
   else xorInto (store (set_from (repeat 0 16) t) (length t) 0x80) (Rfc4493.K2 E) 0) = Rfc4493.last_block E t.
Proof.
  intros Hok Hl. unfold Rfc4493.last_block. destruct (Nat.eqb_spec (length t) 16) as [E16|Hn].
  - assert (Ht : is_block t) by done. split; [apply xor_block; [done|apply double_block]|].
    rewrite set_zeros, E16, app_nil_r by lia. apply xorInto_block; [done|apply double_block].
  - pose proof (padding_block t ltac:(lia) Hok) as Hp. split; [apply xor_block; [done|apply double_block]|].
    rewrite padded_block by lia. apply xorInto_block; [done|apply double_block].
Qed.

End Correct.

(** C19: With a 128 bit key the code computes AES-CMAC of RFC 4493 over the FIPS 197
    cipher for every message, the empty one included. *)
Theorem cmac_rfc4493 key message :
  length key = 16%nat -> bytes_ok key -> bytes_ok message ->
  cmac key message = Ok (Rfc4493.AES_CMAC (EncryptBlock key) message).
Proof.
  intros Hl Hk Hm. unfold cmac. rewrite Hl, (subkeys_rfc key Hk Hl). cbn [Nat.eqb negb].
  set (n := (Nat.max 1 ((length message + 15) / BLOCK_SIZE) - 1)%nat).
  assert (Hn : (n * 16 < length message \/ n = 0)%nat /\ (length message <= n * 16 + 16)%nat /\ (n * 16 <= length message)%nat).
  { unfold n, BLOCK_SIZE. pose proof (Nat.div_mod_eq (length message + 15) 16). pose proof (Nat.mod_upper_bound (length message + 15) 16 ltac:(lia)). lia. }
  destruct Hn as (Hn1 & Hn2 & Hn3). set (t := drop (n * 16) message). assert (Ht : bytes_ok t) by (by apply Forall_drop).
  assert (Hlt : length t = (length message - n * 16)%nat) by (unfold t; by rewrite length_drop).
  destruct (last_block_rfc key Hl t Ht ltac:(lia)) as [Hb Elast].
  destruct (loop_blocks key Hk Hl n message (repeat 0 16) Hm Hn3 zero_is_block) as [Hx Eloop].
  unfold Rfc4493.AES_CMAC. rewrite (chain_blocks key Hl n) by lia. fold t.
  assert (Hcomplete : ((0 <? length message) && (length message mod BLOCK_SIZE =? 0))%nat = (length t =? 16)%nat).
  { unfold BLOCK_SIZE. rewrite Hlt. replace (length message) with (length message - n * 16 + n * 16)%nat at 2 by lia. rewrite Nat.Div0.mod_add.
    destruct (Nat.eqb_spec (length message - n * 16) 16) as [E16|Hne].
    - rewrite E16. destruct (Nat.ltb_spec 0 (length message)); [done|lia].
    - destruct (Nat.eqb_spec ((length message - n * 16) mod 16) 0) as [E0|]; [|by rewrite andb_false_r].
      rewrite Nat.mod_small in E0 by lia. destruct (Nat.ltb_spec 0 (length message)); [lia|done]. }
  rewrite Hcomplete. unfold BLOCK_SIZE in *. fold t.
  assert (Etake : (if (length t =? 16)%nat then xorInto (set_from (repeat 0 16) (take 16 t)) (Rfc4493.K1 (EncryptBlock key)) 0
    else xorInto (store (set_from (repeat 0 16) (take (length message - n * 16) t)) (length message - n * 16) 0x80) (Rfc4493.K2 (EncryptBlock key)) 0)
    = Rfc4493.last_block (EncryptBlock key) t).
  { rewrite <- Elast, <- Hlt, !take_ge by lia. done. }
  rewrite Etake, Eloop, xorInto_block, ecb_E by (done || by apply xor_block). done.
Qed.

(** Example 1 of RFC 4493, section 4. *)
Lemma cmac_rfc4493_witness :
  Rfc4493.AES_CMAC (EncryptBlock fips_key) [] =
  [0xbb;0x1d;0x69;0x29;0xe9;0x59;0x37;0x28;0x7f;0xa3;0x7d;0x12;0x9b;0x75;0x67;0x46].
Proof.
  assert (H : cmac fips_key [] = Ok (Rfc4493.AES_CMAC (EncryptBlock fips_key) [])).
  { apply cmac_rfc4493; [reflexivity|exact (proj1 fips_key_ok)|constructor]. }
  assert (Hc : cmac fips_key [] = Ok [0xbb;0x1d;0x69;0x29;0xe9;0x59;0x37;0x28;0x7f;0xa3;0x7d;0x12;0x9b;0x75;0x67;0x46])
    by (vm_compute; reflexivity).
  exact (f_equal (fun r => match r with Ok a => a | Throw _ => [] end) (eq_trans (eq_sym H) Hc)).
Defined.

(** Example 3 of RFC 4493: 40 bytes, so the last block is padded. *)
Lemma cmac_example_3 :
  cmac fips_key
    [0x6b;0xc1;0xbe;0xe2;0x2e;0x40;0x9f;0x96;0xe9;0x3d;0x7e;0x11;0x73;0x93;0x17;0x2a;
     0xae;0x2d;0x8a;0x57;0x1e;0x03;0xac;0x9c;0x9e;0xb7;0x6f;0xac;0x45;0xaf;0x8e;0x51;
     0x30;0xc8;0x1c;0x46;0xa3;0x5c;0xe4;0x11] =
  Ok [0xdf;0xa6;0x67;0x47;0xde;0x9a;0xe6;0x30;0x30;0xca;0x32;0x61;0x14;0x97;0xc8;0x27].
Proof. vm_compute. reflexivity. Qed.
